(* ===== verification/_CoqProject ===== *)
-Q . S2P
Prelude.v
GoStrings.v
GoUnicode.v
NetIP.v
Config.v
Credentials.v
Domain.v
Postgres.v
RateLimit.v
RateLimitProofs.v
RegistrationStore.v
SettingsSync.v
PgSettings.v
PgSettingsProofs.v
AuditStore.v
PgAudit.v
DeliveryStore.v
DeliveryProofs.v
InboxProofs.v
PgDelivery.v
PgDeliveryProofs.v
AuthStore.v
AuthProofs.v
AuthTheorems.v
PgAuth.v
PgAuthProofs.v
EventSub.v
EventSubProofs.v
Subscriptions.v
DesiredProofs.v
SubscriptionProofs.v
PushSocket.v
PushSocketProofs.v
RegistrationInput.v
OAuth.v
OAuthProofs.v
Repositories.v
PgRegistration.v
PgRegistrationProofs.v
Server.v
ServerProofs.v
Dispatch.v
DispatchProofs.v
FlushProofs.v
UserChat.v
UserChatProofs.v
UserChatSessionProofs.v
Metadata.v
MetadataProofs.v
Sockets.v
SocketProofs.v
SyncHandlers.v
AuthHandlers.v
SubscriptionHandlers.v
Gateway.v
GatewayProofs.v
ApplicationProofs.v
LoginProofs.v
ModerationProofs.v
RevocationProofs.v
Outbound.v
OutboundProofs.v
DotEnv.v
ConfigLoad.v
ConfigProofs.v
DotEnvProofs.v
Sender.v
SenderProofs.v
LegacyImport.v
LegacyImportProofs.v
Migrations.v
MigrationProofs.v
Commands.v
