(* ===== verification/Prelude.v ===== *)
(** * Ferventio backend: verification library

    The backend turns Twitch events into push notifications.  A device
    authorizes with Twitch through the backend (authentication store),
    registers its push transport and the channels and rules it wants
    (registration store) and synchronizes its settings (settings store).
    Twitch posts signed EventSub messages to a webhook, which stores them in
    an inbox; workers route a message to the registrations that want it and
    queue one delivery per registration (delivery store); a flush sends what
    is queued for a device over its push socket or a push service, and the
    device's acknowledgement ends the delivery.  Chat is heard over WebSocket
    connections, one per user.  What happened is written to an audit log.  The
    stores have an in-memory implementation and the one of production, on a
    Postgres database that several servers share.

    ** Files

    Libraries:
    - [Prelude], this file: notations, errors and results, struct
      assignment, the Go runtime (map iteration and sorting as the class
      [GoRuntime]), orders, sorting, the loops over maps, and the state and
      error monad [M].
    - [GoStrings], [GoUnicode]: what is used of Go's [strings], [strconv],
      [net/url], [utf8] and [unicode].
    - [NetIP]: addresses and prefixes of [net/netip], host and port of [net].

    Data and stores:
    - [Config]: the [Config] struct of [internal/config/config.go].
    - [Credentials]: [internal/security/credentials.go] and its use in
      [internal/storage/memory]; base64 is written out.
    - [Domain]: the structs and limits of [internal/domain].
    - [RegistrationStore], [SettingsSync], [AuditStore]: [store.go],
      [sync_store.go] and [audit_store.go] of [internal/storage/memory],
      with their theorems.
    - [DeliveryStore]: [delivery_store.go]; [DeliveryProofs] and
      [InboxProofs] hold the theorems on the queue and on the inbox.
    - [AuthStore]: [auth_store.go]; [AuthProofs] and [AuthTheorems].
    - [Repositories]: the registration interface of
      [internal/domain/repositories.go] as a class with the laws its users
      rely on, and the in-memory store as an instance.

    The stores of production, [internal/storage/postgres]:
    - [Postgres]: statements, transactions, and connections that may fail at
      every statement ([database.go]); [Migrations]: opening the pool, and
      the migrations of the schema as a program of statements;
      [MigrationProofs]: what Postgres and its advisory lock make of the
      statements of several servers, and their theorem.
    - [PgRegistration], [PgDelivery], [PgAuth], [PgSettings], [PgAudit]: the
      files [postgres_*.go], each operation as the statements it sends, with
      what the schema of [migrations/] checks; [PgRegistrationProofs] (and
      the instance of the interface), [PgDeliveryProofs], [PgAuthProofs],
      [PgSettingsProofs].
    - [LegacyImport]: [legacy_import.go]; [LegacyImportProofs].

    The application, [internal/application]:
    - [RateLimit]: the token buckets, policies and client addresses of
      [rate_limit.go]; [RateLimitProofs].
    - [EventSub]: the verification and routing functions of [eventsub.go];
      [EventSubProofs].
    - [Subscriptions]: the subscription manager of
      [eventsub_subscriptions.go]; [DesiredProofs] on the wanted
      subscriptions, [SubscriptionProofs] on the reconciliation.
    - [PushSocket]: the framing and the hub of [push_socket.go];
      [PushSocketProofs].  [Sockets]: its upgrade handshake, the handler with
      its reader and heartbeat as steps, and the flushing workers;
      [SocketProofs].
    - [RegistrationInput]: normalization and validation of registration
      requests, from [server.go].
    - [OAuth]: the Twitch client of [twitch_oauth.go]; [OAuthProofs].
    - [Server]: the state of [Server] in [server.go], the environment, the
      request limits of [rate_limit.go] and the registration handlers;
      [ServerProofs] proves them against the interface.
    - [Dispatch]: webhook, queue, workers, delivery and flush, from
      [eventsub.go], [delivery_dispatch.go], [push_socket.go] and
      [server.go]; [DispatchProofs] and [FlushProofs].
    - [SyncHandlers]: the settings endpoints of [sync_handlers.go] and the
      session authorization of [auth_handlers.go], with their theorem.
    - [AuthHandlers]: login, lease, logout and revocation, from
      [auth_handlers.go]; [LoginProofs] and [RevocationProofs].
      [ModerationProofs]: over the same steps of the server, that moderator
      rights come from Twitch's answers.
    - [SubscriptionHandlers]: the admin endpoints and the worker of
      [eventsub_subscriptions.go], with the theorems on the whole.
    - [UserChat]: the chat connections of [user_chat_eventsub.go];
      [UserChatProofs] on the assignment and the manager,
      [UserChatSessionProofs] on a session.
    - [Metadata]: the relay of [twitch_metadata.go] and its endpoints of
      [server.go]; [MetadataProofs].
    - [Gateway]: the routes of [Handler] in [server.go], the multiplexer of
      [net/http], the remaining endpoints, and the limiter in front of them;
      [GatewayProofs].
    - [ApplicationProofs]: the running application: requests on every route,
      workers and push connections as one step relation.

    Start-up and outgoing calls:
    - [Sender]: [internal/push]; [SenderProofs].
    - [Outbound]: [internal/security/outbound.go]; [OutboundProofs].
    - [DotEnv], [ConfigLoad]: the other files of [internal/config];
      [DotEnvProofs] and [ConfigProofs].
    - [Commands]: [cmd/ferventio-backend] and [cmd/ferventio-migrate-json],
      with the theorem on the life of the server.

    ** How the code is modelled

    A Go string is a [string] of bytes; [TrimSpace] is exact, [ToLower] and
    [EqualFold] are exact on ASCII and otherwise the class [Unicode], letters
    and digits beyond Latin-1 are the class [RuneTables].  An instant is a
    number of nanoseconds since Go's zero time.  Counters that may overflow
    are wrapped to 64 bits; the tokens of the limiter are [float64] values
    with their rounding.  Maps are finite maps, slices are lists, a nil slice
    or map is the empty one.  Each exported method of a store holds the
    store's mutex, so it is one function from the state to the new state and
    the result; errors are values of [error], whose text is kept where the
    code sends it on.  The iteration order of maps and the order [sort.Slice]
    leaves among equal elements are parameters, so the theorems hold for
    every order.  SHA-256, the AEAD, the random source, HMAC, time and JSON
    parsing, the resolver and the dialler, the operating system, Twitch's
    answers and the push transports are parameters; the laws required of them
    are those of the classes and records, each with a concrete instance used
    by the witnesses.  A handler reads them from a [World] indexed by the
    number of readings so far, so that nothing is assumed of the clock or of
    what is answered next.  Persistence of the in-memory stores is their
    no-op [persistLocked], so their rollbacks after a failed save are
    modelled but not reached.

    An SQL statement is a function on the tables it names that gives the new
    tables and the rows, or the error of a violated constraint; texts must be
    UTF-8, times keep microseconds, integers have their width.  A [Link]
    decides for each statement whether it is answered, refused, or executed
    with its answer lost, and what other servers have done before it.  A
    transaction works on a copy and publishes it at its commit.  Transactions
    are executed one at a time, which the locks and unique indexes of the
    schema give for those on the same records; a count that READ COMMITTED
    takes while others insert may be lower than what is there in the end, so
    the capacities of the production stores are stated for one transaction at
    a time.  The migrations, which any number of servers run at start-up, are
    the exception: there the statements of different servers interleave, and
    the advisory lock is what separates them.  A push connection, the pool of
    flushing workers and the manager of chat connections are step relations
    or functions over the choices of the scheduler; a handler of a request is
    one step.

    Fuel: [PushSocket.readLoop] takes one turn per byte of input, and C39
    shows that more turns change nothing.  [Subscriptions.listLoop] and
    [OAuth.moderatedLoop] take one turn per page; when the turns are used up
    they fail as the code does at the deadline of its context, and C14 gives
    the number that is enough.  [UserChat.runTurns] and
    [UserChat.receiveLoop] run for as long as the session does, so the number
    of turns is how long it is watched, and the theorems hold for every
    number.  [RateLimit.evictLoop] deletes a bucket each turn and gets as many
    turns as there are buckets; [Outbound.requests] makes a request each turn
    and [redirects_bounded] shows that three are enough; the parsers of
    [GoUnicode], [NetIP] and [ConfigLoad] get the length of their input (or
    the eight groups of an IPv6 address), and each turn consumes some of it.
    Every other recursion is structural.

    ** What is proved

    Across components:
    - C1, C4, C12: a session belongs to a device that signed in itself, with
      the account of the tokens Twitch gave for that login's code and
      confirmed; a lease hands out that account's token only; revoking an
      account leaves nothing of it.
    - C5: settings are changed and disclosed, their history included, only for
      their user's sessions.
    - C6, C15: moderator rights, and subscriptions that need them, are for
      channels named in Twitch's answers about that user, for every
      implementation of the registration interface.
    - C3, C9, C10: an acknowledged webhook message is durable, a message is
      held by one worker at a time, and a flush offers all that is due, oldest
      first, and stops at the first failure.
    - C7, C8, C29: in every interleaving of requests, workers and connections
      an installation is routed to a connection that authenticated for it, a
      connection acknowledges only its own deliveries, and the slots for
      connections before authentication are exact.
    - C13, C14, C16: the wanted subscriptions are exactly those the
      registrations ask for; reconciliation converges; when the worker rests
      Twitch's table is the wanted one, for every interleaving with the
      handlers that change registrations, but for a revocation that failed
      half-way ([interrupted_revocation_stale]).
    - C28: the routes of the administrator are closed without the token.

    The stores of production, on a database that may fail at every statement
    and is shared with other servers:
    - C2, C11: the registration store refines the registry of entries owned
      by a device secret, the settings store the ledger of accepted writes;
      both keep times to the microsecond, and the second payloads as [JSONB]
      writes them, while the clock has nanoseconds.
    - C17, C21: the rows of the queue and of the inbox are well formed, and
      the SQL means what the in-memory store does at the time cut to the
      microsecond; C40 is the schedule of retries.
    - C18 to C20: revoking an account removes exactly what is its own or
      nothing, a login code works once, a running session is not taken over.
    - C22, C23: the import of old state is all or nothing and repeatable.
    - C24: for every interleaving of the servers that run them, the migrations
      are executed once, in the order of their names, or not at all, and no
      server fails because of another.

    Components:
    - C25 to C27: channels are assigned to users exactly, the chat
      connections that run are the wanted ones, and what they store was heard
      from Twitch.
    - C30, C31: only public addresses the host stands for are dialled, in
      order, and which ones are public.
    - C32, C33: an accepted configuration is within its bounds; settings
      survive the .env file.
    - C34, C35: the limiter is bounded, and counts a client under its own
      address.
    - C36: notifications respect the settings of the device.
    - C37: what leaves through the senders is within its limits.
    - C38, C39: frames round trip, and reading is bounded and terminates.

    Further theorems without a number are in the files of their components:
    the in-memory stores (refinement of the registry and of the ledger, the
    invariants of queue, inbox and authentication, final acknowledgements, no
    loss to make room), the exact burst, mentions and webhook signatures, the
    class of a request under the limiter, badges that come from Twitch,
    provider tokens, the audit log of production, the consistency of the
    authentication tables, the completeness of the import, the life of the server, and
    examples of the defects the development found.

    ** What is not modelled

    The generation of VAPID keys ([cmd/vapid]); logging; the bytes of JSON
    and HTML; panics and their recovery; deadlines and cancellation, other
    than as failures of the call they end; the effect of a migration's
    script; the planner, isolation and durability of Postgres, of which the
    section on the modelling says what is assumed. *)

From stdpp Require Export gmap strings list sorting fin_maps relations.
From Stdlib Require Export ZArith Lia Ascii Bool.

#[global] Set Default Goal Selector "!".
#[global] Open Scope Z_scope.

(** ** Notations of the development *)

Declare Scope go_scope.
Delimit Scope go_scope with go.

(** Go's [==] on comparable values, as a boolean. *)
Notation "x == y" := (bool_decide (x = y)) (at level 70, no associativity) : go_scope.
Notation "x != y" := (negb (bool_decide (x = y))) (at level 70, no associativity) : go_scope.
#[global] Open Scope go_scope.

(** Facts the components share: [eauto with go], [autorewrite with go]. *)
Create HintDb go.

(** ** Machine integers, instants and durations *)

(** Two's-complement wrap-around of Go's 64-bit [int] and [int64]. *)
Definition int64_wrap (z : Z) : Z := (z + 2 ^ 63) mod 2 ^ 64 - 2 ^ 63.
Definition max_int64 : Z := 2 ^ 63 - 1.
Definition min_int64 : Z := - 2 ^ 63.

(** An instant ([time.Time]) is the number of nanoseconds since Go's zero
    time (January 1, year 1, UTC), so the zero value is [0]; a
    [time.Duration] is a number of nanoseconds. *)
Abbreviation time := Z (only parsing).
Abbreviation duration := Z (only parsing).

Definition Second : duration := 1000000000.
Definition Minute : duration := 60 * Second.
Definition Hour : duration := 60 * Minute.

Definition IsZero (t : time) : bool := t =? 0.
Definition Before (t u : time) : bool := t <? u.
Definition After (t u : time) : bool := u <? t.
Definition Add (t : time) (d : duration) : time := t + d.

(** [Time.Sub] saturates at the extreme durations. *)
Definition Sub (t u : time) : duration := Z.max min_int64 (Z.min max_int64 (t - u)).

(** Seconds between Go's zero time and the Unix epoch. *)
Definition unixToInternal : Z := 62135596800.
Definition UnixMilli (t : time) : Z := (t - unixToInternal * Second) / 1000000.

Lemma int64_wrap_id z : min_int64 ≤ z ≤ max_int64 → int64_wrap z = z.
Proof. unfold int64_wrap, min_int64, max_int64. intros. rewrite Z.mod_small; lia. Qed.

Lemma int64_wrap_range z : min_int64 ≤ int64_wrap z ≤ max_int64.
Proof.
  unfold int64_wrap, min_int64, max_int64.
  pose proof (Z.mod_pos_bound (z + 2 ^ 63) (2 ^ 64) ltac:(lia)). lia.
Qed.

(** [Sub] only loses information on spans of more than 292 years, so it
    compares with a bound in range exactly as the difference does. *)
Lemma Sub_gt t u d : min_int64 ≤ d < max_int64 → (d <? Sub t u) = (d <? t - u).
Proof. unfold Sub, min_int64, max_int64. intros. lia. Qed.

(** ** Results of fallible operations *)

(** The sentinel errors of [internal/domain] and [errOAuthRevoked] of the
    application, and every other error as its message. *)
Inductive error :=
| ErrRegistrationNotFound
| ErrDeviceSecretMismatch
| ErrAuthNotFound
| ErrAuthExpired
| ErrAuthDeviceMismatch
| ErrAuthStateMismatch
| ErrAuthCapacity
| ErrSettingsSyncConflict
| ErrSettingsSyncRevisionNotFound
| ErrOAuthRevoked
| ErrMsg (message : string).

#[export] Instance error_eq_dec : EqDecision error.
Proof. solve_decision. Defined.

(** [err.Error()]. *)
Definition Error (e : error) : string :=
  match e with
  | ErrRegistrationNotFound => "registration not found"
  | ErrDeviceSecretMismatch => "device secret mismatch"
  | ErrAuthNotFound => "authentication record not found"
  | ErrAuthExpired => "authentication record expired"
  | ErrAuthDeviceMismatch => "authentication device mismatch"
  | ErrAuthStateMismatch => "authentication state mismatch"
  | ErrAuthCapacity => "authentication store capacity exceeded"
  | ErrSettingsSyncConflict => "settings sync revision conflict"
  | ErrSettingsSyncRevisionNotFound => "settings sync revision not found"
  | ErrOAuthRevoked => "Twitch authorization is no longer valid"
  | ErrMsg m => m
  end.

Inductive result (A : Type) :=
| Ok (a : A)
| Err (e : error).
Arguments Ok {A} a.
Arguments Err {A} e.

#[export] Instance result_eq_dec {A} `{EqDecision A} : EqDecision (result A).
Proof. solve_decision. Defined.

Definition is_ok {A} (r : result A) : bool := match r with Ok _ => true | Err _ => false end.

Definition result_bind {A B} (r : result A) (f : A → result B) : result B :=
  match r with Ok a => f a | Err e => Err e end.
Notation "'let?' x ':=' r 'in' k" := (result_bind r (λ x, k))
  (at level 10, x name, r at level 100, k at level 200) : go_scope.

(** ** Computations with state and errors

    Code that calls out many times, each call changing a state and possibly
    failing, is written in this monad: an error ends the computation and
    keeps the state reached. *)

Definition M (S A : Type) : Type := S → S * result A.
Definition ret {S A} (a : A) : M S A := λ s, (s, Ok a).
Definition fail {S A} (e : error) : M S A := λ s, (s, Err e).
Definition bind {S A B} (x : M S A) (k : A → M S B) : M S B := λ s,
  match x s with
  | (s, Ok a) => k a s
  | (s, Err e) => (s, Err e)
  end.
Notation "'let!' x ':=' c 'in' k" := (bind c (λ x, k))
  (at level 10, x name, c at level 100, k at level 200) : go_scope.

(** [fmt.Errorf(prefix + ": %w", err)] around an error. *)
Definition annotate {S A} (prefix : string) (x : M S A) : M S A := λ s,
  match x s with
  | (s, Ok a) => (s, Ok a)
  | (s, Err e) => (s, Err (ErrMsg (prefix +:+ ": " +:+ Error e)))
  end.

(** ** Struct assignment

    [r <| F := v |>] is [r] with the field [F] replaced.  A record type
    declares its eta expansion; the update at a projection is found by
    replacing that projection in the expansion. *)

Class Eta (R : Type) := eta : R → R.
Class Update {R T : Type} (proj : R → T) := update : T → R → R.
Arguments update {R T} proj {_} v r /.

Ltac solve_update :=
  lazymatch goal with
  | |- @Update ?R ?T ?proj =>
      let v := fresh "v" in
      let r := fresh "r" in
      refine (λ (v : T) (r : R), _);
      let e := eval hnf in (eta r) in
      lazymatch e with
      | context C [proj r] => let e' := context C [v] in exact e'
      end
  end.
#[export] Hint Extern 0 (Update _) => solve_update : typeclass_instances.

Notation "r <| F := v |>" := (update F v r)
  (at level 1, left associativity, F at level 0, v at level 200, format "r  <| F  :=  v |>") : go_scope.

(** ** The Go runtime: map iteration and sorting

    The order in which [range] visits a map is unspecified, and
    [sort.Slice] leaves the order of equivalent elements unspecified.  Both
    are parameters of the model; a client relies only on the laws below, so
    a theorem holds for every order the runtime may choose. *)

(** What [sort.Slice] requires of its [less] argument. *)
Class StrictWeak {A} (less : A → A → bool) : Prop := {
  less_irrefl x : less x x = false;
  less_trans x y z : less x y = true → less y z = true → less x z = true;
  less_negtrans x y z : less x y = false → less y z = false → less x z = false
}.

Class GoRuntime := {
  rangeMap : ∀ {V : Type}, gmap string V → list (string * V);
  sortSlice : ∀ {A : Type}, (A → A → bool) → list A → list A;
  rangeMap_perm : ∀ V (m : gmap string V), rangeMap m ≡ₚ map_to_list m;
  sortSlice_perm : ∀ A (less : A → A → bool) l, sortSlice less l ≡ₚ l;
  sortSlice_sorted : ∀ A (less : A → A → bool) l,
    StrictWeak less → StronglySorted (λ x y, less y x = false) (sortSlice less l)
}.

Lemma less_asym {A} (less : A → A → bool) `{!StrictWeak less} x y :
  less x y = true → less y x = false.
Proof.
  intros Hxy. destruct (less y x) eqn:Hyx; [|done].
  by rewrite <-(less_irrefl (less:=less) x), (less_trans (less:=less) x y x).
Qed.

(** A runtime that iterates in the order of the map's representation and
    sorts with a stable merge sort: the interface is inhabited. *)
Definition stable_sort {A} (less : A → A → bool) : list A → list A :=
  @merge_sort A (λ x y, less y x = false) (λ x y, bool_eq_dec (less y x) false).

#[refine] Definition reference_runtime : GoRuntime := {|
  rangeMap V m := map_to_list m;
  sortSlice A less l := stable_sort less l
|}.
Proof.
  - intros V m. reflexivity.
  - intros. apply merge_sort_Permutation.
  - intros A less l Hless. apply StronglySorted_merge_sort.
    + intros x y z Hxy Hyz. by apply (less_negtrans (less:=less) z y x).
    + intros x y. destruct (less y x) eqn:Hyx; [right|by left].
      by apply less_asym.
Defined.

(** ** Orders used by the comparators *)

(** Go's [<] on strings: bytewise lexicographic. *)
Definition string_lt (a b : string) : bool := String.ltb a b.

(** [t] ascending, ties broken by [id] ascending. *)
Definition lex_less {A} (t : A → Z) (id : A → string) (x y : A) : bool :=
  if t x =? t y then string_lt (id x) (id y) else t x <? t y.

Lemma string_lt_spec a b : string_lt a b = true ↔ String.le a b ∧ a ≠ b.
Proof.
  unfold string_lt, String.ltb, String.le, String.leb.
  destruct (String.compare a b) eqn:Hc; split; try done.
  - intros [_ Hne]. by apply String.compare_eq_iff in Hc.
  - intros _. split; [done|]. intros ->.
    pose proof (String.compare_antisym b b) as Ha. by rewrite Hc in Ha.
  - by intros [[] _].
Qed.

Lemma string_lt_false a b : string_lt a b = false ↔ String.le b a.
Proof.
  rewrite <-Bool.not_true_iff_false, string_lt_spec. split.
  - intros Hn. destruct (total String.le a b) as [H|H]; [|done].
    destruct (decide (a = b)) as [->|Hne]; [done|]. by destruct Hn.
  - intros Hle [Hle' Hne]. by apply Hne, (anti_symm String.le).
Qed.

#[export] Instance string_lt_strict_weak : StrictWeak string_lt.
Proof.
  split.
  - intros x. by rewrite string_lt_false.
  - intros x y z. rewrite !string_lt_spec. intros [Hxy ?] [Hyz ?]. split; [by etrans|].
    intros ->. by assert (y = z) by by apply (anti_symm String.le).
  - intros x y z. rewrite !string_lt_false. intros ??. by etrans.
Qed.

#[export] Instance less_on_strict_weak {A} (t : A → Z) : StrictWeak (λ x y, t x <? t y).
Proof. split; intros; lia. Qed.

#[export] Instance lex_less_strict_weak {A} (t : A → Z) (id : A → string) :
  StrictWeak (lex_less t id).
Proof.
  split; unfold lex_less.
  - intros x. rewrite Z.eqb_refl. apply less_irrefl.
  - intros x y z Hxy Hyz.
    destruct (Z.eqb_spec (t x) (t y)), (Z.eqb_spec (t y) (t z)), (Z.eqb_spec (t x) (t z));
      try lia; by eapply (less_trans (less:=string_lt)).
  - intros x y z Hxy Hyz.
    destruct (Z.eqb_spec (t x) (t y)), (Z.eqb_spec (t y) (t z)), (Z.eqb_spec (t x) (t z));
      try lia; by eapply (less_negtrans (less:=string_lt)).
Qed.

#[export] Instance flip_strict_weak {A} (less : A → A → bool) :
  StrictWeak less → StrictWeak (flip less).
Proof.
  intros H. split; unfold flip; intros.
  - apply less_irrefl.
  - by eapply less_trans.
  - by eapply less_negtrans.
Qed.

(** [t] descending, ties broken by [id] descending. *)
Definition lex_greater {A} (t : A → Z) (id : A → string) (x y : A) : bool :=
  if t x =? t y then string_lt (id y) (id x) else t y <? t x.

#[export] Instance lex_greater_strict_weak {A} (t : A → Z) (id : A → string) :
  StrictWeak (lex_greater t id).
Proof.
  assert (∀ x y, lex_greater t id x y = lex_less t id y x) as Heq.
  { intros x y. unfold lex_greater, lex_less. by rewrite Z.eqb_sym. }
  destruct (flip_strict_weak (lex_less t id) _) as [H1 H2 H3]. unfold flip in *.
  split; intros *; rewrite !Heq; eauto.
Qed.

(** Elements that [lex_less] cannot separate share their identifier. *)
Lemma lex_less_tie {A} (t : A → Z) (id : A → string) x y :
  lex_less t id x y = false → lex_less t id y x = false → id x = id y.
Proof.
  unfold lex_less. destruct (Z.eqb_spec (t x) (t y)), (Z.eqb_spec (t y) (t x)); try lia.
  rewrite !string_lt_false. intros. by apply (anti_symm String.le).
Qed.

Lemma string_lt_tie a b : string_lt a b = false → string_lt b a = false → a = b.
Proof. rewrite !string_lt_false. intros. by apply (anti_symm String.le). Qed.

Lemma in_sorted_cases {A} (R : A → A → Prop) (l : list A) x y :
  StronglySorted R l → x ∈ l → y ∈ l → x = y ∨ R x y ∨ R y x.
Proof.
  induction 1 as [|z l Hl IH Hz]; [by intros ?%elem_of_nil|].
  rewrite Forall_forall in Hz.
  intros [->|Hx]%elem_of_cons [->|Hy]%elem_of_cons;
    [by left|by right; left; apply Hz|by right; right; apply Hz|by apply IH].
Qed.

Lemma StronglySorted_weaken {A} (R S : A → A → Prop) (l : list A) :
  (∀ x y, R x y → S x y) → StronglySorted R l → StronglySorted S l.
Proof. intros HRS. induction 1; constructor; eauto using Forall_impl. Qed.

Section Sorting.
Context {A : Type} (less : A → A → bool) `{!StrictWeak less}.

(** The result of a sort whose comparator separates the elements does not
    depend on the runtime nor on the order of the input. *)
Lemma sortSlice_deterministic (rt1 rt2 : GoRuntime) (l1 l2 : list A) :
  (∀ x y, x ∈ l1 → y ∈ l1 → less x y = false → less y x = false → x = y) →
  l1 ≡ₚ l2 →
  @sortSlice rt1 A less l1 = @sortSlice rt2 A less l2.
Proof.
  intros Htie Hperm.
  apply (StronglySorted_unique_strong (λ x y, less y x = false)).
  - intros x y. rewrite (sortSlice_perm _ less l1), (sortSlice_perm _ less l2), <-Hperm.
    intros. by apply Htie.
  - by apply sortSlice_sorted.
  - by apply sortSlice_sorted.
  - by rewrite (sortSlice_perm _ less l1), (sortSlice_perm _ less l2).
Qed.

(** Sorting a strictly sorted slice leaves it as it is. *)
Lemma sortSlice_id (rt : GoRuntime) (l : list A) :
  StronglySorted (λ x y, less x y = true) l → sortSlice less l = l.
Proof.
  intros Hs. apply (StronglySorted_unique_strong (λ x y, less y x = false)).
  - intros x y Hx Hy Hyx Hxy. rewrite sortSlice_perm in Hx.
    destruct (in_sorted_cases _ _ x y Hs Hx Hy) as [?|[?|?]]; [done|congruence..].
  - by apply sortSlice_sorted.
  - eapply StronglySorted_weaken; [|exact Hs]. intros x y. by apply less_asym.
  - apply sortSlice_perm.
Qed.

(** A sort of distinct, separated elements is strictly increasing. *)
Lemma sorted_strict (l : list A) :
  NoDup l → StronglySorted (λ x y, less y x = false) l →
  (∀ x y, x ∈ l → y ∈ l → less x y = false → less y x = false → x = y) →
  StronglySorted (λ x y, less x y = true) l.
Proof.
  intros Hnd Hs. induction Hs as [|x l Hs IH Hx]; intros Htie; constructor;
    apply NoDup_cons in Hnd as [Hnin Hnd].
  - apply IH; [done|]. intros y z ??. apply Htie; by right.
  - rewrite Forall_forall in Hx |- *. intros y Hy. destruct (less x y) eqn:Hxy; [done|].
    destruct Hnin. rewrite (Htie x y); [done|by left|by right|done|by apply Hx].
Qed.

Lemma strict_NoDup (l : list A) : StronglySorted (λ x y, less x y = true) l → NoDup l.
Proof.
  induction 1 as [|x l _ IH Hx]; constructor; [|done]. intros Hin.
  rewrite Forall_forall in Hx. pose proof (Hx x Hin) as H. by rewrite (less_irrefl (less:=less)) in H.
Qed.
End Sorting.

(** ** Loops over a map *)

Section Loops.
Context {rt : GoRuntime} {V : Type}.
Implicit Types (m : gmap string V) (k : string) (v : V).

(** [for k, v := range m { m[k] = v' }] or [delete(m, k)]: the body sets or
    deletes the entry it visits. *)
Definition range_update (f : string → V → option V) m : gmap string V :=
  foldl (λ acc '(k, v), match f k v with Some v' => <[k:=v']> acc | None => delete k acc end)
    m (rangeMap m).

(** [for k, v := range m { if p { delete(m, k) } }]. *)
Definition range_delete (p : string → V → bool) m : gmap string V :=
  foldl (λ acc '(k, v), if p k v then delete k acc else acc) m (rangeMap m).

(** The same loop when it also counts what it deletes. *)
Definition range_delete_count (p : string → V → bool) m : gmap string V * Z :=
  foldl (λ '(acc, n) '(k, v), if p k v then (delete k acc, n + 1) else (acc, n))
    (m, 0) (rangeMap m).

(** [result := make(map); for k, v := range m { result[k] = v }]. *)
Definition range_copy m : gmap string V :=
  foldl (λ acc '(k, v), <[k:=v]> acc) ∅ (rangeMap m).

(** [for k, v := range m { if p { return ... } }]. *)
Definition range_find (p : string → V → bool) m : option (string * V) :=
  List.find (λ kv, p kv.1 kv.2) (rangeMap m).

(** [for k, v := range m { if p { found = true } }]. *)
Definition range_exists (p : string → V → bool) m : bool :=
  existsb (λ kv, p kv.1 kv.2) (rangeMap m).

(** [for _, v := range m { if p { result = append(result, v) } }]. *)
Definition range_collect (p : V → bool) m : list V :=
  List.filter p (rangeMap m).*2.

(** The search for the entry with the oldest stamp, as the eviction loops
    write it: [""] stands for "none yet". *)
Definition range_oldest (stamp : V → time) m : string * time :=
  foldl (λ '(oldestKey, oldest) '(k, v),
      if (oldestKey == "") || Before (stamp v) oldest then (k, stamp v) else (oldestKey, oldest))
    ("", 0) (rangeMap m).

Lemma elem_of_rangeMap m k v : (k, v) ∈ rangeMap m ↔ m !! k = Some v.
Proof. rewrite rangeMap_perm. apply elem_of_map_to_list. Qed.

Lemma NoDup_rangeMap m : NoDup (rangeMap m).*1.
Proof. rewrite rangeMap_perm. apply NoDup_fst_map_to_list. Qed.

Lemma length_rangeMap m : length (rangeMap m) = size m.
Proof. rewrite rangeMap_perm. apply length_map_to_list. Qed.

Lemma rangeMap_lookup_None m k : m !! k = None → k ∉ (rangeMap m).*1.
Proof.
  intros Hk ([k' v] & -> & Hin)%list_elem_of_fmap. simpl in *.
  apply elem_of_rangeMap in Hin. congruence.
Qed.

(** The general loop invariant behind [range_update]. *)
Lemma foldl_update_lookup (f : string → V → option V) (l : list (string * V)) m k :
  NoDup l.*1 →
  (∀ v, (k, v) ∈ l →
     foldl (λ acc '(k, v), match f k v with Some v' => <[k:=v']> acc | None => delete k acc end)
       m l !! k = f k v) ∧
  (k ∉ l.*1 →
     foldl (λ acc '(k, v), match f k v with Some v' => <[k:=v']> acc | None => delete k acc end)
       m l !! k = m !! k).
Proof.
  revert m. induction l as [|[k0 v0] l IH]; intros m Hnd; simpl in *.
  { split; [by intros v ?%elem_of_nil|done]. }
  apply NoDup_cons in Hnd as [Hk0 Hnd]. split.
  - intros v [[= -> ->]|Hin]%elem_of_cons.
    + rewrite (proj2 (IH _ Hnd)) by done.
      destruct (f k0 v0); by rewrite ?lookup_insert_eq, ?lookup_delete_eq.
    + by apply IH.
  - rewrite not_elem_of_cons. intros [Hne Hnin]. rewrite (proj2 (IH _ Hnd)) by done.
    destruct (f k0 v0); by rewrite ?lookup_insert_ne, ?lookup_delete_ne.
Qed.

Lemma range_update_lookup f m k : range_update f m !! k = m !! k ≫= f k.
Proof.
  destruct (foldl_update_lookup f (rangeMap m) m k (NoDup_rangeMap m)) as [Hin Hout].
  unfold range_update. destruct (m !! k) as [v|] eqn:Hk; simpl.
  - by apply Hin, elem_of_rangeMap.
  - rewrite Hout; [done|]. by apply rangeMap_lookup_None.
Qed.

Lemma range_update_imap f m : range_update f m = map_imap f m.
Proof. apply map_eq. intros k. by rewrite range_update_lookup, map_lookup_imap. Qed.

Lemma range_delete_count_foldl (p : string → V → bool) (l : list (string * V)) m n :
  NoDup l.*1 → (∀ k v, (k, v) ∈ l → m !! k = Some v) →
  let r := foldl (λ '(acc, n) '(k, v), if p k v then (delete k acc, n + 1) else (acc, n)) (m, n) l in
  r.1 = foldl (λ acc '(k, v), if p k v then delete k acc else acc) m l ∧
  r.2 + Z.of_nat (size r.1) = n + Z.of_nat (size m).
Proof.
  revert m n. induction l as [|[k0 v0] l IH]; intros m n Hnd Hin; simpl in *; [done|].
  apply NoDup_cons in Hnd as [Hk0 Hnd].
  assert (∀ k v, (k, v) ∈ l → m !! k = Some v) as Htl by (intros; apply Hin; by right).
  destruct (p k0 v0); [|by apply IH].
  destruct (IH (delete k0 m) (n + 1)) as [H1 H2]; [done| |].
  { intros k v Hkv. rewrite lookup_delete_ne; [by apply Htl|].
    intros ->. apply Hk0, list_elem_of_fmap. by exists (k, v). }
  split; [done|]. rewrite H2.
  rewrite (map_size_delete_Some k0 m) by (eexists; apply Hin; by left).
  assert (size m ≠ 0%nat); [|lia].
  apply map_size_ne_0_lookup. exists k0. eexists. apply Hin. by left.
Qed.

Lemma range_delete_update p m :
  range_delete p m = range_update (λ k v, if p k v then None else Some v) m.
Proof.
  unfold range_delete, range_update.
  assert (∀ l m', (∀ k v, (k, v) ∈ l → m' !! k = Some v) → NoDup l.*1 →
    foldl (λ acc '(k, v), if p k v then delete k acc else acc) m' l =
    foldl (λ acc '(k, v), match (if p k v then None else Some v) with
      Some v' => <[k:=v']> acc | None => delete k acc end) m' l) as Hgen.
  { induction l as [|[k0 v0] l IH]; intros m' Hin Hnd; simpl in *; [done|].
    apply NoDup_cons in Hnd as [Hk0 Hnd].
    destruct (p k0 v0).
    - apply IH; [|done]. intros k v Hkv. rewrite lookup_delete_ne; [apply Hin; by right|].
      intros ->. apply Hk0, list_elem_of_fmap. by exists (k, v).
    - rewrite insert_id by (apply Hin; by left). apply IH; [|done].
      intros; apply Hin; by right. }
  apply Hgen; [|apply NoDup_rangeMap]. intros k v. apply elem_of_rangeMap.
Qed.

Lemma range_delete_lookup p m k :
  range_delete p m !! k = m !! k ≫= λ v, if p k v then None else Some v.
Proof. by rewrite range_delete_update, range_update_lookup. Qed.

Lemma range_delete_Some p m k v :
  range_delete p m !! k = Some v ↔ m !! k = Some v ∧ p k v = false.
Proof.
  rewrite range_delete_lookup. destruct (m !! k) as [v'|]; simpl.
  - destruct (p k v') eqn:Hp; split.
    + done.
    + intros [[= ->] ?]. congruence.
    + by intros [= ->].
    + by intros [[= ->] _].
  - split; [done|]. by intros [? _].
Qed.

Lemma range_delete_subseteq p m : range_delete p m ⊆ m.
Proof. apply map_subseteq_spec. intros k v [? _]%range_delete_Some. done. Qed.

Lemma range_delete_size p m : (size (range_delete p m) ≤ size m)%nat.
Proof. apply map_subseteq_size, range_delete_subseteq. Qed.

Lemma range_delete_count_spec p m :
  (range_delete_count p m).1 = range_delete p m ∧
  (range_delete_count p m).2 = Z.of_nat (size m) - Z.of_nat (size (range_delete p m)).
Proof.
  destruct (range_delete_count_foldl p (rangeMap m) m 0) as [H1 H2].
  { apply NoDup_rangeMap. }
  { intros k v. apply elem_of_rangeMap. }
  split; [done|]. unfold range_delete_count, range_delete in *. rewrite <-H1. lia.
Qed.

Lemma range_copy_id m : range_copy m = m.
Proof.
  assert (∀ (l : list (string * V)) (acc : gmap string V),
    NoDup l.*1 → (∀ k, k ∈ l.*1 → acc !! k = None) →
    foldl (λ acc '(k, v), <[k:=v]> acc) acc l = list_to_map l ∪ acc) as Hgen.
  { induction l as [|[k v] l IH]; intros acc Hnd Hfresh; simpl in *.
    { by rewrite (left_id_L ∅ (∪)). }
    apply NoDup_cons in Hnd as [Hk Hnd]. rewrite IH; [|done|].
    - rewrite <-insert_union_l, insert_union_r by by apply not_elem_of_list_to_map_1. done.
    - intros k' Hk'. rewrite lookup_insert_ne; [apply Hfresh; by right|]. by intros ->. }
  unfold range_copy. rewrite Hgen; [|apply NoDup_rangeMap|by intros; apply lookup_empty].
  rewrite (right_id_L ∅ (∪)). apply map_to_list_inj.
  by rewrite map_to_list_to_map, rangeMap_perm by apply NoDup_rangeMap.
Qed.

Lemma range_find_Some p m k v :
  range_find p m = Some (k, v) → m !! k = Some v ∧ p k v = true.
Proof. intros [Hin Hp]%find_some. by apply list_elem_of_In, elem_of_rangeMap in Hin. Qed.

Lemma range_find_None p m :
  range_find p m = None ↔ ∀ k v, m !! k = Some v → p k v = false.
Proof.
  split.
  - intros Hf k v Hk%elem_of_rangeMap%list_elem_of_In.
    by apply (find_none _ _ Hf (k, v)).
  - intros Hall. destruct (range_find p m) as [[k v]|] eqn:Hf; [|done].
    apply range_find_Some in Hf as [Hk Hp]. by rewrite (Hall k v Hk) in Hp.
Qed.

Lemma range_exists_true p m :
  range_exists p m = true ↔ ∃ k v, m !! k = Some v ∧ p k v = true.
Proof.
  unfold range_exists. rewrite existsb_exists. split.
  - intros ([k v] & Hin%list_elem_of_In%elem_of_rangeMap & Hp). eauto.
  - intros (k & v & Hk%elem_of_rangeMap%list_elem_of_In & Hp). by exists (k, v).
Qed.

Lemma range_exists_false p m :
  range_exists p m = false ↔ ∀ k v, m !! k = Some v → p k v = false.
Proof.
  rewrite <-not_true_iff_false, range_exists_true. split.
  - intros Hn k v Hk. apply not_true_iff_false. naive_solver.
  - intros Hall (k & v & Hk & Hp). by rewrite (Hall k v Hk) in Hp.
Qed.

Lemma elem_of_range_collect p m v :
  v ∈ range_collect p m ↔ ∃ k, m !! k = Some v ∧ p v = true.
Proof.
  unfold range_collect.
  rewrite list_elem_of_In, filter_In, <-list_elem_of_In, list_elem_of_fmap. split.
  - intros [([k v'] & -> & Hin%elem_of_rangeMap) Hp]. eauto.
  - intros (k & Hk%elem_of_rangeMap & Hp). split; [|done]. by exists (k, v).
Qed.

(** [range_oldest] picks an entry of a nonempty map ... *)
Lemma range_oldest_foldl (stamp : V → time) (l : list (string * V)) acc :
  let r := foldl (λ '(oldestKey, oldest) '(k, v),
      if (oldestKey == "") || Before (stamp v) oldest then (k, stamp v) else (oldestKey, oldest))
    acc l in
  (r = acc ∧ (l = [] ∨ acc.1 ≠ "") ∨ ∃ k v, (k, v) ∈ l ∧ r = (k, stamp v)) ∧
  ("" ∉ l.*1 → acc.1 ≠ "" → r.2 ≤ acc.2 ∧ ∀ k v, (k, v) ∈ l → r.2 ≤ stamp v).
Proof.
  revert acc. induction l as [|[k0 v0] l IH]; intros [ok o]; simpl.
  { split; [by left; split; [|left]|]. intros _ _. split; [lia|]. by intros ?? ?%elem_of_nil. }
  specialize (IH (if (ok == "") || Before (stamp v0) o then (k0, stamp v0) else (ok, o))).
  destruct IH as [Hin Hmin]. split.
  - destruct Hin as [[-> Hne]|(k & v & Hkv & ->)].
    + destruct (bool_decide_reflect (ok = "")) as [->|Hok]; simpl.
      { right. exists k0, v0. split; [by left|done]. }
      destruct (Before (stamp v0) o); [|left; by split; [|right]].
      right. exists k0, v0. split; [by left|done].
    + right. exists k, v. split; [by right|done].
  - rewrite not_elem_of_cons. intros [Hk0 Hl] Hok.
    rewrite bool_decide_false in Hmin |- * by done. simpl in *. unfold Before in *.
    destruct (Z.ltb_spec (stamp v0) o); destruct Hmin as [Hle Hmin]; simpl in *; try done.
    + split; [lia|]. intros k v [[= -> ->]|?]%elem_of_cons; [done|eauto].
    + split; [lia|]. intros k v [[= -> ->]|?]%elem_of_cons; [lia|eauto].
Qed.

Lemma range_oldest_lookup (stamp : V → time) m :
  m ≠ ∅ → ∃ v, m !! (range_oldest stamp m).1 = Some v ∧ (range_oldest stamp m).2 = stamp v.
Proof.
  intros Hne. destruct (range_oldest_foldl stamp (rangeMap m) ("", 0)) as [Hin _].
  unfold range_oldest. destruct Hin as [[-> [Hnil|?]]|(k & v & Hkv & ->)]; [|done|].
  - destruct Hne. apply map_size_empty_inv. by rewrite <-length_rangeMap, Hnil.
  - exists v. by apply elem_of_rangeMap in Hkv.
Qed.

(** ... and, when [""] is not a key, one with the smallest stamp. *)
Lemma range_oldest_min (stamp : V → time) m k v :
  m !! "" = None → m !! k = Some v → (range_oldest stamp m).2 ≤ stamp v.
Proof.
  intros Hnone Hk%elem_of_rangeMap. apply rangeMap_lookup_None in Hnone.
  unfold range_oldest. destruct (rangeMap m) as [|[k0 v0] l]; [by apply elem_of_nil in Hk|].
  simpl in *. apply not_elem_of_cons in Hnone as [Hk0 Hl].
  destruct (range_oldest_foldl stamp l (k0, stamp v0)) as [_ Hmin].
  destruct Hmin as [Hle Hmin]; [done..|]. simpl in *.
  apply elem_of_cons in Hk as [[= -> ->]|Hk]; [done|by eapply Hmin].
Qed.

End Loops.

Lemma filter_bool_perm {A} (p : A → bool) (l1 l2 : list A) :
  l1 ≡ₚ l2 → List.filter p l1 ≡ₚ List.filter p l2.
Proof. induction 1; simpl; repeat case_match; eauto using Permutation. Qed.

Lemma filter_bool_sublist {A} (p : A → bool) (l : list A) : List.filter p l `sublist_of` l.
Proof. induction l; simpl; [done|]. case_match; by constructor. Qed.

Lemma elem_of_filter_bool {A} (p : A → bool) (l : list A) x :
  x ∈ List.filter p l ↔ x ∈ l ∧ p x = true.
Proof. by rewrite list_elem_of_In, filter_In, <-list_elem_of_In. Qed.

Lemma filter_comm_bool {A} (p q : A → bool) (l : list A) :
  List.filter p (List.filter q l) = List.filter q (List.filter p l).
Proof. induction l as [|x l IH]; [done|]. simpl. destruct (q x) eqn:Hq, (p x) eqn:Hp; simpl; rewrite ?Hp, ?Hq, IH; done. Qed.

Lemma filter_all {A} (p : A → bool) (l : list A) : (∀ x, x ∈ l → p x = true) → List.filter p l = l.
Proof.
  induction l as [|x l IH]; [done|]. intros H. simpl. rewrite (H x) by by left.
  f_equal. apply IH. intros y Hy. apply H. by right.
Qed.

Lemma filter_none {A} (p : A → bool) (l : list A) : (∀ x, x ∈ l → p x = false) → List.filter p l = [].
Proof.
  induction l as [|x l IH]; [done|]. intros H. simpl. rewrite (H x) by by left.
  apply IH. intros y Hy. apply H. by right.
Qed.

Lemma NoDup_fmap_filter {A B} (f : A → B) (p : A → bool) (l : list A) :
  NoDup (f <$> l) → NoDup (f <$> List.filter p l).
Proof.
  induction l as [|x l IH]; [done|]. rewrite fmap_cons, NoDup_cons. intros [Hx Hl]. simpl.
  destruct (p x); [|by apply IH]. rewrite fmap_cons, NoDup_cons. split; [|by apply IH].
  intros (y & Hxy & [Hy _]%elem_of_filter_bool)%list_elem_of_fmap.
  apply Hx, list_elem_of_fmap. eauto.
Qed.

(** A map without repeated values separates the elements of the list. *)
Lemma NoDup_fmap_elem {A B} (f : A → B) (l : list A) x y :
  NoDup (f <$> l) → x ∈ l → y ∈ l → f x = f y → x = y.
Proof.
  intros Hnd [i Hi]%list_elem_of_lookup [j Hj]%list_elem_of_lookup Heq.
  assert (i = j) as <-; [|congruence].
  eapply (NoDup_lookup _ i j (f x) Hnd); rewrite list_lookup_fmap; [by rewrite Hi|by rewrite Hj, Heq].
Qed.

(** Two runtimes collect the same values, in orders that may differ. *)
Lemma range_collect_perm (rt1 rt2 : GoRuntime) {V} (p : V → bool) (m : gmap string V) :
  @range_collect rt1 V p m ≡ₚ @range_collect rt2 V p m.
Proof.
  unfold range_collect.
  assert ((@rangeMap rt1 V m).*2 ≡ₚ (@rangeMap rt2 V m).*2) as H.
  { by rewrite (@rangeMap_perm rt1), (@rangeMap_perm rt2). }
  by apply filter_bool_perm.
Qed.

Lemma map_Forall_sub {V} (P : string → V → Prop) (m m' : gmap string V) :
  m' ⊆ m → map_Forall P m → map_Forall P m'.
Proof. intros Hsub Hm k v Hk. apply Hm. by eapply lookup_weaken. Qed.
