(* ===== verification/GoStrings.v ===== *)
(** * Go strings

    A Go string is a sequence of bytes; here it is a [string] of the
    Standard Library, whose characters are bytes.  This file models the
    functions of Go's [strings] package the backend uses.  [TrimSpace] is
    exact on every string: it strips the UTF-8 encodings of the white-space
    runes of Unicode.  [ToLower] and [EqualFold] are exact on ASCII strings;
    on a string with a non-ASCII byte they are the class [Unicode], whose
    members stand for Go's case tables. *)

From S2P Require Import Prelude.

(** [len(s)]. *)
Definition len (s : string) : Z := Z.of_nat (String.length s).

(** [s[:n]] and [s[n:]] for [n] in range. *)
Fixpoint take_str (n : nat) (s : string) : string :=
  match n, s with
  | S n, String c s => String c (take_str n s)
  | _, _ => ""
  end.

Fixpoint drop_str (n : nat) (s : string) : string :=
  match n, s with
  | S n, String c s => drop_str n s
  | _, _ => s
  end.

Definition HasPrefix (s pre : string) : bool := String.prefix pre s.

Definition TrimPrefix (s pre : string) : string :=
  if HasPrefix s pre then drop_str (String.length pre) s else s.

Definition HasSuffix (s suffix : string) : bool :=
  drop_str (String.length s - String.length suffix) s == suffix.

Definition TrimSuffix (s suffix : string) : string :=
  let n := (String.length s - String.length suffix)%nat in
  if drop_str n s == suffix then take_str n s else s.

(** [strings.Index(s, sub)], [None] for [-1]. *)
Fixpoint Index (s sub : string) : option nat :=
  if String.prefix sub s then Some 0%nat else
  match s with
  | "" => None
  | String _ s => S <$> Index s sub
  end.

Definition Contains (s sub : string) : bool := if Index s sub then true else false.

(** [strings.Split(s, sep)] for a one-byte separator. *)
Fixpoint Split (sep : ascii) (s : string) : list string :=
  match s with
  | "" => [""]
  | String c s =>
      let rest := Split sep s in
      if bool_decide (c = sep) then "" :: rest else
      match rest with
      | h :: t => String c h :: t
      | [] => [String c ""]
      end
  end.

(** [strings.Join(l, sep)]. *)
Fixpoint Join (l : list string) (sep : string) : string :=
  match l with
  | [] => ""
  | [s] => s
  | s :: l => s +:+ sep +:+ Join l sep
  end.

(** ** URL encoding: [url.QueryEscape] and [url.Values.Encode] *)

Definition unreserved (c : ascii) : bool :=
  let v := Z.of_N (N_of_ascii c) in
  ((48 <=? v) && (v <=? 57)) || ((65 <=? v) && (v <=? 90)) || ((97 <=? v) && (v <=? 122)) ||
  (v =? 45) || (v =? 95) || (v =? 46) || (v =? 126).

Definition upperHex (d : Z) : ascii := ascii_of_N (Z.to_N (if d <? 10 then 48 + d else 55 + d)).

Fixpoint QueryEscape (s : string) : string :=
  match s with
  | "" => ""
  | String c s =>
      if c == " "%char then String "+" (QueryEscape s) else
      if unreserved c then String c (QueryEscape s) else
      let v := Z.of_N (N_of_ascii c) in
      String "%" (String (upperHex (v / 16)) (String (upperHex (v mod 16)) (QueryEscape s)))
  end.

(** One value for each key; the pairs are listed in the order of the keys. *)
Definition encodeValues (values : list (string * string)) : string :=
  Join ((λ kv, QueryEscape kv.1 +:+ "=" +:+ QueryEscape kv.2) <$> values) "&".

(** ** Numbers *)

(** [strconv.ParseInt(s, 10, 64)]; [None] for an error. *)
Definition digit (c : ascii) : option Z :=
  let v := Z.of_N (N_of_ascii c) in
  if (48 <=? v) && (v <=? 57) then Some (v - 48) else None.
Fixpoint parseDigits (acc : Z) (s : string) : option Z :=
  match s with
  | "" => Some acc
  | String c s => d ← digit c; parseDigits (acc * 10 + d) s
  end.
Definition ParseInt (s : string) : option Z :=
  let '(sign, digits) :=
    match s with
    | String "+" rest => (1, rest)
    | String "-" rest => (-1, rest)
    | _ => (1, s)
    end in
  if digits == "" then None else
  v ← parseDigits 0 digits;
  let v := sign * v in
  if (min_int64 <=? v) && (v <=? max_int64) then Some v else None.

(** [strconv.ParseBool]. *)
Definition ParseBool (s : string) : option bool :=
  if bool_decide (s ∈ ["1"; "t"; "T"; "TRUE"; "true"; "True"]) then Some true else
  if bool_decide (s ∈ ["0"; "f"; "F"; "FALSE"; "false"; "False"]) then Some false else None.

(** ** White space *)

Module Space.

Definition code (c : ascii) : N := N_of_ascii c.

(** The white-space runes, by the length of their UTF-8 encoding:
    U+0009 to U+000D and U+0020; U+0085 and U+00A0; U+1680, U+2000 to
    U+200A, U+2028, U+2029, U+202F, U+205F and U+3000. *)
Definition space1 (a : ascii) : bool :=
  (((9 <=? code a) && (code a <=? 13)) || (code a =? 32))%N.

Definition space2 (a b : ascii) : bool :=
  ((code a =? 194) && ((code b =? 133) || (code b =? 160)))%N.

Definition space3 (a b c : ascii) : bool :=
  ((code a =? 225) && (code b =? 154) && (code c =? 128)
   || (code a =? 226) && (code b =? 128) &&
      ((128 <=? code c) && (code c <=? 138) || (code c =? 168) || (code c =? 169) || (code c =? 175))
   || (code a =? 226) && (code b =? 129) && (code c =? 159)
   || (code a =? 227) && (code b =? 128) && (code c =? 128))%N.

Section Trim.
Context (s1 : ascii → bool) (s2 : ascii → ascii → bool) (s3 : ascii → ascii → ascii → bool).

(** Drop encodings of the class from the front. *)
Fixpoint trim (l : list ascii) : list ascii :=
  match l with
  | a :: l1 =>
      if s1 a then trim l1 else
      match l1 with
      | b :: l2 =>
          if s2 a b then trim l2 else
          match l2 with
          | c :: l3 => if s3 a b c then trim l3 else l
          | [] => l
          end
      | [] => l
      end
  | [] => []
  end.

(** Whether an encoding of the class is at the front. *)
Definition starts (l : list ascii) : bool :=
  match l with a :: _ => s1 a | [] => false end ||
  match l with a :: b :: _ => s2 a b | _ => false end ||
  match l with a :: b :: c :: _ => s3 a b c | _ => false end.

Lemma trim_suffix_starts l : trim l `suffix_of` l ∧ starts (trim l) = false.
Proof.
  remember (length l) as n eqn:Hn.
  revert l Hn. induction n as [n IH] using lt_wf_ind; intros l ->.
  assert (∀ l', (length l' < length l)%nat → l' `suffix_of` l →
    trim l' `suffix_of` l ∧ starts (trim l') = false) as Hrec.
  { intros l' Hlt Hs. destruct (IH _ Hlt l' eq_refl) as [? ?]. split; [by etrans|done]. }
  clear IH. destruct l as [|a l1]; simpl; [done|].
  destruct (s1 a) eqn:H1.
  { apply Hrec; [simpl; lia|by apply suffix_cons_r]. }
  destruct l1 as [|b l2]; [split; [done|]; unfold starts; by rewrite H1|].
  destruct (s2 a b) eqn:H2.
  { apply Hrec; [simpl; lia|by do 2 apply suffix_cons_r]. }
  destruct l2 as [|c l3]; [split; [done|]; unfold starts; by rewrite H1, H2|].
  destruct (s3 a b c) eqn:H3; [|split; [done|]; unfold starts; by rewrite H1, H2, H3].
  apply Hrec; [simpl; lia|by do 3 apply suffix_cons_r].
Qed.

Lemma trim_id l : starts l = false → trim l = l.
Proof.
  unfold starts. rewrite !orb_false_iff.
  destruct l as [|a [|b [|c l]]]; simpl; intros [[H1 H2] H3]; by rewrite ?H1, ?H2, ?H3.
Qed.

Lemma starts_prefix l1 l2 : l1 `prefix_of` l2 → starts l2 = false → starts l1 = false.
Proof.
  intros [k ->]. unfold starts. rewrite !orb_false_iff.
  destruct l1 as [|a [|b [|c l]]]; simpl; [done| | |];
    (destruct k as [|? [|??]]; simpl; tauto) || tauto.
Qed.

End Trim.

Definition trim_front : list ascii → list ascii := trim space1 space2 space3.
Definition trim_back (l : list ascii) : list ascii :=
  reverse (trim space1 (flip space2) (λ c b a, space3 a b c) (reverse l)).

Definition blank_front : list ascii → bool := starts space1 space2 space3.
Definition blank_back (l : list ascii) : bool :=
  starts space1 (flip space2) (λ c b a, space3 a b c) (reverse l).

Lemma trim_back_prefix l : trim_back l `prefix_of` l.
Proof.
  rewrite <-(reverse_involutive l) at 2. unfold trim_back.
  apply prefix_suffix_reverse. rewrite !reverse_involutive. apply trim_suffix_starts.
Qed.

End Space.

(** [strings.TrimSpace]. *)
Definition TrimSpace (s : string) : string :=
  String.string_of_list_ascii (Space.trim_back (Space.trim_front (String.list_ascii_of_string s))).

(** A string [TrimSpace] leaves alone: no white space at either end. *)
Definition trimmed (s : string) : Prop := TrimSpace s = s.

Lemma TrimSpace_blank s :
  Space.blank_front (String.list_ascii_of_string (TrimSpace s)) = false ∧
  Space.blank_back (String.list_ascii_of_string (TrimSpace s)) = false.
Proof.
  unfold TrimSpace. rewrite String.list_ascii_of_string_of_list_ascii. split.
  - eapply Space.starts_prefix; [apply Space.trim_back_prefix|].
    apply Space.trim_suffix_starts.
  - unfold Space.blank_back, Space.trim_back. rewrite reverse_involutive.
    apply Space.trim_suffix_starts.
Qed.

Lemma TrimSpace_id s :
  Space.blank_front (String.list_ascii_of_string s) = false →
  Space.blank_back (String.list_ascii_of_string s) = false → TrimSpace s = s.
Proof.
  intros Hf Hb. unfold TrimSpace, Space.trim_front, Space.trim_back.
  rewrite (Space.trim_id _ _ _ _ Hf), (Space.trim_id _ _ _ _ Hb), reverse_involutive.
  apply String.string_of_list_ascii_of_string.
Qed.

Lemma TrimSpace_idemp s : TrimSpace (TrimSpace s) = TrimSpace s.
Proof. destruct (TrimSpace_blank s). by apply TrimSpace_id. Qed.

Lemma length_list_ascii s : length (String.list_ascii_of_string s) = String.length s.
Proof. induction s; simpl; congruence. Qed.

Lemma TrimSpace_len s : len (TrimSpace s) ≤ len s.
Proof.
  unfold len. apply inj_le. rewrite <-!length_list_ascii. unfold TrimSpace.
  rewrite String.list_ascii_of_string_of_list_ascii. etrans.
  - apply prefix_length, Space.trim_back_prefix.
  - apply suffix_length, Space.trim_suffix_starts.
Qed.

(** ** Case *)

Definition is_ascii_byte (c : ascii) : bool := (N_of_ascii c <? 128)%N.
Definition isASCII (s : string) : bool := forallb is_ascii_byte (String.list_ascii_of_string s).

Definition lower_byte (c : ascii) : ascii :=
  let n := N_of_ascii c in
  if ((65 <=? n) && (n <=? 90))%N then ascii_of_N (n + 32) else c.

Fixpoint lower_ascii (s : string) : string :=
  match s with "" => "" | String c s => String (lower_byte c) (lower_ascii s) end.

(** Go's Unicode case tables, consulted for non-ASCII strings only. *)
Class Unicode := {
  toLowerUnicode : string → string;
  equalFoldUnicode : string → string → bool
}.

Section Case.
Context {uni : Unicode}.

Definition ToLower (s : string) : string :=
  if isASCII s then lower_ascii s else toLowerUnicode s.

Definition EqualFold (s t : string) : bool :=
  if isASCII s && isASCII t then lower_ascii s == lower_ascii t else equalFoldUnicode s t.
End Case.

(** A [Unicode] that folds the ASCII letters only, for evaluation. *)
Definition ascii_unicode : Unicode := {|
  toLowerUnicode := lower_ascii;
  equalFoldUnicode s t := lower_ascii s == lower_ascii t
|}.

(** ** Lemmas on the byte-level functions *)

Lemma app_str_cons c s t : String c s +:+ t = String c (s +:+ t).
Proof. done. Qed.

Lemma app_str_nil_l s : "" +:+ s = s.
Proof. done. Qed.

Lemma length_app_str s t : String.length (s +:+ t) = (String.length s + String.length t)%nat.
Proof. induction s; [done|]. rewrite app_str_cons. simpl. congruence. Qed.

Lemma take_drop_str n s : take_str n s +:+ drop_str n s = s.
Proof. revert s. induction n; intros [|c s]; simpl; try done. by rewrite app_str_cons, IHn. Qed.

Lemma length_take_str n s : String.length (take_str n s) = Nat.min n (String.length s).
Proof. revert s. induction n; intros [|c s]; simpl; auto. Qed.

Lemma length_drop_str n s : String.length (drop_str n s) = (String.length s - n)%nat.
Proof. revert s. induction n; intros [|c s]; simpl; auto. Qed.

Lemma app_str_nil_r s : s +:+ "" = s.
Proof. induction s; [done|]. rewrite !app_str_cons. congruence. Qed.

Lemma app_str_assoc s t u : (s +:+ t) +:+ u = s +:+ (t +:+ u).
Proof. induction s; [done|]. rewrite !app_str_cons. congruence. Qed.

Lemma drop_str_app s t : drop_str (String.length s) (s +:+ t) = t.
Proof. by induction s. Qed.

Lemma drop_str_drop n m s : drop_str n (drop_str m s) = drop_str (m + n) s.
Proof. revert s. induction m; intros [|c s]; simpl; auto. by destruct n. Qed.

Lemma prefix_spec p s : String.prefix p s = true ↔ ∃ t, s = p +:+ t.
Proof.
  revert s. induction p as [|c p IH]; intros s.
  { split; [|by destruct s]. intros _. by exists s. }
  destruct s as [|d s].
  { split; [done|]. by intros [t ?]. }
  change (String.prefix (String c p) (String d s)) with
    (if ascii_dec c d then String.prefix p s else false).
  destruct (ascii_dec c d) as [->|Hne].
  - rewrite IH. split; intros [t Ht]; exists t; [by rewrite Ht|by injection Ht].
  - split; [done|]. intros [t [= -> _]]. congruence.
Qed.

Lemma TrimPrefix_app p s : TrimPrefix (p +:+ s) p = s.
Proof.
  unfold TrimPrefix, HasPrefix. rewrite (proj2 (prefix_spec _ _)) by eauto.
  apply drop_str_app.
Qed.

(** [Index] finds the first position at which [sub] occurs. *)
Lemma Index_Some s sub i :
  Index s sub = Some i →
  String.prefix sub (drop_str i s) = true ∧
  (i ≤ String.length s)%nat ∧
  ∀ j, (j < i)%nat → String.prefix sub (drop_str j s) = false.
Proof.
  revert i. induction s as [|c s IH]; intros i.
  - change (Index "" sub) with (if String.prefix sub "" then Some 0%nat else None).
    destruct (String.prefix sub "") eqn:Hp; [|done].
    intros [= <-]. split_and!; [done|lia|lia].
  - change (Index (String c s) sub) with
      (if String.prefix sub (String c s) then Some 0%nat else S <$> Index s sub).
    destruct (String.prefix sub (String c s)) eqn:Hp.
    { intros [= <-]. split_and!; [done|simpl; lia|lia]. }
    intros (i' & Hi & ->)%fmap_Some. destruct (IH _ Hi) as (H1 & H2 & H3).
    split_and!; [done|simpl; lia|]. intros [|j] Hj; [done|]. apply H3. lia.
Qed.

Lemma Index_None s sub :
  Index s sub = None → ∀ j, (j ≤ String.length s)%nat → String.prefix sub (drop_str j s) = false.
Proof.
  induction s as [|c s IH]; intros Hi j Hj.
  - assert (j = 0%nat) as -> by (simpl in Hj; lia).
    change (Index "" sub) with (if String.prefix sub "" then Some 0%nat else None) in Hi.
    simpl drop_str. by destruct (String.prefix sub "").
  - change (Index (String c s) sub) with
      (if String.prefix sub (String c s) then Some 0%nat else S <$> Index s sub) in Hi.
    destruct (String.prefix sub (String c s)) eqn:Hp; [done|].
    apply fmap_None in Hi. destruct j as [|j]; [done|]. simpl in *. apply IH; [done|lia].
Qed.

(** [sep] does not occur in [s]. *)
Definition free (sep : ascii) (s : string) : Prop := sep ∉ String.list_ascii_of_string s.

Lemma free_app sep s t : free sep (s +:+ t) ↔ free sep s ∧ free sep t.
Proof.
  unfold free. induction s as [|c s IH].
  - rewrite app_str_nil_l. split; [intros H; split; [apply not_elem_of_nil|done]|by intros [_ ?]].
  - rewrite app_str_cons. simpl. rewrite !not_elem_of_cons, IH. tauto.
Qed.

Lemma Split_free sep s : free sep s → Split sep s = [s].
Proof.
  unfold free. induction s as [|c s IH]; [done|]. simpl. rewrite not_elem_of_cons. intros [Hne Hs].
  rewrite bool_decide_false by done. by rewrite IH.
Qed.

Lemma Split_sep sep s t : free sep s → Split sep (s +:+ String sep t) = s :: Split sep t.
Proof.
  unfold free. induction s as [|c s IH].
  - rewrite app_str_nil_l. simpl. by rewrite bool_decide_true.
  - rewrite app_str_cons. simpl.
    rewrite not_elem_of_cons. intros [Hne Hs]. rewrite bool_decide_false by done. by rewrite IH.
Qed.

Lemma Split_nonempty sep s : Split sep s ≠ [].
Proof. destruct s as [|c s]; [done|]. simpl. case_bool_decide; [done|]. by destruct (Split sep s). Qed.

Lemma Split_app sep s t : Split sep (s +:+ String sep t) = Split sep s ++ Split sep t.
Proof.
  induction s as [|c s IH].
  - rewrite app_str_nil_l. simpl. by rewrite bool_decide_true.
  - rewrite app_str_cons. simpl. rewrite IH. case_bool_decide; [done|].
    pose proof (Split_nonempty sep s). by destruct (Split sep s).
Qed.

#[export] Hint Resolve TrimSpace_idemp TrimSpace_len : go.
#[export] Hint Rewrite TrimSpace_idemp app_str_nil_r app_str_assoc : go.

#[global] Arguments take_str : simpl never.
#[global] Arguments drop_str : simpl never.

(** ** Values as text

    A codec for every countable type, for concrete parameters: a terminated
    string of bits. *)

Fixpoint writeBits (p : positive) : string :=
  match p with xH => "." | xO p => String "0" (writeBits p) | xI p => String "1" (writeBits p) end.
Fixpoint readBits (s : string) : option positive :=
  match s with
  | "" => None
  | String c s =>
      if c == "."%char then (if s == "" then Some xH else None)
      else if c == "0"%char then xO <$> readBits s else if c == "1"%char then xI <$> readBits s else None
  end.


Lemma readBits_writeBits p : readBits (writeBits p) = Some p.
Proof. induction p as [p IH|p IH|]; simpl; rewrite ?IH; done. Qed.

(** A truncated text is not a value. *)
Lemma readBits_truncated n p q : readBits (take_str n (writeBits p)) = Some q → q = p.
Proof.
  revert n q. induction p as [p IH|p IH|]; intros [|n] q; try done.
  - change (take_str (S n) _) with (String "1" (take_str n (writeBits p))). simpl.
    intros (q' & Hq & ->)%fmap_Some_1. by rewrite (IH n q').
  - change (take_str (S n) _) with (String "0" (take_str n (writeBits p))). simpl.
    intros (q' & Hq & ->)%fmap_Some_1. by rewrite (IH n q').
  - change (take_str (S n) _) with (String "." (take_str n "")). destruct n; simpl; by intros [= <-].
Qed.

Definition writeValue {A} `{Countable A} (a : A) : string := writeBits (encode a).
Definition readValue {A} `{Countable A} (s : string) : result A :=
  match readBits s ≫= decode with Some a => Ok a | None => Err (ErrMsg "invalid value") end.

Lemma readValue_writeValue {A} `{Countable A} (a : A) : readValue (writeValue a) = Ok a.
Proof. unfold readValue, writeValue. rewrite readBits_writeBits. cbn. by rewrite decode_encode. Qed.

Lemma writeValue_nonempty {A} `{Countable A} (a : A) : writeValue a ≠ "".
Proof. unfold writeValue. by destruct (encode a). Qed.

Lemma writeValue_not_braces {A} `{Countable A} (a : A) : writeValue a ≠ "{}".
Proof. unfold writeValue. by destruct (encode a). Qed.
