(* ===== verification/GoUnicode.v ===== *)
(** * Runes: Go's [unicode/utf8], [unicode] and [strconv]

    Strings are bytes; [range] over a string and the functions below read
    runes, with U+FFFD for a byte that starts no valid encoding.  The letters
    and digits beyond Latin-1 are a parameter, the class [RuneTables]. *)

From S2P Require Import Prelude GoStrings.
#[local] Open Scope Z_scope.
#[local] Open Scope go_scope.

Definition byteVal (c : ascii) : Z := Z.of_N (N_of_ascii c).
Definition RuneError : Z := 0xfffd.

(** ** Decoding *)

Definition between (lo hi v : Z) : bool := (lo <=? v) && (v <=? hi).

(** [utf8.DecodeRune] of a list that is not empty: rune and width. *)
Definition decodeRune (l : list ascii) : Z * nat :=
  match byteVal <$> l with
  | [] => (RuneError, 0%nat)
  | b0 :: rest =>
      if b0 <? 0x80 then (b0, 1%nat) else
      if between 0xc2 0xdf b0 then
        match rest with
        | b1 :: _ => if between 0x80 0xbf b1 then ((b0 - 0xc0) * 64 + (b1 - 0x80), 2%nat) else (RuneError, 1%nat)
        | [] => (RuneError, 1%nat)
        end
      else if between 0xe0 0xef b0 then
        match rest with
        | b1 :: b2 :: _ =>
            let lo := if b0 =? 0xe0 then 0xa0 else 0x80 in
            let hi := if b0 =? 0xed then 0x9f else 0xbf in
            if between lo hi b1 && between 0x80 0xbf b2
            then ((b0 - 0xe0) * 4096 + (b1 - 0x80) * 64 + (b2 - 0x80), 3%nat) else (RuneError, 1%nat)
        | _ => (RuneError, 1%nat)
        end
      else if between 0xf0 0xf4 b0 then
        match rest with
        | b1 :: b2 :: b3 :: _ =>
            let lo := if b0 =? 0xf0 then 0x90 else 0x80 in
            let hi := if b0 =? 0xf4 then 0x8f else 0xbf in
            if between lo hi b1 && between 0x80 0xbf b2 && between 0x80 0xbf b3
            then ((b0 - 0xf0) * 262144 + (b1 - 0x80) * 4096 + (b2 - 0x80) * 64 + (b3 - 0x80), 4%nat)
            else (RuneError, 1%nat)
        | _ => (RuneError, 1%nat)
        end
      else (RuneError, 1%nat)
  end.

(** The runes of a string with the bytes each was read from; a rune takes at
    least one byte. *)
Fixpoint runesLoop (turns : nat) (l : list ascii) : list (Z * list ascii) :=
  match turns, l with
  | S turns, _ :: _ =>
      let '(r, width) := decodeRune l in (r, take width l) :: runesLoop turns (drop width l)
  | _, _ => []
  end.
Definition runes (s : string) : list (Z * list ascii) :=
  runesLoop (String.length s) (String.list_ascii_of_string s).

Definition ValidString (s : string) : bool :=
  forallb (λ '(r, bytes), negb ((r =? RuneError) && bool_decide (length bytes = 1%nat))) (runes s).

(** [utf8.AppendRune]; what is not a rune is written as U+FFFD. *)
Definition byteOf (v : Z) : ascii := ascii_of_N (Z.to_N v).
Definition encodeRune (r : Z) : list ascii :=
  let r := if (r <? 0) || (0x10ffff <? r) || between 0xd800 0xdfff r then RuneError else r in
  byteOf <$>
  (if r <? 0x80 then [r] else
   if r <? 0x800 then [0xc0 + r / 64; 0x80 + r mod 64] else
   if r <? 0x10000 then [0xe0 + r / 4096; 0x80 + r / 64 mod 64; 0x80 + r mod 64] else
   [0xf0 + r / 262144; 0x80 + r / 4096 mod 64; 0x80 + r / 64 mod 64; 0x80 + r mod 64]).

(** ** Classes of runes *)

Class RuneTables := { letterTable : Z → bool; digitTable : Z → bool }.
(** Tables for evaluation, empty beyond Latin-1. *)
Definition latin_tables : RuneTables := {| letterTable := λ _, false; digitTable := λ _, false |}.

Section Classes.
Context {tables : RuneTables}.

Definition IsLetter (r : Z) : bool :=
  between 65 90 r || between 97 122 r ||
  (if r <=? 0xff then (r =? 0xaa) || (r =? 0xb5) || (r =? 0xba) || (between 0xc0 0xff r && negb (r =? 0xd7) && negb (r =? 0xf7))
   else letterTable r).
Definition IsDigit (r : Z) : bool := if r <=? 0xff then between 48 57 r else digitTable r.
End Classes.

Definition IsSpace (r : Z) : bool :=
  between 9 13 r || (r =? 32) || (r =? 0x85) || (r =? 0xa0) || (r =? 0x1680) || between 0x2000 0x200a r ||
  (r =? 0x2028) || (r =? 0x2029) || (r =? 0x202f) || (r =? 0x205f) || (r =? 0x3000).

(** [strings.FieldsFunc] and [strings.Fields]. *)
Fixpoint fieldsLoop (f : Z → bool) (l : list (Z * list ascii)) (current : list ascii) : list string :=
  let flush := if bool_decide (current = []) then [] else [String.string_of_list_ascii current] in
  match l with
  | [] => flush
  | (r, bytes) :: l => if f r then flush ++ fieldsLoop f l [] else fieldsLoop f l (current ++ bytes)
  end.
Definition FieldsFunc (s : string) (f : Z → bool) : list string := fieldsLoop f (runes s) [].
Definition Fields (s : string) : list string := FieldsFunc s IsSpace.

(** ** [strconv.Unquote] of a double-quoted literal *)

Definition hexDigit (c : ascii) : option Z :=
  let v := byteVal c in
  if between 48 57 v then Some (v - 48) else
  if between 97 102 v then Some (v - 87) else
  if between 65 70 v then Some (v - 55) else None.

(** [n] hexadecimal digits. *)
Fixpoint hexDigits (n : nat) (acc : Z) (l : list ascii) : option (Z * list ascii) :=
  match n, l with
  | O, _ => Some (acc, l)
  | S n, c :: l => d ← hexDigit c; hexDigits n (acc * 16 + d) l
  | S _, [] => None
  end.

(** A backslash was read: the bytes it stands for. *)
Definition unquoteEscape (l : list ascii) : option (list ascii * list ascii) :=
  match l with
  | [] => None
  | c :: l =>
      if c == "a"%char then Some ([byteOf 7], l) else
      if c == "b"%char then Some ([byteOf 8], l) else
      if c == "f"%char then Some ([byteOf 12], l) else
      if c == "n"%char then Some ([byteOf 10], l) else
      if c == "r"%char then Some ([byteOf 13], l) else
      if c == "t"%char then Some ([byteOf 9], l) else
      if c == "v"%char then Some ([byteOf 11], l) else
      if c == "x"%char then '(v, l) ← hexDigits 2 0 l; Some ([byteOf v], l) else
      if c == "u"%char then
        '(v, l) ← hexDigits 4 0 l; if between 0xd800 0xdfff v then None else Some (encodeRune v, l) else
      if c == "U"%char then
        '(v, l) ← hexDigits 8 0 l;
        if (0x10ffff <? v) || between 0xd800 0xdfff v then None else Some (encodeRune v, l) else
      if between 48 55 (byteVal c) then
        match l with
        | c1 :: c2 :: l =>
            if between 48 55 (byteVal c1) && between 48 55 (byteVal c2) then
              let v := (byteVal c - 48) * 64 + (byteVal c1 - 48) * 8 + (byteVal c2 - 48) in
              if 255 <? v then None else Some ([byteOf v], l)
            else None
        | _ => None
        end else
      if (c == "\"%char) || (byteVal c =? 34) then Some ([c], l) else None
  end.

(** The characters up to the closing quote, which must be the last byte. *)
Fixpoint unquoteLoop (turns : nat) (l acc : list ascii) : option (list ascii) :=
  match turns, l with
  | S turns, c :: rest =>
      if byteVal c =? 34 then (if bool_decide (rest = []) then Some acc else None) else
      if byteVal c =? 10 then None else
      if c == "\"%char then '(bytes, rest) ← unquoteEscape rest; unquoteLoop turns rest (acc ++ bytes) else
      let '(r, width) := decodeRune l in
      unquoteLoop turns (drop width l) (acc ++ (if r <? 0x80 then [c] else encodeRune r))
  | _, _ => None
  end.

(** [strconv.Unquote] of a string that starts with a double quote. *)
Definition UnquoteDouble (s : string) : option string :=
  match String.list_ascii_of_string s with
  | _ :: l => String.string_of_list_ascii <$> unquoteLoop (String.length s) l []
  | [] => None
  end.

Example runes_latin : (λ x, x.1) <$> runes (String.string_of_list_ascii (byteOf <$> [97; 0xc3; 0xa9; 0xff; 98])) =
  [97; 0xe9; RuneError; 98].
Proof. vm_compute. reflexivity. Qed.
Example fields_mixed : Fields "  a b	c " = ["a"; "b"; "c"].
Proof. vm_compute. reflexivity. Qed.
Example unquote_escapes :
  UnquoteDouble (String.string_of_list_ascii (byteOf <$> [34; 97; 92; 110; 92; 120; 52; 49; 92; 34; 34])) =
  Some (String.string_of_list_ascii (byteOf <$> [97; 10; 65; 34])).
Proof. vm_compute. reflexivity. Qed.
