(* ===== verification/NetIP.v ===== *)
(** * IP addresses and URLs: Go's [net/netip] and [net/url]

    The part of [net/netip] the backend uses: the rate limiter reads the
    address of a client and of trusted proxies, and the outbound policy
    classifies the addresses the backend may dial.  An IPv4 address is its
    32-bit value and an IPv6 address its 128-bit value with its zone. *)

From stdpp Require Import pretty.
From S2P Require Import Prelude GoStrings.
#[local] Open Scope Z_scope.
#[local] Open Scope go_scope.

Module NetIP.

(** [netip.Addr]; [Zero] is the invalid zero value. *)
Inductive Addr :=
| Zero
| V4 (value : Z)
| V6 (value : Z) (zone : string).

#[export] Instance Addr_eq_dec : EqDecision Addr.
Proof. solve_decision. Defined.

(** [netip.Prefix]; the zero value is [mkPrefix Zero 0]. *)
Record Prefix := mkPrefix { PrefixAddr : Addr; Bits : Z }.

#[export] Instance Prefix_eq_dec : EqDecision Prefix.
Proof. solve_decision. Defined.

Definition IsValid (ip : Addr) : bool := match ip with Zero => false | _ => true end.
Definition Is4 (ip : Addr) : bool := match ip with V4 _ => true | _ => false end.
Definition Is6 (ip : Addr) : bool := match ip with V6 _ _ => true | _ => false end.
Definition BitLen (ip : Addr) : Z := match ip with Zero => 0 | V4 _ => 32 | V6 _ _ => 128 end.
Definition Zone (ip : Addr) : string := match ip with V6 _ zone => zone | _ => "" end.

(** ::ffff:0:0/96 holds the IPv4 addresses mapped into IPv6. *)
Definition Is4In6 (ip : Addr) : bool :=
  match ip with V6 v _ => Z.shiftr v 32 =? 65535 | _ => false end.

Definition Unmap (ip : Addr) : Addr :=
  match ip with
  | V6 v _ => if Is4In6 ip then V4 (Z.land v (Z.ones 32)) else ip
  | _ => ip
  end.

Definition PrefixIsValid (p : Prefix) : bool :=
  IsValid (PrefixAddr p) && (Zone (PrefixAddr p) == "") && (0 <=? Bits p) && (Bits p <=? BitLen (PrefixAddr p)).

(** The value with its low [n - bits] bits cleared. *)
Definition maskValue (n bits v : Z) : Z := Z.shiftl (Z.shiftr v (n - bits)) (n - bits).

(** [Prefix.Masked]. *)
Definition Masked (p : Prefix) : Prefix :=
  match PrefixAddr p with
  | Zero => mkPrefix Zero 0
  | V4 v => mkPrefix (V4 (maskValue 32 (Bits p) v)) (Bits p)
  | V6 v _ => mkPrefix (V6 (maskValue 128 (Bits p) v) "") (Bits p)
  end.

(** [Prefix.Contains]: same family, no zone, and equal leading bits. *)
Definition PrefixContains (p : Prefix) (ip : Addr) : bool :=
  if negb (PrefixIsValid p) || (Zone ip != "") then false else
  match PrefixAddr p, ip with
  | V4 pv, V4 v => Z.shiftr (Z.lxor v pv) (32 - Bits p) =? 0
  | V6 pv _, V6 v _ => Z.shiftr (Z.lxor v pv) (128 - Bits p) =? 0
  | _, _ => false
  end.

(** ** Classes of addresses *)

(** The top byte of an IPv4 address, and the top bits of an IPv6 one. *)
Definition v4byte (v : Z) (i : Z) : Z := Z.land (Z.shiftr v (8 * (3 - i))) 255.
Definition v6u16 (v : Z) (i : Z) : Z := Z.land (Z.shiftr v (16 * (7 - i))) 65535.

Definition IsUnspecified (ip : Addr) : bool :=
  match ip with V4 v => v =? 0 | V6 v zone => (v =? 0) && (zone == "") | Zero => false end.

Definition IsLoopback (ip : Addr) : bool :=
  let ip := Unmap ip in
  match ip with V4 v => v4byte v 0 =? 127 | V6 v _ => v =? 1 | Zero => false end.

Definition IsMulticast (ip : Addr) : bool :=
  let ip := Unmap ip in
  match ip with
  | V4 v => Z.land (v4byte v 0) 240 =? 224
  | V6 v _ => Z.shiftr v 120 =? 255
  | Zero => false
  end.

Definition IsLinkLocalUnicast (ip : Addr) : bool :=
  let ip := Unmap ip in
  match ip with
  | V4 v => (v4byte v 0 =? 169) && (v4byte v 1 =? 254)
  | V6 v _ => Z.land (v6u16 v 0) 65472 =? 65152
  | Zero => false
  end.

Definition IsPrivate (ip : Addr) : bool :=
  let ip := Unmap ip in
  match ip with
  | V4 v => (v4byte v 0 =? 10) || (v4byte v 0 =? 172) && (Z.land (v4byte v 1) 240 =? 16)
            || (v4byte v 0 =? 192) && (v4byte v 1 =? 168)
  | V6 v _ => Z.land (Z.shiftr v 120) 254 =? 252
  | Zero => false
  end.

(** [IsGlobalUnicast] includes private addresses. *)
Definition IsGlobalUnicast (ip : Addr) : bool :=
  if negb (IsValid ip) then false else
  let ip := Unmap ip in
  if Is4 ip && ((ip == V4 0) || (ip == V4 (Z.ones 32))) then false else
  negb (ip == V6 0 "") && negb (IsLoopback ip) && negb (IsMulticast ip) && negb (IsLinkLocalUnicast ip).

(** ** Parsing *)

Definition charZ (c : ascii) : Z := Z.of_N (N_of_ascii c).
Definition isDigit (c : ascii) : bool := (48 <=? charZ c) && (charZ c <=? 57).

(** A decimal octet: digits only, no leading zero, at most 255. *)
Fixpoint octetLoop (val : Z) (s : string) : option Z :=
  match s with
  | "" => Some val
  | String c s =>
      if negb (isDigit c) then None else
      let val := val * 10 + (charZ c - 48) in
      if 255 <? val then None else octetLoop val s
  end.
Definition parseOctet (s : string) : option Z :=
  match s with
  | "" => None
  | String c "" => octetLoop 0 s
  | String c _ => if c == "0"%char then None else octetLoop 0 s
  end.

(** Four octets separated by dots. *)
Definition parseIPv4 (s : string) : option Z :=
  match parseOctet <$> Split "." s with
  | [Some a; Some b; Some c; Some d] => Some (((a * 256 + b) * 256 + c) * 256 + d)
  | _ => None
  end.

Definition hexValue (c : ascii) : option Z :=
  let v := charZ c in
  if (48 <=? v) && (v <=? 57) then Some (v - 48) else
  if (97 <=? v) && (v <=? 102) then Some (v - 87) else
  if (65 <=? v) && (v <=? 70) then Some (v - 55) else None.

(** The leading hexadecimal digits: their number, value and what follows. *)
Fixpoint hexRun (off acc : Z) (s : string) : Z * Z * string :=
  match s with
  | "" => (off, acc, "")
  | String c rest =>
      match hexValue c with
      | Some d => hexRun (off + 1) (acc * 16 + d) rest
      | None => (off, acc, s)
      end
  end.

(** The groups of an IPv6 address, in order, with the number of groups
    before the "::".  One turn per group, so at most eight. *)
Fixpoint groupsLoop (turns : nat) (s : string) (groups : list Z) (ellipsis : option nat)
    : option (list Z * option nat) :=
  match turns with
  | O => None (* more than eight groups: trailing garbage *)
  | S turns =>
      let '(off, acc, rest) := hexRun 0 0 s in
      if (off =? 0) || (4 <? off) then None else
      match rest with
      | String "."%char _ =>
          if (if ellipsis then false else negb (bool_decide (length groups = 6%nat)))
             || bool_decide (6 < length groups)%nat then None else
          v ← parseIPv4 s; Some (groups ++ [Z.shiftr v 16; Z.land v 65535], ellipsis)
      | "" => Some (groups ++ [acc], ellipsis)
      | String ":"%char rest =>
          let groups := groups ++ [acc] in
          match rest with
          | "" => None
          | String ":"%char rest =>
              if ellipsis then None else
              if rest == "" then Some (groups, Some (length groups)) else
              if bool_decide (length groups = 8%nat) then None else
              groupsLoop turns rest groups (Some (length groups))
          | _ => if bool_decide (length groups = 8%nat) then None else groupsLoop turns rest groups ellipsis
          end
      | _ => None
      end
  end.

Definition groupsValue (groups : list Z) : Z := foldl (λ v g, v * 65536 + g) 0 groups.

(** The zeros "::" stands for are at least one group. *)
Definition expandGroups (parsed : list Z * option nat) : option Z :=
  let '(groups, ellipsis) := parsed in
  match ellipsis with
  | None => if bool_decide (length groups = 8%nat) then Some (groupsValue groups) else None
  | Some n =>
      if bool_decide (length groups < 8)%nat
      then Some (groupsValue (take n groups ++ replicate (8 - length groups) 0 ++ drop n groups)) else None
  end.

Definition parseIPv6 (s : string) : option Addr :=
  let '(s, zone) := match Index s "%" with
                    | Some i => (take_str i s, Some (drop_str (S i) s))
                    | None => (s, None)
                    end in
  if bool_decide (zone = Some "") then None else
  let zone := default "" zone in
  if HasPrefix s "::" then
    let s := drop_str 2 s in
    if s == "" then Some (V6 0 zone)
    else (λ v, V6 v zone) <$> (groupsLoop 8 s [] (Some 0%nat) ≫= expandGroups)
  else (λ v, V6 v zone) <$> (groupsLoop 8 s [] None ≫= expandGroups).

(** [netip.ParseAddr]: the first of '.', ':' and '%' decides the family. *)
Fixpoint family (s : string) : option ascii :=
  match s with
  | "" => None
  | String c s => if (c == "."%char) || (c == ":"%char) || (c == "%"%char) then Some c else family s
  end.

Definition ParseAddr (s : string) : option Addr :=
  match family s with
  | Some "."%char => V4 <$> parseIPv4 s
  | Some ":"%char => parseIPv6 s
  | _ => None
  end.

(** ** Printing *)

Definition dotted (v : Z) : string :=
  pretty (v4byte v 0) +:+ "." +:+ pretty (v4byte v 1) +:+ "." +:+ pretty (v4byte v 2) +:+ "." +:+ pretty (v4byte v 3).

Definition hexDigitChar (d : Z) : ascii := ascii_of_N (Z.to_N (if d <? 10 then 48 + d else 87 + d)).
(** A 16-bit group without leading zeros. *)
Definition hexGroup (g : Z) : string :=
  let digit i := String (hexDigitChar (Z.land (Z.shiftr g (4 * i)) 15)) "" in
  (if 4096 <=? g then digit 3 else "") +:+ (if 256 <=? g then digit 2 else "") +:+
  (if 16 <=? g then digit 1 else "") +:+ digit 0.

(** The number of leading zeros of a list of groups. *)
Fixpoint zeroRun (groups : list Z) : nat :=
  match groups with g :: groups => if g =? 0 then S (zeroRun groups) else O | [] => O end.

(** The first longest run of at least two zero groups, as start and length. *)
Definition longestRun (groups : list Z) : option (nat * nat) :=
  foldl (λ best i,
    let l := zeroRun (drop i groups) in
    if bool_decide (2 ≤ l)%nat && match best with Some (_, l') => bool_decide (l' < l)%nat | None => true end
    then Some (i, l) else best) None (seq 0 8).

Definition hexGroups (groups : list Z) : string := Join (hexGroup <$> groups) ":".

Definition string6 (v : Z) : string :=
  let groups := v6u16 v <$> [0; 1; 2; 3; 4; 5; 6; 7] in
  match longestRun groups with
  | Some (i, l) => hexGroups (take i groups) +:+ "::" +:+ hexGroups (drop (i + l) groups)
  | None => hexGroups groups
  end.

(** [Addr.String]. *)
Definition AddrString (ip : Addr) : string :=
  match ip with
  | Zero => "invalid IP"
  | V4 v => dotted v
  | V6 v zone =>
      (if Is4In6 ip then "::ffff:" +:+ dotted (Z.land v (Z.ones 32)) else string6 v) +:+
      (if zone == "" then "" else "%" +:+ zone)
  end.

(** [Prefix.String]. *)
Definition PrefixString (p : Prefix) : string :=
  if negb (PrefixIsValid p) then "invalid Prefix" else AddrString (PrefixAddr p) +:+ "/" +:+ pretty (Bits p).

(** ** [net.SplitHostPort] *)

Fixpoint LastIndex (c : ascii) (s : string) : option nat :=
  match s with
  | "" => None
  | String a s =>
      match LastIndex c s with
      | Some i => Some (S i)
      | None => if a == c then Some 0%nat else None
      end
  end.

(** The host, when the string is a host and a port. *)
Definition SplitHostPort (hostport : string) : option string :=
  match LastIndex ":" hostport with
  | None => None
  | Some i =>
      if HasPrefix hostport "[" then
        match Index hostport "]" with
        | None => None
        | Some end_ =>
            if negb (bool_decide (S end_ = i)) then None else
            if Contains (drop_str 1 hostport) "[" || Contains (drop_str (S end_) hostport) "]" then None
            else Some (drop_str 1 (take_str end_ hostport))
        end
      else
        let host := take_str i hostport in
        if Contains host ":" || Contains hostport "[" || Contains hostport "]" then None else Some host
  end.

(** Host and port. *)
Definition SplitHostAndPort (hostport : string) : option (string * string) :=
  host ← SplitHostPort hostport; i ← LastIndex ":" hostport; Some (host, drop_str (S i) hostport).

(** [net.JoinHostPort]. *)
Definition JoinHostPort (host port : string) : string :=
  if Contains host ":" || Contains host "%" then "[" +:+ host +:+ "]:" +:+ port else host +:+ ":" +:+ port.

(** [netip.ParsePrefix]: no zone, and the number of bits in decimal without a
    sign or a leading zero. *)
Fixpoint decimal (acc : Z) (s : string) : option Z :=
  match s with
  | "" => Some acc
  | String c s => if isDigit c then decimal (acc * 10 + (charZ c - 48)) s else None
  end.
Definition ParsePrefix (s : string) : option Prefix :=
  i ← LastIndex "/" s;
  ip ← ParseAddr (take_str i s);
  if Zone ip != "" then None else
  let bits := drop_str (S i) s in
  if (bits == "") || (1 <? len bits) && HasPrefix bits "0" then None else
  n ← decimal 0 bits;
  if n <=? BitLen ip then Some (mkPrefix ip n) else None.

(** [strings.Trim(s, cutset)] for one-byte characters. *)
Definition TrimChars (cutset : list ascii) (s : string) : string :=
  let strip := fix strip (l : list ascii) := match l with
    | c :: l' => if bool_decide (c ∈ cutset) then strip l' else l
    | [] => []
    end in
  String.string_of_list_ascii (rev (strip (rev (strip (String.list_ascii_of_string s))))).

Example parse_v4 : ParseAddr "192.168.0.1" = Some (V4 3232235521).
Proof. vm_compute. reflexivity. Qed.
Example parse_v6 : AddrString <$> ParseAddr "2001:db8:0:0::1" = Some "2001:db8::1".
Proof. vm_compute. reflexivity. Qed.
Example parse_mapped : AddrString ∘ Unmap <$> ParseAddr "::ffff:10.0.0.1" = Some "10.0.0.1".
Proof. vm_compute. reflexivity. Qed.
Example parse_zone : ParseAddr "fe80::1%eth0" = Some (V6 (65152 * 2 ^ 112 + 1) "eth0").
Proof. vm_compute. reflexivity. Qed.
Example split_v6 : SplitHostPort "[::1]:80" = Some "::1".
Proof. vm_compute. reflexivity. Qed.
Example prefix_v4 : ParsePrefix "10.1.0.0/8" = Some (mkPrefix (V4 (10 * 2 ^ 24 + 2 ^ 16)) 8).
Proof. vm_compute. reflexivity. Qed.
Example prefix_bits : (ParsePrefix "10.0.0.0/33", ParsePrefix "::/08", ParsePrefix "::/128") =
  (None, None, Some (mkPrefix (V6 0 "") 128)).
Proof. vm_compute. reflexivity. Qed.
Example split_port : SplitHostAndPort "[::1]:80" = Some ("::1", "80").
Proof. vm_compute. reflexivity. Qed.
Example split_none : SplitHostPort "::1" = None.
Proof. vm_compute. reflexivity. Qed.

End NetIP.

(** ** [net/url] *)

(** What the code looks at of a parsed URL: [Hostname] is the host without
    its port and brackets, [EscapedPath] the path as it was written. *)
Module NetURL.
Record URL := mkURL {
  Scheme : string;
  Host : string;
  Hostname : string;
  Path : string;
  EscapedPath : string;
  HasUser : bool;
  RawQuery : string;
  Fragment : string
}.

(** [Port]: what follows the last colon of the host, when it is a number. *)
Definition Port (u : URL) : string :=
  match NetIP.LastIndex ":" (Host u) with
  | Some i =>
      let port := drop_str (S i) (Host u) in
      if forallb NetIP.isDigit (String.list_ascii_of_string port) then port else ""
  | None => ""
  end.
End NetURL.
