(* ===== verification/Config.v ===== *)
(** * Configuration: [internal/config]

    The record every part of the backend reads, and the defaults of the rate
    limits. *)

From S2P Require Import Prelude GoStrings NetIP.

Module Config.
Import NetIP.

(** [config.Config]. *)
Record Config := mkConfig {
  EnvFilePath : string;
  ListenAddress : string;
  DatabaseURL : string;
  DatabaseMaxConns : Z;
  DatabaseMinConns : Z;
  DatabaseMaxConnLifetime : duration;
  DatabaseMaxConnIdleTime : duration;
  DatabaseConnectTimeout : duration;
  DatabaseMigrate : bool;
  FirebaseEnabled : bool;
  FirebaseProjectID : string;
  TwitchClientID : string;
  TwitchClientSecret : string;
  TwitchRedirectURL : string;
  TwitchIDBaseURL : string;
  TwitchHelixBaseURL : string;
  PublicBaseURL : string;
  EventSubSecret : string;
  EventSubCallbackURL : string;
  AuthEncryptionKey : string;
  AuthAllowedAppSchemes : list string;
  AuthScopes : list string;
  AuthSessionTTL : duration;
  AuthStateTTL : duration;
  AuthHandoffTTL : duration;
  AuthLeaseTTL : duration;
  AuthAccessRefreshAhead : duration;
  VAPIDPublicKey : string;
  VAPIDPrivateKey : string;
  VAPIDSubscriber : string;
  AdminToken : string;
  ReadHeaderTimeout : duration;
  RequestBodyMaxBytes : Z;
  RateLimitDisabled : bool;
  RateLimitTrustedProxyCIDRs : list Prefix;
  RateLimitGeneralPerMinute : Z;
  RateLimitGeneralBurst : Z;
  RateLimitAuthPerMinute : Z;
  RateLimitAuthBurst : Z;
  RateLimitInstallationPerMinute : Z;
  RateLimitInstallationBurst : Z;
  RateLimitAdminPerMinute : Z;
  RateLimitAdminBurst : Z;
  RateLimitMaxKeys : Z;
  RateLimitIdleTTL : duration
}.
#[global] Instance eta_Config : Eta Config := λ c,
  mkConfig (EnvFilePath c) (ListenAddress c) (DatabaseURL c) (DatabaseMaxConns c) (DatabaseMinConns c)
    (DatabaseMaxConnLifetime c) (DatabaseMaxConnIdleTime c) (DatabaseConnectTimeout c) (DatabaseMigrate c)
    (FirebaseEnabled c) (FirebaseProjectID c) (TwitchClientID c) (TwitchClientSecret c)
    (TwitchRedirectURL c) (TwitchIDBaseURL c) (TwitchHelixBaseURL c) (PublicBaseURL c) (EventSubSecret c)
    (EventSubCallbackURL c) (AuthEncryptionKey c) (AuthAllowedAppSchemes c) (AuthScopes c)
    (AuthSessionTTL c) (AuthStateTTL c) (AuthHandoffTTL c) (AuthLeaseTTL c) (AuthAccessRefreshAhead c)
    (VAPIDPublicKey c) (VAPIDPrivateKey c) (VAPIDSubscriber c) (AdminToken c) (ReadHeaderTimeout c)
    (RequestBodyMaxBytes c) (RateLimitDisabled c) (RateLimitTrustedProxyCIDRs c)
    (RateLimitGeneralPerMinute c) (RateLimitGeneralBurst c) (RateLimitAuthPerMinute c)
    (RateLimitAuthBurst c) (RateLimitInstallationPerMinute c) (RateLimitInstallationBurst c)
    (RateLimitAdminPerMinute c) (RateLimitAdminBurst c) (RateLimitMaxKeys c) (RateLimitIdleTTL c).
(** The zero value. *)
Definition zero : Config :=
  mkConfig "" "" "" 0 0 0 0 0 false false "" "" "" "" "" "" "" "" "" "" [] [] 0 0 0 0 0 "" "" "" "" 0 0 false [] 0 0 0 0 0 0 0 0 0 0.

(** ** Default rate limits ([rate_limits.go]) *)

Definition DefaultRateLimitGeneralPerMinute : Z := 300.
Definition DefaultRateLimitGeneralBurst : Z := 60.
Definition DefaultRateLimitAuthPerMinute : Z := 60.
Definition DefaultRateLimitAuthBurst : Z := 15.
Definition DefaultRateLimitInstallationPerMinute : Z := 120.
Definition DefaultRateLimitInstallationBurst : Z := 30.
Definition DefaultRateLimitAdminPerMinute : Z := 120.
Definition DefaultRateLimitAdminBurst : Z := 30.
Definition DefaultRateLimitMaxKeys : Z := 50000.
Definition DefaultRateLimitIdleTTL : duration := 30 * Minute.

End Config.
