(* ===== verification/Credentials.v ===== *)
(** * Credentials: [internal/security/credentials.go]

    Hashing, constant-time comparison, random tokens and the AES-GCM sealing
    of OAuth values.  The raw URL-safe base64 codec is written out; SHA-256,
    the AEAD and the random source are parameters: the class [Sha256], the
    record [AEAD] and a function from a requested size to the bytes read,
    [None] when the read fails. *)

From S2P Require Import Prelude GoStrings.

(** ** Parameters *)

Class Sha256 := {
  sha256 : string → string;
  sha256_length s : String.length (sha256 s) = 32%nat
}.

(** [cipher.AEAD]: [Open] inverts [Seal] under the same nonce and
    associated data. *)
Record AEAD := {
  NonceSize : nat;
  aead_seal : string → string → string → string;
  aead_open : string → string → string → option string;
  aead_open_seal : ∀ nonce plaintext ad, String.length nonce = NonceSize →
    aead_open nonce (aead_seal nonce plaintext ad) ad = Some plaintext
}.

(** [rand.Read] into a buffer of the given size. *)
Definition rand_read := nat → option string.
Definition rand_ok (rnd : rand_read) : Prop :=
  ∀ n s, rnd n = Some s → String.length s = n.

(** ** [base64.RawURLEncoding] *)

Module Base64.

Definition alphabet : string :=
  "ABCDEFGHIJKLMNOPQRSTUVWXYZabcdefghijklmnopqrstuvwxyz0123456789-_".

Definition byteZ (c : ascii) : Z := Z.of_N (N_of_ascii c).
Definition Zbyte (z : Z) : ascii := ascii_of_N (Z.to_N z).

Definition enc6 (z : Z) : ascii :=
  match String.get (Z.to_nat z) alphabet with Some c => c | None => "000"%char end.

Fixpoint find_char (c : ascii) (s : string) : option Z :=
  match s with
  | "" => None
  | String d s => if ascii_dec c d then Some 0 else Z.succ <$> find_char c s
  end.
Definition dec6 (c : ascii) : option Z := find_char c alphabet.

Fixpoint EncodeToString (s : string) : string :=
  match s with
  | "" => ""
  | String a "" =>
      String (enc6 (byteZ a / 4)) (String (enc6 (byteZ a mod 4 * 16)) "")
  | String a (String b "") =>
      String (enc6 (byteZ a / 4)) (String (enc6 (byteZ a mod 4 * 16 + byteZ b / 16))
        (String (enc6 (byteZ b mod 16 * 4)) ""))
  | String a (String b (String c s)) =>
      String (enc6 (byteZ a / 4)) (String (enc6 (byteZ a mod 4 * 16 + byteZ b / 16))
        (String (enc6 (byteZ b mod 16 * 4 + byteZ c / 64))
          (String (enc6 (byteZ c mod 64)) (EncodeToString s))))
  end.

(** Groups of four sextets; the decoder is not strict about the unused low
    bits of the last group. *)
Fixpoint decode_groups (s : string) : option string :=
  match s with
  | "" => Some ""
  | String _ "" => None
  | String a (String b "") =>
      x ← dec6 a; y ← dec6 b;
      Some (String (Zbyte (x * 4 + y / 16)) "")
  | String a (String b (String c "")) =>
      x ← dec6 a; y ← dec6 b; z ← dec6 c;
      Some (String (Zbyte (x * 4 + y / 16)) (String (Zbyte (y mod 16 * 16 + z / 4)) ""))
  | String a (String b (String c (String d s))) =>
      x ← dec6 a; y ← dec6 b; z ← dec6 c; w ← dec6 d; rest ← decode_groups s;
      Some (String (Zbyte (x * 4 + y / 16)) (String (Zbyte (y mod 16 * 16 + z / 4))
        (String (Zbyte (z mod 4 * 64 + w)) rest)))
  end.

(** Carriage returns and line feeds are skipped wherever they occur. *)
Fixpoint strip_newlines (s : string) : string :=
  match s with
  | "" => ""
  | String c s =>
      if bool_decide (c = "010"%char) || bool_decide (c = "013"%char)
      then strip_newlines s else String c (strip_newlines s)
  end.

Definition DecodeString (s : string) : option string := decode_groups (strip_newlines s).

(** *** Round trip *)

Lemma byteZ_range c : 0 ≤ byteZ c < 256.
Proof. unfold byteZ. pose proof (N_ascii_bounded c). lia. Qed.

Lemma Zbyte_byteZ c : Zbyte (byteZ c) = c.
Proof. unfold Zbyte, byteZ. by rewrite N2Z.id, ascii_N_embedding. Qed.

Lemma Zbyte_eq z c : z = byteZ c → Zbyte z = c.
Proof. intros ->. apply Zbyte_byteZ. Qed.

Definition sextet_ok (z : Z) : bool :=
  bool_decide (dec6 (enc6 z) = Some z) &&
  negb (bool_decide (enc6 z = "010"%char) || bool_decide (enc6 z = "013"%char)).

Lemma sextet_all : forallb sextet_ok (Z.of_nat <$> seq 0 64) = true.
Proof. vm_compute. reflexivity. Qed.

Lemma sextet_spec z : 0 ≤ z < 64 →
  dec6 (enc6 z) = Some z ∧
  bool_decide (enc6 z = "010"%char) || bool_decide (enc6 z = "013"%char) = false.
Proof.
  intros Hz. pose proof sextet_all as Hall. rewrite forallb_forall in Hall.
  specialize (Hall z). unfold sextet_ok in Hall.
  destruct (andb_prop _ _ (Hall ltac:(apply list_elem_of_In, list_elem_of_fmap;
    exists (Z.to_nat z); rewrite elem_of_seq; lia))) as [H1%bool_decide_eq_true_1 H2].
  split; [done|]. by apply negb_true_iff in H2.
Qed.

Lemma dec6_enc6 z : 0 ≤ z < 64 → dec6 (enc6 z) = Some z.
Proof. intros. by apply sextet_spec. Qed.

Lemma strip_newlines_enc6 z s : 0 ≤ z < 64 →
  strip_newlines (String (enc6 z) s) = String (enc6 z) (strip_newlines s).
Proof. intros Hz. simpl. by rewrite (proj2 (sextet_spec z Hz)). Qed.

(** Three bytes at a time, the shape of the encoder's recursion. *)
Lemma string_ind3 (P : string → Prop) :
  P "" → (∀ a, P (String a "")) → (∀ a b, P (String a (String b ""))) →
  (∀ a b c s, P s → P (String a (String b (String c s)))) → ∀ s, P s.
Proof.
  intros H0 H1 H2 H3. fix IH 1. intros [|a [|b [|c s]]]; [done|apply H1|apply H2|].
  apply H3, IH.
Qed.

Ltac sextets :=
  repeat match goal with c : ascii |- _ => let H := fresh in
    pose proof (byteZ_range c) as H; revert c H end; intros;
  rewrite ?strip_newlines_enc6 by (Z.div_mod_to_equations; lia).

Lemma decode_encode s : DecodeString (EncodeToString s) = Some s.
Proof.
  unfold DecodeString. induction s as [|a|a b|a b c s IH] using string_ind3; [done|..];
    cbn [EncodeToString]; sextets; cbn [strip_newlines decode_groups];
    rewrite ?dec6_enc6 by (Z.div_mod_to_equations; lia); cbn [mbind option_bind];
    rewrite ?IH; cbn [mbind option_bind]; repeat f_equal;
    apply Zbyte_eq; Z.div_mod_to_equations; lia.
Qed.

Lemma encode_length s :
  String.length (EncodeToString s) = ((4 * String.length s + 2) / 3)%nat.
Proof.
  induction s as [|a|a b|a b c s IH] using string_ind3; [done..|].
  cbn [EncodeToString String.length]. rewrite IH.
  replace (4 * S (S (S (String.length s))) + 2)%nat with (4 * String.length s + 2 + 4 * 3)%nat by lia.
  rewrite Nat.div_add by lia. lia.
Qed.

End Base64.

(** ** Hashes and comparisons *)

Section Hash.
Context {sha : Sha256}.

(** [subtle.ConstantTimeCompare(x, y) == 1]. *)
Definition ConstantTimeCompare (x y : string) : bool := x == y.

Definition HashSecret (value : string) : string := Base64.EncodeToString (sha256 value).

Definition EqualHash (left right : string) : bool :=
  if (len left =? len right) && (left != "") then ConstantTimeCompare left right else false.

Definition EqualSecret (left right : string) : bool :=
  if (len left =? len right) && (left != "") then ConstantTimeCompare left right else false.

Lemma HashSecret_length s : String.length (HashSecret s) = 43%nat.
Proof. unfold HashSecret. by rewrite Base64.encode_length, sha256_length. Qed.

Lemma HashSecret_nonempty s : HashSecret s ≠ "".
Proof. intros H. pose proof (HashSecret_length s) as Hl. by rewrite H in Hl. Qed.

(** Against a hash the comparison is equality; the empty string, the zero
    value of a missing hash, never compares equal. *)
Lemma EqualHash_HashSecret h s : EqualHash h (HashSecret s) = (h == HashSecret s).
Proof.
  unfold EqualHash, ConstantTimeCompare.
  destruct (bool_decide_reflect (h = HashSecret s)) as [->|Hne].
  - rewrite Z.eqb_refl, bool_decide_false by apply HashSecret_nonempty. done.
  - by destruct (_ && _).
Qed.

Lemma EqualHash_spec left right : EqualHash left right = true ↔ left = right ∧ left ≠ "".
Proof.
  unfold EqualHash, ConstantTimeCompare. split.
  - destruct (_ && _) eqn:Hg; [|done]. intros ->%bool_decide_eq_true.
    apply andb_prop in Hg as [_ Hg%negb_true_iff%bool_decide_eq_false_1]. done.
  - intros [-> Hne]. by rewrite Z.eqb_refl, !bool_decide_false, bool_decide_true by done.
Qed.
End Hash.

(** ** Random tokens *)

Definition RandomToken (rnd : rand_read) (prefix : string) (size : Z) : result string :=
  if size <=? 0 then Err (ErrMsg "token size must be positive") else
  match rnd (Z.to_nat size) with
  | None => Err (ErrMsg "generate secure token")
  | Some buffer => Ok (prefix +:+ Base64.EncodeToString buffer)
  end.

(** ** Sealed values *)

Record EncryptedValue := { Nonce : string; Ciphertext : string }.

#[export] Instance EncryptedValue_eq_dec : EqDecision EncryptedValue.
Proof. solve_decision. Defined.

Definition Seal (aead : option AEAD) (rnd : rand_read) (purpose plaintext : string)
    : result EncryptedValue :=
  match aead with
  | None => Err (ErrMsg "auth encryption is not configured")
  | Some aead =>
      match rnd (NonceSize aead) with
      | None => Err (ErrMsg "generate auth nonce")
      | Some nonce =>
          let ciphertext := aead_seal aead nonce plaintext purpose in
          Ok {| Nonce := Base64.EncodeToString nonce;
                Ciphertext := Base64.EncodeToString ciphertext |}
      end
  end.

Definition Open (aead : option AEAD) (purpose : string) (value : EncryptedValue)
    : result string :=
  match aead with
  | None => Err (ErrMsg "auth encryption is not configured")
  | Some aead =>
      match Base64.DecodeString (Nonce value) with
      | None => Err (ErrMsg "decode auth nonce")
      | Some nonce =>
          match Base64.DecodeString (Ciphertext value) with
          | None => Err (ErrMsg "decode auth ciphertext")
          | Some ciphertext =>
              match aead_open aead nonce ciphertext purpose with
              | None => Err (ErrMsg "decrypt auth value")
              | Some plaintext => Ok plaintext
              end
          end
      end
  end.

Lemma Open_Seal aead rnd purpose plaintext v :
  rand_ok rnd → Seal aead rnd purpose plaintext = Ok v → Open aead purpose v = Ok plaintext.
Proof.
  intros Hrnd. unfold Seal, Open. destruct aead as [aead|]; [|done].
  destruct (rnd (NonceSize aead)) as [nonce|] eqn:Hn; [|done].
  intros [= <-]. simpl. rewrite !Base64.decode_encode.
  by rewrite aead_open_seal by by apply Hrnd.
Qed.

(** ** The copies the in-memory stores use
    ([internal/storage/memory/auth_store.go] and [aliases.go]) *)

Module Memory.
Section Memory.
Context {sha : Sha256}.

Definition hashSecret (value : string) : string := Base64.EncodeToString (sha256 value).

Definition secureHashEqual (left right : string) : bool :=
  if (len left =? len right) && (left != "") then ConstantTimeCompare left right else false.

(** Plaintext secrets are compared through their hashes. *)
Definition secureEqual (left right : string) : bool :=
  (len left =? len right) && (left != "") && secureHashEqual (hashSecret left) (hashSecret right).

(** Unlike [RandomToken], no check of the size. *)
Definition randomToken (rnd : rand_read) (prefix : string) (size : nat) : result string :=
  match rnd size with
  | None => Err (ErrMsg "generate secure token")
  | Some buffer => Ok (prefix +:+ Base64.EncodeToString buffer)
  end.

Definition sealAuthValue (aead : option AEAD) (rnd : rand_read) (aad plaintext : string)
    : result EncryptedValue :=
  match aead with
  | None => Err (ErrMsg "auth encryption is not configured")
  | Some aead =>
      match rnd (NonceSize aead) with
      | None => Err (ErrMsg "generate auth nonce")
      | Some nonce =>
          let ciphertext := aead_seal aead nonce plaintext aad in
          Ok {| Nonce := Base64.EncodeToString nonce;
                Ciphertext := Base64.EncodeToString ciphertext |}
      end
  end.

Definition openAuthValue (aead : option AEAD) (aad : string) (value : EncryptedValue)
    : result string :=
  match aead with
  | None => Err (ErrMsg "auth encryption is not configured")
  | Some aead =>
      match Base64.DecodeString (Nonce value) with
      | None => Err (ErrMsg "decode auth nonce")
      | Some nonce =>
          match Base64.DecodeString (Ciphertext value) with
          | None => Err (ErrMsg "decode auth ciphertext")
          | Some ciphertext =>
              match aead_open aead nonce ciphertext aad with
              | None => Err (ErrMsg "decrypt auth value")
              | Some plaintext => Ok plaintext
              end
          end
      end
  end.

Lemma secureHashEqual_hashSecret h s : secureHashEqual h (hashSecret s) = (h == hashSecret s).
Proof. apply EqualHash_HashSecret. Qed.

Lemma secureHashEqual_spec left right :
  secureHashEqual left right = true ↔ left = right ∧ left ≠ "".
Proof. apply EqualHash_spec. Qed.

Lemma hashSecret_nonempty s : hashSecret s ≠ "".
Proof. apply HashSecret_nonempty. Qed.

Lemma openAuthValue_sealAuthValue aead rnd aad plaintext v :
  rand_ok rnd → sealAuthValue aead rnd aad plaintext = Ok v →
  openAuthValue aead aad v = Ok plaintext.
Proof. apply Open_Seal. Qed.
End Memory.
End Memory.

(** ** Concrete parameters, for evaluation *)

Fixpoint pad_to (n : nat) (s : string) : string :=
  match n with
  | O => ""
  | S n => match s with "" => String "000" (pad_to n "") | String c s => String c (pad_to n s) end
  end.

Lemma pad_to_length n s : String.length (pad_to n s) = n.
Proof. revert s. induction n; intros [|c s]; simpl; auto. Qed.

(** A 32-byte digest that is injective on strings of at most 31 bytes. *)
#[refine] Definition toy_sha256 : Sha256 := {|
  sha256 s := pad_to 32 (s +:+ String "001" "")
|}.
Proof. intros. apply pad_to_length. Defined.

(** An AEAD that carries the associated data in the clear. *)
#[refine] Definition toy_aead : AEAD := {|
  NonceSize := 12;
  aead_seal nonce p ad := String.append ad p;
  aead_open nonce c ad := if String.prefix ad c then Some (drop_str (String.length ad) c) else None
|}.
Proof.
  intros nonce p ad _. rewrite (proj2 (prefix_spec _ _)) by eauto. f_equal. apply drop_str_app.
Defined.

Definition zero_rand : rand_read := λ n, Some (pad_to n "").
Lemma zero_rand_ok : rand_ok zero_rand.
Proof. intros n s [= <-]. apply pad_to_length. Qed.

#[export] Hint Resolve zero_rand_ok HashSecret_nonempty Memory.hashSecret_nonempty : go.
