(* ===== verification/Domain.v ===== *)
(** * Data model: [internal/domain]

    One module per struct, with the source's field names; a trailing
    underscore separates a field from a keyword or a type of the same name.
    [r <| F := v |>] is the struct [r] with the field [F] assigned. *)

From S2P Require Import Prelude GoStrings Credentials.
From Stdlib Require Import SpecFloat.

(** A decoded JSON value, Go's [any] as [encoding/json] produces it: every
    number is a [float64]. *)
Inductive json :=
| JNull
| JBool (b : bool)
| JNumber (f : spec_float)
| JString (s : string)
| JArray (l : list json)
| JObject (fields : gmap string json).

(** A push registration ([domain.Registration]). A [nil] slice or map is the empty one. *)
Module Registration.
Record t := mk {
  InstallationID : string;
  DeviceSecret : string;
  DeviceSecretHash : string;
  Provider : string;
  FirebaseInstallation : string;
  APNsDeviceToken : string;
  Endpoint : string;
  P256DH : string;
  Auth : string;
  AppVersion : string;
  Platform : string;
  UserID : string;
  UserLogin : string;
  ChannelIDs : list string;
  ModeratorChannelIDs : list string;
  NotificationRules : list string;
  NotificationChannelRules : gmap string (list string);
  NotificationChannelMutedUntilEpochMillis : gmap string Z;
  HighlightPhrases : list string;
  SelectedUserLogins : list string;
  UpdatedAt : time
}.
#[global] Instance eta_t : Eta t := λ r,
  mk (InstallationID r) (DeviceSecret r) (DeviceSecretHash r) (Provider r)
    (FirebaseInstallation r) (APNsDeviceToken r) (Endpoint r) (P256DH r) (Auth r) (AppVersion r)
    (Platform r) (UserID r) (UserLogin r) (ChannelIDs r) (ModeratorChannelIDs r)
    (NotificationRules r) (NotificationChannelRules r)
    (NotificationChannelMutedUntilEpochMillis r) (HighlightPhrases r) (SelectedUserLogins r)
    (UpdatedAt r).
(** The zero value. *)
Definition zero : t := mk "" "" "" "" "" "" "" "" "" "" "" "" "" [] [] [] ∅ ∅ [] [] 0.
End Registration.

(** [domain.Notification]. *)
Module Notification.
Record t := mk {
  EventID : string;
  Type_ : string;
  Title : string;
  Body : string;
  ChannelID : string;
  ChannelLogin : string;
  MessageID : string;
  ActorID : string;
  ActorLogin : string;
  ActorDisplayName : string;
  Destination : string;
  Silent : bool;
  CreatedAtEpochMillis : Z
}.
#[global] Instance eta_t : Eta t := λ r,
  mk (EventID r) (Type_ r) (Title r) (Body r) (ChannelID r) (ChannelLogin r) (MessageID r)
    (ActorID r) (ActorLogin r) (ActorDisplayName r) (Destination r) (Silent r)
    (CreatedAtEpochMillis r).
(** The zero value. *)
Definition zero : t := mk "" "" "" "" "" "" "" "" "" "" "" false 0.
End Notification.

(** [domain.DeliveryRecord]: a notification queued for one installation. *)
Module DeliveryRecord.
Record t := mk {
  ID : string;
  EventID : string;
  InstallationID : string;
  Notification_ : Notification.t;
  Status : string;
  AttemptCount : Z;
  AvailableAt : time;
  ExpiresAt : time;
  CreatedAt : time;
  SentAt : time;
  AckedAt : time;
  LastError : string
}.
#[global] Instance eta_t : Eta t := λ r,
  mk (ID r) (EventID r) (InstallationID r) (Notification_ r) (Status r) (AttemptCount r)
    (AvailableAt r) (ExpiresAt r) (CreatedAt r) (SentAt r) (AckedAt r) (LastError r).
(** The zero value. *)
Definition zero : t := mk "" "" "" Notification.zero "" 0 0 0 0 0 0 "".
End DeliveryRecord.

(** [domain.ChannelNotificationState]. *)
Module ChannelNotificationState.
Record t := mk {
  Title : string;
  CategoryName : string;
  UpdatedAt : time
}.
#[global] Instance eta_t : Eta t := λ r,
  mk (Title r) (CategoryName r) (UpdatedAt r).
(** The zero value. *)
Definition zero : t := mk "" "" 0.
End ChannelNotificationState.

(** The [Subscription] field of [domain.EventSubEnvelope]. *)
Module Subscription.
Record t := mk {
  ID : string;
  Type_ : string;
  Version : string;
  Status : string;
  Condition : gmap string string
}.
#[global] Instance eta_t : Eta t := λ r,
  mk (ID r) (Type_ r) (Version r) (Status r) (Condition r).
(** The zero value. *)
Definition zero : t := mk "" "" "" "" ∅.
End Subscription.

(** [domain.EventSubEnvelope]. *)
Module EventSubEnvelope.
Record t := mk {
  Challenge : string;
  Subscription_ : Subscription.t;
  Event : gmap string json
}.
#[global] Instance eta_t : Eta t := λ r,
  mk (Challenge r) (Subscription_ r) (Event r).
(** The zero value. *)
Definition zero : t := mk "" Subscription.zero ∅.
End EventSubEnvelope.

(** [domain.EventSubInboxRecord]: a received webhook message. *)
Module EventSubInboxRecord.
Record t := mk {
  MessageID : string;
  Envelope : EventSubEnvelope.t;
  Status : string;
  AttemptCount : Z;
  AvailableAt : time;
  ExpiresAt : time;
  ReceivedAt : time;
  LastAttemptAt : time;
  LastError : string
}.
#[global] Instance eta_t : Eta t := λ r,
  mk (MessageID r) (Envelope r) (Status r) (AttemptCount r) (AvailableAt r) (ExpiresAt r)
    (ReceivedAt r) (LastAttemptAt r) (LastError r).
(** The zero value. *)
Definition zero : t := mk "" EventSubEnvelope.zero "" 0 0 0 0 0 "".
End EventSubInboxRecord.

(** [domain.AuditRecord]. *)
Module AuditRecord.
Record t := mk {
  ID : string;
  Timestamp : time;
  Action : string;
  Status : string;
  InstallationID : string;
  UserID : string;
  ChannelID : string;
  EventID : string;
  Detail : string
}.
#[global] Instance eta_t : Eta t := λ r,
  mk (ID r) (Timestamp r) (Action r) (Status r) (InstallationID r) (UserID r) (ChannelID r)
    (EventID r) (Detail r).
(** The zero value. *)
Definition zero : t := mk "" 0 "" "" "" "" "" "" "".
End AuditRecord.

(** [domain.AuthCredentialRecord]: a credential with its tokens sealed. *)
Module AuthCredentialRecord.
Record t := mk {
  ID : string;
  ClientID : string;
  UserID : string;
  Login : string;
  Scopes : list string;
  AccessToken : EncryptedValue;
  RefreshToken : EncryptedValue;
  AccessExpiresAt : time;
  LastValidatedAt : time;
  UpdatedAt : time
}.
#[global] Instance eta_t : Eta t := λ r,
  mk (ID r) (ClientID r) (UserID r) (Login r) (Scopes r) (AccessToken r) (RefreshToken r)
    (AccessExpiresAt r) (LastValidatedAt r) (UpdatedAt r).
(** The zero value. *)
Definition zero : t := mk "" "" "" "" [] ({| Nonce := ""; Ciphertext := "" |}) ({| Nonce := ""; Ciphertext := "" |}) 0 0 0.
End AuthCredentialRecord.

(** [domain.AuthCredential]: a credential with its tokens in the clear. *)
Module AuthCredential.
Record t := mk {
  ID : string;
  ClientID : string;
  UserID : string;
  Login : string;
  Scopes : list string;
  AccessToken : string;
  RefreshToken : string;
  AccessExpiresAt : time;
  LastValidatedAt : time;
  UpdatedAt : time
}.
#[global] Instance eta_t : Eta t := λ r,
  mk (ID r) (ClientID r) (UserID r) (Login r) (Scopes r) (AccessToken r) (RefreshToken r)
    (AccessExpiresAt r) (LastValidatedAt r) (UpdatedAt r).
(** The zero value. *)
Definition zero : t := mk "" "" "" "" [] "" "" 0 0 0.
End AuthCredential.

(** [domain.AuthSessionRecord]. *)
Module AuthSessionRecord.
Record t := mk {
  CredentialID : string;
  InstallationID : string;
  DeviceHash : string;
  CreatedAt : time;
  ExpiresAt : time
}.
#[global] Instance eta_t : Eta t := λ r,
  mk (CredentialID r) (InstallationID r) (DeviceHash r) (CreatedAt r) (ExpiresAt r).
(** The zero value. *)
Definition zero : t := mk "" "" "" 0 0.
End AuthSessionRecord.

(** [domain.PendingAuthRecord]. *)
Module PendingAuthRecord.
Record t := mk {
  InstallationID : string;
  DeviceHash : string;
  AppCallbackURI : string;
  CreatedAt : time;
  ExpiresAt : time
}.
#[global] Instance eta_t : Eta t := λ r,
  mk (InstallationID r) (DeviceHash r) (AppCallbackURI r) (CreatedAt r) (ExpiresAt r).
(** The zero value. *)
Definition zero : t := mk "" "" "" 0 0.
End PendingAuthRecord.

(** [domain.AuthHandoffRecord]. *)
Module AuthHandoffRecord.
Record t := mk {
  CredentialID : string;
  InstallationID : string;
  DeviceHash : string;
  AppCallbackURI : string;
  StateHash : string;
  CreatedAt : time;
  ExpiresAt : time
}.
#[global] Instance eta_t : Eta t := λ r,
  mk (CredentialID r) (InstallationID r) (DeviceHash r) (AppCallbackURI r) (StateHash r)
    (CreatedAt r) (ExpiresAt r).
(** The zero value. *)
Definition zero : t := mk "" "" "" "" "" 0 0.
End AuthHandoffRecord.

(** [domain.SettingsSyncSnapshot]; the payload is its raw bytes. *)
Module SettingsSyncSnapshot.
Record t := mk {
  Revision : Z;
  UpdatedAt : time;
  UpdatedByInstallationID : string;
  AppVersion : string;
  ContentHash : string;
  Payload : string
}.
#[global] Instance eta_t : Eta t := λ r,
  mk (Revision r) (UpdatedAt r) (UpdatedByInstallationID r) (AppVersion r) (ContentHash r)
    (Payload r).
(** The zero value. *)
Definition zero : t := mk 0 0 "" "" "" "".
End SettingsSyncSnapshot.

(** [domain.SettingsSyncUserState]. *)
Module SettingsSyncUserState.
Record t := mk {
  Current : option SettingsSyncSnapshot.t;
  History : list SettingsSyncSnapshot.t
}.
#[global] Instance eta_t : Eta t := λ r,
  mk (Current r) (History r).
(** The zero value. *)
Definition zero : t := mk None [].
End SettingsSyncUserState.

(** Statuses and limits ([domain/delivery.go], [domain/auth.go],
    [domain/audit.go], [domain/settings.go]). *)
Definition DeliveryStatusPending : string := "pending".
Definition DeliveryStatusSent : string := "sent".
Definition DeliveryStatusAcked : string := "acked".
Definition DeliveryStatusDead : string := "dead".
Definition EventSubInboxStatusPending : string := "pending".
Definition EventSubInboxStatusDead : string := "dead".
Definition MaxDeliveryRecords : Z := 50000.
Definition MaxSeenEventRecords : Z := 100000.
Definition MaxEventSubInboxRecords : Z := 100000.
Definition MaxPendingAuthRecords : Z := 10000.
Definition MaxAuthHandoffs : Z := 10000.
Definition MaxAuthSessions : Z := 100000.
Definition MaxAuditRecords : Z := 20000.
Definition MaxSettingsSyncHistory : Z := 20.

(** [len(m)] of a map. *)
Definition mlen {V} (m : gmap string V) : Z := Z.of_nat (size m).

Lemma mlen_dom {V W} (m : gmap string V) (m' : gmap string W) :
  (∀ k, is_Some (m' !! k) → is_Some (m !! k)) → mlen m' ≤ mlen m.
Proof.
  intros Hsub. unfold mlen. apply inj_le. rewrite <-!size_dom. apply subseteq_size.
  intros k. rewrite !elem_of_dom. apply Hsub.
Qed.

Lemma mlen_sub {V} (m m' : gmap string V) : m' ⊆ m → mlen m' ≤ mlen m.
Proof. intros Hsub. unfold mlen. by apply inj_le, map_subseteq_size. Qed.

Lemma mlen_insert_lt {V} (m : gmap string V) k v n : mlen m < n → mlen (<[k := v]> m) ≤ n.
Proof. unfold mlen. intros Hlt. rewrite map_size_insert. case_match; unfold id; lia. Qed.

Lemma mlen_insert_le {V} (m : gmap string V) k v : mlen (<[k := v]> m) ≤ mlen m + 1.
Proof. apply mlen_insert_lt. lia. Qed.
