(* ===== verification/Postgres.v ===== *)
(** * The database client: [internal/storage/postgres/database.go]

    The production stores send SQL statements to Postgres.  A statement is a
    function on the tables it names that returns the new tables and the rows,
    or an error when a constraint is violated.  The connection is a
    parameter: it decides for each statement whether it is answered, refused,
    or executed without an answer, and what other connections have committed
    before it.  A transaction works on its own copy of the tables and
    publishes it when it commits; it is executed without interruption, as the
    row locks, advisory locks and unique indexes of the schema have it for
    transactions on the same records. *)

From S2P Require Import Prelude GoStrings Credentials Domain GoUnicode.

(** How Postgres orders texts: by a collation, which separates different
    texts. *)
Class Collation := {
  text_lt : string → string → bool;
  text_lt_weak : StrictWeak text_lt;
  text_lt_tie a b : text_lt a b = false → text_lt b a = false → a = b
}.
#[export] Existing Instance text_lt_weak.
Definition bytewise : Collation := {| text_lt := string_lt; text_lt_tie := string_lt_tie |}.

(** What a [JSONB] column keeps of a text, when it is JSON. *)
Class Jsonb := jsonb : string → option string.

Module Postgres.

(** ** Values *)

(** [TIMESTAMPTZ] keeps microseconds; the driver drops the rest. *)
Definition timestamptz (t : time) : time := t / 1000 * 1000.

(** [TEXT] holds UTF-8 without the zero byte. *)
Definition text (s : string) : bool :=
  ValidString s && negb (bool_decide ("000"%char ∈ String.list_ascii_of_string s)).

(** [INTEGER] is a 32-bit integer; a value out of range is an error. *)
Definition integer (n : Z) : result Z :=
  if (- 2 ^ 31 <=? n) && (n <=? 2 ^ 31 - 1) then Ok n else Err (ErrMsg "integer out of range").

Lemma timestamptz_le t : timestamptz t ≤ t < timestamptz t + 1000.
Proof. unfold timestamptz. pose proof (Z.mod_pos_bound t 1000 ltac:(lia)). pose proof (Z.div_mod t 1000 ltac:(lia)). lia. Qed.

Lemma timestamptz_mono t u : t ≤ u → timestamptz t ≤ timestamptz u.
Proof. intros H. unfold timestamptz. apply Z.mul_le_mono_nonneg_r; [lia|]. apply Z.div_le_mono; lia. Qed.

Lemma timestamptz_idemp t : timestamptz (timestamptz t) = timestamptz t.
Proof. unfold timestamptz. by rewrite Z.div_mul. Qed.

(** [UPDATE] or [DELETE ... WHERE] on a table by its primary
    key, with the number of rows affected. *)
Definition updateWhere {V} (p : string → V → bool) (f : V → V) (m : gmap string V) : gmap string V * Z :=
  (map_imap (λ k v, Some (if p k v then f v else v)) m, mlen (filter (λ kv, p kv.1 kv.2 = true) m)).
Definition deleteWhere {V} (p : string → V → bool) (m : gmap string V) : gmap string V * Z :=
  (filter (λ kv, p kv.1 kv.2 = false) m, mlen (filter (λ kv, p kv.1 kv.2 = true) m)).

Arguments updateWhere : simpl never.
Arguments deleteWhere : simpl never.

Lemma updateWhere_lookup {V} p (f : V → V) m k :
  (updateWhere p f m).1 !! k = (λ v, if p k v then f v else v) <$> m !! k.
Proof. unfold updateWhere. cbn. rewrite map_lookup_imap. by destruct (m !! k). Qed.

Lemma deleteWhere_lookup {V} (p : string → V → bool) m k :
  (deleteWhere p m).1 !! k = v ← m !! k; if p k v then None else Some v.
Proof. unfold deleteWhere. cbn. rewrite map_lookup_filter. destruct (m !! k) as [v|]; [|done]. cbn. by destruct (p k v). Qed.

Lemma ok_fst {A B} (p : A * B) a b : Ok p = Ok (a, b) → a = p.1.
Proof. by intros [= ->]. Qed.

(** ** Orders *)

Section Order.
Context {collation : Collation} {V : Type} (stamp : V → time) (key : V → string).
Implicit Types (l : list V) (m : gmap string V).

(** [ORDER BY stamp ASC, key ASC] and its reverse. *)
Definition orderAsc (x y : V) : bool :=
  (stamp x <? stamp y) || ((stamp x =? stamp y) && text_lt (key x) (key y)).
Definition orderDesc (x y : V) : bool := orderAsc y x.

#[export] Instance orderAsc_weak : StrictWeak orderAsc.
Proof.
  assert (∀ x y, orderAsc x y = if stamp x =? stamp y then text_lt (key x) (key y) else stamp x <? stamp y) as Heq.
  { intros x y. unfold orderAsc. destruct (Z.eqb_spec (stamp x) (stamp y)) as [->|].
    - by rewrite Z.ltb_irrefl.
    - by rewrite andb_false_l, orb_false_r. }
  split; intros *; rewrite !Heq.
  - rewrite Z.eqb_refl. apply less_irrefl.
  - intros Hxy Hyz. destruct (Z.eqb_spec (stamp x) (stamp y)), (Z.eqb_spec (stamp y) (stamp z)),
      (Z.eqb_spec (stamp x) (stamp z)); try lia; by eapply (less_trans (less:=text_lt)).
  - intros Hxy Hyz. destruct (Z.eqb_spec (stamp x) (stamp y)), (Z.eqb_spec (stamp y) (stamp z)),
      (Z.eqb_spec (stamp x) (stamp z)); try lia; by eapply (less_negtrans (less:=text_lt)).
Qed.

#[export] Instance orderDesc_weak : StrictWeak orderDesc.
Proof. apply (flip_strict_weak orderAsc), _. Qed.

Lemma orderAsc_tie x y : orderAsc x y = false → orderAsc y x = false → key x = key y.
Proof.
  unfold orderAsc. intros [H1 H2]%orb_false_iff [H3 H4]%orb_false_iff.
  assert (stamp x = stamp y) as Heq by lia. rewrite Heq, Z.eqb_refl in H2, H4. by apply text_lt_tie.
Qed.
End Order.

(** A sort that separates the elements is the only sorted arrangement. *)
Lemma stable_sort_unique {A} (less : A → A → bool) `{!StrictWeak less} (l k : list A) :
  l ≡ₚ k → StronglySorted (λ x y, less x y = true) k → stable_sort less l = k.
Proof.
  intros Hperm Hk. transitivity (@sortSlice reference_runtime A less k); [|by apply sortSlice_id].
  apply (sortSlice_deterministic _ reference_runtime reference_runtime); [|done].
  intros x y Hx Hy Hxy Hyx. rewrite Hperm in Hx, Hy. destruct (in_sorted_cases _ _ _ _ Hk Hx Hy) as [?|[?|?]]; congruence.
Qed.

Lemma stable_sort_strict {A} (less : A → A → bool) `{!StrictWeak less} (l : list A) :
  NoDup l → (∀ x y, x ∈ l → y ∈ l → less x y = false → less y x = false → x = y) →
  StronglySorted (λ x y, less x y = true) (stable_sort less l) ∧ stable_sort less l ≡ₚ l.
Proof.
  intros Hnd Htie. pose proof (@sortSlice_perm reference_runtime A less l) as Hp.
  pose proof (@sortSlice_sorted reference_runtime A less l _) as Hs. change (@sortSlice reference_runtime A less l) with (stable_sort less l) in *.
  split; [|done]. rewrite <-Hp in Hnd. assert (∀ x y, x ∈ stable_sort less l → y ∈ stable_sort less l →
    less x y = false → less y x = false → x = y) as Ht by (intros x y Hx Hy; rewrite Hp in Hx, Hy; by apply Htie).
  clear Hp Htie. induction Hs as [|x k Hs IH Hx]; constructor.
  - apply IH; [by apply NoDup_cons in Hnd as [_ ?]|]. intros a b Ha Hb. apply Ht; by right.
  - rewrite Forall_forall in *. intros y Hy. specialize (Hx y Hy). destruct (less x y) eqn:Hxy; [done|].
    apply NoDup_cons in Hnd as [Hnot _]. rewrite (Ht x y) in Hnot; [done|by left|by right|done|done].
Qed.

(** [ORDER BY ... LIMIT limit] of the rows [p] selects. *)
Definition selectWhere {V} (p : V → bool) (order : V → V → bool) (limit : Z) (m : gmap string V) : list V :=
  take (Z.to_nat limit) (stable_sort order (List.filter p (map_to_list m).*2)).

(** The rows of a table that is keyed by a column. *)
Lemma rows_NoDup {V} (key : V → string) (m : gmap string V) :
  map_Forall (λ k v, key v = k) m → NoDup (map_to_list m).*2.
Proof.
  intros Hkey. apply (NoDup_fmap_1 key). rewrite <-list_fmap_compose.
  replace (key ∘ snd <$> map_to_list m) with (map_to_list m).*1; [apply NoDup_fst_map_to_list|].
  apply list_fmap_ext. intros i [k v] Hi%list_elem_of_lookup_2%elem_of_map_to_list. symmetry. by apply Hkey.
Qed.

Lemma elem_of_rows {V} (m : gmap string V) v : v ∈ (map_to_list m).*2 ↔ ∃ k, m !! k = Some v.
Proof.
  rewrite list_elem_of_fmap. split.
  - intros ([k v'] & -> & H%elem_of_map_to_list). eauto.
  - intros [k Hk]. exists (k, v). by rewrite elem_of_map_to_list.
Qed.

Lemma rows_inj {V} (key : V → string) (m : gmap string V) x y :
  map_Forall (λ k v, key v = k) m → x ∈ (map_to_list m).*2 → y ∈ (map_to_list m).*2 → key x = key y → x = y.
Proof.
  intros Hkey [k Hk]%elem_of_rows [k' Hk']%elem_of_rows Heq.
  rewrite (Hkey _ _ Hk), (Hkey _ _ Hk') in Heq. by simplify_eq.
Qed.

(** ** Lists of identifiers *)

(** [compactStrings] of [postgres_registration.go]: the trimmed values that
    are not blank, each once, in order. *)
Fixpoint compactLoop (values : list string) (seen : gset string) : list string :=
  match values with
  | [] => []
  | value :: values =>
      let value := TrimSpace value in
      if value == "" then compactLoop values seen else
      if bool_decide (value ∈ seen) then compactLoop values seen else
      value :: compactLoop values ({[value]} ∪ seen)
  end.
Definition compactStrings (values : list string) : list string := compactLoop values ∅.

Lemma elem_of_compact values seen v :
  v ∈ compactLoop values seen ↔ (∃ raw, raw ∈ values ∧ TrimSpace raw = v ∧ v ≠ "") ∧ v ∉ seen.
Proof.
  revert seen. induction values as [|x values IH]; intros seen; cbn [compactLoop].
  { split; [by intros ?%elem_of_nil|]. by intros [(raw & ?%elem_of_nil & _) _]. }
  assert ((∃ raw, raw ∈ x :: values ∧ TrimSpace raw = v ∧ v ≠ "") ↔
    (TrimSpace x = v ∧ v ≠ "") ∨ ∃ raw, raw ∈ values ∧ TrimSpace raw = v ∧ v ≠ "") as ->.
  { setoid_rewrite elem_of_cons. naive_solver. }
  case_bool_decide as Hx; [rewrite IH; naive_solver|]. case_bool_decide as Hs; [rewrite IH; naive_solver|].
  rewrite elem_of_cons, IH, elem_of_union, elem_of_singleton.
  destruct (decide (v = TrimSpace x)) as [->|Hne]; naive_solver.
Qed.

(** ** Errors *)

(** [fmt.Errorf("%s: %w", operation, err)]: an error even when [err] is
    nil. *)
Definition fmtDatabase (operation : string) (err : option error) : error :=
  ErrMsg (operation +:+ ": " +:+ match err with Some err => Error err | None => "%!w(<nil>)" end).

(** [if err != nil { return fmtDatabase(operation, err) }] around a call. *)
Definition database {S A} (operation : string) (call : M S A) : M S A := λ s,
  match call s with
  | (s, Ok a) => (s, Ok a)
  | (s, Err err) => (s, Err (fmtDatabase operation (Some err)))
  end.

Definition normalizeLimit (limit fallback maximum : Z) : Z :=
  if (limit <=? 0) || (maximum <? limit) then fallback else limit.

(** A computation that does not touch the state. *)
Definition lift {S A} (r : result A) : M S A := λ s, (s, r).

(** ** Statements *)

(** What becomes of a statement: it is answered, it is not executed, or it is
    executed and the answer is lost. *)
Inductive outcome := Answered | Failed (err : error) | Lost (err : error).

(** A connection: the outcome of each statement, and what other connections
    have changed since the last one. *)
Record Link (T : Type) := mkLink {
  outcomeOf : nat → outcome;
  others : nat → T → T
}.
Arguments mkLink {T}.
Arguments outcomeOf {T}.
Arguments others {T}.

(** A connection nobody else uses. *)
Definition alone {T} (outcomes : nat → outcome) : Link T := mkLink outcomes (λ _ t, t).

(** The tables, and the number of statements sent so far. *)
Record session (T : Type) := mkSession { tables : T; sent : nat }.
Arguments mkSession {T}.
Arguments tables {T}.
Arguments sent {T}.

(** A transaction: what it will leave when it ends, its own view, and
    whether a statement has failed, after which it can only roll back. *)
Record tx (T : Type) := mkTx { published : T; working : T; aborted : bool; position : nat }.
Arguments mkTx {T}.
Arguments published {T}.
Arguments working {T}.
Arguments aborted {T}.
Arguments position {T}.

Section Client.
Context {T : Type} (L : Link T).

(** A statement with the text parameters it is sent with. *)
Definition execute {A} (params : list string) (f : T → result (T * A)) (t : T) : result (T * A) :=
  if forallb text params then f t else Err (ErrMsg "invalid byte sequence for encoding UTF8").

(** [pool.Exec], [pool.Query] and [pool.QueryRow]: the statement is its own
    transaction. *)
Definition onPool {A} (params : list string) (f : T → result (T * A)) : M (session T) A := λ s,
  let i := sent s in
  let t := others L i (tables s) in
  match outcomeOf L i, execute params f t with
  | Answered, Ok (t', a) => (mkSession t' (S i), Ok a)
  | Answered, Err err | Failed err, _ | Lost err, Err _ => (mkSession t (S i), Err err)
  | Lost err, Ok (t', _) => (mkSession t' (S i), Err err)
  end.

(** [tx.Exec], [tx.Query] and [tx.QueryRow]. *)
Definition onTx {A} (params : list string) (f : T → result (T * A)) : M (tx T) A := λ x,
  let i := position x in
  if aborted x then (mkTx (published x) (working x) true (S i), Err (ErrMsg "current transaction is aborted")) else
  match outcomeOf L i, execute params f (working x) with
  | Answered, Ok (t, a) => (mkTx (published x) t false (S i), Ok a)
  | Answered, Err err | Failed err, _ | Lost err, _ => (mkTx (published x) (working x) true (S i), Err err)
  end.

(** [tx.Commit]. *)
Definition Commit : M (tx T) () := λ x,
  let i := position x in
  if aborted x then
    (mkTx (published x) (working x) true (S i), Err (ErrMsg "commit unexpectedly resulted in rollback")) else
  match outcomeOf L i with
  | Answered => (mkTx (working x) (working x) false (S i), Ok ())
  | Failed err => (mkTx (published x) (working x) true (S i), Err err)
  | Lost err => (mkTx (working x) (working x) false (S i), Err err)
  end.

Definition commitDatabaseTx (name : string) : M (tx T) () :=
  database ("commit " +:+ name +:+ " transaction") Commit.

(** [pool.Begin], the body, and the deferred [tx.Rollback], which undoes what
    was not committed. *)
Definition transaction {A} (operation : string) (body : M (tx T) A) : M (session T) A := λ s,
  let i := sent s in
  let t := others L i (tables s) in
  match outcomeOf L i with
  | Answered =>
      let '(x, answer) := body (mkTx t t false (S i)) in
      (mkSession (published x) (position x), answer)
  | Failed err | Lost err => (mkSession t (S i), Err (fmtDatabase operation (Some err)))
  end.

(** ** Reasoning about statements *)

(** What a computation may leave and return. *)
Definition runs {S A} (m : M S A) (s : S) (Q : S → result A → Prop) : Prop :=
  let '(s', answer) := m s in Q s' answer.

Lemma runs_mono {S A} (m : M S A) s (P Q : S → result A → Prop) :
  (∀ s' answer, P s' answer → Q s' answer) → runs m s P → runs m s Q.
Proof. unfold runs. destruct (m s). auto. Qed.

Lemma runs_pair {S A} (m : M S A) s s' answer Q : runs m s Q → m s = (s', answer) → Q s' answer.
Proof. unfold runs. intros H Hm. by rewrite Hm in H. Qed.

Lemma runs_ret {S A} (a : A) s (Q : S → result A → Prop) : Q s (Ok a) → runs (ret a) s Q.
Proof. done. Qed.

Lemma runs_fail {S A} e s (Q : S → result A → Prop) : Q s (Err e) → runs (fail e) s Q.
Proof. done. Qed.

Lemma runs_bind {S A B} (m : M S A) (k : A → M S B) s Q :
  runs m s (λ s' answer, match answer with Ok a => runs (k a) s' Q | Err e => Q s' (Err e) end) →
  runs (bind m k) s Q.
Proof. unfold runs, bind. by destruct (m s) as [s' [a|e]]. Qed.

Lemma runs_database {S A} (m : M S A) operation s Q :
  runs m s (λ s' answer,
    match answer with Ok a => Q s' (Ok a) | Err e => Q s' (Err (fmtDatabase operation (Some e))) end) →
  runs (database operation m) s Q.
Proof. unfold runs, database. by destruct (m s) as [s' [a|e]]. Qed.

(** A statement on its own. *)
Lemma runs_onPool {A} params (f : T → result (T * A)) s Q :
  let t := others L (sent s) (tables s) in
  (∀ n e, Q (mkSession t n) (Err e)) →
  (∀ n t' a, execute params f t = Ok (t', a) → Q (mkSession t' n) (Ok a) ∧ ∀ e, Q (mkSession t' n) (Err e)) →
  runs (onPool params f) s Q.
Proof.
  intros t Herr Hok. unfold runs, onPool. fold t.
  destruct (outcomeOf L (sent s)), (execute params f t) as [[t' a]|e] eqn:Hf; auto; by apply (Hok _ t' a).
Qed.

(** A statement of a transaction that has not failed. *)
Lemma runs_onTx {A} params (f : T → result (T * A)) t w n Q :
  (∀ m e, Q (mkTx t w true m) (Err e)) →
  (∀ m w' a, execute params f w = Ok (w', a) → Q (mkTx t w' false m) (Ok a)) →
  runs (onTx params f) (mkTx t w false n) Q.
Proof.
  intros Herr Hok. unfold runs, onTx. cbn [aborted position working published].
  destruct (outcomeOf L n), (execute params f w) as [[w' a]|e] eqn:Hf; auto.
Qed.

Lemma runs_Commit t w n Q :
  (∀ m e, Q (mkTx t w true m) (Err e)) →
  (∀ m, Q (mkTx w w false m) (Ok ()) ∧ ∀ e, Q (mkTx w w false m) (Err e)) →
  runs Commit (mkTx t w false n) Q.
Proof.
  intros Herr Hok. unfold runs, Commit. cbn [aborted position working published].
  destruct (outcomeOf L n); [apply Hok|apply Herr|by apply Hok].
Qed.

Lemma runs_transaction {A} operation (body : M (tx T) A) s Q :
  let t := others L (sent s) (tables s) in
  (∀ n e, Q (mkSession t n) (Err (fmtDatabase operation (Some e)))) →
  (∀ n, runs body (mkTx t t false n) (λ x answer, ∀ m, Q (mkSession (published x) m) answer)) →
  runs (transaction operation body) s Q.
Proof.
  intros t Herr Hbody. unfold runs, transaction. fold t.
  destruct (outcomeOf L (sent s)); [|apply Herr..].
  specialize (Hbody (S (sent s))). unfold runs in Hbody. destruct (body _). apply Hbody.
Qed.

(** ** Invariants *)

Definition preserves {S A} (P : S → Prop) (m : M S A) : Prop := ∀ s, P s → P (m s).1.

(** A statement that keeps a property of the tables. *)
Definition keeps {A} (P : T → Prop) (f : T → result (T * A)) : Prop := ∀ t t' a, P t → f t = Ok (t', a) → P t'.

Lemma keeps_ok {A} (P : T → Prop) (g : T → T) (a : T → A) :
  (∀ t, P t → P (g t)) → keeps P (λ t, Ok (g t, a t)).
Proof. intros Hg t t' x Ht Heq. injection Heq as <- _. auto. Qed.

(** The property for a transaction: of what is published and of its view. *)
Definition within (P : T → Prop) (x : tx T) : Prop := P (published x) ∧ P (working x).
Definition holds (P : T → Prop) (s : session T) : Prop := P (tables s).

Lemma preserves_ret {S A} (P : S → Prop) (a : A) : preserves P (ret a).
Proof. by intros s. Qed.

Lemma preserves_fail {S A} (P : S → Prop) e : preserves P (fail (A:=A) e).
Proof. by intros s. Qed.

Lemma preserves_bind {S A B} (P : S → Prop) (m : M S A) (k : A → M S B) :
  preserves P m → (∀ a, preserves P (k a)) → preserves P (bind m k).
Proof.
  intros Hm Hk s Hs. unfold bind. specialize (Hm s Hs). destruct (m s) as [s' [a|e]]; [by apply Hk|done].
Qed.

Lemma preserves_database {S A} (P : S → Prop) operation (m : M S A) :
  preserves P m → preserves P (database operation m).
Proof. intros Hm s Hs. unfold database. specialize (Hm s Hs). by destruct (m s) as [s' [a|e]]. Qed.

Lemma execute_ok {A} params (f : T → result (T * A)) t x : execute params f t = Ok x → f t = Ok x.
Proof. unfold execute. by destruct (forallb _ _). Qed.

Lemma preserves_onTx {A} (P : T → Prop) params (f : T → result (T * A)) :
  keeps P f → preserves (within P) (onTx params f).
Proof.
  intros Hf [t w b n] [Ht Hw]. unfold onTx. cbn [aborted position working published] in *. destruct b; [done|].
  destruct (outcomeOf L n), (execute params f w) as [[w' a]|e] eqn:He; try done. split; [done|].
  by eapply Hf, execute_ok.
Qed.

Lemma preserves_Commit (P : T → Prop) : preserves (within P) Commit.
Proof.
  intros [t w b n] [Ht Hw]. unfold Commit. cbn [aborted position working published] in *. destruct b; [done|].
  by destruct (outcomeOf L n).
Qed.

Lemma preserves_commitDatabaseTx (P : T → Prop) name : preserves (within P) (commitDatabaseTx name).
Proof. apply preserves_database, preserves_Commit. Qed.

(** Reading keeps everything. *)
Lemma keeps_read {A} (P : T → Prop) (a : T → A) : keeps P (λ t, Ok (t, a t)).
Proof. by apply keeps_ok. Qed.

Lemma preserves_lift {S A B} (P : S → Prop) (r : result A) (k : A → M S B) :
  (∀ a, r = Ok a → preserves P (k a)) → preserves P (bind (lift r) k).
Proof. intros Hk s Hs. unfold bind, lift. destruct r as [a|e]; [by apply Hk|done]. Qed.

Lemma preserves_lift_end {S A} (P : S → Prop) (r : result A) : preserves P (lift r).
Proof. by intros s. Qed.

(** The other connections keep the property too. *)
Section Rely.
Context (P : T → Prop) (rely : ∀ i t, P t → P (others L i t)).

Lemma preserves_onPool {A} params (f : T → result (T * A)) :
  keeps P f → preserves (holds P) (onPool params f).
Proof.
  intros Hf s Hs. unfold onPool. apply (rely (sent s)) in Hs. unfold holds in *.
  destruct (outcomeOf L (sent s)), (execute params f (others L (sent s) (tables s))) as [[w' a]|e] eqn:He; try done; by eapply Hf, execute_ok.
Qed.

Lemma preserves_transaction {A} operation (body : M (tx T) A) :
  preserves (within P) body → preserves (holds P) (transaction operation body).
Proof.
  intros Hb s Hs. unfold transaction. apply (rely (sent s)) in Hs. unfold holds in *.
  destruct (outcomeOf L (sent s)); [|done..].
  specialize (Hb (mkTx _ _ false (S (sent s))) (conj Hs Hs)). destruct (body _) as [x answer]. apply Hb.
Qed.
End Rely.

(** ** A connection that always answers *)

Section Answered.
Context (answered : ∀ i, outcomeOf L i = Answered).

Lemma answered_onPool {A} params (f : T → result (T * A)) s t a :
  forallb text params = true → f (others L (sent s) (tables s)) = Ok (t, a) →
  onPool params f s = (mkSession t (S (sent s)), Ok a).
Proof. intros Hp Hf. unfold onPool, execute. by rewrite answered, Hp, Hf. Qed.

Lemma answered_onTx {A} params (f : T → result (T * A)) p w n t a :
  forallb text params = true → f w = Ok (t, a) → onTx params f (mkTx p w false n) = (mkTx p t false (S n), Ok a).
Proof.
  intros Hp Hf. unfold onTx, execute. cbn [aborted position working published]. by rewrite answered, Hp, Hf.
Qed.

Lemma answered_Commit p w n : Commit (mkTx p w false n) = (mkTx w w false (S n), Ok ()).
Proof. unfold Commit. cbn [aborted position working published]. by rewrite answered. Qed.

Lemma runs_onTx_ok {A} params (f : T → result (T * A)) p w n t a Q :
  forallb text params = true → f w = Ok (t, a) → Q (mkTx p t false (S n)) (Ok a) →
  runs (onTx params f) (mkTx p w false n) Q.
Proof. intros Hp Hf HQ. unfold runs. by rewrite (answered_onTx _ _ _ _ _ t a). Qed.

Lemma runs_Commit_ok p w n Q : Q (mkTx w w false (S n)) (Ok ()) → runs Commit (mkTx p w false n) Q.
Proof. intros HQ. unfold runs. by rewrite answered_Commit. Qed.

Lemma runs_transaction_ok {A} operation (body : M (tx T) A) s Q :
  let t := others L (sent s) (tables s) in
  runs body (mkTx t t false (S (sent s))) (λ x answer, Q (mkSession (published x) (position x)) answer) →
  runs (transaction operation body) s Q.
Proof. intros t Hb. unfold runs, transaction in *. rewrite answered. fold t. by destruct (body _). Qed.
End Answered.

(** ** Atomicity *)

(** An operation that is specified by [f] was performed, failed without an
    effect, or was performed and its answer was lost. *)
Inductive performed {A} (f : T → T * result A) (t : T) : T → result A → Prop :=
| performed_done : performed f t (f t).1 (f t).2
| performed_failed message : performed f t t (Err (ErrMsg message))
| performed_lost message : performed f t (f t).1 (Err (ErrMsg message)).

Lemma performed_cases {A} (f : T → T * result A) t t' answer :
  performed f t t' answer → t' = t ∨ t' = (f t).1.
Proof. destruct 1; auto. Qed.
End Client.

(** ** Replicas *)

Section Replicas.
Context {T O : Type} (exec : Link T → session T → O → session T).

(** Several servers share the database: before each statement of this one
    the others may have completed any operations, of which some things may be
    assumed. *)
Definition replicas (assumed : O → Prop) (L : Link T) : Prop :=
  ∀ i t, ∃ outcomes ops, Forall assumed ops ∧
    others L i t = tables (foldl (exec (alone outcomes)) (mkSession t 0) ops).

Lemma replicas_rely assumed (P : T → Prop) L :
  (∀ outcomes s o, assumed o → P (tables s) → P (tables (exec (alone outcomes) s o))) →
  replicas assumed L → ∀ i d, P d → P (others L i d).
Proof.
  intros HP HL i d Hd. destruct (HL i d) as (outcomes & ops & Hops & ->).
  assert (P (tables (mkSession d 0))) as Hs by done. clear Hd.
  revert Hs. generalize (mkSession d 0). induction Hops as [|o ops Ho _ IH]; intros s Hs; [done|]. cbn. by apply IH, HP.
Qed.

Lemma execAll_preserves (P : T → Prop) assumed L s ops :
  (∀ L' s o, (∀ i d, P d → P (others L' i d)) → assumed o → P (tables s) → P (tables (exec L' s o))) →
  replicas assumed L → Forall assumed ops → P (tables s) → P (tables (foldl (exec L) s ops)).
Proof.
  intros HP HL Hops. assert (∀ i d, P d → P (others L i d)) as Hrely.
  { apply (replicas_rely assumed); [|done]. intros outcomes s' o. by apply HP. }
  revert s. induction Hops as [|o ops Ho _ IH]; intros s Hs; [done|]. cbn. by apply IH, HP.
Qed.

End Replicas.

(** A computation preserves what its statements keep. *)
Ltac preserve :=
  repeat match goal with
  | |- ∀ _, preserves _ _ => intros ?
  | |- preserves _ (if ?b then _ else _) => destruct b
  | |- preserves _ (match ?x with _ => _ end) => destruct x
  | |- preserves _ (ret _) => apply preserves_ret
  | |- preserves _ (fail _) => apply preserves_fail
  | |- preserves _ (bind _ _) => apply preserves_bind
  | |- preserves _ (database _ _) => apply preserves_database
  | |- preserves _ (onTx _ _ _) => apply preserves_onTx
  | |- preserves _ (Commit _) => apply preserves_Commit
  | |- preserves _ (commitDatabaseTx _ _) => apply preserves_commitDatabaseTx
  | |- preserves _ (onPool _ _ _) => apply preserves_onPool; [done|]
  | |- preserves _ (transaction _ _ _) => apply preserves_transaction; [done|]
  end.

(** The steps of a transaction: each statement fails and ends it, or goes on. *)
Ltac tx_step :=
  lazymatch goal with
  | |- runs (ret _) _ _ => apply runs_ret
  | |- runs (fail _) _ _ => apply runs_fail
  | |- runs (bind _ _) _ _ => apply runs_bind
  | |- runs (database _ _) _ _ => apply runs_database
  | |- runs (commitDatabaseTx _ _) _ _ => unfold commitDatabaseTx
  | |- runs (onTx _ _ _) _ _ => apply runs_onTx
  | |- runs (onPool _ _ _) _ _ => apply runs_onPool
  | |- runs (Commit _) _ _ => apply runs_Commit
  | |- runs (transaction _ _ _) _ _ => apply runs_transaction
  end.

End Postgres.
