(* ===== verification/RateLimit.v ===== *)
(** * Rate limiter: [internal/application/rate_limit.go]

    A token bucket per policy and key.  The tokens are [float64] values: the
    arithmetic is IEEE 754 binary64 as the Standard Library specifies it
    ([SpecFloat]), with Go's rounding.  The enforcement by the handlers is in
    [Server]; here are the limiter, the policies and the address a request
    is counted under. *)

From Stdlib Require Import SpecFloat.
From S2P Require Import Prelude GoStrings NetIP Config Domain.
#[local] Open Scope Z_scope.
#[local] Open Scope go_scope.

Module RateLimit.
Import Config NetIP.

(** ** float64 *)

Abbreviation float64 := spec_float.

#[export] Instance spec_float_eq_dec : EqDecision spec_float.
Proof. solve_decision. Defined.

Definition of_int (z : Z) : float64 := binary_normalize 53 1024 z 0 false.
Definition fadd : float64 → float64 → float64 := SFadd 53 1024.
Definition fsub : float64 → float64 → float64 := SFsub 53 1024.
Definition fmul : float64 → float64 → float64 := SFmul 53 1024.
Definition fdiv : float64 → float64 → float64 := SFdiv 53 1024.
Definition fge (x y : float64) : bool := SFleb y x.

(** [math.Min]. *)
Definition fmin (x y : float64) : float64 :=
  match x, y with
  | S754_infinity true, _ | _, S754_infinity true => S754_infinity true
  | S754_nan, _ | _, S754_nan => S754_nan
  | S754_zero true, S754_zero _ => x
  | S754_zero false, S754_zero _ => y
  | _, _ => if SFltb x y then x else y
  end.

(** [int(math.Floor(x))] and [int(math.Ceil(x))]; what is out of range is
    converted to the smallest integer, as on amd64. *)
Definition to_int64 (z : Z) : Z := if (min_int64 <=? z) && (z <=? max_int64) then z else min_int64.
Definition signed (s : bool) (m : positive) : Z := if s then Zneg m else Zpos m.
Definition floorInt (x : float64) : Z :=
  match x with
  | S754_zero _ => 0
  | S754_finite s m e =>
      to_int64 (if 0 <=? e then signed s m * 2 ^ e else signed s m / 2 ^ (- e))
  | _ => min_int64
  end.
Definition ceilInt (x : float64) : Z :=
  match x with
  | S754_zero _ => 0
  | S754_finite s m e =>
      to_int64 (if 0 <=? e then signed s m * 2 ^ e else - ((- signed s m) / 2 ^ (- e)))
  | _ => min_int64
  end.

(** [Duration.Seconds]. *)
Definition Seconds (d : duration) : float64 :=
  fadd (of_int (Z.quot d Second)) (fdiv (of_int (Z.rem d Second)) (of_int Second)).

(** ** The limiter *)

Record rateLimitPolicy := mkPolicy { name : string; perMinute : Z; burst : Z }.

Record rateLimitDecision := mkDecision {
  Allowed : bool;
  RetryAfter : duration;
  Limit : Z;
  Remaining : Z;
  Audit : bool
}.
(** [rateLimitDecision{Allowed: true}]. *)
Definition allowed : rateLimitDecision := mkDecision true 0 0 0 false.

Record rateLimitBucket := mkBucket {
  tokens : float64;
  updatedAt : time;
  lastSeen : time;
  lastBlockedAudit : time
}.
#[global] Instance eta_bucket : Eta rateLimitBucket := λ b,
  mkBucket (tokens b) (updatedAt b) (lastSeen b) (lastBlockedAudit b).

Record rateLimiter := mkLimiter {
  buckets : gmap string rateLimitBucket;
  maxKeys : Z;
  idleTTL : duration;
  operations : Z
}.
#[global] Instance eta_limiter : Eta rateLimiter := λ l,
  mkLimiter (buckets l) (maxKeys l) (idleTTL l) (operations l).

Definition newRateLimiter (maxKeys : Z) (idleTTL : duration) : rateLimiter :=
  mkLimiter ∅ (if maxKeys <=? 0 then 50000 else maxKeys) (if idleTTL <=? 0 then 30 * Minute else idleTTL) 0.

Definition rateLimitAuditInterval : duration := Minute.

(** The separator is a zero byte. *)
Definition bucketKey (policy : rateLimitPolicy) (key : string) : string :=
  let key := TrimSpace key in
  name policy +:+ String "000"%char (if key == "" then "unknown" else key).

Section Limiter.
Context {rt : GoRuntime}.

(** The eviction loop of [cleanupLocked]; it deletes a bucket each turn. *)
Fixpoint evictLoop (turns : nat) (limit : Z) (m : gmap string rateLimitBucket) : gmap string rateLimitBucket :=
  match turns with
  | O => m
  | S turns =>
      if mlen m <? limit then m else
      let '(oldestKey, _) := range_oldest lastSeen m in
      if oldestKey == "" then m else evictLoop turns limit (delete oldestKey m)
  end.

Definition cleanupLocked (now : time) (l : rateLimiter) : rateLimiter :=
  let cutoff := Add now (- idleTTL l) in
  let kept := range_delete (λ _ bucket, Before (lastSeen bucket) cutoff) (buckets l) in
  l <| buckets := evictLoop (size kept) (maxKeys l) kept |>.

(** The bucket brought up to date: refilled for the time since it was last
    updated, never above the burst. *)
Definition refill (policy : rateLimitPolicy) (now : time) (found : option rateLimitBucket) : rateLimitBucket :=
  let ratePerSecond := fdiv (of_int (perMinute policy)) (of_int 60) in
  let bucket :=
    match found with
    | None => mkBucket (of_int (burst policy)) now now 0
    | Some bucket =>
        if After now (updatedAt bucket)
        then bucket
               <| tokens := fmin (of_int (burst policy))
                    (fadd (tokens bucket) (fmul (Seconds (Sub now (updatedAt bucket))) ratePerSecond)) |>
               <| updatedAt := now |>
        else bucket
    end in
  bucket <| lastSeen := now |>.

(** The decision on an up-to-date bucket. *)
Definition decideBucket (policy : rateLimitPolicy) (now : time) (bucket : rateLimitBucket)
    : rateLimitBucket * rateLimitDecision :=
  let ratePerSecond := fdiv (of_int (perMinute policy)) (of_int 60) in
  if fge (tokens bucket) (of_int 1) then
    let bucket := bucket <| tokens := fsub (tokens bucket) (of_int 1) |> in
    (bucket, mkDecision true 0 (perMinute policy) (floorInt (tokens bucket)) false)
  else
    let missing := fsub (of_int 1) (tokens bucket) in
    let retryAfter := ceilInt (fmul (fdiv missing ratePerSecond) (of_int Second)) in
    let retryAfter := if retryAfter <? Second then Second else retryAfter in
    if IsZero (lastBlockedAudit bucket) || (rateLimitAuditInterval <=? Sub now (lastBlockedAudit bucket))
    then (bucket <| lastBlockedAudit := now |>, mkDecision false retryAfter (perMinute policy) 0 true)
    else (bucket, mkDecision false retryAfter (perMinute policy) 0 false).

Definition take (now : time) (l : rateLimiter) (policy : rateLimitPolicy) (key : string)
    : rateLimiter * rateLimitDecision :=
  if (perMinute policy <=? 0) || (burst policy <=? 0) then (l, allowed) else
  let bucketKey := bucketKey policy key in
  let l := l <| operations := (operations l + 1) mod 2 ^ 64 |> in
  let l := if (operations l mod 256 =? 0) || (maxKeys l <=? mlen (buckets l)) then cleanupLocked now l else l in
  let '(bucket, decision) := decideBucket policy now (refill policy now (buckets l !! bucketKey)) in
  (l <| buckets := <[bucketKey := bucket]> (buckets l) |>, decision).

End Limiter.

(** ** Policies *)

Definition positiveOr (value fallback : Z) : Z := if 0 <? value then value else fallback.

Definition rateLimitGeneralPerMinute (cfg : Config) : Z :=
  positiveOr (RateLimitGeneralPerMinute cfg) DefaultRateLimitGeneralPerMinute.
Definition rateLimitGeneralBurst (cfg : Config) : Z :=
  positiveOr (RateLimitGeneralBurst cfg) DefaultRateLimitGeneralBurst.
Definition rateLimitAuthPerMinute (cfg : Config) : Z :=
  positiveOr (RateLimitAuthPerMinute cfg) DefaultRateLimitAuthPerMinute.
Definition rateLimitAuthBurst (cfg : Config) : Z :=
  positiveOr (RateLimitAuthBurst cfg) DefaultRateLimitAuthBurst.
Definition rateLimitInstallationPerMinute (cfg : Config) : Z :=
  positiveOr (RateLimitInstallationPerMinute cfg) DefaultRateLimitInstallationPerMinute.
Definition rateLimitInstallationBurst (cfg : Config) : Z :=
  positiveOr (RateLimitInstallationBurst cfg) DefaultRateLimitInstallationBurst.
Definition rateLimitAdminPerMinute (cfg : Config) : Z :=
  positiveOr (RateLimitAdminPerMinute cfg) DefaultRateLimitAdminPerMinute.
Definition rateLimitAdminBurst (cfg : Config) : Z :=
  positiveOr (RateLimitAdminBurst cfg) DefaultRateLimitAdminBurst.
Definition rateLimitMaxKeys (cfg : Config) : Z := positiveOr (RateLimitMaxKeys cfg) DefaultRateLimitMaxKeys.
Definition rateLimitIdleTTL (cfg : Config) : duration := positiveOr (RateLimitIdleTTL cfg) DefaultRateLimitIdleTTL.

Definition generalPolicy (cfg : Config) : rateLimitPolicy :=
  mkPolicy "general_ip" (rateLimitGeneralPerMinute cfg) (rateLimitGeneralBurst cfg).
Definition authPolicy (cfg : Config) : rateLimitPolicy :=
  mkPolicy "auth_ip" (rateLimitAuthPerMinute cfg) (rateLimitAuthBurst cfg).
Definition installationPolicy (cfg : Config) : rateLimitPolicy :=
  mkPolicy "installation" (rateLimitInstallationPerMinute cfg) (rateLimitInstallationBurst cfg).
Definition adminPolicy (cfg : Config) : rateLimitPolicy :=
  mkPolicy "admin_ip" (rateLimitAdminPerMinute cfg) (rateLimitAdminBurst cfg).
Definition eventSubInvalidPolicy : rateLimitPolicy := mkPolicy "eventsub_invalid_ip" 30 5.
Definition eventSubInvalidAuditPolicy : rateLimitPolicy := mkPolicy "eventsub_invalid_audit" 60 10.
Definition auditPolicy : rateLimitPolicy := mkPolicy "rate_limit_audit" 60 10.

Definition rateLimitExemptPath (path : string) : bool := path == "/v1/eventsub/webhook".

(** ** The address of a client *)

Definition ipInPrefixes (address : Addr) (prefixes : list Prefix) : bool :=
  if negb (IsValid address) then false else existsb (λ prefix, PrefixContains prefix address) prefixes.

Definition parseRequestIP (raw : string) : Addr :=
  let raw := TrimSpace raw in
  if raw == "" then Zero else
  let raw := default raw (SplitHostPort raw) in
  let raw := TrimChars ["["%char; "]"%char] raw in
  match ParseAddr raw with
  | None => Zero
  | Some address => Unmap address
  end.

(** The loop from the end of the chain: the first address that is not a
    trusted proxy. *)
Fixpoint lastUntrusted (trusted : list Prefix) (reversed : list Addr) : option Addr :=
  match reversed with
  | [] => None
  | candidate :: rest => if negb (ipInPrefixes candidate trusted) then Some candidate else lastUntrusted trusted rest
  end.

(** The valid addresses of a header, in order. *)
Definition forwardedChain (header : string) : list Addr :=
  List.filter IsValid ((λ raw, parseRequestIP (TrimSpace raw)) <$> Split "," header).

Definition requestClientIP (remoteAddr forwardedFor : string) (trusted : list Prefix) : string :=
  let remote := parseRequestIP remoteAddr in
  if negb (IsValid remote) then "unknown" else
  if negb (ipInPrefixes remote trusted) then AddrString remote else
  let chain := forwardedChain forwardedFor ++ [remote] in
  match lastUntrusted trusted (rev chain) with
  | Some candidate => AddrString candidate
  | None => AddrString (default remote (head chain))
  end.

End RateLimit.
