(* ===== verification/RateLimitProofs.v ===== *)
(** * Rate limiter: theorems

    The memory of the limiter is bounded whatever keys are presented, a
    burst is granted exactly, and the address a request is counted under
    cannot be chosen by the client. *)

From S2P Require Import Prelude GoStrings NetIP Config Domain RateLimit.
#[local] Open Scope Z_scope.
#[local] Open Scope go_scope.

Module RateLimitProofs.
Import Config NetIP RateLimit.

Section Limiter.
Context {rt : GoRuntime}.
Implicit Types (l : rateLimiter) (m : gmap string rateLimitBucket).

Lemma bucketKey_nonempty policy key : bucketKey policy key ≠ "".
Proof. unfold bucketKey. destruct (name policy); done. Qed.

(** ** Bounded memory *)

(** What the eviction removed was seen no later than what it left. *)
Definition evicted m m' : Prop :=
  m' ⊆ m ∧ ∀ k k' b b', m !! k = Some b → m' !! k = None → m' !! k' = Some b' → lastSeen b ≤ lastSeen b'.

Lemma evictLoop_spec turns limit m :
  0 < limit → m !! "" = None → (size m ≤ turns)%nat →
  let m' := evictLoop turns limit m in
  evicted m m' ∧ mlen m' < limit ∧ m' !! "" = None ∧ (mlen m < limit → m' = m).
Proof.
  intros Hl. revert m. induction turns as [|turns IH]; intros m Hne Hsize; cbn [evictLoop].
  - assert (m = ∅) as -> by (apply map_size_empty_iff; lia).
    split_and!; [|unfold mlen; rewrite map_size_empty; lia|done|done].
    split; [done|]. intros k k' b b' Hk. by rewrite lookup_empty in Hk.
  - destruct (Z.ltb_spec (mlen m) limit) as [Hlt|Hge].
    { split_and!; [|done..]. split; [done|]. intros k k' b b' Hk Hn. congruence. }
    assert (m ≠ ∅) as Hnempty by (intros ->; unfold mlen in Hge; rewrite map_size_empty in Hge; lia).
    destruct (range_oldest_lookup lastSeen m Hnempty) as (b0 & Hb0 & Hstamp).
    pose proof (λ k v, range_oldest_min lastSeen m k v Hne) as Hmin.
    destruct (range_oldest lastSeen m) as [oldestKey oldest]. cbn [fst snd] in *.
    rewrite bool_decide_false by congruence.
    destruct (IH (delete oldestKey m)) as ([Hsub Hev] & Hlen & Hne' & _).
    { rewrite lookup_delete. by case_decide. }
    { rewrite map_size_delete_Some by (by eexists). lia. }
    split_and!; [|done|done|lia]. split.
    + etrans; [done|]. apply delete_subseteq.
    + intros k k' b b' Hk Hn Hk'. destruct (decide (k = oldestKey)) as [->|Hkne].
      * replace b with b0 by congruence. rewrite <-Hstamp. apply (Hmin k').
        eapply lookup_weaken; [exact Hk'|]. etrans; [done|apply delete_subseteq].
      * eapply Hev; [|exact Hn|exact Hk']. by rewrite lookup_delete_ne.
Qed.

(** The invariant of the limiter. *)
Record bounded l : Prop := {
  bounded_keys : 0 < maxKeys l;
  bounded_ttl : 0 < idleTTL l;
  bounded_size : mlen (buckets l) ≤ maxKeys l;
  bounded_named : buckets l !! "" = None
}.

(** A bucket is forgotten only when it was idle or when the table was full
    and it was one of the least recently seen. *)
Definition forgets (now : time) l m' : Prop :=
  m' ⊆ buckets l ∧
  ∀ k b, buckets l !! k = Some b → m' !! k = None →
    lastSeen b < now - idleTTL l ∨
    maxKeys l ≤ mlen (buckets l) ∧ ∀ k' b', m' !! k' = Some b' → lastSeen b ≤ lastSeen b'.

Lemma cleanup_spec now l :
  bounded l →
  let l' := cleanupLocked now l in
  maxKeys l' = maxKeys l ∧ idleTTL l' = idleTTL l ∧ mlen (buckets l') < maxKeys l ∧
  buckets l' !! "" = None ∧ forgets now l (buckets l').
Proof.
  intros [Hk Ht Hs Hn]. unfold cleanupLocked. cbn [maxKeys idleTTL buckets].
  set (kept := range_delete _ _).
  assert (kept !! "" = None) as Hkn.
  { unfold kept. rewrite range_delete_lookup, Hn. done. }
  destruct (evictLoop_spec (size kept) (maxKeys l) kept Hk Hkn) as ([Hsub Hev] & Hlen & Hne & Hid); [done|].
  split_and!; [done..|]. split.
  - etrans; [exact Hsub|]. apply range_delete_subseteq.
  - intros k b Hb Hnone. change (evictLoop (size kept) (maxKeys l) kept !! k = None) in Hnone.
    destruct (kept !! k) as [b0|] eqn:Hkb.
    + right. assert (b0 = b) as ->.
      { apply range_delete_Some in Hkb as [? _]. congruence. }
      split; [|by intros k' b' Hk'; eapply Hev].
      destruct (Z.lt_ge_cases (mlen kept) (maxKeys l)) as [Hlt|Hge].
      * rewrite (Hid Hlt) in Hnone. congruence.
      * etrans; [exact Hge|]. apply mlen_sub, range_delete_subseteq.
    + left. unfold kept in Hkb. rewrite range_delete_lookup, Hb in Hkb. cbn in Hkb.
      destruct (Before _ _) eqn:Hbef; [|done]. unfold Before, Add in Hbef. lia.
Qed.

(** A take on a policy that limits: clean up or not, then update one bucket. *)
Lemma take_spec now l policy key :
  0 < perMinute policy → 0 < burst policy → bounded l →
  ∃ m, forgets now l m ∧ mlen m < maxKeys l ∧ m !! "" = None ∧
    let found := m !! bucketKey policy key in
    let updated := decideBucket policy now (refill policy now found) in
    buckets (take now l policy key).1 = <[bucketKey policy key := updated.1]> m ∧
    (take now l policy key).2 = updated.2 ∧
    maxKeys (take now l policy key).1 = maxKeys l ∧ idleTTL (take now l policy key).1 = idleTTL l ∧
    (mlen (buckets l) < maxKeys l → ∀ k b, buckets l !! k = Some b → now - idleTTL l ≤ lastSeen b → m !! k = Some b).
Proof.
  intros Hp Hb Hl. unfold take. replace ((perMinute policy <=? 0) || (burst policy <=? 0)) with false by lia.
  cbn [operations maxKeys buckets].
  destruct ((_ =? 0) || _) eqn:Hclean.
  - set (l0 := l <| operations := _ |>).
    assert (bounded l0) as Hl0 by (destruct Hl; by split).
    destruct (cleanup_spec now l0 Hl0) as (Hmk & Hit & Hlen & Hne & [Hsub Hforget]).
    set (m := buckets (cleanupLocked now l0)) in *. exists m.
    destruct (decideBucket _ _ _) as [bucket decision] eqn:Hd. cbn [fst snd].
    split_and!; try done.
    intros Hroom k b Hk Hseen. destruct (m !! k) as [b0|] eqn:Hm.
    + pose proof (lookup_weaken _ _ _ _ Hm Hsub) as Heq. change (buckets l0) with (buckets l) in Heq. congruence.
    + destruct (Hforget k b Hk Hm) as [Hidle|[Hfull _]].
      * change (idleTTL l0) with (idleTTL l) in Hidle. lia.
      * change (maxKeys l0) with (maxKeys l) in Hfull. change (buckets l0) with (buckets l) in Hfull. lia.
  - apply orb_false_iff in Hclean as [_ Hclean]. change ((maxKeys l <=? mlen (buckets l)) = false) in Hclean.
    exists (buckets l). destruct (decideBucket _ _ _) as [bucket decision] eqn:Hd. cbn [fst snd].
    split_and!; try done; [|lia|by apply bounded_named]. split; [done|]. intros k b H1 H2. congruence.
Qed.

Lemma take_bounded now l policy key : bounded l → bounded (take now l policy key).1.
Proof.
  intros Hl. destruct (decide (0 < perMinute policy ∧ 0 < burst policy)) as [[Hp Hb]|Hn]; cycle 1.
  { unfold take. by replace ((perMinute policy <=? 0) || (burst policy <=? 0)) with true by lia. }
  destruct (take_spec now l policy key Hp Hb Hl) as (m & _ & Hlen & Hne & Hbk & _ & Hmk & Hit & _).
  destruct Hl. split; rewrite ?Hmk, ?Hit; try done.
  - rewrite Hbk. by apply mlen_insert_lt.
  - rewrite Hbk, lookup_insert_ne; [done|]. apply bucketKey_nonempty.
Qed.

Inductive limiterStep l : rateLimiter → Prop :=
| limiter_take now policy key : limiterStep l (take now l policy key).1.

(** C34.  Whatever keys are presented and whatever the clock does, the
    limiter started by [newRateLimiter] never keeps more buckets than its
    configured number of keys; and the take that forgets a bucket does so
    because it was idle, or because the table was full and no bucket that it
    left was seen earlier. *)
Theorem limiter_bounded keys ttl l now policy key :
  rtc limiterStep (newRateLimiter keys ttl) l →
  mlen (buckets l) ≤ (if keys <=? 0 then 50000 else keys) ∧
  ∀ k b, buckets l !! k = Some b → k ≠ bucketKey policy key →
    let m' := buckets (take now l policy key).1 in
    m' !! k = Some b ∨ m' !! k = None ∧
      (lastSeen b < now - idleTTL l ∨
       maxKeys l ≤ mlen (buckets l) ∧
       ∀ k' b', m' !! k' = Some b' → k' ≠ bucketKey policy key → lastSeen b ≤ lastSeen b').
Proof.
  intros Hreach.
  assert (bounded l ∧ maxKeys l = if keys <=? 0 then 50000 else keys) as [Hl Hmk].
  { assert (bounded (newRateLimiter keys ttl)) as H0.
    { split; cbn; destruct (Z.leb_spec keys 0), (Z.leb_spec ttl 0); try apply lookup_empty;
        unfold mlen, Minute, Second; rewrite ?map_size_empty; lia. }
    remember (newRateLimiter keys ttl) as l0 eqn:Hl0.
    assert (maxKeys l0 = if keys <=? 0 then 50000 else keys) as Hm0 by by subst. clear Hl0.
    induction Hreach as [|l1 l2 l3 [now' policy' key'] _ IH]; [done|].
    apply IH; [by apply take_bounded|]. rewrite <-Hm0.
    destruct (decide (0 < perMinute policy' ∧ 0 < burst policy')) as [[Hp Hb]|Hn].
    - by destruct (take_spec now' l1 policy' key' Hp Hb H0) as (? & _ & _ & _ & _ & _ & -> & _).
    - unfold take. by replace ((perMinute policy' <=? 0) || (burst policy' <=? 0)) with true by lia. }
  split; [rewrite <-Hmk; apply Hl|]. intros k b Hk Hne.
  destruct (decide (0 < perMinute policy ∧ 0 < burst policy)) as [[Hp Hb]|Hn]; cycle 1.
  { left. unfold take. by replace ((perMinute policy <=? 0) || (burst policy <=? 0)) with true by lia. }
  destruct (take_spec now l policy key Hp Hb Hl) as (m & [Hsub Hforget] & _ & _ & Hbk & _).
  cbn zeta in Hbk |- *. rewrite Hbk, (lookup_insert_ne _ _ k) by done. destruct (m !! k) as [b0|] eqn:Hm.
  - left. f_equal. pose proof (lookup_weaken _ _ _ _ Hm Hsub). congruence.
  - right. split; [done|]. destruct (Hforget k b Hk Hm) as [?|[Hfull Hold]]; [by left|right]. split; [done|].
    intros k' b' Hk' Hne'. rewrite lookup_insert_ne in Hk' by done. by eapply Hold.
Qed.

(** ** Bursts *)

(** Up to the largest burst the configuration admits, counting down by one
    is exact in [float64]. *)
Definition maxBurst : Z := 10000.

Lemma countdown_check :
  forallb (λ n, bool_decide (fsub (of_int n) (of_int 1) = of_int (n - 1)) && fge (of_int n) (of_int 1))
    (seqZ 1 maxBurst) = true.
Proof. vm_compute. reflexivity. Qed.

Lemma countdown n : 1 ≤ n ≤ maxBurst → fsub (of_int n) (of_int 1) = of_int (n - 1) ∧ fge (of_int n) (of_int 1) = true.
Proof.
  intros Hn. pose proof countdown_check as H. rewrite forallb_forall in H. specialize (H n).
  rewrite andb_true_iff, bool_decide_eq_true in H. apply H. apply list_elem_of_In, elem_of_seqZ. unfold maxBurst in *. lia.
Qed.

(** A bucket as [used] requests at the instant [now] leave it. *)
Definition spent (policy : rateLimitPolicy) (now : time) (used : Z) (found : option rateLimitBucket) : Prop :=
  if used =? 0 then found = None
  else ∃ b, found = Some b ∧ tokens b = of_int (Z.max 0 (burst policy - used)) ∧ updatedAt b = now ∧ lastSeen b = now.

Lemma decide_spent policy now used found :
  0 ≤ used → 0 < burst policy ≤ maxBurst → spent policy now used found →
  let out := decideBucket policy now (refill policy now found) in
  spent policy now (used + 1) (Some out.1) ∧ (Allowed out.2 = true ↔ used < burst policy) ∧
  (Allowed out.2 = true → Remaining out.2 = floorInt (of_int (burst policy - used - 1))) ∧
  (Allowed out.2 = false → Second ≤ RetryAfter out.2).
Proof.
  intros Hu Hb Hs.
  assert (tokens (refill policy now found) = of_int (Z.max 0 (burst policy - used)) ∧
          updatedAt (refill policy now found) = now ∧ lastSeen (refill policy now found) = now) as (Ht & Hup & Hseen).
  { unfold spent in Hs. unfold refill. destruct (Z.eqb_spec used 0) as [->|Hne].
    - subst found. cbn. split_and!; [|done..]. f_equal. lia.
    - destruct Hs as (b & -> & ? & ? & ?). unfold After. subst now. rewrite Z.ltb_irrefl. done. }
  revert Ht Hup Hseen. generalize (refill policy now found). intros b Ht Hup Hseen. clear Hs.
  unfold decideBucket, spent. replace (used + 1 =? 0) with false by lia. rewrite Ht.
  destruct (Z.lt_ge_cases used (burst policy)) as [Hlt|Hge].
  - rewrite (Z.max_r 0 (burst policy - used)) by lia.
    destruct (countdown (burst policy - used)) as [Hsub Hfge]; [lia|]. rewrite Hfge, Hsub. cbn [fst snd].
    split_and!; [|done|done|done]. eexists. split; [done|]. cbn. split_and!; [|done..]. f_equal. lia.
  - rewrite (Z.max_l 0 (burst policy - used)) by lia.
    replace (fge (of_int 0) (of_int 1)) with false by reflexivity.
    set (retry := if _ <? Second then _ else _).
    assert (Second ≤ retry) as Hretry by (unfold retry; case_match; lia).
    destruct (_ || _); cbn [fst snd Allowed RetryAfter]; (split_and!; [|split; [done|lia]|done|done]);
      (eexists; split; [reflexivity|]); rewrite (Z.max_l 0 (burst policy - (used + 1))) by lia;
      rewrite Z.max_l in Ht by lia; (split_and!; [exact Ht|exact Hup|exact Hseen]).
Qed.

(** A sequence of requests at one instant. *)
Fixpoint takes (now : time) l (requests : list (rateLimitPolicy * string)) : rateLimiter * list rateLimitDecision :=
  match requests with
  | [] => (l, [])
  | (policy, key) :: requests =>
      let '(l, decision) := take now l policy key in
      let '(l, decisions) := takes now l requests in
      (l, decision :: decisions)
  end.

(** How many of the requests are counted under the key. *)
Definition used (requests : list (rateLimitPolicy * string)) (k : string) : Z :=
  Z.of_nat (length (List.filter (λ request, bucketKey request.1 request.2 == k) requests)).

Lemma used_snoc requests policy key k :
  used (requests ++ [(policy, key)]) k = used requests k + if bucketKey policy key == k then 1 else 0.
Proof.
  unfold used. rewrite List.filter_app, length_app. simpl. destruct (bucketKey policy key == k); simpl; lia.
Qed.

(** After the requests [before], the buckets of all the keys of interest. *)
Definition progress (now : time) (all before : list (rateLimitPolicy * string)) l : Prop :=
  bounded l ∧ mlen (buckets l) + Z.of_nat (length all) < maxKeys l + Z.of_nat (length before) ∧
  ∀ policy key, (policy, key) ∈ all →
    spent policy now (used before (bucketKey policy key)) (buckets l !! bucketKey policy key).

Lemma take_progress now all before policy key l :
  (∀ p k p' k', (p, k) ∈ all → (p', k') ∈ all → bucketKey p k = bucketKey p' k' → p = p') →
  (∀ p k, (p, k) ∈ all → 0 < perMinute p ∧ 0 < burst p ≤ maxBurst) →
  (policy, key) ∈ all → (length before < length all)%nat →
  progress now all before l →
  let out := take now l policy key in
  progress now all (before ++ [(policy, key)]) out.1 ∧
  (Allowed out.2 = true ↔ used before (bucketKey policy key) < burst policy) ∧
  (Allowed out.2 = false → Second ≤ RetryAfter out.2).
Proof.
  intros Hdet Hpol Hin Hlen (Hl & Hroom & Hspent). destruct (Hpol _ _ Hin) as [Hp Hb].
  destruct (take_spec now l policy key Hp (proj1 Hb) Hl) as (m & [Hsub _] & _ & _ & Hbk & Hdec & Hmk & Hit & Hkeep).
  specialize (Hkeep ltac:(lia)).
  assert (∀ p k, (p, k) ∈ all → m !! bucketKey p k = buckets l !! bucketKey p k) as Hsame.
  { intros p k Hpk. specialize (Hspent p k Hpk). unfold spent in Hspent.
    destruct (used before (bucketKey p k) =? 0).
    - rewrite Hspent. destruct (m !! bucketKey p k) as [b|] eqn:Hm; [|done].
      pose proof (lookup_weaken _ _ _ _ Hm Hsub). congruence.
    - destruct Hspent as (b & Hbl & _ & _ & Hseen). rewrite Hbl. apply Hkeep; [done|].
      rewrite Hseen. destruct Hl. lia. }
  pose proof (Hspent policy key Hin) as Hs. rewrite <-(Hsame policy key Hin) in Hs.
  destruct (decide_spent policy now (used before (bucketKey policy key)) (m !! bucketKey policy key))
    as (Hafter & Hall & _ & Hretry); [unfold used; lia|done|done|].
  cbn zeta in Hbk, Hdec |- *. rewrite Hdec. split_and!; [|done|done]. split_and!.
  - by apply take_bounded.
  - rewrite Hbk, Hmk, length_app. simpl. pose proof (mlen_insert_le m (bucketKey policy key)
      (decideBucket policy now (refill policy now (m !! bucketKey policy key))).1). pose proof (mlen_sub _ _ Hsub). lia.
  - intros p k Hpk. rewrite used_snoc, Hbk. case_bool_decide as Heq.
    + assert (p = policy) as -> by by eapply Hdet. rewrite Heq, lookup_insert_eq. by rewrite Heq in Hafter.
    + rewrite lookup_insert_ne by done. rewrite Z.add_0_r, Hsame by done. by apply Hspent.
Qed.

(** Requests that arrive at one instant, in any order and interleaved
    over any keys that were not in use, with room for them in the table: each
    key is granted exactly its policy's burst, for every burst the
    configuration admits, whatever the other keys do; the requests after
    that are refused, with a delay of at least a second. *)
Theorem burst_exact now l requests :
  bounded l → mlen (buckets l) + Z.of_nat (length requests) < maxKeys l →
  (∀ p k p' k', (p, k) ∈ requests → (p', k') ∈ requests → bucketKey p k = bucketKey p' k' → p = p') →
  (∀ p k, (p, k) ∈ requests → 0 < perMinute p ∧ 0 < burst p ≤ maxBurst ∧ buckets l !! bucketKey p k = None) →
  ∀ i policy key decision,
    requests !! i = Some (policy, key) → (takes now l requests).2 !! i = Some decision →
    (Allowed decision = true ↔ used (list.take i requests) (bucketKey policy key) < burst policy) ∧
    (Allowed decision = false → Second ≤ RetryAfter decision).
Proof.
  intros Hl Hroom Hdet Hpol.
  assert (∀ todo before l, requests = before ++ todo → progress now requests before l →
    ∀ i policy key decision, todo !! i = Some (policy, key) → (takes now l todo).2 !! i = Some decision →
    (Allowed decision = true ↔ used (before ++ list.take i todo) (bucketKey policy key) < burst policy) ∧
    (Allowed decision = false → Second ≤ RetryAfter decision)) as Hgen; cycle 1.
  { apply (Hgen requests [] l eq_refl). split_and!; [done|cbn; lia|].
    intros p k Hpk. by apply Hpol in Hpk as (_ & _ & ?). }
  clear Hl Hroom. induction todo as [|[p k] todo IH]; intros before l0 Heq Hprog i policy key decision Hi Hd; [done|].
  destruct (take_progress now requests before p k l0) as (Hprog' & Hallow & Hretry).
  { done. }
  { intros p' k' Hpk. by destruct (Hpol p' k' Hpk) as (? & ? & _). }
  { rewrite Heq. apply elem_of_app. right. by left. }
  { rewrite Heq, length_app. simpl. lia. }
  { done. }
  cbn [takes] in Hd. destruct (take now l0 p k) as [l1 d] eqn:Ht.
  pose proof (IH (before ++ [(p, k)]) l1) as IH1. destruct (takes now l1 todo) as [l2 ds].
  destruct i as [|i]; cbn in Hi, Hd.
  - injection Hi as <- <-. injection Hd as <-. rewrite app_nil_r. done.
  - cbn [list.take]. rewrite cons_middle, app_assoc. apply (IH1 ltac:(by rewrite <-app_assoc) Hprog' i _ _ _ Hi Hd).
Qed.

End Limiter.
(** ** The address of a client *)

Lemma lastUntrusted_skip trusted proxies rest :
  Forall (λ a, ipInPrefixes a trusted = true) proxies →
  lastUntrusted trusted (proxies ++ rest) = lastUntrusted trusted rest.
Proof. induction 1 as [|a l Ha _ IH]; [done|]. simpl. by rewrite Ha. Qed.

(** What a chain of proxies appends to a header. *)
Definition appended (header : string) (hops : list string) : string :=
  foldl (λ h hop, h +:+ String "," hop) header hops.

Lemma forwardedChain_appended header hops :
  Forall (free ",") hops →
  forwardedChain (appended header hops) =
  forwardedChain header ++ List.filter IsValid ((λ raw, parseRequestIP (TrimSpace raw)) <$> hops).
Proof.
  unfold forwardedChain, appended. revert header. induction hops as [|hop hops IH]; intros header Hfree; cbn [foldl].
  { by rewrite app_nil_r. }
  inversion_clear Hfree as [|? ? Hhop Hrest]. rewrite IH by done. rewrite Split_app, (Split_free "," hop) by done.
  rewrite fmap_app, List.filter_app, <-app_assoc. f_equal. simpl. by destruct (IsValid _).
Qed.

(** C35.  The client does not choose the address it is counted under.  When
    the peer is not a trusted proxy the header is ignored.  When it is, and
    the client's own address (appended by the first trusted proxy) is
    followed only by addresses of trusted proxies, the result is the client's
    address, whatever the client put into the header before it. *)
Theorem client_ip_not_spoofable remoteAddr forged real hops trusted :
  IsValid (parseRequestIP remoteAddr) = true →
  let client := parseRequestIP (TrimSpace real) in
  if ipInPrefixes (parseRequestIP remoteAddr) trusted then
    free "," real → Forall (free ",") hops → IsValid client = true → ipInPrefixes client trusted = false →
    Forall (λ raw, ipInPrefixes (parseRequestIP (TrimSpace raw)) trusted = true) hops →
    requestClientIP remoteAddr (appended forged (real :: hops)) trusted = AddrString client
  else requestClientIP remoteAddr forged trusted = AddrString (parseRequestIP remoteAddr).
Proof.
  intros Hvalid client. unfold requestClientIP. rewrite Hvalid. cbn [negb].
  destruct (ipInPrefixes (parseRequestIP remoteAddr) trusted) eqn:Hremote; [|done]. cbn [negb].
  intros Hreal Hhops Hcv Hct Hproxies.
  rewrite forwardedChain_appended by by constructor. rewrite fmap_cons. simpl. fold client. rewrite Hcv.
  set (proxies := List.filter IsValid _).
  assert (Forall (λ a, ipInPrefixes a trusted = true) (rev (proxies ++ [parseRequestIP remoteAddr]))) as Hall.
  { apply Forall_rev, Forall_app. split; [|by constructor].
    apply Forall_forall. intros a [Ha _]%elem_of_filter_bool. apply list_elem_of_fmap in Ha as (raw & -> & Hraw).
    rewrite Forall_forall in Hproxies. by apply Hproxies. }
  replace (rev ((forwardedChain forged ++ client :: proxies) ++ [parseRequestIP remoteAddr]))
    with (rev (proxies ++ [parseRequestIP remoteAddr]) ++ client :: rev (forwardedChain forged)).
  - rewrite lastUntrusted_skip by done. simpl. by rewrite Hct.
  - rewrite <-app_assoc. change ((client :: proxies) ++ ?x) with (client :: (proxies ++ x)).
    rewrite (rev_app_distr (forwardedChain forged)). cbn [rev]. by rewrite <-(app_assoc (rev (proxies ++ _))).
Qed.

(** ** Concrete runs *)

Module LimiterExample.
#[export] Existing Instance reference_runtime.
Definition policy : rateLimitPolicy := mkPolicy "auth_ip" 60 2.
Definition empty : rateLimiter := newRateLimiter 3 Minute.
Definition once : rateLimiter := (take 1000 empty policy "ip:a").1.
Definition requests : list (rateLimitPolicy * string) :=
  [(policy, "ip:a"); (policy, "ip:b"); (policy, "ip:a"); (policy, "ip:a")].
Definition room : rateLimiter := newRateLimiter 100 Minute.
Definition trusted : list Prefix := [mkPrefix (V4 167772160) 8].
End LimiterExample.
Import LimiterExample.

Lemma limiter_bounded_witness :
  rtc limiterStep LimiterExample.empty LimiterExample.once ∧
  mlen (buckets LimiterExample.once) ≤ 3 ∧ mlen (buckets LimiterExample.once) = 1.
Proof.
  assert (rtc limiterStep LimiterExample.empty LimiterExample.once) as H by (apply rtc_once; constructor).
  split; [exact H|]. split; [|vm_compute; reflexivity].
  exact (proj1 (limiter_bounded 3 Minute LimiterExample.once 2000 LimiterExample.policy "ip:b" H)).
Defined.

Lemma burst_exact_witness :
  Allowed <$> (takes 1000 LimiterExample.room LimiterExample.requests).2 = [true; true; true; false] ∧
  ∃ decision, (takes 1000 LimiterExample.room LimiterExample.requests).2 !! 3%nat = Some decision ∧
    Allowed decision = false ∧ Second ≤ RetryAfter decision.
Proof.
  split; [vm_compute; reflexivity|].
  destruct ((takes 1000 LimiterExample.room LimiterExample.requests).2 !! 3%nat) as [decision|] eqn:Hd;
    [|vm_compute in Hd; discriminate].
  exists decision. split; [reflexivity|].
  assert (Allowed decision = false) as Hno by (vm_compute in Hd; injection Hd as <-; reflexivity).
  split; [exact Hno|].
  refine (proj2 (burst_exact 1000 LimiterExample.room LimiterExample.requests _ _ _ _ 3 _ _ decision eq_refl Hd) Hno).
  - split; vm_compute; try reflexivity; discriminate.
  - vm_compute. reflexivity.
  - intros p k p' k' H H' _. unfold LimiterExample.requests in *.
    rewrite !elem_of_cons in H, H'. destruct H as [[= -> _]|[[= -> _]|[[= -> _]|[[= -> _]|[]%elem_of_nil]]]],
      H' as [[= -> _]|[[= -> _]|[[= -> _]|[[= -> _]|[]%elem_of_nil]]]]; reflexivity.
  - intros p k H. unfold LimiterExample.requests in H. rewrite !elem_of_cons in H.
    destruct H as [[= -> _]|[[= -> _]|[[= -> _]|[[= -> _]|[]%elem_of_nil]]]];
      split_and!; try (vm_compute; reflexivity); vm_compute; discriminate.
Defined.

Lemma client_ip_not_spoofable_witness :
  requestClientIP "10.0.0.1:443" (appended "1.2.3.4" [" 203.0.113.9"; "10.0.0.7"]) LimiterExample.trusted = "203.0.113.9".
Proof.
  refine (client_ip_not_spoofable "10.0.0.1:443" "1.2.3.4" " 203.0.113.9" ["10.0.0.7"] LimiterExample.trusted
    eq_refl _ _ _ _ _).
  - vm_compute. set_solver.
  - repeat constructor. vm_compute. set_solver.
  - reflexivity.
  - reflexivity.
  - repeat constructor.
Defined.

End RateLimitProofs.
