(* ===== verification/RegistrationStore.v ===== *)
(** * Registration store: [internal/storage/memory/store.go]

    The push registrations, keyed by installation.  A registration is owned
    by the device secret it was created with: the store keeps only the hash
    of that secret and refuses every write or read with another one.  The
    mutex makes each operation one step; the state is the map. *)

From S2P Require Import Prelude GoStrings Credentials Domain.
Import Memory.

Module RegistrationStore.

Record t := mk { registrations : gmap string Registration.t }.
#[global] Instance eta_t : Eta t := λ s, mk (registrations s).

Definition OpenStore : t := mk ∅.

Section Store.
Context {rt : GoRuntime} {sha : Sha256}.

Definition persistLocked (s : t) : result () := Ok ().

Definition cloneNotificationChannelMutedUntilEpochMillis (value : gmap string Z) : gmap string Z :=
  if mlen value =? 0 then ∅ else range_copy value.

Definition cloneNotificationChannelRules (value : gmap string (list string))
    : gmap string (list string) :=
  if mlen value =? 0 then ∅ else range_copy value.

Definition registrationSecretMatches (registration : Registration.t) (provided : string) : bool :=
  if provided == "" then false else
  if Registration.DeviceSecretHash registration != "" then
    secureHashEqual (Registration.DeviceSecretHash registration) (hashSecret provided)
  else secureEqual (Registration.DeviceSecret registration) provided.

(** The form in which [Upsert] stores a registration: the secret replaced by
    its hash, the maps cloned. *)
Definition at_rest (registration : Registration.t) : Registration.t :=
  registration
    <| Registration.DeviceSecretHash := hashSecret (Registration.DeviceSecret registration) |>
    <| Registration.DeviceSecret := "" |>
    <| Registration.NotificationChannelRules :=
         cloneNotificationChannelRules (Registration.NotificationChannelRules registration) |>
    <| Registration.NotificationChannelMutedUntilEpochMillis :=
         cloneNotificationChannelMutedUntilEpochMillis
           (Registration.NotificationChannelMutedUntilEpochMillis registration) |>.

Definition Upsert (s : t) (registration : Registration.t) : t * result () :=
  let providedSecret := Registration.DeviceSecret registration in
  if providedSecret == "" then (s, Err ErrDeviceSecretMismatch) else
  if match registrations s !! Registration.InstallationID registration with
     | Some existing => negb (registrationSecretMatches existing providedSecret)
     | None => false
     end
  then (s, Err ErrDeviceSecretMismatch) else
  let registration := at_rest registration in
  let s := mk (<[Registration.InstallationID registration := registration]> (registrations s)) in
  (s, persistLocked s).

(** The copy handed out by [List], [Get] and [Authenticate]: no secret, no
    hash, its maps cloned. *)
Definition public (registration : Registration.t) : Registration.t :=
  registration
    <| Registration.DeviceSecret := "" |>
    <| Registration.DeviceSecretHash := "" |>
    <| Registration.NotificationChannelRules :=
         cloneNotificationChannelRules (Registration.NotificationChannelRules registration) |>
    <| Registration.NotificationChannelMutedUntilEpochMillis :=
         cloneNotificationChannelMutedUntilEpochMillis
           (Registration.NotificationChannelMutedUntilEpochMillis registration) |>.

Definition List (s : t) : list Registration.t := public <$> (rangeMap (registrations s)).*2.

Definition Get (s : t) (installationID : string) : result Registration.t :=
  match registrations s !! installationID with
  | None => Err ErrRegistrationNotFound
  | Some registration => Ok (public registration)
  end.

Definition Authenticate (s : t) (installationID deviceSecret : string) : result Registration.t :=
  match registrations s !! installationID with
  | None => Err ErrRegistrationNotFound
  | Some registration =>
      if registrationSecretMatches registration deviceSecret
      then Ok (public registration) else Err ErrDeviceSecretMismatch
  end.

Definition Delete (s : t) (installationID deviceSecret : string) : t * result () :=
  match registrations s !! installationID with
  | None => (s, Err ErrRegistrationNotFound)
  | Some registration =>
      if registrationSecretMatches registration deviceSecret
      then let s := mk (delete installationID (registrations s)) in (s, persistLocked s)
      else (s, Err ErrDeviceSecretMismatch)
  end.

(** The set of trimmed, non-blank installation identifiers. *)
Definition account_targets (installationIDs : list string) : gset string :=
  foldl (λ targets installationID,
      let installationID := TrimSpace installationID in
      if installationID != "" then {[installationID]} ∪ targets else targets)
    ∅ installationIDs.

(** Whether [DeleteForAccount] removes an entry. *)
Definition account_selects (userID : string) (targets : gset string)
    (installationID : string) (registration : Registration.t) : bool :=
  negb (negb (bool_decide (installationID ∈ targets)) &&
        ((userID == "") || (Registration.UserID registration != userID))).

Definition DeleteForAccount (s : t) (userID : string) (installationIDs : list string)
    : t * result (list string) :=
  let userID := TrimSpace userID in
  let targets := account_targets installationIDs in
  let '(remaining, removed) :=
    foldl (λ '(m, removed) '(installationID, registration),
        if account_selects userID targets installationID registration
        then (delete installationID m, removed ++ [installationID]) else (m, removed))
      (registrations s, []) (rangeMap (registrations s)) in
  if bool_decide (removed = []) then (mk remaining, Ok []) else
  let removed := sortSlice string_lt removed in
  let s := mk remaining in
  match persistLocked s with
  | Err e => (s, Err e)
  | Ok _ => (s, Ok removed)
  end.

(** ** Lemmas *)

Lemma clone_rules_id m : cloneNotificationChannelRules m = m.
Proof.
  unfold cloneNotificationChannelRules, mlen. rewrite range_copy_id.
  destruct (Z.eqb_spec (Z.of_nat (size m)) 0); [|done].
  symmetry. apply map_size_empty_inv. lia.
Qed.

Lemma clone_muted_id m : cloneNotificationChannelMutedUntilEpochMillis m = m.
Proof.
  unfold cloneNotificationChannelMutedUntilEpochMillis, mlen. rewrite range_copy_id.
  destruct (Z.eqb_spec (Z.of_nat (size m)) 0); [|done].
  symmetry. apply map_size_empty_inv. lia.
Qed.

(** What every stored registration satisfies: it is filed under its own
    identifier, its plaintext secret is gone and its hash is that of some
    non-empty secret. *)
Definition stored_ok (id : string) (r : Registration.t) : Prop :=
  Registration.InstallationID r = id ∧ Registration.DeviceSecret r = "" ∧
  ∃ secret, secret ≠ "" ∧ Registration.DeviceSecretHash r = hashSecret secret.

Definition wf (s : t) : Prop := map_Forall stored_ok (registrations s).

Lemma secret_matches_spec id r provided :
  stored_ok id r →
  registrationSecretMatches r provided =
    (provided != "") && (Registration.DeviceSecretHash r == hashSecret provided).
Proof.
  intros (_ & _ & secret & _ & Hh). unfold registrationSecretMatches.
  destruct (bool_decide (provided = "")); [done|].
  rewrite bool_decide_false by (rewrite Hh; apply hashSecret_nonempty).
  apply secureHashEqual_hashSecret.
Qed.

Lemma upsert_wf s r : wf s → wf (Upsert s r).1.
Proof.
  intros Hwf. unfold Upsert.
  destruct (bool_decide_reflect (Registration.DeviceSecret r = "")) as [|Hs]; [done|].
  case_match; [done|]. simpl. apply map_Forall_insert_2; [|done].
  split_and!; [done..|]. simpl. by exists (Registration.DeviceSecret r).
Qed.

Lemma Upsert_ok s r s' :
  Upsert s r = (s', Ok ()) →
  Registration.DeviceSecret r ≠ "" ∧
  registrations s' !! Registration.InstallationID r = Some (at_rest r).
Proof.
  unfold Upsert. case_bool_decide; [done|]. case_match; [done|]. intros [= <-].
  split; [done|]. apply lookup_insert_eq.
Qed.

Lemma delete_wf s id secret : wf s → wf (Delete s id secret).1.
Proof.
  intros Hwf. unfold Delete. do 2 (case_match; [|done]). simpl. by apply map_Forall_delete.
Qed.

(** The loop of [DeleteForAccount]: it deletes the selected entries and
    lists their keys in the order of the iteration. *)
Lemma account_loop (p : string → Registration.t → bool) (l : list (string * Registration.t))
    (m : gmap string Registration.t) removed :
  foldl (λ '(m, removed) '(installationID, registration),
      if p installationID registration
      then (delete installationID m, removed ++ [installationID]) else (m, removed))
    (m, removed) l =
  (foldl (λ acc '(k, v), if p k v then delete k acc else acc) m l,
   removed ++ (List.filter (λ kv, p kv.1 kv.2) l).*1).
Proof.
  revert m removed. induction l as [|[k v] l IH]; intros m removed; simpl.
  { by rewrite (right_id_L [] (++)). }
  destruct (p k v); rewrite IH; [|done]. simpl. by rewrite <-(assoc_L (++)).
Qed.

Definition account_removed (s : t) userID installationIDs : list string :=
  (List.filter (λ kv, account_selects (TrimSpace userID) (account_targets installationIDs) kv.1 kv.2)
     (rangeMap (registrations s))).*1.

Lemma DeleteForAccount_eq s userID installationIDs :
  DeleteForAccount s userID installationIDs =
  (mk (range_delete (account_selects (TrimSpace userID) (account_targets installationIDs))
         (registrations s)),
   Ok (sortSlice string_lt (account_removed s userID installationIDs))).
Proof.
  unfold DeleteForAccount. rewrite account_loop. simpl.
  change (foldl _ (registrations s) (rangeMap (registrations s))) with
    (range_delete (account_selects (TrimSpace userID) (account_targets installationIDs))
       (registrations s)).
  fold (account_removed s userID installationIDs).
  case_bool_decide as Hnil; [|done]. rewrite Hnil. do 2 f_equal.
  symmetry. apply Permutation_nil_r, sortSlice_perm.
Qed.

Lemma elem_of_account_removed s userID installationIDs id :
  id ∈ account_removed s userID installationIDs ↔
  ∃ r, registrations s !! id = Some r ∧
    account_selects (TrimSpace userID) (account_targets installationIDs) id r = true.
Proof.
  unfold account_removed. rewrite list_elem_of_fmap. split.
  - intros ([k r] & -> & Hin). apply list_elem_of_In, filter_In in Hin as [Hin Hp].
    exists r. split; [|done]. by apply elem_of_rangeMap, list_elem_of_In.
  - intros (r & Hr & Hp). exists (id, r). split; [done|].
    apply list_elem_of_In, filter_In. split; [|done].
    by apply list_elem_of_In, elem_of_rangeMap.
Qed.

Lemma elem_of_account_targets ids id :
  id ∈ account_targets ids ↔ ∃ raw, raw ∈ ids ∧ TrimSpace raw = id ∧ id ≠ "".
Proof.
  unfold account_targets.
  assert (∀ acc : gset string, id ∈ foldl (λ targets raw,
      let raw := TrimSpace raw in if raw != "" then {[raw]} ∪ targets else targets) acc ids ↔
    id ∈ acc ∨ ∃ raw, raw ∈ ids ∧ TrimSpace raw = id ∧ id ≠ "") as Hgen.
  { induction ids as [|x ids IH]; intros acc; simpl.
    { set_solver. }
    rewrite IH. destruct (bool_decide_reflect (TrimSpace x = "")) as [Hx|Hx]; simpl; set_solver. }
  rewrite Hgen. set_solver.
Qed.

Lemma account_selects_true userID targets id r :
  account_selects userID targets id r = true ↔
  id ∈ targets ∨ (userID ≠ "" ∧ Registration.UserID r = userID).
Proof.
  unfold account_selects. rewrite negb_true_iff, andb_false_iff, orb_false_iff.
  rewrite !negb_false_iff, !bool_decide_eq_true, bool_decide_eq_false. done.
Qed.

Lemma delete_for_account_wf s userID ids : wf s → wf (DeleteForAccount s userID ids).1.
Proof.
  intros Hwf. rewrite DeleteForAccount_eq. simpl.
  intros id r [Hr _]%range_delete_Some. by apply Hwf.
Qed.

End Store.

(** ** Executions *)

Inductive op :=
| OpUpsert (registration : Registration.t)
| OpGet (installationID : string)
| OpAuthenticate (installationID deviceSecret : string)
| OpDelete (installationID deviceSecret : string)
| OpDeleteForAccount (userID : string) (installationIDs : list string).

Inductive output :=
| OutUnit (r : result ())
| OutRegistration (r : result Registration.t)
| OutRemoved (r : result (list string)).

Definition exec {rt : GoRuntime} {sha : Sha256} (s : t) (o : op) : t * output :=
  match o with
  | OpUpsert r => let '(s', x) := Upsert s r in (s', OutUnit x)
  | OpGet id => (s, OutRegistration (Get s id))
  | OpAuthenticate id secret => (s, OutRegistration (Authenticate s id secret))
  | OpDelete id secret => let '(s', x) := Delete s id secret in (s', OutUnit x)
  | OpDeleteForAccount userID ids =>
      let '(s', x) := DeleteForAccount s userID ids in (s', OutRemoved x)
  end.

(** One operation, under any iteration order of the runtime. *)
Inductive step {sha : Sha256} (s : t) : t → Prop :=
| step_exec (rt : GoRuntime) (o : op) : step s (exec s o).1.

Lemma registry_exec_wf {rt : GoRuntime} {sha : Sha256} s o : wf s → wf (exec s o).1.
Proof.
  intros Hwf. destruct o; simpl; [| |done| |].
  - pose proof (upsert_wf s registration Hwf). by destruct (Upsert s registration).
  - done.
  - pose proof (delete_wf s installationID deviceSecret Hwf). by destruct (Delete _ _ _).
  - pose proof (delete_for_account_wf s userID installationIDs Hwf).
    by destruct (DeleteForAccount _ _ _).
Qed.

Lemma OpenStore_wf {sha : Sha256} : wf OpenStore.
Proof. apply map_Forall_empty. Qed.

Lemma steps_wf {sha : Sha256} s s' : wf s → rtc step s s' → wf s'.
Proof. intros Hwf Hs. induction Hs as [|s1 s2 s3 [rt o] _ IH]; auto using registry_exec_wf. Qed.

(** ** Abstract specification: a registry of owned entries *)

Module Registry.
Record entry := { owner : string; published : Registration.t }.

(** What may be shown of a registration. *)
Definition publish (r : Registration.t) : Registration.t :=
  r <| Registration.DeviceSecret := "" |> <| Registration.DeviceSecretHash := "" |>.

Section Registry.
Context {sha : Sha256}.
Implicit Types a : gmap string entry.

(** A secret opens an entry when it is not empty and hashes to its owner. *)
Definition opens (e : entry) (secret : string) : bool :=
  (secret != "") && (owner e == hashSecret secret).

Definition exec a (o : op) : gmap string entry * output :=
  match o with
  | OpUpsert r =>
      let secret := Registration.DeviceSecret r in
      let id := Registration.InstallationID r in
      let free := match a !! id with Some e => opens e secret | None => secret != "" end in
      if free
      then (<[id := {| owner := hashSecret secret; published := publish r |}]> a, OutUnit (Ok ()))
      else (a, OutUnit (Err ErrDeviceSecretMismatch))
  | OpGet id =>
      (a, OutRegistration
        match a !! id with Some e => Ok (published e) | None => Err ErrRegistrationNotFound end)
  | OpAuthenticate id secret =>
      (a, OutRegistration
        match a !! id with
        | Some e => if opens e secret then Ok (published e) else Err ErrDeviceSecretMismatch
        | None => Err ErrRegistrationNotFound
        end)
  | OpDelete id secret =>
      match a !! id with
      | Some e =>
          if opens e secret then (delete id a, OutUnit (Ok ()))
          else (a, OutUnit (Err ErrDeviceSecretMismatch))
      | None => (a, OutUnit (Err ErrRegistrationNotFound))
      end
  | OpDeleteForAccount userID ids =>
      let hit := λ kv, account_selects (TrimSpace userID) (account_targets ids) kv.1 (published kv.2) in
      (filter (λ kv, hit kv = false) a,
       OutRemoved (Ok (stable_sort string_lt (List.filter hit (map_to_list a)).*1)))
  end.
End Registry.
End Registry.

Section Refinement.
Context {rt : GoRuntime} {sha : Sha256}.

Definition abs_entry (r : Registration.t) : Registry.entry :=
  {| Registry.owner := Registration.DeviceSecretHash r; Registry.published := Registry.publish r |}.

(** The abstraction function. *)
Definition abs (s : t) : gmap string Registry.entry := abs_entry <$> registrations s.

Lemma public_publish r : public r = Registry.publish r.
Proof. unfold public. by rewrite clone_rules_id, clone_muted_id. Qed.

Lemma opens_spec s id r secret :
  wf s → registrations s !! id = Some r →
  registrationSecretMatches r secret = Registry.opens (abs_entry r) secret.
Proof. intros Hwf Hr. by rewrite (secret_matches_spec id r secret (Hwf _ _ Hr)). Qed.

Lemma abs_at_rest r :
  abs_entry (at_rest r) =
  {| Registry.owner := hashSecret (Registration.DeviceSecret r);
     Registry.published := Registry.publish r |}.
Proof. unfold at_rest. by rewrite clone_rules_id, clone_muted_id. Qed.

Lemma sim_upsert s r :
  wf s → (abs (Upsert s r).1, OutUnit (Upsert s r).2) = Registry.exec (abs s) (OpUpsert r).
Proof.
  intros Hwf. unfold Upsert. cbn [Registry.exec]. unfold abs at 2.
  rewrite lookup_fmap.
  destruct (registrations s !! Registration.InstallationID r) as [e|] eqn:He; simpl fmap.
  - rewrite (opens_spec s _ _ _ Hwf He).
    destruct (bool_decide (Registration.DeviceSecret r = "")) eqn:Hs.
    { unfold Registry.opens. by rewrite Hs. }
    destruct (Registry.opens _ _); simpl; [|done]. unfold abs. simpl.
    rewrite fmap_insert. by rewrite abs_at_rest.
  - destruct (bool_decide (Registration.DeviceSecret r = "")); simpl; [done|].
    unfold abs. simpl. rewrite fmap_insert. by rewrite abs_at_rest.
Qed.

Lemma selects_publish userID targets id r :
  account_selects userID targets id (Registry.publish r) = account_selects userID targets id r.
Proof. done. Qed.

Lemma sim_delete_for_account s userID ids :
  wf s → (abs (DeleteForAccount s userID ids).1, OutRemoved (DeleteForAccount s userID ids).2) =
  Registry.exec (abs s) (OpDeleteForAccount userID ids).
Proof.
  intros Hwf. rewrite DeleteForAccount_eq. cbn [Registry.exec fst snd]. f_equal.
  - apply map_eq. intros id. unfold abs. simpl. rewrite lookup_fmap, map_lookup_filter, lookup_fmap.
    rewrite range_delete_lookup. destruct (registrations s !! id) as [r|]; [|done]. simpl.
    rewrite selects_publish. by destruct (account_selects _ _ id r).
  - do 2 f_equal. apply (sortSlice_deterministic string_lt rt reference_runtime).
    { intros. by apply string_lt_tie. }
    unfold account_removed, abs.
    assert (∀ l : list (string * Registration.t),
      (List.filter (λ kv, account_selects (TrimSpace userID) (account_targets ids) kv.1 kv.2) l).*1 =
      (List.filter (λ kv, account_selects (TrimSpace userID) (account_targets ids) kv.1
         (Registry.published kv.2)) (prod_map id abs_entry <$> l)).*1) as Hl.
    { induction l as [|[k r] l IH]; [done|]. simpl.
      rewrite selects_publish. destruct (account_selects _ _ k r); simpl; [f_equal; apply IH|apply IH]. }
    rewrite Hl. apply fmap_Permutation, filter_bool_perm.
    by rewrite rangeMap_perm, map_to_list_fmap.
Qed.

Lemma exec_sim s o :
  wf s → (abs (exec s o).1, (exec s o).2) = Registry.exec (abs s) o.
Proof.
  intros Hwf. destruct o as [r|id|id secret|id secret|userID ids].
  - rewrite <-sim_upsert by done. simpl. by destruct (Upsert s r).
  - simpl. unfold Get, abs. rewrite lookup_fmap.
    destruct (registrations s !! id); simpl; by rewrite ?public_publish.
  - simpl. unfold Authenticate, abs. rewrite lookup_fmap.
    destruct (registrations s !! id) as [r|] eqn:Hr; simpl; [|done].
    rewrite (opens_spec s id r secret Hwf Hr), public_publish. by destruct (Registry.opens _ _).
  - simpl. unfold Delete, abs. rewrite lookup_fmap.
    destruct (registrations s !! id) as [r|] eqn:Hr; simpl; [|done].
    rewrite (opens_spec s id r secret Hwf Hr).
    destruct (Registry.opens _ _); simpl; [|done]. by rewrite fmap_delete.
  - rewrite <-sim_delete_for_account by done. simpl. by destruct (DeleteForAccount s userID ids).
Qed.
End Refinement.

(** ** Theorems *)

(** A sequence of operations, each under its own iteration order, and the
    outputs it produces. *)
Fixpoint run {sha : Sha256} (s : t) (ops : list (GoRuntime * op)) : list output :=
  match ops with
  | [] => []
  | (rt, o) :: ops => let '(s', out) := exec s o in out :: run s' ops
  end.

Fixpoint spec_run {sha : Sha256} (a : gmap string Registry.entry) (ops : list op) : list output :=
  match ops with
  | [] => []
  | o :: ops => let '(a', out) := Registry.exec a o in out :: spec_run a' ops
  end.

(** The registration store refines the registry of owned entries.  From
    the empty store, every sequence of upserts, reads, authentications,
    deletions and account-wide deletions returns exactly the outputs of the
    abstract registry, in which an entry is opened by a secret only when the
    secret hashes to its owner; the outputs do not depend on the iteration
    orders the runtime picks. *)
Theorem store_refines_registry {sha : Sha256} (ops : list (GoRuntime * op)) :
  run OpenStore ops = spec_run ∅ ops.*2.
Proof.
  assert (∀ s, wf s → run s ops = spec_run (abs s) ops.*2) as Hgen.
  { induction ops as [|[rt o] ops IH]; intros s Hwf; [done|]. simpl.
    pose proof (exec_sim s o Hwf) as Hsim. pose proof (registry_exec_wf s o Hwf) as Hwf'.
    destruct (exec s o) as [s' out], (Registry.exec (abs s) o) as [a' out'].
    simpl in *. injection Hsim as <- <-. f_equal. by apply IH. }
  rewrite (Hgen OpenStore OpenStore_wf). done.
Qed.

(** Secrets at rest.  In every reachable state each registration is
    filed under its own installation identifier, its plaintext device secret
    has been erased and its hash is the hash of a non-empty secret. *)
Theorem reachable_secrets_hashed {sha : Sha256} (s : t) :
  rtc step OpenStore s → wf s.
Proof. apply steps_wf, OpenStore_wf. Qed.

Definition example_registration : Registration.t :=
  Registration.zero <| Registration.InstallationID := "device-1" |>
    <| Registration.DeviceSecret := "s3cret" |>
    <| Registration.Provider := "embedded_socket" |>
    <| Registration.UserID := "42" |>.

Definition example_store : t :=
  (Upsert (rt:=reference_runtime) (sha:=toy_sha256) OpenStore example_registration).1.

Lemma reachable_secrets_hashed_witness :
  size (registrations example_store) = 1%nat ∧ wf (sha:=toy_sha256) example_store.
Proof.
  split; [by vm_compute|]. apply (@reachable_secrets_hashed toy_sha256).
  apply rtc_once. exact (step_exec (sha:=toy_sha256) OpenStore reference_runtime (OpUpsert example_registration)).
Defined.

(** A registration round trip.  After a successful upsert the device
    authenticates with the secret it sent and gets the registration back
    without secrets, while every secret with another hash is refused for
    reading, overwriting and deleting, and the refusals leave the store
    unchanged. *)
Theorem upsert_then_authenticate {rt : GoRuntime} {sha : Sha256} (s s' : t) r other :
  wf s →
  Upsert s r = (s', Ok ()) →
  hashSecret other ≠ hashSecret (Registration.DeviceSecret r) →
  let id := Registration.InstallationID r in
  Authenticate s' id (Registration.DeviceSecret r) = Ok (Registry.publish r) ∧
  Authenticate s' id other = Err ErrDeviceSecretMismatch ∧
  Delete s' id other = (s', Err ErrDeviceSecretMismatch) ∧
  ∀ r', Registration.InstallationID r' = id → Registration.DeviceSecret r' = other →
    Upsert s' r' = (s', Err ErrDeviceSecretMismatch).
Proof.
  intros Hwf Hup Hother id. subst id.
  assert (wf s') as Hwf' by (replace s' with (Upsert s r).1 by (by rewrite Hup); by apply upsert_wf).
  apply Upsert_ok in Hup as [Hs Hl].
  assert (registrationSecretMatches (at_rest r) other = false) as Hno.
  { rewrite (secret_matches_spec _ _ _ (Hwf' _ _ Hl)). simpl.
    rewrite (bool_decide_false (hashSecret _ = _)) by congruence. apply andb_false_r. }
  split_and!.
  - unfold Authenticate. rewrite Hl, (secret_matches_spec _ _ _ (Hwf' _ _ Hl)). simpl.
    rewrite (bool_decide_false _ Hs), bool_decide_true by done. simpl. f_equal.
    rewrite public_publish. unfold at_rest. by rewrite clone_rules_id, clone_muted_id.
  - unfold Authenticate. by rewrite Hl, Hno.
  - unfold Delete. by rewrite Hl, Hno.
  - intros r' Hid Hsec. unfold Upsert. rewrite Hid, Hl, Hsec, Hno.
    by destruct (bool_decide (other = "")).
Qed.

Lemma upsert_then_authenticate_witness :
  Authenticate (rt:=reference_runtime) (sha:=toy_sha256) example_store "device-1" "guess" =
    Err ErrDeviceSecretMismatch.
Proof.
  apply (@upsert_then_authenticate reference_runtime toy_sha256 OpenStore example_store
           example_registration "guess").
  - apply OpenStore_wf.
  - vm_compute. reflexivity.
  - vm_compute. discriminate.
Defined.

(** Account deletion is exact.  [DeleteForAccount] removes precisely the
    registrations listed by identifier (blank identifiers ignored) or bound to
    the trimmed non-empty user, keeps every other one, and returns the
    removed identifiers in increasing order, whatever order the map was
    iterated in. *)
Theorem delete_for_account_exact {rt : GoRuntime} (s : t) userID ids :
  let hit := λ id r, (∃ raw, raw ∈ ids ∧ TrimSpace raw = id ∧ id ≠ "") ∨
                     (TrimSpace userID ≠ "" ∧ Registration.UserID r = TrimSpace userID) in
  ∃ s' removed,
    DeleteForAccount s userID ids = (s', Ok removed) ∧
    StronglySorted (λ a b, string_lt a b = true) removed ∧
    (∀ id, id ∈ removed ↔ ∃ r, registrations s !! id = Some r ∧ hit id r) ∧
    (∀ id r, registrations s' !! id = Some r ↔ registrations s !! id = Some r ∧ ¬ hit id r).
Proof.
  intros hit. assert (∀ id r,
    account_selects (TrimSpace userID) (account_targets ids) id r = true ↔ hit id r) as Hsel.
  { intros. by rewrite account_selects_true, elem_of_account_targets. }
  rewrite DeleteForAccount_eq. do 2 eexists. split_and!; [done|..].
  - apply sorted_strict; [|apply sortSlice_sorted, _|intros; by apply string_lt_tie].
    rewrite sortSlice_perm. unfold account_removed.
    apply NoDup_fmap_filter, NoDup_rangeMap.
  - intros id. rewrite sortSlice_perm, elem_of_account_removed. by setoid_rewrite Hsel.
  - intros id r. cbn [registrations].
    by rewrite range_delete_Some, <-Hsel, not_true_iff_false.
Qed.

End RegistrationStore.
