(* ===== verification/SettingsSync.v ===== *)
(** * Settings synchronisation: [internal/storage/memory/sync_store.go]

    The settings of a user are one current snapshot with a revision and a
    bounded history of earlier ones.  Writers name the revision they started
    from; a write on another base is a conflict unless it is forced. *)

From S2P Require Import Prelude GoStrings Credentials Domain.

Module SettingsSync.
Import SettingsSyncSnapshot SettingsSyncUserState.

Abbreviation snapshot := SettingsSyncSnapshot.t.
Abbreviation userState := SettingsSyncUserState.t.

Record t := { Users : gmap string userState }.

Definition newMemorySettingsSyncStore : t := {| Users := ∅ |}.

(** The copy of the payload is the payload. *)
Definition cloneSettingsSyncSnapshot (s : snapshot) : snapshot :=
  s <| Payload := Payload s |>.

Definition persistLocked (s : t) : option error := None.

(** [s.state.Users[userID]] with the zero value for a missing key. *)
Definition lookupUser (s : t) (userID : string) : userState :=
  default SettingsSyncUserState.zero (Users s !! userID).

(** [Current] of the store; [None] for [false]. *)
Definition CurrentSnapshot (s : t) (userID : string) : option snapshot :=
  match Users s !! userID with
  | Some state =>
      match Current state with
      | Some c => Some (cloneSettingsSyncSnapshot c)
      | None => None
      end
  | None => None
  end.

Definition currentRevision (u : userState) : Z :=
  match Current u with Some c => Revision c | None => 0 end.

Definition putLocked (now : time) (s : t) (userID installationID : string) (baseRevision : Z)
    (force : bool) (appVersion contentHash payload : string) : t * (snapshot * option error) :=
  let hadUserState := bool_decide (is_Some (Users s !! userID)) in
  let u := lookupUser s userID in
  let previousUserState := u in
  if negb force && negb (baseRevision =? currentRevision u) then
    match Current u with
    | None => (s, (SettingsSyncSnapshot.zero, Some ErrSettingsSyncConflict))
    | Some c => (s, (cloneSettingsSyncSnapshot c, Some ErrSettingsSyncConflict))
    end
  else if match Current u with Some c => ContentHash c == contentHash | None => false end then
    (s, (cloneSettingsSyncSnapshot (default SettingsSyncSnapshot.zero (Current u)), None))
  else
    let next := SettingsSyncSnapshot.mk (int64_wrap (currentRevision u + 1)) now installationID
                  appVersion contentHash payload in
    let u :=
      match Current u with
      | Some c =>
          let history := cloneSettingsSyncSnapshot c :: History u in
          u <| History :=
            if MaxSettingsSyncHistory <? Z.of_nat (length history)
            then take (Z.to_nat MaxSettingsSyncHistory) history else history |>
      | None => u
      end in
    let u := u <| Current := Some next |> in
    let s := {| Users := <[userID := u]> (Users s) |} in
    match persistLocked s with
    | Some err =>
        let s := {| Users := if hadUserState then <[userID := previousUserState]> (Users s)
                             else delete userID (Users s) |} in
        (s, (SettingsSyncSnapshot.zero, Some err))
    | None => (s, (cloneSettingsSyncSnapshot next, None))
    end.

Definition Put := putLocked.

Definition HistoryOf {rt : GoRuntime} (s : t) (userID : string) : list snapshot :=
  match Users s !! userID with
  | None => []
  | Some u =>
      let result := match Current u with Some c => [cloneSettingsSyncSnapshot c] | None => [] end in
      let result := result ++ (cloneSettingsSyncSnapshot <$> History u) in
      sortSlice (λ x y, Revision y <? Revision x) result
  end.

(** The snapshot [Restore] copies. *)
Definition restoreSource (u : userState) (revision : Z) : option snapshot :=
  match Current u with
  | Some c =>
      if Revision c =? revision then Some (cloneSettingsSyncSnapshot c)
      else cloneSettingsSyncSnapshot <$> List.find (λ c, Revision c =? revision) (History u)
  | None => cloneSettingsSyncSnapshot <$> List.find (λ c, Revision c =? revision) (History u)
  end.

Definition Restore (now : time) (s : t) (userID installationID : string) (revision : Z)
    : t * (snapshot * option error) :=
  match Users s !! userID with
  | None => (s, (SettingsSyncSnapshot.zero, Some ErrSettingsSyncRevisionNotFound))
  | Some u =>
      match restoreSource u revision with
      | None => (s, (SettingsSyncSnapshot.zero, Some ErrSettingsSyncRevisionNotFound))
      | Some source =>
          putLocked now s userID installationID (currentRevision u) true
            (AppVersion source) (ContentHash source) (Payload source)
      end
  end.

Lemma clone_id c : cloneSettingsSyncSnapshot c = c.
Proof. by destruct c. Qed.

Lemma clone_fmap_id (l : list snapshot) : cloneSettingsSyncSnapshot <$> l = l.
Proof. induction l as [|c l IH]; [done|]. rewrite fmap_cons, IH. by rewrite clone_id. Qed.

Lemma put_conflict now s userID inst base app hash payload c :
  Current (lookupUser s userID) = Some c → base ≠ Revision c →
  putLocked now s userID inst base false app hash payload =
    (s, (c, Some ErrSettingsSyncConflict)).
Proof.
  intros Hc Hb. unfold putLocked, currentRevision. rewrite Hc.
  apply Z.eqb_neq in Hb as ->. simpl. by rewrite clone_id.
Qed.

(** ** Abstract specification: a ledger of accepted writes

    Per user, every write ever accepted, newest first; the revision of a
    write is the number of writes up to and including it. *)

Inductive op :=
| OpPut (userID installationID : string) (baseRevision : Z) (force : bool)
    (appVersion contentHash payload : string)
| OpRestore (userID installationID : string) (revision : Z)
| OpCurrent (userID : string)
| OpHistory (userID : string).

Inductive output :=
| OutPut (r : snapshot * option error)
| OutCurrent (r : option snapshot)
| OutHistory (r : list snapshot).

Definition exec {rt : GoRuntime} (now : time) (s : t) (o : op) : t * output :=
  match o with
  | OpPut userID installationID baseRevision force appVersion contentHash payload =>
      let '(s, r) := Put now s userID installationID baseRevision force appVersion contentHash payload
      in (s, OutPut r)
  | OpRestore userID installationID revision =>
      let '(s, r) := Restore now s userID installationID revision in (s, OutPut r)
  | OpCurrent userID => (s, OutCurrent (CurrentSnapshot s userID))
  | OpHistory userID => (s, OutHistory (HistoryOf s userID))
  end.

Module Ledger.
Abbreviation state := (gmap string (list snapshot)).
Definition writes (a : state) (userID : string) : list snapshot := default [] (a !! userID).

(** The writes still visible: the current one and [MaxSettingsSyncHistory]
    earlier ones. *)
Definition visible (l : list snapshot) : list snapshot :=
  take (S (Z.to_nat MaxSettingsSyncHistory)) l.

Definition write (now : time) (a : state) (userID installationID : string)
    (appVersion contentHash payload : string) : state * output :=
  let l := writes a userID in
  if match head l with Some c => ContentHash c == contentHash | None => false end
  then (a, OutPut (default SettingsSyncSnapshot.zero (head l), None))
  else
    let next := SettingsSyncSnapshot.mk (Z.of_nat (length l) + 1) now installationID
                  appVersion contentHash payload in
    (<[userID := next :: l]> a, OutPut (next, None)).

Definition exec (now : time) (a : state) (o : op) : state * output :=
  match o with
  | OpPut userID installationID baseRevision force appVersion contentHash payload =>
      let l := writes a userID in
      if force || (baseRevision =? Z.of_nat (length l))
      then write now a userID installationID appVersion contentHash payload
      else (a, OutPut (default SettingsSyncSnapshot.zero (head l), Some ErrSettingsSyncConflict))
  | OpRestore userID installationID revision =>
      match List.find (λ c, Revision c =? revision) (visible (writes a userID)) with
      | Some source => write now a userID installationID
                         (AppVersion source) (ContentHash source) (Payload source)
      | None => (a, OutPut (SettingsSyncSnapshot.zero, Some ErrSettingsSyncRevisionNotFound))
      end
  | OpCurrent userID => (a, OutCurrent (head (writes a userID)))
  | OpHistory userID => (a, OutHistory (visible (writes a userID)))
  end.
End Ledger.

(** *** Simulation *)

(** The state of a user whose accepted writes are [l]. *)
Definition stateOf (l : list snapshot) : userState :=
  SettingsSyncUserState.mk (head l) (take (Z.to_nat MaxSettingsSyncHistory) (tail l)).

(** Revisions count down to one. *)
Definition numbered (l : list snapshot) : Prop :=
  ∀ i c, l !! i = Some c → Revision c = Z.of_nat (length l - i).

Definition sim (s : t) (a : Ledger.state) : Prop :=
  Users s = stateOf <$> a ∧ ∀ userID l, a !! userID = Some l → l ≠ [] ∧ numbered l.

Lemma numbered_nil : numbered [].
Proof. intros i c H. by rewrite lookup_nil in H. Qed.

Lemma numbered_cons c l :
  Revision c = Z.of_nat (length l) + 1 → numbered l → numbered (c :: l).
Proof.
  intros Hc Hl [|i] c'; simpl; [|by apply Hl]. intros [= <-]. lia.
Qed.

Lemma numbered_sorted l n :
  numbered l → StronglySorted (λ x y, (Revision y <? Revision x) = true) (take n l).
Proof.
  revert n. induction l as [|c l IH]; intros [|n] Hl; simpl; [constructor..|].
  assert (numbered l) as Hl'.
  { intros i c' Hi. by rewrite (Hl (S i) c' Hi). }
  constructor; [by apply IH|]. apply Forall_forall. intros c' Hin.
  apply list_elem_of_lookup in Hin as [i Hi]. apply lookup_take_Some in Hi as [Hi _].
  rewrite (Hl' i c' Hi), (Hl 0%nat c eq_refl). simpl.
  apply Z.ltb_lt. lia.
Qed.

Lemma visible_split l :
  Ledger.visible l = match head l with Some c => [c] | None => [] end ++ History (stateOf l).
Proof. unfold Ledger.visible. by destruct l. Qed.

Section Simulation.
Context (s : t) (a : Ledger.state) (Hsim : sim s a).

Lemma sim_lookupUser userID : lookupUser s userID = stateOf (Ledger.writes a userID).
Proof.
  destruct Hsim as [Hs _]. unfold lookupUser, Ledger.writes. rewrite Hs, lookup_fmap.
  by destruct (a !! userID).
Qed.

Lemma sim_numbered userID : numbered (Ledger.writes a userID).
Proof.
  destruct Hsim as [_ Ha]. unfold Ledger.writes. destruct (a !! userID) eqn:Hl; simpl.
  - by eapply Ha.
  - apply numbered_nil.
Qed.

Lemma sim_revision userID :
  currentRevision (lookupUser s userID) = Z.of_nat (length (Ledger.writes a userID)).
Proof.
  rewrite sim_lookupUser. unfold currentRevision, stateOf. simpl.
  pose proof (sim_numbered userID) as Hn. destruct (Ledger.writes a userID) as [|c l]; [done|].
  simpl. by rewrite (Hn 0%nat c eq_refl).
Qed.

Lemma sim_insert userID c :
  Revision c = Z.of_nat (length (Ledger.writes a userID)) + 1 →
  sim {| Users := <[userID := stateOf (c :: Ledger.writes a userID)]> (Users s) |}
      (<[userID := c :: Ledger.writes a userID]> a).
Proof.
  intros Hc. pose proof (sim_numbered userID). destruct Hsim as [Hs Ha]. split; simpl.
  { by rewrite Hs, fmap_insert. }
  intros u l. rewrite lookup_insert_Some. intros [[<- <-]|[_ Hl]]; [|by apply (Ha u)].
  split; [done|]. by apply numbered_cons.
Qed.

Lemma push_take {A} (k : nat) (c : A) (l : list A) :
  (if Z.of_nat k <? Z.of_nat (length (c :: take k l)) then take k (c :: take k l)
   else c :: take k l) = take k (c :: l).
Proof.
  destruct (Z.ltb_spec (Z.of_nat k) (Z.of_nat (length (c :: take k l)))) as [H|H].
  - destruct k; [done|]. simpl. f_equal. rewrite take_take. f_equal. lia.
  - cbn [length] in H. rewrite length_take in H. destruct k; [lia|].
    rewrite take_ge by lia. simpl. by rewrite take_ge by lia.
Qed.

(** The history update of [putLocked] is the next state of the ledger. *)
Lemma stateOf_push (l : list snapshot) next :
  (match Current (stateOf l) with
   | Some c =>
       let history := cloneSettingsSyncSnapshot c :: History (stateOf l) in
       (stateOf l) <| History :=
         if MaxSettingsSyncHistory <? Z.of_nat (length history)
         then take (Z.to_nat MaxSettingsSyncHistory) history else history |>
   | None => stateOf l
   end) <| Current := Some next |> = stateOf (next :: l).
Proof.
  destruct l as [|c l]; [done|].
  pose proof (push_take (Z.to_nat MaxSettingsSyncHistory) c l) as Hp.
  rewrite Z2Nat.id in Hp by done. unfold stateOf.
  cbn [Current History head hd_error tail update]. rewrite clone_id, Hp. done.
Qed.

(** An accepted write. *)
Lemma sim_write now userID installationID base force app hash payload s' out :
  Z.of_nat (length (Ledger.writes a userID)) < max_int64 →
  force = true ∨ base = Z.of_nat (length (Ledger.writes a userID)) →
  putLocked now s userID installationID base force app hash payload = (s', out) →
  ∃ a', Ledger.write now a userID installationID app hash payload = (a', OutPut out) ∧ sim s' a'.
Proof.
  intros Hlt Hok. unfold putLocked, Ledger.write.
  rewrite sim_revision, sim_lookupUser.
  assert (negb force && negb (base =? Z.of_nat (length (Ledger.writes a userID))) = false) as ->.
  { destruct Hok as [-> | ->]; [done|]. rewrite Z.eqb_refl. apply andb_false_r. }
  rewrite int64_wrap_id by (unfold min_int64, max_int64 in *; lia).
  rewrite stateOf_push. change (Current (stateOf ?l)) with (head l).
  case_match.
  - intros [= <- <-]. rewrite clone_id. eauto.
  - simpl. intros [= <- <-]. eexists. split; [done|]. by apply sim_insert.
Qed.

Lemma sim_source u userID revision :
  Users s !! userID = Some u →
  restoreSource u revision =
    List.find (λ c, Revision c =? revision) (Ledger.visible (Ledger.writes a userID)).
Proof.
  intros Hu. pose proof (sim_lookupUser userID) as Hl. unfold lookupUser in Hl.
  rewrite Hu in Hl. simpl in Hl. subst u. rewrite visible_split. unfold restoreSource.
  simpl Current. destruct (Ledger.writes a userID) as [|c l]; simpl; [done|].
  rewrite clone_id. case_match; [done|]. destruct (List.find _ _); [|done].
  simpl. by rewrite clone_id.
Qed.

Lemma sim_history (rt : GoRuntime) userID :
  HistoryOf s userID = Ledger.visible (Ledger.writes a userID).
Proof.
  pose proof (sim_numbered userID) as Hn. unfold HistoryOf. rewrite (proj1 Hsim), lookup_fmap.
  unfold Ledger.writes in *. destruct (a !! userID) as [l|]; simpl in *; [|done].
  rewrite clone_fmap_id, sortSlice_id.
  - rewrite visible_split. destruct l; simpl; by rewrite ?clone_id.
  - apply _.
  - destruct l as [|c l]; simpl; [constructor|]. rewrite clone_id.
    apply (numbered_sorted (c :: l) (S (Z.to_nat MaxSettingsSyncHistory)) Hn).
Qed.

Lemma sim_current userID : CurrentSnapshot s userID = head (Ledger.writes a userID).
Proof.
  unfold CurrentSnapshot, Ledger.writes. rewrite (proj1 Hsim), lookup_fmap.
  destruct (a !! userID) as [l|]; simpl; [|done]. destruct l; simpl; by rewrite ?clone_id.
Qed.

Lemma sim_exec (rt : GoRuntime) now o s' out :
  (∀ userID, Z.of_nat (length (Ledger.writes a userID)) < max_int64) →
  exec now s o = (s', out) →
  ∃ a', Ledger.exec now a o = (a', out) ∧ sim s' a'.
Proof.
  intros Hlt. destruct o as [userID inst base force app hash payload|userID inst revision|userID|userID];
    simpl exec; cbn [Ledger.exec].
  - destruct (Put now s userID inst base force app hash payload) as [s1 r] eqn:Hput.
    intros [= <- <-].
    destruct (force || (base =? Z.of_nat (length (Ledger.writes a userID)))) eqn:Hok.
    { eapply sim_write; [apply Hlt| |exact Hput].
      apply orb_prop in Hok as [->|Hok]; [by left|right; by apply Z.eqb_eq]. }
    apply orb_false_iff in Hok as [-> Hok]. unfold Put, putLocked in Hput.
    rewrite sim_revision, sim_lookupUser, Hok in Hput. simpl in Hput.
    exists a. destruct (Ledger.writes a userID); simpl in *; injection Hput as <- <-;
      rewrite ?clone_id; done.
  - unfold Restore. destruct (Users s !! userID) as [u|] eqn:Hu.
    + rewrite (sim_source _ _ _ Hu). destruct (List.find _ _) as [src|]; [|intros [= <- <-]; eauto].
      destruct (putLocked _ _ _ _ _ _ _ _) as [s1 r] eqn:Hput. intros [= <- <-].
      eapply sim_write; [apply Hlt|by left|exact Hput].
    + intros [= <- <-]. assert (Ledger.writes a userID = []) as ->; [|by exists a].
      destruct Hsim as [Hs _]. unfold Ledger.writes. rewrite Hs, lookup_fmap in Hu.
      by destruct (a !! userID).
  - intros [= <- <-]. exists a. by rewrite sim_current.
  - intros [= <- <-]. exists a. by rewrite sim_history.
Qed.
End Simulation.

(** ** Executions *)

(** One operation, at any time and under any runtime. *)
Inductive step (s : t) : t → Prop :=
| step_exec (rt : GoRuntime) (now : time) (o : op) : step s (exec now s o).1.

Fixpoint run (s : t) (ops : list (GoRuntime * time * op)) : list output :=
  match ops with
  | [] => []
  | (rt, now, o) :: ops => let '(s', out) := exec now s o in out :: run s' ops
  end.

Fixpoint spec_run (a : Ledger.state) (ops : list (time * op)) : list output :=
  match ops with
  | [] => []
  | (now, o) :: ops => let '(a', out) := Ledger.exec now a o in out :: spec_run a' ops
  end.

Lemma sim_inj s1 s2 a : sim s1 a → sim s2 a → s1 = s2.
Proof. intros [H1 _] [H2 _]. destruct s1, s2. simpl in *. congruence. Qed.

Lemma ledger_writes_insert (a : Ledger.state) u l : Ledger.writes (<[u := l]> a) u = l.
Proof. unfold Ledger.writes. by rewrite lookup_insert_eq. Qed.

Lemma sim_empty : sim newMemorySettingsSyncStore ∅.
Proof. split; [by rewrite fmap_empty|]. intros u l Hl. by rewrite lookup_empty in Hl. Qed.

(** An operation accepts at most one write. *)
Lemma ledger_exec_length now a o u :
  (length (Ledger.writes (Ledger.exec now a o).1 u) ≤ S (length (Ledger.writes a u)))%nat.
Proof.
  assert (∀ u' inst app hash payload,
    length (Ledger.writes (Ledger.write now a u' inst app hash payload).1 u)
      ≤ S (length (Ledger.writes a u)))%nat as Hw.
  { intros. unfold Ledger.write. case_match; simpl; [lia|].
    unfold Ledger.writes at 1. destruct (decide (u = u')) as [->|Hne].
    - by rewrite lookup_insert_eq.
    - rewrite lookup_insert_ne by done. fold (Ledger.writes a u). lia. }
  destruct o; simpl; repeat case_match; simpl; try lia; apply Hw.
Qed.

Lemma nsteps_sim n s :
  Z.of_nat n ≤ max_int64 → nsteps step n newMemorySettingsSyncStore s →
  ∃ a, sim s a ∧ ∀ u, (length (Ledger.writes a u) ≤ n)%nat.
Proof.
  revert s. induction n as [|n IH]; intros s Hn Hs.
  { inversion Hs; subst. exists ∅. split; [apply sim_empty|]. intros u.
    unfold Ledger.writes. rewrite lookup_empty. simpl. lia. }
  apply nsteps_inv_r in Hs as (s1 & Hs1 & [rt now o]).
  destruct (IH s1) as (a & Ha & Hlen); [lia|done|].
  destruct (exec now s1 o) as [s' out] eqn:Hex.
  destruct (sim_exec s1 a Ha rt now o s' out) as (a' & Hex' & Ha'); [|done|].
  { intros u. specialize (Hlen u). lia. }
  exists a'. split; [done|]. intros u.
  pose proof (ledger_exec_length now a o u) as Hl. rewrite Hex' in Hl. simpl in Hl.
  specialize (Hlen u). lia.
Qed.

Lemma run_sim s a (ops : list (GoRuntime * time * op)) n :
  sim s a → (∀ u, (length (Ledger.writes a u) ≤ n)%nat) →
  Z.of_nat (n + length ops) ≤ max_int64 →
  run s ops = spec_run a ((λ x, (x.1.2, x.2)) <$> ops).
Proof.
  revert s a n. induction ops as [|[[rt now] o] ops IH]; intros s a n Hsim Hlen Hn; [done|].
  simpl. destruct (exec now s o) as [s' out] eqn:Hex.
  destruct (sim_exec s a Hsim rt now o s' out) as (a' & Hex' & Hsim'); [|done|].
  { intros u. specialize (Hlen u). simpl in Hn. lia. }
  rewrite Hex'. f_equal. apply (IH _ _ (S n)); [done| |simpl in Hn; lia].
  intros u. pose proof (ledger_exec_length now a o u) as Hl. rewrite Hex' in Hl.
  simpl in Hl. specialize (Hlen u). lia.
Qed.

(** ** Theorems *)

(** The settings store refines the ledger of accepted writes.  Every
    sequence of puts, restores and reads, at any times and under any sorting
    of the runtime, returns exactly what the ledger returns: revisions count
    the accepted writes, an unforced write is accepted only on the latest
    revision, and the visible history is the latest writes, newest first. *)
Theorem settings_store_refines_ledger (ops : list (GoRuntime * time * op)) :
  Z.of_nat (length ops) ≤ max_int64 →
  run newMemorySettingsSyncStore ops = spec_run ∅ ((λ x, (x.1.2, x.2)) <$> ops).
Proof.
  intros Hn. apply (run_sim _ _ _ 0 sim_empty); [|done].
  intros u. unfold Ledger.writes. by rewrite lookup_empty.
Qed.

Definition example_put (base : Z) (hash payload : string) : op :=
  OpPut "user" "phone" base false "1.0" hash payload.

Definition example_ops : list (GoRuntime * time * op) :=
  (λ x, (reference_runtime, x.1, x.2)) <$>
    [(10, example_put 0 "h1" "p1"); (20, example_put 1 "h2" "p2"); (30, example_put 1 "h3" "p3");
     (40, OpRestore "user" "tablet" 1); (50, OpHistory "user")].

Lemma settings_store_refines_ledger_witness :
  run newMemorySettingsSyncStore example_ops =
    spec_run ∅ ((λ x, (x.1.2, x.2)) <$> example_ops) ∧
  Revision <$> (match last (run newMemorySettingsSyncStore example_ops) with
                | Some (OutHistory l) => l | _ => [] end) = [3; 2; 1].
Proof.
  split; [|by vm_compute].
  apply settings_store_refines_ledger. vm_compute. discriminate.
Defined.

(** No lost update.  When two writers start from the same base revision
    and the first write is accepted with new content, the second unforced
    write is refused, learns the snapshot of the first, and changes
    nothing. *)
Theorem no_lost_update (s s1 : t) now1 now2 userID inst1 inst2 base app1 app2 hash1 hash2
    payload1 payload2 snap1 :
  0 ≤ base < max_int64 →
  Put now1 s userID inst1 base false app1 hash1 payload1 = (s1, (snap1, None)) →
  (∀ c, CurrentSnapshot s userID = Some c → ContentHash c ≠ hash1) →
  Payload snap1 = payload1 ∧ Revision snap1 = base + 1 ∧
  Put now2 s1 userID inst2 base false app2 hash2 payload2 =
    (s1, (snap1, Some ErrSettingsSyncConflict)).
Proof.
  intros Hbase Hput Hnew. unfold Put, putLocked in Hput. cbn [negb andb] in Hput.
  destruct (Z.eqb_spec base (currentRevision (lookupUser s userID))) as [Hb|Hb]; cbn [negb] in Hput;
    [|destruct (Current (lookupUser s userID)); discriminate].
  assert (match Current (lookupUser s userID) with
    Some c => ContentHash c == hash1 | None => false end = false) as Hhash.
  { unfold lookupUser. unfold CurrentSnapshot in Hnew.
    destruct (Users s !! userID) as [u|]; simpl; [|done]. destruct (Current u) as [c|]; [|done].
    rewrite clone_id in Hnew. apply bool_decide_eq_false_2. by apply Hnew. }
  rewrite Hhash in Hput. cbn [persistLocked] in Hput. injection Hput as <- <-.
  rewrite clone_id, <-Hb. rewrite int64_wrap_id by (unfold min_int64, max_int64 in *; lia).
  split_and!; [done..|].
  apply put_conflict; [|simpl; lia]. unfold lookupUser. simpl. by rewrite lookup_insert_eq.
Qed.

Lemma no_lost_update_witness :
  ∃ s1 snap1, Put 5 newMemorySettingsSyncStore "user" "phone" 0 false "1.0" "h1" "p1" =
      (s1, (snap1, None)) ∧
    Put 6 s1 "user" "tablet" 0 false "1.0" "h2" "p2" = (s1, (snap1, Some ErrSettingsSyncConflict)).
Proof.
  eexists _, _. split; [vm_compute; reflexivity|].
  eapply (no_lost_update newMemorySettingsSyncStore _ 5 6 "user" "phone" "tablet" 0 "1.0" "1.0" "h1" "h2" "p1" "p2");
    [vm_compute; split; [discriminate|reflexivity]|vm_compute; reflexivity|].
  intros c H. vm_compute in H. discriminate H.
Defined.

(** Restoring.  In a reachable store every revision the history lists can
    be restored: the restored content is current afterwards, under the next
    revision and with the payload of the source, unless the current content
    already had the same hash, in which case nothing changes. *)
Theorem restore_listed_revision (rt : GoRuntime) n (s : t) now userID inst source :
  Z.of_nat n < max_int64 →
  nsteps step n newMemorySettingsSyncStore s →
  source ∈ HistoryOf s userID →
  ∃ s' snap, Restore now s userID inst (Revision source) = (s', (snap, None)) ∧
    CurrentSnapshot s' userID = Some snap ∧ ContentHash snap = ContentHash source ∧
    (s' = s ∨ Payload snap = Payload source ∧
              Revision snap = currentRevision (lookupUser s userID) + 1).
Proof.
  intros Hn Hs Hin. destruct (nsteps_sim n s ltac:(lia) Hs) as (a & Hsim & Hlen).
  rewrite (sim_history s a Hsim) in Hin.
  pose proof (sim_revision s a Hsim userID) as Hrev.
  pose proof (numbered_sorted _ (S (Z.to_nat MaxSettingsSyncHistory)) (sim_numbered s a Hsim userID))
    as Hsorted. fold (Ledger.visible (Ledger.writes a userID)) in Hsorted.
  destruct (Restore now s userID inst (Revision source)) as [s' [snap err]] eqn:Hr.
  destruct (sim_exec s a Hsim rt now (OpRestore userID inst (Revision source)) s' (OutPut (snap, err)))
    as (a' & Hex & Hsim'); [|simpl; by rewrite Hr|].
  { intros u. specialize (Hlen u). lia. }
  simpl in Hex. destruct (List.find _ _) as [c|] eqn:Hf.
  - apply find_some in Hf as [Hc%list_elem_of_In Hcr%Z.eqb_eq].
    assert (c = source) as ->.
    { destruct (in_sorted_cases _ _ c source Hsorted Hc Hin) as [?|[?|?]]; [done|lia..]. }
    unfold Ledger.write in Hex. case_match eqn:Hhash; injection Hex as <- <- <-.
    + destruct (head (Ledger.writes a userID)) as [h|] eqn:Hh; [|done].
      apply bool_decide_eq_true in Hhash. exists s', h.
      rewrite (sim_current s' a Hsim' userID), Hh. split_and!; try done. left.
      by apply (sim_inj _ _ a).
    + eexists s', _. rewrite (sim_current s' _ Hsim' userID), ledger_writes_insert.
      split_and!; [done..|]. right. simpl. by rewrite Hrev.
  - by apply find_none with (x := source), Z.eqb_neq in Hf; [|by apply list_elem_of_In].
Qed.

Definition example_state : t :=
  (exec (rt:=reference_runtime) 20
     (exec (rt:=reference_runtime) 10 newMemorySettingsSyncStore (example_put 0 "h1" "p1")).1
     (example_put 1 "h2" "p2")).1.

Lemma restore_listed_revision_witness :
  ∃ s' snap, Restore 30 example_state "user" "tablet" 1 = (s', (snap, None)) ∧
    CurrentSnapshot s' "user" = Some snap ∧ ContentHash snap = "h1".
Proof.
  destruct (restore_listed_revision reference_runtime 2 example_state 30 "user" "tablet"
    (SettingsSyncSnapshot.mk 1 10 "phone" "1.0" "h1" "p1")) as (s' & snap & Hr & Hc & Hh & _).
  - by vm_compute.
  - eapply nsteps_l; [apply (step_exec _ reference_runtime 10 (example_put 0 "h1" "p1"))|].
    eapply nsteps_l; [apply (step_exec _ reference_runtime 20 (example_put 1 "h2" "p2"))|].
    apply nsteps_O.
  - vm_compute. repeat constructor.
  - eauto.
Defined.

End SettingsSync.
