(* ===== verification/PgSettings.v ===== *)
(** * The settings store of production:
    [internal/storage/postgres/postgres_settings_sync.go]

    The table [settings_sync_snapshots], one row per user and revision;
    [PgSettingsProofs] shows that it implements the ledger of accepted writes
    on a database that may fail at every statement.  A restore always appends a revision
    here, also when the content is already current. *)

From S2P Require Import Prelude GoStrings GoUnicode Credentials Domain SettingsSync Postgres.
Import Postgres.

(** [json.Valid]. *)
Class JSONSyntax := Valid : string → bool.

Module PgSettings.
Module S := SettingsSyncSnapshot.

(** The rows by primary key. *)
Abbreviation table := (gmap (string * Z) S.t).

Section Store.
Context {column : Jsonb} {syntax : JSONSyntax} (L : Link table).
Implicit Types (t : table).

(** 64-bit FNV-1a ([hash/fnv]). *)
Definition fnvByte (hash : Z) (c : ascii) : Z :=
  (Z.lxor hash (Z.of_N (N_of_ascii c)) * 1099511628211) mod 2 ^ 64.
Definition fnv64a (s : string) : Z := foldl fnvByte 14695981039346656037 (String.list_ascii_of_string s).

Definition settingsSyncLockKey (userID : string) : Z := int64_wrap (fnv64a ("ferventio:settings-sync:" +:+ userID)).

(** [WHERE user_id = $1 ORDER BY revision DESC]. *)
Definition newest (userID : string) t : list S.t :=
  stable_sort (λ x y, S.Revision y <? S.Revision x) (List.filter (λ kv, kv.1.1 == userID) (map_to_list t)).*2.

Definition selectCurrent (userID : string) t : result (table * option S.t) := Ok (t, head (newest userID t)).
Definition selectRevision (userID : string) (revision : Z) t : result (table * option S.t) :=
  Ok (t, t !! (userID, revision)).

(** [INSERT INTO settings_sync_snapshots]. *)
Definition insertSnapshot (userID : string) (s : S.t) t : result (table * ()) :=
  match jsonb (S.Payload s) with
  | None => Err (ErrMsg "invalid input syntax for type json")
  | Some payload =>
      if S.Revision s <=? 0 then Err (ErrMsg "violates check constraint") else
      match t !! (userID, S.Revision s) with
      | Some _ => Err (ErrMsg "duplicate key value violates unique constraint")
      | None => Ok (<[(userID, S.Revision s) :=
                       s <| S.UpdatedAt := timestamptz (S.UpdatedAt s) |> <| S.Payload := payload |>]> t, ())
      end
  end.

(** [DELETE ... WHERE user_id = $1 AND revision NOT IN (... LIMIT $2)]. *)
Definition trimSnapshots (userID : string) (limit : Z) t : result (table * ()) :=
  let kept := S.Revision <$> take (Z.to_nat limit) (newest userID t) in
  Ok (filter (λ kv, negb (bool_decide (kv.1.1 = userID) && negb (bool_decide (kv.1.2 ∈ kept))) = true) t, ()).

Definition Current (userID : string) (s : session table) : option S.t :=
  match (onPool L [userID] (selectCurrent userID) s).2 with
  | Ok snapshot => snapshot
  | Err _ => None
  end.

Definition lockSettingsSyncUser (userID : string) : M (tx table) () :=
  let key := settingsSyncLockKey userID in
  database "lock settings sync user" (onTx L [] (λ t, Ok (t, ()))).

Definition currentSettingsSyncTx (userID : string) : M (tx table) (option S.t) :=
  database "load current settings snapshot" (onTx L [userID] (selectCurrent userID)).

Definition revisionOf (current : option S.t) : Z := match current with Some c => S.Revision c | None => 0 end.

(** A write that conflicts returns the current snapshot with the error. *)
Definition putTx (now : time) (userID installationID : string) (baseRevision : Z) (force : bool)
    (appVersion contentHash payload : string) : M (tx table) (S.t * option error) :=
  let! _ := lockSettingsSyncUser userID in
  let! current := currentSettingsSyncTx userID in
  let currentRevision := revisionOf current in
  if negb force && negb (baseRevision =? currentRevision) then
    match current with
    | Some current => ret (current, Some ErrSettingsSyncConflict)
    | None => ret (S.zero, Some ErrSettingsSyncConflict)
    end
  else
  if match current with Some c => S.ContentHash c == contentHash | None => false end then
    let! _ := database "commit unchanged settings sync" (Commit L) in
    ret (match current with Some c => c | None => S.zero end, None)
  else
  if negb (Valid payload) then fail (ErrMsg "settings payload must contain valid JSON") else
  let next := S.mk (int64_wrap (currentRevision + 1)) now installationID appVersion contentHash payload in
  let! _ := database "insert settings snapshot"
    (onTx L [userID; installationID; appVersion; contentHash; payload] (insertSnapshot userID next)) in
  let! _ := database "trim settings snapshots" (onTx L [userID] (trimSnapshots userID (MaxSettingsSyncHistory + 1))) in
  let! _ := database "commit settings sync" (Commit L) in
  ret (next, None).

(** The snapshot and the error as the functions return them. *)
Definition returned (x : session table * result (S.t * option error)) : session table * (S.t * option error) :=
  (x.1, match x.2 with Ok answer => answer | Err err => (S.zero, Some err) end).

Definition Put (now : time) (userID installationID : string) (baseRevision : Z) (force : bool)
    (appVersion contentHash payload : string) (s : session table) : session table * (S.t * option error) :=
  returned (transaction L "begin settings sync"
    (putTx now userID installationID baseRevision force appVersion contentHash payload) s).

Definition History (userID : string) (s : session table) : list S.t :=
  match (onPool L [userID] (λ t, Ok (t, take (Z.to_nat (MaxSettingsSyncHistory + 1)) (newest userID t))) s).2 with
  | Ok snapshots => snapshots
  | Err _ => []
  end.

Definition restoreTx (now : time) (userID installationID : string) (revision : Z) : M (tx table) (S.t * option error) :=
  let! _ := lockSettingsSyncUser userID in
  let! source := database "load settings revision" (onTx L [userID] (selectRevision userID revision)) in
  match source with
  | None => fail ErrSettingsSyncRevisionNotFound
  | Some source =>
      let! current := currentSettingsSyncTx userID in
      let currentRevision := revisionOf current in
      let next := S.mk (int64_wrap (currentRevision + 1)) now installationID
                    (S.AppVersion source) (S.ContentHash source) (S.Payload source) in
      let! _ := database "insert restored settings snapshot"
        (onTx L [userID; installationID; S.AppVersion next; S.ContentHash next; S.Payload next]
           (insertSnapshot userID next)) in
      let! _ := database "trim restored settings snapshots"
        (onTx L [userID] (trimSnapshots userID (MaxSettingsSyncHistory + 1))) in
      let! _ := database "commit restored settings snapshot" (Commit L) in
      ret (next, None)
  end.

Definition Restore (now : time) (userID installationID : string) (revision : Z) (s : session table)
    : session table * (S.t * option error) :=
  returned (transaction L "begin restore settings" (restoreTx now userID installationID revision) s).
End Store.
End PgSettings.
