(* ===== verification/PgSettingsProofs.v ===== *)
(** * The Postgres settings store: theorems

    The table implements the ledger of accepted writes, whatever the
    connection does, and several servers cannot lose an update. *)

From S2P Require Import Prelude GoStrings GoUnicode Credentials Domain SettingsSync Postgres PgSettings.
Import Postgres.

Module PgSettingsProofs.
Import PgSettings.
Module Ledger := SettingsSync.Ledger.

Section Proofs.
Context {column : Jsonb} {syntax : JSONSyntax}.
Implicit Types (t : table) (a : Ledger.state) (l V : list S.t).

(** ** The specification *)

(** A snapshot as the columns keep it: the time to the microsecond and the
    payload as [JSONB] writes it. *)
Definition kept (c : S.t) : S.t :=
  c <| S.UpdatedAt := timestamptz (S.UpdatedAt c) |> <| S.Payload := default (S.Payload c) (jsonb (S.Payload c)) |>.

(** The ledger of accepted writes as the columns keep them; a write is
    answered with what was given, and a restore appends whatever is
    current. *)
Definition append (now : time) a (userID installationID appVersion contentHash payload : string)
    : Ledger.state * SettingsSync.output :=
  let l := Ledger.writes a userID in
  let next := S.mk (Z.of_nat (length l) + 1) now installationID appVersion contentHash payload in
  (<[userID := kept next :: l]> a, SettingsSync.OutPut (next, None)).

Definition ledgerExec (now : time) a (o : SettingsSync.op) : Ledger.state * SettingsSync.output :=
  match o with
  | SettingsSync.OpPut userID installationID baseRevision force appVersion contentHash payload =>
      let l := Ledger.writes a userID in
      if force || (baseRevision =? Z.of_nat (length l)) then
        match head l with
        | Some c =>
            if S.ContentHash c == contentHash then (a, SettingsSync.OutPut (c, None))
            else append now a userID installationID appVersion contentHash payload
        | None => append now a userID installationID appVersion contentHash payload
        end
      else (a, SettingsSync.OutPut (default S.zero (head l), Some ErrSettingsSyncConflict))
  | SettingsSync.OpRestore userID installationID revision =>
      match List.find (λ c, S.Revision c =? revision) (Ledger.visible (Ledger.writes a userID)) with
      | Some source => append now a userID installationID (S.AppVersion source) (S.ContentHash source) (S.Payload source)
      | None => (a, SettingsSync.OutPut (S.zero, Some ErrSettingsSyncRevisionNotFound))
      end
  | SettingsSync.OpCurrent userID => (a, SettingsSync.OutCurrent (head (Ledger.writes a userID)))
  | SettingsSync.OpHistory userID => (a, SettingsSync.OutHistory (Ledger.visible (Ledger.writes a userID)))
  end.

(** ** Rows in order *)

Definition descending V : Prop := StronglySorted (λ x y, (S.Revision y <? S.Revision x) = true) V.

(** The rows of a user are the snapshots [V]. *)
Definition holdsFor t (userID : string) V : Prop :=
  ∀ revision, t !! (userID, revision) = List.find (λ c, S.Revision c =? revision) V.

Lemma descending_find V c : descending V → c ∈ V → List.find (λ x, S.Revision x =? S.Revision c) V = Some c.
Proof.
  intros Hs. induction Hs as [|x V Hs IH Hx]; intros Hc; [by apply elem_of_nil in Hc|]. cbn.
  apply elem_of_cons in Hc as [->|Hc]; [by rewrite Z.eqb_refl|].
  rewrite Forall_forall in Hx. specialize (Hx c Hc). destruct (Z.eqb_spec (S.Revision x) (S.Revision c)); [lia|].
  by apply IH.
Qed.

Lemma newest_holds t userID V : descending V → holdsFor t userID V → newest userID t = V.
Proof.
  intros Hs Ht. unfold newest.
  assert (∀ kv, kv ∈ List.filter (λ kv : string * Z * S.t, kv.1.1 == userID) (map_to_list t) ↔
    kv = (userID, S.Revision kv.2, kv.2) ∧ kv.2 ∈ V) as Hin.
  { intros [[u rev] c]. rewrite elem_of_filter_bool, elem_of_map_to_list. cbn. rewrite bool_decide_eq_true. split.
    - intros [Hc ->]. rewrite Ht in Hc. apply List.find_some in Hc as [Hin%list_elem_of_In Hrev%Z.eqb_eq]. by subst.
    - intros [[= -> ->] Hc]. split; [|done]. rewrite Ht. by apply descending_find. }
  assert ((List.filter (λ kv : string * Z * S.t, kv.1.1 == userID) (map_to_list t)).*2 ≡ₚ V) as Hperm.
  { apply NoDup_Permutation.
    - apply NoDup_fmap_2_strong.
      + intros x y Hx%Hin Hy%Hin Heq. destruct Hx as [-> _], Hy as [-> _]. by rewrite Heq.
      + apply NoDup_ListNoDup, List.NoDup_filter, NoDup_ListNoDup, NoDup_map_to_list.
    - clear -Hs. induction Hs as [|x V Hs IH Hx]; constructor; [|done]. intros Hin. rewrite Forall_forall in Hx.
      specialize (Hx x Hin). lia.
    - intros c. rewrite list_elem_of_fmap. split.
      + by intros (kv & -> & [_ Hc]%Hin).
      + intros Hc. exists (userID, S.Revision c, c). split; [done|]. by apply Hin. }
  transitivity (@sortSlice reference_runtime S.t (λ x y, S.Revision y <? S.Revision x) V);
    [|by apply sortSlice_id; [apply _|]].
  apply (sortSlice_deterministic _ reference_runtime reference_runtime); [|done].
  intros x y Hx Hy Hxy Hyx. rewrite Hperm in Hx, Hy.
  pose proof (descending_find V x Hs Hx) as H1. pose proof (descending_find V y Hs Hy) as H2.
  assert (S.Revision x = S.Revision y) as Heq by (cbn in *; lia). rewrite Heq in H1. congruence.
Qed.

Lemma find_take V n revision :
  List.find (λ c, S.Revision c =? revision) (take n V) =
    if bool_decide (revision ∈ S.Revision <$> take n V) then List.find (λ c, S.Revision c =? revision) V else None.
Proof.
  revert n. induction V as [|x V IH]; intros [|n]; cbn [take List.find fmap list_fmap].
  - by rewrite bool_decide_false by apply not_elem_of_nil.
  - by rewrite bool_decide_false by apply not_elem_of_nil.
  - by rewrite bool_decide_false by apply not_elem_of_nil.
  - destruct (Z.eqb_spec (S.Revision x) revision) as [<-|Hne].
    + by rewrite bool_decide_true by by left.
    + rewrite IH. erewrite bool_decide_ext; [done|]. rewrite elem_of_cons. naive_solver.
Qed.

Lemma take_cons_take {A} n (x : A) k : take (S n) (x :: take (S n) k) = take (S n) (x :: k).
Proof. cbn [take]. f_equal. rewrite take_take. f_equal. lia. Qed.

Lemma descending_take V n : descending V → descending (take n V).
Proof. intros Hs. rewrite <-(take_drop n V) in Hs. by eapply StronglySorted_app_1_l. Qed.

(** ** Simulation *)

(** What can be said of a snapshot that was read. *)
Definition canonical (c : S.t) : Prop :=
  (∃ payload, jsonb payload = Some (S.Payload c)) ∧ forallb text [S.AppVersion c; S.ContentHash c] = true.

Record sim t a : Prop := {
  sim_rows userID : holdsFor t userID (Ledger.visible (Ledger.writes a userID));
  sim_numbered userID : SettingsSync.numbered (Ledger.writes a userID);
  sim_canonical userID c : c ∈ Ledger.writes a userID → canonical c
}.

Lemma visible_descending a userID : SettingsSync.numbered (Ledger.writes a userID) →
  descending (Ledger.visible (Ledger.writes a userID)).
Proof. apply SettingsSync.numbered_sorted. Qed.

Lemma sim_newest t a userID : sim t a → newest userID t = Ledger.visible (Ledger.writes a userID).
Proof. intros [Hr Hn _]. apply newest_holds; [by apply visible_descending|done]. Qed.

Lemma sim_head t a userID : sim t a → head (newest userID t) = head (Ledger.writes a userID).
Proof. intros Hs. rewrite (sim_newest t a) by done. by destruct (Ledger.writes a userID). Qed.

Lemma pg_sim_revision t a userID :
  sim t a → revisionOf (head (Ledger.writes a userID)) = Z.of_nat (length (Ledger.writes a userID)).
Proof.
  intros [_ Hn _]. specialize (Hn userID). destruct (Ledger.writes a userID) as [|c l]; [done|]. cbn.
  by rewrite (Hn 0%nat c eq_refl).
Qed.

Lemma numbered_lt l c : SettingsSync.numbered l → c ∈ l → S.Revision c < Z.of_nat (length l) + 1.
Proof. intros Hn [i Hi]%list_elem_of_lookup. rewrite (Hn i c Hi). lia. Qed.

(** Inserting the next revision and trimming is appending to the ledger. *)
Lemma sim_append t a userID next t1 t2 u1 u2 :
  sim t a → S.Revision next = Z.of_nat (length (Ledger.writes a userID)) + 1 →
  forallb text [S.AppVersion next; S.ContentHash next] = true →
  insertSnapshot userID next t = Ok (t1, u1) → trimSnapshots userID (MaxSettingsSyncHistory + 1) t1 = Ok (t2, u2) →
  sim t2 (<[userID := kept next :: Ledger.writes a userID]> a).
Proof.
  intros Hsim Hrev Htext Hins Htrim.
  assert (t1 = <[(userID, S.Revision (kept next)) := kept next]> t ∧ canonical (kept next)) as [-> Hcan].
  { unfold insertSnapshot in Hins. unfold canonical, kept. destruct (jsonb (S.Payload next)) as [payload|] eqn:Hj; [|done].
    destruct (_ <=? 0); [done|]. destruct (t !! _); [done|]. injection Hins as <- _. split; [done|]. split; [by eexists|done]. }
  change (S.Revision next) with (S.Revision (kept next)) in Hrev. revert Hrev Hcan Htrim. generalize (kept next). clear Htext Hins next.
  intros next Hrev Hcan Htrim. pose proof Hsim as [Hr Hn Hc]. set (V := Ledger.visible (Ledger.writes a userID)).
  assert (∀ c, c ∈ V → S.Revision c < S.Revision next) as Hlt.
  { intros c Hin. rewrite Hrev. apply numbered_lt; [done|]. unfold V, Ledger.visible in Hin.
    rewrite <-(take_drop (S (Z.to_nat MaxSettingsSyncHistory)) (Ledger.writes a userID)). apply elem_of_app. by left. }
  assert (descending (next :: V)) as Hd.
  { constructor; [by apply visible_descending|]. apply Forall_forall. intros c Hin. apply Z.ltb_lt, Hlt, Hin. }
  assert (holdsFor (<[(userID, S.Revision next) := next]> t) userID (next :: V)) as Ht1.
  { intros revision. cbn. destruct (Z.eqb_spec (S.Revision next) revision) as [<-|Hne]; [by rewrite lookup_insert_eq|].
    rewrite lookup_insert_ne by congruence. apply Hr. }
  unfold trimSnapshots in Htrim. rewrite (newest_holds _ _ _ Hd Ht1) in Htrim.
  apply ok_fst in Htrim. cbn [fst] in Htrim. subst t2.
  split.
  - intros u revision. unfold Ledger.writes at 1. rewrite map_lookup_filter.
    destruct (decide (u = userID)) as [->|Hne].
    + rewrite lookup_insert_eq, Ht1. cbn [default].
      assert (Ledger.visible (id (next :: Ledger.writes a userID)) =
        take (Z.to_nat (MaxSettingsSyncHistory + 1)) (next :: V)) as ->
        by (symmetry; apply (take_cons_take (Z.to_nat MaxSettingsSyncHistory))).
      rewrite find_take.
      destruct (List.find _ (next :: V)) as [c|]; cbn [mbind option_bind]; [|by case_bool_decide].
      cbn [fst snd]. rewrite (bool_decide_true (userID = userID)) by done. cbn [andb].
      set (b := bool_decide (revision ∈ _)). by destruct b.
    + rewrite !lookup_insert_ne by congruence. rewrite (Hr u revision). unfold Ledger.writes.
      destruct (List.find _ _) as [c|]; cbn [mbind option_bind]; [|done]. cbn [fst snd].
      by rewrite (bool_decide_false (u = userID)).
  - intros u. unfold Ledger.writes. destruct (decide (u = userID)) as [->|Hne].
    + rewrite lookup_insert_eq. cbn. apply SettingsSync.numbered_cons; [done|apply Hn].
    + rewrite lookup_insert_ne by done. apply Hn.
  - intros u c. unfold Ledger.writes. destruct (decide (u = userID)) as [->|Hne].
    + rewrite lookup_insert_eq. cbn. intros [->|Hin]%elem_of_cons; [done|by apply (Hc userID)].
    + rewrite lookup_insert_ne by done. apply (Hc u).
Qed.

(** ** Executions *)

Section Operations.
Context (outcomes : nat → outcome).
Abbreviation L := (alone (T:=table) outcomes).

Definition exec (now : time) (s : session table) (o : SettingsSync.op) : session table * SettingsSync.output :=
  match o with
  | SettingsSync.OpPut userID installationID baseRevision force appVersion contentHash payload =>
      let '(s, r) := Put L now userID installationID baseRevision force appVersion contentHash payload s in
      (s, SettingsSync.OutPut r)
  | SettingsSync.OpRestore userID installationID revision =>
      let '(s, r) := Restore L now userID installationID revision s in (s, SettingsSync.OutPut r)
  | SettingsSync.OpCurrent userID => (mkSession (tables s) (S (sent s)), SettingsSync.OutCurrent (Current L userID s))
  | SettingsSync.OpHistory userID => (mkSession (tables s) (S (sent s)), SettingsSync.OutHistory (History L userID s))
  end.

Fixpoint run (s : session table) (ops : list (time * SettingsSync.op)) : list SettingsSync.output :=
  match ops with
  | [] => []
  | (now, o) :: ops => let '(s, out) := exec now s o in out :: run s ops
  end.

Fixpoint ledgerRun a (ops : list (time * SettingsSync.op)) : list SettingsSync.output :=
  match ops with
  | [] => []
  | (now, o) :: ops => let '(a, out) := ledgerExec now a o in out :: ledgerRun a ops
  end.

(** An output after a failure: reads show nothing, writes report it. *)
Definition broken (out : SettingsSync.output) : Prop :=
  match out with
  | SettingsSync.OutPut (c, err) => c = S.zero ∧ ∃ m, err = Some (ErrMsg m)
  | SettingsSync.OutCurrent c => c = None
  | SettingsSync.OutHistory l => l = []
  end.

(** The ledger behind an unreliable line. *)
Inductive served (now : time) a (o : SettingsSync.op) : Ledger.state → SettingsSync.output → Prop :=
| served_done : served now a o (ledgerExec now a o).1 (ledgerExec now a o).2
| served_failed out : broken out → served now a o a out
| served_lost out : broken out → served now a o (ledgerExec now a o).1 out.

Inductive serves : Ledger.state → list (time * SettingsSync.op) → list SettingsSync.output → Prop :=
| serves_nil a : serves a [] []
| serves_cons a a' now o ops out outs :
    served now a o a' out → serves a' ops outs → serves a ((now, o) :: ops) (out :: outs).

(** What becomes of a transaction that means [o]: the tables it leaves
    correspond to what the ledger may be afterwards. *)
Definition settled (now : time) a (o : SettingsSync.op) t (answer : result (S.t * option error)) : Prop :=
  ∃ a', sim t a' ∧ served now a o a' (SettingsSync.OutPut match answer with Ok r => r | Err err => (S.zero, Some err) end).

Lemma settled_failed now a o t e : sim t a → settled now a o t (Err (ErrMsg e)).
Proof. intros Hs. exists a. split; [done|]. apply served_failed. split; [done|by eexists]. Qed.

Lemma execute_text {T A} params (f : T → result (T * A)) (u : T) x : execute params f u = Ok x → forallb text params = true.
Proof. unfold execute. by destruct (forallb text params). Qed.

(** Insert, trim and commit. *)
Lemma write_runs (now : time) a (o : SettingsSync.op) t (n : nat) (userID : string) (next : S.t) installationID name1 name2 name3 :
  sim t a → S.Revision next = Z.of_nat (length (Ledger.writes a userID)) + 1 →
  ledgerExec now a o = (<[userID := kept next :: Ledger.writes a userID]> a, SettingsSync.OutPut (next, None)) →
  runs (let! _ := database name1 (onTx L [userID; installationID; S.AppVersion next; S.ContentHash next; S.Payload next]
                    (insertSnapshot userID next)) in
        let! _ := database name2 (onTx L [userID] (trimSnapshots userID (MaxSettingsSyncHistory + 1))) in
        let! _ := database name3 (Commit L) in
        ret (next, None)) (mkTx t t false n) (λ x answer, settled now a o (published x) answer).
Proof.
  intros Hs Hrev Hspec. tx_step. tx_step. tx_step; [intros; by apply settled_failed|].
  intros k t1 u1 Hexec. pose proof (execute_text _ _ _ _ Hexec) as Htext. apply execute_ok in Hexec as Hins.
  assert (forallb text [S.AppVersion next; S.ContentHash next] = true) as Hcan.
  { cbn [forallb] in *. repeat apply andb_true_iff in Htext as [? Htext]. by do 2 (apply andb_true_iff; split; [done|]). }
  cbn beta iota. tx_step. tx_step. tx_step; [intros; by apply settled_failed|].
  intros k' t2 u2 Htrim%execute_ok. cbn beta iota. pose proof (sim_append _ _ _ _ _ _ _ _ Hs Hrev Hcan Hins Htrim) as Hs2.
  pose proof (served_done now a o) as Hdone. pose proof (served_lost now a o) as Hlost. rewrite Hspec in Hdone, Hlost.
  tx_step. tx_step. tx_step; [intros; by apply settled_failed|]. intros k''. split.
  - tx_step. by eexists.
  - intros e. eexists. split; [exact Hs2|]. apply Hlost. split; [done|by eexists].
Qed.

Lemma lock_runs (userID : string) t (n : nat) (Q : tx table → result () → Prop) :
  (∀ m e, Q (mkTx t t true m) (Err (ErrMsg e))) → (∀ m, Q (mkTx t t false m) (Ok ())) →
  runs (lockSettingsSyncUser L userID) (mkTx t t false n) Q.
Proof.
  intros Herr Hok. unfold lockSettingsSyncUser. tx_step. tx_step; [intros; apply Herr|].
  intros m w a Heq%execute_ok. injection Heq as <- <-. apply Hok.
Qed.

Lemma current_runs (userID : string) t (n : nat) (Q : tx table → result (option S.t) → Prop) :
  (∀ m e, Q (mkTx t t true m) (Err (ErrMsg e))) → (∀ m, Q (mkTx t t false m) (Ok (head (newest userID t)))) →
  runs (currentSettingsSyncTx L userID) (mkTx t t false n) Q.
Proof.
  intros Herr Hok. unfold currentSettingsSyncTx. tx_step. tx_step; [intros; apply Herr|].
  intros m w a Heq%execute_ok. injection Heq as <- <-. apply Hok.
Qed.

Lemma putTx_runs (now : time) a t (n : nat) userID installationID base force app hash payload :
  sim t a → Z.of_nat (length (Ledger.writes a userID)) < max_int64 →
  runs (putTx L now userID installationID base force app hash payload) (mkTx t t false n)
    (λ x answer, settled now a (SettingsSync.OpPut userID installationID base force app hash payload) (published x) answer).
Proof.
  intros Hs Hlt. unfold putTx.
  set (o := SettingsSync.OpPut userID installationID base force app hash payload).
  set (next := S.mk (Z.of_nat (length (Ledger.writes a userID)) + 1) now installationID app hash payload).
  pose proof (served_done now a o) as Hdone.
  pose proof (λ m, write_runs now a o t m userID next installationID "insert settings snapshot" "trim settings snapshots"
    "commit settings sync" Hs eq_refl) as Hwrite.
  unfold o, next in Hdone, Hwrite. cbn [ledgerExec] in Hdone, Hwrite.
  tx_step. apply lock_runs; [intros; by apply settled_failed|]. intros m1.
  tx_step. apply current_runs; [intros; by apply settled_failed|]. intros m2.
  rewrite (sim_head t a) by done. rewrite (pg_sim_revision t a) by done.
  rewrite int64_wrap_id by (unfold min_int64, max_int64 in *; lia).
  destruct (force || (base =? Z.of_nat (length (Ledger.writes a userID)))) eqn:Hok; rewrite ?Hok in Hdone, Hwrite.
  - assert (negb force && negb (base =? Z.of_nat (length (Ledger.writes a userID))) = false) as ->.
    { apply orb_true_iff in Hok as [->| ->]; [done|]. apply andb_false_r. }
    destruct (head (Ledger.writes a userID)) as [c|] eqn:Hh; rewrite ?Hh in Hdone, Hwrite.
    + destruct (bool_decide (S.ContentHash c = hash)) eqn:Hhash; rewrite ?Hhash in Hdone, Hwrite.
      * tx_step. tx_step. tx_step; [intros; by apply settled_failed|]. intros m3. split; [|intros; by apply settled_failed].
        tx_step. exists a. by split.
      * destruct (Valid payload); cbn [negb]; [|by apply settled_failed]. by apply Hwrite.
    + destruct (Valid payload); cbn [negb]; [|by apply settled_failed]. by apply Hwrite.
  - apply orb_false_iff in Hok as [-> ->]. cbn [negb andb].
    destruct (head (Ledger.writes a userID)) as [c|] eqn:Hh; rewrite ?Hh in Hdone; tx_step; exists a; by split.
Qed.

Lemma restoreTx_runs (now : time) a t (n : nat) userID installationID revision :
  sim t a → Z.of_nat (length (Ledger.writes a userID)) < max_int64 →
  runs (restoreTx L now userID installationID revision) (mkTx t t false n)
    (λ x answer, settled now a (SettingsSync.OpRestore userID installationID revision) (published x) answer).
Proof.
  intros Hs Hlt. unfold restoreTx.
  pose proof (served_done now a (SettingsSync.OpRestore userID installationID revision)) as Hdone.
  cbn [ledgerExec] in Hdone.
  tx_step. apply lock_runs; [intros; by apply settled_failed|]. intros m1.
  tx_step. tx_step. tx_step; [intros; by apply settled_failed|]. intros m2 w source Hsel%execute_ok.
  unfold selectRevision in Hsel. injection Hsel as <- <-. cbn beta iota. rewrite (sim_rows t a Hs userID revision).
  destruct (List.find _ _) as [source|] eqn:Hf; rewrite ?Hf in Hdone; [|tx_step; exists a; by split].
  tx_step. apply current_runs; [intros; by apply settled_failed|]. intros m3.
  rewrite (sim_head t a) by done. rewrite (pg_sim_revision t a) by done.
  rewrite int64_wrap_id by (unfold min_int64, max_int64 in *; lia).
  apply write_runs; [done|done|]. cbn [ledgerExec]. by rewrite Hf.
Qed.

Lemma pg_settings_exec_served now a s o :
  sim (tables s) a → (∀ userID, Z.of_nat (length (Ledger.writes a userID)) < max_int64) →
  ∃ a', sim (tables (exec now s o).1) a' ∧ served now a o a' (exec now s o).2.
Proof.
  intros Hs Hlt. destruct o as [userID inst base force app hash payload|userID inst revision|userID|userID];
    cbn [exec].
  - unfold Put, returned. cbn beta iota. cbn [fst snd].
    enough (runs (transaction L "begin settings sync" (putTx L now userID inst base force app hash payload)) s
      (λ s' answer, settled now a (SettingsSync.OpPut userID inst base force app hash payload) (tables s') answer)) as Hr.
    { unfold runs in Hr. destruct (transaction _ _ _ s). exact Hr. }
    tx_step; [intros; by apply settled_failed|]. intros n. cbn [others alone].
    eapply runs_mono; [|by apply (putTx_runs now a)]. by intros.
  - unfold Restore, returned. cbn beta iota. cbn [fst snd].
    enough (runs (transaction L "begin restore settings" (restoreTx L now userID inst revision)) s
      (λ s' answer, settled now a (SettingsSync.OpRestore userID inst revision) (tables s') answer)) as Hr.
    { unfold runs in Hr. destruct (transaction _ _ _ s). exact Hr. }
    tx_step; [intros; by apply settled_failed|]. intros n. cbn [others alone].
    eapply runs_mono; [|by apply (restoreTx_runs now a)]. by intros.
  - exists a. split; [done|]. pose proof (served_done now a (SettingsSync.OpCurrent userID)) as Hd.
    cbn [ledgerExec fst snd] in Hd. cbn [fst snd]. unfold Current, onPool, execute, selectCurrent.
    cbn [others alone outcomeOf]. rewrite (sim_head _ a) by done.
    destruct (outcomes (sent s)), (forallb text [userID]); cbn [snd]; first [done|by apply served_failed].
  - exists a. split; [done|]. pose proof (served_done now a (SettingsSync.OpHistory userID)) as Hd.
    cbn [ledgerExec fst snd] in Hd. cbn [fst snd]. unfold History, onPool, execute.
    cbn [others alone outcomeOf]. rewrite (sim_newest _ a) by done.
    change (take (Z.to_nat (MaxSettingsSyncHistory + 1)) (Ledger.visible (Ledger.writes a userID)))
      with (take (S (Z.to_nat MaxSettingsSyncHistory)) (take (S (Z.to_nat MaxSettingsSyncHistory)) (Ledger.writes a userID))).
    rewrite take_take, Nat.min_id. fold (Ledger.visible (Ledger.writes a userID)).
    destruct (outcomes (sent s)), (forallb text [userID]); cbn [snd]; first [done|by apply served_failed].
Qed.

Lemma ledgerExec_length now a o u :
  (length (Ledger.writes (ledgerExec now a o).1 u) ≤ S (length (Ledger.writes a u)))%nat.
Proof.
  assert (∀ userID inst app hash payload,
    (length (Ledger.writes (append now a userID inst app hash payload).1 u) ≤ S (length (Ledger.writes a u)))%nat) as Happend.
  { intros userID *. cbn [append fst]. unfold Ledger.writes. destruct (decide (u = userID)) as [->|Hne].
    - rewrite lookup_insert_eq. cbn. lia.
    - rewrite lookup_insert_ne by done. lia. }
  destruct o; cbn [ledgerExec]; repeat case_match; try apply Happend; cbn; lia.
Qed.

Lemma served_length now a o a' out u :
  served now a o a' out → (length (Ledger.writes a' u) ≤ S (length (Ledger.writes a u)))%nat.
Proof. destruct 1; [apply ledgerExec_length|lia|apply ledgerExec_length]. Qed.

Lemma pg_settings_run_serves ops : ∀ a s n,
  sim (tables s) a → (∀ userID, (length (Ledger.writes a userID) ≤ n)%nat) → Z.of_nat (n + length ops) ≤ max_int64 →
  serves a ops (run s ops).
Proof.
  induction ops as [|[now o] ops IH]; intros a s n Hs Hlen Hn; cbn [run]; [constructor|]. cbn [length] in Hn.
  destruct (pg_settings_exec_served now a s o) as (a' & Hs' & Hserved); [done| |].
  { intros u. specialize (Hlen u). lia. }
  destruct (exec now s o) as [s' out]. cbn [fst snd] in *. econstructor; [done|].
  apply (IH a' s' (S n)); [done| |lia]. intros u. pose proof (served_length _ _ _ _ _ u Hserved). specialize (Hlen u). lia.
Qed.

(** *** When every statement is answered *)

(** Texts are UTF-8 and the payload is JSON the column takes. *)
Definition storable (o : SettingsSync.op) : Prop :=
  match o with
  | SettingsSync.OpPut userID installationID _ _ appVersion contentHash payload =>
      forallb text [userID; installationID; appVersion; contentHash; payload] = true ∧ Valid payload = true ∧
      is_Some (jsonb payload)
  | SettingsSync.OpRestore userID installationID _ => forallb text [userID; installationID] = true
  | SettingsSync.OpCurrent userID | SettingsSync.OpHistory userID => text userID = true
  end.

(** What the column gives back is text it takes again. *)
Definition readsBack : Prop := ∀ payload kept, jsonb payload = Some kept → is_Some (jsonb kept) ∧ text kept = true.

Section Answered.
Context (answered : ∀ i, outcomes i = Answered) (Hback : readsBack).

(** Not a failure of the database. *)
Definition heard (answer : result (S.t * option error)) : Prop :=
  ∀ m, answer ≠ Err (ErrMsg m) ∧ ∀ c, answer ≠ Ok (c, Some (ErrMsg m)).

Lemma write_heard a t n userID next name1 name2 name3 installationID :
  sim t a → S.Revision next = Z.of_nat (length (Ledger.writes a userID)) + 1 → is_Some (jsonb (S.Payload next)) →
  forallb text [userID; installationID; S.AppVersion next; S.ContentHash next; S.Payload next] = true →
  runs (let! _ := database name1 (onTx L [userID; installationID; S.AppVersion next; S.ContentHash next; S.Payload next]
                    (insertSnapshot userID next)) in
        let! _ := database name2 (onTx L [userID] (trimSnapshots userID (MaxSettingsSyncHistory + 1))) in
        let! _ := database name3 (Commit L) in
        ret (next, None)) (mkTx t t false n) (λ x answer, heard answer).
Proof.
  intros Hs Hrev [payload Hj] Htext. assert (text userID = true) as Hu by (by apply andb_true_iff in Htext as [? _]).
  assert (∃ t1, insertSnapshot userID next t = Ok (t1, ())) as [t1 Hins].
  { unfold insertSnapshot. rewrite Hj. destruct (Z.leb_spec (S.Revision next) 0); [lia|].
    rewrite (sim_rows t a Hs userID). destruct (List.find _ _) as [c|] eqn:Hf; [|by eexists].
    apply List.find_some in Hf as [Hin%list_elem_of_In Heq%Z.eqb_eq].
    assert (S.Revision c < Z.of_nat (length (Ledger.writes a userID)) + 1); [|lia].
    apply numbered_lt; [apply (sim_numbered t a Hs)|]. unfold Ledger.visible in Hin.
    rewrite <-(take_drop (S (Z.to_nat MaxSettingsSyncHistory)) (Ledger.writes a userID)). apply elem_of_app. by left. }
  tx_step. tx_step. eapply (runs_onTx_ok L answered); [|exact Hins|].
  { exact Htext. }
  cbn beta iota. tx_step. tx_step. eapply (runs_onTx_ok L answered); [by cbn [forallb]; rewrite Hu|done|].
  cbn beta iota. tx_step. tx_step. apply (runs_Commit_ok L answered). cbn beta iota. by tx_step.
Qed.

Lemma putTx_heard now a t n userID installationID base force app hash payload :
  sim t a → Z.of_nat (length (Ledger.writes a userID)) < max_int64 →
  storable (SettingsSync.OpPut userID installationID base force app hash payload) →
  runs (putTx L now userID installationID base force app hash payload) (mkTx t t false n) (λ x answer, heard answer).
Proof.
  intros Hs Hlt (Htext & Hv & Hj). unfold putTx.
  assert (forallb text [userID] = true) as Hu by (cbn [forallb] in *; by apply andb_true_iff in Htext as [-> _]).
  tx_step. unfold lockSettingsSyncUser. tx_step. eapply (runs_onTx_ok L answered); [done|done|]. cbn beta iota.
  tx_step. unfold currentSettingsSyncTx. tx_step. eapply (runs_onTx_ok L answered); [done|done|]. cbn beta iota.
  rewrite (sim_head t a) by done. rewrite (pg_sim_revision t a) by done.
  rewrite int64_wrap_id by (unfold min_int64, max_int64 in *; lia). rewrite Hv. cbn [negb].
  destruct (negb force && _); [destruct (head _); by tx_step|].
  destruct (head (Ledger.writes a userID)) as [c|].
  - case_bool_decide.
    + tx_step. tx_step. apply (runs_Commit_ok L answered). cbn beta iota. by tx_step.
    + apply (write_heard a t _ userID
        (S.mk (Z.of_nat (length (Ledger.writes a userID)) + 1) now installationID app hash payload)); [done..].
  - apply (write_heard a t _ userID
        (S.mk (Z.of_nat (length (Ledger.writes a userID)) + 1) now installationID app hash payload)); [done..].
Qed.

Lemma restoreTx_heard now a t n userID installationID revision :
  sim t a → Z.of_nat (length (Ledger.writes a userID)) < max_int64 → forallb text [userID; installationID] = true →
  runs (restoreTx L now userID installationID revision) (mkTx t t false n) (λ x answer, heard answer).
Proof.
  intros Hs Hlt Hids. unfold restoreTx.
  assert (forallb text [userID] = true) as Hu by (cbn in *; by apply andb_true_iff in Hids as [-> _]).
  tx_step. unfold lockSettingsSyncUser. tx_step. eapply (runs_onTx_ok L answered); [done|done|]. cbn beta iota.
  tx_step. tx_step. eapply (runs_onTx_ok L answered); [done|done|]. cbn beta iota.
  rewrite (sim_rows t a Hs userID revision). destruct (List.find _ _) as [source|] eqn:Hf; [|by tx_step].
  tx_step. unfold currentSettingsSyncTx. tx_step. eapply (runs_onTx_ok L answered); [done|done|]. cbn beta iota.
  rewrite (sim_head t a) by done. rewrite (pg_sim_revision t a) by done.
  rewrite int64_wrap_id by (unfold min_int64, max_int64 in *; lia).
  apply List.find_some in Hf as [Hin%list_elem_of_In _]. assert (canonical source) as [[p Hp] Htext].
  { apply (sim_canonical t a Hs userID source). unfold Ledger.visible in Hin.
    rewrite <-(take_drop (S (Z.to_nat MaxSettingsSyncHistory)) (Ledger.writes a userID)). apply elem_of_app. by left. }
  destruct (Hback _ _ Hp) as [Hj Hpt]. apply (write_heard a); [done|done|done|].
  cbn [forallb S.AppVersion S.ContentHash S.Payload] in *. rewrite !andb_true_iff in *. naive_solver.
Qed.

(** A write that was heard was done as the ledger has it. *)
Lemma settled_heard now a o t answer :
  settled now a o t answer → heard answer →
  ∃ a', sim t a' ∧ ledgerExec now a o =
    (a', SettingsSync.OutPut match answer with Ok r => r | Err err => (S.zero, Some err) end).
Proof.
  intros (a' & Hs & Hserved) Hh. exists a'. split; [done|].
  assert (¬ broken (SettingsSync.OutPut match answer with Ok r => r | Err err => (S.zero, Some err) end)) as Hb.
  { destruct answer as [[c err]|err]; cbn; intros [_ [m Hm]]; destruct (Hh m) as [H1 H2]; [by apply (H2 c); subst|].
    apply H1. by injection Hm as ->. }
  inversion Hserved as [Heq1 Heq2|out Hbr|out Hbr]; [by rewrite <-surjective_pairing|done..].
Qed.

Lemma exec_heard now a s o :
  sim (tables s) a → (∀ userID, Z.of_nat (length (Ledger.writes a userID)) < max_int64) → storable o →
  ∃ a', sim (tables (exec now s o).1) a' ∧ ledgerExec now a o = (a', (exec now s o).2).
Proof.
  intros Hs Hlt Hst. destruct o as [userID inst base force app hash payload|userID inst revision|userID|userID];
    cbn [exec].
  - unfold Put, returned. cbn beta iota. cbn [fst snd]. unfold transaction. cbn [others alone outcomeOf]. rewrite answered.
    pose proof (putTx_runs now a (tables s) (S (sent s)) userID inst base force app hash payload Hs (Hlt userID)) as H1.
    pose proof (putTx_heard now a (tables s) (S (sent s)) userID inst base force app hash payload Hs (Hlt userID) Hst) as H2.
    unfold runs in H1, H2. destruct (putTx _ _ _ _ _ _ _ _ _ _) as [x answer]. by apply settled_heard.
  - unfold Restore, returned. cbn beta iota. cbn [fst snd]. unfold transaction. cbn [others alone outcomeOf]. rewrite answered.
    pose proof (restoreTx_runs now a (tables s) (S (sent s)) userID inst revision Hs (Hlt userID)) as H1.
    pose proof (restoreTx_heard now a (tables s) (S (sent s)) userID inst revision Hs (Hlt userID) Hst) as H2.
    unfold runs in H1, H2. destruct (restoreTx _ _ _ _ _ _) as [x answer]. by apply settled_heard.
  - exists a. split; [done|]. cbn [ledgerExec snd]. unfold Current. cbn in Hst.
    rewrite (answered_onPool L answered _ _ _ (tables s) (head (newest userID (tables s)))) by (cbn; by rewrite ?Hst).
    by rewrite (sim_head _ a).
  - exists a. split; [done|]. cbn [ledgerExec snd]. unfold History. cbn in Hst.
    erewrite (answered_onPool L answered); [|by cbn; rewrite Hst|done]. cbn [snd others alone].
    rewrite (sim_newest _ a) by done. unfold Ledger.visible.
    change (Z.to_nat (MaxSettingsSyncHistory + 1)) with (S (Z.to_nat MaxSettingsSyncHistory)).
    by rewrite take_take, Nat.min_id.
Qed.

Lemma run_heard ops : ∀ a s n,
  sim (tables s) a → (∀ userID, (length (Ledger.writes a userID) ≤ n)%nat) → Z.of_nat (n + length ops) ≤ max_int64 →
  Forall (λ x, storable x.2) ops → run s ops = ledgerRun a ops.
Proof.
  induction ops as [|[now o] ops IH]; intros a s n Hs Hlen Hn Hst; cbn [run ledgerRun]; [done|].
  apply Forall_cons in Hst as [Hso Hst]. cbn [length] in Hn.
  destruct (exec_heard now a s o) as (a' & Hs' & Hspec); [done| |done|].
  { intros u. specialize (Hlen u). lia. }
  pose proof (ledgerExec_length now a o) as Hl. rewrite Hspec in *. cbn [fst] in Hl.
  destruct (exec now s o) as [s' out]. cbn [fst snd] in *. f_equal.
  apply (IH a' s' (S n)); [done| |lia|done]. intros u. specialize (Hl u). specialize (Hlen u). lia.
Qed.
End Answered.

Lemma pg_sim_empty : sim ∅ ∅.
Proof.
  assert (∀ u, Ledger.writes ∅ u = []) as He by (intros; unfold Ledger.writes; by rewrite lookup_empty).
  split.
  - intros u revision. by rewrite He, lookup_empty.
  - intros u. rewrite He. apply SettingsSync.numbered_nil.
  - intros u c. rewrite He. by intros ?%elem_of_nil.
Qed.

(** C11: the production settings store refines the ledger of accepted
    writes, for any clock and any payload.  The ledger keeps each accepted
    write as the columns do, its time to the microsecond and its payload as
    [JSONB] writes it, and answers the write itself with what was given.
    Whatever becomes of each statement, every sequence of puts, restores and
    reads returns what the ledger returns, or reports a failure (reads then
    show nothing) and has been done as a whole or not at all: no update is
    lost, revisions count the accepted writes, an unforced put is accepted
    only on the latest revision, and the visible history is the latest
    writes.  When every statement is answered, the columns can hold what they
    are given (UTF-8 and JSON) and take back what they gave, the outputs are
    exactly the ledger's.  The number of operations stays below [2^63]. *)
Theorem postgres_settings_refine_ledger (ops : list (time * SettingsSync.op)) :
  Z.of_nat (length ops) ≤ max_int64 →
  serves ∅ ops (run (mkSession ∅ 0) ops) ∧
  ((∀ i, outcomes i = Answered) → readsBack → Forall (λ x, storable x.2) ops →
   run (mkSession ∅ 0) ops = ledgerRun ∅ ops).
Proof.
  intros Hn. assert (∀ u, (length (Ledger.writes ∅ u) ≤ 0)%nat) as He.
  { intros u. unfold Ledger.writes. by rewrite lookup_empty. }
  split.
  - by apply (pg_settings_run_serves ops ∅ (mkSession ∅ 0) 0); [apply pg_sim_empty|..].
  - intros Hans Hback Hst. by apply (run_heard Hans Hback ops ∅ (mkSession ∅ 0) 0); [apply pg_sim_empty|..].
Qed.
End Operations.
End Proofs.

(** ** An example *)

(** A column that writes an empty object without a space. *)
#[local] Instance tidy_json : Jsonb := λ payload,
  if text payload then Some (if payload == "{ }" then "{}" else payload) else None.
#[local] Instance any_valid : JSONSyntax := λ _, true.

Lemma tidy_readsBack : readsBack.
Proof.
  intros payload kept. unfold jsonb, tidy_json. destruct (text payload) eqn:Ht; [|done]. intros [= <-].
  case_bool_decide; [split; [by eexists|done]|]. rewrite Ht. split; [by eexists|done].
Qed.

(** Times with nanoseconds, and a payload the column rewrites. *)
Definition example_ops : list (time * SettingsSync.op) :=
  [(1234567, SettingsSync.OpPut "user" "phone" 0 false "1.0" "h1" "{ }");
   (2345678, SettingsSync.OpPut "user" "tablet" 0 false "1.0" "h2" "[]");
   (3456789, SettingsSync.OpRestore "user" "tablet" 1);
   (4567890, SettingsSync.OpHistory "user")].

Lemma postgres_settings_refine_ledger_witness :
  serves ∅ example_ops (run (λ i, if Nat.eqb i 5 then Lost (ErrMsg "EOF") else Answered) (mkSession ∅ 0) example_ops) ∧
  run (λ _, Answered) (mkSession ∅ 0) example_ops = ledgerRun ∅ example_ops ∧
  (λ c, (S.Revision c, S.UpdatedAt c, S.Payload c)) <$>
    (match last (run (λ _, Answered) (mkSession ∅ 0) example_ops) with
     | Some (SettingsSync.OutHistory l) => l | _ => [] end) = [(2, 3456000, "{}"); (1, 1234000, "{}")].
Proof.
  split_and!.
  - apply postgres_settings_refine_ledger. by vm_compute.
  - apply postgres_settings_refine_ledger; [by vm_compute|done|apply tidy_readsBack|].
    unfold example_ops. rewrite !Forall_cons, Forall_nil. cbn [snd storable].
    split_and!; try done; by eexists.
  - by vm_compute.
Defined.
End PgSettingsProofs.
