(* ===== verification/AuditStore.v ===== *)
(** * Audit log: [internal/storage/memory/audit_store.go]

    An append-only, bounded log.  The position of a record is its append
    order; [List] returns the most recently appended records by time. *)

From S2P Require Import Prelude GoStrings Credentials Domain.
Import Memory.

Module AuditStore.

Record t := mk { Records : list AuditRecord.t }.

Definition newMemoryAuditStore : t := mk [].

Definition persistLocked (s : t) : result () := Ok ().

Definition trimLocked (s : t) : t :=
  let n := Z.of_nat (length (Records s)) in
  if n <=? MaxAuditRecords then s else
  let start := n - MaxAuditRecords in
  mk (drop (Z.to_nat start) (Records s)).

(** A record without an identifier gets a random one. *)
Definition ensureID (rnd : rand_read) (record : AuditRecord.t) : result AuditRecord.t :=
  if AuditRecord.ID record == "" then
    let? value := randomToken rnd "audit_" 12 in
    Ok (record <| AuditRecord.ID := value |>)
  else Ok record.

(** The fields [Append] fills in before it stores a record. *)
Definition complete (rnd : rand_read) (now : time) (record : AuditRecord.t)
    : result AuditRecord.t :=
  let? record := ensureID rnd record in
  let record :=
    if IsZero (AuditRecord.Timestamp record) then record <| AuditRecord.Timestamp := now |>
    else record in
  let record :=
    if 1000 <? len (AuditRecord.Detail record)
    then record <| AuditRecord.Detail := take_str 1000 (AuditRecord.Detail record) |>
    else record in
  Ok record.

Definition Append (rnd : rand_read) (now : time) (s : t) (record : AuditRecord.t)
    : t * result () :=
  match complete rnd now record with
  | Err err => (s, Err err)
  | Ok record =>
      let s := mk (Records s ++ [record]) in
      let s := trimLocked s in
      (s, persistLocked s)
  end.

Definition List {rt : GoRuntime} (s : t) (limit : Z) : list AuditRecord.t :=
  let limit := if (limit <=? 0) || (1000 <? limit) then 200 else limit in
  let start := Z.of_nat (length (Records s)) - limit in
  let start := if start <? 0 then 0 else start in
  let result := drop (Z.to_nat start) (Records s) in
  sortSlice (λ x y, After (AuditRecord.Timestamp x) (AuditRecord.Timestamp y)) result.

Definition ListAudit {rt : GoRuntime} (s : t) (limit : Z) : list AuditRecord.t := List s limit.

(** ** Lemmas *)

(** The last [n] elements. *)
Definition last_n {A} (n : nat) (l : list A) : list A := drop (length l - n) l.

Lemma last_n_app {A} n (l k : list A) : last_n n (last_n n l ++ k) = last_n n (l ++ k).
Proof.
  unfold last_n. rewrite !length_app, length_drop.
  destruct (decide (length l ≤ n)%nat).
  - replace (length l - n)%nat with 0%nat by lia. simpl. do 2 f_equal. lia.
  - assert (l ++ k = take (length l - n) l ++ (drop (length l - n) l ++ k)) as Hl
      by by rewrite (assoc_L (++)), take_drop.
    rewrite Hl. rewrite (drop_app_ge (take _ _)) by (rewrite length_take; lia).
    f_equal. rewrite length_take. lia.
Qed.

Lemma trimLocked_spec s : Records (trimLocked s) = last_n (Z.to_nat MaxAuditRecords) (Records s).
Proof.
  unfold trimLocked, last_n, MaxAuditRecords. destruct (Z.leb_spec (Z.of_nat (length (Records s))) 20000).
  - replace (_ - _)%nat with 0%nat by lia. done.
  - cbn [Records]. f_equal. lia.
Qed.

Lemma ensureID_ok rnd r r' :
  ensureID rnd r = Ok r' →
  AuditRecord.ID r' ≠ "" ∧
  AuditRecord.Action r' = AuditRecord.Action r ∧ AuditRecord.Status r' = AuditRecord.Status r.
Proof.
  unfold ensureID. case_bool_decide as Hid; [|by intros [= <-]].
  unfold randomToken. destruct (rnd 12%nat); [|done]. simpl. by intros [= <-].
Qed.

Lemma complete_ok rnd now r r' :
  complete rnd now r = Ok r' →
  AuditRecord.ID r' ≠ "" ∧ len (AuditRecord.Detail r') ≤ 1000 ∧
  AuditRecord.Action r' = AuditRecord.Action r ∧ AuditRecord.Status r' = AuditRecord.Status r.
Proof.
  unfold complete. intros H.
  destruct (ensureID rnd r) as [r1|] eqn:Hr1; [|done]. cbn [result_bind] in H. injection H as <-.
  apply ensureID_ok in Hr1 as (Hid & Ha & Hs).
  destruct (IsZero (AuditRecord.Timestamp r1)); cbn [update AuditRecord.Detail];
    destruct (Z.ltb_spec 1000 (len (AuditRecord.Detail r1))); split_and!; try done;
    simpl; unfold len; rewrite length_take_str; lia.
Qed.

(** A sequence of appends, each with its random source and clock reading. *)
Definition appendAll (s : t) (calls : list (rand_read * time * AuditRecord.t)) : t :=
  foldl (λ s '(rnd, now, record), (Append rnd now s record).1) s calls.

(** The records the calls complete; a call whose identifier could not be
    generated appends nothing. *)
Definition completed (calls : list (rand_read * time * AuditRecord.t)) : list AuditRecord.t :=
  omap (λ '(rnd, now, record),
    match complete rnd now record with Ok r => Some r | Err _ => None end) calls.

Lemma appendAll_spec s calls l :
  Records s = last_n (Z.to_nat MaxAuditRecords) l →
  Records (appendAll s calls) = last_n (Z.to_nat MaxAuditRecords) (l ++ completed calls).
Proof.
  revert s l. induction calls as [|[[rnd now] r] calls IH]; intros s l Hs; simpl.
  { by rewrite (right_id_L [] (++)). }
  unfold Append. destruct (complete rnd now r) as [r'|]; simpl; [|by apply IH].
  replace (l ++ r' :: completed calls) with ((l ++ [r']) ++ completed calls)
    by by rewrite <-(assoc_L (++)).
  apply IH. rewrite trimLocked_spec. cbn [Records]. by rewrite Hs, last_n_app.
Qed.

Lemma elem_of_last_n {A} n (l : list A) x : x ∈ last_n n l → x ∈ l.
Proof. intros H. eapply elem_of_submseteq; [exact H|]. apply sublist_submseteq, sublist_drop. Qed.

Lemma completed_ok calls r :
  r ∈ completed calls → AuditRecord.ID r ≠ "" ∧ len (AuditRecord.Detail r) ≤ 1000.
Proof.
  unfold completed. rewrite list_elem_of_omap. intros ([[rnd now] r0] & _ & Hr).
  destruct (complete rnd now r0) as [r'|] eqn:Hc; [|done]. injection Hr as ->.
  by apply complete_ok in Hc as (? & ? & _).
Qed.

(** ** Theorem *)

(** The audit log.  After any sequence of appends the log is exactly the
    last [MaxAuditRecords] completed records in append order, each with an
    identifier and at most 1000 bytes of detail, and [List] returns the
    latest [limit] of them (200 when the limit is out of range), newest
    timestamp first. *)
Theorem audit_log_keeps_latest {rt : GoRuntime} calls limit :
  let s := appendAll newMemoryAuditStore calls in
  Records s = last_n (Z.to_nat MaxAuditRecords) (completed calls) ∧
  Forall (λ r, AuditRecord.ID r ≠ "" ∧ len (AuditRecord.Detail r) ≤ 1000) (Records s) ∧
  List s limit ≡ₚ
    last_n (Z.to_nat (if (limit <=? 0) || (1000 <? limit) then 200 else limit)) (Records s) ∧
  StronglySorted (λ x y, AuditRecord.Timestamp y ≤ AuditRecord.Timestamp x) (List s limit).
Proof.
  intros s. pose proof (appendAll_spec newMemoryAuditStore calls [] eq_refl) as Hs.
  fold s in Hs. split_and!.
  - done.
  - apply Forall_forall. intros r Hr. rewrite Hs in Hr. by eapply completed_ok, elem_of_last_n.
  - unfold List. rewrite sortSlice_perm. unfold last_n.
    set (n := if _ || _ then 200 else limit).
    replace (Z.to_nat (if _ <? 0 then _ else _)) with (length (Records s) - Z.to_nat n)%nat; [done|].
    assert (0 < n) by (subst n; destruct (Z.leb_spec limit 0), (Z.ltb_spec 1000 limit); simpl; lia).
    destruct (Z.ltb_spec (Z.of_nat (length (Records s)) - n) 0); lia.
  - eapply StronglySorted_weaken; [|unfold List; apply sortSlice_sorted]; unfold After.
    + intros x y. simpl. lia.
    + split; intros; lia.
Qed.

End AuditStore.
