(* ===== verification/PgAudit.v ===== *)
(** * The audit log of production:
    [internal/storage/postgres/postgres_audit.go]

    The table [audit_records], the truncation of the fields to runes, and the
    theorem that the log holds the newest records and no more than its
    bound. *)

From S2P Require Import Prelude GoStrings GoUnicode Credentials Domain Postgres.
Import Postgres.

Module PgAudit.
Module A := AuditRecord.

(** ** Truncation *)

(** A rune that could not be decoded. *)
Definition invalidRune (x : Z * list ascii) : bool := (x.1 =? RuneError) && bool_decide (length x.2 = 1%nat).

(** [strings.ToValidUTF8]: each run of bytes that are not UTF-8 becomes one
    replacement. *)
Fixpoint toValidLoop (replacement : list ascii) (inRun : bool) (l : list (Z * list ascii)) : list (list ascii) :=
  match l with
  | [] => []
  | x :: l =>
      if invalidRune x then
        if inRun then toValidLoop replacement true l else replacement :: toValidLoop replacement true l
      else x.2 :: toValidLoop replacement false l
  end.

(** The runes of the result, as bytes; U+FFFD is the replacement. *)
Definition validRunes (value : string) : list (list ascii) := toValidLoop (encodeRune RuneError) false (runes value).

Definition truncateAuditText (value : string) (maxRunes : Z) : string :=
  if maxRunes <=? 0 then "" else
  let runes := validRunes value in
  if Z.of_nat (length runes) <=? maxRunes then String.string_of_list_ascii (concat runes)
  else String.string_of_list_ascii (concat (take (Z.to_nat maxRunes) runes)).

Section Store.
Context {collation : Collation} (L : Link (gmap string A.t)).
Abbreviation table := (gmap string A.t).
Implicit Types (t : table).

(** [ORDER BY timestamp DESC, id DESC]. *)
Definition newest t : list A.t := stable_sort (orderDesc A.Timestamp A.ID) (map_to_list t).*2.

Definition insertRecord (record : A.t) t : result (table * ()) :=
  match t !! A.ID record with
  | Some _ => Err (ErrMsg "duplicate key value violates unique constraint audit_records_pkey")
  | None => Ok (<[A.ID record := record <| A.Timestamp := timestamptz (A.Timestamp record) |>]> t, ())
  end.

(** [DELETE ... WHERE id IN (SELECT id ... OFFSET $1)]. *)
Definition trimRecords (limit : Z) t : result (table * ()) :=
  let old := A.ID <$> drop (Z.to_nat limit) (newest t) in
  Ok ((deleteWhere (λ id _, bool_decide (id ∈ old)) t).1, ()).

Definition auditTexts (r : A.t) : list string :=
  [A.ID r; A.Action r; A.Status r; A.InstallationID r; A.UserID r; A.ChannelID r; A.EventID r; A.Detail r].

Definition Append (rnd : rand_read) (now : time) (record : A.t) : M (session table) () :=
  let record := record <| A.Action := truncateAuditText (A.Action record) 128 |> in
  let record := record <| A.Status := truncateAuditText (A.Status record) 64 |> in
  let record := record <| A.InstallationID := truncateAuditText (A.InstallationID record) 256 |> in
  let record := record <| A.UserID := truncateAuditText (A.UserID record) 256 |> in
  let record := record <| A.ChannelID := truncateAuditText (A.ChannelID record) 256 |> in
  let record := record <| A.EventID := truncateAuditText (A.EventID record) 256 |> in
  let record := record <| A.Detail := truncateAuditText (A.Detail record) 1000 |> in
  let! record := λ s, (s,
    if A.ID record == "" then
      let? value := RandomToken rnd "audit_" 12 in Ok (record <| A.ID := value |>)
    else Ok record) in
  let record := if IsZero (A.Timestamp record) then record <| A.Timestamp := now |> else record in
  transaction L "begin audit append" (
    let! _ := database "insert audit record" (onTx L (auditTexts record) (insertRecord record)) in
    let! _ := database "trim audit records" (onTx L [] (trimRecords MaxAuditRecords)) in
    commitDatabaseTx L "audit append").

Definition listAudit (limit : Z) (s : session table) : list A.t :=
  let limit := normalizeLimit limit 200 1000 in
  match (onPool L [] (λ t, Ok (t, take (Z.to_nat limit) (newest t))) s).2 with
  | Ok records => records
  | Err _ => []
  end.

Definition ListAudit (limit : Z) (s : session table) : list A.t := listAudit limit s.

End Store.

(** ** Truncated texts *)

(** A chunk that decodes to one rune wherever it stands. *)
Definition encoded (chunk : list ascii) : Prop :=
  chunk ≠ [] ∧ ∃ r, ¬ (r = RuneError ∧ length chunk = 1%nat) ∧
    ∀ rest, decodeRune (chunk ++ rest) = (r, length chunk).

Lemma decodeRune_encoded l r w :
  l ≠ [] → decodeRune l = (r, w) → ¬ (r = RuneError ∧ w = 1%nat) → encoded (take w l).
Proof.
  intros Hl Hd Hv. destruct l as [|a [|b [|c [|d l]]]]; [done|..]; unfold decodeRune in Hd;
    cbn [fmap list_fmap] in Hd; repeat case_match; simplify_eq; try (by destruct Hv);
    (split; [done|]; eexists; split; [exact Hv|]; intros rest; unfold decodeRune; cbn [take app fmap list_fmap length];
     repeat (match goal with H : ?x = _ |- context [?x] => rewrite H end); done).
Qed.

Lemma runesLoop_concat chunks n :
  Forall encoded chunks → (length (concat chunks) ≤ n)%nat →
  (runesLoop n (concat chunks)).*2 = chunks ∧ forallb (λ x, negb (invalidRune x)) (runesLoop n (concat chunks)) = true.
Proof.
  intros Hc. revert n. induction Hc as [|c chunks (Hne & r & Hv & Hd) _ IH]; intros n Hn; [by destruct n|].
  cbn [concat] in *. rewrite length_app in Hn. destruct c as [|a c]; [done|]. cbn [length] in Hn.
  destruct n as [|n]; [lia|]. specialize (Hd (concat chunks)). cbn [app runesLoop]. cbn [app length] in Hd.
  rewrite Hd. change (a :: c ++ concat chunks) with ((a :: c) ++ concat chunks).
  rewrite (take_app_length' (a :: c)), (drop_app_length' (a :: c)) by done.
  destruct (IH n ltac:(lia)) as [H1 H2]. split; [cbn; by rewrite H1|].
  cbn [forallb]. rewrite H2, andb_true_r. unfold invalidRune. cbn [fst snd].
  destruct (Z.eqb_spec r RuneError) as [->|]; [|done]. cbn [andb negb]. rewrite bool_decide_false; [done|]. intros Hl.
  by apply Hv.
Qed.

(** The runes of a string: their bytes put together are the string, and each
    that is valid is encoded. *)
Lemma runesLoop_spec n l :
  (length l ≤ n)%nat →
  concat (runesLoop n l).*2 = l ∧ Forall (λ x, invalidRune x = false → encoded x.2) (runesLoop n l).
Proof.
  revert l. induction n as [|n IH]; intros l Hn; [by destruct l; [|cbn in Hn; lia]|].
  destruct l as [|a l]; [done|]. cbn [runesLoop].
  destruct (decodeRune (a :: l)) as [r w] eqn:Hd.
  assert (1 ≤ w)%nat as Hw.
  { unfold decodeRune in Hd. cbn [fmap list_fmap] in Hd. repeat case_match; simplify_eq; lia. }
  destruct (IH (drop w (a :: l))) as [H1 H2]; [rewrite length_drop; cbn [length] in *; lia|]. split.
  - cbn [fmap list_fmap concat snd]. change (list_fmap _ _ snd ?x) with (x.*2). rewrite H1. apply take_drop.
  - constructor; [|done]. intros Hv. cbn [snd]. apply (decodeRune_encoded _ r); [done|done|]. intros [-> ->].
    unfold invalidRune in Hv. cbn in Hv. done.
Qed.

Lemma validRunes_encoded value : Forall encoded (validRunes value).
Proof.
  unfold validRunes. assert (encoded (encodeRune RuneError)) as Hrep.
  { apply (decodeRune_encoded (encodeRune RuneError) RuneError 3); [by vm_compute|by vm_compute|by intros []]. }
  destruct (runesLoop_spec (String.length value) (String.list_ascii_of_string value)) as [_ Hv].
  { by rewrite length_list_ascii. }
  fold (runes value) in Hv. generalize false. induction Hv as [|x l Hx _ IH]; intros b; cbn [toValidLoop]; [constructor|].
  destruct (invalidRune x) eqn:Hi; [destruct b; [apply IH|constructor; [done|apply IH]]|].
  constructor; [by apply Hx|apply IH].
Qed.

Lemma concat_chunks chunks :
  Forall encoded chunks →
  ValidString (String.string_of_list_ascii (concat chunks)) = true ∧
  (runes (String.string_of_list_ascii (concat chunks))).*2 = chunks.
Proof.
  intros Hc. unfold ValidString, runes. rewrite String.list_ascii_of_string_of_list_ascii.
  destruct (runesLoop_concat chunks (String.length (String.string_of_list_ascii (concat chunks))) Hc) as [H1 H2].
  { rewrite <-length_list_ascii, String.list_ascii_of_string_of_list_ascii. done. }
  split; [|done]. revert H2. clear. induction (runesLoop _ _) as [|[r bytes] l IH]; [done|]. cbn [forallb].
  intros [H1 H2]%andb_true_iff. apply andb_true_iff. split; [done|by apply IH].
Qed.

(** A truncated text is UTF-8 of at most the given number of runes, and a
    text that is so already is kept. *)
Theorem truncateAuditText_spec value maxRunes :
  0 ≤ maxRunes →
  ValidString (truncateAuditText value maxRunes) = true ∧
  Z.of_nat (length (runes (truncateAuditText value maxRunes))) ≤ maxRunes ∧
  (ValidString value = true → Z.of_nat (length (runes value)) ≤ maxRunes → truncateAuditText value maxRunes = value).
Proof.
  intros Hn. pose proof (validRunes_encoded value) as Henc.
  assert (ValidString value = true → validRunes value = (runes value).*2) as Hkeep.
  { unfold ValidString, validRunes. generalize false. induction (runes value) as [|[r bytes] l IH]; intros b; [done|].
    cbn [forallb]. intros [Hv Hl]%andb_true_iff. cbn [toValidLoop fmap list_fmap].
    assert (invalidRune (r, bytes) = false) as -> by (by apply negb_true_iff). cbn [snd]. f_equal. by apply IH. }
  unfold truncateAuditText. destruct (Z.leb_spec maxRunes 0) as [H0|H0].
  { split_and!; [done|done|]. intros Hv Hl. destruct value; [done|]. exfalso. revert Hl. unfold runes.
    cbn [String.length String.list_ascii_of_string runesLoop]. destruct (decodeRune _). cbn [length]. lia. }
  destruct (Z.leb_spec (Z.of_nat (length (validRunes value))) maxRunes) as [Hle|Hgt].
  - destruct (concat_chunks _ Henc) as [H1 H2]. split_and!; [done| |].
    + rewrite <-(length_fmap snd (runes _)), H2. done.
    + intros Hv _. rewrite (Hkeep Hv).
      destruct (runesLoop_spec (String.length value) (String.list_ascii_of_string value)) as [Hcat _];
        [by rewrite length_list_ascii|]. fold (runes value) in Hcat. rewrite Hcat.
      apply String.string_of_list_ascii_of_string.
  - destruct (concat_chunks (take (Z.to_nat maxRunes) (validRunes value))) as [H1 H2]; [by apply Forall_take|].
    split_and!; [done| |].
    + rewrite <-(length_fmap snd (runes _)), H2, length_take. lia.
    + intros Hv Hl. rewrite (Hkeep Hv), length_fmap in Hgt. lia.
Qed.

(** ** The log *)

Section Log.
Context {collation : Collation} (outcomes : nat → outcome).
Abbreviation table := (gmap string A.t).
Implicit Types (t : table).

Definition keyed t : Prop := map_Forall (λ id r, A.ID r = id) t.

Lemma newest_spec t :
  keyed t → StronglySorted (λ x y, orderDesc A.Timestamp A.ID x y = true) (newest t) ∧ newest t ≡ₚ (map_to_list t).*2.
Proof.
  intros Ht. apply stable_sort_strict; [apply _|by apply (rows_NoDup A.ID)|].
  intros x y Hx Hy Hxy Hyx. apply (rows_inj A.ID t); [done..|]. symmetry. by eapply orderAsc_tie.
Qed.

Lemma newest_trim t t' u limit :
  keyed t → trimRecords limit t = Ok (t', u) → keyed t' ∧ newest t' = take (Z.to_nat limit) (newest t).
Proof.
  intros Ht Heq%ok_fst. cbn [fst] in Heq. subst t'. destruct (newest_spec t Ht) as [Hs Hp].
  set (n := Z.to_nat limit) in *. set (p := λ (id : string) (_ : A.t), bool_decide (id ∈ A.ID <$> drop n (newest t))).
  assert (∀ k r, (deleteWhere p t).1 !! k = Some r ↔ t !! k = Some r ∧ k ∉ A.ID <$> drop n (newest t)) as Hlook.
  { intros k r. rewrite deleteWhere_lookup. destruct (t !! k) as [r'|]; cbn; [|naive_solver].
    unfold p. case_bool_decide; naive_solver. }
  assert (keyed (deleteWhere p t).1) as Hk by (intros k r [Hr _]%Hlook; by apply Ht).
  assert (NoDup (newest t)) as Hnd by (rewrite Hp; by apply (rows_NoDup A.ID)).
  rewrite <-(take_drop n (newest t)) in Hnd, Hs. split; [done|].
  apply stable_sort_unique; [apply _| |by eapply StronglySorted_app_1_l].
  apply NoDup_Permutation; [by apply (rows_NoDup A.ID)|by apply NoDup_app in Hnd as [? _]|].
  intros r. rewrite elem_of_rows. split.
  - intros [k [Hr Hnot]%Hlook]. assert (r ∈ newest t) as Hin by (rewrite Hp; apply elem_of_rows; eauto).
    rewrite <-(take_drop n (newest t)) in Hin. apply elem_of_app in Hin as [?|Hin]; [done|]. destruct Hnot.
    apply list_elem_of_fmap. exists r. by rewrite (Ht _ _ Hr).
  - intros Hr. assert (r ∈ newest t) as Hin by (rewrite <-(take_drop n (newest t)); apply elem_of_app; by left).
    rewrite Hp in Hin. pose proof Hin as [k Hk']%elem_of_rows. exists k. apply Hlook. split; [done|].
    intros (r' & Heq & Hr')%list_elem_of_fmap.
    assert (r' ∈ newest t) as Hin' by (rewrite <-(take_drop n (newest t)); apply elem_of_app; by right).
    rewrite Hp in Hin'. assert (r' = r) as -> by (apply (rows_inj A.ID t); [done..|]; rewrite <-Heq; symmetry; by apply Ht).
    apply NoDup_app in Hnd as (_ & Hdis & _). by apply (Hdis r).
Qed.

(** The fields of [r] are those of [record], cut to their sizes. *)
Definition recorded (record r : A.t) : Prop :=
  A.ID r ≠ "" ∧ A.Action r = truncateAuditText (A.Action record) 128 ∧
  A.Detail r = truncateAuditText (A.Detail record) 1000 ∧
  (A.Timestamp record ≠ 0 → A.Timestamp r = timestamptz (A.Timestamp record)).

(** The production audit log.  An append adds one record, with its
    texts cut to their sizes and a fresh identifier if it had none, and keeps
    of all records the newest [MaxAuditRecords]; or it fails and the log is
    unchanged, or the answer is lost and the record was added.  No record is
    replaced. *)
Theorem audit_log_keeps_newest rnd now record s s' answer :
  keyed (tables s) → Append (alone outcomes) rnd now record s = (s', answer) →
  keyed (tables s') ∧
  (tables s' = tables s ∧ answer ≠ Ok () ∨
   ∃ r, recorded record r ∧ tables s !! A.ID r = None ∧
     newest (tables s') = take (Z.to_nat MaxAuditRecords) (newest (<[A.ID r := r]> (tables s)))).
Proof.
  intros Hk. enough (runs (Append (alone outcomes) rnd now record) s (λ s' answer,
    keyed (tables s') ∧ (tables s' = tables s ∧ answer ≠ Ok () ∨
     ∃ r, recorded record r ∧ tables s !! A.ID r = None ∧
       newest (tables s') = take (Z.to_nat MaxAuditRecords) (newest (<[A.ID r := r]> (tables s)))))) as Hr
    by (intros Heq; exact (runs_pair _ _ _ _ _ Hr Heq)).
  unfold Append.
  set (record1 := record <| A.Action := _ |> <| A.Status := _ |> <| A.InstallationID := _ |> <| A.UserID := _ |>
    <| A.ChannelID := _ |> <| A.EventID := _ |> <| A.Detail := _ |>).
  unfold runs, bind at 1.
  assert (∃ x, (if A.ID record1 == "" then let? value := RandomToken rnd "audit_" 12 in Ok (record1 <| A.ID := value |>)
    else Ok record1) = x ∧ ∀ r, x = Ok r → A.ID r ≠ "" ∧ ∃ id, r = record1 <| A.ID := id |>) as (x & -> & Hx).
  { eexists. split; [done|]. intros r. case_bool_decide as Hid.
    - destruct (RandomToken rnd "audit_" 12) as [v|] eqn:Hv; [|done]. cbn [result_bind]. intros [= <-]. split; [|by eexists].
      cbn. intros ->. unfold RandomToken in Hv. repeat case_match; simplify_eq.
    - intros [= <-]. split; [done|]. exists (A.ID record1). by destruct record1. }
  destruct x as [r1|e]; [|by split; [|left]]. destruct (Hx r1 eq_refl) as (Hid & id & ->). clear Hx.
  set (r2 := if IsZero _ then _ else _).
  assert (A.ID r2 = id ∧ recorded record (r2 <| A.Timestamp := timestamptz (A.Timestamp r2) |>)) as [Hid2 Hrec].
  { unfold r2, IsZero. change (A.Timestamp (record1 <| A.ID := id |>)) with (A.Timestamp record).
    destruct (Z.eqb_spec (A.Timestamp record) 0) as [Hz|Hz]; (split; [done|]; split; [done|]; split; [done|]; split; [done|]);
      by intros. }
  clearbody r2. match goal with |- let '(_, _) := ?m s in _ => change (runs m s (λ s' answer,
    keyed (tables s') ∧ (tables s' = tables s ∧ answer ≠ Ok () ∨
     ∃ r, recorded record r ∧ tables s !! A.ID r = None ∧
       newest (tables s') = take (Z.to_nat MaxAuditRecords) (newest (<[A.ID r := r]> (tables s)))))) end.
  tx_step; cbn [others alone]; [by split; [|left]|]. intros n.
  tx_step. tx_step. tx_step; [intros; cbn; by split; [|left]|]. intros m w u Hins%execute_ok. cbn beta iota.
  unfold insertRecord in Hins. destruct (tables s !! A.ID r2) eqn:Hnew; [done|]. apply ok_fst in Hins. cbn [fst] in Hins. subst w.
  tx_step. tx_step. tx_step; [intros; cbn; by split; [|left]|]. intros m' w' u' Htrim%execute_ok. cbn beta iota.
  apply newest_trim in Htrim as [Hk' Hnewest]; [|by apply map_Forall_insert_2].
  tx_step. tx_step. tx_step; [intros; cbn; by split; [|left]|]. intros m''.
  split; intros; cbn [tables published]; (split; [done|right]); by exists (r2 <| A.Timestamp := timestamptz (A.Timestamp r2) |>).
Qed.

End Log.

Definition example_record : A.t := A.zero <| A.ID := "a1" |> <| A.Action := "session.created" |> <| A.Timestamp := 5000 |>.
Definition example_log : session (gmap string A.t) :=
  (Append (collation:=bytewise) (alone (λ _, Answered)) zero_rand 0 example_record (mkSession ∅ 0)).1.

Lemma audit_log_keeps_newest_witness :
  A.Action <$> newest (collation:=bytewise) (tables example_log) = ["session.created"] ∧ keyed (tables example_log).
Proof.
  split; [by vm_compute|].
  eapply (audit_log_keeps_newest (collation:=bytewise) (λ _, Answered) zero_rand 0 example_record (mkSession ∅ 0)
    example_log (Ok ())); [apply map_Forall_empty|by vm_compute].
Defined.
End PgAudit.
