(* ===== verification/DeliveryStore.v ===== *)
(** * Delivery store: [internal/storage/memory/delivery_store.go]

    Four maps under one mutex: the notifications queued for installations,
    the EventSub messages already processed, the inbox of EventSub messages
    still to process, and the last known state of each channel.  Each
    exported operation is one step; the clock reading of an operation that
    calls [time.Now] is its argument [now]. *)

From S2P Require Import Prelude GoStrings Credentials Domain.

Module DeliveryStore.
Import DeliveryRecord.
Module I := EventSubInboxRecord.
Module C := ChannelNotificationState.

Abbreviation delivery := DeliveryRecord.t.
Abbreviation inboxRecord := EventSubInboxRecord.t.

Record t := mk {
  Records : gmap string delivery;
  Seen : gmap string time;
  EventSubInbox : gmap string inboxRecord;
  ChannelStates : gmap string ChannelNotificationState.t
}.
#[global] Instance eta_t : Eta t := λ s,
  mk (Records s) (Seen s) (EventSubInbox s) (ChannelStates s).

Definition newMemoryDeliveryStore : t := mk ∅ ∅ ∅ ∅.

Definition persistLocked (s : t) : option error := None.

Definition minInt (left right : Z) : Z := if left <? right then left else right.

Definition retryDelay (attempt : Z) : duration :=
  let attempt := if attempt <? 1 then 1 else attempt in
  let seconds := Z.shiftl 1 (minInt (attempt - 1) 6) in
  seconds * Second.

(** ** Trimming

    Both queues make room by deleting finished entries, oldest first, until
    the map is within the limit. *)
Section Trim.
Context {rt : GoRuntime} {V : Type} (key : V → string) (finished : V → bool) (stamp : V → time).

(** The deleting loop, with its [break]. *)
Fixpoint trimLoop (limit : Z) (records : list V) (m : gmap string V) : gmap string V :=
  match records with
  | [] => m
  | record :: records =>
      if mlen m <=? limit then m else trimLoop limit records (delete (key record) m)
  end.

Definition trimFinished (limit : Z) (m : gmap string V) : gmap string V :=
  if mlen m <=? limit then m else
  let records := range_collect finished m in
  let records := sortSlice (λ x y, Before (stamp x) (stamp y)) records in
  trimLoop limit records m.
End Trim.

Definition completed (record : delivery) : bool :=
  (Status record == DeliveryStatusAcked) || (Status record == DeliveryStatusDead).

Definition inboxDead (record : inboxRecord) : bool := I.Status record == EventSubInboxStatusDead.

Section Store.
Context {rt : GoRuntime}.

Definition trimCompletedDeliveriesLocked (limit : Z) (s : t) : t :=
  s <| Records := trimFinished ID completed CreatedAt limit (Records s) |>.

Definition trimDeadEventSubInboxLocked (limit : Z) (s : t) : t :=
  s <| EventSubInbox := trimFinished I.MessageID inboxDead I.ReceivedAt limit (EventSubInbox s) |>.

Definition cleanupSeenLocked (now : time) (ttl : duration) (s : t) : t :=
  s <| Seen := range_delete (λ _ timestamp, ttl <? Sub now timestamp) (Seen s) |>.

(** The body of the first loop of [cleanupLocked]: [None] deletes. *)
Definition cleanupDelivery (now : time) (_ : string) (record : delivery) : option delivery :=
  let record :=
    if negb (Before now (ExpiresAt record)) && (Status record != DeliveryStatusAcked)
    then record <| Status := DeliveryStatusDead |> else record in
  if (Status record == DeliveryStatusAcked) && negb (IsZero (AckedAt record)) &&
     (7 * 24 * Hour <? Sub now (AckedAt record))
  then None else
  if (Status record == DeliveryStatusDead) && (7 * 24 * Hour <? Sub now (CreatedAt record))
  then None else Some record.

(** The body of the second loop. *)
Definition cleanupInbox (now : time) (_ : string) (record : inboxRecord) : option inboxRecord :=
  let record :=
    if negb (Before now (I.ExpiresAt record)) && (I.Status record != EventSubInboxStatusDead)
    then record <| I.Status := EventSubInboxStatusDead |>
                <| I.LastError := "EventSub inbox item expired before processing" |>
    else record in
  if (I.Status record == EventSubInboxStatusDead) && (7 * 24 * Hour <? Sub now (I.ReceivedAt record))
  then None else Some record.

(** The loops of [cleanupLocked]. *)
Definition sweepLocked (now : time) (s : t) : t :=
  let s := s <| Records := range_update (cleanupDelivery now) (Records s) |> in
  let s := s <| EventSubInbox := range_update (cleanupInbox now) (EventSubInbox s) |> in
  cleanupSeenLocked now (24 * Hour) s.

Definition cleanupLocked (now : time) (s : t) : t :=
  let s := sweepLocked now s in
  let s := if MaxDeliveryRecords <? mlen (Records s)
           then trimCompletedDeliveriesLocked MaxDeliveryRecords s else s in
  if MaxEventSubInboxRecords <? mlen (EventSubInbox s)
  then trimDeadEventSubInboxLocked MaxEventSubInboxRecords s else s.

Definition Cleanup (now : time) (s : t) : t * option error :=
  let s := cleanupLocked now s in (s, persistLocked s).

(** ** Deliveries *)

Definition samePair (installationID eventID : string) (_ : string) (record : delivery) : bool :=
  (InstallationID record == installationID) && (EventID record == eventID).

(** The zero fields [Enqueue] fills in. *)
Definition withDefaults (now : time) (record : delivery) : delivery :=
  let record := if Status record == "" then record <| Status := DeliveryStatusPending |> else record in
  let record := if IsZero (CreatedAt record) then record <| CreatedAt := now |> else record in
  let record := if IsZero (AvailableAt record) then record <| AvailableAt := now |> else record in
  if IsZero (ExpiresAt record) then record <| ExpiresAt := Add now (24 * Hour) |> else record.

Definition Enqueue (now : time) (s : t) (record : delivery) : t * (delivery * bool * option error) :=
  let s := cleanupLocked now s in
  match range_find (samePair (InstallationID record) (EventID record)) (Records s) with
  | Some (_, existing) => (s, (existing, false, None))
  | None =>
      if (ID record == "") || (EventID record == "") || (InstallationID record == "") then
        (s, (DeliveryRecord.zero, false,
             Some (ErrMsg "delivery id, event id, and installation id are required")))
      else
      let record := withDefaults now record in
      let s := if MaxDeliveryRecords <=? mlen (Records s)
               then trimCompletedDeliveriesLocked (MaxDeliveryRecords - 1) s else s in
      if MaxDeliveryRecords <=? mlen (Records s) then
        (s, (DeliveryRecord.zero, false, Some (ErrMsg "delivery queue is full")))
      else
      let s := s <| Records := <[ID record := record]> (Records s) |> in
      (s, (record, true, persistLocked s))
  end.

Definition clampLimit (limit : Z) : Z := if (limit <=? 0) || (1000 <? limit) then 200 else limit.

Definition List (s : t) (limit : Z) : list delivery :=
  let limit := clampLimit limit in
  let records := (rangeMap (Records s)).*2 in
  let records := sortSlice (lex_greater CreatedAt ID) records in
  if limit <? Z.of_nat (length records) then take (Z.to_nat limit) records else records.

Definition ListDeliveries (s : t) (limit : Z) : list delivery := List s limit.

Definition eligible (installationID : string) (now : time) (record : delivery) : bool :=
  negb ((InstallationID record != installationID) || (Status record == DeliveryStatusAcked) ||
        (Status record == DeliveryStatusDead)) &&
  negb (Before now (AvailableAt record) || negb (Before now (ExpiresAt record))).

Definition PendingForInstallation (s : t) (installationID : string) (limit : Z) (now : time)
    : list delivery :=
  let limit := if limit <=? 0 then 100 else limit in
  let result := range_collect (eligible installationID now) (Records s) in
  let result := sortSlice (lex_less CreatedAt ID) result in
  if limit <? Z.of_nat (length result) then take (Z.to_nat limit) result else result.

Definition MarkSent (s : t) (id : string) (sentAt : time) : t * option error :=
  match Records s !! id with
  | None => (s, Some ErrRegistrationNotFound)
  | Some record =>
      let record := record <| Status := DeliveryStatusSent |>
                           <| AttemptCount := int64_wrap (AttemptCount record + 1) |>
                           <| SentAt := sentAt |> <| LastError := "" |> in
      let record := record <| AvailableAt := Add sentAt (retryDelay (AttemptCount record)) |> in
      let s := s <| Records := <[id := record]> (Records s) |> in
      (s, persistLocked s)
  end.

Definition MarkFailed (s : t) (id : string) (failure : error) (failedAt : time) : t * option error :=
  match Records s !! id with
  | None => (s, Some ErrRegistrationNotFound)
  | Some record =>
      let record := record <| AttemptCount := int64_wrap (AttemptCount record + 1) |>
                           <| LastError := Error failure |> in
      let record :=
        if (8 <=? AttemptCount record) || negb (Before failedAt (ExpiresAt record))
        then record <| Status := DeliveryStatusDead |>
        else record <| Status := DeliveryStatusPending |>
                    <| AvailableAt := Add failedAt (retryDelay (AttemptCount record)) |> in
      let s := s <| Records := <[id := record]> (Records s) |> in
      (s, persistLocked s)
  end.

Definition acknowledge (ackedAt : time) (record : delivery) : delivery :=
  record <| Status := DeliveryStatusAcked |> <| AckedAt := ackedAt |> <| LastError := "" |>.

Definition AckThrough (s : t) (installationID eventID : string) (ackedAt : time) : t * option error :=
  let target :=
    match range_find (samePair installationID eventID) (Records s) with
    | Some (_, record) => CreatedAt record
    | None => 0
    end in
  if IsZero target then (s, Some ErrRegistrationNotFound) else
  let s := s <| Records := range_update (λ _ record,
      if (InstallationID record != installationID) || After (CreatedAt record) target
      then Some record else Some (acknowledge ackedAt record)) (Records s) |> in
  (s, persistLocked s).

Definition Ack (s : t) (installationID eventID : string) (ackedAt : time) : t * option error :=
  let found := range_exists (samePair installationID eventID) (Records s) in
  let s := s <| Records := range_update (λ id record,
      if samePair installationID eventID id record
      then Some (acknowledge ackedAt record) else Some record) (Records s) |> in
  if negb found then (s, Some ErrRegistrationNotFound) else (s, persistLocked s).

Definition DeleteForInstallation (s : t) (installationID : string) : t * (Z * option error) :=
  let '(records, removed) :=
    range_delete_count (λ _ record, InstallationID record == installationID) (Records s) in
  let s := s <| Records := records |> in
  if removed =? 0 then (s, (0, None)) else (s, (removed, persistLocked s)).

(** ** EventSub inbox *)

Definition addSeenEventSubLocked (messageID : string) (now : time) (s : t) : t :=
  let s :=
    if MaxSeenEventRecords <=? mlen (Seen s) then
      let '(oldestKey, _) := range_oldest (λ timestamp, timestamp) (Seen s) in
      s <| Seen := delete oldestKey (Seen s) |>
    else s in
  s <| Seen := <[messageID := now]> (Seen s) |>.

Definition EnqueueEventSub (s : t) (messageID : string) (envelope : EventSubEnvelope.t) (now : time)
    : t * (inboxRecord * bool * option error) :=
  let messageID := TrimSpace messageID in
  if messageID == "" then
    (s, (I.zero, false, Some (ErrMsg "EventSub message id is required")))
  else
  let s := cleanupSeenLocked now (24 * Hour) s in
  match Seen s !! messageID with
  | Some _ => (s, (I.zero, false, None))
  | None =>
  match EventSubInbox s !! messageID with
  | Some existing => (s, (existing, false, None))
  | None =>
      let s := if MaxEventSubInboxRecords <=? mlen (EventSubInbox s)
               then trimDeadEventSubInboxLocked (MaxEventSubInboxRecords - 1) s else s in
      if MaxEventSubInboxRecords <=? mlen (EventSubInbox s) then
        (s, (I.zero, false, Some (ErrMsg "EventSub inbox is full")))
      else
      let record := I.zero <| I.MessageID := messageID |> <| I.Envelope := envelope |>
                      <| I.Status := EventSubInboxStatusPending |> <| I.AvailableAt := now |>
                      <| I.ExpiresAt := Add now (24 * Hour) |> <| I.ReceivedAt := now |> in
      let s := s <| EventSubInbox := <[messageID := record]> (EventSubInbox s) |> in
      match persistLocked s with
      | Some err =>
          (s <| EventSubInbox := delete messageID (EventSubInbox s) |>, (I.zero, false, Some err))
      | None => (s, (record, true, None))
      end
  end
  end.

Definition inboxEligible (now : time) (record : inboxRecord) : bool :=
  negb ((I.Status record != EventSubInboxStatusPending) || Before now (I.AvailableAt record) ||
        negb (Before now (I.ExpiresAt record))).

Definition PendingEventSub (s : t) (limit : Z) (now : time) : list inboxRecord :=
  let limit := clampLimit limit in
  let result := range_collect (inboxEligible now) (EventSubInbox s) in
  let result := sortSlice (lex_less I.ReceivedAt I.MessageID) result in
  if limit <? Z.of_nat (length result) then take (Z.to_nat limit) result else result.

Definition ListEventSubInbox (s : t) (limit : Z) : list inboxRecord :=
  let limit := clampLimit limit in
  let result := (rangeMap (EventSubInbox s)).*2 in
  let result := sortSlice (lex_greater I.ReceivedAt I.MessageID) result in
  if limit <? Z.of_nat (length result) then take (Z.to_nat limit) result else result.

Definition CompleteEventSub (s : t) (messageID : string) (completedAt : time) : t * option error :=
  match EventSubInbox s !! messageID with
  | None =>
      match Seen s !! messageID with
      | Some _ => (s, None)
      | None => (s, Some ErrRegistrationNotFound)
      end
  | Some record =>
      let s := s <| EventSubInbox := delete messageID (EventSubInbox s) |> in
      let previousSeen := Seen s !! messageID in
      let s := addSeenEventSubLocked messageID completedAt s in
      match persistLocked s with
      | Some err =>
          let s := s <| EventSubInbox := <[messageID := record]> (EventSubInbox s) |> in
          let s := s <| Seen := match previousSeen with
                                | Some p => <[messageID := p]> (Seen s)
                                | None => delete messageID (Seen s)
                                end |> in
          (s, Some err)
      | None => (s, None)
      end
  end.

(** [failure] is [None] for a nil error. *)
Definition MarkEventSubFailed (s : t) (messageID : string) (failure : option error) (failedAt : time)
    : t * option error :=
  match EventSubInbox s !! messageID with
  | None => (s, Some ErrRegistrationNotFound)
  | Some record =>
      let record := record <| I.AttemptCount := int64_wrap (I.AttemptCount record + 1) |>
                           <| I.LastAttemptAt := failedAt |> in
      let record := match failure with
                    | Some e => record <| I.LastError := Error e |>
                    | None => record
                    end in
      let record :=
        if (8 <=? I.AttemptCount record) || negb (Before failedAt (I.ExpiresAt record))
        then record <| I.Status := EventSubInboxStatusDead |>
        else record <| I.Status := EventSubInboxStatusPending |>
                    <| I.AvailableAt := Add failedAt (retryDelay (I.AttemptCount record)) |> in
      let s := s <| EventSubInbox := <[messageID := record]> (EventSubInbox s) |> in
      (s, persistLocked s)
  end.

Definition RetryEventSub (s : t) (messageID : string) (now : time) : t * option error :=
  match EventSubInbox s !! messageID with
  | None => (s, Some ErrRegistrationNotFound)
  | Some record =>
      let record := record <| I.Status := EventSubInboxStatusPending |> <| I.AttemptCount := 0 |>
                           <| I.AvailableAt := now |> <| I.ExpiresAt := Add now (24 * Hour) |>
                           <| I.LastError := "" |> in
      let s := s <| EventSubInbox := <[messageID := record]> (EventSubInbox s) |> in
      (s, persistLocked s)
  end.

Definition HasSeenEventSub (s : t) (messageID : string) (now : time) (ttl : duration) : t * bool :=
  let s := cleanupSeenLocked now ttl s in
  (s, bool_decide (is_Some (Seen s !! messageID))).

Definition SeenEventSub (s : t) (messageID : string) (now : time) (ttl : duration)
    : t * (bool * option error) :=
  let s := cleanupSeenLocked now ttl s in
  match Seen s !! messageID with
  | Some _ => (s, (true, None))
  | None =>
      let s := addSeenEventSubLocked messageID now s in
      match persistLocked s with
      | Some err => (s <| Seen := delete messageID (Seen s) |>, (false, Some err))
      | None => (s, (false, None))
      end
  end.

Definition ForgetEventSub (s : t) (messageID : string) : t * option error :=
  let s := s <| Seen := delete messageID (Seen s) |> in (s, persistLocked s).

(** ** Channel states *)

(** [titleChanged], [gameChanged], [initialized]. *)
Definition changes : Type := bool * bool * bool.

Definition ChannelStateChanges (s : t) (channelID title categoryName : string) : result changes :=
  if channelID == "" then Err (ErrMsg "channel id is required") else
  match ChannelStates s !! channelID with
  | None => Ok (false, false, true)
  | Some previous => Ok (C.Title previous != title, C.CategoryName previous != categoryName, false)
  end.

Definition SaveChannelState (s : t) (channelID title categoryName : string) (now : time)
    : t * option error :=
  if channelID == "" then (s, Some (ErrMsg "channel id is required")) else
  let previous := ChannelStates s !! channelID in
  let s := s <| ChannelStates := <[channelID := C.mk title categoryName now]> (ChannelStates s) |> in
  match persistLocked s with
  | Some err =>
      (s <| ChannelStates := match previous with
                             | Some p => <[channelID := p]> (ChannelStates s)
                             | None => delete channelID (ChannelStates s)
                             end |>, Some err)
  | None => (s, None)
  end.

Definition UpdateChannelState (s : t) (channelID title categoryName : string) (now : time)
    : t * result changes :=
  match ChannelStateChanges s channelID title categoryName with
  | Err err => (s, Err err)
  | Ok c =>
      let '(s, err) := SaveChannelState s channelID title categoryName now in
      match err with Some err => (s, Err err) | None => (s, Ok c) end
  end.

End Store.
End DeliveryStore.
