(* ===== verification/DeliveryProofs.v ===== *)
(** * Delivery store: invariant and theorems

    The invariant of [DeliveryStore.v] over every reachable state, and what
    the queue promises: one record per installation and event, no loss of
    undelivered records, the order and completeness of the pending list, the
    retry schedule, and the de-duplication of EventSub messages. *)

From S2P Require Import Prelude GoStrings Credentials Domain DeliveryStore.

Module DeliveryProofs.
Import DeliveryRecord DeliveryStore.

(** ** Trimming *)

Section Trim.
Context {rt : GoRuntime} {V : Type} (key : V → string) (finished : V → bool) (stamp : V → time).
Implicit Types (m : gmap string V) (l : list V).

Definition keyed m : Prop := map_Forall (λ k v, key v = k) m.

(** The loop deletes a prefix of its list, all of it unless it meets the
    limit. *)
Lemma trimLoop_split limit l m :
  ∃ l1 l2, l = l1 ++ l2 ∧ trimLoop key limit l m = foldl (λ m r, delete (key r) m) m l1 ∧
    (l2 = [] ∨ mlen (trimLoop key limit l m) ≤ limit).
Proof.
  revert m. induction l as [|r l IH]; intros m; simpl; [by exists [], []; auto|].
  destruct (Z.leb_spec (mlen m) limit) as [Hle|_]; [by exists [], (r :: l); auto|].
  destruct (IH (delete (key r) m)) as (l1 & l2 & -> & Hl & Hend).
  by exists (r :: l1), l2.
Qed.

Lemma foldl_delete_lookup l m k v :
  foldl (λ m r, delete (key r) m) m l !! k = Some v ↔ m !! k = Some v ∧ k ∉ key <$> l.
Proof.
  revert m. induction l as [|r l IH]; intros m; simpl.
  { split; [|tauto]. intros. split; [done|apply not_elem_of_nil]. }
  rewrite IH, lookup_delete_Some, not_elem_of_cons. naive_solver.
Qed.

Lemma elem_of_candidates m v :
  v ∈ sortSlice (λ x y, Before (stamp x) (stamp y)) (range_collect finished m) ↔
  ∃ k, m !! k = Some v ∧ finished v = true.
Proof. by rewrite sortSlice_perm, elem_of_range_collect. Qed.

Lemma trimFinished_sub limit m k v :
  trimFinished key finished stamp limit m !! k = Some v → m !! k = Some v.
Proof.
  unfold trimFinished. case_match; [done|].
  destruct (trimLoop_split limit (sortSlice (λ x y, Before (stamp x) (stamp y))
    (range_collect finished m)) m) as (l1 & l2 & _ & -> & _).
  by intros [? _]%foldl_delete_lookup.
Qed.

(** Only finished entries go ... *)
Lemma trimFinished_keep limit m k v :
  keyed m → m !! k = Some v → finished v = false →
  trimFinished key finished stamp limit m !! k = Some v.
Proof.
  intros Hkey Hk Hf. unfold trimFinished. case_match; [done|].
  destruct (trimLoop_split limit (sortSlice (λ x y, Before (stamp x) (stamp y))
    (range_collect finished m)) m) as (l1 & l2 & Hl & -> & _).
  apply foldl_delete_lookup. split; [done|]. intros (v' & -> & Hv')%list_elem_of_fmap.
  assert (v' ∈ l1 ++ l2) as Hin by (apply elem_of_app; by left).
  rewrite <-Hl, elem_of_candidates in Hin. destruct Hin as (k' & Hk' & Hf').
  rewrite (Hkey _ _ Hk') in Hk. congruence.
Qed.

(** ... and if the map is still over the limit, no finished entry is left. *)
Lemma trimFinished_full limit m k v :
  keyed m → limit < mlen (trimFinished key finished stamp limit m) →
  trimFinished key finished stamp limit m !! k = Some v → finished v = false.
Proof.
  intros Hkey. unfold trimFinished. destruct (Z.leb_spec (mlen m) limit); [lia|].
  destruct (trimLoop_split limit (sortSlice (λ x y, Before (stamp x) (stamp y))
    (range_collect finished m)) m) as (l1 & l2 & Hl & Heq & Hend).
  intros Hlt. destruct Hend as [->|?]; [|lia]. rewrite Heq. clear Hlt Heq.
  rewrite (right_id_L [] (++)) in Hl. subst l1.
  intros [Hk Hnin]%foldl_delete_lookup. destruct (finished v) eqn:Hf; [|done].
  destruct Hnin. apply list_elem_of_fmap. exists v. split; [by rewrite (Hkey _ _ Hk)|].
  apply elem_of_candidates. eauto.
Qed.

(** What is removed is at least as old as every finished entry that stays. *)
Lemma trimFinished_oldest limit m k k' v v' :
  keyed m → m !! k = Some v → trimFinished key finished stamp limit m !! k = None →
  trimFinished key finished stamp limit m !! k' = Some v' → finished v' = true →
  stamp v ≤ stamp v'.
Proof.
  intros Hkey Hk. unfold trimFinished. case_match; [congruence|].
  destruct (trimLoop_split limit (sortSlice (λ x y, Before (stamp x) (stamp y))
    (range_collect finished m)) m) as (l1 & l2 & Hl & -> & _).
  intros Hnone [Hk' Hnin]%foldl_delete_lookup Hf'.
  assert (v ∈ l1) as Hv.
  { destruct (decide (k ∈ key <$> l1)) as [(u & -> & Hu)%list_elem_of_fmap|Hnot].
    - assert (u ∈ l1 ++ l2) as Hin by (apply elem_of_app; by left).
      rewrite <-Hl, elem_of_candidates in Hin. destruct Hin as (k2 & Hk2 & _).
      rewrite (Hkey _ _ Hk2) in Hk. by simplify_eq.
    - by rewrite (proj2 (foldl_delete_lookup _ _ _ _) (conj Hk Hnot)) in Hnone. }
  assert (v' ∈ l2) as Hv'.
  { assert (v' ∈ l1 ++ l2) as [Hin|]%elem_of_app; [|exfalso|done].
    - rewrite <-Hl. apply elem_of_candidates. eauto.
    - apply Hnin, list_elem_of_fmap. exists v'. by rewrite (Hkey _ _ Hk'). }
  assert (StronglySorted (λ x y, Before (stamp y) (stamp x) = false) (l1 ++ l2)) as Hs.
  { rewrite <-Hl. apply (sortSlice_sorted _ (λ x y, Before (stamp x) (stamp y))), _. }
  pose proof (StronglySorted_app_1_elem_of _ _ _ _ _ Hs Hv Hv') as Hle.
  unfold Before in Hle. simpl in Hle. lia.
Qed.
End Trim.

(** ** Invariant *)

(** The identity of a delivery, which no operation changes. *)
Definition ident (r : delivery) : string * string * string := (ID r, EventID r, InstallationID r).

Definition records_wf (m : gmap string delivery) : Prop :=
  map_Forall (λ k r, ID r = k ∧ k ≠ "" ∧ EventID r ≠ "" ∧ InstallationID r ≠ "") m ∧
  (∀ k k' r r', m !! k = Some r → m !! k' = Some r' →
     InstallationID r = InstallationID r' → EventID r = EventID r' → k = k') ∧
  mlen m ≤ MaxDeliveryRecords.

Definition inbox_wf (m : gmap string inboxRecord) : Prop :=
  map_Forall (λ k r, I.MessageID r = k ∧ k ≠ "") m ∧ mlen m ≤ MaxEventSubInboxRecords.

Definition wf (s : t) : Prop :=
  records_wf (Records s) ∧ inbox_wf (EventSubInbox s) ∧
  mlen (Seen s) ≤ MaxSeenEventRecords ∧ ChannelStates s !! "" = None.

(** Changing records without touching their identity, and deleting some. *)
Lemma records_wf_mono (m m' : gmap string delivery) :
  (∀ k r', m' !! k = Some r' → ∃ r, m !! k = Some r ∧ ident r' = ident r) →
  records_wf m → records_wf m'.
Proof.
  intros Hsub (Hkey & Hpair & Hsize). split_and!.
  - intros k r' Hr'. destruct (Hsub _ _ Hr') as (r & Hr & [= -> -> ->]). by apply Hkey.
  - intros k k' r1 r2 H1 H2.
    destruct (Hsub _ _ H1) as (r1' & H1' & [= _ -> ->]), (Hsub _ _ H2) as (r2' & H2' & [= _ -> ->]).
    by apply Hpair.
  - etrans; [|exact Hsize]. apply mlen_dom. intros k [r' Hr'].
    destruct (Hsub _ _ Hr') as (r & Hr & _). eauto.
Qed.

Lemma inbox_wf_mono (m m' : gmap string inboxRecord) :
  (∀ k r', m' !! k = Some r' → ∃ r, m !! k = Some r ∧ I.MessageID r' = I.MessageID r) →
  inbox_wf m → inbox_wf m'.
Proof.
  intros Hsub (Hkey & Hsize). split.
  - intros k r' Hr'. destruct (Hsub _ _ Hr') as (r & Hr & ->). by apply Hkey.
  - etrans; [|exact Hsize]. apply mlen_dom. intros k [r' Hr'].
    destruct (Hsub _ _ Hr') as (r & Hr & _). eauto.
Qed.

Lemma records_keyed m : records_wf m → keyed ID m.
Proof. intros [H _] k r Hr. by apply (H k r Hr). Qed.

Lemma inbox_keyed m : inbox_wf m → keyed I.MessageID m.
Proof. intros [H _] k r Hr. by apply (H k r Hr). Qed.

Section Ops.
Context {rt : GoRuntime}.

(** [cleanupDelivery] only changes the status, and drops entries. *)
Lemma cleanupDelivery_Some now k r r' :
  cleanupDelivery now k r = Some r' →
  (r' = r ∨ r' = r <| Status := DeliveryStatusDead |> ∧ ExpiresAt r ≤ now ∧
            Status r ≠ DeliveryStatusAcked).
Proof.
  unfold cleanupDelivery, Before. intros H.
  destruct (Z.ltb_spec now (ExpiresAt r)), (bool_decide_reflect (Status r = DeliveryStatusAcked));
    simpl in H; repeat case_match; try done; injection H as <-; auto.
Qed.

(** A record that is neither expired nor completed is left alone. *)
Lemma cleanupDelivery_live now k r :
  now < ExpiresAt r → completed r = false → cleanupDelivery now k r = Some r.
Proof.
  unfold completed, cleanupDelivery, Before. intros Hlt [Ha Hd]%orb_false_iff.
  destruct (Z.ltb_spec now (ExpiresAt r)); [|lia]. simpl. by rewrite Ha, Hd.
Qed.

Lemma cleanupInbox_Some now k r r' :
  cleanupInbox now k r = Some r' → I.MessageID r' = I.MessageID r.
Proof.
  unfold cleanupInbox. intros H. repeat case_match; try done; by injection H as <-.
Qed.

Lemma trimDeliveries_wf limit s : wf s → wf (trimCompletedDeliveriesLocked limit s).
Proof.
  intros (Hr & Hrest). split; [|done]. eapply records_wf_mono; [|exact Hr].
  intros k r' Hr'%trimFinished_sub. eauto.
Qed.

Lemma trimInbox_wf limit s : wf s → wf (trimDeadEventSubInboxLocked limit s).
Proof.
  intros (Hr & Hi & Hrest). split; [done|]. split; [|done]. eapply inbox_wf_mono; [|exact Hi].
  intros k r' Hr'%trimFinished_sub. eauto.
Qed.

Lemma cleanupSeen_wf now ttl s : wf s → wf (cleanupSeenLocked now ttl s).
Proof.
  intros (Hr & Hi & Hs & Hc). split_and!; try done. simpl. etrans; [|exact Hs].
  apply mlen_dom. intros k [v [Hv _]%range_delete_Some]. eauto.
Qed.

Lemma sweep_wf now s : wf s → wf (sweepLocked now s).
Proof.
  intros (Hr & Hi & Hs & Hc). apply cleanupSeen_wf. split_and!; try done; simpl.
  - eapply records_wf_mono; [|exact Hr]. intros k r'. rewrite range_update_lookup.
    intros (r & Hk & Hc')%bind_Some. exists r. split; [done|].
    by destruct (cleanupDelivery_Some _ _ _ _ Hc') as [->|[-> _]].
  - eapply inbox_wf_mono; [|exact Hi]. intros k r'. rewrite range_update_lookup.
    intros (r & Hk & Hc')%bind_Some. exists r. split; [done|]. by eapply cleanupInbox_Some.
Qed.

(** In a well-formed store the trims of [cleanupLocked] have nothing to do. *)
Lemma cleanup_sweep now s : wf s → cleanupLocked now s = sweepLocked now s.
Proof.
  intros ((_ & _ & Hr) & (_ & Hi) & _)%(sweep_wf now). unfold cleanupLocked.
  destruct (Z.ltb_spec MaxDeliveryRecords (mlen (Records (sweepLocked now s)))); [lia|].
  by destruct (Z.ltb_spec MaxEventSubInboxRecords (mlen (EventSubInbox (sweepLocked now s)))); [lia|].
Qed.

Lemma cleanup_wf now s : wf s → wf (cleanupLocked now s).
Proof. intros Hwf. rewrite cleanup_sweep by done. by apply sweep_wf. Qed.

Lemma withDefaults_ident now r : ident (withDefaults now r) = ident r.
Proof. unfold withDefaults. by repeat case_match. Qed.

(** The state in which [Enqueue] inserts. *)
Definition roomFor (now : time) (s : t) : t :=
  let s := cleanupLocked now s in
  if MaxDeliveryRecords <=? mlen (Records s)
  then trimCompletedDeliveriesLocked (MaxDeliveryRecords - 1) s else s.

Lemma roomFor_wf now s : wf s → wf (roomFor now s).
Proof.
  intros Hwf%(cleanup_wf now). unfold roomFor. case_match; [by apply trimDeliveries_wf|done].
Qed.

Lemma roomFor_sub now s k r :
  Records (roomFor now s) !! k = Some r → Records (cleanupLocked now s) !! k = Some r.
Proof. unfold roomFor. case_match; [|done]. apply trimFinished_sub. Qed.

(** The four outcomes of [Enqueue]. *)
Lemma Enqueue_cases now s r s' out :
  Enqueue now s r = (s', out) →
  (∃ k e, Records (cleanupLocked now s) !! k = Some e ∧ InstallationID e = InstallationID r ∧
     EventID e = EventID r ∧ s' = cleanupLocked now s ∧ out = (e, false, None)) ∨
  ((∀ k e, Records (cleanupLocked now s) !! k = Some e →
      InstallationID e = InstallationID r → EventID e = EventID r → False) ∧
   ((s' = cleanupLocked now s ∧ (ID r = "" ∨ EventID r = "" ∨ InstallationID r = "") ∧
      out = (DeliveryRecord.zero, false,
        Some (ErrMsg "delivery id, event id, and installation id are required"))) ∨
    (s' = roomFor now s ∧ MaxDeliveryRecords ≤ mlen (Records (roomFor now s)) ∧
      out = (DeliveryRecord.zero, false, Some (ErrMsg "delivery queue is full"))) ∨
    (ID r ≠ "" ∧ EventID r ≠ "" ∧ InstallationID r ≠ "" ∧
      mlen (Records (roomFor now s)) < MaxDeliveryRecords ∧
      s' = (roomFor now s)
             <| Records := <[ID r := withDefaults now r]> (Records (roomFor now s)) |> ∧
      out = (withDefaults now r, true, None)))).
Proof.
  unfold Enqueue. destruct (range_find _ _) as [[k e]|] eqn:Hf.
  { intros [= <- <-]. apply range_find_Some in Hf as [Hk Hp].
    apply andb_prop in Hp as [H1%bool_decide_eq_true H2%bool_decide_eq_true]. left. eauto 10. }
  intros H. right. split.
  { intros k e Hk H1 H2. pose proof (proj1 (range_find_None _ _) Hf k e Hk) as Hp.
    unfold samePair in Hp. by rewrite !bool_decide_true in Hp. }
  destruct (_ || _) eqn:Hreq in H.
  { injection H as <- <-. left. split; [done|]. split; [|done].
    rewrite !orb_true_iff, !bool_decide_eq_true in Hreq. tauto. }
  right. rewrite !orb_false_iff, !bool_decide_eq_false in Hreq. destruct Hreq as [[? ?] ?].
  fold (roomFor now s) in H.
  destruct (Z.leb_spec MaxDeliveryRecords (mlen (Records (roomFor now s)))); injection H as <- <-.
  - left. eauto.
  - right. assert (ID (withDefaults now r) = ID r) as ->.
    { pose proof (withDefaults_ident now r). unfold ident in *. congruence. }
    split_and!; done.
Qed.

Lemma enqueue_wf now s r : wf s → wf (Enqueue now s r).1.
Proof.
  intros Hwf. destruct (Enqueue now s r) as [s' out] eqn:Hen. simpl.
  apply Enqueue_cases in Hen as
    [(k & e & _ & _ & _ & -> & _)|[Hnone [(-> & _)|[(-> & _)|(Hid & Hev & Hin & Hlt & -> & _)]]]].
  1,2: by apply cleanup_wf.
  { by apply roomFor_wf. }
  destruct (roomFor_wf now s Hwf) as ((Hkey & Hpair & Hsize) & Hrest). split; [|done]. simpl.
  pose proof (withDefaults_ident now r) as Hd. injection Hd as HdID HdEv HdIn.
  assert (∀ k e, Records (roomFor now s) !! k = Some e →
    InstallationID e = InstallationID r → EventID e = EventID r → False) as Hfresh.
  { intros k e Hk. by eapply Hnone, roomFor_sub. }
  split_and!.
  - apply map_Forall_insert_2; [|done]. by rewrite HdID, HdEv, HdIn.
  - intros k k' e e'. rewrite !lookup_insert_Some.
    intros [[<- <-]|[? He]] [[<- <-]|[? He']]; rewrite ?HdEv, ?HdIn; intros H1 H2;
      [done|exfalso; by eapply Hfresh|exfalso; by eapply Hfresh|by eapply Hpair].
  - by apply mlen_insert_lt.
Qed.

(** Replacing a record by one with the same identity. *)
Lemma replace_wf s id r r' :
  wf s → Records s !! id = Some r → ident r' = ident r →
  wf (s <| Records := <[id := r']> (Records s) |>).
Proof.
  intros (Hr & Hrest) Hid Hident. split; [|done]. simpl. eapply records_wf_mono; [|exact Hr].
  intros k r1. rewrite lookup_insert_Some. intros [[<- <-]|[? ?]]; eauto.
Qed.

Lemma markSent_wf s id at_ : wf s → wf (MarkSent s id at_).1.
Proof.
  intros Hwf. unfold MarkSent. destruct (Records s !! id) as [r|] eqn:Hr; [|done].
  by eapply replace_wf.
Qed.

Lemma markFailed_wf s id failure at_ : wf s → wf (MarkFailed s id failure at_).1.
Proof.
  intros Hwf. unfold MarkFailed. destruct (Records s !! id) as [r|] eqn:Hr; [|done].
  eapply replace_wf; [done..|]. by case_match.
Qed.

Lemma update_records_wf s (f : string → delivery → option delivery) :
  (∀ k r r', f k r = Some r' → ident r' = ident r) →
  wf s → wf (s <| Records := range_update f (Records s) |>).
Proof.
  intros Hf (Hr & Hrest). split; [|done]. simpl. eapply records_wf_mono; [|exact Hr].
  intros k r'. rewrite range_update_lookup. intros (r & Hk & Hr')%bind_Some. eauto.
Qed.

Lemma ackThrough_wf s inst ev at_ : wf s → wf (AckThrough s inst ev at_).1.
Proof.
  intros Hwf. unfold AckThrough. destruct (IsZero _); [done|]. cbn [fst].
  apply update_records_wf; [|done]. intros k r r'. case_match; by intros [= <-].
Qed.

Lemma ack_wf s inst ev at_ : wf s → wf (Ack s inst ev at_).1.
Proof.
  intros Hwf. unfold Ack. assert (wf (s <| Records := range_update (λ id record,
      if samePair inst ev id record then Some (acknowledge at_ record) else Some record)
      (Records s) |>)).
  { apply update_records_wf; [|done]. intros k r r'. case_match; by intros [= <-]. }
  by case_match.
Qed.

Lemma deleteForInstallation_wf s inst : wf s → wf (DeleteForInstallation s inst).1.
Proof.
  intros Hwf. unfold DeleteForInstallation.
  destruct (range_delete_count_spec (λ _ r, InstallationID r == inst) (Records s)) as [H _].
  destruct (range_delete_count _ _) as [m n]. simpl in H. subst m.
  assert (wf (s <| Records := range_delete (λ _ r, InstallationID r == inst) (Records s) |>)).
  { rewrite range_delete_update. apply update_records_wf; [|done].
    intros k r r'. case_match; [done|]. by intros [= <-]. }
  by case_match.
Qed.

Lemma addSeen_seen m now s :
  mlen (Seen s) ≤ MaxSeenEventRecords →
  mlen (Seen (addSeenEventSubLocked m now s)) ≤ MaxSeenEventRecords.
Proof.
  intros Hs. unfold addSeenEventSubLocked.
  destruct (Z.leb_spec MaxSeenEventRecords (mlen (Seen s))) as [Hge|Hlt]; simpl;
    [|by apply mlen_insert_lt].
  assert (Seen s ≠ ∅) as Hne.
  { intros He. rewrite He in Hge. by vm_compute in Hge. }
  destruct (range_oldest_lookup (λ t, t) (Seen s) Hne) as (v & Hv & _).
  destruct (range_oldest _ (Seen s)) as [k o]. simpl in *.
  apply mlen_insert_lt. unfold mlen in *. rewrite (map_size_delete_Some k) by eauto.
  assert (size (Seen s) ≠ 0%nat); [|lia]. by apply map_size_non_empty_iff.
Qed.

Lemma addSeen_other m now s :
  Records (addSeenEventSubLocked m now s) = Records s ∧
  EventSubInbox (addSeenEventSubLocked m now s) = EventSubInbox s ∧
  ChannelStates (addSeenEventSubLocked m now s) = ChannelStates s.
Proof. unfold addSeenEventSubLocked. case_match; [|done]. by destruct (range_oldest _ _). Qed.

Lemma addSeen_wf m now s : wf s → wf (addSeenEventSubLocked m now s).
Proof.
  intros (Hr & Hi & Hs & Hc). destruct (addSeen_other m now s) as (H1 & H2 & H3).
  unfold wf. rewrite H1, H2, H3. split_and!; try done; try apply Hr; try apply Hi.
  by apply addSeen_seen.
Qed.

Lemma insert_inbox_wf s id r :
  wf s → I.MessageID r = id → id ≠ "" →
  mlen (<[id := r]> (EventSubInbox s)) ≤ MaxEventSubInboxRecords →
  wf (s <| EventSubInbox := <[id := r]> (EventSubInbox s) |>).
Proof.
  intros (Hr & Hi & Hrest) Hid Hne Hsize. split; [done|]. split; [|done]. split; [|done]. simpl.
  apply map_Forall_insert_2; [done|]. apply Hi.
Qed.

Lemma replace_inbox_wf s id r r' :
  wf s → EventSubInbox s !! id = Some r → I.MessageID r' = I.MessageID r →
  wf (s <| EventSubInbox := <[id := r']> (EventSubInbox s) |>).
Proof.
  intros (Hr & Hi & Hrest) Hid Hm. split; [done|]. split; [|done]. simpl.
  eapply inbox_wf_mono; [|exact Hi].
  intros k r1. rewrite lookup_insert_Some. intros [[<- <-]|[? ?]]; eauto.
Qed.

Lemma delete_inbox_wf s id : wf s → wf (s <| EventSubInbox := delete id (EventSubInbox s) |>).
Proof.
  intros (Hr & Hi & Hrest). split; [done|]. split; [|done]. simpl.
  eapply inbox_wf_mono; [|exact Hi]. intros k r [? ?]%lookup_delete_Some. eauto.
Qed.

Lemma enqueueEventSub_wf s m env now : wf s → wf (EnqueueEventSub s m env now).1.
Proof.
  intros Hwf. unfold EnqueueEventSub. case_bool_decide as Hm; [done|].
  apply (cleanupSeen_wf now (24 * Hour)) in Hwf.
  set (s1 := cleanupSeenLocked now (24 * Hour) s) in *. clearbody s1.
  destruct (Seen s1 !! _); [done|]. destruct (EventSubInbox s1 !! _); [done|].
  assert (wf (if MaxEventSubInboxRecords <=? mlen (EventSubInbox s1)
    then trimDeadEventSubInboxLocked (MaxEventSubInboxRecords - 1) s1 else s1)) as Hwf2.
  { case_match; [by apply trimInbox_wf|done]. }
  set (s2 := if _ <=? _ then _ else s1) in *. clearbody s2.
  destruct (Z.leb_spec MaxEventSubInboxRecords (mlen (EventSubInbox s2))); [done|].
  apply insert_inbox_wf; [done..|]. by apply mlen_insert_lt.
Qed.

Lemma completeEventSub_wf s m at_ : wf s → wf (CompleteEventSub s m at_).1.
Proof.
  intros Hwf. unfold CompleteEventSub. destruct (EventSubInbox s !! m); [|by case_match].
  by apply addSeen_wf, delete_inbox_wf.
Qed.

Lemma markEventSubFailed_wf s m failure at_ : wf s → wf (MarkEventSubFailed s m failure at_).1.
Proof.
  intros Hwf. unfold MarkEventSubFailed. destruct (EventSubInbox s !! m) as [r|] eqn:Hr; [|done].
  eapply replace_inbox_wf; [done..|]. by repeat case_match.
Qed.

Lemma retryEventSub_wf s m now : wf s → wf (RetryEventSub s m now).1.
Proof.
  intros Hwf. unfold RetryEventSub. destruct (EventSubInbox s !! m) as [r|] eqn:Hr; [|done].
  by eapply replace_inbox_wf.
Qed.

Lemma seenEventSub_wf s m now ttl : wf s → wf (SeenEventSub s m now ttl).1.
Proof.
  intros Hwf%(cleanupSeen_wf now ttl). unfold SeenEventSub. case_match; [done|]. by apply addSeen_wf.
Qed.

Lemma forgetEventSub_wf s m : wf s → wf (ForgetEventSub s m).1.
Proof.
  intros (Hr & Hi & Hs & Hc). split_and!; try done; try apply Hr; try apply Hi. simpl.
  etrans; [|exact Hs]. apply mlen_dom. intros k [v [_ Hv]%lookup_delete_Some]. eauto.
Qed.

Lemma saveChannelState_wf s c title cat now : wf s → wf (SaveChannelState s c title cat now).1.
Proof.
  intros (Hr & Hi & Hs & Hc). unfold SaveChannelState. case_bool_decide as Hc0; [done|].
  split_and!; try done; try apply Hr; try apply Hi. simpl. by rewrite lookup_insert_ne.
Qed.
End Ops.

(** ** Executions *)

Inductive op :=
| OpEnqueue (now : time) (record : delivery)
| OpMarkSent (id : string) (sentAt : time)
| OpMarkFailed (id : string) (failure : error) (failedAt : time)
| OpAckThrough (installationID eventID : string) (ackedAt : time)
| OpAck (installationID eventID : string) (ackedAt : time)
| OpDeleteForInstallation (installationID : string)
| OpEnqueueEventSub (messageID : string) (envelope : EventSubEnvelope.t) (now : time)
| OpCompleteEventSub (messageID : string) (completedAt : time)
| OpMarkEventSubFailed (messageID : string) (failure : option error) (failedAt : time)
| OpRetryEventSub (messageID : string) (now : time)
| OpHasSeenEventSub (messageID : string) (now : time) (ttl : duration)
| OpSeenEventSub (messageID : string) (now : time) (ttl : duration)
| OpForgetEventSub (messageID : string)
| OpSaveChannelState (channelID title categoryName : string) (now : time)
| OpUpdateChannelState (channelID title categoryName : string) (now : time)
| OpCleanup (now : time).

Definition exec {rt : GoRuntime} (s : t) (o : op) : t :=
  match o with
  | OpEnqueue now r => (Enqueue now s r).1
  | OpMarkSent id at_ => (MarkSent s id at_).1
  | OpMarkFailed id e at_ => (MarkFailed s id e at_).1
  | OpAckThrough inst ev at_ => (AckThrough s inst ev at_).1
  | OpAck inst ev at_ => (Ack s inst ev at_).1
  | OpDeleteForInstallation inst => (DeleteForInstallation s inst).1
  | OpEnqueueEventSub m env now => (EnqueueEventSub s m env now).1
  | OpCompleteEventSub m at_ => (CompleteEventSub s m at_).1
  | OpMarkEventSubFailed m e at_ => (MarkEventSubFailed s m e at_).1
  | OpRetryEventSub m now => (RetryEventSub s m now).1
  | OpHasSeenEventSub m now ttl => (HasSeenEventSub s m now ttl).1
  | OpSeenEventSub m now ttl => (SeenEventSub s m now ttl).1
  | OpForgetEventSub m => (ForgetEventSub s m).1
  | OpSaveChannelState c title cat now => (SaveChannelState s c title cat now).1
  | OpUpdateChannelState c title cat now => (UpdateChannelState s c title cat now).1
  | OpCleanup now => (Cleanup now s).1
  end.

(** One operation, under any iteration order of the runtime. *)
Inductive step (s : t) : t → Prop :=
| step_exec (rt : GoRuntime) (o : op) : step s (exec s o).

Lemma updateChannelState_state s c title cat now :
  (UpdateChannelState s c title cat now).1 = (SaveChannelState s c title cat now).1.
Proof.
  unfold UpdateChannelState, ChannelStateChanges, SaveChannelState.
  case_bool_decide; [done|]. by destruct (ChannelStates s !! c).
Qed.

Lemma exec_wf {rt : GoRuntime} s o : wf s → wf (exec s o).
Proof.
  intros Hwf. destruct o; cbn [exec].
  - by apply enqueue_wf.
  - by apply markSent_wf.
  - by apply markFailed_wf.
  - by apply ackThrough_wf.
  - by apply ack_wf.
  - by apply deleteForInstallation_wf.
  - by apply enqueueEventSub_wf.
  - by apply completeEventSub_wf.
  - by apply markEventSubFailed_wf.
  - by apply retryEventSub_wf.
  - by apply cleanupSeen_wf.
  - by apply seenEventSub_wf.
  - by apply forgetEventSub_wf.
  - by apply saveChannelState_wf.
  - rewrite updateChannelState_state. by apply saveChannelState_wf.
  - by apply cleanup_wf.
Qed.

Lemma empty_wf : wf newMemoryDeliveryStore.
Proof. split_and!; try done; intros *; simpl; rewrite lookup_empty; done. Qed.

Lemma reachable_wf s : rtc step newMemoryDeliveryStore s → wf s.
Proof.
  intros Hs. pose proof empty_wf as Hwf.
  induction Hs as [|s1 s2 s3 [rt o] _ IH]; [done|]. apply IH. by apply exec_wf.
Qed.

(** ** Deliveries: theorems *)

Lemma cleanup_lookup {rt : GoRuntime} now s k :
  wf s → Records (cleanupLocked now s) !! k = Records s !! k ≫= cleanupDelivery now k.
Proof. intros Hwf. rewrite cleanup_sweep by done. simpl. apply range_update_lookup. Qed.

(** Making room keeps every record that is neither expired nor completed. *)
Lemma roomFor_keep {rt : GoRuntime} now s k r :
  wf s → Records s !! k = Some r → completed r = false → now < ExpiresAt r →
  Records (cleanupLocked now s) !! k = Some r ∧ Records (roomFor now s) !! k = Some r.
Proof.
  intros Hwf Hk Hc He.
  assert (Records (cleanupLocked now s) !! k = Some r) as Hclean.
  { rewrite cleanup_lookup, Hk by done. by apply cleanupDelivery_live. }
  split; [done|]. unfold roomFor. case_match; [|done].
  apply trimFinished_keep; [|done..]. apply records_keyed. by apply cleanup_wf.
Qed.

(** The invariant of the delivery store.  In every reachable state a
    delivery is filed under its own non-empty identifier, there is at most
    one delivery per installation and event, inbox messages are filed under
    their non-empty message identifier, and the three bounded maps respect
    their bounds, whatever order the runtime iterates maps in. *)
Theorem delivery_store_invariant (s : t) :
  rtc step newMemoryDeliveryStore s →
  map_Forall (λ k r, ID r = k ∧ k ≠ "" ∧ EventID r ≠ "" ∧ InstallationID r ≠ "") (Records s) ∧
  (∀ k k' r r', Records s !! k = Some r → Records s !! k' = Some r' →
     InstallationID r = InstallationID r' → EventID r = EventID r' → k = k') ∧
  map_Forall (λ k r, I.MessageID r = k ∧ k ≠ "") (EventSubInbox s) ∧
  mlen (Records s) ≤ 50000 ∧ mlen (EventSubInbox s) ≤ 100000 ∧ mlen (Seen s) ≤ 100000.
Proof.
  intros ((Hk & Hp & Hs) & (Hi & His) & Hseen & _)%reachable_wf. by split_and!.
Qed.

Definition example_delivery : delivery :=
  DeliveryRecord.zero <| ID := "d1" |> <| EventID := "e1" |> <| InstallationID := "phone" |>.

Definition example_store : t :=
  exec (rt:=reference_runtime) newMemoryDeliveryStore (OpEnqueue 1000 example_delivery).

Lemma example_store_reachable : rtc step newMemoryDeliveryStore example_store.
Proof. apply rtc_once. apply (step_exec _ reference_runtime). Qed.

Lemma delivery_store_invariant_witness :
  mlen (Records example_store) = 1 ∧ mlen (Records example_store) ≤ 50000.
Proof.
  split; [by vm_compute|].
  exact (proj1 (proj2 (proj2 (proj2
    (delivery_store_invariant example_store example_store_reachable))))).
Defined.

(** Enqueueing is idempotent.  A successful [Enqueue] leaves exactly one
    delivery for the installation and event, the one it returns: the new
    record with its defaults, or the one already queued; while that one is
    neither expired nor completed, enqueueing the pair again returns it and
    adds nothing. *)
Theorem enqueue_exactly_once (rt : GoRuntime) (s s' : t) now r e fresh :
  rtc step newMemoryDeliveryStore s →
  Enqueue now s r = (s', (e, fresh, None)) →
  InstallationID e = InstallationID r ∧ EventID e = EventID r ∧
  (fresh = true → e = withDefaults now r) ∧
  (∀ k e', Records s' !! k = Some e' ∧ InstallationID e' = InstallationID r ∧
           EventID e' = EventID r ↔ k = ID e ∧ e' = e) ∧
  (∀ now2 r2, InstallationID r2 = InstallationID r → EventID r2 = EventID r →
     completed e = false → now2 < ExpiresAt e →
     Enqueue now2 s' r2 = (cleanupLocked now2 s', (e, false, None))).
Proof.
  intros Hwf%reachable_wf Hen. pose proof (enqueue_wf now s r Hwf) as Hwf'. rewrite Hen in Hwf'.
  simpl in Hwf'. assert (Records s' !! ID e = Some e ∧ InstallationID e = InstallationID r ∧
    EventID e = EventID r ∧ (fresh = true → e = withDefaults now r)) as (He & Hi & Hv & Hf).
  { pose proof (cleanup_wf now s Hwf) as ((Hkeys & _) & _).
    pose proof (withDefaults_ident now r) as [= HdID HdEv HdIn].
    apply Enqueue_cases in Hen as [(k & e0 & Hk & Hi & Hv & -> & [= -> ->])|
      [Hnone [(-> & _ & [=])|[(-> & _ & [=])|(_ & _ & _ & _ & -> & [= -> ->])]]]].
    - by rewrite (proj1 (Hkeys _ _ Hk)).
    - simpl. by rewrite HdID, lookup_insert_eq. }
  split_and!; [done..| |].
  - intros k e'. split; [|by intros [-> ->]]. intros (Hk & Hi' & Hv').
    destruct Hwf' as ((_ & Hpair & _) & _).
    assert (k = ID e) as -> by (eapply Hpair; [done|exact He|congruence..]). by simplify_eq.
  - intros now2 r2 Hi2 Hv2 Hc Hx. destruct (Enqueue now2 s' r2) as [s2 out] eqn:Hen2.
    destruct (roomFor_keep now2 s' _ _ Hwf' He Hc Hx) as [Hkeep _].
    apply Enqueue_cases in Hen2 as [(k & e2 & Hk & Hi' & Hv' & -> & ->)|[Hnone _]].
    + destruct (cleanup_wf now2 s' Hwf') as ((_ & Hpair & _) & _).
      assert (k = ID e) as -> by (eapply Hpair; [done|exact Hkeep|congruence..]).
      by simplify_eq.
    + destruct (Hnone _ _ Hkeep); congruence.
Qed.

Lemma enqueue_exactly_once_witness :
  Enqueue (rt:=reference_runtime) 2000 example_store (example_delivery <| ID := "d2" |>) =
    (cleanupLocked (rt:=reference_runtime) 2000 example_store,
     (withDefaults 1000 example_delivery, false, None)).
Proof.
  apply (enqueue_exactly_once reference_runtime newMemoryDeliveryStore example_store 1000
    example_delivery (withDefaults 1000 example_delivery) true);
    [apply rtc_refl|vm_compute; reflexivity..].
Defined.

(** No undelivered notification is lost to make room.  [Enqueue] keeps
    unchanged every delivery that is neither acknowledged, dead nor expired
    (and whose identifier it was not given), and it reports a full queue only
    when all [MaxDeliveryRecords] places hold deliveries still to be made. *)
Theorem enqueue_keeps_undelivered (rt : GoRuntime) (s : t) now r :
  rtc step newMemoryDeliveryStore s →
  (∀ k e, Records s !! k = Some e → completed e = false → now < ExpiresAt e → k ≠ ID r →
     Records (Enqueue now s r).1 !! k = Some e) ∧
  ((Enqueue now s r).2.2 = Some (ErrMsg "delivery queue is full") →
     mlen (Records (Enqueue now s r).1) = MaxDeliveryRecords ∧
     ∀ k e, Records (Enqueue now s r).1 !! k = Some e → completed e = false).
Proof.
  intros Hwf%reachable_wf. destruct (Enqueue now s r) as [s' out] eqn:Hen. simpl.
  apply Enqueue_cases in Hen. split.
  - intros k e Hk Hc He Hne. destruct (roomFor_keep now s k e Hwf Hk Hc He) as [H1 H2].
    destruct Hen as [(? & ? & _ & _ & _ & -> & _)|[_ [(-> & _)|[(-> & _)|(_ & _ & _ & _ & -> & _)]]]];
      [done..|]. simpl. by rewrite lookup_insert_ne.
  - intros Hout. destruct Hen as [(? & ? & _ & _ & _ & _ & ->)|
      [_ [(_ & _ & ->)|[(-> & Hfull & _)|(_ & _ & _ & _ & _ & ->)]]]]; [done..| |done].
    destruct (roomFor_wf now s Hwf) as ((Hkeys & _ & Hsize) & _). split; [lia|].
    intros k e. revert Hfull. unfold roomFor.
    destruct (Z.leb_spec MaxDeliveryRecords (mlen (Records (cleanupLocked now s)))); [|lia].
    intros Hfull. apply trimFinished_full; [|simpl in Hfull; lia].
    apply records_keyed. by apply cleanup_wf.
Qed.

Lemma enqueue_keeps_undelivered_witness :
  Records (Enqueue (rt:=reference_runtime) 2000 example_store
             (example_delivery <| ID := "d2" |> <| EventID := "e2" |>)).1 !! "d1" =
    Some (withDefaults 1000 example_delivery).
Proof.
  apply (enqueue_keeps_undelivered reference_runtime example_store 2000
    (example_delivery <| ID := "d2" |> <| EventID := "e2" |>) example_store_reachable);
    [vm_compute; reflexivity..|discriminate].
Defined.

(** *** The oldest entries, in order *)

Section Oldest.
Context {V : Type} (key : V → string) (stamp : V → time) (p : V → bool).
Implicit Types (m : gmap string V).

(** The shape of both pending lists. *)
Definition oldest {rt : GoRuntime} (limit : Z) m : list V :=
  let result := range_collect p m in
  let result := sortSlice (lex_less stamp key) result in
  if limit <? Z.of_nat (length result) then take (Z.to_nat limit) result else result.

Lemma keyed_inj m v v' k k' :
  keyed key m → m !! k = Some v → m !! k' = Some v' → key v = key v' → v = v'.
Proof. intros Hkey Hk Hk'. rewrite (Hkey _ _ Hk), (Hkey _ _ Hk'). intros ->. by simplify_eq. Qed.

Lemma collect_tie {rt : GoRuntime} m v v' :
  keyed key m → v ∈ range_collect p m → v' ∈ range_collect p m →
  lex_less stamp key v v' = false → lex_less stamp key v' v = false → v = v'.
Proof.
  intros Hkey (k & Hk & _)%elem_of_range_collect (k' & Hk' & _)%elem_of_range_collect H1 H2.
  apply (keyed_inj m v v' k k' Hkey Hk Hk'). by eapply lex_less_tie.
Qed.

Lemma oldest_deterministic (rt1 rt2 : GoRuntime) limit m :
  keyed key m → @oldest rt1 limit m = @oldest rt2 limit m.
Proof.
  intros Hkey. unfold oldest.
  rewrite (sortSlice_deterministic (lex_less stamp key) rt1 rt2 _
    (@range_collect rt2 V p m)); [done| |by apply range_collect_perm].
  intros v v' Hv Hv'. by apply (collect_tie (rt:=rt1) m v v').
Qed.

Lemma NoDup_range_collect {rt : GoRuntime} m : keyed key m → NoDup (range_collect p m).
Proof.
  intros Hkey. unfold range_collect. apply (NoDup_fmap_1 key).
  apply NoDup_fmap_filter.
  assert ((λ kv, key kv.2) <$> rangeMap m = (rangeMap m).*1) as Heq.
  { apply list_fmap_ext. intros i [k v] Hi. simpl. apply (Hkey k v), elem_of_rangeMap.
    by eapply list_elem_of_lookup_2. }
  rewrite <-list_fmap_compose. change (key ∘ snd) with (λ kv : string * V, key kv.2).
  rewrite Heq. apply NoDup_rangeMap.
Qed.

Lemma all_sorted {rt : GoRuntime} m :
  keyed key m →
  StronglySorted (λ x y, lex_less stamp key x y = true)
    (sortSlice (lex_less stamp key) (range_collect p m)).
Proof.
  intros Hkey. apply sorted_strict.
  - rewrite sortSlice_perm. by apply NoDup_range_collect.
  - apply sortSlice_sorted, _.
  - intros v v'. rewrite !sortSlice_perm. intros Hv Hv'. by apply (collect_tie m v v').
Qed.

Lemma oldest_spec {rt : GoRuntime} limit m :
  keyed key m → 0 < limit →
  StronglySorted (λ x y, lex_less stamp key x y = true) (oldest limit m) ∧
  (∀ v, v ∈ oldest limit m → m !! key v = Some v ∧ p v = true) ∧
  Z.of_nat (length (oldest limit m)) ≤ limit ∧
  (∀ k v, m !! k = Some v → p v = true → v ∈ oldest limit m ∨
     Z.of_nat (length (oldest limit m)) = limit ∧
     Forall (λ x, lex_less stamp key x v = true) (oldest limit m)).
Proof.
  intros Hkey Hlim. pose proof (all_sorted m Hkey) as Hs. unfold oldest.
  set (l := sortSlice (lex_less stamp key) (range_collect p m)) in *.
  assert (∀ v, v ∈ l ↔ ∃ k, m !! k = Some v ∧ p v = true) as Hin.
  { intros v. unfold l. by rewrite sortSlice_perm, elem_of_range_collect. }
  assert (∃ l1 l2, l = l1 ++ l2 ∧
    (if limit <? Z.of_nat (length l) then take (Z.to_nat limit) l else l) = l1 ∧
    Z.of_nat (length l1) ≤ limit ∧ (l2 = [] ∨ Z.of_nat (length l1) = limit))
    as (l1 & l2 & Hl & -> & Hlen & Hend).
  { destruct (Z.ltb_spec limit (Z.of_nat (length l))).
    - exists (take (Z.to_nat limit) l), (drop (Z.to_nat limit) l).
      rewrite take_drop, length_take. split_and!; [done..|lia|right; lia].
    - exists l, []. rewrite (right_id_L [] (++)). auto. }
  rewrite Hl in Hs. clearbody l. subst l. split_and!.
  - by eapply StronglySorted_app_1_l.
  - intros v Hv. destruct (proj1 (Hin v)) as (k & Hk & Hp); [by apply elem_of_app; left|].
    by rewrite (Hkey _ _ Hk).
  - done.
  - intros k v Hk Hp. assert (v ∈ l1 ++ l2) as [?|Hv]%elem_of_app; [by apply Hin; eauto|by left|].
    destruct Hend as [->|Hend]; [by apply elem_of_nil in Hv|]. right. split; [done|].
    apply Forall_forall. intros x Hx.
    apply (StronglySorted_app_1_elem_of _ _ _ _ _ Hs Hx Hv).
Qed.
End Oldest.

Lemma eligible_spec inst now r :
  eligible inst now r = true ↔
  InstallationID r = inst ∧ completed r = false ∧ AvailableAt r ≤ now < ExpiresAt r.
Proof.
  unfold eligible, completed, Before.
  rewrite andb_true_iff, !negb_true_iff, !orb_false_iff, !negb_false_iff.
  rewrite bool_decide_eq_true, Z.ltb_ge, Z.ltb_lt. tauto.
Qed.

Lemma pending_is_oldest {rt : GoRuntime} s inst limit now :
  PendingForInstallation s inst limit now =
    oldest ID CreatedAt (eligible inst now) (if limit <=? 0 then 100 else limit) (Records s).
Proof. reflexivity. Qed.

(** The pending list.  In a reachable state [PendingForInstallation]
    returns, whatever the runtime's iteration order, the oldest deliveries
    of the installation that are due and neither acknowledged, dead nor
    expired, strictly ordered by creation time and identifier, at most
    [limit] of them (100 by default); one that is left out is younger than
    all that are returned, and then the list is full. *)
Theorem pending_oldest_first (rt : GoRuntime) (s : t) inst limit now :
  rtc step newMemoryDeliveryStore s →
  let l := PendingForInstallation s inst limit now in
  let cap := if limit <=? 0 then 100 else limit in
  let due := λ r, InstallationID r = inst ∧ completed r = false ∧
                  AvailableAt r ≤ now < ExpiresAt r in
  (∀ rt', @PendingForInstallation rt' s inst limit now = l) ∧
  StronglySorted (λ x y, lex_less CreatedAt ID x y = true) l ∧
  (∀ r, r ∈ l → Records s !! ID r = Some r ∧ due r) ∧
  Z.of_nat (length l) ≤ cap ∧
  (∀ k r, Records s !! k = Some r → due r → r ∈ l ∨
     Z.of_nat (length l) = cap ∧ Forall (λ x, lex_less CreatedAt ID x r = true) l).
Proof.
  intros ((Hwf & _) & _)%reachable_wf l cap due.
  assert (keyed ID (Records s)) as Hkey by (intros k r Hr; by apply (Hwf k r Hr)).
  destruct (oldest_spec ID CreatedAt (eligible inst now) cap (Records s) Hkey)
    as (Hs & Hin & Hlen & Hout).
  { unfold cap. destruct (Z.leb_spec limit 0); lia. }
  subst l. setoid_rewrite pending_is_oldest. fold cap. split_and!; [|done| |done|].
  - intros rt'. by apply (oldest_deterministic ID CreatedAt (eligible inst now)).
  - intros r [Hr He]%Hin. split; [done|]. by apply eligible_spec.
  - intros k r Hk Hdue. eapply Hout; [done|]. by apply eligible_spec.
Qed.

Lemma pending_oldest_first_witness :
  PendingForInstallation (rt:=reference_runtime) example_store "phone" 10 2000 =
    [withDefaults 1000 example_delivery] ∧
  ∀ rt', @PendingForInstallation rt' example_store "phone" 10 2000 =
         PendingForInstallation (rt:=reference_runtime) example_store "phone" 10 2000.
Proof.
  split; [by vm_compute|].
  exact (proj1 (pending_oldest_first reference_runtime example_store "phone" 10 2000
    example_store_reachable)).
Defined.

(** *** Retries *)

Lemma retryDelay_eq attempt : retryDelay attempt = 2 ^ (Z.min (Z.max attempt 1) 7 - 1) * Second.
Proof.
  unfold retryDelay, minInt. rewrite Z.shiftl_1_l. do 2 f_equal.
  destruct (Z.ltb_spec attempt 1) as [H|H].
  - replace (Z.min (Z.max attempt 1) 7) with 1 by lia. done.
  - destruct (Z.ltb_spec (attempt - 1) 6); lia.
Qed.

Lemma retryDelay_bounds attempt : Second ≤ retryDelay attempt ≤ 64 * Second.
Proof.
  rewrite retryDelay_eq. set (k := Z.min (Z.max attempt 1) 7 - 1).
  assert (2 ^ 0 ≤ 2 ^ k ≤ 2 ^ 6) by (split; apply Z.pow_le_mono_r; unfold k; lia).
  unfold Second. lia.
Qed.

(** C40: the retry schedule.  A delivery that fails repeatedly before it
    expires stays pending for the first seven failures, available again
    after 1, 2, 4, ..., 64 seconds, and is dead from the eighth on; the
    attempts are counted and the last error kept. *)
Theorem failure_schedule (s : t) id r failure times last_time :
  let all := times ++ [last_time] in
  let s' := foldl (λ s at_, (MarkFailed s id failure at_).1) s all in
  let n := Z.of_nat (length all) in
  Records s !! id = Some r → AttemptCount r = 0 →
  Forall (λ at_, at_ < ExpiresAt r) all → n ≤ max_int64 →
  ∃ r', Records s' !! id = Some r' ∧ ident r' = ident r ∧ ExpiresAt r' = ExpiresAt r ∧
    AttemptCount r' = n ∧ LastError r' = Error failure ∧
    Status r' = (if n <? 8 then DeliveryStatusPending else DeliveryStatusDead) ∧
    (n < 8 → AvailableAt r' = last_time + 2 ^ (n - 1) * Second).
Proof.
  revert last_time. induction times as [|at0 times IH] using rev_ind;
    intros last_time all s' n Hr Hc Hexp Hn.
  - subst s' n all. simpl in *. pose proof (Forall_inv Hexp) as Hlt. simpl in Hlt. unfold MarkFailed. rewrite Hr. simpl. rewrite Hc. unfold Before.
    apply Z.ltb_lt in Hlt as ->. simpl. rewrite lookup_insert_eq. eexists. split; [done|].
    simpl. split_and!; try done.
  - subst all s'. apply Forall_app in Hexp as [Hexp Hlast].
    apply Forall_inv in Hlast.
    destruct (IH at0 Hr Hc Hexp) as (r1 & H1 & Hid & Hx & Hcount & _).
    { subst n. rewrite length_app in Hn. lia. }
    rewrite foldl_app. simpl. unfold MarkFailed at 1. rewrite H1. simpl.
    rewrite Hcount, lookup_insert_eq. unfold Before. rewrite Hx. apply Z.ltb_lt in Hlast as ->.
    rewrite int64_wrap_id by (subst n; rewrite length_app in Hn; unfold min_int64 in *; simpl in *; lia).
    replace (Z.of_nat (length (times ++ [at0])) + 1) with n
      by (subst n; rewrite (length_app (times ++ [at0])); simpl; lia).
    eexists. split; [done|]. rewrite orb_false_r.
    destruct (Z.leb_spec 8 n), (Z.ltb_spec n 8); try lia; simpl; split_and!; try done.
    { lia. }
    intros _. rewrite retryDelay_eq. unfold Add. do 3 f_equal.
    assert (1 ≤ n) by (subst n; rewrite length_app; simpl; lia). lia.
Qed.

Lemma failure_schedule_witness :
  ∃ r', Records (foldl (λ s at_, (MarkFailed s "d1" (ErrMsg "boom") at_).1) example_store
                   ([2000; 3000] ++ [4000])) !! "d1" = Some r' ∧
        Status r' = DeliveryStatusPending ∧ AvailableAt r' = 4000 + 4 * Second.
Proof.
  destruct (failure_schedule example_store "d1" (withDefaults 1000 example_delivery) (ErrMsg "boom")
    [2000; 3000] 4000) as (r' & Hr & _ & _ & _ & _ & Hst & Hav).
  - by vm_compute.
  - by vm_compute.
  - repeat constructor.
  - by vm_compute.
  - exists r'. split; [exact Hr|]. split; [exact Hst|]. rewrite Hav by done. by vm_compute.
Defined.

(** *** Acknowledgements *)

Lemma complete_records {rt : GoRuntime} s m at_ :
  Records (CompleteEventSub s m at_).1 = Records s.
Proof.
  unfold CompleteEventSub. destruct (EventSubInbox s !! m) as [r|]; [|by case_match].
  exact (proj1 (addSeen_other m at_ (s <| EventSubInbox := delete m (EventSubInbox s) |>))).
Qed.

Lemma seen_records {rt : GoRuntime} s m now ttl : Records (SeenEventSub s m now ttl).1 = Records s.
Proof.
  unfold SeenEventSub. case_match; [done|].
  exact (proj1 (addSeen_other m now (cleanupSeenLocked now ttl s))).
Qed.

(** Whether an operation records an attempt on the delivery [k]. *)
Definition marks (k : string) (o : op) : Prop :=
  match o with OpMarkSent id _ | OpMarkFailed id _ _ => id = k | _ => False end.

(** A record that was there with the same identity, and is still acknowledged
    if it was, unless the operation marks it. *)
Definition descends (s : t) (o : op) (k : string) (r' : delivery) : Prop :=
  ∃ r, Records s !! k = Some r ∧ ident r' = ident r ∧
    (Status r = DeliveryStatusAcked → Status r' = DeliveryStatusAcked ∨ marks k o).

Lemma descends_same s o k r' : Records s !! k = Some r' → descends s o k r'.
Proof. intros H. exists r'. auto. Qed.

Lemma descends_cleanup {rt : GoRuntime} s o k r' now :
  wf s → Records (cleanupLocked now s) !! k = Some r' → descends s o k r'.
Proof.
  intros Hwf. rewrite cleanup_lookup by done. intros (r & Hr & Hc)%bind_Some. exists r. split; [done|].
  destruct (cleanupDelivery_Some _ _ _ _ Hc) as [->|(-> & _ & Hne)]; split; [done|by left|done|done].
Qed.

(** A loop that changes neither identities nor acknowledgements. *)
Lemma descends_update {rt : GoRuntime} s o k r' (f : string → delivery → option delivery) :
  (∀ k r r', f k r = Some r' → ident r' = ident r ∧ (Status r = DeliveryStatusAcked → Status r' = DeliveryStatusAcked)) →
  range_update f (Records s) !! k = Some r' → descends s o k r'.
Proof.
  intros Hf. rewrite range_update_lookup. intros (r & Hr & [Hid Hst]%Hf)%bind_Some.
  exists r. split_and!; [done..|]. intros Ha. left. by apply Hst.
Qed.

(** Where a record comes from: it descends from one, or was enqueued. *)
Lemma record_origin {rt : GoRuntime} s o k r' :
  wf s → Records (exec s o) !! k = Some r' →
  descends s o k r' ∨ (∃ now r, o = OpEnqueue now r ∧ r' = withDefaults now r).
Proof.
  intros Hwf. pose proof (descends_same s o) as Hsame. pose proof (λ k r' now, descends_cleanup s o k r' now Hwf) as Hclean.
  destruct o; cbn [exec]; intros H.
  - destruct (Enqueue now s record) as [s' out] eqn:Hen. simpl in H.
    apply Enqueue_cases in Hen as
      [(? & ? & _ & _ & _ & -> & _)|[_ [(-> & _)|[(-> & _)|(_ & _ & _ & _ & -> & _)]]]];
      [left; eauto..| |].
    + left. eapply Hclean, roomFor_sub, H.
    + simpl in H. apply lookup_insert_Some in H as [[<- <-]|[_ H]]; [right; eauto|].
      left. eapply Hclean, roomFor_sub, H.
  - left. unfold MarkSent in H. destruct (Records s !! id) as [r|] eqn:Hid; simpl in H; [|eauto].
    apply lookup_insert_Some in H as [[<- <-]|[_ H]]; [|eauto]. exists r. simpl. auto.
  - left. unfold MarkFailed in H. destruct (Records s !! id) as [r|] eqn:Hid; simpl in H; [|eauto].
    apply lookup_insert_Some in H as [[<- <-]|[_ H]]; [|eauto]. exists r. simpl.
    split; [done|]. by destruct (_ || _); auto.
  - left. unfold AckThrough in H. destruct (IsZero _); simpl in H; [eauto|].
    eapply descends_update; [|exact H]. intros k0 r r0. cbn beta. destruct (_ || _); by intros [= <-].
  - left. unfold Ack in H.
    apply (descends_update _ _ _ _ (λ id record, if samePair installationID eventID id record
      then Some (acknowledge ackedAt record) else Some record)); [|by destruct (negb _)].
    intros k0 r r0. destruct (samePair _ _ _ _); by intros [= <-].
  - left. unfold DeleteForInstallation in H.
    destruct (range_delete_count_spec (λ _ r, InstallationID r == installationID) (Records s)) as [Hd _].
    destruct (range_delete_count _ _) as [m n]. simpl in Hd. subst m.
    assert (range_delete (λ _ r, InstallationID r == installationID) (Records s) !! k = Some r') as H'
      by (by destruct (n =? 0)).
    apply range_delete_Some in H' as [H' _]. eauto.
  - left. unfold EnqueueEventSub in H. repeat (case_match; simpl in H; eauto).
  - left. rewrite complete_records in H. eauto.
  - left. unfold MarkEventSubFailed in H. case_match; eauto.
  - left. unfold RetryEventSub in H. case_match; eauto.
  - eauto.
  - left. rewrite seen_records in H. eauto.
  - eauto.
  - left. unfold SaveChannelState in H. case_match; eauto.
  - left. rewrite updateChannelState_state in H. unfold SaveChannelState in H. case_match; eauto.
  - left. eapply Hclean, H.
Qed.

(** Operations that do not send, fail or enqueue the delivery again. *)
Definition leaves_alone (id inst ev : string) (o : op) : Prop :=
  match o with
  | OpEnqueue _ r => ¬ (InstallationID r = inst ∧ EventID r = ev)
  | OpMarkSent id' _ | OpMarkFailed id' _ _ => id' ≠ id
  | _ => True
  end.

(** All deliveries of the pair are filed under [id] and acknowledged. *)
Definition all_acked (id inst ev : string) (s : t) : Prop :=
  ∀ k r, Records s !! k = Some r → InstallationID r = inst → EventID r = ev →
    k = id ∧ Status r = DeliveryStatusAcked.

Lemma all_acked_exec {rt : GoRuntime} id inst ev s o :
  wf s → leaves_alone id inst ev o → all_acked id inst ev s → all_acked id inst ev (exec s o).
Proof.
  intros Hwf Ho Hall k r' Hr' Hi He.
  destruct (record_origin s o k r' Hwf Hr') as [(r & Hr & [= _ Hev Hin] & Hst)|(now & r & -> & ->)].
  - destruct (Hall k r Hr) as [-> Ha]; [congruence..|]. split; [done|].
    destruct (Hst Ha) as [?|Hm]; [done|]. by destruct o.
  - pose proof (withDefaults_ident now r) as [= _ H1 H2]. destruct Ho. by rewrite <-H1, <-H2.
Qed.

Lemma Ack_ok (rt : GoRuntime) s inst ev at_ s1 :
  wf s → Ack s inst ev at_ = (s1, None) →
  ∃ id r, Records s !! id = Some r ∧ InstallationID r = inst ∧ EventID r = ev ∧
    Records s1 !! id = Some (acknowledge at_ r) ∧ all_acked id inst ev s1.
Proof.
  intros ((_ & Hpair & _) & _). unfold Ack.
  destruct (range_exists _ _) eqn:Hex; simpl; [|done]. intros [= <-].
  apply range_exists_true in Hex as (id & r & Hr & Hp). pose proof Hp as Hp'.
  apply andb_prop in Hp' as [Hi%bool_decide_eq_true He%bool_decide_eq_true].
  exists id, r. split_and!; try done; simpl.
  { rewrite range_update_lookup, Hr. simpl. by rewrite Hp. }
  intros k r'. simpl. rewrite range_update_lookup. intros (r0 & Hr0 & Hf)%bind_Some.
  destruct (samePair inst ev k r0) eqn:Hp0; injection Hf as <-; intros Hi' He'.
  - split; [|done]. eapply Hpair; [exact Hr0|exact Hr|simpl in *; congruence..].
  - unfold samePair in Hp0. by rewrite !bool_decide_true in Hp0.
Qed.

(** Operations one after the other, each under its own iteration order. *)
Definition execAll (s : t) (ops : list (GoRuntime * op)) : t :=
  foldl (λ s '(rt, o), exec s o) s ops.

Lemma execAll_wf s ops : wf s → wf (execAll s ops).
Proof.
  revert s. induction ops as [|[rt o] ops IH]; intros s Hwf; [done|].
  simpl. by apply IH, exec_wf.
Qed.

(** Acknowledgement is final.  After a successful [Ack] the delivery is
    never handed out as pending again, whatever operations follow, as long
    as none of them records an attempt on it or enqueues the same event
    anew. *)
Theorem acked_not_redelivered (rt : GoRuntime) (s s1 : t) inst ev ackedAt :
  rtc step newMemoryDeliveryStore s →
  Ack s inst ev ackedAt = (s1, None) →
  ∃ id, (∃ r, Records s !! id = Some r ∧ InstallationID r = inst ∧ EventID r = ev) ∧
    ∀ ops, Forall (λ x, leaves_alone id inst ev x.2) ops →
      ∀ limit now r, r ∈ PendingForInstallation (execAll s1 ops) inst limit now → EventID r ≠ ev.
Proof.
  intros Hreach Hack. pose proof (reachable_wf s Hreach) as Hwf.
  assert (wf s1) as Hwf1 by (replace s1 with (Ack s inst ev ackedAt).1 by (by rewrite Hack); by apply ack_wf).
  destruct (Ack_ok rt s inst ev ackedAt s1 Hwf Hack) as (id & r & Hr & Hi & He & _ & Hall).
  exists id. split; [eauto|]. intros ops Hops limit now r' Hin Hev.
  assert (wf (execAll s1 ops) ∧ all_acked id inst ev (execAll s1 ops)) as [Hwf2 Hall2].
  { clear -Hwf1 Hall Hops. revert s1 Hwf1 Hall.
    induction Hops as [|[rt' o] ops Ho _ IH]; intros s1 Hwf1 Hall; [done|]. simpl.
    apply IH; [by apply exec_wf|by apply all_acked_exec]. }
  destruct Hwf2 as (Hrec & _). rewrite pending_is_oldest in Hin.
  apply oldest_spec in Hin as [Hin Hel]; [|by apply records_keyed|by destruct (Z.leb_spec limit 0); lia].
  apply eligible_spec in Hel as (Hi' & Hc & _).
  destruct (Hall2 _ _ Hin Hi' Hev) as [_ Hst]. unfold completed in Hc.
  by rewrite Hst in Hc.
Qed.

Lemma acked_not_redelivered_witness :
  PendingForInstallation (rt:=reference_runtime) example_store "phone" 100 5000 =
    [withDefaults 1000 example_delivery] ∧
  ∀ limit now r,
    r ∈ PendingForInstallation (rt:=reference_runtime)
          (execAll (Ack (rt:=reference_runtime) example_store "phone" "e1" 5000).1
             [(reference_runtime, OpCleanup 6000)]) "phone" limit now → EventID r ≠ "e1".
Proof.
  split; [vm_compute; reflexivity|].
  destruct (acked_not_redelivered reference_runtime example_store
    (Ack (rt:=reference_runtime) example_store "phone" "e1" 5000).1 "phone" "e1" 5000
    example_store_reachable) as (id & _ & Hall).
  - vm_compute. reflexivity.
  - apply Hall. repeat constructor.
Defined.

(** The acknowledgement race.  Recording a send after the
    acknowledgement of the same delivery puts it back in the queue: from its
    retry time until it expires it is pending again. *)
Theorem mark_sent_revives_acked (rt : GoRuntime) (s s1 : t) inst ev ackedAt :
  rtc step newMemoryDeliveryStore s →
  Ack s inst ev ackedAt = (s1, None) →
  ∃ id r, Records s !! id = Some r ∧
    ∀ sentAt now, sentAt + 64 * Second ≤ now < ExpiresAt r →
      ∃ r', Records (MarkSent s1 id sentAt).1 !! id = Some r' ∧ EventID r' = ev ∧
            eligible inst now r' = true.
Proof.
  intros Hwf%reachable_wf Hack.
  destruct (Ack_ok rt s inst ev ackedAt s1 Hwf Hack) as (id & r & Hr & Hi & He & Hr1 & _).
  exists id, r. split; [done|]. intros sentAt now Hnow. unfold MarkSent. rewrite Hr1. simpl.
  rewrite lookup_insert_eq. eexists. split; [done|]. split; [done|].
  apply eligible_spec. simpl. split; [done|]. split; [done|]. unfold Add.
  pose proof (retryDelay_bounds (int64_wrap (AttemptCount r + 1))). lia.
Qed.

Lemma mark_sent_revives_acked_witness :
  ∃ r', Records (MarkSent (Ack (rt:=reference_runtime) example_store "phone" "e1" 5000).1
                   "d1" 6000).1 !! "d1" = Some r' ∧ eligible "phone" Hour r' = true.
Proof.
  destruct (mark_sent_revives_acked reference_runtime example_store
    (Ack (rt:=reference_runtime) example_store "phone" "e1" 5000).1 "phone" "e1" 5000
    example_store_reachable) as (id & r & Hr & Hall); [vm_compute; reflexivity|].
  assert (id = "d1" ∧ r = withDefaults 1000 example_delivery) as [-> ->].
  { change (Records example_store) with
      (<["d1" := withDefaults 1000 example_delivery]> (∅ : gmap string delivery)) in Hr.
    apply lookup_insert_Some in Hr as [[<- <-]|[_ Hr]]; [done|]. by rewrite lookup_empty in Hr. }
  destruct (Hall 6000 Hour) as (r' & Hr' & _ & Hel); [vm_compute; split; congruence|]. eauto.
Defined.

End DeliveryProofs.
