(* ===== verification/InboxProofs.v ===== *)
(** * EventSub inbox and channel states: theorems

    The inbox side of [DeliveryStore.v]: a processed message is not accepted
    again within a day, no unprocessed message is lost to make room, the
    pending list is the oldest messages due, and channel changes are
    reported against the last saved state. *)

From S2P Require Import Prelude GoStrings Credentials Domain DeliveryStore DeliveryProofs.

Module InboxProofs.
Import DeliveryStore DeliveryProofs.

(** ** De-duplication *)

(** The message was processed at [at_] and is not queued. *)
Definition processed (m : string) (at_ : time) (s : t) : Prop :=
  Seen s !! m = Some at_ ∧ EventSubInbox s !! m = None.

(** The operations of a backend whose clock stays within a day of [at_]:
    every expiry of processed messages uses the one-day window, and nothing
    forgets the message. *)
Definition within_day (m : string) (at_ : time) (o : op) : Prop :=
  match o with
  | OpEnqueue now _ | OpEnqueueEventSub _ _ now | OpCleanup now => now - at_ ≤ 24 * Hour
  | OpHasSeenEventSub _ now ttl | OpSeenEventSub _ now ttl =>
      ttl = 24 * Hour ∧ now - at_ ≤ 24 * Hour
  | OpForgetEventSub m' => m' ≠ m
  | _ => True
  end.

Section Dedup.
Context {rt : GoRuntime} (m : string) (at_ : time).

Lemma cleanupSeen_processed now s :
  now - at_ ≤ 24 * Hour → processed m at_ s → processed m at_ (cleanupSeenLocked now (24 * Hour) s).
Proof.
  intros Hnow [Hs Hi]. split; [|done]. simpl. apply range_delete_Some. split; [done|].
  rewrite Sub_gt; [lia|]. unfold min_int64, max_int64, Hour, Minute, Second. lia.
Qed.

Lemma addSeen_processed m' now s :
  m' ≠ m → mlen (Seen s) < MaxSeenEventRecords → processed m at_ s →
  processed m at_ (addSeenEventSubLocked m' now s).
Proof.
  intros Hne Hlt [Hs Hi]. destruct (addSeen_other m' now s) as (_ & Hin & _).
  split; [|by rewrite Hin]. unfold addSeenEventSubLocked.
  destruct (Z.leb_spec MaxSeenEventRecords (mlen (Seen s))); [lia|]. simpl.
  by rewrite lookup_insert_ne.
Qed.

Lemma cleanupSeen_mlen now ttl s : mlen (Seen (cleanupSeenLocked now ttl s)) ≤ mlen (Seen s).
Proof. apply mlen_sub, range_delete_subseteq. Qed.

Lemma addSeen_mlen m' now s :
  mlen (Seen (addSeenEventSubLocked m' now s)) ≤ mlen (Seen s) + 1.
Proof.
  unfold addSeenEventSubLocked. case_match; [destruct (range_oldest _ _)|]; simpl.
  - etrans; [apply mlen_insert_le|]. apply Zplus_le_compat_r, mlen_sub, delete_subseteq.
  - apply mlen_insert_le.
Qed.

(** [Enqueue] touches the other maps only through the sweep. *)
Lemma enqueue_frame now s r :
  wf s → Seen (Enqueue now s r).1 = Seen (sweepLocked now s) ∧
         EventSubInbox (Enqueue now s r).1 = EventSubInbox (sweepLocked now s).
Proof.
  intros Hwf. destruct (Enqueue now s r) as [s' out] eqn:Hen. cbn [fst].
  rewrite <-cleanup_sweep by done.
  assert (Seen (roomFor now s) = Seen (cleanupLocked now s) ∧
    EventSubInbox (roomFor now s) = EventSubInbox (cleanupLocked now s)) as Hroom.
  { unfold roomFor. by case_match. }
  by apply Enqueue_cases in Hen as
    [(? & ? & _ & _ & _ & -> & _)|[_ [(-> & _)|[(-> & _)|(_ & _ & _ & _ & -> & _)]]]].
Qed.

Lemma sweep_processed now s :
  now - at_ ≤ 24 * Hour → processed m at_ s → processed m at_ (sweepLocked now s).
Proof.
  intros Hnow [Hs Hi]. apply cleanupSeen_processed; [done|]. split; [done|]. simpl.
  by rewrite range_update_lookup, Hi.
Qed.

Lemma deliveries_frame s o :
  match o with
  | OpMarkSent _ _ | OpMarkFailed _ _ _ | OpAckThrough _ _ _ | OpAck _ _ _
  | OpDeleteForInstallation _ | OpSaveChannelState _ _ _ _ | OpUpdateChannelState _ _ _ _ =>
      Seen (exec s o) = Seen s ∧ EventSubInbox (exec s o) = EventSubInbox s
  | _ => True
  end.
Proof.
  destruct o; try done; cbn [exec].
  - unfold MarkSent. by case_match.
  - unfold MarkFailed. by case_match.
  - unfold AckThrough. by destruct (IsZero _).
  - unfold Ack. by destruct (negb _).
  - unfold DeleteForInstallation. destruct (range_delete_count _ _). by case_match.
  - unfold SaveChannelState. by case_match.
  - rewrite updateChannelState_state. unfold SaveChannelState. by case_match.
Qed.

Lemma enqueueEventSub_processed s m' env now :
  now - at_ ≤ 24 * Hour → processed m at_ s → processed m at_ (EnqueueEventSub s m' env now).1.
Proof.
  intros Hnow Hp. unfold EnqueueEventSub. case_bool_decide; [done|].
  apply (cleanupSeen_processed now) in Hp; [|done].
  set (s1 := cleanupSeenLocked now (24 * Hour) s) in *. clearbody s1.
  destruct (Seen s1 !! TrimSpace m') eqn:Hseen; [done|].
  assert (TrimSpace m' ≠ m) as Hne by (intros <-; destruct Hp; congruence).
  destruct (EventSubInbox s1 !! TrimSpace m'); [done|]. destruct Hp as [Hs Hi].
  assert (∀ limit, processed m at_ (trimDeadEventSubInboxLocked limit s1)) as Htrim.
  { intros limit. split; [done|]. simpl.
    destruct (trimFinished _ _ _ _ _ !! m) eqn:Ht; [|done].
    apply trimFinished_sub in Ht. congruence. }
  assert (processed m at_ (if MaxEventSubInboxRecords <=? mlen (EventSubInbox s1)
    then trimDeadEventSubInboxLocked (MaxEventSubInboxRecords - 1) s1 else s1)) as [Hs2 Hi2]
    by (case_match; [apply Htrim|done]).
  set (s2 := if _ <=? _ then _ else s1) in *. clearbody s2.
  case_match; [done|]. split; [done|]. simpl. by rewrite lookup_insert_ne.
Qed.

Lemma exec_processed s o :
  wf s → within_day m at_ o → mlen (Seen s) < MaxSeenEventRecords →
  processed m at_ s → processed m at_ (exec s o).
Proof.
  intros Hwf Ho Hlt Hp. pose proof (deliveries_frame s o) as Hframe.
  pose proof (cleanupSeen_processed) as Hseen.
  destruct o; cbn [exec] in *; simpl in Ho;
    lazymatch type of Hframe with
    | _ ∧ _ => destruct Hframe as [H1 H2]; unfold processed; by rewrite H1, H2
    | _ => clear Hframe
    end.
  - destruct (enqueue_frame now s record Hwf) as [H1 H2]. unfold processed. rewrite H1, H2.
    by apply sweep_processed.
  - by apply enqueueEventSub_processed.
  - unfold CompleteEventSub. destruct (EventSubInbox s !! messageID) eqn:Hi; [|by case_match].
    assert (messageID ≠ m) as Hne by (intros ->; destruct Hp; congruence).
    apply addSeen_processed; [done..|]. destruct Hp. split; [done|]. simpl.
    by rewrite lookup_delete_ne.
  - unfold MarkEventSubFailed. destruct (EventSubInbox s !! messageID) eqn:Hi; [|done].
    assert (messageID ≠ m) as Hne by (intros ->; destruct Hp; congruence).
    destruct Hp. split; [done|]. simpl. by rewrite lookup_insert_ne.
  - unfold RetryEventSub. destruct (EventSubInbox s !! messageID) eqn:Hi; [|done].
    assert (messageID ≠ m) as Hne by (intros ->; destruct Hp; congruence).
    destruct Hp. split; [done|]. simpl. by rewrite lookup_insert_ne.
  - destruct Ho as [-> Ho]. by apply Hseen.
  - destruct Ho as [-> Ho]. unfold SeenEventSub. apply (Hseen now) in Hp; [|done].
    destruct (Seen (cleanupSeenLocked now (24 * Hour) s) !! messageID) eqn:Hm; [done|].
    assert (messageID ≠ m) as Hne by (intros ->; destruct Hp; congruence).
    apply addSeen_processed; [done| |done].
    eapply Z.le_lt_trans; [apply cleanupSeen_mlen|done].
  - destruct Hp. split; [|done]. simpl. by rewrite lookup_delete_ne.
  - unfold Cleanup. cbn [fst]. rewrite cleanup_sweep by done. by apply sweep_processed.
Qed.

Lemma exec_seen_mlen s o : wf s → mlen (Seen (exec s o)) ≤ mlen (Seen s) + 1.
Proof.
  intros Hwf. pose proof (deliveries_frame s o) as Hframe.
  assert (∀ now ttl, mlen (Seen (cleanupSeenLocked now ttl s)) ≤ mlen (Seen s) + 1) as Hclean.
  { intros now ttl. pose proof (cleanupSeen_mlen now ttl s). lia. }
  destruct o; cbn [exec] in *;
    lazymatch type of Hframe with _ ∧ _ => destruct Hframe as [-> _]; lia | _ => clear Hframe end.
  - rewrite (proj1 (enqueue_frame now s record Hwf)). apply Hclean.
  - unfold EnqueueEventSub. case_match; simpl; [lia|].
    repeat case_match; apply Hclean.
  - unfold CompleteEventSub. case_match; [|case_match; simpl; lia].
    exact (addSeen_mlen messageID completedAt (s <| EventSubInbox := delete messageID (EventSubInbox s) |>)).
  - unfold MarkEventSubFailed. case_match; simpl; lia.
  - unfold RetryEventSub. case_match; simpl; lia.
  - apply Hclean.
  - unfold SeenEventSub. case_match; [apply Hclean|]. cbn [persistLocked fst].
    etrans; [apply addSeen_mlen|]. pose proof (cleanupSeen_mlen now ttl s). lia.
  - simpl. etrans; [|apply Z.le_succ_diag_r]. apply mlen_sub, delete_subseteq.
  - unfold Cleanup. cbn [fst]. rewrite cleanup_sweep by done. apply Hclean.
Qed.
End Dedup.

Lemma execAll_processed m at_ s ops :
  wf s → processed m at_ s → Forall (λ x, within_day m at_ x.2) ops →
  mlen (Seen s) + Z.of_nat (length ops) ≤ MaxSeenEventRecords →
  processed m at_ (execAll s ops).
Proof.
  intros Hwf Hp Hops. revert s Hwf Hp. induction Hops as [|[rt o] ops Ho _ IH];
    intros s Hwf Hp Hlen; [done|]. simpl. cbn [length] in Hlen.
  apply IH; [by apply exec_wf|by apply exec_processed; [| |lia|]|].
  pose proof (exec_seen_mlen s o Hwf). lia.
Qed.

(** A processed EventSub message is not accepted twice.  After
    [CompleteEventSub] a redelivery of the message within a day is refused
    and not queued, whatever operations came in between, as long as they fit
    in the free places of the table of processed messages and none forgets
    the message. *)
Theorem processed_message_refused (s s1 : t) m at_ (ops : list (GoRuntime * op)) :
  rtc step newMemoryDeliveryStore s →
  is_Some (EventSubInbox s !! m) →
  (∃ rt : GoRuntime, CompleteEventSub s m at_ = (s1, None)) →
  Forall (λ x, within_day m at_ x.2) ops →
  mlen (Seen s1) + Z.of_nat (length ops) ≤ MaxSeenEventRecords →
  ∀ (rt : GoRuntime) raw env now, TrimSpace raw = m → now - at_ ≤ 24 * Hour →
    (EnqueueEventSub (execAll s1 ops) raw env now).2 = (EventSubInboxRecord.zero, false, None) ∧
    EventSubInbox (EnqueueEventSub (execAll s1 ops) raw env now).1 !! m = None.
Proof.
  intros Hwf%reachable_wf [r Hr] [rt0 Hc] Hops Hlen rt raw env now <- Hnow.
  assert (wf s1) as Hwf1.
  { pose proof (completeEventSub_wf (rt:=rt0) s (TrimSpace raw) at_ Hwf) as Hwf1.
    by rewrite Hc in Hwf1. }
  assert (processed (TrimSpace raw) at_ s1) as Hp.
  { unfold CompleteEventSub in Hc. rewrite Hr in Hc. cbn [persistLocked] in Hc. injection Hc as <-.
    split.
    - unfold addSeenEventSubLocked. simpl. apply lookup_insert_eq.
    - rewrite (proj1 (proj2 (addSeen_other (TrimSpace raw) at_ _))). simpl. apply lookup_delete_eq. }
  pose proof (execAll_processed _ _ _ _ Hwf1 Hp Hops Hlen) as Hp2.
  destruct Hwf as (_ & (Hkeys & _) & _). pose proof (proj2 (Hkeys _ _ Hr)) as Hne.
  unfold EnqueueEventSub. rewrite bool_decide_false by done.
  destruct (cleanupSeen_processed (TrimSpace raw) at_ now _ Hnow Hp2) as [H1 H2]. by rewrite H1.
Qed.

Definition example_inbox : t :=
  exec (rt:=reference_runtime) newMemoryDeliveryStore
    (OpEnqueueEventSub " msg-1 " EventSubEnvelope.zero 1000).

Lemma example_inbox_reachable : rtc step newMemoryDeliveryStore example_inbox.
Proof. apply rtc_once. apply (step_exec _ reference_runtime). Qed.

Lemma processed_message_refused_witness :
  (EnqueueEventSub (rt:=reference_runtime)
     (execAll (CompleteEventSub (rt:=reference_runtime) example_inbox "msg-1" 2000).1
        [(reference_runtime, OpCleanup (3 * Hour))])
     "msg-1" EventSubEnvelope.zero (4 * Hour)).2 = (EventSubInboxRecord.zero, false, None).
Proof.
  apply (processed_message_refused example_inbox
    (CompleteEventSub (rt:=reference_runtime) example_inbox "msg-1" 2000).1 "msg-1" 2000
    [(reference_runtime, OpCleanup (3 * Hour))] example_inbox_reachable).
  - vm_compute. eauto.
  - exists reference_runtime. vm_compute. reflexivity.
  - repeat constructor. vm_compute. discriminate.
  - vm_compute. discriminate.
  - vm_compute. reflexivity.
  - vm_compute. discriminate.
Defined.

(** ** No loss *)

(** The state in which [EnqueueEventSub] inserts. *)
Definition inboxRoom {rt : GoRuntime} (now : time) (s : t) : t :=
  let s := cleanupSeenLocked now (24 * Hour) s in
  if MaxEventSubInboxRecords <=? mlen (EventSubInbox s)
  then trimDeadEventSubInboxLocked (MaxEventSubInboxRecords - 1) s else s.

Lemma EnqueueEventSub_cases {rt : GoRuntime} s raw env now s' out :
  let m := TrimSpace raw in
  EnqueueEventSub s raw env now = (s', out) →
  (EventSubInbox s' = EventSubInbox s ∧
     ((m = "" ∧ out = (I.zero, false, Some (ErrMsg "EventSub message id is required"))) ∨
      (m ≠ "" ∧ out = (I.zero, false, None)) ∨
      ∃ e, EventSubInbox s !! m = Some e ∧ out = (e, false, None))) ∨
  (m ≠ "" ∧ EventSubInbox s !! m = None ∧
    ((s' = inboxRoom now s ∧ MaxEventSubInboxRecords ≤ mlen (EventSubInbox s') ∧
        out = (I.zero, false, Some (ErrMsg "EventSub inbox is full"))) ∨
     ∃ r, EventSubInbox s' = <[m := r]> (EventSubInbox (inboxRoom now s)) ∧
        out = (r, true, None) ∧ I.MessageID r = m ∧ I.Envelope r = env ∧
        inboxEligible now r = true)).
Proof.
  intros m. unfold EnqueueEventSub. fold m. case_bool_decide as Hm.
  { intros [= <- <-]. left. eauto. }
  destruct (Seen _ !! m); [intros [= <- <-]; left; split; [done|]; eauto|].
  change (EventSubInbox (cleanupSeenLocked now (24 * Hour) s) !! m) with (EventSubInbox s !! m).
  destruct (EventSubInbox s !! m) as [e|] eqn:Hi; [intros [= <- <-]; left; split; [done|]; eauto 10|].
  intros H. right. split_and!; [done..|]. fold (inboxRoom now s) in H.
  destruct (Z.leb_spec MaxEventSubInboxRecords (mlen (EventSubInbox (inboxRoom now s))));
    cbn [persistLocked] in H; injection H as <- <-; [by left|].
  right. eexists. split_and!; try done.
  unfold inboxEligible, Before, Add. simpl. rewrite Z.ltb_irrefl. simpl.
  rewrite negb_involutive. apply Z.ltb_lt. unfold Hour, Minute, Second. lia.
Qed.

(** Making room removes only dead messages, so accepting a message keeps the
    others. *)
Lemma inboxRoom_keep {rt : GoRuntime} now (s : t) : inbox_wf (EventSubInbox s) →
  ∀ k e, EventSubInbox s !! k = Some e → inboxDead e = false → EventSubInbox (inboxRoom now s) !! k = Some e.
Proof.
  intros Hi k e Hk Hd. unfold inboxRoom. case_match; [|done]. apply trimFinished_keep; [by apply inbox_keyed|done|done].
Qed.

Lemma enqueueEventSub_keeps {rt : GoRuntime} (s : t) raw env now k e :
  EventSubInbox s !! k = Some e → inboxDead e = false → wf s → EventSubInbox (EnqueueEventSub s raw env now).1 !! k = Some e.
Proof.
  intros Hk Hd (_ & Hi & _). destruct (EnqueueEventSub s raw env now) as [s' out] eqn:Hen. cbn [fst].
  apply EnqueueEventSub_cases in Hen as [[-> _]|(_ & Hnone & [(-> & _)|(r & -> & _)])]; [done|by apply inboxRoom_keep|].
  rewrite lookup_insert_ne; [by apply inboxRoom_keep|]. intros <-. congruence.
Qed.

(** No unprocessed EventSub message is lost to make room.
    [EnqueueEventSub] keeps every queued message that is not dead, a message
    it accepts is stored and due at once, and it reports a full inbox only
    when none of the [MaxEventSubInboxRecords] places holds a dead one. *)
Theorem inbox_keeps_unprocessed (rt : GoRuntime) (s s' : t) raw env now r fresh err :
  rtc step newMemoryDeliveryStore s →
  EnqueueEventSub s raw env now = (s', (r, fresh, err)) →
  (∀ k e, EventSubInbox s !! k = Some e → inboxDead e = false → EventSubInbox s' !! k = Some e) ∧
  (fresh = true → EventSubInbox s' !! TrimSpace raw = Some r ∧ I.Envelope r = env ∧
                  inboxEligible now r = true) ∧
  (err = Some (ErrMsg "EventSub inbox is full") →
     mlen (EventSubInbox s') = MaxEventSubInboxRecords ∧
     ∀ k e, EventSubInbox s' !! k = Some e → inboxDead e = false).
Proof.
  intros Hwf%reachable_wf Hen. pose proof (enqueueEventSub_wf s raw env now Hwf) as Hwf'.
  rewrite Hen in Hwf'. destruct Hwf as (_ & Hi & _), Hwf' as (_ & [_ Hsize] & _).
  pose proof (inbox_keyed _ Hi) as Hkey.
  pose proof (inboxRoom_keep now s Hi) as Hkeep.
  apply EnqueueEventSub_cases in Hen as
    [[Heq Hout]|(Hm & Hnone & [(-> & Hfull & [= -> -> ->])|(r' & Heq & [= -> -> ->] & Hid & Henv & Hel)])].
  - rewrite Heq. split; [done|].
    destruct Hout as [[_ [= -> -> ->]]|[[_ [= -> -> ->]]|(e & _ & [= -> -> ->])]]; done.
  - split; [done|]. split; [done|]. intros _. cbn [fst] in Hsize. split; [lia|]. intros k e.
    revert Hfull. unfold inboxRoom.
    destruct (Z.leb_spec MaxEventSubInboxRecords
      (mlen (EventSubInbox (cleanupSeenLocked now (24 * Hour) s)))); [|lia].
    intros Hfull. apply trimFinished_full; [done|].
    eapply Z.lt_le_trans; [|exact Hfull]. lia.
  - rewrite Heq. split_and!.
    + intros k e Hk Hd. rewrite lookup_insert_ne; [by apply Hkeep|]. intros <-. congruence.
    + intros _. by rewrite lookup_insert_eq.
    + done.
Qed.

Lemma inbox_keeps_unprocessed_witness :
  ∃ s' r, EnqueueEventSub (rt:=reference_runtime) example_inbox "msg-2" EventSubEnvelope.zero 3000 =
      (s', (r, true, None)) ∧ EventSubInbox s' !! "msg-2" = Some r.
Proof.
  eexists _, _. split; [vm_compute; reflexivity|].
  eapply (inbox_keeps_unprocessed reference_runtime example_inbox _ "msg-2" EventSubEnvelope.zero
    3000 _ true None example_inbox_reachable); [vm_compute; reflexivity|reflexivity].
Defined.

(** ** Channel states *)

(** Channel changes.  An update reports a first sight of the channel or
    exactly which of title and category differ from the last saved ones,
    makes the new pair the saved one, and leaves other channels alone; a
    blank channel is an error and changes nothing. *)
Theorem channel_changes_tracked (s : t) c title category now :
  UpdateChannelState s c title category now =
    ((SaveChannelState s c title category now).1,
     if c == "" then Err (ErrMsg "channel id is required")
     else Ok match ChannelStates s !! c with
             | None => (false, false, true)
             | Some p => (C.Title p != title, C.CategoryName p != category, false)
             end) ∧
  ∀ c' title' category',
    let s' := (UpdateChannelState s c title category now).1 in
    ChannelStateChanges s' c' title' category' =
      if (c' == c) && (c != "") then Ok (title != title', category != category', false)
      else ChannelStateChanges s c' title' category'.
Proof.
  split.
  - rewrite (surjective_pairing (UpdateChannelState _ _ _ _ _)), updateChannelState_state. f_equal.
    unfold UpdateChannelState, ChannelStateChanges, SaveChannelState.
    case_bool_decide; [done|]. by destruct (ChannelStates s !! c).
  - intros c' title' category' s'. subst s'. rewrite updateChannelState_state.
    unfold SaveChannelState, ChannelStateChanges.
    destruct (bool_decide_reflect (c = "")) as [->|Hc].
    { rewrite andb_false_r. done. }
    destruct (bool_decide_reflect (c' = c)) as [->|Hne]; simpl.
    + rewrite lookup_insert_eq. by rewrite bool_decide_false.
    + by rewrite lookup_insert_ne.
Qed.

End InboxProofs.
