(* ===== verification/PgDelivery.v ===== *)
(** * The delivery store of production:
    [internal/storage/postgres/postgres_delivery.go]

    The tables [deliveries], [eventsub_seen], [eventsub_inbox] and
    [channel_notification_states], and the operations as the statements and
    transactions they send. *)

From S2P Require Import Prelude GoStrings GoUnicode Credentials Domain DeliveryStore Postgres.
Import Postgres.

(** [encoding/json] on the condition and the event of a message, which
    survive a [JSONB] column. *)
Class EnvelopeJSON `{Jsonb} := {
  MarshalCondition : gmap string string → result string;
  UnmarshalCondition : string → result (gmap string string);
  MarshalEvent : gmap string json → result string;
  UnmarshalEvent : string → result (gmap string json);
  condition_text m j k : MarshalCondition m = Ok j → jsonb j = Some k → ∃ m', UnmarshalCondition k = Ok m' ∧
    ((∀ c v, m !! c = Some v → text c = true ∧ text v = true) → m' = m);
  event_text m j k : MarshalEvent m = Ok j → jsonb j = Some k → is_ok (UnmarshalEvent k) = true
}.

Module PgDelivery.
Module D := DeliveryRecord.
Module N := Notification.
Module I := EventSubInboxRecord.
Module E := EventSubEnvelope.
Module Sub := Subscription.
Module C := ChannelNotificationState.

(** A row of [deliveries]: the columns that are never null in a record whose
    other fields are zero (the notification's own event identifier has no
    column), and the two that may be. *)
Record deliveryRow := mkDelivery { fields : D.t; sent_at : option time; acked_at : option time }.

(** A row of [eventsub_inbox], with the two [JSONB] columns. *)
Record inboxRow := mkInbox {
  entry : I.t; conditionColumn : string; payloadColumn : string; last_attempt_at : option time
}.

Record db := mkDb {
  deliveries : gmap string deliveryRow;
  seen : gmap string time;
  inbox : gmap string inboxRow;
  channels : gmap string C.t
}.
#[global] Instance eta_db : Eta db := λ d, mkDb (deliveries d) (seen d) (inbox d) (channels d).

Definition emptyDb : db := mkDb ∅ ∅ ∅ ∅.

Section Store.
Context {collation : Collation} `{json : EnvelopeJSON}.

(** ** Rows *)

Definition orZero (t : option time) : time := match t with Some t => t | None => 0 end.

Definition scanDelivery (r : deliveryRow) : D.t :=
  (fields r) <| D.SentAt := orZero (sent_at r) |> <| D.AckedAt := orZero (acked_at r) |>.

Definition scanEventSubInbox (r : inboxRow) : result I.t :=
  let record := entry r in
  let? condition := UnmarshalCondition (conditionColumn r) in
  let? event := UnmarshalEvent (payloadColumn r) in
  let envelope := I.Envelope record in
  let envelope := envelope
    <| E.Subscription_ := (E.Subscription_ envelope) <| Sub.Condition := condition |> |>
    <| E.Event := event |> in
  Ok (record <| I.Envelope := envelope |> <| I.LastAttemptAt := orZero (last_attempt_at r) |>).

(** ** Statements on deliveries *)

Definition samePair (installationID eventID : string) (r : deliveryRow) : bool :=
  (D.InstallationID (fields r) == installationID) && (D.EventID (fields r) == eventID).

Definition deliveryStatuses : list string := ["pending"; "sent"; "acked"; "dead"].

(** The row [INSERT INTO deliveries] makes of a record. *)
Definition rowOf (record : D.t) : deliveryRow :=
  mkDelivery (record <| D.Notification_ := (D.Notification_ record) <| N.EventID := "" |> |>
                     <| D.AvailableAt := timestamptz (D.AvailableAt record) |>
                     <| D.ExpiresAt := timestamptz (D.ExpiresAt record) |>
                     <| D.CreatedAt := timestamptz (D.CreatedAt record) |>
                     <| D.SentAt := 0 |> <| D.AckedAt := 0 |>) None None.

Definition deliveryTexts (record : D.t) : list string :=
  let n := D.Notification_ record in
  [D.ID record; D.EventID record; D.InstallationID record; N.Type_ n; N.Title n; N.Body n; N.ChannelID n;
   N.ChannelLogin n; N.MessageID n; N.ActorID n; N.ActorLogin n; N.ActorDisplayName n; N.Destination n;
   D.Status record; D.LastError record].

(** [INSERT ... ON CONFLICT (installation_id, event_id) DO NOTHING
    RETURNING ...]: the checks come first, then the index of the conflict
    clause, then the primary key. *)
Definition insertDelivery (record : D.t) (d : db) : result (db * option deliveryRow) :=
  let? attempts := integer (D.AttemptCount record) in
  if negb (bool_decide (D.Status record ∈ deliveryStatuses)) || (attempts <? 0)
  then Err (ErrMsg "violates check constraint") else
  if existsb (samePair (D.InstallationID record) (D.EventID record)) (map_to_list (deliveries d)).*2
  then Ok (d, None) else
  match deliveries d !! D.ID record with
  | Some _ => Err (ErrMsg "duplicate key value violates unique constraint deliveries_pkey")
  | None => Ok (d <| deliveries := <[D.ID record := rowOf record]> (deliveries d) |>, Some (rowOf record))
  end.

Definition selectPair (installationID eventID : string) (d : db) : result (db * option deliveryRow) :=
  Ok (d, head (List.filter (samePair installationID eventID) (map_to_list (deliveries d)).*2)).

(** [UPDATE deliveries SET status = 'dead' WHERE expires_at <= $1 AND status
    <> 'acked'] and the [DELETE] that follows; a comparison with a null
    column does not hold. *)
Definition expireDeliveries (now : time) (d : db) : result (db * ()) :=
  let now := timestamptz now in
  Ok (d <| deliveries := (updateWhere
        (λ _ r, (D.ExpiresAt (fields r) <=? now) && (D.Status (fields r) != "acked"))
        (λ r, mkDelivery ((fields r) <| D.Status := "dead" |>) (sent_at r) (acked_at r)) (deliveries d)).1 |>, ()).

Definition deleteOldDeliveries (before : time) (d : db) : result (db * ()) :=
  let before := timestamptz before in
  Ok (d <| deliveries := (deleteWhere
        (λ _ r, ((D.Status (fields r) == "acked") && match acked_at r with Some t => t <? before | None => false end) ||
                ((D.Status (fields r) == "dead") && (D.CreatedAt (fields r) <? before))) (deliveries d)).1 |>, ()).

(** [power(2, GREATEST(attempt_count, 0))::int]. *)
Definition powerOfTwo (n : Z) : result Z :=
  let n := Z.max n 0 in
  if n <? 31 then integer (2 ^ n) else Err (ErrMsg "integer out of range").

(** [make_interval(secs => LEAST(64, ...))]. *)
Definition retryInterval (attempts : Z) : result duration :=
  let? seconds := powerOfTwo attempts in Ok (Z.min 64 seconds * Second).

(** [UPDATE ... WHERE key = $1] whose expressions may fail. *)
Definition updateKey {V} (key : string) (f : V → result V) (m : gmap string V) : result (gmap string V * Z) :=
  match m !! key with
  | None => Ok (m, 0)
  | Some r => let? r' := f r in Ok (<[key := r']> m, 1)
  end.

Definition onDeliveries (f : gmap string deliveryRow → result (gmap string deliveryRow * Z)) (d : db)
    : result (db * Z) :=
  match f (deliveries d) with Ok (m, n) => Ok (d <| deliveries := m |>, n) | Err err => Err err end.
Definition onInbox (f : gmap string inboxRow → result (gmap string inboxRow * Z)) (d : db) : result (db * Z) :=
  match f (inbox d) with Ok (m, n) => Ok (d <| inbox := m |>, n) | Err err => Err err end.

Definition sentRow (sentAt : time) (r : deliveryRow) : result deliveryRow :=
  let sentAt := timestamptz sentAt in
  let? attempts := integer (D.AttemptCount (fields r) + 1) in
  let? delay := retryInterval (D.AttemptCount (fields r)) in
  Ok (mkDelivery ((fields r) <| D.Status := "sent" |> <| D.AttemptCount := attempts |> <| D.LastError := "" |>
                    <| D.AvailableAt := sentAt + delay |>) (Some sentAt) (acked_at r)).

Definition failedRow (message : string) (failedAt : time) (r : deliveryRow) : result deliveryRow :=
  let failedAt := timestamptz failedAt in
  let? attempts := integer (D.AttemptCount (fields r) + 1) in
  let over := (8 <=? attempts) || (D.ExpiresAt (fields r) <=? failedAt) in
  let? available :=
    if over then Ok (D.AvailableAt (fields r))
    else let? delay := retryInterval (D.AttemptCount (fields r)) in Ok (failedAt + delay) in
  Ok (mkDelivery ((fields r) <| D.AttemptCount := attempts |> <| D.LastError := message |>
                    <| D.Status := if over then "dead" else "pending" |> <| D.AvailableAt := available |>)
        (sent_at r) (acked_at r)).

Definition ackedRow (ackedAt : time) (r : deliveryRow) : deliveryRow :=
  mkDelivery ((fields r) <| D.Status := "acked" |> <| D.LastError := "" |>) (sent_at r) (Some (timestamptz ackedAt)).

(** [WITH target AS (...) UPDATE ...]: the subquery yields one row or null. *)
Definition ackThroughRows (installationID eventID : string) (ackedAt : time)
    (m : gmap string deliveryRow) : result (gmap string deliveryRow * Z) :=
  match List.filter (samePair installationID eventID) (map_to_list m).*2 with
  | [] => Ok (m, 0)
  | [target] =>
      Ok (updateWhere (λ _ r, (D.InstallationID (fields r) == installationID) &&
                              (D.CreatedAt (fields r) <=? D.CreatedAt (fields target))) (ackedRow ackedAt) m)
  | _ => Err (ErrMsg "more than one row returned by a subquery used as an expression")
  end.

(** ** Operations on deliveries *)

Context (L : Link db).
Abbreviation conn := (session db).

Definition cleanupDeliveriesTx (now : time) : M (tx db) () :=
  let! _ := database "expire deliveries" (onTx L [] (expireDeliveries now)) in
  database "delete old deliveries" (onTx L [] (deleteOldDeliveries (Add now (-7 * 24 * Hour)))).

Definition Enqueue (now : time) (record : D.t) : M conn (D.t * bool) :=
  if (TrimSpace (D.ID record) == "") || (TrimSpace (D.EventID record) == "") ||
     (TrimSpace (D.InstallationID record) == "")
  then fail (ErrMsg "delivery id, event id, and installation id are required") else
  let record := if D.Status record == "" then record <| D.Status := DeliveryStatusPending |> else record in
  let record := if IsZero (D.CreatedAt record) then record <| D.CreatedAt := now |> else record in
  let record := if IsZero (D.AvailableAt record) then record <| D.AvailableAt := now |> else record in
  let record := if IsZero (D.ExpiresAt record) then record <| D.ExpiresAt := Add now (24 * Hour) |> else record in
  transaction L "begin enqueue delivery" (
    let! _ := cleanupDeliveriesTx now in
    let! count := database "count deliveries" (onTx L [] (λ d, Ok (d, mlen (deliveries d)))) in
    if MaxDeliveryRecords <=? count then fail (ErrMsg "delivery queue is full") else
    let! inserted := database "insert delivery" (onTx L (deliveryTexts record) (insertDelivery record)) in
    match inserted with
    | None =>
        let! existing := database "load duplicate delivery"
          (let! found := onTx L [D.InstallationID record; D.EventID record]
             (selectPair (D.InstallationID record) (D.EventID record)) in
           match found with Some r => ret r | None => fail (ErrMsg "no rows in result set") end) in
        let! _ := database "commit duplicate delivery lookup" (Commit L) in
        ret (scanDelivery existing, false)
    | Some r =>
        let! _ := database "commit delivery" (Commit L) in
        ret (scanDelivery r, true)
    end).

(** Errors of the listings are logged and the list is empty. *)
Definition orNil {A} (x : conn * result (list A)) : list A := match x.2 with Ok l => l | Err _ => [] end.

Definition ListDeliveries (limit : Z) (s : conn) : list D.t :=
  let limit := normalizeLimit limit 200 1000 in
  orNil (onPool L [] (λ d, Ok (d, scanDelivery <$>
    selectWhere (λ _, true) (orderDesc (λ r, D.CreatedAt (fields r)) (λ r, D.ID (fields r))) limit (deliveries d))) s).

Definition pendingRow (installationID : string) (now : time) (r : deliveryRow) : bool :=
  (D.InstallationID (fields r) == installationID) && bool_decide (D.Status (fields r) ∈ ["pending"; "sent"]) &&
  (D.AvailableAt (fields r) <=? timestamptz now) && (timestamptz now <? D.ExpiresAt (fields r)).

Definition PendingForInstallation (installationID : string) (limit : Z) (now : time) (s : conn) : list D.t :=
  let limit := normalizeLimit limit 100 1000 in
  orNil (onPool L [installationID] (λ d, Ok (d, scanDelivery <$>
    selectWhere (pendingRow installationID now)
      (orderAsc (λ r, D.CreatedAt (fields r)) (λ r, D.ID (fields r))) limit (deliveries d))) s).

(** [if command.RowsAffected() == 0 { return ErrNotFound }]. *)
Definition affected (command : M conn Z) : M conn () :=
  let! n := command in if n =? 0 then fail ErrRegistrationNotFound else ret ().

Definition MarkSent (id : string) (sentAt : time) : M conn () :=
  affected (database "mark delivery sent" (onPool L [id] (onDeliveries (updateKey id (sentRow sentAt))))).

Definition errorText (failure : option error) : string := match failure with Some e => Error e | None => "" end.

Definition MarkFailed (id : string) (failure : option error) (failedAt : time) : M conn () :=
  let message := errorText failure in
  affected (database "mark delivery failed"
    (onPool L [id; message] (onDeliveries (updateKey id (failedRow message failedAt))))).

Definition AckThrough (installationID eventID : string) (ackedAt : time) : M conn () :=
  affected (database "ack deliveries through event"
    (onPool L [installationID; eventID] (onDeliveries (ackThroughRows installationID eventID ackedAt)))).

Definition Ack (installationID eventID : string) (ackedAt : time) : M conn () :=
  affected (database "ack delivery"
    (onPool L [installationID; eventID] (onDeliveries (λ m,
       Ok (updateWhere (λ _, samePair installationID eventID) (ackedRow ackedAt) m))))).

Definition DeleteForInstallation (installationID : string) : M conn Z :=
  database "delete installation deliveries"
    (onPool L [installationID] (onDeliveries (λ m,
       Ok (deleteWhere (λ _ r, D.InstallationID (fields r) == installationID) m)))).

(** ** The inbox *)

Definition deleteSeen (before : time) (d : db) : result (db * ()) :=
  Ok (d <| seen := (deleteWhere (λ _ t, t <? timestamptz before) (seen d)).1 |>, ()).
Definition isSeen (messageID : string) (d : db) : result (db * bool) :=
  Ok (d, bool_decide (is_Some (seen d !! messageID))).

Definition inboxTexts (messageID : string) (envelope : E.t) (condition event : string) : list string :=
  let subscription := E.Subscription_ envelope in
  [messageID; E.Challenge envelope; Sub.ID subscription; Sub.Type_ subscription; Sub.Version subscription;
   Sub.Status subscription; condition; event].

(** [INSERT INTO eventsub_inbox ... ON CONFLICT (message_id) DO NOTHING
    RETURNING ...]. *)
Definition insertInbox (messageID : string) (envelope : E.t) (condition event : string) (now : time) (d : db)
    : result (db * option inboxRow) :=
  match jsonb condition, jsonb event with
  | Some condition, Some event =>
      match inbox d !! messageID with
      | Some _ => Ok (d, None)
      | None =>
          let envelope := envelope
            <| E.Subscription_ := (E.Subscription_ envelope) <| Sub.Condition := ∅ |> |> <| E.Event := ∅ |> in
          let r := mkInbox (I.zero <| I.MessageID := messageID |> <| I.Envelope := envelope |>
                              <| I.Status := "pending" |> <| I.AvailableAt := timestamptz now |>
                              <| I.ExpiresAt := timestamptz (Add now (24 * Hour)) |>
                              <| I.ReceivedAt := timestamptz now |>) condition event None in
          Ok (d <| inbox := <[messageID := r]> (inbox d) |>, Some r)
      end
  | _, _ => Err (ErrMsg "invalid input syntax for type json")
  end.

(** A row that is scanned when it is read. *)
Definition scanned (found : option inboxRow) : result (option I.t) :=
  match found with
  | None => Ok None
  | Some r => let? record := scanEventSubInbox r in Ok (Some record)
  end.

Definition EnqueueEventSub (messageID : string) (envelope : E.t) (now : time) : M conn (I.t * bool) :=
  let messageID := TrimSpace messageID in
  if messageID == "" then fail (ErrMsg "EventSub message id is required") else
  let! condition := lift (MarshalCondition (Sub.Condition (E.Subscription_ envelope))) in
  let! event := lift (MarshalEvent (E.Event envelope)) in
  transaction L "begin enqueue EventSub" (
    let! _ := database "clean EventSub deduplication records"
      (onTx L [] (deleteSeen (Add now (-24 * Hour)))) in
    let! known := database "check EventSub deduplication record" (onTx L [messageID] (isSeen messageID)) in
    if (known : bool) then
      let! _ := database "commit EventSub seen lookup" (Commit L) in
      ret (I.zero, false)
    else
    let! inserted := database "insert EventSub inbox record"
      (let! found := onTx L (inboxTexts messageID envelope condition event)
                       (insertInbox messageID envelope condition event now) in
       lift (scanned found)) in
    match inserted with
    | None =>
        let! existing := database "load duplicate EventSub inbox record"
          (let! found := onTx L [messageID] (λ d, Ok (d, inbox d !! messageID)) in
           let! record := lift (scanned found) in
           match record with Some record => ret record | None => fail (ErrMsg "no rows in result set") end) in
        let! _ := database "commit duplicate EventSub lookup" (Commit L) in
        ret (existing, false)
    | Some record =>
        let! _ := database "commit EventSub inbox record" (Commit L) in
        ret (record, true)
    end).

(** The rows as records; the first that does not scan ends it. *)
Fixpoint scanInbox (rows : list inboxRow) : result (list I.t) :=
  match rows with
  | [] => Ok []
  | r :: rows => let? record := scanEventSubInbox r in let? records := scanInbox rows in Ok (record :: records)
  end.

Definition listEventSubInbox (where_ : I.t → bool) (limit : Z) (ascending : bool) (s : conn) : list I.t :=
  let limit := normalizeLimit limit 200 1000 in
  let order := (if ascending then orderAsc else orderDesc) (λ r, I.ReceivedAt (entry r)) (λ r, I.MessageID (entry r)) in
  orNil (bind (onPool L [] (λ d, Ok (d, selectWhere (λ r, where_ (entry r)) order limit (inbox d))))
              (λ rows, lift (scanInbox rows)) s).

Definition PendingEventSub (limit : Z) (now : time) (s : conn) : list I.t :=
  let now := timestamptz now in
  listEventSubInbox (λ r, (I.Status r == "pending") && (I.AvailableAt r <=? now) && (now <? I.ExpiresAt r)) limit true s.

Definition ListEventSubInbox (limit : Z) (s : conn) : list I.t := listEventSubInbox (λ _, true) limit false s.

Definition deleteInbox (messageID : string) (m : gmap string inboxRow) : result (gmap string inboxRow * Z) :=
  match m !! messageID with Some _ => Ok (delete messageID m, 1) | None => Ok (m, 0) end.

Definition upsertSeen (messageID : string) (seenAt : time) (d : db) : result (db * ()) :=
  Ok (d <| seen := <[messageID := timestamptz seenAt]> (seen d) |>, ()).

Definition CompleteEventSub (messageID : string) (completedAt : time) : M conn () :=
  transaction L "begin complete EventSub" (
    let! removed := database "delete completed EventSub inbox record"
      (onTx L [messageID] (onInbox (deleteInbox messageID))) in
    let! known :=
      if removed =? 0 then database "check completed EventSub record" (onTx L [messageID] (isSeen messageID))
      else ret true in
    if negb known then fail ErrRegistrationNotFound else
    let! _ := database "record completed EventSub message" (onTx L [messageID] (upsertSeen messageID completedAt)) in
    commitDatabaseTx L "complete EventSub").

Definition failedInboxRow (message : string) (failedAt : time) (r : inboxRow) : result inboxRow :=
  let failedAt := timestamptz failedAt in
  let? attempts := integer (I.AttemptCount (entry r) + 1) in
  let over := (8 <=? attempts) || (I.ExpiresAt (entry r) <=? failedAt) in
  let? available :=
    if over then Ok (I.AvailableAt (entry r))
    else let? delay := retryInterval (I.AttemptCount (entry r)) in Ok (failedAt + delay) in
  Ok (mkInbox ((entry r) <| I.AttemptCount := attempts |> <| I.LastError := message |>
                 <| I.Status := if over then "dead" else "pending" |> <| I.AvailableAt := available |>)
        (conditionColumn r) (payloadColumn r) (Some failedAt)).

Definition MarkEventSubFailed (messageID : string) (failure : option error) (failedAt : time) : M conn () :=
  let message := errorText failure in
  affected (database "mark EventSub inbox failed"
    (onPool L [messageID; message] (onInbox (updateKey messageID (failedInboxRow message failedAt))))).

Definition retriedInboxRow (now : time) (r : inboxRow) : result inboxRow :=
  let now := timestamptz now in
  Ok (mkInbox ((entry r) <| I.Status := "pending" |> <| I.AttemptCount := 0 |> <| I.AvailableAt := now |>
                 <| I.ExpiresAt := now + 24 * Hour |> <| I.LastError := "" |>)
        (conditionColumn r) (payloadColumn r) (last_attempt_at r)).

Definition RetryEventSub (messageID : string) (now : time) : M conn () :=
  affected (database "retry EventSub inbox record"
    (onPool L [messageID] (onInbox (updateKey messageID (retriedInboxRow now))))).

Definition HasSeenEventSub (messageID : string) (now : time) (ttl : duration) (s : conn) : conn * bool :=
  match onPool L [] (deleteSeen (Add now (- ttl))) s with
  | (s, Err _) => (s, false)
  | (s, Ok _) =>
      match onPool L [messageID] (isSeen messageID) s with
      | (s, Err _) => (s, false)
      | (s, Ok seen) => (s, seen)
      end
  end.

Definition insertSeen (messageID : string) (now : time) (d : db) : result (db * Z) :=
  match seen d !! messageID with
  | Some _ => Ok (d, 0)
  | None => Ok (d <| seen := <[messageID := timestamptz now]> (seen d) |>, 1)
  end.

Definition SeenEventSub (messageID : string) (now : time) (ttl : duration) : M conn bool :=
  transaction L "begin EventSub seen transaction" (
    let! _ := database "clean EventSub seen records" (onTx L [] (deleteSeen (Add now (- ttl)))) in
    let! inserted := database "insert EventSub seen record" (onTx L [messageID] (insertSeen messageID now)) in
    let! _ := database "commit EventSub seen record" (Commit L) in
    ret (inserted =? 0)).

(** The error is built whether or not the statement failed. *)
Definition alwaysFmt {A} (operation : string) (call : M conn A) : M conn () := λ s,
  match call s with
  | (s, Ok _) => (s, Err (fmtDatabase operation None))
  | (s, Err err) => (s, Err (fmtDatabase operation (Some err)))
  end.

Definition ForgetEventSub (messageID : string) : M conn () :=
  alwaysFmt "forget EventSub message"
    (onPool L [messageID] (λ d, Ok (d <| seen := delete messageID (seen d) |>, ()))).

(** ** Channel states *)

Definition selectChannel (channelID : string) (d : db) : result (db * option C.t) := Ok (d, channels d !! channelID).
Definition upsertChannel (channelID title categoryName : string) (now : time) (d : db) : result (db * ()) :=
  Ok (d <| channels := <[channelID := C.mk title categoryName (timestamptz now)]> (channels d) |>, ()).

Definition ChannelStateChanges (channelID title categoryName : string) : M conn DeliveryStore.changes :=
  if TrimSpace channelID == "" then fail (ErrMsg "channel id is required") else
  let! previous := database "load channel notification state" (onPool L [channelID] (selectChannel channelID)) in
  match previous with
  | None => ret (false, false, true)
  | Some previous => ret (C.Title previous != title, C.CategoryName previous != categoryName, false)
  end.

Definition SaveChannelState (channelID title categoryName : string) (now : time) : M conn () :=
  if TrimSpace channelID == "" then fail (ErrMsg "channel id is required") else
  alwaysFmt "save channel notification state"
    (onPool L [channelID; title; categoryName] (upsertChannel channelID title categoryName now)).

Definition UpdateChannelState (channelID title categoryName : string) (now : time) : M conn DeliveryStore.changes :=
  if TrimSpace channelID == "" then fail (ErrMsg "channel id is required") else
  transaction L "begin update channel notification state" (
    let! previous := database "load channel notification state" (onTx L [channelID] (selectChannel channelID)) in
    let initialized := match previous with None => true | Some _ => false end in
    let p := match previous with Some p => p | None => C.mk "" "" 0 end in
    let! _ := database "save channel notification state"
      (onTx L [channelID; title; categoryName] (upsertChannel channelID title categoryName now)) in
    let! _ := database "commit channel notification state" (Commit L) in
    ret (negb initialized && (C.Title p != title), negb initialized && (C.CategoryName p != categoryName), initialized)).

(** ** Cleanup *)

Definition expireInbox (now : time) (d : db) : result (db * ()) :=
  Ok (d <| inbox := (updateWhere
        (λ _ r, (I.ExpiresAt (entry r) <=? timestamptz now) && (I.Status (entry r) != "dead"))
        (λ r, mkInbox ((entry r) <| I.Status := "dead" |>
                         <| I.LastError := "EventSub inbox item expired before processing" |>)
                (conditionColumn r) (payloadColumn r) (last_attempt_at r)) (inbox d)).1 |>, ()).
Definition deleteOldInbox (before : time) (d : db) : result (db * ()) :=
  Ok (d <| inbox := (deleteWhere
        (λ _ r, (I.Status (entry r) == "dead") && (I.ReceivedAt (entry r) <? timestamptz before)) (inbox d)).1 |>, ()).

Definition Cleanup (now : time) : M conn () :=
  transaction L "begin storage cleanup" (
    let! _ := cleanupDeliveriesTx now in
    let! _ := database "expire EventSub inbox records" (onTx L [] (expireInbox now)) in
    let! _ := database "delete old EventSub inbox records" (onTx L [] (deleteOldInbox (Add now (-7 * 24 * Hour)))) in
    let! _ := database "delete old EventSub deduplication records" (onTx L [] (deleteSeen (Add now (-24 * Hour)))) in
    commitDatabaseTx L "storage cleanup").
End Store.
End PgDelivery.
