(* ===== verification/PgDeliveryProofs.v ===== *)
(** * The Postgres delivery store: theorems

    The invariant of the tables under every sequence of operations and any
    interference that respects it, the refusal of processed messages, the
    agreement of the SQL with the in-memory store, and two defects. *)

From S2P Require Import Prelude GoStrings GoUnicode Credentials Domain DeliveryStore DeliveryProofs Postgres PgDelivery.
Import Postgres.

Module PgDeliveryProofs.
Import PgDelivery.

Section Proofs.
Context {collation : Collation} `{json : EnvelopeJSON}.
Implicit Types (d : db) (m : gmap string deliveryRow).

(** The next fallible step of a row's expressions succeeds. *)
Ltac next_bind :=
  match goal with |- result_bind ?c _ = Ok _ → _ => destruct c as [?|]; [|done]; cbn [result_bind] end.

(** ** Executions *)

Inductive op :=
| OpEnqueue (now : time) (record : D.t)
| OpMarkSent (id : string) (sentAt : time)
| OpMarkFailed (id : string) (failure : option error) (failedAt : time)
| OpAckThrough (installationID eventID : string) (ackedAt : time)
| OpAck (installationID eventID : string) (ackedAt : time)
| OpDeleteForInstallation (installationID : string)
| OpEnqueueEventSub (messageID : string) (envelope : E.t) (now : time)
| OpCompleteEventSub (messageID : string) (completedAt : time)
| OpMarkEventSubFailed (messageID : string) (failure : option error) (failedAt : time)
| OpRetryEventSub (messageID : string) (now : time)
| OpHasSeenEventSub (messageID : string) (now : time) (ttl : duration)
| OpSeenEventSub (messageID : string) (now : time) (ttl : duration)
| OpForgetEventSub (messageID : string)
| OpSaveChannelState (channelID title categoryName : string) (now : time)
| OpUpdateChannelState (channelID title categoryName : string) (now : time)
| OpCleanup (now : time).

Definition exec (L : Link db) (s : session db) (o : op) : session db :=
  match o with
  | OpEnqueue now record => (Enqueue L now record s).1
  | OpMarkSent id sentAt => (MarkSent L id sentAt s).1
  | OpMarkFailed id failure failedAt => (MarkFailed L id failure failedAt s).1
  | OpAckThrough installationID eventID ackedAt => (AckThrough L installationID eventID ackedAt s).1
  | OpAck installationID eventID ackedAt => (Ack L installationID eventID ackedAt s).1
  | OpDeleteForInstallation installationID => (DeleteForInstallation L installationID s).1
  | OpEnqueueEventSub messageID envelope now => (EnqueueEventSub L messageID envelope now s).1
  | OpCompleteEventSub messageID completedAt => (CompleteEventSub L messageID completedAt s).1
  | OpMarkEventSubFailed messageID failure failedAt => (MarkEventSubFailed L messageID failure failedAt s).1
  | OpRetryEventSub messageID now => (RetryEventSub L messageID now s).1
  | OpHasSeenEventSub messageID now ttl => (HasSeenEventSub L messageID now ttl s).1
  | OpSeenEventSub messageID now ttl => (SeenEventSub L messageID now ttl s).1
  | OpForgetEventSub messageID => (ForgetEventSub L messageID s).1
  | OpSaveChannelState channelID title categoryName now => (SaveChannelState L channelID title categoryName now s).1
  | OpUpdateChannelState channelID title categoryName now => (UpdateChannelState L channelID title categoryName now s).1
  | OpCleanup now => (Cleanup L now s).1
  end.

(** ** The invariant *)

(** The identity of a delivery, which no operation changes. *)
Definition ident (r : deliveryRow) : string * string * string :=
  (D.ID (fields r), D.EventID (fields r), D.InstallationID (fields r)).

Definition row_ok (r : deliveryRow) : Prop :=
  TrimSpace (D.ID (fields r)) ≠ "" ∧ TrimSpace (D.EventID (fields r)) ≠ "" ∧
  TrimSpace (D.InstallationID (fields r)) ≠ "" ∧
  D.Status (fields r) ∈ deliveryStatuses ∧ 0 ≤ D.AttemptCount (fields r) < 2 ^ 31.

Definition deliveries_wf m : Prop :=
  map_Forall (λ k r, D.ID (fields r) = k ∧ row_ok r) m ∧
  (∀ k k' r r', m !! k = Some r → m !! k' = Some r' →
     D.InstallationID (fields r) = D.InstallationID (fields r') → D.EventID (fields r) = D.EventID (fields r') → k = k').

Definition inbox_ok (k : string) (r : inboxRow) : Prop :=
  I.MessageID (entry r) = k ∧ TrimSpace k = k ∧ k ≠ "" ∧ I.Status (entry r) ∈ ["pending"; "dead"] ∧
  0 ≤ I.AttemptCount (entry r) < 2 ^ 31 ∧ is_ok (scanEventSubInbox r) = true.

Definition wf d : Prop := deliveries_wf (deliveries d) ∧ map_Forall inbox_ok (inbox d).

(** Changing rows without touching their identity, and deleting some. *)
Lemma deliveries_wf_mono m m' :
  (∀ k r', m' !! k = Some r' → ∃ r, m !! k = Some r ∧ ident r' = ident r ∧ (row_ok r → row_ok r')) →
  deliveries_wf m → deliveries_wf m'.
Proof.
  intros Hsub [Hkey Hpair]. split.
  - intros k r' Hr'. destruct (Hsub _ _ Hr') as (r & Hr & [= -> _ _] & Hok).
    destruct (Hkey _ _ Hr) as [Hid Hrow]. split; [done|by apply Hok].
  - intros k k' r1 r2 H1 H2.
    destruct (Hsub _ _ H1) as (r1' & H1' & [= _ -> ->] & _), (Hsub _ _ H2) as (r2' & H2' & [= _ -> ->] & _).
    by apply Hpair.
Qed.

Lemma updateWhere_mono p f m :
  (∀ r, ident (f r) = ident r ∧ (row_ok r → row_ok (f r))) → deliveries_wf m → deliveries_wf (updateWhere p f m).1.
Proof.
  intros Hf. apply deliveries_wf_mono. intros k r'. rewrite updateWhere_lookup.
  intros (r & Hr & ->)%fmap_Some. exists r. split; [done|]. destruct (p k r); [|done]. apply Hf.
Qed.

Lemma deleteWhere_mono p m : deliveries_wf m → deliveries_wf (deleteWhere p m).1.
Proof.
  apply deliveries_wf_mono. intros k r'. rewrite deleteWhere_lookup. destruct (m !! k) as [r|]; [|done]. cbn.
  destruct (p k r); [done|]. intros [= <-]. by exists r.
Qed.

Lemma updateKey_mono id f m m' n :
  (∀ r r', f r = Ok r' → ident r' = ident r ∧ (row_ok r → row_ok r')) →
  deliveries_wf m → updateKey id f m = Ok (m', n) → deliveries_wf m'.
Proof.
  intros Hf Hm. unfold updateKey. destruct (m !! id) as [r|] eqn:Hr; [|by intros [= <- _]].
  destruct (f r) as [r'|] eqn:Hfr; [|done]. cbn [result_bind]. intros [= <- _]. revert Hm. apply deliveries_wf_mono.
  intros k r0. destruct (decide (k = id)) as [->|Hne].
  - rewrite lookup_insert_eq. intros [= <-]. exists r. split; [done|]. by apply Hf.
  - rewrite lookup_insert_ne by done. eauto.
Qed.

Lemma integer_ok n a : integer n = Ok a → a = n ∧ - 2 ^ 31 ≤ n < 2 ^ 31.
Proof. unfold integer. case_match eqn:Hb; [|done]. intros [= <-]. split; [done|]. lia. Qed.

Lemma sentRow_ok sentAt r r' : sentRow sentAt r = Ok r' → ident r' = ident r ∧ (row_ok r → row_ok r').
Proof.
  unfold sentRow. destruct (integer _) as [n|] eqn:Hn; [|done]. apply integer_ok in Hn as [-> Hn]. cbn [result_bind].
  destruct (retryInterval _); [|done]. cbn [result_bind]. intros [= <-]. split; [done|].
  intros (? & ? & ? & ? & ?). unfold row_ok. cbn. split_and!; try done; [set_solver|lia..].
Qed.

Lemma failedRow_ok message failedAt r r' : failedRow message failedAt r = Ok r' → ident r' = ident r ∧ (row_ok r → row_ok r').
Proof.
  unfold failedRow. destruct (integer _) as [n|] eqn:Hn; [|done]. apply integer_ok in Hn as [-> Hn]. cbn [result_bind].
  next_bind. intros [= <-]. split; [done|].
  intros (? & ? & ? & ? & ?). unfold row_ok. cbn. split_and!; try done; [case_match; set_solver|lia..].
Qed.

Lemma ackedRow_ok ackedAt r : ident (ackedRow ackedAt r) = ident r ∧ (row_ok r → row_ok (ackedRow ackedAt r)).
Proof. split; [done|]. intros (? & ? & ? & ? & ?). unfold row_ok. cbn. split_and!; try done; [set_solver|lia..]. Qed.

(** The statements keep the invariant. *)

Lemma wf_deliveries f : (∀ m m' n, deliveries_wf m → f m = Ok (m', n) → deliveries_wf m') → keeps wf (onDeliveries f).
Proof.
  intros Hf d d' n [Hd Hi]. unfold onDeliveries. destruct (f _) as [[m' n']|] eqn:Hm; [|done].
  intros [= <- _]. split; [by eapply Hf|done].
Qed.

Lemma wf_expireDeliveries now : keeps wf (expireDeliveries now).
Proof.
  apply keeps_ok. intros d [Hd Hi]. split; [|done]. apply updateWhere_mono; [|done].
  intros r. split; [done|]. intros (? & ? & ? & ? & ?). unfold row_ok. cbn. split_and!; try done; [set_solver|lia..].
Qed.

Lemma wf_deleteOldDeliveries before : keeps wf (deleteOldDeliveries before).
Proof. apply keeps_ok. intros d [Hd Hi]. split; [|done]. by apply deleteWhere_mono. Qed.

Lemma existsb_pair m inst ev :
  existsb (samePair inst ev) (map_to_list m).*2 = false →
  ∀ k r, m !! k = Some r → ¬ (D.InstallationID (fields r) = inst ∧ D.EventID (fields r) = ev).
Proof.
  intros Hno k r Hr [Hi He]. apply not_true_iff_false in Hno. apply Hno, existsb_exists. exists r. split.
  - apply list_elem_of_In, list_elem_of_fmap. exists (k, r). by rewrite elem_of_map_to_list.
  - unfold samePair. by rewrite !bool_decide_true.
Qed.

Lemma wf_insertDelivery record :
  TrimSpace (D.ID record) ≠ "" → TrimSpace (D.EventID record) ≠ "" → TrimSpace (D.InstallationID record) ≠ "" →
  keeps wf (insertDelivery record).
Proof.
  intros H1 H2 H3 d d' x [[Hkey Hpair] Hi]. unfold insertDelivery.
  destruct (integer _) as [n|] eqn:Hn; [|done]. apply integer_ok in Hn as [-> Hn]. cbn [result_bind].
  destruct (bool_decide_reflect (D.Status record ∈ deliveryStatuses)) as [Hst|]; [|done]. cbn [negb orb].
  destruct (Z.ltb_spec (D.AttemptCount record) 0); [done|].
  destruct (existsb _ _) eqn:Hex; [by intros [= <- _]|]. pose proof (existsb_pair _ _ _ Hex) as Hno. clear Hex.
  destruct (deliveries d !! D.ID record) eqn:Hid; [done|]. intros [= <- _]. split; [|done]. split.
  - apply map_Forall_insert_2; [|done]. split; [done|]. split_and!; try done. cbn. lia.
  - intros k k' r r'. cbn [deliveries]. rewrite !lookup_insert_Some.
    intros [[<- <-]|[Hk Hr]] [[<- <-]|[Hk' Hr']] Hinst Hev; [done|..].
    + exfalso. by apply (Hno k' r').
    + exfalso. by apply (Hno k r).
    + by apply (Hpair k k' r r').
Qed.

Lemma wf_seen d f : wf d → wf (d <| seen := f |>).
Proof. done. Qed.

Lemma wf_deleteSeen before : keeps wf (deleteSeen before).
Proof. by intros d d' u Hd [= <- _]. Qed.

Lemma wf_insertSeen messageID now : keeps wf (insertSeen messageID now).
Proof. intros d d' u Hd. unfold insertSeen. destruct (seen d !! messageID); by intros [= <- _]. Qed.

Lemma wf_onInbox f : (∀ (i i' : gmap string inboxRow) n, map_Forall inbox_ok i → f i = Ok (i', n) → map_Forall inbox_ok i') → keeps wf (onInbox f).
Proof.
  intros Hf d d' n [Hd Hi]. unfold onInbox. destruct (f _) as [[m' n']|] eqn:Hm; [|done].
  intros [= <- _]. split; [done|by eapply Hf].
Qed.

(** A message scans by its two [JSONB] columns. *)
Lemma scan_cong r r' :
  conditionColumn r' = conditionColumn r → payloadColumn r' = payloadColumn r →
  is_ok (scanEventSubInbox r') = is_ok (scanEventSubInbox r).
Proof.
  intros H1 H2. unfold scanEventSubInbox. rewrite H1, H2. destruct (UnmarshalCondition _); [|done]. cbn [result_bind].
  by destruct (UnmarshalEvent _).
Qed.

Lemma updateKey_inbox id f (i i' : gmap string inboxRow) n :
  (∀ r r', f r = Ok r' → inbox_ok id r → inbox_ok id r') →
  map_Forall inbox_ok i → updateKey id f i = Ok (i', n) → map_Forall inbox_ok i'.
Proof.
  intros Hf Hm. unfold updateKey. destruct (i !! id) as [r|] eqn:Hr; [|by intros [= <- _]].
  destruct (f r) as [r'|] eqn:Hfr; [|done]. cbn [result_bind]. intros [= <- _].
  apply map_Forall_insert_2; [|done]. eauto.
Qed.

Lemma failedInboxRow_ok k message failedAt r r' : failedInboxRow message failedAt r = Ok r' → inbox_ok k r → inbox_ok k r'.
Proof.
  unfold failedInboxRow. destruct (integer _) as [n|] eqn:Hn; [|done]. apply integer_ok in Hn as [-> Hn]. cbn [result_bind].
  next_bind. intros [= <-] (? & ? & ? & ? & ? & Hs).
  unfold inbox_ok. rewrite (scan_cong r) by done. split_and!; try done; cbn; [case_match; set_solver|lia..].
Qed.

Lemma retriedInboxRow_ok k now r r' : retriedInboxRow now r = Ok r' → inbox_ok k r → inbox_ok k r'.
Proof.
  intros [= <-] (? & ? & ? & ? & ? & Hs). unfold inbox_ok. rewrite (scan_cong r) by done.
  split_and!; cbn; first [done|lia|set_solver].
Qed.

Lemma wf_insertInbox messageID envelope condition event now :
  TrimSpace messageID = messageID → messageID ≠ "" →
  MarshalCondition (Sub.Condition (E.Subscription_ envelope)) = Ok condition → MarshalEvent (E.Event envelope) = Ok event →
  keeps wf (insertInbox messageID envelope condition event now).
Proof.
  intros Ht Hne Hc He d d' x [Hd Hi]. unfold insertInbox.
  destruct (jsonb condition) as [c|] eqn:Hjc; [|done]. destruct (jsonb event) as [e|] eqn:Hje; [|done].
  destruct (inbox d !! messageID) eqn:Hm; [by intros [= <- _]|]. intros [= <- _]. split; [done|].
  apply map_Forall_insert_2; [|done]. destruct (condition_text _ _ _ Hc Hjc) as (m' & Hm' & _).
  pose proof (event_text _ _ _ He Hje) as Hev. split_and!; try done; [cbn; set_solver|]. unfold scanEventSubInbox.
  cbn [conditionColumn payloadColumn]. rewrite Hm'. cbn [result_bind]. by destruct (UnmarshalEvent e).
Qed.

Lemma wf_expireInbox now : keeps wf (expireInbox now).
Proof.
  apply keeps_ok. intros d [Hd Hi]. split; [done|]. intros k r'. cbn [inbox update]. rewrite updateWhere_lookup.
  intros (r & Hr & ->)%fmap_Some. pose proof (Hi _ _ Hr) as Hok. case_match; [|done].
  destruct Hok as (? & ? & ? & ? & ? & Hs). unfold inbox_ok. rewrite (scan_cong r) by done.
  split_and!; cbn; first [done|lia|set_solver].
Qed.

Lemma wf_deleteOldInbox before : keeps wf (deleteOldInbox before).
Proof.
  apply keeps_ok. intros d [Hd Hi]. split; [done|]. intros k r'. cbn [inbox update]. rewrite deleteWhere_lookup.
  destruct (inbox d !! k) as [r|] eqn:Hr; [|done]. cbn. case_match; [done|]. intros [= <-]. by apply Hi.
Qed.

Create HintDb pg.
#[local] Hint Resolve wf_expireDeliveries wf_deleteOldDeliveries wf_deleteSeen wf_insertSeen wf_expireInbox
  wf_deleteOldInbox : pg.

Section Invariant.
Context (L : Link db) (rely : ∀ i d, wf d → wf (others L i d)).

Lemma affected_preserves (P : db → Prop) command : preserves (holds P) command → preserves (holds P) (affected command).
Proof. intros Hc. unfold affected. apply preserves_bind; [done|]. preserve. Qed.

Lemma alwaysFmt_preserves {A} (P : db → Prop) operation (call : M (session db) A) :
  preserves (holds P) call → preserves (holds P) (alwaysFmt operation call).
Proof. intros Hc s Hs. unfold alwaysFmt. specialize (Hc s Hs). by destruct (call s) as [s' []]. Qed.

Lemma Enqueue_wf now record : preserves (holds wf) (Enqueue L now record).
Proof.
  unfold Enqueue, cleanupDeliveriesTx.
  destruct (bool_decide_reflect (TrimSpace (D.ID record) = "")) as [|H1]; [apply preserves_fail|].
  destruct (bool_decide_reflect (TrimSpace (D.EventID record) = "")) as [|H2]; [apply preserves_fail|].
  destruct (bool_decide_reflect (TrimSpace (D.InstallationID record) = "")) as [|H3]; [apply preserves_fail|].
  cbn [orb]. preserve; auto with pg; try apply keeps_read; apply wf_insertDelivery;
    repeat (case_match; cbn; try done).
Qed.

Lemma EnqueueEventSub_wf messageID envelope now : preserves (holds wf) (EnqueueEventSub L messageID envelope now).
Proof.
  unfold EnqueueEventSub. case_bool_decide as Hm; [apply preserves_fail|].
  apply preserves_lift. intros c Hc. apply preserves_lift. intros e He.
  preserve; auto with pg; try apply preserves_lift_end; try apply keeps_read.
  apply wf_insertInbox; [apply TrimSpace_idemp|done..].
Qed.

Lemma HasSeenEventSub_preserves (P : db → Prop) messageID now ttl s :
  (∀ i d, P d → P (others L i d)) → keeps P (deleteSeen (Add now (- ttl))) →
  P (tables s) → P (tables (HasSeenEventSub L messageID now ttl s).1).
Proof.
  intros HL Hk Hs. unfold HasSeenEventSub.
  pose proof (preserves_onPool L P HL [] _ Hk s Hs) as H1. destruct (onPool _ _ _ s) as [s1 [u|e]]; [|done].
  pose proof (preserves_onPool L P HL [messageID] (isSeen messageID) (keeps_read _ _) s1 H1) as H2.
  by destruct (onPool _ _ _ s1) as [s2 [u'|e]].
Qed.

Lemma updateWhere_step p f m m' n :
  (∀ r, ident (f r) = ident r ∧ (row_ok r → row_ok (f r))) → deliveries_wf m →
  Ok (updateWhere p f m) = Ok (m', n) → deliveries_wf m'.
Proof. intros Hf Hm ->%ok_fst. by apply updateWhere_mono. Qed.

Lemma pg_exec_wf s o : wf (tables s) → wf (tables (exec L s o)).
Proof.
  intros Hs. destruct o; cbn [exec].
  - by apply (Enqueue_wf now record s).
  - revert s Hs. apply (affected_preserves wf). preserve. apply wf_deliveries. intros m m' n Hm.
    eapply updateKey_mono; [|done]. intros. by eapply sentRow_ok.
  - revert s Hs. apply (affected_preserves wf). preserve. apply wf_deliveries. intros m m' n Hm.
    eapply updateKey_mono; [|done]. intros. by eapply failedRow_ok.
  - revert s Hs. apply (affected_preserves wf). preserve. apply wf_deliveries. intros m m' n Hm. unfold ackThroughRows.
    destruct (List.filter _ _) as [|target [|]]; [by intros [= <- _]| |done].
    apply updateWhere_step; [apply ackedRow_ok|done].
  - revert s Hs. apply (affected_preserves wf). preserve. apply wf_deliveries. intros m m' n Hm.
    apply updateWhere_step; [apply ackedRow_ok|done].
  - revert s Hs. apply (preserves_database (holds wf)). preserve. apply wf_deliveries.
    intros m m' n Hm ->%ok_fst. by apply deleteWhere_mono.
  - by apply (EnqueueEventSub_wf messageID envelope now s).
  - revert s Hs. apply (preserves_transaction _ _ rely). preserve; try apply keeps_read.
    + apply wf_onInbox. intros i i' n Hi. unfold deleteInbox. destruct (i !! messageID); intros [= <- _]; [|done].
      by apply map_Forall_delete.
    + by apply keeps_ok.
  - revert s Hs. apply (affected_preserves wf). preserve. apply wf_onInbox. intros i i' n Hi.
    eapply updateKey_inbox; [|done]. intros. by eapply failedInboxRow_ok.
  - revert s Hs. apply (affected_preserves wf). preserve. apply wf_onInbox. intros i i' n Hi.
    eapply updateKey_inbox; [|done]. intros. by eapply retriedInboxRow_ok.
  - apply HasSeenEventSub_preserves; auto with pg.
  - revert s Hs. apply (preserves_transaction _ _ rely). preserve; auto with pg.
  - revert s Hs. apply (alwaysFmt_preserves wf). preserve. by apply keeps_ok.
  - unfold SaveChannelState. case_bool_decide; [done|]. revert s Hs. apply (alwaysFmt_preserves wf). preserve. by apply keeps_ok.
  - unfold UpdateChannelState. case_bool_decide; [done|]. revert s Hs.
    apply (preserves_transaction _ _ rely). preserve; [apply keeps_read|by apply keeps_ok].
  - revert s Hs. apply (preserves_transaction _ _ rely). unfold cleanupDeliveriesTx. preserve; auto with pg.
Qed.
End Invariant.

(** ** Processed messages *)

(** The message [m] was completed at [at_] or later and is not queued. *)
Definition processed (m : string) (at_ : time) d : Prop :=
  inbox d !! m = None ∧ ∃ t, seen d !! m = Some t ∧ timestamptz at_ ≤ t.

(** Operations that happen within a day of [at_] and do not forget [m]. *)
Definition within_day (m : string) (at_ : time) (o : op) : Prop :=
  match o with
  | OpEnqueueEventSub _ _ now | OpCleanup now => now - 24 * Hour ≤ at_
  | OpHasSeenEventSub _ now ttl | OpSeenEventSub _ now ttl => now - ttl ≤ at_
  | OpForgetEventSub m' => m' ≠ m
  | OpCompleteEventSub m' at' => m' = m → at_ ≤ at'
  | _ => True
  end.

Section Processed.
Context (m : string) (at_ : time).
Abbreviation P := (processed m at_).

Lemma processed_deliveries f : keeps P (onDeliveries f).
Proof. intros d d' n Hd. unfold onDeliveries. destruct (f _) as [[m' n']|]; [|done]. by intros [= <- _]. Qed.

Lemma processed_insertDelivery record : keeps P (insertDelivery record).
Proof.
  intros d d' x Hd. unfold insertDelivery. next_bind. destruct (_ || _); [done|].
  destruct (existsb _ _); [by intros [= <- _]|]. destruct (deliveries d !! _); [done|]. by intros [= <- _].
Qed.

Lemma processed_deleteSeen before : before ≤ at_ → keeps P (deleteSeen before).
Proof.
  intros Hb. apply keeps_ok. intros d (Hi & t & Ht & Hle). split; [done|]. exists t. split; [|done].
  cbn [seen update]. rewrite deleteWhere_lookup, Ht. cbn. apply timestamptz_mono in Hb.
  destruct (Z.ltb_spec t (timestamptz before)); [lia|done].
Qed.

Lemma processed_onInbox f :
  (∀ (i i' : gmap string inboxRow) n, i !! m = None → f i = Ok (i', n) → i' !! m = None) → keeps P (onInbox f).
Proof.
  intros Hf d d' n [Hi Ht]. unfold onInbox. destruct (f _) as [[m' n']|] eqn:Hm; [|done].
  intros [= <- _]. split; [by eapply Hf|done].
Qed.

Lemma updateKey_absent id f (i i' : gmap string inboxRow) n :
  i !! m = None → updateKey id f i = Ok (i', n) → i' !! m = None.
Proof.
  intros Hi. unfold updateKey. destruct (i !! id) as [r|] eqn:Hr; [|by intros [= <- _]].
  next_bind. intros [= <- _]. rewrite lookup_insert_ne; [done|]. intros ->. congruence.
Qed.

Lemma processed_insertInbox messageID envelope condition event now :
  messageID ≠ m → keeps P (insertInbox messageID envelope condition event now).
Proof.
  intros Hne d d' x [Hi Ht]. unfold insertInbox. destruct (jsonb condition), (jsonb event); try done.
  destruct (inbox d !! messageID); intros [= <- _]; [done|]. split; [|done]. cbn [inbox]. by rewrite lookup_insert_ne.
Qed.

Lemma processed_insertSeen messageID now : keeps P (insertSeen messageID now).
Proof.
  intros d d' x (Hi & t & Ht & Hle). unfold insertSeen. destruct (seen d !! messageID) eqn:Hs; intros [= <- _]; [by split; [|exists t]|].
  split; [done|]. exists t. split; [|done]. cbn [seen]. rewrite lookup_insert_ne; [done|]. congruence.
Qed.

Lemma processed_upsertSeen messageID completedAt :
  (messageID = m → at_ ≤ completedAt) → keeps P (upsertSeen messageID completedAt).
Proof.
  intros Hle. apply keeps_ok. intros d (Hi & t & Ht & Hle'). split; [done|]. cbn [seen update].
  destruct (decide (messageID = m)) as [->|Hne].
  - eexists. split; [by rewrite lookup_insert_eq|]. by apply timestamptz_mono, Hle.
  - exists t. by rewrite lookup_insert_ne.
Qed.

Lemma processed_inbox_statement {A} (g : db → gmap string inboxRow) (a : db → A) :
  (∀ d, inbox d !! m = None → g d !! m = None) → keeps P (λ d, Ok (d <| inbox := g d |>, a d)).
Proof. intros Hg. apply keeps_ok. intros d (Hi & Ht). split; [by apply Hg|done]. Qed.

Section Link.
Context (L : Link db) (rely : ∀ i d, P d → P (others L i d)).

(** A redelivery of the message is refused, or fails, and is not queued. *)
Lemma EnqueueEventSub_refused raw envelope now s :
  TrimSpace raw = m → now - 24 * Hour ≤ at_ → P (tables s) →
  runs (EnqueueEventSub L raw envelope now) s (λ s' answer,
    P (tables s') ∧ (answer = Ok (I.zero, false) ∨ is_ok answer = false)).
Proof.
  intros Hraw Hnow Hs. unfold EnqueueEventSub. rewrite Hraw. case_bool_decide; [split; [done|by right]|].
  unfold runs, bind at 1, lift at 1. destruct (MarshalCondition _) as [c|e]; [|split; [done|by right]].
  unfold bind at 1, lift at 1. destruct (MarshalEvent _) as [e|e]; [|split; [done|by right]].
  assert (processed m at_ (others L (sent s) (tables s))) as Ht by by apply rely.
  match goal with |- let '(s', answer) := ?x s in _ => change (runs x s (λ s' answer,
    P (tables s') ∧ (answer = Ok (I.zero, false) ∨ is_ok answer = false))) end.
  tx_step; [intros; cbn; split; [done|by right]|]. intros n.
  tx_step. tx_step. tx_step; [intros; cbn; split; [done|by right]|]. intros k d1 u Hd1%execute_ok.
  apply processed_deleteSeen in Hd1 as Hp1; [|cbn; unfold Add; lia|done]. cbn beta iota.
  tx_step. tx_step. tx_step; [intros; cbn; split; [done|by right]|]. intros k' d2 known Hk%execute_ok. cbn beta iota.
  unfold isSeen in Hk. injection Hk as <- <-. destruct Hp1 as (Hi & t & Hseen & Hle). rewrite Hseen.
  rewrite bool_decide_true by done. tx_step. tx_step.
  tx_step; [intros; cbn; split; [done|by right]|]. intros k''. split; cbn; intros; (split; [|auto]).
  - split; [done|]. eauto.
  - split; [done|]. eauto.
Qed.

Lemma pg_exec_processed s o : within_day m at_ o → P (tables s) → P (tables (exec L s o)).
Proof.
  intros Ho Hs. destruct o; cbn [exec within_day] in *.
  - revert s Hs. unfold Enqueue, cleanupDeliveriesTx. case_match; [done|].
    apply (preserves_transaction _ _ rely). preserve; try apply keeps_read; try by apply keeps_ok.
    apply processed_insertDelivery.
  - revert s Hs. apply (affected_preserves P). preserve. apply processed_deliveries.
  - revert s Hs. apply (affected_preserves P). preserve. apply processed_deliveries.
  - revert s Hs. apply (affected_preserves P). preserve. apply processed_deliveries.
  - revert s Hs. apply (affected_preserves P). preserve. apply processed_deliveries.
  - revert s Hs. apply (preserves_database (holds P)). preserve. apply processed_deliveries.
  - destruct (decide (TrimSpace messageID = m)) as [Hm|Hm].
    { pose proof (EnqueueEventSub_refused messageID envelope now s Hm Ho Hs) as Hr. unfold runs in Hr.
      destruct (EnqueueEventSub L messageID envelope now s). apply Hr. }
    revert s Hs. change (preserves (holds P) (EnqueueEventSub L messageID envelope now)).
    unfold EnqueueEventSub. case_bool_decide; [apply preserves_fail|].
    apply preserves_lift. intros c Hc. apply preserves_lift. intros e He.
    preserve; try apply preserves_lift_end; try apply keeps_read.
    + apply processed_deleteSeen. unfold Add. lia.
    + by apply processed_insertInbox.
  - revert s Hs. apply (preserves_transaction _ _ rely). preserve; try apply keeps_read.
    + apply processed_onInbox. intros i i' n Hi. unfold deleteInbox. destruct (i !! messageID); intros [= <- _]; [|done].
      by rewrite lookup_delete_None; right.
    + by apply processed_upsertSeen.
  - revert s Hs. apply (affected_preserves P). preserve. apply processed_onInbox. intros i i' n. apply updateKey_absent.
  - revert s Hs. apply (affected_preserves P). preserve. apply processed_onInbox. intros i i' n. apply updateKey_absent.
  - apply HasSeenEventSub_preserves; [done| |done]. apply processed_deleteSeen. unfold Add. lia.
  - revert s Hs. apply (preserves_transaction _ _ rely). preserve; [|apply processed_insertSeen].
    apply processed_deleteSeen. unfold Add. lia.
  - revert s Hs. apply (alwaysFmt_preserves P). preserve. apply keeps_ok. intros d (Hi & t & Ht & Hle). split; [done|].
    exists t. cbn [seen update]. by rewrite lookup_delete_ne.
  - unfold SaveChannelState. case_bool_decide; [done|]. revert s Hs. apply (alwaysFmt_preserves P). preserve.
    by apply keeps_ok.
  - unfold UpdateChannelState. case_bool_decide; [done|]. revert s Hs.
    apply (preserves_transaction _ _ rely). preserve; [apply keeps_read|by apply keeps_ok].
  - revert s Hs. apply (preserves_transaction _ _ rely). unfold cleanupDeliveriesTx.
    preserve; try by apply keeps_ok.
    + apply processed_inbox_statement. intros d Hd. by rewrite updateWhere_lookup, Hd.
    + apply processed_inbox_statement. intros d Hd. by rewrite deleteWhere_lookup, Hd.
    + apply processed_deleteSeen. unfold Add. lia.
Qed.
End Link.
End Processed.

Lemma CompleteEventSub_runs (m : string) (at_ : time) L (s : session db) :
  runs (CompleteEventSub L m at_) s (λ s' answer, answer = Ok () → processed m at_ (tables s')).
Proof.
  unfold CompleteEventSub. tx_step; [done|]. intros n. tx_step. tx_step. tx_step; [done|].
  intros k d1 removed Hdel%execute_ok. cbn beta iota.
  assert (inbox d1 !! m = None) as Hgone.
  { unfold onInbox, deleteInbox in Hdel. destruct (inbox (others L (sent s) (tables s)) !! m) eqn:Hm;
      injection Hdel as <- _; [|done]. cbn [inbox]. apply lookup_delete_eq. }
  assert (∀ n, runs (let! _ := database "record completed EventSub message" (onTx L [m] (upsertSeen m at_)) in
    commitDatabaseTx L "complete EventSub") (mkTx (others L (sent s) (tables s)) d1 false n)
    (λ x answer, ∀ m0 : nat, answer = Ok () → processed m at_ (published x))) as Hrest.
  { intros n'. tx_step. tx_step. tx_step; [done|]. intros k' d2 u Hup%execute_ok. cbn beta iota.
    unfold upsertSeen in Hup. injection Hup as <-. tx_step. tx_step. tx_step; [done|]. intros k''.
    split; [|done]. intros m0 _. cbn [published]. split; [done|].
    exists (timestamptz at_). split; [apply lookup_insert_eq|done]. }
  tx_step. destruct (removed =? 0).
  - tx_step. tx_step; [done|]. intros k' d2 known Hk%execute_ok. unfold isSeen in Hk. injection Hk as <- <-. cbn beta iota.
    case_bool_decide; [apply Hrest|done].
  - apply Hrest.
Qed.

(** ** Agreement with the in-memory store *)

Definition absInbox (r : inboxRow) : I.t := match scanEventSubInbox r with Ok record => record | Err _ => I.zero end.
Definition abs d : DeliveryStore.t :=
  DeliveryStore.mk (scanDelivery <$> deliveries d) (seen d) (absInbox <$> inbox d) (channels d).

(** The operations both stores mean to perform alike. *)
Definition pgAnswer (L : Link db) (s : session db) (o : op) : session db * result Z :=
  let unit_ := λ x : session db * result (), (x.1, match x.2 with Ok _ => Ok 0 | Err e => Err e end) in
  match o with
  | OpMarkSent id sentAt => unit_ (MarkSent L id sentAt s)
  | OpMarkFailed id failure failedAt => unit_ (MarkFailed L id failure failedAt s)
  | OpAckThrough installationID eventID ackedAt => unit_ (AckThrough L installationID eventID ackedAt s)
  | OpAck installationID eventID ackedAt => unit_ (Ack L installationID eventID ackedAt s)
  | OpDeleteForInstallation installationID => DeleteForInstallation L installationID s
  | OpMarkEventSubFailed messageID failure failedAt => unit_ (MarkEventSubFailed L messageID failure failedAt s)
  | OpRetryEventSub messageID now => unit_ (RetryEventSub L messageID now s)
  | _ => (s, Ok 0)
  end.

Definition memAnswer {rt : GoRuntime} (a : DeliveryStore.t) (o : op) : DeliveryStore.t * result Z :=
  let unit_ := λ x : DeliveryStore.t * option error, (x.1, match x.2 with None => Ok 0 | Some e => Err e end) in
  match o with
  | OpMarkSent id sentAt => unit_ (DeliveryStore.MarkSent a id sentAt)
  | OpMarkFailed id (Some failure) failedAt => unit_ (DeliveryStore.MarkFailed a id failure failedAt)
  | OpAckThrough installationID eventID ackedAt => unit_ (DeliveryStore.AckThrough a installationID eventID ackedAt)
  | OpAck installationID eventID ackedAt => unit_ (DeliveryStore.Ack a installationID eventID ackedAt)
  | OpDeleteForInstallation installationID =>
      let '(a, (removed, err)) := DeliveryStore.DeleteForInstallation a installationID in
      (a, match err with None => Ok removed | Some e => Err e end)
  | OpMarkEventSubFailed messageID failure failedAt => unit_ (DeliveryStore.MarkEventSubFailed a messageID failure failedAt)
  | OpRetryEventSub messageID now => unit_ (DeliveryStore.RetryEventSub a messageID now)
  | _ => (a, Ok 0)
  end.

(** The operations both stores have: failures are errors, and deliveries were
    created at a time that is set. *)
Definition comparable d (o : op) : Prop :=
  match o with
  | OpMarkSent _ _ | OpMarkFailed _ (Some _) _ | OpAck _ _ _ | OpMarkEventSubFailed _ (Some _) _ | OpRetryEventSub _ _
  | OpDeleteForInstallation _ => True
  | OpAckThrough _ _ _ => map_Forall (λ _ r, D.CreatedAt (fields r) ≠ 0) (deliveries d)
  | _ => False
  end.

(** The operation with its time cut to the microsecond. *)
Definition cut (o : op) : op :=
  match o with
  | OpMarkSent id t => OpMarkSent id (timestamptz t)
  | OpMarkFailed id failure t => OpMarkFailed id failure (timestamptz t)
  | OpAckThrough installationID eventID t => OpAckThrough installationID eventID (timestamptz t)
  | OpAck installationID eventID t => OpAck installationID eventID (timestamptz t)
  | OpMarkEventSubFailed messageID failure t => OpMarkEventSubFailed messageID failure (timestamptz t)
  | OpRetryEventSub messageID t => OpRetryEventSub messageID (timestamptz t)
  | _ => o
  end.

(** An operation whose time is in microseconds. *)
Definition comparableAt d (o : op) : Prop :=
  match o with
  | OpMarkSent _ t | OpMarkFailed _ (Some _) t | OpAck _ _ t | OpMarkEventSubFailed _ (Some _) t | OpRetryEventSub _ t =>
      timestamptz t = t
  | OpAckThrough _ _ t => timestamptz t = t ∧ map_Forall (λ _ r, D.CreatedAt (fields r) ≠ 0) (deliveries d)
  | OpDeleteForInstallation _ => True
  | _ => False
  end.

Lemma retryInterval_agrees n dl : 0 ≤ n → retryInterval n = Ok dl → dl = DeliveryStore.retryDelay (n + 1).
Proof.
  intros Hn. unfold retryInterval, powerOfTwo. rewrite Z.max_l by done. destruct (Z.ltb_spec n 31) as [Hlt|]; [|done].
  destruct (integer (2 ^ n)) as [k|] eqn:Hk; [|done]. apply integer_ok in Hk as [-> _]. cbn [result_bind].
  intros [= <-]. rewrite DeliveryProofs.retryDelay_eq. f_equal.
  replace (Z.min (Z.max (n + 1) 1) 7 - 1) with (Z.min n 6) by lia.
  destruct (Z.le_gt_cases n 6) as [Hle|Hgt].
  - rewrite (Z.min_l n 6) by done. apply Z.min_r. change 64 with (2 ^ 6). apply Z.pow_le_mono_r; lia.
  - rewrite (Z.min_r n 6) by lia. apply Z.min_l. change 64 with (2 ^ 6). apply Z.pow_le_mono_r; lia.
Qed.

Lemma abs_deliveries d m : abs (d <| deliveries := m |>) = (abs d) <| DeliveryStore.Records := scanDelivery <$> m |>.
Proof. done. Qed.
Lemma abs_inbox d i : abs (d <| inbox := i |>) = (abs d) <| DeliveryStore.EventSubInbox := absInbox <$> i |>.
Proof. done. Qed.

Lemma attempts_wrap n a : integer n = Ok a → int64_wrap n = a.
Proof. intros [-> Hn]%integer_ok. apply int64_wrap_id. unfold min_int64, max_int64. lia. Qed.

Lemma sentRow_agrees sentAt r r' :
  row_ok r → timestamptz sentAt = sentAt → sentRow sentAt r = Ok r' →
  scanDelivery r' =
    let record := (scanDelivery r) <| D.Status := DeliveryStatusSent |>
                    <| D.AttemptCount := int64_wrap (D.AttemptCount (scanDelivery r) + 1) |>
                    <| D.SentAt := sentAt |> <| D.LastError := "" |> in
    record <| D.AvailableAt := Add sentAt (DeliveryStore.retryDelay (D.AttemptCount record)) |>.
Proof.
  intros (_ & _ & _ & _ & Hn) Ht. unfold sentRow. rewrite Ht.
  destruct (integer _) as [n|] eqn:Hi; [|done]. cbn [result_bind]. destruct (retryInterval _) as [dl|] eqn:Hr; [|done].
  cbn [result_bind]. intros [= <-]. apply retryInterval_agrees in Hr as ->; [|lia].
  change (D.AttemptCount (scanDelivery r)) with (D.AttemptCount (fields r)). rewrite (attempts_wrap _ _ Hi).
  apply integer_ok in Hi as [-> _]. done.
Qed.

(** The failure branch of both tables. *)
Lemma failure_agrees n a expires failedAt available available' :
  0 ≤ n → integer (n + 1) = Ok a → 
  (if (8 <=? a) || (expires <=? failedAt) then Ok available
   else let? delay := retryInterval n in Ok (failedAt + delay)) = Ok available' →
  (8 <=? a) || (expires <=? failedAt) = ((8 <=? int64_wrap (n + 1)) || negb (Before failedAt expires)) ∧
  available' = (if (8 <=? int64_wrap (n + 1)) || negb (Before failedAt expires) then available
                else Add failedAt (DeliveryStore.retryDelay (int64_wrap (n + 1)))).
Proof.
  intros Hn Ha. rewrite (attempts_wrap _ _ Ha). apply integer_ok in Ha as [-> _].
  assert ((expires <=? failedAt) = negb (Before failedAt expires)) as ->.
  { unfold Before. rewrite Z.ltb_antisym, negb_involutive. done. }
  destruct (_ || _); [by intros [= <-]|]. destruct (retryInterval n) as [dl|] eqn:Hr; [|done]. cbn [result_bind].
  intros [= <-]. apply retryInterval_agrees in Hr as ->; done.
Qed.

Lemma failedRow_agrees failure failedAt r r' :
  row_ok r → timestamptz failedAt = failedAt → failedRow (Error failure) failedAt r = Ok r' →
  scanDelivery r' =
    let n := int64_wrap (D.AttemptCount (fields r) + 1) in
    let record := (scanDelivery r) <| D.AttemptCount := n |> <| D.LastError := Error failure |> in
    if (8 <=? n) || negb (Before failedAt (D.ExpiresAt (fields r)))
    then record <| D.Status := DeliveryStatusDead |>
    else record <| D.Status := DeliveryStatusPending |>
                <| D.AvailableAt := Add failedAt (DeliveryStore.retryDelay n) |>.
Proof.
  intros (_ & _ & _ & _ & Hn) Ht. unfold failedRow. rewrite Ht.
  destruct (integer _) as [n|] eqn:Hi; [|done]. cbn [result_bind].
  match goal with |- result_bind ?c _ = _ → _ => destruct c as [av|] eqn:Hav; [|done] end. cbn [result_bind].
  intros [= <-]. destruct (failure_agrees _ _ _ _ _ _ (proj1 Hn) Hi Hav) as [Hover ->]. rewrite Hover.
  rewrite <-(attempts_wrap _ _ Hi). clear Hav Hover. cbv zeta. destruct (_ || _); done.
Qed.

Lemma failedInboxRow_agrees k failure failedAt r r' :
  inbox_ok k r → timestamptz failedAt = failedAt → failedInboxRow (Error failure) failedAt r = Ok r' →
  absInbox r' =
    let n := int64_wrap (I.AttemptCount (entry r) + 1) in
    let record := (absInbox r) <| I.AttemptCount := n |>
                    <| I.LastAttemptAt := failedAt |> <| I.LastError := Error failure |> in
    if (8 <=? n) || negb (Before failedAt (I.ExpiresAt (entry r)))
    then record <| I.Status := EventSubInboxStatusDead |>
    else record <| I.Status := EventSubInboxStatusPending |>
                <| I.AvailableAt := Add failedAt (DeliveryStore.retryDelay n) |>.
Proof.
  intros (_ & _ & _ & _ & Hn & Hok) Ht. unfold failedInboxRow. rewrite Ht.
  destruct (integer _) as [n|] eqn:Hi; [|done]. cbn [result_bind].
  match goal with |- result_bind ?c _ = _ → _ => destruct c as [av|] eqn:Hav; [|done] end. cbn [result_bind].
  intros [= <-]. destruct (failure_agrees _ _ _ _ _ _ (proj1 Hn) Hi Hav) as [Hover ->]. rewrite Hover.
  rewrite <-(attempts_wrap _ _ Hi). clear Hav Hover. unfold absInbox, scanEventSubInbox in *. cbn [conditionColumn payloadColumn].
  destruct (UnmarshalCondition _) as [c|]; [|done]. cbn [result_bind] in *.
  destruct (UnmarshalEvent _) as [e|]; [|done]. cbn [result_bind] in *.
  cbv zeta. destruct (_ || _); done.
Qed.

Lemma retriedInboxRow_agrees k now r r' :
  inbox_ok k r → timestamptz now = now → retriedInboxRow now r = Ok r' →
  absInbox r' = (absInbox r) <| I.Status := EventSubInboxStatusPending |> <| I.AttemptCount := 0 |>
                  <| I.AvailableAt := now |> <| I.ExpiresAt := Add now (24 * Hour) |> <| I.LastError := "" |>.
Proof.
  intros (_ & _ & _ & _ & _ & Hok) Ht. unfold retriedInboxRow. rewrite Ht. intros [= <-].
  unfold absInbox, scanEventSubInbox in *. cbn [conditionColumn payloadColumn].
  destruct (UnmarshalCondition _) as [c|]; [|done]. cbn [result_bind] in *.
  destruct (UnmarshalEvent _) as [e|]; [|done]. done.
Qed.

(** ** The statements against the in-memory operations *)

Section Agreement.
Context {rt : GoRuntime}.

Lemma updateKey_agrees (d d' : db) n id (f : deliveryRow → result deliveryRow) (g : D.t → D.t) :
  wf d → (∀ r r', row_ok r → f r = Ok r' → scanDelivery r' = g (scanDelivery r)) →
  onDeliveries (updateKey id f) d = Ok (d', n) →
  match DeliveryStore.Records (abs d) !! id with
  | None => d' = d ∧ n = 0
  | Some record => n = 1 ∧
      abs d' = (abs d) <| DeliveryStore.Records := <[id := g record]> (DeliveryStore.Records (abs d)) |>
  end.
Proof.
  intros [[Hkey _] _] Hf. unfold onDeliveries, updateKey. cbn [DeliveryStore.Records abs]. rewrite lookup_fmap.
  destruct (deliveries d !! id) as [r|] eqn:Hr; cbn [fmap option_fmap option_map].
  - destruct (f r) as [r'|] eqn:Hfr; [|done]. cbn [result_bind]. intros [= <- <-]. split; [done|].
    change (mkDb _ _ _ _) with (d <| deliveries := <[id:=r']> (deliveries d) |>). rewrite abs_deliveries, fmap_insert.
    rewrite (Hf r r'); [done| |done]. by apply (Hkey _ _ Hr).
  - intros [= <- <-]. by destruct d.
Qed.

Lemma updateKey_inbox_agrees (d d' : db) n id (f : inboxRow → result inboxRow) (g : I.t → I.t) :
  wf d → (∀ r r', inbox_ok id r → f r = Ok r' → absInbox r' = g (absInbox r)) →
  onInbox (updateKey id f) d = Ok (d', n) →
  match DeliveryStore.EventSubInbox (abs d) !! id with
  | None => d' = d ∧ n = 0
  | Some record => n = 1 ∧
      abs d' = (abs d) <| DeliveryStore.EventSubInbox := <[id := g record]> (DeliveryStore.EventSubInbox (abs d)) |>
  end.
Proof.
  intros [_ Hkey] Hf. unfold onInbox, updateKey. cbn [DeliveryStore.EventSubInbox abs]. rewrite lookup_fmap.
  destruct (inbox d !! id) as [r|] eqn:Hr; cbn [fmap option_fmap option_map].
  - destruct (f r) as [r'|] eqn:Hfr; [|done]. cbn [result_bind]. intros [= <- <-]. split; [done|].
    change (mkDb _ _ _ _) with (d <| inbox := <[id:=r']> (inbox d) |>). rewrite abs_inbox, fmap_insert.
    rewrite (Hf r r'); [done| |done]. by apply (Hkey _ _ Hr).
  - intros [= <- <-]. by destruct d.
Qed.

(** The rows a condition selects, and whether there is one. *)
Lemma updateWhere_agrees (p : string → deliveryRow → bool) (q : string → D.t → bool) f g (m : gmap string deliveryRow) :
  (∀ k r, q k (scanDelivery r) = p k r) → (∀ r, scanDelivery (f r) = g (scanDelivery r)) →
  scanDelivery <$> (updateWhere p f m).1 = range_update (λ k v, Some (if q k v then g v else v)) (scanDelivery <$> m) ∧
  ((updateWhere p f m).2 =? 0) = negb (range_exists q (scanDelivery <$> m)).
Proof.
  intros Hq Hg. split.
  - apply map_eq. intros k. rewrite lookup_fmap, updateWhere_lookup, range_update_lookup, lookup_fmap.
    destruct (m !! k) as [r|]; [|done]. cbn. rewrite Hq. by destruct (p k r); rewrite ?Hg.
  - unfold updateWhere, mlen. cbn [snd]. apply eq_true_iff_eq. rewrite Z.eqb_eq, negb_true_iff, range_exists_false. split.
    + intros Hz k v. rewrite lookup_fmap. intros (r & Hr & ->)%fmap_Some. rewrite Hq. apply not_true_iff_false. intros Hp.
      assert (filter (λ kv : string * deliveryRow, p kv.1 kv.2 = true) m = ∅) as He by (apply map_size_empty_inv; lia).
      assert (filter (λ kv : string * deliveryRow, p kv.1 kv.2 = true) m !! k = Some r) as Hk
        by (by apply map_lookup_filter_Some). by rewrite He in Hk.
    + intros Hall. assert (filter (λ kv : string * deliveryRow, p kv.1 kv.2 = true) m = ∅) as ->; [|done].
      apply map_empty. intros k. apply map_lookup_filter_None. right. intros r Hr. cbn. rewrite <-Hq.
      rewrite (Hall k (scanDelivery r)); [done|]. by rewrite lookup_fmap, Hr.
Qed.

Lemma deleteWhere_agrees (p : string → deliveryRow → bool) (q : string → D.t → bool) (m : gmap string deliveryRow) :
  (∀ k r, q k (scanDelivery r) = p k r) →
  range_delete_count q (scanDelivery <$> m) = (scanDelivery <$> (deleteWhere p m).1, (deleteWhere p m).2).
Proof.
  intros Hq. destruct (range_delete_count_spec q (scanDelivery <$> m)) as [H1 H2].
  assert (range_delete q (scanDelivery <$> m) = scanDelivery <$> (deleteWhere p m).1) as Heq.
  { apply map_eq. intros k. rewrite range_delete_lookup, !lookup_fmap, deleteWhere_lookup.
    destruct (m !! k) as [r|]; [|done]. cbn. rewrite Hq. by destruct (p k r). }
  rewrite Heq in H1, H2. rewrite (surjective_pairing (range_delete_count _ _)), H1, H2. f_equal.
  rewrite !map_size_fmap. unfold deleteWhere, mlen. cbn [fst snd].
  pose proof (map_filter_union_complement (λ kv : string * deliveryRow, p kv.1 kv.2 = true) m) as Hu.
  rewrite <-Hu at 1. rewrite map_size_disj_union by apply map_disjoint_filter_complement.
  replace (filter (λ kv : string * deliveryRow, ¬ p kv.1 kv.2 = true) m)
    with (filter (λ kv : string * deliveryRow, p kv.1 kv.2 = false) m); [lia|].
  apply map_filter_ext. intros k r _. cbn. by rewrite not_true_iff_false.
Qed.

Lemma ack_agrees ackedAt r :
  timestamptz ackedAt = ackedAt → scanDelivery (ackedRow ackedAt r) = DeliveryStore.acknowledge ackedAt (scanDelivery r).
Proof. intros Ht. unfold ackedRow. by rewrite Ht. Qed.

(** The one row of an installation and event. *)
Lemma target_agrees (d : db) inst ev :
  wf d →
  match List.filter (samePair inst ev) (map_to_list (deliveries d)).*2 with
  | [] => range_find (DeliveryStore.samePair inst ev) (scanDelivery <$> deliveries d) = None
  | [target] => ∃ k, range_find (DeliveryStore.samePair inst ev) (scanDelivery <$> deliveries d) =
                     Some (k, scanDelivery target) ∧ deliveries d !! k = Some target ∧
                   samePair inst ev target = true
  | _ => False
  end.
Proof.
  intros [[Hkey Hpair] _].
  assert (∀ r, r ∈ List.filter (samePair inst ev) (map_to_list (deliveries d)).*2 ↔
    ∃ k, deliveries d !! k = Some r ∧ samePair inst ev r = true) as Hin.
  { intros r. rewrite elem_of_filter_bool, list_elem_of_fmap. split.
    - intros [([k r'] & -> & Hk%elem_of_map_to_list) Hp]. eauto.
    - intros (k & Hk & Hp). split; [|done]. exists (k, r). by rewrite elem_of_map_to_list. }
  assert (∀ k r k' r', deliveries d !! k = Some r → deliveries d !! k' = Some r' →
    samePair inst ev r = true → samePair inst ev r' = true → k = k') as Huniq.
  { unfold samePair. intros k r k' r' Hk Hk'. rewrite !andb_true_iff, !bool_decide_eq_true. intros [??] [??].
    apply (Hpair k k' r r'); congruence. }
  assert (NoDup (List.filter (samePair inst ev) (map_to_list (deliveries d)).*2)) as Hnd.
  { apply NoDup_ListNoDup, List.NoDup_filter, NoDup_ListNoDup, (NoDup_fmap_1 (λ r, D.ID (fields r))).
    replace ((λ r, D.ID (fields r)) <$> (map_to_list (deliveries d)).*2) with (map_to_list (deliveries d)).*1.
    - apply NoDup_fst_map_to_list.
    - rewrite <-list_fmap_compose. apply list_fmap_ext. intros i [k r] Hi%list_elem_of_lookup_2. cbn.
      apply elem_of_map_to_list in Hi. symmetry. by apply Hkey. }
  destruct (List.filter _ _) as [|target [|other rest]] eqn:Hl.
  - apply range_find_None. intros k v. rewrite lookup_fmap. intros (r & Hr & ->)%fmap_Some.
    apply not_true_iff_false. intros Hp. assert (r ∈ @nil deliveryRow) as Hno by (apply Hin; eauto).
    by apply elem_of_nil in Hno.
  - destruct (proj1 (Hin target)) as (k & Hk & Hp); [by left|]. exists k. split; [|done].
    destruct (range_find _ _) as [[k' v]|] eqn:Hf.
    + apply range_find_Some in Hf as [Hv Hq]. rewrite lookup_fmap in Hv. apply fmap_Some in Hv as (r & Hr & ->).
      assert (k' = k) as -> by (by apply (Huniq k' r k target)). by simplify_eq.
    + exfalso. apply range_find_None with (k := k) (v := scanDelivery target) in Hf; [|by rewrite lookup_fmap, Hk].
      change (samePair inst ev target = false) in Hf. congruence.
  - destruct (proj1 (Hin target)) as (k & Hk & Hp); [by left|].
    destruct (proj1 (Hin other)) as (k' & Hk' & Hp'); [by right; left|].
    assert (k = k') as -> by (by apply (Huniq k target k' other)). simplify_eq.
    apply NoDup_cons in Hnd as [Hnot _]. apply Hnot. by left.
Qed.

(** The texts and the statement of each of these operations. *)
Definition statement (o : op) : list string * (db → result (db * Z)) :=
  match o with
  | OpMarkSent id sentAt => ([id], onDeliveries (updateKey id (sentRow sentAt)))
  | OpMarkFailed id failure failedAt =>
      ([id; errorText failure], onDeliveries (updateKey id (failedRow (errorText failure) failedAt)))
  | OpAckThrough installationID eventID ackedAt =>
      ([installationID; eventID], onDeliveries (ackThroughRows installationID eventID ackedAt))
  | OpAck installationID eventID ackedAt =>
      ([installationID; eventID], onDeliveries (λ m,
         Ok (updateWhere (λ _, samePair installationID eventID) (ackedRow ackedAt) m)))
  | OpDeleteForInstallation installationID =>
      ([installationID], onDeliveries (λ m,
         Ok (deleteWhere (λ _ r, D.InstallationID (fields r) == installationID) m)))
  | OpMarkEventSubFailed messageID failure failedAt =>
      ([messageID; errorText failure], onInbox (updateKey messageID (failedInboxRow (errorText failure) failedAt)))
  | OpRetryEventSub messageID now => ([messageID], onInbox (updateKey messageID (retriedInboxRow now)))
  | _ => ([], λ d, Ok (d, 0))
  end.

Definition answerOf (o : op) (n : Z) : result Z :=
  match o with
  | OpDeleteForInstallation _ => Ok n
  | _ => if n =? 0 then Err ErrRegistrationNotFound else Ok 0
  end.

(** The statement of an operation, when it succeeds, against the in-memory
    operation. *)
Definition agreeing (o : op) : Prop := ∀ d d' n,
  wf d → comparableAt d o → (statement o).2 d = Ok (d', n) → memAnswer (abs d) o = (abs d', answerOf o n).

Lemma MarkSent_agreeing (id : string) (t : time) : agreeing (OpMarkSent id t).
Proof.
  intros d d' n Hwf Hc. cbn [statement snd fst memAnswer comparableAt answerOf] in *. intros Hf. apply (updateKey_agrees d d' n id (sentRow t) (λ record,
    let record := record <| D.Status := DeliveryStatusSent |>
                    <| D.AttemptCount := int64_wrap (D.AttemptCount record + 1) |>
                    <| D.SentAt := t |> <| D.LastError := "" |> in
    record <| D.AvailableAt := Add t (DeliveryStore.retryDelay (D.AttemptCount record)) |>)) in Hf;
    [|done|intros; by apply sentRow_agrees].
  unfold DeliveryStore.MarkSent. destruct (DeliveryStore.Records (abs d) !! id); destruct Hf as [H1 H2].
  - by rewrite H1, H2.
  - by rewrite H1, H2.
Qed.

Lemma MarkFailed_agreeing (id : string) (failure : error) (t : time) : agreeing (OpMarkFailed id (Some failure) t).
Proof.
  intros d d' n Hwf Hc. cbn [statement snd fst memAnswer comparableAt answerOf] in *. intros Hf. apply (updateKey_agrees d d' n id (failedRow (Error failure) t) (λ record,
    let n := int64_wrap (D.AttemptCount record + 1) in
    let record' := record <| D.AttemptCount := n |> <| D.LastError := Error failure |> in
    if (8 <=? n) || negb (Before t (D.ExpiresAt record))
    then record' <| D.Status := DeliveryStatusDead |>
    else record' <| D.Status := DeliveryStatusPending |>
                 <| D.AvailableAt := Add t (DeliveryStore.retryDelay n) |>)) in Hf;
    [|done|intros; by apply failedRow_agrees].
  unfold DeliveryStore.MarkFailed. destruct (DeliveryStore.Records (abs d) !! id); destruct Hf as [H1 H2].
  - by rewrite H1, H2.
  - by rewrite H1, H2.
Qed.

Lemma AckThrough_agreeing (inst ev : string) (t : time) : agreeing (OpAckThrough inst ev t).
Proof.
  intros d d' n Hwf Hc. cbn [statement snd fst memAnswer comparableAt answerOf] in *. destruct Hc as [Ht Hnz]. unfold onDeliveries, ackThroughRows, DeliveryStore.AckThrough.
  pose proof (target_agrees d inst ev Hwf) as Htarget. cbn [DeliveryStore.Records abs].
  destruct (List.filter _ _) as [|target [|]]; [| |done].
  - rewrite Htarget. intros [= <- <-]. by destruct d.
  - destruct Htarget as (k & -> & Hk & Hp). intros Heq.
    assert (D.CreatedAt (fields target) ≠ 0) as Hne by by apply (Hnz k).
    unfold IsZero. change (D.CreatedAt (scanDelivery target)) with (D.CreatedAt (fields target)).
    destruct (Z.eqb_spec (D.CreatedAt (fields target)) 0) as [|_]; [done|].
    set (p := λ (_ : string) (r : deliveryRow), (D.InstallationID (fields r) == inst) &&
               (D.CreatedAt (fields r) <=? D.CreatedAt (fields target))) in *.
    set (q := λ (_ : string) (r : D.t), (D.InstallationID r == inst) && (D.CreatedAt r <=? D.CreatedAt (fields target))).
    destruct (updateWhere_agrees p q (ackedRow t) (DeliveryStore.acknowledge t) (deliveries d)) as [H1 H2];
      [done|intros; by apply ack_agrees|].
    destruct (updateWhere p (ackedRow t) (deliveries d)) as [m' n'] eqn:Hu. injection Heq as <- <-.
    cbn [fst snd] in H1, H2. rewrite H2.
    assert (range_exists q (scanDelivery <$> deliveries d) = true) as ->.
    { apply range_exists_true. exists k, (scanDelivery target). split; [by rewrite lookup_fmap, Hk|].
      unfold samePair in Hp. apply andb_true_iff in Hp as [Hp _]. unfold q. apply andb_true_iff. split; [done|].
      apply Z.leb_refl. }
    cbn [negb]. f_equal. cbn [fst]. unfold abs. cbn [deliveries seen inbox channels]. rewrite H1.
    cbn [DeliveryStore.Records DeliveryStore.Seen DeliveryStore.EventSubInbox DeliveryStore.ChannelStates update].
    f_equal. rewrite !range_update_imap. apply map_eq. intros i. rewrite !map_lookup_imap.
    destruct ((scanDelivery <$> deliveries d) !! i) as [v|]; [|done]. cbn. unfold q, After.
    rewrite Z.leb_antisym. destruct (bool_decide (D.InstallationID v = inst)); cbn; [|done]. by destruct (_ <? _).
Qed.

Lemma Ack_agreeing (inst ev : string) (t : time) : agreeing (OpAck inst ev t).
Proof.
  intros d d' n Hwf Hc. cbn [statement snd fst memAnswer comparableAt answerOf] in *. intros Heq. unfold onDeliveries in Heq. unfold DeliveryStore.Ack.
  destruct (updateWhere_agrees (λ _, samePair inst ev) (DeliveryStore.samePair inst ev) (ackedRow t)
    (DeliveryStore.acknowledge t) (deliveries d)) as [H1 H2]; [done|intros; by apply ack_agrees|].
  destruct (updateWhere _ (ackedRow t) (deliveries d)) as [m' n'] eqn:Hu. injection Heq as <- <-.
  cbn [fst snd] in H1, H2. rewrite H2. cbn [DeliveryStore.Records abs]. unfold abs. cbn [deliveries seen inbox channels].
  rewrite H1. cbn [DeliveryStore.Records DeliveryStore.Seen DeliveryStore.EventSubInbox DeliveryStore.ChannelStates update].
  replace (range_update (λ k v, Some (if DeliveryStore.samePair inst ev k v then DeliveryStore.acknowledge t v else v))
      (scanDelivery <$> deliveries d))
    with (range_update (λ id record, if DeliveryStore.samePair inst ev id record
      then Some (DeliveryStore.acknowledge t record) else Some record) (scanDelivery <$> deliveries d)).
  2: { rewrite !range_update_imap. apply map_eq. intros i. rewrite !map_lookup_imap.
       destruct ((scanDelivery <$> deliveries d) !! i) as [v|]; [|done]. cbn. by destruct (DeliveryStore.samePair _ _ _ _). }
  by destruct (range_exists _ _).
Qed.

Lemma Delete_agreeing (inst : string) : agreeing (OpDeleteForInstallation inst).
Proof.
  intros d d' n Hwf Hc. cbn [statement snd fst memAnswer comparableAt answerOf] in *. intros Heq. unfold onDeliveries in Heq. unfold DeliveryStore.DeleteForInstallation.
  pose proof (deleteWhere_agrees (λ _ r, D.InstallationID (fields r) == inst) (λ _ record, D.InstallationID record == inst)
    (deliveries d) (λ _ _, eq_refl)) as Hd.
  destruct (deleteWhere _ (deliveries d)) as [m' n'] eqn:Hu. injection Heq as <- <-.
  cbn [DeliveryStore.Records abs]. rewrite Hd. cbn [fst snd]. destruct (Z.eqb_spec n' 0) as [->|]; done.
Qed.

Lemma InboxFailed_agreeing (m : string) (failure : error) (t : time) : agreeing (OpMarkEventSubFailed m (Some failure) t).
Proof.
  intros d d' n Hwf Hc. cbn [statement snd fst memAnswer comparableAt answerOf] in *. intros Hf. apply (updateKey_inbox_agrees d d' n m (failedInboxRow (Error failure) t) (λ record,
    let n := int64_wrap (I.AttemptCount record + 1) in
    let record' := record <| I.AttemptCount := n |> <| I.LastAttemptAt := t |> <| I.LastError := Error failure |> in
    if (8 <=? n) || negb (Before t (I.ExpiresAt record))
    then record' <| I.Status := EventSubInboxStatusDead |>
    else record' <| I.Status := EventSubInboxStatusPending |>
                 <| I.AvailableAt := Add t (DeliveryStore.retryDelay n) |>)) in Hf; [|done|].
  - unfold DeliveryStore.MarkEventSubFailed. destruct (DeliveryStore.EventSubInbox (abs d) !! m); destruct Hf as [H1 H2].
    + by rewrite H1, H2.
    + by rewrite H1, H2.
  - intros r r' Hr Hf'. rewrite (failedInboxRow_agrees m failure t r r' Hr Hc Hf').
    destruct Hr as (_ & _ & _ & _ & _ & Hok). unfold absInbox, scanEventSubInbox in *.
    destruct (UnmarshalCondition _); [|done]. cbn [result_bind] in *. by destruct (UnmarshalEvent _).
Qed.

Lemma InboxRetried_agreeing (m : string) (t : time) : agreeing (OpRetryEventSub m t).
Proof.
  intros d d' n Hwf Hc. cbn [statement snd fst memAnswer comparableAt answerOf] in *. intros Hf. apply (updateKey_inbox_agrees d d' n m (retriedInboxRow t) (λ record,
    record <| I.Status := EventSubInboxStatusPending |> <| I.AttemptCount := 0 |>
      <| I.AvailableAt := t |> <| I.ExpiresAt := Add t (24 * Hour) |> <| I.LastError := "" |>)) in Hf;
    [|done|intros; by eapply retriedInboxRow_agrees].
  unfold DeliveryStore.RetryEventSub. destruct (DeliveryStore.EventSubInbox (abs d) !! m); destruct Hf as [H1 H2].
  - by rewrite H1, H2.
  - by rewrite H1, H2.
Qed.

Lemma statement_agrees o d : comparableAt d o → agreeing o.
Proof.
  destruct o as [|id t|id [failure|] t|inst ev t|inst ev t|inst| | |m [failure|] t|m t| | | | | |]; try done; intros _.
  - apply MarkSent_agreeing.
  - apply MarkFailed_agreeing.
  - apply AckThrough_agreeing.
  - apply Ack_agreeing.
  - apply Delete_agreeing.
  - apply InboxFailed_agreeing.
  - apply InboxRetried_agreeing.
Qed.

(** An operation is its statement. *)
Lemma pgAnswer_statement L s o :
  comparableAt (tables s) o →
  ∃ name, pgAnswer L s o =
    let '(s', answer) := onPool L (statement o).1 (statement o).2 s in
    (s', match answer with Ok n => answerOf o n | Err e => Err (fmtDatabase name (Some e)) end).
Proof.
  destruct o as [|id t|id [failure|] t|inst ev t|inst ev t|inst| | |m [failure|] t|m t| | | | | |]; try done;
    intros _; cbn [pgAnswer statement fst snd answerOf];
    unfold MarkSent, MarkFailed, AckThrough, Ack, DeleteForInstallation, MarkEventSubFailed, RetryEventSub, affected,
      bind, database; eexists; destruct (onPool _ _ _ s) as [s' [n|e]]; try done; by destruct (n =? 0).
Qed.

Lemma comparable_cut d o : comparable d o → comparableAt d (cut o).
Proof.
  destruct o as [|id t|id [failure|] t|inst ev t|inst ev t|inst| | |m [failure|] t|m t| | | | | |]; cbn; auto using timestamptz_idemp.
Qed.

(** The columns drop what the cut drops. *)
Lemma pgAnswer_cut L s o : pgAnswer L s (cut o) = pgAnswer L s o.
Proof.
  destruct o as [|id t|id failure t|inst ev t|inst ev t|inst| | |m failure t|m t| | | | | |]; try done; cbn [cut pgAnswer];
    unfold MarkSent, MarkFailed, AckThrough, Ack, MarkEventSubFailed, RetryEventSub, sentRow, failedRow, ackThroughRows,
      ackedRow, failedInboxRow, retriedInboxRow; by rewrite timestamptz_idemp.
Qed.

(** What the database can hold: texts, and counters in range. *)
Definition representable d (o : op) : Prop :=
  forallb text (statement o).1 = true ∧ is_ok ((statement o).2 d) = true.

(** C21: the SQL of the delivery queue and of the inbox means what the
    in-memory store does.  For marking a delivery sent or failed with an
    error, acknowledging one or all up to one, dropping an installation's
    deliveries, and failing (with an error) or retrying an inbox message, at
    any time: the production store leaves the records and returns the answer
    the in-memory store would at that time cut to the microsecond, which is
    what the columns keep, or reports a failure of the database and has done
    all or nothing; when the statement is answered and its values fit their
    columns, the answer is exactly the in-memory one.  For acknowledging all
    up to one, the deliveries were created at a time other than the zero
    time. *)
Theorem postgres_agrees_with_memory outcomes s o s' answer :
  wf (tables s) → comparable (tables s) o → pgAnswer (alone outcomes) s o = (s', answer) →
  performed (λ a, memAnswer a (cut o)) (abs (tables s)) (abs (tables s')) answer ∧
  (outcomes (sent s) = Answered → representable (tables s) (cut o) →
   (abs (tables s'), answer) = memAnswer (abs (tables s)) (cut o)).
Proof.
  rewrite <-pgAnswer_cut. intros Hwf Hc%comparable_cut. revert Hc. generalize (cut o). clear o. intros o Hc.
  destruct (pgAnswer_statement (alone outcomes) s o Hc) as [name ->].
  pose proof (statement_agrees o (tables s) Hc (tables s)) as Hst. unfold onPool. cbn [others alone outcomeOf].
  destruct (execute _ _ (tables s)) as [[d' n]|e] eqn:Hf.
  - pose proof (execute_ok _ _ _ _ Hf) as Hok. specialize (Hst d' n Hwf Hc Hok). unfold fmtDatabase.
    pose proof (performed_done (λ a, memAnswer a o) (abs (tables s))) as Hd.
    pose proof (performed_lost (λ a, memAnswer a o) (abs (tables s))) as Hl.
    cbn beta in Hd, Hl. rewrite Hst in Hd, Hl. rewrite Hst.
    destruct (outcomes (sent s)); intros [= <- <-]; cbn; (split; [|by intros]); auto using performed_failed.
  - intros Heq. split.
    + unfold fmtDatabase in Heq. destruct (outcomes (sent s)); injection Heq as <- <-; apply performed_failed.
    + intros _ [Ht Hr]. unfold execute in Hf. rewrite Ht in Hf. by rewrite Hf in Hr.
Qed.

End Agreement.

(** ** Theorems *)

Lemma pg_delivery_reached_wf L ops : replicas exec (λ _, True) L → wf (tables (foldl (exec L) (mkSession emptyDb 0) ops)).
Proof.
  intros HL. apply (execAll_preserves exec wf (λ _, True)).
  - intros L' s o Hrely _ Hs. by apply pg_exec_wf.
  - done.
  - by apply Forall_true.
  - split; [split; [apply map_Forall_empty|]|apply map_Forall_empty].
    intros k k' r r' Hk. cbn in Hk. by rewrite lookup_empty in Hk.
Qed.

(** C17: the invariant of the production delivery store.  Several servers
    share one database, and each statement may fail or lose its answer.
    Whatever they do, there is at most one delivery per installation and
    event, also when an enqueue is retried under another identifier; a
    delivery is filed under its own identifier, which like its event and
    installation is not blank, with a status and an attempt count the schema
    allows; an inbox message is filed under its own trimmed identifier and
    can be read back. *)
Theorem postgres_delivery_invariant (L : Link db) (ops : list op) :
  replicas exec (λ _, True) L →
  let d := tables (foldl (exec L) (mkSession emptyDb 0) ops) in
  (∀ k k' r r', deliveries d !! k = Some r → deliveries d !! k' = Some r' →
     D.InstallationID (fields r) = D.InstallationID (fields r') → D.EventID (fields r) = D.EventID (fields r') → k = k') ∧
  map_Forall (λ k r, D.ID (fields r) = k ∧ row_ok r) (deliveries d) ∧
  map_Forall inbox_ok (inbox d).
Proof.
  intros HL d. destruct (pg_delivery_reached_wf L ops HL) as [[Hkey Hpair] Hi]. by split_and!.
Qed.

(** In production a processed message is not accepted twice.  After
    [CompleteEventSub] succeeded, a redelivery within a day is refused or
    reported as failed, and never queued, whatever this and the other
    servers did in between, as long as nobody forgets the message; there is
    no bound on the number of messages. *)
Theorem postgres_processed_refused (L : Link db) s s1 (m : string) at_ (ops : list op) raw envelope now :
  replicas exec (within_day m at_) L →
  CompleteEventSub L m at_ s = (s1, Ok ()) →
  Forall (within_day m at_) ops → TrimSpace raw = m → now - 24 * Hour ≤ at_ →
  let '(s2, answer) := EnqueueEventSub L raw envelope now (foldl (exec L) s1 ops) in
  (answer = Ok (I.zero, false) ∨ is_ok answer = false) ∧ inbox (tables s2) !! m = None.
Proof.
  intros HL Hdone Hops Hraw Hnow.
  pose proof (runs_pair _ _ _ _ _ (CompleteEventSub_runs m at_ L s) Hdone eq_refl) as Hp.
  assert (∀ L' s o, (∀ i d, processed m at_ d → processed m at_ (others L' i d)) → within_day m at_ o →
    processed m at_ (tables s) → processed m at_ (tables (exec L' s o))) as Hexec.
  { intros. by apply pg_exec_processed. }
  assert (∀ i d, processed m at_ d → processed m at_ (others L i d)) as Hrely.
  { apply (replicas_rely exec (within_day m at_)); [|done]. intros outcomes s' o. by apply Hexec. }
  pose proof (execAll_preserves exec _ _ _ _ _ Hexec HL Hops Hp) as Hp'.
  pose proof (EnqueueEventSub_refused m at_ L Hrely raw envelope now _ Hraw Hnow Hp') as Hr. unfold runs in Hr.
  destruct (EnqueueEventSub _ _ _ _ _) as [s2 answer]. destruct Hr as [[Hi _] Ha]. done.
Qed.

(** [SaveChannelState] never reports success: it saves the state and returns
    an error built from nil. *)
Theorem save_channel_state_never_succeeds (L : Link db) s channelID title categoryName now :
  is_ok (SaveChannelState L channelID title categoryName now s).2 = false ∧
  (outcomeOf L (sent s) = Answered → TrimSpace channelID ≠ "" → forallb text [channelID; title; categoryName] = true →
   channels (tables (SaveChannelState L channelID title categoryName now s).1) !! channelID =
     Some (C.mk title categoryName (timestamptz now))).
Proof.
  unfold SaveChannelState. case_bool_decide as Hb; [by split|]. unfold alwaysFmt. split.
  - by destruct (onPool _ _ _ s) as [s' [u|e]].
  - intros Ha _ Ht. unfold onPool, execute. rewrite Ha, Ht. apply lookup_insert_eq.
Qed.

(** A delivery with thirty-one attempts can no longer be marked as sent: the
    delay overflows, the statement fails and the delivery stays due. *)
Theorem mark_sent_stuck (L : Link db) s id r sentAt :
  (∀ i d, others L i d = d) → deliveries (tables s) !! id = Some r → 31 ≤ D.AttemptCount (fields r) →
  is_ok (MarkSent L id sentAt s).2 = false ∧ tables (MarkSent L id sentAt s).1 = tables s.
Proof.
  intros Hoth Hr Hn. unfold MarkSent, affected, bind, database, onPool. rewrite Hoth.
  assert (is_ok (execute [id] (onDeliveries (updateKey id (sentRow sentAt))) (tables s)) = false) as Hfail.
  { unfold execute. destruct (forallb _ _); [|done]. unfold onDeliveries, updateKey. rewrite Hr. unfold sentRow.
    destruct (integer _); [|done]. cbn [result_bind]. unfold retryInterval, powerOfTwo.
    destruct (Z.ltb_spec (Z.max (D.AttemptCount (fields r)) 0) 31); [lia|done]. }
  destruct (execute _ _ _); [done|]. by destruct (outcomeOf L (sent s)).
Qed.
End Proofs.

(** ** Examples *)

(** An encoder of conditions that survives the column, and events that are
    forgotten. *)
#[refine] Definition toy_envelopes : EnvelopeJSON (H:=Some) := {|
  MarshalCondition m := Ok (writeValue m);
  UnmarshalCondition := readValue;
  MarshalEvent _ := Ok "{}";
  UnmarshalEvent _ := Ok ∅
|}.
Proof.
  - intros m j k [= <-] [= <-]. exists m. by split; [apply readValue_writeValue|].
  - done.
Defined.

Definition quiet : Link db := alone (λ _, Answered).
Abbreviation toy_exec := (exec (json:=toy_envelopes) quiet).

Definition phoneDelivery (id : string) : D.t :=
  DeliveryRecord.zero <| D.ID := id |> <| D.EventID := "e1" |> <| D.InstallationID := "phone" |>.

(** The same event enqueued twice, under two identifiers. *)
Definition enqueuedTwice : session db :=
  foldl toy_exec (mkSession emptyDb 0) [OpEnqueue 1000000 (phoneDelivery "d1"); OpEnqueue 2000000 (phoneDelivery "d2")].

Lemma pg_delivery_replicas_quiet assumed : replicas (exec (json:=toy_envelopes)) assumed quiet.
Proof. intros i d. exists (λ _, Answered), []. by split; [constructor|]. Qed.

Lemma postgres_delivery_invariant_witness :
  dom (deliveries (tables enqueuedTwice)) = {["d1"]} ∧ map_Forall (inbox_ok (json:=toy_envelopes)) (inbox (tables enqueuedTwice)).
Proof.
  split; [by vm_compute|].
  apply (postgres_delivery_invariant (json:=toy_envelopes) quiet
    [OpEnqueue 1000000 (phoneDelivery "d1"); OpEnqueue 2000000 (phoneDelivery "d2")] (pg_delivery_replicas_quiet _)).
Defined.

Definition received : session db := toy_exec (mkSession emptyDb 0) (OpEnqueueEventSub " m1 " E.zero 1000000).
Definition completed : session db := toy_exec received (OpCompleteEventSub "m1" 2000000).

Lemma postgres_processed_refused_witness :
  mlen (inbox (tables received)) = 1 ∧
  let '(s2, answer) := EnqueueEventSub (json:=toy_envelopes) quiet "m1" E.zero (3 * Hour)
                         (foldl toy_exec completed [OpCleanup (2 * Hour)]) in
  (answer = Ok (I.zero, false) ∨ is_ok answer = false) ∧ inbox (tables s2) !! "m1" = None.
Proof.
  split; [by vm_compute|].
  apply (postgres_processed_refused (json:=toy_envelopes) quiet received completed "m1" 2000000 [OpCleanup (2 * Hour)]
    "m1" E.zero (3 * Hour)); [apply pg_delivery_replicas_quiet|by vm_compute| |by vm_compute|by vm_compute].
  constructor; [by vm_compute|constructor].
Defined.

Definition markedSent : session db * result Z :=
  pgAnswer quiet enqueuedTwice (OpMarkSent "d1" 5000123).

Lemma postgres_agrees_with_memory_witness :
  markedSent.2 = Ok 0 ∧
  (abs (json:=toy_envelopes) (tables markedSent.1), markedSent.2) =
    memAnswer (rt:=reference_runtime) (abs (json:=toy_envelopes) (tables enqueuedTwice)) (OpMarkSent "d1" 5000000).
Proof.
  split; [by vm_compute|].
  apply (postgres_agrees_with_memory (json:=toy_envelopes) (rt:=reference_runtime) (λ _, Answered) enqueuedTwice
    (OpMarkSent "d1" 5000123) markedSent.1 markedSent.2);
    [apply (pg_delivery_reached_wf (json:=toy_envelopes)), pg_delivery_replicas_quiet|by vm_compute|by vm_compute|done|by split; vm_compute].
Defined.
End PgDeliveryProofs.
