(* ===== verification/AuthStore.v ===== *)
(** * Authentication store: [internal/storage/memory/auth_store.go]

    OAuth states awaiting the callback (pending), one-time handoff codes,
    mobile sessions and the Twitch credentials they stand for, the latter
    sealed under the store's AEAD.  Secrets (states, codes, tokens, device
    secrets) are kept as hashes.  The mutex makes each operation one step;
    an operation with one [time.Now] takes the reading as [now], one with
    several takes [clock], indexed by the call; random reads are indexed the
    same way. *)

From S2P Require Import Prelude GoStrings Credentials Domain.
Import Memory.

Module AuthStore.
Module C := AuthCredential.
Module CR := AuthCredentialRecord.
Module S := AuthSessionRecord.
Module P := PendingAuthRecord.
Module H := AuthHandoffRecord.

Record t := mk {
  Credentials : gmap string CR.t;
  Sessions : gmap string S.t;
  Pending : gmap string P.t;
  Handoffs : gmap string H.t
}.
#[global] Instance eta_t : Eta t := λ s, mk (Credentials s) (Sessions s) (Pending s) (Handoffs s).

(** The state [OpenAuthStore] starts from. *)
Definition empty : t := mk ∅ ∅ ∅ ∅.

Definition ensureMapsLocked (s : t) : t := s.
Definition persistLocked (s : t) : t * option error := (ensureMapsLocked s, None).

(** [map[string]struct{}]. *)
Abbreviation idSet := (gmap string ()).
Definition idSet_has (ids : idSet) (id : string) : bool := bool_decide (is_Some (ids !! id)).

Section Store.
Context {rt : GoRuntime} {sha : Sha256} (aead : option AEAD).

Definition seal (rnd : rand_read) (aad plaintext : string) : result EncryptedValue :=
  sealAuthValue aead rnd aad plaintext.

Definition open (aad : string) (value : EncryptedValue) : result string :=
  openAuthValue aead aad value.

Definition credentialInUseLocked (s : t) (credentialID : string) : bool :=
  range_exists (λ _ session, S.CredentialID session == credentialID) (Sessions s) ||
  range_exists (λ _ handoff, H.CredentialID handoff == credentialID) (Handoffs s).

(** [for id := range Credentials { if !credentialInUseLocked(id) { delete } }] *)
Definition dropUnusedLocked (s : t) : t :=
  s <| Credentials := range_delete (λ id _, negb (credentialInUseLocked s id)) (Credentials s) |>.

Definition cleanupExpiredLocked (now : time) (s : t) : t :=
  let s := s <| Pending := range_delete (λ _ p, After now (P.ExpiresAt p)) (Pending s) |> in
  let s := s <| Handoffs := range_delete (λ _ h, After now (H.ExpiresAt h)) (Handoffs s) |> in
  let s := s <| Sessions := range_delete (λ _ x, After now (S.ExpiresAt x)) (Sessions s) |> in
  dropUnusedLocked s.

(** ** Pending authorizations *)

Definition PutPending (now : time) (s : t) (state : string) (record : P.t) : t * option error :=
  let s := cleanupExpiredLocked now s in
  let s := s <| Pending := range_delete (λ _ existing,
      (P.InstallationID existing == P.InstallationID record) &&
      secureHashEqual (P.DeviceHash existing) (P.DeviceHash record)) (Pending s) |> in
  if MaxPendingAuthRecords <=? mlen (Pending s) then (s, Some ErrAuthCapacity) else
  let s := s <| Pending := <[hashSecret state := record]> (Pending s) |> in
  persistLocked s.

Definition GetPending (now : time) (s : t) (state : string) : result P.t :=
  match Pending s !! hashSecret state with
  | None => Err ErrAuthNotFound
  | Some record => if After now (P.ExpiresAt record) then Err ErrAuthExpired else Ok record
  end.

Definition ConsumePending (now : time) (s : t) (state : string) : t * result P.t :=
  let key := hashSecret state in
  match Pending s !! key with
  | None => (s, Err ErrAuthNotFound)
  | Some record =>
      let s := s <| Pending := delete key (Pending s) |> in
      let '(s, err) := persistLocked s in
      match err with
      | Some err => (s, Err err)
      | None => if After now (P.ExpiresAt record) then (s, Err ErrAuthExpired) else (s, Ok record)
      end
  end.

(** ** Handoffs *)

(** The part [PutHandoff] and [PutCredentialAndHandoff] share: replace the
    handoffs of the device, then undo when over capacity. *)
Definition storeHandoffLocked (clock : nat → time) (s : t) (code : string) (record : H.t)
    : t * option error :=
  let s := s <| Handoffs := range_delete (λ _ existing,
      (H.InstallationID existing == H.InstallationID record) &&
      secureHashEqual (H.DeviceHash existing) (H.DeviceHash record)) (Handoffs s) |> in
  let s := s <| Handoffs := <[hashSecret code := record]> (Handoffs s) |> in
  let s := cleanupExpiredLocked (clock 0%nat) s in
  if MaxAuthHandoffs <? mlen (Handoffs s) then
    let s := s <| Handoffs := delete (hashSecret code) (Handoffs s) |> in
    let s := cleanupExpiredLocked (clock 1%nat) s in
    let '(s, err) := persistLocked s in
    match err with
    | Some err => (s, Some err)
    | None => (s, Some ErrAuthCapacity)
    end
  else persistLocked s.

Definition PutHandoff (clock : nat → time) (s : t) (code : string) (record : H.t)
    : t * option error :=
  storeHandoffLocked clock s code record.

Definition ConsumeHandoff (now : time) (s : t) (code installationID deviceSecret state : string)
    : t * result H.t :=
  let key := hashSecret code in
  match Handoffs s !! key with
  | None => (s, Err ErrAuthNotFound)
  | Some record =>
      if After now (H.ExpiresAt record) then
        let s := s <| Handoffs := delete key (Handoffs s) |> in
        let '(s, _) := persistLocked s in (s, Err ErrAuthExpired)
      else
      if (H.InstallationID record != installationID) ||
         negb (secureHashEqual (H.DeviceHash record) (hashSecret deviceSecret))
      then (s, Err ErrAuthDeviceMismatch) else
      if negb (secureHashEqual (H.StateHash record) (hashSecret state))
      then (s, Err ErrAuthStateMismatch) else
      let s := s <| Handoffs := delete key (Handoffs s) |> in
      let '(s, err) := persistLocked s in
      match err with Some err => (s, Err err) | None => (s, Ok record) end
  end.

(** ** Credentials *)

Definition setCredentialLocked (rnd : nat → rand_read) (s : t) (credential : C.t)
    : t * option error :=
  match seal (rnd 0%nat) (C.ID credential +:+ ":access") (C.AccessToken credential) with
  | Err err => (s, Some err)
  | Ok access =>
  match seal (rnd 1%nat) (C.ID credential +:+ ":refresh") (C.RefreshToken credential) with
  | Err err => (s, Some err)
  | Ok refresh =>
      let record := CR.mk (C.ID credential) (C.ClientID credential) (C.UserID credential)
        (C.Login credential) (C.Scopes credential) access refresh (C.AccessExpiresAt credential)
        (C.LastValidatedAt credential) (C.UpdatedAt credential) in
      (s <| Credentials := <[C.ID credential := record]> (Credentials s) |>, None)
  end
  end.

Definition PutCredential (rnd : nat → rand_read) (s : t) (credential : C.t) : t * option error :=
  let '(s, err) := setCredentialLocked rnd s credential in
  match err with Some err => (s, Some err) | None => persistLocked s end.

Definition PutCredentialAndHandoff (rnd : nat → rand_read) (clock : nat → time) (s : t)
    (credential : C.t) (code : string) (record : H.t) : t * option error :=
  if (C.ID credential == "") || (H.CredentialID record != C.ID credential)
  then (s, Some (ErrMsg "credential and handoff do not match")) else
  let '(s, err) := setCredentialLocked rnd s credential in
  match err with
  | Some err => (s, Some err)
  | None => storeHandoffLocked clock s code record
  end.

(** A record with its tokens opened under the given identifier. *)
Definition openCredential (id : string) (record : CR.t) : result C.t :=
  let? access := open (id +:+ ":access") (CR.AccessToken record) in
  let? refresh := open (id +:+ ":refresh") (CR.RefreshToken record) in
  Ok (C.mk (CR.ID record) (CR.ClientID record) (CR.UserID record) (CR.Login record)
        (CR.Scopes record) access refresh (CR.AccessExpiresAt record)
        (CR.LastValidatedAt record) (CR.UpdatedAt record)).

Definition GetCredential (s : t) (id : string) : result C.t :=
  match Credentials s !! id with
  | None => Err ErrAuthNotFound
  | Some record => openCredential id record
  end.

Definition CredentialForInstallation (now : time) (s : t) (installationID deviceSecret : string)
    : result C.t :=
  let deviceHash := hashSecret deviceSecret in
  match range_find (λ _ session,
      negb ((S.InstallationID session != installationID) || After now (S.ExpiresAt session) ||
            negb (secureHashEqual (S.DeviceHash session) deviceHash))) (Sessions s) with
  | None => Err ErrAuthNotFound
  | Some (_, session) =>
      match Credentials s !! S.CredentialID session with
      | None => Err ErrAuthNotFound
      | Some record => openCredential (CR.ID record) record
      end
  end.

Definition DeleteCredentialIfUnused (s : t) (credentialID : string) : t * option error :=
  if credentialInUseLocked s credentialID then (s, None) else
  match Credentials s !! credentialID with
  | None => (s, None)
  | Some _ => persistLocked (s <| Credentials := delete credentialID (Credentials s) |>)
  end.

(** ** Sessions *)

Definition CreateSession (rnd : rand_read) (now : time) (s : t)
    (credentialID installationID deviceSecret : string) (ttl : duration)
    : t * result (string * time) :=
  match Credentials s !! credentialID with
  | None => (s, Err ErrAuthNotFound)
  | Some _ =>
      let expectedDeviceHash := hashSecret deviceSecret in
      if range_exists (λ _ existing,
           (S.InstallationID existing == installationID) && negb (After now (S.ExpiresAt existing)) &&
           negb (secureHashEqual (S.DeviceHash existing) expectedDeviceHash)) (Sessions s)
      then (s, Err ErrAuthDeviceMismatch) else
      let s := s <| Sessions := range_delete (λ _ existing,
          After now (S.ExpiresAt existing) || (S.InstallationID existing == installationID))
          (Sessions s) |> in
      if MaxAuthSessions <=? mlen (Sessions s) then (s, Err ErrAuthCapacity) else
      match randomToken rnd "fsv1_" 32 with
      | Err err => (s, Err err)
      | Ok token =>
          let expiresAt := Add now ttl in
          let s := s <| Sessions := <[hashSecret token :=
              S.mk credentialID installationID expectedDeviceHash now expiresAt]> (Sessions s) |> in
          let s := cleanupExpiredLocked now s in
          let '(s, err) := persistLocked s in
          match err with Some err => (s, Err err) | None => (s, Ok (token, expiresAt)) end
      end
  end.

(** Go's integer division truncates towards zero. *)
Definition ResolveSession (now : time) (s : t) (token installationID deviceSecret : string)
    (renewTTL : duration) : t * result S.t :=
  let key := hashSecret token in
  match Sessions s !! key with
  | None => (s, Err ErrAuthNotFound)
  | Some record =>
      if After now (S.ExpiresAt record) then
        let s := s <| Sessions := delete key (Sessions s) |> in
        let s := if negb (credentialInUseLocked s (S.CredentialID record))
                 then s <| Credentials := delete (S.CredentialID record) (Credentials s) |> else s in
        let '(s, _) := persistLocked s in (s, Err ErrAuthExpired)
      else
      if (S.InstallationID record != installationID) ||
         negb (secureHashEqual (S.DeviceHash record) (hashSecret deviceSecret))
      then (s, Err ErrAuthDeviceMismatch) else
      if (0 <? renewTTL) && Before (S.ExpiresAt record) (Add now (Z.quot renewTTL 2)) then
        let record := record <| S.ExpiresAt := Add now renewTTL |> in
        let s := s <| Sessions := <[key := record]> (Sessions s) |> in
        let '(s, err) := persistLocked s in
        match err with Some err => (s, Err err) | None => (s, Ok record) end
      else (s, Ok record)
  end.

(** The Twitch user of a session and whether the session has expired. *)
Definition SessionAccount (now : time) (s : t) (token installationID deviceSecret : string)
    : result (string * bool) :=
  match Sessions s !! hashSecret token with
  | None => Err ErrAuthNotFound
  | Some record =>
      if (S.InstallationID record != installationID) ||
         negb (secureHashEqual (S.DeviceHash record) (hashSecret deviceSecret))
      then Err ErrAuthDeviceMismatch else
      match Credentials s !! S.CredentialID record with
      | None => Err ErrAuthNotFound
      | Some credential =>
          if TrimSpace (CR.UserID credential) == "" then Err ErrAuthNotFound
          else Ok (CR.UserID credential, After now (S.ExpiresAt record))
      end
  end.

Definition DeleteSession (s : t) (token installationID deviceSecret : string) : t * option error :=
  let key := hashSecret token in
  match Sessions s !! key with
  | None => (s, Some ErrAuthNotFound)
  | Some record =>
      if (S.InstallationID record != installationID) ||
         negb (secureHashEqual (S.DeviceHash record) (hashSecret deviceSecret))
      then (s, Some ErrAuthDeviceMismatch) else
      let s := s <| Sessions := delete key (Sessions s) |> in
      let s := if negb (credentialInUseLocked s (S.CredentialID record))
               then s <| Credentials := delete (S.CredentialID record) (Credentials s) |> else s in
      persistLocked s
  end.

(** ** Installations *)

Section Binding.
Context {V : Type} (installation device : V → string) (installationID deviceHash : string).

(** One loop of [InstallationBinding]: whether it returns at an entry of the
    device, and whether the installation has been seen so far. *)
Definition bindingLoop (m : gmap string V) (foundInstallation : bool) : bool * bool :=
  if range_exists (λ _ v, (installation v == installationID) &&
                          secureHashEqual (device v) deviceHash) m
  then (true, true)
  else (false, foundInstallation || range_exists (λ _ v, installation v == installationID) m).

(** One loop of [RevokeInstallation] over the entries still to visit: the
    map, the number of entries deleted, and whether the loop ran to its end
    instead of returning at an entry of another device. *)
Fixpoint revokeLoop (entries : list (string * V)) (m : gmap string V) (removed : Z)
    : gmap string V * Z * bool :=
  match entries with
  | [] => (m, removed, true)
  | (key, v) :: entries =>
      if installation v != installationID then revokeLoop entries m removed else
      if negb (secureHashEqual (device v) deviceHash) then (m, removed, false) else
      revokeLoop entries (delete key m) (removed + 1)
  end.
End Binding.

Definition InstallationBinding (s : t) (installationID deviceSecret : string) : bool * option error :=
  let deviceHash := hashSecret deviceSecret in
  let '(found, seen) := bindingLoop S.InstallationID S.DeviceHash installationID deviceHash (Sessions s) false in
  if found then (true, None) else
  let '(found, seen) := bindingLoop P.InstallationID P.DeviceHash installationID deviceHash (Pending s) seen in
  if found then (true, None) else
  let '(found, seen) := bindingLoop H.InstallationID H.DeviceHash installationID deviceHash (Handoffs s) seen in
  if found then (true, None) else
  if seen then (false, Some ErrAuthDeviceMismatch) else (false, Some ErrAuthNotFound).

Definition RevokeInstallation (s : t) (installationID deviceSecret : string) : t * (Z * option error) :=
  let deviceHash := hashSecret deviceSecret in
  let '(sessions, removedSessions, done) :=
    revokeLoop S.InstallationID S.DeviceHash installationID deviceHash
      (rangeMap (Sessions s)) (Sessions s) 0 in
  let s := s <| Sessions := sessions |> in
  if negb done then (s, (0, Some ErrAuthDeviceMismatch)) else
  let '(pending, removedPending, done) :=
    revokeLoop P.InstallationID P.DeviceHash installationID deviceHash
      (rangeMap (Pending s)) (Pending s) 0 in
  let s := s <| Pending := pending |> in
  if negb done then (s, (0, Some ErrAuthDeviceMismatch)) else
  let '(handoffs, removedHandoffs, done) :=
    revokeLoop H.InstallationID H.DeviceHash installationID deviceHash
      (rangeMap (Handoffs s)) (Handoffs s) 0 in
  let s := s <| Handoffs := handoffs |> in
  if negb done then (s, (0, Some ErrAuthDeviceMismatch)) else
  let unused := range_exists (λ id _, negb (credentialInUseLocked s id)) (Credentials s) in
  let s := dropUnusedLocked s in
  let mutated := (0 <? removedSessions) || (0 <? removedPending) || (0 <? removedHandoffs) || unused in
  if negb mutated then (s, (0, None)) else
  let '(s, err) := persistLocked s in (s, (removedSessions, err)).

(** ** Accounts *)

Definition AccountRevocationTargets (s : t) (userID : string)
    : result (list string * list C.t) :=
  let userID := TrimSpace userID in
  if userID == "" then Err ErrAuthNotFound else
  let? found :=
    foldl (λ acc '(id, record),
        let? acc := acc in
        if CR.UserID record != userID then Ok acc else
        let? credential := openCredential id record in
        Ok (<[id := ()]> acc.1, acc.2 ++ [credential]))
      (Ok ((∅ : idSet), [])) (rangeMap (Credentials s)) in
  let '(credentialIDs, credentials) := found in
  let installations : idSet :=
    foldl (λ acc '(_, session),
        if idSet_has credentialIDs (S.CredentialID session)
        then <[S.InstallationID session := ()]> acc else acc)
      ∅ (rangeMap (Sessions s)) in
  let installationIDs := sortSlice string_lt (rangeMap installations).*1 in
  let credentials := sortSlice (λ x y, string_lt (C.ID x) (C.ID y)) credentials in
  Ok (installationIDs, credentials).

(** The credentials of the user. *)
Definition accountCredentialIDs (userID : string) (entries : list (string * CR.t)) : idSet :=
  foldl (λ acc '(id, credential), if CR.UserID credential == userID then <[id := ()]> acc else acc)
    ∅ entries.

(** The loop that deletes them and counts the deletions. *)
Definition deleteCredentialsLoop (entries : list (string * ())) (credentials : gmap string CR.t)
    : gmap string CR.t * Z :=
  foldl (λ '(credentials, removed) '(credentialID, _),
      if bool_decide (is_Some (credentials !! credentialID))
      then (delete credentialID credentials, removed + 1) else (credentials, removed))
    (credentials, 0) entries.

(** The installations named by the caller. *)
Definition extraInstallations (extraInstallationIDs : list string) : idSet :=
  foldl (λ installations installationID,
      let installationID := TrimSpace installationID in
      if installationID != "" then <[installationID := ()]> installations else installations)
    ∅ extraInstallationIDs.

(** The loop over the sessions: sessions, installations, count. *)
Definition revokeSessionsLoop (credentialIDs : idSet) (entries : list (string * S.t))
    (sessions : gmap string S.t) (installations : idSet) (removed : Z) : gmap string S.t * idSet * Z :=
  foldl (λ '(sessions, installations, removed) '(key, session),
      if idSet_has credentialIDs (S.CredentialID session)
      then (delete key sessions, <[S.InstallationID session := ()]> installations, removed + 1)
      else (sessions, installations, removed))
    (sessions, installations, removed) entries.

(** The loop over the handoffs, which extends the installations it tests. *)
Definition revokeHandoffsLoop (credentialIDs : idSet) (entries : list (string * H.t))
    (handoffs : gmap string H.t) (installations : idSet) : gmap string H.t * idSet * bool :=
  foldl (λ '(handoffs, installations, mutated) '(key, handoff),
      let credentialMatches := idSet_has credentialIDs (H.CredentialID handoff) in
      let installationMatches := idSet_has installations (H.InstallationID handoff) in
      if negb credentialMatches && negb installationMatches
      then (handoffs, installations, mutated)
      else (delete key handoffs, <[H.InstallationID handoff := ()]> installations, true))
    (handoffs, installations, false) entries.

Definition RevokeAccount (s : t) (userID : string) (extraInstallationIDs : list string)
    : t * result (Z * Z) :=
  let userID := TrimSpace userID in
  if userID == "" then (s, Err ErrAuthNotFound) else
  let credentialIDs := accountCredentialIDs userID (rangeMap (Credentials s)) in
  let installations := extraInstallations extraInstallationIDs in
  let '(sessions, installations, removedSessions) :=
    revokeSessionsLoop credentialIDs (rangeMap (Sessions s)) (Sessions s) installations 0 in
  let s := s <| Sessions := sessions |> in
  let '(handoffs, installations, handoffsRemoved) :=
    revokeHandoffsLoop credentialIDs (rangeMap (Handoffs s)) (Handoffs s) installations in
  let s := s <| Handoffs := handoffs |> in
  let '(pending, removedPending) :=
    range_delete_count (λ _ p, idSet_has installations (P.InstallationID p)) (Pending s) in
  let s := s <| Pending := pending |> in
  let '(credentials, removedCredentials) :=
    deleteCredentialsLoop (rangeMap credentialIDs) (Credentials s) in
  let s := s <| Credentials := credentials |> in
  let unused := range_exists (λ id _, negb (credentialInUseLocked s id)) (Credentials s) in
  let s := dropUnusedLocked s in
  let mutated := (0 <? removedSessions) || handoffsRemoved || (0 <? removedPending) ||
                 (0 <? removedCredentials) || unused in
  let result := (removedSessions, removedCredentials) in
  if negb mutated then (s, Ok result) else
  let '(s, err) := persistLocked s in
  match err with Some err => (s, Err err) | None => (s, Ok result) end.

End Store.
End AuthStore.
