(* ===== verification/AuthProofs.v ===== *)
(** * Authentication store: invariant and theorems

    The invariant of [AuthStore.v] over every reachable state, the round
    trip of sealed credentials, and the life cycles of pending
    authorizations, handoff codes and sessions, up to their revocation. *)

From S2P Require Import Prelude GoStrings Credentials Domain AuthStore.
Import Memory.

Module AuthProofs.
Import AuthStore.

(** ** Uniqueness in a map *)

Section Unique.
Context {V : Type} (R : V → V → Prop).
Implicit Types m : gmap string V.

Definition unique m : Prop :=
  ∀ k k' v v', m !! k = Some v → m !! k' = Some v' → R v v' → k = k'.

Lemma unique_sub m m' : m' ⊆ m → unique m → unique m'.
Proof. intros Hsub Hu k k' v v' Hk Hk'. eapply Hu; by eapply lookup_weaken. Qed.

Lemma unique_insert m k v :
  unique m → (∀ k' v', m !! k' = Some v' → ¬ R v v' ∧ ¬ R v' v) → unique (<[k := v]> m).
Proof.
  intros Hu Hfresh k1 k2 v1 v2. rewrite !lookup_insert_Some.
  intros [[<- <-]|[_ H1]] [[<- <-]|[_ H2]] HR; [done| | |by eapply Hu].
  - by destruct (Hfresh _ _ H2).
  - by destruct (Hfresh _ _ H1).
Qed.
End Unique.

(** Same installation and same (non-empty) device. *)
Definition same_device {V} (inst dev : V → string) (v v' : V) : Prop :=
  inst v = inst v' ∧ dev v = dev v' ∧ dev v ≠ "".

(** Replacing the entries of a device by one entry. *)
Lemma unique_replace {rt : GoRuntime} {V} (inst dev : V → string) (m : gmap string V) k v :
  unique (same_device inst dev) m →
  unique (same_device inst dev) (<[k := v]> (range_delete (λ _ e,
    (inst e == inst v) && secureHashEqual (dev e) (dev v)) m)).
Proof.
  intros Hu. apply unique_insert.
  { eapply unique_sub; [|exact Hu]. apply range_delete_subseteq. }
  intros k' v' [_ Hp]%range_delete_Some.
  assert (¬ same_device inst dev v' v) as Hno.
  { intros (Hi & Hd & Hne). rewrite bool_decide_true in Hp by done. simpl in Hp.
    by rewrite (proj2 (secureHashEqual_spec _ _)) in Hp. }
  split; [|done]. intros (Hi & Hd & Hne). apply Hno. split_and!; congruence.
Qed.

(** ** Invariant *)

Section Invariant.
Context {sha : Sha256} (aead : option AEAD).

Definition bound (s : t) : Prop :=
  ∀ k x, Sessions s !! k = Some x → is_Some (Credentials s !! S.CredentialID x).

Definition wf (s : t) : Prop :=
  (mlen (Pending s) ≤ MaxPendingAuthRecords ∧ mlen (Handoffs s) ≤ MaxAuthHandoffs ∧
   mlen (Sessions s) ≤ MaxAuthSessions) ∧
  unique (same_device P.InstallationID P.DeviceHash) (Pending s) ∧
  unique (same_device H.InstallationID H.DeviceHash) (Handoffs s) ∧
  unique (λ x y, S.InstallationID x = S.InstallationID y) (Sessions s) ∧
  map_Forall (λ id r, CR.ID r = id ∧ ∃ c, openCredential aead id r = Ok c) (Credentials s) ∧
  bound s.

Lemma wf_shrink s s' :
  wf s → Pending s' ⊆ Pending s → Handoffs s' ⊆ Handoffs s → Sessions s' ⊆ Sessions s →
  Credentials s' ⊆ Credentials s → bound s' → wf s'.
Proof.
  intros ((Hp & Hh & Hs) & Hup & Huh & Hus & Hc & _) Hsp Hsh Hss Hsc Hb.
  apply mlen_sub in Hsp as Hp', Hsh as Hh', Hss as Hs'. split_and!; try lia; try done.
  - by eapply unique_sub.
  - by eapply unique_sub.
  - by eapply unique_sub.
  - by eapply map_Forall_sub.
Qed.

Context {rt : GoRuntime}.

Lemma inUse_session s k x :
  Sessions s !! k = Some x → credentialInUseLocked s (S.CredentialID x) = true.
Proof.
  intros Hk. unfold credentialInUseLocked. rewrite (proj2 (range_exists_true _ (Sessions s))); [done|].
  exists k, x. by rewrite bool_decide_true.
Qed.

Lemma dropUnused_bound s : bound s → bound (dropUnusedLocked s).
Proof.
  intros Hb k x Hk. destruct (Hb k x Hk) as [c Hc]. exists c. simpl.
  apply range_delete_Some. split; [done|]. by rewrite (inUse_session s k x Hk).
Qed.

Lemma bound_sub s s' :
  bound s → Sessions s' ⊆ Sessions s → Credentials s' = Credentials s → bound s'.
Proof. intros Hb Hsub Hc k x Hk. rewrite Hc. eapply Hb. by eapply lookup_weaken. Qed.

Lemma dropUnused_sub s :
  Pending (dropUnusedLocked s) = Pending s ∧ Handoffs (dropUnusedLocked s) = Handoffs s ∧
  Sessions (dropUnusedLocked s) = Sessions s ∧ Credentials (dropUnusedLocked s) ⊆ Credentials s.
Proof. split_and!; try done. apply range_delete_subseteq. Qed.

Lemma cleanup_sub now s :
  Pending (cleanupExpiredLocked now s) ⊆ Pending s ∧
  Handoffs (cleanupExpiredLocked now s) ⊆ Handoffs s ∧
  Sessions (cleanupExpiredLocked now s) ⊆ Sessions s ∧
  Credentials (cleanupExpiredLocked now s) ⊆ Credentials s.
Proof. split_and!; apply range_delete_subseteq. Qed.

Lemma cleanup_bound now s : bound s → bound (cleanupExpiredLocked now s).
Proof.
  intros Hb. unfold cleanupExpiredLocked. apply dropUnused_bound.
  eapply bound_sub; [exact Hb|apply range_delete_subseteq|done].
Qed.

Lemma auth_cleanup_wf now s : wf s → wf (cleanupExpiredLocked now s).
Proof.
  intros Hwf. destruct (cleanup_sub now s) as (? & ? & ? & ?).
  eapply wf_shrink; [exact Hwf|done..|]. apply cleanup_bound, Hwf.
Qed.

Lemma putPending_wf now s state r : wf s → wf (PutPending now s state r).1.
Proof.
  intros Hwf%(auth_cleanup_wf now). unfold PutPending.
  set (s1 := cleanupExpiredLocked now s) in *. clearbody s1.
  destruct Hwf as ((Hp & Hh & Hs) & Hup & Huh & Hus & Hc & Hb).
  pose proof (range_delete_subseteq (λ _ e, (P.InstallationID e == P.InstallationID r) &&
    secureHashEqual (P.DeviceHash e) (P.DeviceHash r)) (Pending s1)) as Hsub.
  pose proof (mlen_sub _ _ Hsub).
  destruct (Z.leb_spec MaxPendingAuthRecords (mlen (Pending (s1 <| Pending := range_delete
    (λ _ e, (P.InstallationID e == P.InstallationID r) &&
      secureHashEqual (P.DeviceHash e) (P.DeviceHash r)) (Pending s1) |>)))) as [Hge|Hlt];
    simpl in *; split_and!; simpl; try done; try lia.
  - by eapply unique_sub.
  - by apply mlen_insert_lt.
  - by apply unique_replace.
Qed.

Lemma consumePending_wf now s state : wf s → wf (ConsumePending now s state).1.
Proof.
  intros Hwf. unfold ConsumePending. case_match; [|done]. simpl.
  assert (wf (s <| Pending := delete (hashSecret state) (Pending s) |>)); [|by case_match].
  eapply wf_shrink; [exact Hwf|simpl; apply delete_subseteq|done..|apply Hwf].
Qed.

Lemma deleteHandoff_wf s key : wf s → wf (s <| Handoffs := delete key (Handoffs s) |>).
Proof.
  intros Hwf. eapply wf_shrink; [exact Hwf|done|simpl; apply delete_subseteq|done..|apply Hwf].
Qed.

Lemma consumeHandoff_wf now s code inst secret state :
  wf s → wf (ConsumeHandoff now s code inst secret state).1.
Proof.
  intros Hwf. unfold ConsumeHandoff. destruct (Handoffs s !! _); [|done].
  destruct (After _ _); [by apply deleteHandoff_wf|].
  destruct (_ || _); [done|]. destruct (negb _); [done|]. by apply deleteHandoff_wf.
Qed.

Lemma storeHandoff_wf clock s code r : wf s → wf (storeHandoffLocked clock s code r).1.
Proof.
  intros ((Hp & Hh & Hs) & Hup & Huh & Hus & Hc & Hb). unfold storeHandoffLocked.
  set (m1 := range_delete _ (Handoffs s)). assert (m1 ⊆ Handoffs s) as Hm1 by apply range_delete_subseteq.
  cbn [update Handoffs Pending Sessions Credentials].
  set (s2 := mk _ _ _ (<[hashSecret code := r]> m1)).
  assert (bound s2) as Hb2 by done.
  assert (unique (same_device H.InstallationID H.DeviceHash) (Handoffs s2)) as Hu2
    by by apply unique_replace.
  destruct (cleanup_sub (clock 0%nat) s2) as (H1 & H2 & H3 & H4).
  pose proof (cleanup_bound (clock 0%nat) s2 Hb2) as Hb3.
  apply mlen_sub in H1 as L1, H3 as L3. pose proof (mlen_sub _ _ Hm1).
  set (s3 := cleanupExpiredLocked (clock 0%nat) s2) in *. clearbody s3.
  destruct (Z.ltb_spec MaxAuthHandoffs (mlen (Handoffs s3))).
  - apply auth_cleanup_wf. split_and!; simpl in *; try lia; try done; try by eapply unique_sub.
    + etrans; [|exact Hh]. etrans; [|by apply mlen_sub, Hm1]. apply mlen_sub.
      etrans; [by apply delete_mono|]. simpl. rewrite delete_insert_eq. apply delete_subseteq.
    + eapply unique_sub; [|exact Hu2]. etrans; [apply delete_subseteq|done].
    + by eapply map_Forall_sub.
  - unfold persistLocked, ensureMapsLocked.
    split_and!; simpl in *; try lia; try done; try by eapply unique_sub.
    by eapply map_Forall_sub.
Qed.

Lemma setCredential_wf rnd s c :
  (∀ i, rand_ok (rnd i)) → wf s → wf (setCredentialLocked aead rnd s c).1.
Proof.
  intros Hrnd ((Hp & Hh & Hs) & Hup & Huh & Hus & Hc & Hb). unfold setCredentialLocked.
  destruct (seal aead (rnd 0%nat) _ _) as [access|] eqn:Ha; [|by split_and!].
  destruct (seal aead (rnd 1%nat) _ _) as [refresh|] eqn:Hr; [|by split_and!].
  split_and!; try done; simpl.
  - apply map_Forall_insert_2; [|done]. split; [done|]. unfold openCredential, open. simpl.
    rewrite (openAuthValue_sealAuthValue _ _ _ _ _ (Hrnd 0%nat) Ha). simpl.
    rewrite (openAuthValue_sealAuthValue _ _ _ _ _ (Hrnd 1%nat) Hr). simpl. eauto.
  - intros k x Hk. simpl. destruct (decide (C.ID c = S.CredentialID x)) as [->|Hne].
    + rewrite lookup_insert_eq. eauto.
    + rewrite lookup_insert_ne by done. by eapply Hb.
Qed.

Lemma putCredential_wf rnd s c :
  (∀ i, rand_ok (rnd i)) → wf s → wf (PutCredential aead rnd s c).1.
Proof.
  intros Hrnd Hwf. pose proof (setCredential_wf rnd s c Hrnd Hwf) as H. unfold PutCredential.
  destruct (setCredentialLocked aead rnd s c) as [s' [e|]]; done.
Qed.

Lemma putCredentialAndHandoff_wf rnd clock s c code r :
  (∀ i, rand_ok (rnd i)) → wf s → wf (PutCredentialAndHandoff aead rnd clock s c code r).1.
Proof.
  intros Hrnd Hwf. pose proof (setCredential_wf rnd s c Hrnd Hwf) as H.
  unfold PutCredentialAndHandoff. destruct (_ || _); [done|].
  destruct (setCredentialLocked aead rnd s c) as [s' [e|]]; [done|]. by apply storeHandoff_wf.
Qed.

(** Replacing the session map and dropping a credential out of use. *)
Lemma sessions_sub_wf s sessions :
  wf s → sessions ⊆ Sessions s → wf (s <| Sessions := sessions |>).
Proof.
  intros Hwf Hsub. eapply wf_shrink; [exact Hwf|done..|]. simpl.
  eapply bound_sub; [apply Hwf|done|done].
Qed.

Lemma deleteUnused_wf s id :
  wf s → credentialInUseLocked s id = false →
  wf (s <| Credentials := delete id (Credentials s) |>).
Proof.
  intros Hwf Huse. eapply wf_shrink; [exact Hwf|done..|simpl; apply delete_subseteq|].
  intros k x Hk. simpl in *. rewrite lookup_delete_ne; [by eapply (proj2 (proj2 (proj2 (proj2 (proj2 Hwf)))))|].
  intros ->. by rewrite (inUse_session s k x Hk) in Huse.
Qed.

Lemma deleteCredentialIfUnused_wf s id : wf s → wf (DeleteCredentialIfUnused s id).1.
Proof.
  intros Hwf. unfold DeleteCredentialIfUnused. destruct (credentialInUseLocked s id) eqn:Hu; [done|].
  case_match; [|done]. by apply deleteUnused_wf.
Qed.

(** Removing a session and its credential, if that was the last use. *)
Lemma removeSession_wf s key id :
  wf s →
  let s1 := s <| Sessions := delete key (Sessions s) |> in
  wf (if negb (credentialInUseLocked s1 id)
      then s1 <| Credentials := delete id (Credentials s1) |> else s1).
Proof.
  intros Hwf s1. assert (wf s1) as Hwf1 by (apply sessions_sub_wf; [done|apply delete_subseteq]).
  destruct (credentialInUseLocked s1 id) eqn:Hu; [done|]. by apply deleteUnused_wf.
Qed.

Lemma createSession_wf rnd now s id inst secret ttl :
  wf s → wf (CreateSession rnd now s id inst secret ttl).1.
Proof.
  intros Hwf. unfold CreateSession. destruct (Credentials s !! id) as [c|] eqn:Hc; [|done].
  destruct (range_exists _ _); [done|].
  set (p := λ (_ : string) existing, After now (S.ExpiresAt existing) || _).
  assert (wf (s <| Sessions := range_delete p (Sessions s) |>)) as Hwf1
    by (apply sessions_sub_wf; [done|apply range_delete_subseteq]).
  destruct (Z.leb_spec MaxAuthSessions (mlen (Sessions (s <| Sessions := range_delete p (Sessions s) |>))));
    [done|].
  destruct (randomToken rnd "fsv1_" 32) as [token|e]; [|done]. apply auth_cleanup_wf.
  destruct Hwf1 as ((Hp & Hh & Hs) & Hup & Huh & Hus & Hcr & Hb).
  split_and!; simpl in *; try done.
  - by apply mlen_insert_lt.
  - apply unique_insert; [done|]. intros k' x' [_ Hx]%range_delete_Some. simpl.
    apply orb_false_iff in Hx as [_ Hx%bool_decide_eq_false]. split; congruence.
  - intros k x Hk. simpl in *. apply lookup_insert_Some in Hk as [[<- <-]|[_ Hk]]; [by eauto|].
    by eapply Hb.
Qed.

Lemma renew_wf s key x x' :
  wf s → Sessions s !! key = Some x → S.InstallationID x' = S.InstallationID x →
  S.CredentialID x' = S.CredentialID x → wf (s <| Sessions := <[key := x']> (Sessions s) |>).
Proof.
  intros ((Hp & Hh & Hs) & Hup & Huh & Hus & Hcr & Hb) Hx Hi Hc. split_and!; simpl; try done.
  - etrans; [|exact Hs]. apply mlen_dom. intros k Hk. destruct (decide (key = k)) as [<-|Hne]; [eauto|].
    by rewrite lookup_insert_ne in Hk.
  - intros k k' v v'. rewrite !lookup_insert_Some.
    intros [[<- <-]|[_ Hv]] [[<- <-]|[_ Hv']] HR; [done|..]; eapply Hus; eauto; congruence.
  - intros k v. simpl. rewrite lookup_insert_Some.
    intros [[<- <-]|[_ Hv]]; [rewrite Hc|]; by eapply Hb.
Qed.

Lemma resolveSession_wf now s token inst secret ttl :
  wf s → wf (ResolveSession now s token inst secret ttl).1.
Proof.
  intros Hwf. unfold ResolveSession. destruct (Sessions s !! _) as [x|] eqn:Hx; [|done].
  destruct (After _ _); [by apply removeSession_wf|].
  destruct (_ || _); [done|]. destruct (_ && _); [|done]. by eapply renew_wf.
Qed.

Lemma deleteSession_wf s token inst secret : wf s → wf (DeleteSession s token inst secret).1.
Proof.
  intros Hwf. unfold DeleteSession. destruct (Sessions s !! _) as [x|]; [|done].
  destruct (_ || _); [done|]. by apply removeSession_wf.
Qed.

(** *** Revoking an installation *)

Section Revoke.
Context {V : Type} (inst dev : V → string) (installationID deviceHash : string).

Abbreviation loop := (revokeLoop inst dev installationID deviceHash).

(** Whether the entry may be removed with this device's secret. *)
Definition revocable (v : V) : bool :=
  (inst v != installationID) || secureHashEqual (dev v) deviceHash.

Lemma revokeLoop_sub l m n : (loop l m n).1.1 ⊆ m.
Proof.
  revert m n. induction l as [|[k v] l IH]; intros m n; simpl; [done|].
  destruct (negb _); [apply IH|]. destruct (negb _); [done|].
  etrans; [apply IH|apply delete_subseteq].
Qed.

Lemma revokeLoop_done l m n : (loop l m n).2 = forallb (λ kv, revocable kv.2) l.
Proof.
  revert m n. induction l as [|[k v] l IH]; intros m n; simpl; [done|]. unfold revocable at 1. simpl.
  destruct (bool_decide (inst v = installationID)); simpl; [|apply IH].
  destruct (secureHashEqual _ _); simpl; [apply IH|done].
Qed.

Lemma revokeLoop_count l m n :
  (loop l m n).2 = true →
  (loop l m n).1 = foldl (λ '(acc, n) '(k, v),
      if inst v == installationID then (delete k acc, n + 1) else (acc, n)) (m, n) l.
Proof.
  revert m n. induction l as [|[k v] l IH]; intros m n; simpl; [done|].
  destruct (bool_decide (inst v = installationID)); simpl; [|apply IH].
  destruct (negb _); [done|]. apply IH.
Qed.

(** A loop that runs to its end has deleted the entries of the installation. *)
Lemma revokeLoop_range m :
  (loop (rangeMap m) m 0).2 = true →
  (loop (rangeMap m) m 0).1.1 = range_delete (λ _ v, inst v == installationID) m ∧
  (loop (rangeMap m) m 0).1.2 =
    mlen m - mlen (range_delete (λ _ v, inst v == installationID) m).
Proof.
  intros Hd. rewrite (revokeLoop_count _ _ _ Hd).
  apply (range_delete_count_spec (λ _ v, inst v == installationID) m).
Qed.

Lemma revokeLoop_ok m :
  (loop (rangeMap m) m 0).2 = true ↔
  ∀ k v, m !! k = Some v → inst v = installationID → secureHashEqual (dev v) deviceHash = true.
Proof.
  rewrite revokeLoop_done, forallb_forall. split.
  - intros Hall k v Hk Hi. apply elem_of_rangeMap, list_elem_of_In in Hk.
    specialize (Hall _ Hk). unfold revocable in Hall. simpl in Hall.
    by rewrite bool_decide_true in Hall.
  - intros Hall [k v] Hkv%list_elem_of_In%elem_of_rangeMap. unfold revocable. simpl.
    destruct (bool_decide_reflect (inst v = installationID)); simpl; [|done]. by eapply Hall.
Qed.
End Revoke.

(** The secret opens every artifact of the installation. *)
Definition device_owns (s : t) (inst secret : string) : Prop :=
  (∀ k x, Sessions s !! k = Some x → S.InstallationID x = inst →
     secureHashEqual (S.DeviceHash x) (hashSecret secret) = true) ∧
  (∀ k p, Pending s !! k = Some p → P.InstallationID p = inst →
     secureHashEqual (P.DeviceHash p) (hashSecret secret) = true) ∧
  (∀ k h, Handoffs s !! k = Some h → H.InstallationID h = inst →
     secureHashEqual (H.DeviceHash h) (hashSecret secret) = true).

(** The state after removing the artifacts of an installation. *)
Definition without_installation (s : t) (inst : string) : t :=
  dropUnusedLocked (mk (Credentials s)
    (range_delete (λ _ x, S.InstallationID x == inst) (Sessions s))
    (range_delete (λ _ p, P.InstallationID p == inst) (Pending s))
    (range_delete (λ _ h, H.InstallationID h == inst) (Handoffs s))).

Lemma RevokeInstallation_cases s inst secret s' n err :
  RevokeInstallation s inst secret = (s', (n, err)) →
  (device_owns s inst secret ∧ err = None ∧ s' = without_installation s inst ∧
     n = mlen (Sessions s) - mlen (Sessions s')) ∨
  (¬ device_owns s inst secret ∧ err = Some ErrAuthDeviceMismatch ∧ n = 0 ∧
     Sessions s' ⊆ Sessions s ∧ Pending s' ⊆ Pending s ∧ Handoffs s' ⊆ Handoffs s ∧
     Credentials s' = Credentials s).
Proof.
  unfold RevokeInstallation, device_owns, without_installation.
  rewrite <-(revokeLoop_ok S.InstallationID S.DeviceHash inst (hashSecret secret) (Sessions s)).
  rewrite <-(revokeLoop_ok P.InstallationID P.DeviceHash inst (hashSecret secret) (Pending s)).
  rewrite <-(revokeLoop_ok H.InstallationID H.DeviceHash inst (hashSecret secret) (Handoffs s)).
  pose proof (revokeLoop_sub S.InstallationID S.DeviceHash inst (hashSecret secret)
    (rangeMap (Sessions s)) (Sessions s) 0) as Hs1.
  pose proof (revokeLoop_range S.InstallationID S.DeviceHash inst (hashSecret secret) (Sessions s)) as Hs2.
  pose proof (revokeLoop_sub P.InstallationID P.DeviceHash inst (hashSecret secret)
    (rangeMap (Pending s)) (Pending s) 0) as Hp1.
  pose proof (revokeLoop_range P.InstallationID P.DeviceHash inst (hashSecret secret) (Pending s)) as Hp2.
  pose proof (revokeLoop_sub H.InstallationID H.DeviceHash inst (hashSecret secret)
    (rangeMap (Handoffs s)) (Handoffs s) 0) as Hh1.
  pose proof (revokeLoop_range H.InstallationID H.DeviceHash inst (hashSecret secret) (Handoffs s)) as Hh2.
  destruct (revokeLoop _ _ _ _ (rangeMap (Sessions s)) _ _) as [[ms ns] ds]. simpl in *.
  destruct ds; simpl; [|intros [= <- <- <-]; right; split_and!; try done; by intros [? _]].
  destruct (revokeLoop _ _ _ _ (rangeMap (Pending s)) _ _) as [[mp np] dp]. simpl in *.
  destruct dp; simpl; [|intros [= <- <- <-]; right; split_and!; try done; by intros (_ & ? & _)].
  destruct (revokeLoop _ _ _ _ (rangeMap (Handoffs s)) _ _) as [[mh nh] dh]. simpl in *.
  destruct dh; simpl; [|intros [= <- <- <-]; right; split_and!; try done; by intros (_ & _ & ?)].
  destruct (Hs2 eq_refl) as [-> ->], (Hp2 eq_refl) as [-> _], (Hh2 eq_refl) as [-> _].
  intros H. left. split; [done|]. destruct (negb _) eqn:Hmut in H; injection H as <- <- <-; simpl.
  - split_and!; try done. apply negb_true_iff in Hmut. rewrite !orb_false_iff in Hmut.
    destruct Hmut as [[[Hz _] _] _]. pose proof (mlen_sub _ _ Hs1). lia.
  - done.
Qed.

Lemma without_installation_wf s inst : wf s → wf (without_installation s inst).
Proof.
  intros Hwf. eapply wf_shrink; [exact Hwf|apply range_delete_subseteq..|].
  apply dropUnused_bound. eapply bound_sub; [apply Hwf|apply range_delete_subseteq|done].
Qed.

Lemma revokeInstallation_wf s inst secret : wf s → wf (RevokeInstallation s inst secret).1.
Proof.
  intros Hwf. destruct (RevokeInstallation s inst secret) as [s' [n err]] eqn:Hr. simpl.
  apply RevokeInstallation_cases in Hr as [(_ & _ & -> & _)|(_ & _ & _ & Hs & Hp & Hh & Hc)].
  - by apply without_installation_wf.
  - eapply wf_shrink; [exact Hwf|done..|by rewrite Hc|]. by eapply bound_sub; [apply Hwf|..].
Qed.

(** *** Revoking an account *)

(** The credential belongs to the user. *)
Definition owned (s : t) (userID id : string) : Prop :=
  ∃ c, Credentials s !! id = Some c ∧ CR.UserID c = userID.

Lemma idSet_insert (ids : idSet) k id : idSet_has (<[k := ()]> ids) id = (k == id) || idSet_has ids id.
Proof.
  unfold idSet_has. destruct (bool_decide_reflect (k = id)) as [->|Hne].
  - by rewrite lookup_insert_eq.
  - by rewrite lookup_insert_ne.
Qed.

Lemma accountCredentialIDs_spec s userID id :
  idSet_has (accountCredentialIDs userID (rangeMap (Credentials s))) id = true ↔ owned s userID id.
Proof.
  unfold accountCredentialIDs, owned.
  assert (∀ (l : list (string * CR.t)) (acc : idSet),
    idSet_has (foldl (λ acc '(id, credential),
      if CR.UserID credential == userID then <[id := ()]> acc else acc) acc l) id = true ↔
    idSet_has acc id = true ∨ ∃ c, (id, c) ∈ l ∧ CR.UserID c = userID) as Hgen.
  { induction l as [|[k c] l IH]; intros acc; simpl.
    { split; [by left|]. intros [?|(c & Hc & _)]; [done|]. by apply elem_of_nil in Hc. }
    rewrite IH. destruct (bool_decide_reflect (CR.UserID c = userID)).
    - rewrite idSet_insert, orb_true_iff, bool_decide_eq_true. setoid_rewrite elem_of_cons. naive_solver.
    - setoid_rewrite elem_of_cons. naive_solver. }
  rewrite Hgen. setoid_rewrite elem_of_rangeMap. split; [|by right].
  intros [Hh|?]; [|done]. unfold idSet_has in Hh. by rewrite lookup_empty in Hh.
Qed.

(** The loop over the sessions deletes those of the given credentials and
    collects their installations. *)
Lemma revokeSessionsLoop_spec ids l (m : gmap string S.t) inst n :
  let r := revokeSessionsLoop ids l m inst n in
  (r.1.1, r.2) = foldl (λ '(acc, n) '(k, v),
    if idSet_has ids (S.CredentialID v) then (delete k acc, n + 1) else (acc, n)) (m, n) l ∧
  ∀ i, idSet_has r.1.2 i = true ↔ idSet_has inst i = true ∨
    ∃ k x, (k, x) ∈ l ∧ idSet_has ids (S.CredentialID x) = true ∧ S.InstallationID x = i.
Proof.
  unfold revokeSessionsLoop. revert m inst n. induction l as [|[k x] l IH]; intros m inst n; simpl.
  { split; [done|]. intros i. split; [by left|].
    intros [?|(? & ? & Hin & _)]; [done|by apply elem_of_nil in Hin]. }
  destruct (idSet_has ids (S.CredentialID x)) eqn:Hx.
  - destruct (IH (delete k m) (<[S.InstallationID x := ()]> inst) (n + 1)) as [H1 H2].
    split; [done|]. intros i. rewrite H2, idSet_insert, orb_true_iff, bool_decide_eq_true.
    setoid_rewrite elem_of_cons. split.
    + intros [[<-|?]|(k' & x' & ? & ? & ?)]; [right; eauto 10|by left|right; eauto 10].
    + intros [?|(k' & x' & [[= -> ->]|?] & ? & ?)]; [by left; right|by left; left|right; eauto].
  - destruct (IH m inst n) as [H1 H2]. split; [done|]. intros i. rewrite H2.
    setoid_rewrite elem_of_cons. split.
    + intros [?|(k' & x' & ? & ? & ?)]; [by left|right; eauto 10].
    + intros [?|(k' & x' & [[= -> ->]|?] & ? & ?)]; [by left|congruence|right; eauto].
Qed.

(** The loop over the handoffs deletes at least those of the given
    credentials and of the installations collected before it; every
    installation it deletes from ends up in the set. *)
Lemma revokeHandoffsLoop_spec ids l (m : gmap string H.t) inst b :
  NoDup l.*1 → (∀ k h, (k, h) ∈ l → m !! k = Some h) →
  let r := foldl (λ '(handoffs, installations, mutated) '(key, handoff),
      let credentialMatches := idSet_has ids (H.CredentialID handoff) in
      let installationMatches := idSet_has installations (H.InstallationID handoff) in
      if negb credentialMatches && negb installationMatches
      then (handoffs, installations, mutated)
      else (delete key handoffs, <[H.InstallationID handoff := ()]> installations, true))
    (m, inst, b) l in
  (∀ k, k ∉ l.*1 → r.1.1 !! k = m !! k) ∧
  (∀ i, idSet_has inst i = true → idSet_has r.1.2 i = true) ∧
  (∀ k h, (k, h) ∈ l →
     r.1.1 !! k = Some h ∧ idSet_has ids (H.CredentialID h) = false ∧
       idSet_has inst (H.InstallationID h) = false ∨
     r.1.1 !! k = None ∧ idSet_has r.1.2 (H.InstallationID h) = true).
Proof.
  revert m inst b. induction l as [|[k0 h0] l IH]; intros m inst b Hnd Hin; simpl.
  { split_and!; [done|done|by intros ?? ?%elem_of_nil]. }
  apply NoDup_cons in Hnd as [Hk0 Hnd]. simpl in Hk0.
  assert (∀ k h, (k, h) ∈ l → k ≠ k0) as Hne.
  { intros k h Hkh ->. apply Hk0, list_elem_of_fmap. by exists (k0, h). }
  assert (∀ k h, (k, h) ∈ l → m !! k = Some h) as Htl by (intros; apply Hin; by right).
  assert (m !! k0 = Some h0) as Hm0 by (apply Hin; by left).
  destruct (negb _ && negb _) eqn:Hg.
  - apply andb_prop in Hg as [Hc%negb_true_iff Hi%negb_true_iff].
    destruct (IH m inst b Hnd Htl) as (H1 & H2 & H3). split_and!; [|done|].
    + intros k [_ Hk]%not_elem_of_cons. by apply H1.
    + intros k h [[= -> ->]|Hkh]%elem_of_cons; [|by apply H3]. left. by rewrite H1.
  - destruct (IH (delete k0 m) (<[H.InstallationID h0 := ()]> inst) true Hnd) as (H1 & H2 & H3).
    { intros k h Hkh. rewrite lookup_delete_ne; [by apply Htl|]. by eapply not_eq_sym, Hne. }
    split_and!.
    + intros k [Hkn Hk]%not_elem_of_cons. rewrite H1 by done. by rewrite lookup_delete_ne.
    + intros i Hi. apply H2. rewrite idSet_insert, Hi. apply orb_true_r.
    + intros k h [[= -> ->]|Hkh]%elem_of_cons.
      * right. split; [rewrite H1 by done; apply lookup_delete_eq|].
        apply H2. rewrite idSet_insert. by rewrite bool_decide_true.
      * destruct (H3 k h Hkh) as [(? & ? & Hi)|?]; [left|by right]. split_and!; [done..|].
        rewrite idSet_insert in Hi. by apply orb_false_iff in Hi as [_ Hi].
Qed.

Lemma revokeHandoffs_range ids (m : gmap string H.t) inst :
  let r := revokeHandoffsLoop ids (rangeMap m) m inst in
  r.1.1 ⊆ m ∧ (∀ i, idSet_has inst i = true → idSet_has r.1.2 i = true) ∧
  (∀ k h, r.1.1 !! k = Some h →
     ¬ idSet_has ids (H.CredentialID h) = true ∧ ¬ idSet_has inst (H.InstallationID h) = true) ∧
  (∀ k h, m !! k = Some h → r.1.1 !! k = None → idSet_has r.1.2 (H.InstallationID h) = true).
Proof.
  intros r. destruct (revokeHandoffsLoop_spec ids (rangeMap m) m inst false (NoDup_rangeMap m))
    as (H1 & H2 & H3); [by intros ??; rewrite elem_of_rangeMap|].
  assert (∀ k h, r.1.1 !! k = Some h → m !! k = Some h ∧ idSet_has ids (H.CredentialID h) = false ∧
    idSet_has inst (H.InstallationID h) = false) as Hkept.
  { intros k h Hk. destruct (m !! k) as [h'|] eqn:Hm.
    - apply elem_of_rangeMap in Hm. destruct (H3 k h' Hm) as [(Hk' & ? & ?)|[Hk' _]].
      + by change (r.1.1 !! k = Some h') in Hk'; simplify_eq.
      + by change (r.1.1 !! k = None) in Hk'; simplify_eq.
    - apply rangeMap_lookup_None in Hm. specialize (H1 k Hm).
      change (r.1.1 !! k = m !! k) in H1. rewrite Hk in H1.
      symmetry in H1. apply elem_of_rangeMap in H1. destruct Hm. apply list_elem_of_fmap. by exists (k, h). }
  split_and!; [|done|..].
  - apply map_subseteq_spec. intros k h Hk. by apply Hkept.
  - intros k h Hk. destruct (Hkept k h Hk) as (_ & -> & ->). done.
  - intros k h Hm%elem_of_rangeMap Hk. destruct (H3 k h Hm) as [(Hk' & _)|[_ ?]]; [|done].
    by change (r.1.1 !! k = Some h) in Hk'; simplify_eq.
Qed.

(** The loop over the credentials deletes those of the user. *)
Lemma deleteCredentialsLoop_spec (ids : idSet) (m : gmap string CR.t) id c :
  (deleteCredentialsLoop (rangeMap ids) m).1 !! id = Some c ↔
  m !! id = Some c ∧ idSet_has ids id = false.
Proof.
  assert (∀ (l : list (string * ())) (m : gmap string CR.t) (n : Z),
    (foldl (λ '(credentials, removed) '(credentialID, _),
      if bool_decide (is_Some (credentials !! credentialID))
      then (delete credentialID credentials, removed + 1) else (credentials, removed))
      (m, n) l).1 !! id = Some c ↔ m !! id = Some c ∧ id ∉ l.*1) as Hgen.
  { induction l as [|[k []] l IH]; intros m0 n; simpl.
    { split; [|tauto]. intros. split; [done|apply not_elem_of_nil]. }
    rewrite not_elem_of_cons. case_bool_decide as Hk.
    - rewrite IH, lookup_delete_Some. naive_solver.
    - rewrite IH. split; [|tauto]. intros [Hid Hl]. split_and!; [done| |done].
      intros ->. by destruct Hk. }
  unfold deleteCredentialsLoop. rewrite Hgen. apply and_iff_compat_l. unfold idSet_has.
  rewrite bool_decide_eq_false, list_elem_of_fmap. split.
  - intros Hn [[] Hs]. apply Hn. exists (id, ()). by rewrite elem_of_rangeMap.
  - intros Hn ([k []] & -> & Hin%elem_of_rangeMap). apply Hn. simpl. eauto.
Qed.

(** The installations signed in with a credential of the user. *)
Definition signed_in (s : t) (userID inst : string) : Prop :=
  ∃ k x, Sessions s !! k = Some x ∧ owned s userID (S.CredentialID x) ∧ S.InstallationID x = inst.

(** What an account revocation achieves. *)
Definition account_revoked (s : t) (userID : string) (extra : list string) (s' : t) : Prop :=
  (∀ k x, Sessions s' !! k = Some x ↔
     Sessions s !! k = Some x ∧ ¬ owned s userID (S.CredentialID x)) ∧
  (∀ id c, Credentials s' !! id = Some c ↔
     Credentials s !! id = Some c ∧ CR.UserID c ≠ userID ∧ credentialInUseLocked s' id = true) ∧
  (Handoffs s' ⊆ Handoffs s ∧ ∀ k h, Handoffs s' !! k = Some h →
     ¬ owned s userID (H.CredentialID h) ∧ ¬ signed_in s userID (H.InstallationID h) ∧
     idSet_has (extraInstallations extra) (H.InstallationID h) = false) ∧
  (Pending s' ⊆ Pending s ∧ ∀ k p, Pending s' !! k = Some p →
     ¬ signed_in s userID (P.InstallationID p) ∧
     idSet_has (extraInstallations extra) (P.InstallationID p) = false ∧
     ∀ k' h, Handoffs s !! k' = Some h → Handoffs s' !! k' = None →
       H.InstallationID h ≠ P.InstallationID p).

Lemma RevokeAccount_spec s userID extra :
  TrimSpace userID ≠ "" →
  ∃ s' n c, RevokeAccount s userID extra = (s', Ok (n, c)) ∧
    n = mlen (Sessions s) - mlen (Sessions s') ∧
    account_revoked s (TrimSpace userID) extra s'.
Proof.
  intros Hu. unfold RevokeAccount. rewrite bool_decide_false by done.
  set (u := TrimSpace userID). set (ids := accountCredentialIDs u (rangeMap (Credentials s))).
  assert (∀ id, idSet_has ids id = true ↔ owned s u id) as Hids by apply accountCredentialIDs_spec.
  assert (∀ id, idSet_has ids id = false ↔ ¬ owned s u id) as Hnot
    by (intros id; by rewrite <-Hids, not_true_iff_false).
  destruct (revokeSessionsLoop_spec ids (rangeMap (Sessions s)) (Sessions s)
    (extraInstallations extra) 0) as [Hsl Hin].
  destruct (range_delete_count_spec (λ _ x, idSet_has ids (S.CredentialID x)) (Sessions s)) as [Hm Hn].
  unfold range_delete_count in Hm, Hn. rewrite <-Hsl in Hm, Hn. clear Hsl.
  destruct (revokeSessionsLoop _ _ _ _ _) as [[ms insts] ns]. simpl in Hm, Hn, Hin.
  assert (∀ i, idSet_has insts i = true ↔ idSet_has (extraInstallations extra) i = true ∨
    signed_in s u i) as Hinsts.
  { intros i. rewrite Hin. unfold signed_in. by setoid_rewrite elem_of_rangeMap; setoid_rewrite Hids. }
  cbn [update Handoffs Pending Credentials Sessions].
  destruct (revokeHandoffs_range ids (Handoffs s) insts) as (Hh1 & Hh2 & Hh3 & Hh4).
  destruct (revokeHandoffsLoop _ _ _ _) as [[mh insts'] bh]. simpl in Hh1, Hh2, Hh3, Hh4.
  destruct (range_delete_count_spec (λ _ p, idSet_has insts' (P.InstallationID p)) (Pending s)) as [Hp _].
  destruct (range_delete_count _ _) as [mp np]. simpl in Hp. subst mp ms.
  pose proof (deleteCredentialsLoop_spec ids (Credentials s)) as Hc.
  destruct (deleteCredentialsLoop _ _) as [mc nc]. simpl in Hc.
  cbn [update Handoffs Pending Credentials Sessions persistLocked ensureMapsLocked].
  exists (dropUnusedLocked (mk mc (range_delete (λ _ x, idSet_has ids (S.CredentialID x)) (Sessions s))
    (range_delete (λ _ p, idSet_has insts' (P.InstallationID p)) (Pending s)) mh)), ns, nc.
  split; [by destruct (negb _)|]. split; [done|]. split_and!; simpl; try done;
    try apply range_delete_subseteq.
  - intros k x. by rewrite range_delete_Some, Hnot.
  - intros id c. rewrite range_delete_Some, Hc, Hnot, negb_false_iff. unfold owned. split.
    + intros [[Hid Hno] Huse]. split_and!; [done|by eauto|done].
    + intros (Hid & Hno & Huse). split_and!; [done| |done]. intros (c' & Hc' & Hown). congruence.
  - intros k h [Hcred Hi]%Hh3. rewrite Hids in Hcred. rewrite Hinsts in Hi.
    rewrite <-not_true_iff_false. tauto.
  - intros k p [Hk Hi%not_true_iff_false]%range_delete_Some.
    assert (¬ idSet_has insts (P.InstallationID p) = true) as Hi' by (intros ?; by apply Hi, Hh2).
    rewrite Hinsts in Hi'. split_and!; [tauto|apply not_true_iff_false; tauto|].
    intros k' h Hh Hnone Heq. apply Hi. rewrite <-Heq. by eapply Hh4.
Qed.

Lemma revokeAccount_wf s userID extra : wf s → wf (RevokeAccount s userID extra).1.
Proof.
  intros Hwf. destruct (decide (TrimSpace userID = "")) as [He|He].
  { unfold RevokeAccount. by rewrite He. }
  destruct (RevokeAccount_spec s userID extra He) as (s' & n & c & -> & _ & Hs & Hc & [Hh _] & [Hp _]).
  cbn [fst]. eapply wf_shrink; [exact Hwf|done|done|..].
  - apply map_subseteq_spec. intros k x [? _]%Hs. done.
  - apply map_subseteq_spec. intros id cr [? _]%Hc. done.
  - intros k x Hk. destruct (Hs k x) as [Hkept _]. destruct (Hkept Hk) as [Hx Hno].
    destruct Hwf as (_ & _ & _ & _ & _ & Hb). destruct (Hb k x Hx) as [cr Hcr]. exists cr.
    apply Hc. split_and!; [done| |by eapply inUse_session]. intros Hown. apply Hno. by exists cr.
Qed.

End Invariant.

(** ** Executions *)

Inductive op :=
| OpPutPending (now : time) (state : string) (record : P.t)
| OpConsumePending (now : time) (state : string)
| OpPutHandoff (clock : nat → time) (code : string) (record : H.t)
| OpConsumeHandoff (now : time) (code installationID deviceSecret state : string)
| OpPutCredential (rnd : nat → rand_read) (credential : C.t)
| OpPutCredentialAndHandoff (rnd : nat → rand_read) (clock : nat → time) (credential : C.t)
    (code : string) (record : H.t)
| OpCreateSession (rnd : rand_read) (now : time) (credentialID installationID deviceSecret : string)
    (ttl : duration)
| OpResolveSession (now : time) (token installationID deviceSecret : string) (renewTTL : duration)
| OpDeleteSession (token installationID deviceSecret : string)
| OpRevokeInstallation (installationID deviceSecret : string)
| OpRevokeAccount (userID : string) (extraInstallationIDs : list string)
| OpDeleteCredentialIfUnused (credentialID : string).

Section Exec.
Context {sha : Sha256} (aead : option AEAD).

Definition exec {rt : GoRuntime} (s : t) (o : op) : t :=
  match o with
  | OpPutPending now state r => (PutPending now s state r).1
  | OpConsumePending now state => (ConsumePending now s state).1
  | OpPutHandoff clock code r => (PutHandoff clock s code r).1
  | OpConsumeHandoff now code inst secret state => (ConsumeHandoff now s code inst secret state).1
  | OpPutCredential rnd c => (PutCredential aead rnd s c).1
  | OpPutCredentialAndHandoff rnd clock c code r =>
      (PutCredentialAndHandoff aead rnd clock s c code r).1
  | OpCreateSession rnd now id inst secret ttl => (CreateSession rnd now s id inst secret ttl).1
  | OpResolveSession now token inst secret ttl => (ResolveSession now s token inst secret ttl).1
  | OpDeleteSession token inst secret => (DeleteSession s token inst secret).1
  | OpRevokeInstallation inst secret => (RevokeInstallation s inst secret).1
  | OpRevokeAccount userID extra => (RevokeAccount s userID extra).1
  | OpDeleteCredentialIfUnused id => (DeleteCredentialIfUnused s id).1
  end.

(** The random source returns as many bytes as asked for. *)
Definition random_ok (o : op) : Prop :=
  match o with
  | OpPutCredential rnd _ | OpPutCredentialAndHandoff rnd _ _ _ _ => ∀ i, rand_ok (rnd i)
  | _ => True
  end.

(** One operation, under any iteration order of the runtime. *)
Inductive step (s : t) : t → Prop :=
| step_exec (rt : GoRuntime) (o : op) : random_ok o → step s (exec s o).

Lemma auth_exec_wf {rt : GoRuntime} s o : random_ok o → wf aead s → wf aead (exec s o).
Proof.
  intros Ho Hwf. destruct o; cbn [exec].
  - by apply putPending_wf.
  - by apply consumePending_wf.
  - by apply storeHandoff_wf.
  - by apply consumeHandoff_wf.
  - by apply putCredential_wf.
  - by apply putCredentialAndHandoff_wf.
  - by apply createSession_wf.
  - by apply resolveSession_wf.
  - by apply deleteSession_wf.
  - by apply revokeInstallation_wf.
  - by apply revokeAccount_wf.
  - by apply deleteCredentialIfUnused_wf.
Qed.

Lemma auth_empty_wf : wf aead empty.
Proof.
  split_and!; try done; intros *; simpl; rewrite ?lookup_empty; try done.
Qed.

Lemma auth_reachable_wf s : rtc step empty s → wf aead s.
Proof.
  intros Hs. pose proof auth_empty_wf as Hwf.
  induction Hs as [|s1 s2 s3 [rt o Ho] _ IH]; [done|]. apply IH. by apply auth_exec_wf.
Qed.
End Exec.
End AuthProofs.
