(* ===== verification/AuthTheorems.v ===== *)
(** * Authentication store: what it promises

    Theorems over the reachable states of [AuthStore.v]: sealed credentials
    come back unchanged, one-time values are one-time, a session belongs to
    one device, and revocation removes exactly what it names. *)

From S2P Require Import Prelude GoStrings Credentials Domain AuthStore AuthProofs.
Import Memory.

Module AuthTheorems.
Import AuthStore AuthProofs.

Section Theorems.
Context {sha : Sha256} (aead : option AEAD).

(** The invariant of the authentication store.  In every reachable state
    the maps respect their capacities, an installation has at most one
    session, a device at most one pending authorization and one handoff,
    every session refers to a stored credential, and every stored credential
    can be opened. *)
Theorem auth_store_invariant (s : t) :
  rtc (step aead) empty s →
  (mlen (Pending s) ≤ 10000 ∧ mlen (Handoffs s) ≤ 10000 ∧ mlen (Sessions s) ≤ 100000) ∧
  (∀ k k' x x', Sessions s !! k = Some x → Sessions s !! k' = Some x' →
     S.InstallationID x = S.InstallationID x' → k = k') ∧
  (∀ k k' p p', Pending s !! k = Some p → Pending s !! k' = Some p' →
     P.InstallationID p = P.InstallationID p' → P.DeviceHash p = P.DeviceHash p' →
     P.DeviceHash p ≠ "" → k = k') ∧
  (∀ k k' h h', Handoffs s !! k = Some h → Handoffs s !! k' = Some h' →
     H.InstallationID h = H.InstallationID h' → H.DeviceHash h = H.DeviceHash h' →
     H.DeviceHash h ≠ "" → k = k') ∧
  (∀ k x, Sessions s !! k = Some x → ∃ c, GetCredential aead s (S.CredentialID x) = Ok c) ∧
  (∀ id e, GetCredential aead s id = Err e → e = ErrAuthNotFound).
Proof.
  intros (Hb & Hp & Hh & Hs & Hc & Hbound)%auth_reachable_wf. split_and!; try apply Hb.
  - intros k k' x x' Hk Hk'. by eapply Hs.
  - intros k k' p p' Hk Hk' H1 H2 H3. by eapply Hp.
  - intros k k' h h' Hk Hk' H1 H2 H3. by eapply Hh.
  - intros k x Hk. destruct (Hbound k x Hk) as [r Hr]. unfold GetCredential. rewrite Hr.
    by destruct (Hc _ _ Hr) as [_ ?].
  - intros id e. unfold GetCredential. destruct (Credentials s !! id) as [r|] eqn:Hr; [|congruence].
    destruct (Hc _ _ Hr) as [_ [c ->]]. done.
Qed.

(** What [PutCredential] does to the store. *)
Lemma PutCredential_get (s s' : t) rnd c :
  (∀ i, rand_ok (rnd i)) →
  PutCredential aead rnd s c = (s', None) →
  GetCredential aead s' (C.ID c) = Ok c ∧
  ∀ id, id ≠ C.ID c → GetCredential aead s' id = GetCredential aead s id.
Proof.
  intros Hrnd. unfold PutCredential, setCredentialLocked.
  destruct (seal aead (rnd 0%nat) _ _) as [access|] eqn:Ha; [|done].
  destruct (seal aead (rnd 1%nat) _ _) as [refresh|] eqn:Hr; [|done].
  intros [= <-]. unfold GetCredential, ensureMapsLocked. simpl. split.
  - rewrite lookup_insert_eq. unfold openCredential, open. simpl.
    rewrite (openAuthValue_sealAuthValue _ _ _ _ _ (Hrnd 0%nat) Ha). simpl.
    rewrite (openAuthValue_sealAuthValue _ _ _ _ _ (Hrnd 1%nat) Hr). simpl. by destruct c.
  - intros id Hne. by rewrite lookup_insert_ne.
Qed.

Lemma PutCredential_frame (s s' : t) rnd c err :
  PutCredential aead rnd s c = (s', err) →
  Sessions s' = Sessions s ∧ Pending s' = Pending s ∧ Handoffs s' = Handoffs s ∧ (is_Some err → s' = s).
Proof.
  unfold PutCredential, setCredentialLocked.
  destruct (seal aead (rnd 0%nat) _ _) as [access|]; [|by intros [= <- <-]].
  destruct (seal aead (rnd 1%nat) _ _) as [refresh|]; [|by intros [= <- <-]].
  intros [= <- <-]. split_and!; done || by intros [? ?].
Qed.

(** Credentials round trip.  A credential stored with [PutCredential] is
    returned by [GetCredential] exactly as it was given, tokens included, and
    no other credential changes. *)
Theorem credential_round_trip (s s' : t) rnd c :
  (∀ i, rand_ok (rnd i)) →
  PutCredential aead rnd s c = (s', None) →
  GetCredential aead s' (C.ID c) = Ok c ∧
  ∀ id, id ≠ C.ID c → GetCredential aead s' id = GetCredential aead s id.
Proof. apply PutCredential_get. Qed.

(** A session the device may use until it expires. *)
Lemma ResolveSession_live (rt : GoRuntime) now s token inst secret renew x :
  Sessions s !! hashSecret token = Some x → S.InstallationID x = inst →
  S.DeviceHash x = hashSecret secret → now ≤ S.ExpiresAt x →
  ∃ s' x', ResolveSession now s token inst secret renew = (s', Ok x') ∧
    S.CredentialID x' = S.CredentialID x ∧ S.InstallationID x' = inst ∧
    S.ExpiresAt x ≤ S.ExpiresAt x' ∧ Sessions s' !! hashSecret token = Some x' ∧
    (∀ k, k ≠ hashSecret token → Sessions s' !! k = Sessions s !! k).
Proof.
  intros Hx Hi Hd Hexp. unfold ResolveSession. rewrite Hx.
  assert (After now (S.ExpiresAt x) = false) as -> by (unfold After; lia).
  rewrite Hi, Hd, secureHashEqual_hashSecret, !bool_decide_true by done. simpl.
  destruct ((0 <? renew) && _) eqn:Hrenew; simpl.
  - apply andb_prop in Hrenew as [Hpos Hbefore]. unfold Before, Add in *.
    pose proof (Z.quot_div_nonneg renew 2). pose proof (Z.div_lt renew 2).
    eexists _, _. split_and!; [done..|simpl; unfold Add; lia|simpl; apply lookup_insert_eq|].
    intros k Hk. simpl. by rewrite lookup_insert_ne.
  - eexists _, _. split_and!; try done.
Qed.

Lemma CreateSession_ok (rt : GoRuntime) rnd now s id inst secret ttl s' token exp :
  CreateSession rnd now s id inst secret ttl = (s', Ok (token, exp)) → 0 ≤ ttl →
  exp = now + ttl ∧
  Sessions s' !! hashSecret token = Some (S.mk id inst (hashSecret secret) now exp) ∧
  (∀ k x, k ≠ hashSecret token →
     Sessions s' !! k = Some x ↔
     Sessions s !! k = Some x ∧ now ≤ S.ExpiresAt x ∧ S.InstallationID x ≠ inst).
Proof.
  unfold CreateSession. destruct (Credentials s !! id); [|done].
  destruct (range_exists _ _); [done|]. destruct (_ <=? _); [done|].
  destruct (randomToken rnd "fsv1_" 32) as [tok|]; [|done]. simpl.
  intros [= <- <- <-] Httl. unfold Add, ensureMapsLocked. split_and!; [done|simpl..].
  - apply range_delete_Some. rewrite lookup_insert_eq. split; [done|]. unfold After. simpl. lia.
  - intros k x Hk. rewrite range_delete_Some, lookup_insert_ne, range_delete_Some by done.
    rewrite orb_false_iff, bool_decide_eq_false. unfold After. rewrite Z.ltb_ge. tauto.
Qed.

(** Sessions.  A token returned by [CreateSession] resolves for the
    installation and device secret it was created with until it expires,
    never with its expiry moved back, and is refused for every secret with
    another hash; it is the only session of the installation, and the live
    sessions of other installations are untouched. *)
Theorem session_belongs_to_device (rt : GoRuntime) (s s' : t) rnd now id inst secret ttl token exp :
  0 ≤ ttl →
  CreateSession rnd now s id inst secret ttl = (s', Ok (token, exp)) →
  exp = now + ttl ∧
  (∀ now2 renew, now2 ≤ exp →
     ∃ s2 x, ResolveSession now2 s' token inst secret renew = (s2, Ok x) ∧
       S.CredentialID x = id ∧ exp ≤ S.ExpiresAt x) ∧
  (∀ now2 other renew, now2 ≤ exp → hashSecret other ≠ hashSecret secret →
     ResolveSession now2 s' token inst other renew = (s', Err ErrAuthDeviceMismatch)) ∧
  (∀ k x, Sessions s' !! k = Some x → S.InstallationID x = inst → k = hashSecret token) ∧
  (∀ k x, Sessions s !! k = Some x → now ≤ S.ExpiresAt x → S.InstallationID x ≠ inst →
     k ≠ hashSecret token → Sessions s' !! k = Some x).
Proof.
  intros Httl Hcs. apply CreateSession_ok in Hcs as (Hexp & Hx & Hothers); [|done].
  split_and!.
  - done.
  - intros now2 renew Hle. destruct (ResolveSession_live rt now2 s' token inst secret renew _ Hx)
      as (s2 & x & Hr & Hc & _ & He & _); [done..|]. eauto.
  - intros now2 other renew Hle Hne. unfold ResolveSession. rewrite Hx. simpl.
    assert (After now2 exp = false) as -> by (unfold After; lia).
    rewrite secureHashEqual_hashSecret, bool_decide_true, bool_decide_false by congruence. done.
  - intros k x Hk Hi. destruct (decide (k = hashSecret token)) as [|Hne]; [done|].
    by apply Hothers in Hk as (_ & _ & ?).
  - intros k x Hk He Hi Hne. apply Hothers; [done|]. auto.
Qed.

(** No takeover.  While an installation has a live session, nobody
    without its device secret can create another one for it: the attempt is
    an error and changes nothing. *)
Theorem session_not_hijacked (rt : GoRuntime) (s : t) rnd now id other ttl key x :
  Sessions s !! key = Some x → now ≤ S.ExpiresAt x → S.DeviceHash x ≠ hashSecret other →
  ∃ e, CreateSession rnd now s id (S.InstallationID x) other ttl = (s, Err e) ∧
    (e = ErrAuthNotFound ∨ e = ErrAuthDeviceMismatch).
Proof.
  intros Hx He Hd. unfold CreateSession. destruct (Credentials s !! id); [|eauto].
  rewrite (proj2 (range_exists_true _ (Sessions s))); [eauto|].
  exists key, x. split; [done|]. rewrite secureHashEqual_hashSecret.
  rewrite bool_decide_true, bool_decide_false by done. unfold After.
  destruct (Z.ltb_spec (S.ExpiresAt x) now); [lia|done].
Qed.

(** A pending authorization is consumed once.  [ConsumePending] returns
    the record stored under the state at most once and only before it
    expires; afterwards the state is unknown. *)
Theorem pending_consumed_once (s s' : t) now state r :
  ConsumePending now s state = (s', r) →
  (∀ p, r = Ok p → Pending s !! hashSecret state = Some p ∧ now ≤ P.ExpiresAt p) ∧
  (∀ now2, ConsumePending now2 s' state = (s', Err ErrAuthNotFound)) ∧
  (∀ k, k ≠ hashSecret state → Pending s' !! k = Pending s !! k).
Proof.
  unfold ConsumePending. destruct (Pending s !! hashSecret state) as [p|] eqn:Hp; simpl.
  - intros H. assert (s' = s <| Pending := delete (hashSecret state) (Pending s) |>) as ->
      by (by destruct (After _ _); injection H).
    split_and!.
    + intros p' ->. unfold After in H. destruct (Z.ltb_spec (P.ExpiresAt p) now); [done|].
      injection H as ->. done.
    + intros now2. simpl. by rewrite lookup_delete_eq.
    + intros k Hk. simpl. by rewrite lookup_delete_ne.
  - intros [= <- <-]. split_and!; [done| |done]. intros now2. by rewrite Hp.
Qed.

(** A handoff code is consumed once, by its device.  [ConsumeHandoff]
    succeeds only before the expiry, for the installation, device secret and
    state the handoff was bound to, and then the code is unknown; a refused
    attempt before the expiry changes nothing, so the device can still use
    the code. *)
Theorem handoff_consumed_once (s s' : t) now code inst secret state r :
  ConsumeHandoff now s code inst secret state = (s', r) →
  (∀ h, r = Ok h →
     Handoffs s !! hashSecret code = Some h ∧ now ≤ H.ExpiresAt h ∧ H.InstallationID h = inst ∧
     H.DeviceHash h = hashSecret secret ∧ H.StateHash h = hashSecret state ∧
     ∀ now2 inst2 secret2 state2,
       ConsumeHandoff now2 s' code inst2 secret2 state2 = (s', Err ErrAuthNotFound)) ∧
  (∀ e, r = Err e → e ≠ ErrAuthExpired → s' = s) ∧
  (∀ h, Handoffs s !! hashSecret code = Some h → now ≤ H.ExpiresAt h → H.InstallationID h = inst →
     H.DeviceHash h = hashSecret secret → H.StateHash h = hashSecret state → r = Ok h).
Proof.
  unfold ConsumeHandoff. destruct (Handoffs s !! hashSecret code) as [h|] eqn:Hh; simpl;
    [|by intros [= <- <-]; split_and!].
  unfold After. destruct (Z.ltb_spec (H.ExpiresAt h) now).
  { intros [= <- <-]. split_and!; [done|intros e [= <-]; done|]. intros h' [= <-] ?. lia. }
  rewrite !secureHashEqual_hashSecret.
  destruct (bool_decide_reflect (H.InstallationID h = inst)) as [Hi|Hi]; simpl;
    [|intros [= <- <-]; split_and!; [done..|by intros ? [= <-]]].
  destruct (bool_decide_reflect (H.DeviceHash h = hashSecret secret)) as [Hd|Hd]; simpl;
    [|intros [= <- <-]; split_and!; [done..|by intros ? [= <-]]].
  destruct (bool_decide_reflect (H.StateHash h = hashSecret state)) as [Hst|Hst]; simpl;
    [|intros [= <- <-]; split_and!; [done..|by intros ? [= <-]]].
  intros [= <- <-]. split_and!; [|done|by intros ? [= <-]].
  intros h' [= <-]. split_and!; [done..|]. intros. simpl. by rewrite lookup_delete_eq.
Qed.

(** Revoking an installation.  [RevokeInstallation] succeeds exactly
    when the secret opens every artifact of the installation; then precisely
    its sessions, pending authorizations and handoffs are gone, the sessions
    are counted, and of the credentials precisely those still in use by a
    session or handoff remain. *)
Theorem revoke_installation_exact (rt : GoRuntime) (s s' : t) inst secret n err :
  RevokeInstallation s inst secret = (s', (n, err)) →
  (err = None ↔ device_owns s inst secret) ∧
  (err = None →
     (∀ k x, Sessions s' !! k = Some x ↔ Sessions s !! k = Some x ∧ S.InstallationID x ≠ inst) ∧
     (∀ k p, Pending s' !! k = Some p ↔ Pending s !! k = Some p ∧ P.InstallationID p ≠ inst) ∧
     (∀ k h, Handoffs s' !! k = Some h ↔ Handoffs s !! k = Some h ∧ H.InstallationID h ≠ inst) ∧
     (∀ id c, Credentials s' !! id = Some c ↔
        Credentials s !! id = Some c ∧ credentialInUseLocked s' id = true) ∧
     n = mlen (Sessions s) - mlen (Sessions s')).
Proof.
  intros [(Hown & -> & -> & ->)|(Hno & -> & _)]%RevokeInstallation_cases; [|by split].
  split; [done|]. intros _. unfold without_installation. simpl. split_and!; try done; intros *.
  1-3: by rewrite range_delete_Some, bool_decide_eq_false.
  by rewrite range_delete_Some, negb_false_iff.
Qed.

(** Revoking an account.  For a non-blank user [RevokeAccount] always
    succeeds; afterwards exactly the sessions of the user's credentials are
    gone (and counted), no credential of the user is left and the others
    only while in use, no handoff of the user or of an installation that was
    signed in or named by the caller is left, and no pending authorization
    of such an installation or of one that lost a handoff. *)
Theorem revoke_account_exact (rt : GoRuntime) (s : t) userID extra :
  TrimSpace userID ≠ "" →
  ∃ s' n c, RevokeAccount s userID extra = (s', Ok (n, c)) ∧
    n = mlen (Sessions s) - mlen (Sessions s') ∧
    account_revoked s (TrimSpace userID) extra s'.
Proof. apply RevokeAccount_spec. Qed.

End Theorems.

(** ** Concrete runs *)

Definition example_credential : C.t :=
  C.mk "cred" "client" "42" "alice" ["chat:read"] "access-token" "refresh-token" 100 200 300.

Definition run (s : t) (o : op) : t :=
  exec (sha:=toy_sha256) (Some toy_aead) (rt:=reference_runtime) s o.

Definition with_credential : t := run empty (OpPutCredential (λ _, zero_rand) example_credential).

Definition with_session : t :=
  run with_credential (OpCreateSession zero_rand 1000 "cred" "phone" "secret" Hour).

Definition example_token : string :=
  match randomToken zero_rand "fsv1_" 32 with Ok token => token | Err _ => "" end.

Definition pending_of (device : string) : P.t :=
  P.mk "phone" (hashSecret (sha:=toy_sha256) device) "app://callback" 1000 (2 * Hour).

Definition example_handoff : H.t :=
  H.mk "cred" "phone" (hashSecret (sha:=toy_sha256) "secret") "app://callback"
    (hashSecret (sha:=toy_sha256) "state") 1000 (2 * Hour).

(** The session of one device beside a pending authorization that another
    device started for the same installation. *)
Definition with_foreign_pending : t := run with_session (OpPutPending 2000 "state" (pending_of "other")).

Lemma run_step s o : random_ok o → step (sha:=toy_sha256) (Some toy_aead) s (run s o).
Proof. apply (step_exec (sha:=toy_sha256) (Some toy_aead) s reference_runtime o). Qed.

Lemma with_session_reachable : rtc (step (sha:=toy_sha256) (Some toy_aead)) empty with_session.
Proof.
  eapply rtc_l; [apply (run_step empty (OpPutCredential (λ _, zero_rand) example_credential));
    intros i; apply zero_rand_ok|].
  apply rtc_once. by apply run_step.
Qed.

Lemma auth_store_invariant_witness :
  mlen (Sessions with_session) = 1 ∧
  ∀ id e, GetCredential (Some toy_aead) with_session id = Err e → e = ErrAuthNotFound.
Proof.
  split; [by vm_compute|].
  apply (auth_store_invariant (sha:=toy_sha256) (Some toy_aead) with_session with_session_reachable).
Defined.

Lemma credential_round_trip_witness :
  GetCredential (Some toy_aead) with_credential "cred" = Ok example_credential.
Proof.
  apply (credential_round_trip (Some toy_aead) empty with_credential (λ _, zero_rand) example_credential).
  - intros i. apply zero_rand_ok.
  - vm_compute. reflexivity.
Defined.

Lemma session_belongs_to_device_witness :
  ResolveSession (rt:=reference_runtime) (sha:=toy_sha256) 2000 with_session example_token "phone"
    "guess" Hour = (with_session, Err ErrAuthDeviceMismatch).
Proof.
  apply (session_belongs_to_device (sha:=toy_sha256) reference_runtime with_credential
    with_session zero_rand 1000 "cred" "phone" "secret" Hour example_token (1000 + Hour)).
  - vm_compute. discriminate.
  - vm_compute. reflexivity.
  - vm_compute. discriminate.
  - vm_compute. discriminate.
Defined.

Lemma session_not_hijacked_witness :
  ∃ e, CreateSession (rt:=reference_runtime) (sha:=toy_sha256) zero_rand 2000 with_session "cred"
    "phone" "guess" Hour = (with_session, Err e) ∧ (e = ErrAuthNotFound ∨ e = ErrAuthDeviceMismatch).
Proof.
  apply (session_not_hijacked (sha:=toy_sha256) reference_runtime with_session zero_rand 2000 "cred"
    "guess" Hour (hashSecret (sha:=toy_sha256) example_token)
    (S.mk "cred" "phone" (hashSecret (sha:=toy_sha256) "secret") 1000 (1000 + Hour))).
  - vm_compute. reflexivity.
  - vm_compute. discriminate.
  - vm_compute. discriminate.
Defined.

Lemma pending_consumed_once_witness :
  ∃ s', ConsumePending (sha:=toy_sha256) 3000 with_foreign_pending "state" =
      (s', Ok (pending_of "other")) ∧
    ConsumePending (sha:=toy_sha256) 4000 s' "state" = (s', Err ErrAuthNotFound).
Proof.
  eexists. split; [vm_compute; reflexivity|].
  eapply (pending_consumed_once (sha:=toy_sha256) with_foreign_pending _ 3000 "state").
  vm_compute. reflexivity.
Defined.

Definition with_handoff : t := run with_credential (OpPutHandoff (λ _, 1000) "code" example_handoff).

Lemma handoff_consumed_once_witness :
  ∃ s', ConsumeHandoff (sha:=toy_sha256) 3000 with_handoff "code" "phone" "secret" "state" =
      (s', Ok example_handoff) ∧
    ConsumeHandoff (sha:=toy_sha256) 4000 s' "code" "phone" "secret" "state" =
      (s', Err ErrAuthNotFound).
Proof.
  eexists. split; [vm_compute; reflexivity|].
  eapply (handoff_consumed_once (sha:=toy_sha256) with_handoff _ 3000 "code" "phone" "secret" "state");
    [vm_compute; reflexivity|reflexivity].
Defined.

Lemma revoke_installation_exact_witness :
  ∃ s' n, RevokeInstallation (rt:=reference_runtime) (sha:=toy_sha256) with_session "phone" "secret" =
      (s', (n, None)) ∧ n = 1 ∧
    ∀ k x, Sessions s' !! k = Some x → S.InstallationID x ≠ "phone".
Proof.
  eexists _, _. split; [vm_compute; reflexivity|]. split; [reflexivity|]. intros k x Hk.
  refine (proj2 (proj1 (proj1 (proj2 (revoke_installation_exact (sha:=toy_sha256) reference_runtime
    with_session _ "phone" "secret" _ None _) eq_refl) k x) Hk)).
  vm_compute. reflexivity.
Defined.

Lemma revoke_account_exact_witness :
  ∃ s' n c, RevokeAccount (rt:=reference_runtime) with_session " 42 " [] = (s', Ok (n, c)) ∧
    ∀ k x, Sessions s' !! k = Some x → ¬ owned with_session "42" (S.CredentialID x).
Proof.
  destruct (revoke_account_exact reference_runtime with_session " 42 " [])
    as (s' & n & c & Hr & _ & Hs & _).
  - vm_compute. discriminate.
  - exists s', n, c. split; [exact Hr|]. intros k x Hk. exact (proj2 (proj1 (Hs k x) Hk)).
Defined.

(** A refused revocation may already have deleted sessions.  In the
    reachable state where another device has a pending authorization for the
    installation, [RevokeInstallation] with the session's own secret fails
    with a device mismatch and reports no removed session, but the session
    is gone. *)
Theorem refused_revocation_deletes_session :
  rtc (step (sha:=toy_sha256) (Some toy_aead)) empty with_foreign_pending ∧
  mlen (Sessions with_foreign_pending) = 1 ∧
  RevokeInstallation (rt:=reference_runtime) (sha:=toy_sha256) with_foreign_pending "phone" "secret" =
    (with_foreign_pending <| Sessions := ∅ |>, (0, Some ErrAuthDeviceMismatch)).
Proof.
  split; [eapply rtc_r; [exact with_session_reachable|]; by apply run_step|].
  split; [vm_compute; reflexivity|]. vm_compute. reflexivity.
Qed.

End AuthTheorems.
