(* ===== verification/PgAuth.v ===== *)
(** * The authentication store of production:
    [internal/storage/postgres/postgres_auth.go], [postgres_auth_user.go]

    The tables [auth_credentials], [auth_sessions], [auth_pending] and
    [auth_handoffs] with their unique indexes and the foreign keys that
    cascade, and the operations as the statements and transactions they
    send.  The order in which rows without [ORDER BY] arrive, and of rows
    that compare equal, is the database's: the class [GoRuntime] stands for
    it. *)

From S2P Require Import Prelude GoStrings GoUnicode Credentials Domain AuthStore Postgres.
Import Postgres.

Module PgAuth.
Module C := AuthCredential.
Module CR := AuthCredentialRecord.
Module S := AuthSessionRecord.
Module P := PendingAuthRecord.
Module H := AuthHandoffRecord.

(** The tables by primary key: identifier, token hash, state hash, code
    hash. *)
Record db := mkDb {
  credentials : gmap string CR.t;
  sessions : gmap string S.t;
  pending : gmap string P.t;
  handoffs : gmap string H.t
}.
#[global] Instance eta_db : Eta db := λ d, mkDb (credentials d) (sessions d) (pending d) (handoffs d).

Definition emptyDb : db := mkDb ∅ ∅ ∅ ∅.

Section Store.
Context {rt : GoRuntime} {collation : Collation} {sha : Sha256} (aead : option AEAD).

Definition duplicateKey : error := ErrMsg "duplicate key value violates unique constraint".
Definition foreignKey : error := ErrMsg "insert or update violates foreign key constraint".

(** Whether a row of the table satisfies a condition ([EXISTS]). *)
Definition existsRow {V} (p : V → bool) (m : gmap string V) : bool := existsb (λ kv, p kv.2) (map_to_list m).

(** ** Statements *)

Definition deletePending (p : P.t → bool) (d : db) : result (db * ()) :=
  Ok (d <| pending := (deleteWhere (λ _, p) (pending d)).1 |>, ()).
Definition deleteHandoffs (p : H.t → bool) (d : db) : result (db * ()) :=
  Ok (d <| handoffs := (deleteWhere (λ _, p) (handoffs d)).1 |>, ()).
(** With the number of rows deleted. *)
Definition deleteSessions (p : S.t → bool) (d : db) : result (db * Z) :=
  let '(m, n) := deleteWhere (λ _, p) (sessions d) in Ok (d <| sessions := m |>, n).

(** [DELETE FROM auth_credentials], with what the foreign keys delete. *)
Definition deleteCredentials (p : CR.t → bool) (d : db) : result (db * Z) :=
  let '(m, n) := deleteWhere (λ _, p) (credentials d) in
  let gone := λ id, match credentials d !! id with Some r => p r | None => false end in
  Ok (d <| credentials := m |>
        <| sessions := (deleteWhere (λ _ s, gone (S.CredentialID s)) (sessions d)).1 |>
        <| handoffs := (deleteWhere (λ _ h, gone (H.CredentialID h)) (handoffs d)).1 |>, n).

Definition insertPending (key : string) (record : P.t) (d : db) : result (db * ()) :=
  let record := record <| P.CreatedAt := timestamptz (P.CreatedAt record) |>
                       <| P.ExpiresAt := timestamptz (P.ExpiresAt record) |> in
  match pending d !! key with
  | Some _ => Err duplicateKey
  | None =>
      if existsRow (λ p, (P.InstallationID p == P.InstallationID record) && (P.DeviceHash p == P.DeviceHash record)) (pending d)
      then Err duplicateKey else
      Ok (d <| pending := <[key := record]> (pending d) |>, ())
  end.

Definition insertHandoff (key : string) (record : H.t) (d : db) : result (db * ()) :=
  let record := record <| H.CreatedAt := timestamptz (H.CreatedAt record) |>
                       <| H.ExpiresAt := timestamptz (H.ExpiresAt record) |> in
  match handoffs d !! key with
  | Some _ => Err duplicateKey
  | None =>
      if existsRow (λ h, (H.InstallationID h == H.InstallationID record) && (H.DeviceHash h == H.DeviceHash record)) (handoffs d)
      then Err duplicateKey else
      match credentials d !! H.CredentialID record with
      | None => Err foreignKey
      | Some _ => Ok (d <| handoffs := <[key := record]> (handoffs d) |>, ())
      end
  end.

Definition insertSession (key : string) (record : S.t) (d : db) : result (db * ()) :=
  let record := record <| S.CreatedAt := timestamptz (S.CreatedAt record) |>
                       <| S.ExpiresAt := timestamptz (S.ExpiresAt record) |> in
  match sessions d !! key with
  | Some _ => Err duplicateKey
  | None =>
      if existsRow (λ s, S.InstallationID s == S.InstallationID record) (sessions d) then Err duplicateKey else
      match credentials d !! S.CredentialID record with
      | None => Err foreignKey
      | Some _ => Ok (d <| sessions := <[key := record]> (sessions d) |>, ())
      end
  end.

(** [INSERT ... ON CONFLICT (id) DO UPDATE SET ...]. *)
Definition upsertCredential (record : CR.t) (d : db) : result (db * ()) :=
  let record := record <| CR.AccessExpiresAt := timestamptz (CR.AccessExpiresAt record) |>
                       <| CR.LastValidatedAt := timestamptz (CR.LastValidatedAt record) |>
                       <| CR.UpdatedAt := timestamptz (CR.UpdatedAt record) |> in
  Ok (d <| credentials := <[CR.ID record := record]> (credentials d) |>, ()).

Definition inUse (d : db) (id : string) : bool :=
  existsRow (λ s, S.CredentialID s == id) (sessions d) || existsRow (λ h, H.CredentialID h == id) (handoffs d).

Definition orphans (d : db) : result (db * Z) := deleteCredentials (λ c, negb (inUse d (CR.ID c))) d.
Definition unused (credentialID : string) (d : db) : result (db * Z) :=
  deleteCredentials (λ c, (CR.ID c == credentialID) && negb (inUse d (CR.ID c))) d.

Context (L : Link db).
Abbreviation conn := (session db).

(** Reading. *)
Definition query {A} (params : list string) (f : db → A) : M conn A := onPool L params (λ d, Ok (d, f d)).
Definition queryTx {A} (params : list string) (f : db → A) : M (tx db) A := onTx L params (λ d, Ok (d, f d)).

(** ** Pending authorizations *)

Definition PutPending (now : time) (state : string) (record : P.t) : M conn () :=
  transaction L "begin pending auth transaction" (
    let! _ := database "clean expired pending auth"
      (onTx L [] (deletePending (λ p, P.ExpiresAt p <? timestamptz now))) in
    let! _ := database "replace pending auth"
      (onTx L [P.InstallationID record; P.DeviceHash record]
         (deletePending (λ p, (P.InstallationID p == P.InstallationID record) && (P.DeviceHash p == P.DeviceHash record)))) in
    let! count := database "count pending auth" (queryTx [] (λ d, mlen (pending d))) in
    if MaxPendingAuthRecords <=? count then fail ErrAuthCapacity else
    let! _ := database "insert pending auth"
      (onTx L [HashSecret state; P.InstallationID record; P.DeviceHash record; P.AppCallbackURI record]
         (insertPending (HashSecret state) record)) in
    commitDatabaseTx L "pending auth").

Definition GetPending (now : time) (state : string) : M conn P.t :=
  let! found := database "get pending auth" (query [HashSecret state] (λ d, pending d !! HashSecret state)) in
  match found with
  | None => fail ErrAuthNotFound
  | Some record => if After now (P.ExpiresAt record) then fail ErrAuthExpired else ret record
  end.

(** [DELETE ... RETURNING]. *)
Definition takePending (key : string) (d : db) : result (db * option P.t) :=
  Ok (d <| pending := delete key (pending d) |>, pending d !! key).

Definition ConsumePending (now : time) (state : string) : M conn P.t :=
  let! found := database "consume pending auth" (onPool L [HashSecret state] (takePending (HashSecret state))) in
  match found with
  | None => fail ErrAuthNotFound
  | Some record => if After now (P.ExpiresAt record) then fail ErrAuthExpired else ret record
  end.

(** ** Handoffs and credentials *)

Definition putHandoffTx (now : time) (code : string) (record : H.t) : M (tx db) () :=
  let! _ := database "clean expired auth handoffs"
    (onTx L [] (deleteHandoffs (λ h, H.ExpiresAt h <? timestamptz now))) in
  let! _ := database "replace auth handoff"
    (onTx L [H.InstallationID record; H.DeviceHash record]
       (deleteHandoffs (λ h, (H.InstallationID h == H.InstallationID record) && (H.DeviceHash h == H.DeviceHash record)))) in
  let! count := database "count auth handoffs" (queryTx [] (λ d, mlen (handoffs d))) in
  if MaxAuthHandoffs <=? count then fail ErrAuthCapacity else
  database "insert auth handoff"
    (onTx L [HashSecret code; H.CredentialID record; H.InstallationID record; H.DeviceHash record;
             H.AppCallbackURI record; H.StateHash record] (insertHandoff (HashSecret code) record)).

Definition PutHandoff (now : time) (code : string) (record : H.t) : M conn () :=
  transaction L "begin auth handoff transaction" (
    let! _ := putHandoffTx now code record in
    commitDatabaseTx L "auth handoff").

Definition deleteHandoffTx (key : string) : M (tx db) () :=
  onTx L [key] (λ d, Ok (d <| handoffs := delete key (handoffs d) |>, ())).

(** [_, _ = tx.Exec(...)]: the answer is dropped. *)
Definition ignore {S A} (m : M S A) : M S () := λ s, ((m s).1, Ok ()).

Definition ConsumeHandoff (now : time) (code installationID deviceSecret state : string) : M conn H.t :=
  transaction L "begin consume handoff transaction" (
    let key := HashSecret code in
    let! found := database "load auth handoff" (queryTx [key] (λ d, handoffs d !! key)) in
    match found with
    | None => fail ErrAuthNotFound
    | Some record =>
        if After now (H.ExpiresAt record) then
          let! _ := ignore (deleteHandoffTx key) in
          let! _ := database "commit expired handoff delete" (Commit L) in
          fail ErrAuthExpired
        else
        if (H.InstallationID record != installationID) || negb (EqualHash (H.DeviceHash record) (HashSecret deviceSecret))
        then fail ErrAuthDeviceMismatch else
        if negb (EqualHash (H.StateHash record) (HashSecret state)) then fail ErrAuthStateMismatch else
        let! _ := database "delete consumed handoff" (deleteHandoffTx key) in
        let! _ := database "commit consumed handoff" (Commit L) in
        ret record
    end).

Definition credentialTexts (r : CR.t) : list string :=
  [CR.ID r; CR.ClientID r; CR.UserID r; CR.Login r; Nonce (CR.AccessToken r); Ciphertext (CR.AccessToken r);
   Nonce (CR.RefreshToken r); Ciphertext (CR.RefreshToken r)] ++ CR.Scopes r.

(** Over the pool or inside a transaction: [exec] is the [databaseExecutor]. *)
Definition putCredential {S} (exec : list string → (db → result (db * ())) → M S ())
    (rnd : nat → rand_read) (credential : C.t) : M S () :=
  let! access := lift (Seal aead (rnd 0%nat) (C.ID credential +:+ ":access") (C.AccessToken credential)) in
  let! refresh := lift (Seal aead (rnd 1%nat) (C.ID credential +:+ ":refresh") (C.RefreshToken credential)) in
  let record := CR.mk (C.ID credential) (C.ClientID credential) (C.UserID credential) (C.Login credential)
    (C.Scopes credential) access refresh (C.AccessExpiresAt credential) (C.LastValidatedAt credential)
    (C.UpdatedAt credential) in
  database "upsert auth credential" (exec (credentialTexts record) (upsertCredential record)).

Definition PutCredential (rnd : nat → rand_read) (credential : C.t) : M conn () :=
  putCredential (onPool L) rnd credential.

Definition PutCredentialAndHandoff (rnd : nat → rand_read) (now : time) (credential : C.t) (code : string) (record : H.t)
    : M conn () :=
  if (C.ID credential == "") || (H.CredentialID record != C.ID credential)
  then fail (ErrMsg "credential and handoff do not match") else
  transaction L "begin credential and handoff transaction" (
    let! _ := putCredential (onTx L) rnd credential in
    let! _ := putHandoffTx now code record in
    commitDatabaseTx L "credential and handoff").

(** A row with its tokens opened; no row is [ErrAuthNotFound]. *)
Definition scanCredential (found : option CR.t) : result C.t :=
  match found with
  | None => Err ErrAuthNotFound
  | Some record =>
      let? access := Open aead (CR.ID record +:+ ":access") (CR.AccessToken record) in
      let? refresh := Open aead (CR.ID record +:+ ":refresh") (CR.RefreshToken record) in
      Ok (C.mk (CR.ID record) (CR.ClientID record) (CR.UserID record) (CR.Login record) (CR.Scopes record)
            access refresh (CR.AccessExpiresAt record) (CR.LastValidatedAt record) (CR.UpdatedAt record))
  end.

Definition GetCredential (id : string) : M conn C.t :=
  let! found := database "scan auth credential" (query [id] (λ d, credentials d !! id)) in
  lift (scanCredential found).

(** The sessions joined with their credentials. *)
Definition joined (d : db) : list (S.t * CR.t) :=
  omap (λ kv, (λ c, (kv.2, c)) <$> credentials d !! S.CredentialID kv.2) (rangeMap (sessions d)).

Definition CredentialForInstallation (now : time) (installationID deviceSecret : string) : M conn C.t :=
  let! found := database "scan auth credential" (query [installationID; HashSecret deviceSecret] (λ d,
    head (sortSlice (λ x y : S.t * CR.t, S.ExpiresAt y.1 <? S.ExpiresAt x.1)
      (List.filter (λ x, (S.InstallationID x.1 == installationID) &&
                         (S.DeviceHash x.1 == HashSecret deviceSecret) &&
                         (timestamptz now <? S.ExpiresAt x.1)) (joined d))))) in
  lift (scanCredential (snd <$> found)).

(** [fmtDatabase] around an error of [scanCredential]: a wrapped sentinel is
    still recognized by [errors.Is], so it is kept. *)
Definition wrapped {A} (operation : string) (r : result A) : result A :=
  match r with
  | Err (ErrMsg m) => Err (fmtDatabase operation (Some (ErrMsg m)))
  | r => r
  end.

Definition CredentialForUser (now : time) (userID : string) : M conn C.t :=
  let userID := TrimSpace userID in
  if userID == "" then fail ErrAuthNotFound else
  let! found := λ s,
    let '(s, r) := database "scan auth credential" (query [userID] (λ d,
      head (sortSlice (λ x y : S.t * CR.t,
              (CR.UpdatedAt y.2 <? CR.UpdatedAt x.2) ||
              ((CR.UpdatedAt x.2 =? CR.UpdatedAt y.2) && (S.ExpiresAt y.1 <? S.ExpiresAt x.1)))
        (List.filter (λ x, (CR.UserID x.2 == userID) && (timestamptz now <? S.ExpiresAt x.1)) (joined d))))) s in
    (s, wrapped "get credential for user" r) in
  lift (wrapped "get credential for user" (scanCredential (snd <$> found))).

Definition deleteCredentialIfUnusedTx {S} (exec : list string → (db → result (db * Z)) → M S Z) (credentialID : string)
    : M S () :=
  let! _ := database "delete unused auth credential" (exec [credentialID] (unused credentialID)) in ret ().

Definition DeleteCredentialIfUnused (credentialID : string) : M conn () :=
  deleteCredentialIfUnusedTx (onPool L) credentialID.

Definition deleteOrphanCredentials : M (tx db) () :=
  let! _ := database "delete orphan auth credentials" (onTx L [] orphans) in ret ().

(** ** Sessions *)

Definition CreateSession (rnd : rand_read) (now : time) (credentialID installationID deviceSecret : string) (ttl : duration)
    : M conn (string * time) :=
  transaction L "begin create auth session" (
    let! exists_ := database "check auth credential"
      (queryTx [credentialID] (λ d, bool_decide (is_Some (credentials d !! credentialID)))) in
    if negb exists_ then fail ErrAuthNotFound else
    let expectedDeviceHash := HashSecret deviceSecret in
    let! _ := database "clean expired auth sessions" (onTx L [] (deleteSessions (λ s, S.ExpiresAt s <? timestamptz now))) in
    let! existing := database "load existing installation session"
      (queryTx [installationID] (λ d,
         head (List.filter (λ s, S.InstallationID s == installationID) (rangeMap (sessions d)).*2))) in
    if match existing with
       | Some s => negb (EqualHash (S.DeviceHash s) expectedDeviceHash)
       | None => false
       end then fail ErrAuthDeviceMismatch else
    let! _ := database "replace installation auth session"
      (onTx L [installationID; expectedDeviceHash]
         (deleteSessions (λ s, (S.InstallationID s == installationID) && (S.DeviceHash s == expectedDeviceHash)))) in
    let! count := database "count auth sessions" (queryTx [] (λ d, mlen (sessions d))) in
    if MaxAuthSessions <=? count then fail ErrAuthCapacity else
    let! token := lift (RandomToken rnd "fsv1_" 32) in
    let expiresAt := Add now ttl in
    let! _ := database "insert auth session"
      (onTx L [HashSecret token; credentialID; installationID; expectedDeviceHash]
         (insertSession (HashSecret token) (S.mk credentialID installationID expectedDeviceHash now expiresAt))) in
    let! _ := deleteOrphanCredentials in
    let! _ := database "commit auth session" (Commit L) in
    ret (token, expiresAt)).

Definition ResolveSession (now : time) (token installationID deviceSecret : string) (renewTTL : duration) : M conn S.t :=
  transaction L "begin resolve auth session" (
    let tokenHash := HashSecret token in
    let! found := database "load auth session" (queryTx [tokenHash] (λ d, sessions d !! tokenHash)) in
    match found with
    | None => fail ErrAuthNotFound
    | Some record =>
        if After now (S.ExpiresAt record) then
          let! _ := database "delete expired auth session"
            (onTx L [tokenHash] (λ d, Ok (d <| sessions := delete tokenHash (sessions d) |>, ()))) in
          let! _ := deleteCredentialIfUnusedTx (onTx L) (S.CredentialID record) in
          let! _ := database "commit expired auth session" (Commit L) in
          fail ErrAuthExpired
        else
        if (S.InstallationID record != installationID) || negb (EqualHash (S.DeviceHash record) (HashSecret deviceSecret))
        then fail ErrAuthDeviceMismatch else
        let! record :=
          if (0 <? renewTTL) && Before (S.ExpiresAt record) (Add now (Z.quot renewTTL 2)) then
            let record := record <| S.ExpiresAt := Add now renewTTL |> in
            let! _ := database "renew auth session" (onTx L [tokenHash] (λ d,
              Ok (d <| sessions := alter (λ s, s <| S.ExpiresAt := timestamptz (S.ExpiresAt record) |>) tokenHash
                                     (sessions d) |>, ()))) in
            ret record
          else ret record in
        let! _ := database "commit resolved auth session" (Commit L) in
        ret record
    end).

Definition SessionAccount (now : time) (token installationID deviceSecret : string) : M conn (string * bool) :=
  let! found := database "resolve session account" (query [HashSecret token] (λ d,
    s ← sessions d !! HashSecret token; c ← credentials d !! S.CredentialID s; Some (s, CR.UserID c))) in
  match found with
  | None => fail ErrAuthNotFound
  | Some (record, userID) =>
      if (S.InstallationID record != installationID) || negb (EqualHash (S.DeviceHash record) (HashSecret deviceSecret))
      then fail ErrAuthDeviceMismatch else
      if TrimSpace userID == "" then fail ErrAuthNotFound else
      ret (userID, After now (S.ExpiresAt record))
  end.

Definition DeleteSession (token installationID deviceSecret : string) : M conn () :=
  transaction L "begin delete auth session" (
    let tokenHash := HashSecret token in
    let! found := database "load auth session for delete" (queryTx [tokenHash] (λ d, sessions d !! tokenHash)) in
    match found with
    | None => fail ErrAuthNotFound
    | Some record =>
        if (S.InstallationID record != installationID) || negb (EqualHash (S.DeviceHash record) (HashSecret deviceSecret))
        then fail ErrAuthDeviceMismatch else
        let! _ := database "delete auth session"
          (onTx L [tokenHash] (λ d, Ok (d <| sessions := delete tokenHash (sessions d) |>, ()))) in
        let! _ := deleteCredentialIfUnusedTx (onTx L) (S.CredentialID record) in
        commitDatabaseTx L "delete auth session"
    end).

(** ** Installations *)

(** The device hashes of an installation, from the three tables. *)
Definition artifacts (installationID : string) (d : db) : list string :=
  (S.DeviceHash <$> List.filter (λ s, S.InstallationID s == installationID) (rangeMap (sessions d)).*2) ++
  (P.DeviceHash <$> List.filter (λ p, P.InstallationID p == installationID) (rangeMap (pending d)).*2) ++
  (H.DeviceHash <$> List.filter (λ h, H.InstallationID h == installationID) (rangeMap (handoffs d)).*2).

Definition InstallationBinding (installationID deviceSecret : string) : M conn bool :=
  let! hashes := database "load installation auth binding" (query [installationID] (artifacts installationID)) in
  if existsb (λ h, EqualHash h (HashSecret deviceSecret)) hashes then ret true else
  match hashes with
  | [] => fail ErrAuthNotFound
  | _ => fail ErrAuthDeviceMismatch
  end.

Definition RevokeInstallation (installationID deviceSecret : string) : M conn Z :=
  transaction L "begin revoke installation" (
    let! hashes := database "lock installation auth artifacts" (queryTx [installationID] (artifacts installationID)) in
    if existsb (λ h, negb (EqualHash h (HashSecret deviceSecret))) hashes then fail ErrAuthDeviceMismatch else
    match hashes with
    | [] => ret 0
    | _ =>
        let! removedSessions := database "delete installation auth sessions"
          (onTx L [installationID] (deleteSessions (λ s, S.InstallationID s == installationID))) in
        let! _ := database "delete installation pending auth"
          (onTx L [installationID] (deletePending (λ p, P.InstallationID p == installationID))) in
        let! _ := database "delete installation auth handoffs"
          (onTx L [installationID] (deleteHandoffs (λ h, H.InstallationID h == installationID))) in
        let! _ := deleteOrphanCredentials in
        let! _ := database "commit installation revocation" (Commit L) in
        ret removedSessions
    end).

(** ** Accounts *)

Fixpoint scanCredentials (rows : list CR.t) : result (list C.t) :=
  match rows with
  | [] => Ok []
  | r :: rows => let? c := scanCredential (Some r) in let? l := scanCredentials rows in Ok (c :: l)
  end.

(** [SELECT DISTINCT installation_id FROM auth_sessions WHERE credential_id =
    ANY($1)]. *)
Definition accountInstallations (credentialIDs : list string) (d : db) : list string :=
  remove_dups (S.InstallationID <$>
    List.filter (λ s, bool_decide (S.CredentialID s ∈ credentialIDs)) (rangeMap (sessions d)).*2).

Definition AccountRevocationTargets (userID : string) : M conn (list string * list C.t) :=
  let userID := TrimSpace userID in
  if userID == "" then fail ErrAuthNotFound else
  let! rows := database "load account credentials" (query [userID] (λ d,
    stable_sort (λ x y, text_lt (CR.ID x) (CR.ID y))
      (List.filter (λ c, CR.UserID c == userID) (map_to_list (credentials d)).*2))) in
  let! credentials := lift (scanCredentials rows) in
  let credentialIDs := C.ID <$> credentials in
  if 0 <? Z.of_nat (length credentialIDs) then
    let! installations := database "load account installations" (query credentialIDs (λ d,
      stable_sort text_lt (accountInstallations credentialIDs d))) in
    ret (installations, credentials)
  else ret ([], credentials).

Definition RevokeAccount (userID : string) (extraInstallationIDs : list string) : M conn (Z * Z) :=
  let userID := TrimSpace userID in
  if userID == "" then fail ErrAuthNotFound else
  transaction L "begin account revocation" (
    let! credentialIDs := database "lock account credentials" (queryTx [userID] (λ d,
      CR.ID <$> List.filter (λ c, CR.UserID c == userID) (rangeMap (credentials d)).*2)) in
    let some := 0 <? Z.of_nat (length credentialIDs) in
    let installations := compactStrings extraInstallationIDs in
    let! installations :=
      if (some : bool) then
        let! found := database "load account session installations"
          (queryTx credentialIDs (accountInstallations credentialIDs)) in
        ret (installations ++ found)
      else ret installations in
    let installations := compactStrings installations in
    let! removedSessions :=
      if some then database "delete account sessions"
        (onTx L credentialIDs (deleteSessions (λ s, bool_decide (S.CredentialID s ∈ credentialIDs))))
      else ret 0 in
    let! _ :=
      if some || (0 <? Z.of_nat (length installations)) then database "delete account handoffs"
        (onTx L (credentialIDs ++ installations) (deleteHandoffs (λ h,
           bool_decide (H.CredentialID h ∈ credentialIDs) || bool_decide (H.InstallationID h ∈ installations))))
      else ret () in
    let! _ :=
      if 0 <? Z.of_nat (length installations) then database "delete account pending auth"
        (onTx L installations (deletePending (λ p, bool_decide (P.InstallationID p ∈ installations))))
      else ret () in
    let! removedCredentials := database "delete account credentials"
      (onTx L [userID] (deleteCredentials (λ c, CR.UserID c == userID))) in
    let! _ := deleteOrphanCredentials in
    let! _ := database "commit account revocation" (Commit L) in
    ret (removedSessions, removedCredentials)).
End Store.
End PgAuth.
