(* ===== verification/PgAuthProofs.v ===== *)
(** * The Postgres authentication store: theorems

    The invariant of the tables under every sequence of operations of
    several servers, single use of handoff codes, no takeover of a session,
    and what a revocation leaves. *)

From S2P Require Import Prelude GoStrings GoUnicode Credentials Domain AuthStore AuthProofs Postgres PgAuth.
Import Postgres.

Module PgAuthProofs.
Import PgAuth.

Section Proofs.
Context {rt : GoRuntime} {collation : Collation} {sha : Sha256} (aead : option AEAD).
Implicit Types (d : db).

(** ** Executions *)

Inductive op :=
| OpPutPending (now : time) (state : string) (record : P.t)
| OpConsumePending (now : time) (state : string)
| OpPutHandoff (now : time) (code : string) (record : H.t)
| OpConsumeHandoff (now : time) (code installationID deviceSecret state : string)
| OpPutCredential (rnd : nat → rand_read) (credential : C.t)
| OpPutCredentialAndHandoff (rnd : nat → rand_read) (now : time) (credential : C.t) (code : string) (record : H.t)
| OpDeleteCredentialIfUnused (credentialID : string)
| OpCreateSession (rnd : rand_read) (now : time) (credentialID installationID deviceSecret : string) (ttl : duration)
| OpResolveSession (now : time) (token installationID deviceSecret : string) (renewTTL : duration)
| OpDeleteSession (token installationID deviceSecret : string)
| OpRevokeInstallation (installationID deviceSecret : string)
| OpRevokeAccount (userID : string) (extraInstallationIDs : list string).

Definition exec (L : Link db) (s : session db) (o : op) : session db :=
  match o with
  | OpPutPending now state record => (PutPending L now state record s).1
  | OpConsumePending now state => (ConsumePending L now state s).1
  | OpPutHandoff now code record => (PutHandoff L now code record s).1
  | OpConsumeHandoff now code installationID deviceSecret state =>
      (ConsumeHandoff L now code installationID deviceSecret state s).1
  | OpPutCredential rnd credential => (PutCredential aead L rnd credential s).1
  | OpPutCredentialAndHandoff rnd now credential code record =>
      (PutCredentialAndHandoff aead L rnd now credential code record s).1
  | OpDeleteCredentialIfUnused credentialID => (DeleteCredentialIfUnused L credentialID s).1
  | OpCreateSession rnd now credentialID installationID deviceSecret ttl =>
      (CreateSession L rnd now credentialID installationID deviceSecret ttl s).1
  | OpResolveSession now token installationID deviceSecret renewTTL =>
      (ResolveSession L now token installationID deviceSecret renewTTL s).1
  | OpDeleteSession token installationID deviceSecret => (DeleteSession L token installationID deviceSecret s).1
  | OpRevokeInstallation installationID deviceSecret => (RevokeInstallation L installationID deviceSecret s).1
  | OpRevokeAccount userID extraInstallationIDs => (RevokeAccount L userID extraInstallationIDs s).1
  end.

(** ** The invariant *)

Definition samePlace {V} (installation device : V → string) (x y : V) : Prop :=
  installation x = installation y ∧ device x = device y.

Record wf d : Prop := {
  wf_keyed : map_Forall (λ id c, CR.ID c = id) (credentials d);
  wf_sessions : map_Forall (λ _ s, is_Some (credentials d !! S.CredentialID s)) (sessions d);
  wf_handoffs : map_Forall (λ _ h, is_Some (credentials d !! H.CredentialID h)) (handoffs d);
  wf_one_session : AuthProofs.unique (λ x y, S.InstallationID x = S.InstallationID y) (sessions d);
  wf_one_pending : AuthProofs.unique (samePlace P.InstallationID P.DeviceHash) (pending d);
  wf_one_handoff : AuthProofs.unique (samePlace H.InstallationID H.DeviceHash) (handoffs d)
}.

Lemma deleteWhere_sub {V} (p : string → V → bool) m : (deleteWhere p m).1 ⊆ m.
Proof.
  apply map_subseteq_spec. intros k v. rewrite deleteWhere_lookup. destruct (m !! k) as [v'|]; [|done]. cbn.
  destruct (p k v'); [done|]. by intros [= ->].
Qed.

Lemma existsRow_false {V} (p : V → bool) (m : gmap string V) k v : existsRow p m = false → m !! k = Some v → p v = false.
Proof.
  intros Hno Hk. apply not_true_iff_false. intros Hp. apply not_true_iff_false in Hno. apply Hno, existsb_exists.
  exists (k, v). split; [|done]. by apply list_elem_of_In, elem_of_map_to_list.
Qed.

Lemma existsRow_true {V} (p : V → bool) (m : gmap string V) : existsRow p m = true ↔ ∃ k v, m !! k = Some v ∧ p v = true.
Proof.
  unfold existsRow. rewrite existsb_exists. split.
  - intros ([k v] & Hin%list_elem_of_In%elem_of_map_to_list & Hp). eauto.
  - intros (k & v & Hk & Hp). exists (k, v). split; [|done]. by apply list_elem_of_In, elem_of_map_to_list.
Qed.

(** Fewer rows keep the invariant, as long as no credential goes. *)
Lemma pg_wf_shrink d d' :
  wf d → credentials d' = credentials d → sessions d' ⊆ sessions d → pending d' ⊆ pending d → handoffs d' ⊆ handoffs d → wf d'.
Proof.
  intros [H1 H2 H3 H4 H5 H6] Hc Hs Hp Hh. split; rewrite ?Hc.
  - done.
  - intros k s Hk. by eapply H2, lookup_weaken.
  - intros k h Hk. by eapply H3, lookup_weaken.
  - by eapply AuthProofs.unique_sub.
  - by eapply AuthProofs.unique_sub.
  - by eapply AuthProofs.unique_sub.
Qed.

Lemma wf_deletePending p : keeps wf (deletePending p).
Proof. apply keeps_ok. intros d Hd. apply (pg_wf_shrink d); try done. apply deleteWhere_sub. Qed.
Lemma wf_deleteHandoffs p : keeps wf (deleteHandoffs p).
Proof. apply keeps_ok. intros d Hd. apply (pg_wf_shrink d); try done. apply deleteWhere_sub. Qed.
Lemma wf_deleteSessions p : keeps wf (deleteSessions p).
Proof.
  intros d d' n Hd. unfold deleteSessions. rewrite (surjective_pairing (deleteWhere _ _)). intros Heq%ok_fst. subst d'.
  apply (pg_wf_shrink d); try done. apply deleteWhere_sub.
Qed.
Lemma wf_takePending key : keeps wf (takePending key).
Proof. apply keeps_ok. intros d Hd. apply (pg_wf_shrink d); try done. apply delete_subseteq. Qed.
Lemma wf_dropHandoff {A} key (a : db → A) : keeps wf (λ d, Ok (d <| handoffs := delete key (handoffs d) |>, a d)).
Proof. apply keeps_ok. intros d Hd. apply (pg_wf_shrink d); try done. apply delete_subseteq. Qed.
Lemma wf_dropSession {A} key (a : db → A) : keeps wf (λ d, Ok (d <| sessions := delete key (sessions d) |>, a d)).
Proof. apply keeps_ok. intros d Hd. apply (pg_wf_shrink d); try done. apply delete_subseteq. Qed.

Lemma wf_deleteCredentials p : keeps wf (deleteCredentials p).
Proof.
  intros d d' n Hd. unfold deleteCredentials. rewrite (surjective_pairing (deleteWhere _ (credentials d))).
  intros Heq%ok_fst. subst d'. destruct Hd as [H1 H2 H3 H4 H5 H6].
  assert (∀ id, (match credentials d !! id with Some r => p r | None => false end) = false → is_Some (credentials d !! id) →
    is_Some ((deleteWhere (λ _ : string, p) (credentials d)).1 !! id)) as Hstay.
  { intros id. rewrite deleteWhere_lookup. destruct (credentials d !! id) as [c|]; [|by intros _ []]. cbn.
    intros -> _. by eexists. }
  split; cbn [credentials sessions pending handoffs update fst].
  - intros k c Hk. apply (H1 k c). by eapply lookup_weaken, deleteWhere_sub.
  - intros k s. rewrite deleteWhere_lookup. destruct (sessions d !! k) as [s'|] eqn:Hs; [|done]. cbn.
    set (b := match _ with Some r => p r | None => false end). destruct b eqn:Hb; [done|]. intros [= <-].
    apply Hstay; [done|]. by apply (H2 k).
  - intros k h. rewrite deleteWhere_lookup. destruct (handoffs d !! k) as [h'|] eqn:Hs; [|done]. cbn.
    set (b := match _ with Some r => p r | None => false end). destruct b eqn:Hb; [done|]. intros [= <-].
    apply Hstay; [done|]. by apply (H3 k).
  - eapply AuthProofs.unique_sub; [apply deleteWhere_sub|done].
  - done.
  - eapply AuthProofs.unique_sub; [apply deleteWhere_sub|done].
Qed.

Lemma wf_orphans : keeps wf orphans.
Proof. intros d d' n Hd H. exact (wf_deleteCredentials _ d d' n Hd H). Qed.
Lemma wf_unused id : keeps wf (unused id).
Proof. intros d d' n Hd H. exact (wf_deleteCredentials _ d d' n Hd H). Qed.

Lemma wf_insertPending key record : keeps wf (insertPending key record).
Proof.
  intros d d' u Hd. unfold insertPending. destruct (pending d !! key); [done|].
  destruct (existsRow _ _) eqn:Hex; [done|]. intros [= <- _]. destruct Hd as [H1 H2 H3 H4 H5 H6].
  split; cbn [credentials sessions pending handoffs]; try done. apply AuthProofs.unique_insert; [done|].
  intros k p Hp. pose proof (existsRow_false _ _ _ _ Hex Hp) as Hno. cbn in Hno.
  apply andb_false_iff in Hno as [Hno|Hno]; apply bool_decide_eq_false in Hno; split; intros [??]; cbn in *; congruence.
Qed.

Lemma wf_insertHandoff key record : keeps wf (insertHandoff key record).
Proof.
  intros d d' u Hd. unfold insertHandoff. destruct (handoffs d !! key); [done|].
  destruct (existsRow _ _) eqn:Hex; [done|].
  match goal with |- context [credentials d !! ?id] => destruct (credentials d !! id) eqn:Hc; [|done] end.
  intros [= <- _]. destruct Hd as [H1 H2 H3 H4 H5 H6].
  split; cbn [credentials sessions pending handoffs]; try done.
  - apply map_Forall_insert_2; [by eexists|done].
  - apply AuthProofs.unique_insert; [done|].
    intros k p Hp. pose proof (existsRow_false _ _ _ _ Hex Hp) as Hno. cbn in Hno.
    apply andb_false_iff in Hno as [Hno|Hno]; apply bool_decide_eq_false in Hno; split; intros [??]; cbn in *; congruence.
Qed.

Lemma wf_insertSession key record : keeps wf (insertSession key record).
Proof.
  intros d d' u Hd. unfold insertSession. destruct (sessions d !! key); [done|].
  destruct (existsRow _ _) eqn:Hex; [done|].
  match goal with |- context [credentials d !! ?id] => destruct (credentials d !! id) eqn:Hc; [|done] end.
  intros [= <- _]. destruct Hd as [H1 H2 H3 H4 H5 H6].
  split; cbn [credentials sessions pending handoffs]; try done.
  - apply map_Forall_insert_2; [by eexists|done].
  - apply AuthProofs.unique_insert; [done|].
    intros k p Hp. pose proof (existsRow_false _ _ _ _ Hex Hp) as Hno. cbn in Hno.
    apply bool_decide_eq_false in Hno. split; cbn; congruence.
Qed.

Lemma wf_upsertCredential record : keeps wf (upsertCredential record).
Proof.
  apply keeps_ok. intros d [H1 H2 H3 H4 H5 H6]. split; cbn [credentials sessions pending handoffs update]; try done.
  - by apply map_Forall_insert_2.
  - intros k s Hs. rewrite lookup_insert_is_Some. destruct (decide (CR.ID record = S.CredentialID s)); [by left|right].
    split; [done|by apply (H2 k)].
  - intros k h Hh. rewrite lookup_insert_is_Some. destruct (decide (CR.ID record = H.CredentialID h)); [by left|right].
    split; [done|by apply (H3 k)].
Qed.

Lemma wf_renew key (t : time) :
  keeps wf (λ d, Ok (d <| sessions := alter (λ s, s <| S.ExpiresAt := t |>) key (sessions d) |>, ())).
Proof.
  apply (keeps_ok wf _ (λ _, ())). intros d [H1 H2 H3 H4 H5 H6].
  assert (∀ k s, alter (λ s, s <| S.ExpiresAt := t |>) key (sessions d) !! k = Some s →
    ∃ s', sessions d !! k = Some s' ∧ S.CredentialID s = S.CredentialID s' ∧ S.InstallationID s = S.InstallationID s') as Hlook.
  { intros k s. destruct (decide (key = k)) as [->|Hne].
    - rewrite lookup_alter_eq. intros (s' & Hs' & ->)%fmap_Some. by exists s'.
    - rewrite lookup_alter_ne by done. by exists s. }
  split; cbn [credentials sessions pending handoffs update]; try done.
  - intros k s Hs. destruct (Hlook k s Hs) as (s' & Hs' & -> & _). by apply (H2 k).
  - intros k k' s s' Hs Hs' Heq. destruct (Hlook _ _ Hs) as (x & Hx & _ & E1), (Hlook _ _ Hs') as (y & Hy & _ & E2).
    apply (H4 k k' x y); [done|done|congruence].
Qed.

Lemma preserves_ignore {S A} (P : S → Prop) (m : M S A) : preserves P m → preserves P (ignore m).
Proof. intros Hm s Hs. by apply Hm. Qed.

(** An operation preserves what all its statements keep. *)
Section Preservation.
Context (P : db → Prop) (L : Link db) (rely : ∀ i d, P d → P (others L i d)).

(** The statements an operation may send. *)
Definition respected (o : op) : Prop :=
  match o with
  | OpPutPending now state record =>
      (∀ p, keeps P (deletePending p)) ∧ keeps P (insertPending (HashSecret state) record)
  | OpConsumePending _ state => keeps P (takePending (HashSecret state))
  | OpPutHandoff _ code record => (∀ p, keeps P (deleteHandoffs p)) ∧ keeps P (insertHandoff (HashSecret code) record)
  | OpConsumeHandoff _ code _ _ _ =>
      keeps P (λ d, Ok (d <| handoffs := delete (HashSecret code) (handoffs d) |>, ()))
  | OpPutCredential _ credential => ∀ record, CR.ID record = C.ID credential → keeps P (upsertCredential record)
  | OpPutCredentialAndHandoff _ _ credential code record =>
      (∀ record, CR.ID record = C.ID credential → keeps P (upsertCredential record)) ∧
      (∀ p, keeps P (deleteHandoffs p)) ∧ keeps P (insertHandoff (HashSecret code) record)
  | OpDeleteCredentialIfUnused id => keeps P (unused id)
  | OpCreateSession rnd now credentialID installationID deviceSecret ttl =>
      (∀ p, keeps P (deleteSessions p)) ∧ keeps P orphans ∧
      ∀ token, keeps P (insertSession (HashSecret token)
        (S.mk credentialID installationID (HashSecret deviceSecret) now (Add now ttl)))
  | OpResolveSession now token _ _ renewTTL =>
      keeps P (λ d, Ok (d <| sessions := delete (HashSecret token) (sessions d) |>, ())) ∧ (∀ id, keeps P (unused id)) ∧
      ∀ t, keeps P (λ d, Ok (d <| sessions := alter (λ s, s <| S.ExpiresAt := t |>) (HashSecret token) (sessions d) |>, ()))
  | OpDeleteSession token _ _ =>
      keeps P (λ d, Ok (d <| sessions := delete (HashSecret token) (sessions d) |>, ())) ∧ ∀ id, keeps P (unused id)
  | OpRevokeInstallation _ _ =>
      (∀ p, keeps P (deleteSessions p)) ∧ (∀ p, keeps P (deletePending p)) ∧ (∀ p, keeps P (deleteHandoffs p)) ∧ keeps P orphans
  | OpRevokeAccount _ _ =>
      (∀ p, keeps P (deleteSessions p)) ∧ (∀ p, keeps P (deletePending p)) ∧ (∀ p, keeps P (deleteHandoffs p)) ∧
      keeps P orphans ∧ ∀ p, keeps P (deleteCredentials p)
  end.

Lemma exec_preserves s o : respected o → P (tables s) → P (tables (exec L s o)).
Proof.
  intros Ho Hs. destruct o; cbn [exec respected] in *.
  - destruct Ho as [H1 H2]. revert s Hs. apply (preserves_transaction _ _ rely). unfold queryTx.
    preserve; auto using keeps_read.
  - revert s Hs. change (preserves (holds P) (ConsumePending L now state)). unfold ConsumePending. preserve. done.
  - destruct Ho as [H1 H2]. revert s Hs. apply (preserves_transaction _ _ rely). unfold putHandoffTx, queryTx.
    preserve; auto using keeps_read.
  - revert s Hs. apply (preserves_transaction _ _ rely). unfold deleteHandoffTx, queryTx.
    preserve; try apply preserves_ignore; preserve; auto using keeps_read.
  - revert s Hs. change (preserves (holds P) (PutCredential aead L rnd credential)). unfold PutCredential, putCredential.
    apply preserves_lift. intros a _. apply preserves_lift. intros b _. preserve. auto.
  - destruct Ho as (H1 & H2 & H3). unfold PutCredentialAndHandoff. case_match; [done|].
    revert s Hs. apply (preserves_transaction _ _ rely). unfold putCredential, putHandoffTx, queryTx.
    apply preserves_bind.
    { apply preserves_lift. intros a _. apply preserves_lift. intros b _. preserve. auto. }
    preserve; auto using keeps_read.
  - revert s Hs. change (preserves (holds P) (DeleteCredentialIfUnused L credentialID)).
    unfold DeleteCredentialIfUnused, deleteCredentialIfUnusedTx. preserve. done.
  - destruct Ho as (H1 & H2 & H3). revert s Hs. apply (preserves_transaction _ _ rely). unfold deleteOrphanCredentials, queryTx.
    preserve; auto using keeps_read, preserves_lift_end.
  - destruct Ho as (H1 & H2 & H3). revert s Hs. apply (preserves_transaction _ _ rely).
    unfold deleteCredentialIfUnusedTx, queryTx. preserve; auto using keeps_read.
  - destruct Ho as (H1 & H2). revert s Hs. apply (preserves_transaction _ _ rely).
    unfold deleteCredentialIfUnusedTx, queryTx. preserve; auto using keeps_read.
  - destruct Ho as (H1 & H2 & H3 & H4). revert s Hs. apply (preserves_transaction _ _ rely).
    unfold deleteOrphanCredentials, queryTx. preserve; auto using keeps_read.
  - destruct Ho as (H1 & H2 & H3 & H4 & H5). unfold RevokeAccount. case_bool_decide; [done|].
    revert s Hs. apply (preserves_transaction _ _ rely).
    unfold deleteOrphanCredentials, queryTx. preserve; auto using keeps_read.
Qed.
End Preservation.

Lemma wf_respected o : respected wf o.
Proof.
  destruct o; cbn [respected]; try split_and!; intros; first [apply (wf_dropHandoff _ (λ _, ()))|
    apply (wf_dropSession _ (λ _, ()))|auto using wf_deletePending, wf_insertPending, wf_takePending, wf_deleteHandoffs,
    wf_insertHandoff, wf_upsertCredential, wf_unused, wf_deleteSessions, wf_orphans, wf_insertSession,
    wf_deleteCredentials, wf_renew].
Qed.

Lemma wf_empty : wf emptyDb.
Proof. split; try apply map_Forall_empty; intros k k' v v' Hk; cbn in Hk; by rewrite lookup_empty in Hk. Qed.

Lemma reached_wf L ops : replicas exec (λ _, True) L → wf (tables (foldl (exec L) (mkSession emptyDb 0) ops)).
Proof.
  intros HL. apply (execAll_preserves exec wf (λ _, True)); [|done|by apply Forall_true|apply wf_empty].
  intros L' s o Hrely _ Hs. apply exec_preserves; [done|apply wf_respected|done].
Qed.

(** The invariant of the production authentication store.  Whatever
    several servers do on the shared database, and whichever statements fail,
    every session and every handoff stands for a stored credential, a
    credential is filed under its identifier, an installation has at most one
    session, and a device at most one pending authorization and one
    handoff. *)
Theorem postgres_auth_invariant (L : Link db) (ops : list op) :
  replicas exec (λ _, True) L →
  let d := tables (foldl (exec L) (mkSession emptyDb 0) ops) in
  map_Forall (λ id c, CR.ID c = id) (credentials d) ∧
  map_Forall (λ _ s, is_Some (credentials d !! S.CredentialID s)) (sessions d) ∧
  map_Forall (λ _ h, is_Some (credentials d !! H.CredentialID h)) (handoffs d) ∧
  AuthProofs.unique (λ x y, S.InstallationID x = S.InstallationID y) (sessions d) ∧
  AuthProofs.unique (samePlace P.InstallationID P.DeviceHash) (pending d) ∧
  AuthProofs.unique (samePlace H.InstallationID H.DeviceHash) (handoffs d).
Proof. intros HL d. destruct (reached_wf L ops HL). by split_and!. Qed.

(** ** Handoff codes *)

(** No handoff is filed under the code. *)
Definition spent (key : string) d : Prop := handoffs d !! key = None.

(** The operation issues a handoff under the same code. *)
Definition reissues (key : string) (o : op) : Prop :=
  match o with
  | OpPutHandoff _ code _ | OpPutCredentialAndHandoff _ _ _ code _ => HashSecret code = key
  | _ => False
  end.

Lemma spent_sub key d d' : handoffs d' ⊆ handoffs d → spent key d → spent key d'.
Proof. intros Hsub Hs. unfold spent in *. by eapply lookup_weaken_None. Qed.

Lemma spent_respected key o : ¬ reissues key o → respected (spent key) o.
Proof.
  intros Hno.
  assert (∀ p, keeps (spent key) (deletePending p)) by (intros p; by apply keeps_ok).
  assert (∀ p, keeps (spent key) (deleteHandoffs p)) by (intros p; apply keeps_ok; intros d; apply spent_sub, deleteWhere_sub).
  assert (∀ p, keeps (spent key) (deleteSessions p)).
  { intros p d d' n Hd. unfold deleteSessions. rewrite (surjective_pairing (deleteWhere _ _)). by intros ->%ok_fst. }
  assert (∀ p, keeps (spent key) (deleteCredentials p)) as Hcred.
  { intros p d d' n Hd. unfold deleteCredentials. rewrite (surjective_pairing (deleteWhere _ (credentials d))).
    intros ->%ok_fst. revert Hd. apply spent_sub. apply deleteWhere_sub. }
  assert (keeps (spent key) orphans) by (intros d d' n Hd Ho; exact (Hcred _ d d' n Hd Ho)).
  assert (∀ id, keeps (spent key) (unused id)) by (intros id d d' n Hd Ho; exact (Hcred _ d d' n Hd Ho)).
  assert (∀ code record, HashSecret code ≠ key → keeps (spent key) (insertHandoff (HashSecret code) record)).
  { intros code record Hne d d' u Hd. unfold insertHandoff. destruct (handoffs d !! HashSecret code); [done|].
    destruct (existsRow _ _); [done|]. destruct (credentials d !! _); [|done]. intros [= <- _]. unfold spent in *.
    cbn [handoffs]. by rewrite lookup_insert_ne. }
  destruct o; cbn [respected reissues] in *; try split_and!; intros; auto.
  - intros d d' u Hd. unfold insertPending. destruct (pending d !! _); [done|]. destruct (existsRow _ _); [done|].
    by intros [= <- _].
  - by apply keeps_ok.
  - apply (keeps_ok _ _ (λ _, ())). intros d. apply spent_sub, delete_subseteq.
  - by apply keeps_ok.
  - by apply keeps_ok.
  - intros d d' u Hd. unfold insertSession. destruct (sessions d !! _); [done|]. destruct (existsRow _ _); [done|].
    destruct (credentials d !! _); [|done]. by intros [= <- _].
  - by apply (keeps_ok _ _ (λ _, ())).
  - by apply (keeps_ok _ _ (λ _, ())).
  - by apply (keeps_ok _ _ (λ _, ())).
Qed.

Lemma ConsumeHandoff_runs L now code installationID deviceSecret state s :
  runs (ConsumeHandoff L now code installationID deviceSecret state) s (λ s' answer,
    (∀ r, answer = Ok r → spent (HashSecret code) (tables s') ∧ ¬ spent (HashSecret code) (others L (sent s) (tables s)) ∧
       H.InstallationID r = installationID ∧ H.DeviceHash r = HashSecret deviceSecret ∧ H.StateHash r = HashSecret state ∧
       now ≤ H.ExpiresAt r)).
Proof.
  unfold ConsumeHandoff. tx_step; [done|]. intros n. tx_step. tx_step. unfold queryTx. tx_step; [done|].
  intros m w found Heq%execute_ok. injection Heq as <- <-. cbn beta iota.
  destruct (handoffs (others L (sent s) (tables s)) !! HashSecret code) as [record|] eqn:Hr; [|by tx_step].
  unfold After. destruct (Z.ltb_spec (H.ExpiresAt record) now) as [|Hexp].
  { tx_step. unfold runs, ignore. destruct (deleteHandoffTx _ _ _) as [x ans]. cbn beta iota. cbn [fst].
    unfold bind, database. by destruct (Commit L x) as [x' [u|e]]. }
  rewrite !EqualHash_HashSecret.
  destruct (bool_decide_reflect (H.InstallationID record = installationID)) as [Hi|]; cbn [negb orb]; [|by tx_step].
  destruct (bool_decide_reflect (H.DeviceHash record = HashSecret deviceSecret)) as [Hd|]; cbn [negb orb]; [|by tx_step].
  destruct (bool_decide_reflect (H.StateHash record = HashSecret state)) as [Hst|]; cbn [negb orb]; [|by tx_step].
  tx_step. tx_step. unfold deleteHandoffTx. tx_step; [done|]. intros m' w' u Hdel%execute_ok%ok_fst. cbn beta iota. cbn [fst] in Hdel.
  subst w'. tx_step. tx_step. tx_step; [done|]. intros m''. split; [|done]. tx_step. intros m0 r [= <-]. split_and!; try done.
  - unfold spent. cbn [published tables]. apply lookup_delete_eq.
  - unfold spent. by rewrite Hr.
Qed.

(** C19: a login code works once, and only for the device it was issued to.
    Whoever exchanges a handoff code presents the installation, device secret
    and state it was issued for, before it expires; after a successful
    exchange no server accepts the code again, whatever the others do at the
    same time and whichever statements fail, unless a handoff is issued under
    the same code. *)
Theorem postgres_handoff_once (L : Link db) s s1 now code installationID deviceSecret state r
    (ops : list op) now' installationID' deviceSecret' state' :
  replicas exec (λ o, ¬ reissues (HashSecret code) o) L →
  ConsumeHandoff L now code installationID deviceSecret state s = (s1, Ok r) →
  Forall (λ o, ¬ reissues (HashSecret code) o) ops →
  H.InstallationID r = installationID ∧ H.DeviceHash r = HashSecret deviceSecret ∧ H.StateHash r = HashSecret state ∧
  now ≤ H.ExpiresAt r ∧
  is_ok (ConsumeHandoff L now' code installationID' deviceSecret' state' (foldl (exec L) s1 ops)).2 = false.
Proof.
  intros HL Hc Hops. destruct (runs_pair _ _ _ _ _ (ConsumeHandoff_runs L now code installationID deviceSecret state s) Hc r eq_refl)
    as (Hspent & _ & ? & ? & ? & ?). split_and!; try done.
  assert (∀ L' s o, (∀ i d, spent (HashSecret code) d → spent (HashSecret code) (others L' i d)) →
    ¬ reissues (HashSecret code) o → spent (HashSecret code) (tables s) → spent (HashSecret code) (tables (exec L' s o))) as Hexec.
  { intros L' s' o Hrely Ho. by apply exec_preserves, spent_respected. }
  assert (∀ i d, spent (HashSecret code) d → spent (HashSecret code) (others L i d)) as Hrely.
  { apply (replicas_rely exec (λ o, ¬ reissues (HashSecret code) o)); [|done]. intros outcomes s' o. by apply Hexec. }
  pose proof (execAll_preserves exec _ _ _ _ _ Hexec HL Hops Hspent) as Hspent'.
  set (s2 := foldl (exec L) s1 ops) in *.
  pose proof (ConsumeHandoff_runs L now' code installationID' deviceSecret' state' s2) as Hr. unfold runs in Hr.
  destruct (ConsumeHandoff L now' code installationID' deviceSecret' state' s2) as [s3 [r'|e]]; [|done].
  destruct (Hr r' eq_refl) as (_ & Hno & _). by destruct Hno; apply Hrely.
Qed.

(** ** Sessions *)

Lemma head_filter_unique {V} (p : V → bool) (m : gmap string V) k v :
  m !! k = Some v → p v = true → (∀ k' v', m !! k' = Some v' → p v' = true → k' = k) →
  head (List.filter p (rangeMap m).*2) = Some v.
Proof.
  intros Hk Hp Huniq.
  assert (∀ x, x ∈ List.filter p (rangeMap m).*2 → x = v) as Hall.
  { intros x [Hx Hpx]%list_elem_of_In%filter_In. apply list_elem_of_In, list_elem_of_fmap in Hx as ([k' v'] & -> & Hin).
    apply elem_of_rangeMap in Hin. cbn in *. pose proof (Huniq _ _ Hin Hpx). by simplify_eq. }
  destruct (List.filter p (rangeMap m).*2) as [|x l] eqn:Hl.
  - exfalso. assert (v ∈ List.filter p (rangeMap m).*2) as Hin; [|by rewrite Hl, elem_of_nil in Hin].
    apply list_elem_of_In, filter_In. split; [|done]. apply list_elem_of_In, list_elem_of_fmap.
    exists (k, v). split; [done|]. by apply elem_of_rangeMap.
  - cbn. f_equal. apply Hall. by left.
Qed.

Lemma CreateSession_taken L rnd now credentialID installationID deviceSecret ttl s k v :
  let t := others L (sent s) (tables s) in
  wf t → sessions t !! k = Some v → S.InstallationID v = installationID → S.DeviceHash v ≠ HashSecret deviceSecret →
  timestamptz now ≤ S.ExpiresAt v →
  runs (CreateSession L rnd now credentialID installationID deviceSecret ttl) s (λ s' answer,
    tables s' = t ∧ is_ok answer = false).
Proof.
  intros t Hwf Hk Hi Hd Hexp. unfold CreateSession, queryTx. tx_step; [done|]. intros n. fold t.
  tx_step. tx_step. tx_step; [done|]. intros m w found Heq%execute_ok. injection Heq as <- <-. cbn beta iota.
  destruct (negb _); [by tx_step|].
  tx_step. tx_step. tx_step; [done|]. intros m1 w1 n1 Heq%execute_ok. cbn beta iota. unfold deleteSessions in Heq.
  rewrite (surjective_pairing (deleteWhere _ _)) in Heq. apply ok_fst in Heq. cbn [fst] in Heq.
  tx_step. tx_step. tx_step; [done|]. intros m2 w2 found Heq2%execute_ok. injection Heq2 as <- <-. cbn beta iota.
  assert (sessions w1 !! k = Some v) as Hw1.
  { subst w1. cbn [sessions update]. rewrite deleteWhere_lookup, Hk. cbn. destruct (Z.ltb_spec (S.ExpiresAt v) (timestamptz now)); [lia|done]. }
  rewrite (head_filter_unique _ _ k v Hw1).
  - rewrite EqualHash_HashSecret, bool_decide_eq_false_2 by done. cbn [negb]. by tx_step.
  - by apply bool_decide_eq_true.
  - intros k' v' Hv' Hi'%bool_decide_eq_true. apply (wf_one_session _ Hwf k' k v' v); [|done|congruence].
    subst w1. exact (lookup_weaken _ _ _ _ Hv' (deleteWhere_sub _ _)).
Qed.

(** C20: a running session cannot be taken over.  In every state several
    servers reach on the shared database, creating a session for an
    installation that has an unexpired session bound to another device secret
    fails and changes nothing. *)
Theorem postgres_session_not_taken_over (L : Link db) (ops : list op) rnd now credentialID installationID deviceSecret ttl k v :
  replicas exec (λ _, True) L →
  let s := foldl (exec L) (mkSession emptyDb 0) ops in
  let t := others L (sent s) (tables s) in
  sessions t !! k = Some v → S.InstallationID v = installationID → S.DeviceHash v ≠ HashSecret deviceSecret →
  timestamptz now ≤ S.ExpiresAt v →
  let '(s', answer) := CreateSession L rnd now credentialID installationID deviceSecret ttl s in
  tables s' = t ∧ is_ok answer = false.
Proof.
  intros HL s t Hk Hi Hd Hexp. apply (CreateSession_taken L rnd now credentialID installationID deviceSecret ttl s k v); try done.
  apply (replicas_rely exec (λ _, True)); [|done|by apply reached_wf].
  intros outcomes s' o _ Hs'. apply exec_preserves; [done|apply wf_respected|done].
Qed.

(** ** Revocation of an account *)

(** The credential is one of the account. *)
Definition owned (userID : string) d (id : string) : Prop := ∃ c, credentials d !! id = Some c ∧ CR.UserID c = userID.

(** The installation goes with the account: it is one of those named, or one
    of the account's sessions is for it. *)
Definition placed (userID : string) (extra : list string) d (i : string) : Prop :=
  i ≠ "" ∧ ((∃ raw, raw ∈ extra ∧ TrimSpace raw = i) ∨
            ∃ k s, sessions d !! k = Some s ∧ owned userID d (S.CredentialID s) ∧ TrimSpace (S.InstallationID s) = i).

(** What the revocation of an account leaves of the tables. *)
Definition revoked (userID : string) (extra : list string) d d' : Prop :=
  (∀ k s, sessions d' !! k = Some s ↔ sessions d !! k = Some s ∧ ¬ owned userID d (S.CredentialID s)) ∧
  (∀ k h, handoffs d' !! k = Some h ↔
     handoffs d !! k = Some h ∧ ¬ owned userID d (H.CredentialID h) ∧ ¬ placed userID extra d (H.InstallationID h)) ∧
  (∀ k p, pending d' !! k = Some p ↔ pending d !! k = Some p ∧ ¬ placed userID extra d (P.InstallationID p)) ∧
  (∀ id c, credentials d' !! id = Some c ↔ credentials d !! id = Some c ∧ CR.UserID c ≠ userID ∧
     ((∃ k s, sessions d' !! k = Some s ∧ S.CredentialID s = id) ∨ ∃ k h, handoffs d' !! k = Some h ∧ H.CredentialID h = id)).

Lemma deleteWhere_iff {V} (p : V → bool) (m : gmap string V) k v :
  (deleteWhere (λ _, p) m).1 !! k = Some v ↔ m !! k = Some v ∧ p v = false.
Proof.
  rewrite deleteWhere_lookup. destruct (m !! k) as [x|]; cbn; [|split; intros; by destruct_and?].
  destruct (p x) eqn:Hp; split; intros; destruct_and?; simplify_eq; congruence || done.
Qed.

Lemma deleteSessions_spec p d d' n : deleteSessions p d = Ok (d', n) →
  credentials d' = credentials d ∧ handoffs d' = handoffs d ∧ pending d' = pending d ∧
  ∀ k s, sessions d' !! k = Some s ↔ sessions d !! k = Some s ∧ p s = false.
Proof.
  unfold deleteSessions. rewrite (surjective_pairing (deleteWhere _ _)). intros ->%ok_fst. split_and!; [done..|].
  intros k s. apply deleteWhere_iff.
Qed.

Lemma deleteCredentials_spec p d d' n : deleteCredentials p d = Ok (d', n) →
  let stays := λ id, ∀ c, credentials d !! id = Some c → p c = false in
  pending d' = pending d ∧
  (∀ id c, credentials d' !! id = Some c ↔ credentials d !! id = Some c ∧ p c = false) ∧
  (∀ k s, sessions d' !! k = Some s ↔ sessions d !! k = Some s ∧ stays (S.CredentialID s)) ∧
  (∀ k h, handoffs d' !! k = Some h ↔ handoffs d !! k = Some h ∧ stays (H.CredentialID h)).
Proof.
  intros Heq stays. unfold deleteCredentials in Heq. rewrite (surjective_pairing (deleteWhere _ (credentials d))) in Heq.
  apply ok_fst in Heq. subst d'.
  assert (∀ id, match credentials d !! id with Some r => p r | None => false end = false ↔ stays id) as Hstays.
  { intros id. unfold stays. destruct (credentials d !! id) as [c|]; naive_solver. }
  cbn [credentials sessions handoffs update fst]. split_and!.
  - done.
  - intros k c. apply deleteWhere_iff.
  - intros k s. rewrite deleteWhere_lookup. destruct (sessions d !! k) as [s'|] eqn:Hk; cbn; [|split; intros; destruct_and?; by simplify_eq].
    specialize (Hstays (S.CredentialID s')). destruct (match _ with Some r => p r | None => false end);
      split; intros; destruct_and?; simplify_eq; try done; [|by split; [|apply Hstays]].
    assert (true = false) by by apply Hstays. done.
  - intros k s. rewrite deleteWhere_lookup. destruct (handoffs d !! k) as [s'|] eqn:Hk; cbn; [|split; intros; destruct_and?; by simplify_eq].
    specialize (Hstays (H.CredentialID s')). destruct (match _ with Some r => p r | None => false end);
      split; intros; destruct_and?; simplify_eq; try done; [|by split; [|apply Hstays]].
    assert (true = false) by by apply Hstays. done.
Qed.

(** Removing the credentials nothing uses removes nothing else. *)
Lemma orphans_spec d d' n : map_Forall (λ id c, CR.ID c = id) (credentials d) → orphans d = Ok (d', n) →
  pending d' = pending d ∧
  (∀ id c, credentials d' !! id = Some c ↔ credentials d !! id = Some c ∧
     ((∃ k s, sessions d !! k = Some s ∧ S.CredentialID s = id) ∨ ∃ k h, handoffs d !! k = Some h ∧ H.CredentialID h = id)) ∧
  (∀ k s, sessions d' !! k = Some s ↔ sessions d !! k = Some s) ∧
  (∀ k h, handoffs d' !! k = Some h ↔ handoffs d !! k = Some h).
Proof.
  intros Hkey Ho. destruct (deleteCredentials_spec _ _ _ _ Ho) as (Hp & Hc & Hs & Hh). clear Ho.
  assert (∀ id, inUse d id = true ↔
    (∃ k s, sessions d !! k = Some s ∧ S.CredentialID s = id) ∨ ∃ k h, handoffs d !! k = Some h ∧ H.CredentialID h = id) as Huse.
  { intros id. unfold inUse. rewrite orb_true_iff, !existsRow_true. by setoid_rewrite bool_decide_eq_true. }
  split_and!; [done|..].
  - intros id c. rewrite Hc, negb_false_iff, Huse. split; intros [H1 H2]; (split; [done|]); by rewrite (Hkey _ _ H1) in *.
  - intros k s. rewrite Hs. split; [by intros [??]|]. intros Hk. split; [done|]. intros c Hcred. apply negb_false_iff, Huse.
    left. exists k, s. split; [done|]. symmetry. by apply (Hkey _ c).
  - intros k h. rewrite Hh. split; [by intros [??]|]. intros Hk. split; [done|]. intros c Hcred. apply negb_false_iff, Huse.
    right. exists k, h. split; [done|]. symmetry. by apply (Hkey _ c).
Qed.

(** A statement that is sent only under a condition. *)
Lemma runs_when L {A} (b : bool) operation params (f : db → result (db * A)) a t w n Q :
  (∀ m e, Q (mkTx t w true m) (Err e)) →
  (∀ m w' r, (if b then f w = Ok (w', r) else w' = w ∧ r = a) → Q (mkTx t w' false m) (Ok r)) →
  runs (if b then database operation (onTx L params f) else ret a) (mkTx t w false n) Q.
Proof.
  intros Herr Hok. destruct b.
  - tx_step. tx_step; [by intros|]. intros m w' r Hf%execute_ok. by apply Hok.
  - tx_step. by apply Hok.
Qed.

Definition accountCredentials (userID : string) d : list string :=
  CR.ID <$> List.filter (λ c, CR.UserID c == userID) (rangeMap (credentials d)).*2.

Lemma elem_of_accountCredentials userID d id : map_Forall (λ id c, CR.ID c = id) (credentials d) →
  id ∈ accountCredentials userID d ↔ owned userID d id.
Proof.
  intros Hkey. unfold accountCredentials. rewrite list_elem_of_fmap. split.
  - intros (c & -> & [Hin Hu%bool_decide_eq_true]%list_elem_of_In%filter_In).
    apply list_elem_of_In, list_elem_of_fmap in Hin as ([k c'] & -> & Hin%elem_of_rangeMap). cbn in *.
    exists c'. by rewrite (Hkey _ _ Hin).
  - intros (c & Hc & Hu). exists c. rewrite (Hkey _ _ Hc). split; [done|].
    apply list_elem_of_In, filter_In. split; [|by apply bool_decide_eq_true].
    apply list_elem_of_In, list_elem_of_fmap. exists (id, c). split; [done|]. by apply elem_of_rangeMap.
Qed.

(** The installations the transaction works with. *)
Definition accountPlaces (userID : string) (extra : list string) d : list string :=
  compactStrings (if 0 <? Z.of_nat (length (accountCredentials userID d))
    then compactStrings extra ++ accountInstallations (accountCredentials userID d) d else compactStrings extra).

Lemma elem_of_accountInstallations ids d i :
  i ∈ accountInstallations ids d ↔ ∃ k s, sessions d !! k = Some s ∧ S.CredentialID s ∈ ids ∧ S.InstallationID s = i.
Proof.
  unfold accountInstallations. rewrite elem_of_remove_dups, list_elem_of_fmap. split.
  - intros (s & -> & [Hin Hu%bool_decide_eq_true]%list_elem_of_In%filter_In).
    apply list_elem_of_In, list_elem_of_fmap in Hin as ([k s'] & -> & Hin%elem_of_rangeMap). by exists k, s'.
  - intros (k & s & Hk & Hin & <-). exists s. split; [done|]. apply list_elem_of_In, filter_In.
    split; [|by apply bool_decide_eq_true]. apply list_elem_of_In, list_elem_of_fmap. exists (k, s). split; [done|]. by apply elem_of_rangeMap.
Qed.

Lemma elem_of_accountPlaces userID extra d i : map_Forall (λ id c, CR.ID c = id) (credentials d) →
  i ∈ accountPlaces userID extra d ↔ placed userID extra d i.
Proof.
  intros Hkey. unfold accountPlaces, placed.
  assert (∀ v, v ∈ compactStrings extra ↔ ∃ raw, raw ∈ extra ∧ TrimSpace raw = v ∧ v ≠ "") as Hextra.
  { intros v. unfold compactStrings. rewrite elem_of_compact. split; [by intros [??]|]. intros ?. split; [done|]. apply not_elem_of_empty. }
  assert (∀ l, i ∈ compactStrings l ↔ ∃ raw, raw ∈ l ∧ TrimSpace raw = i ∧ i ≠ "") as Hout.
  { intros l. unfold compactStrings. rewrite elem_of_compact. split; [by intros [??]|]. intros ?. split; [done|]. apply not_elem_of_empty. }
  assert ((∃ raw, raw ∈ compactStrings extra ∧ TrimSpace raw = i ∧ i ≠ "") ↔ (∃ raw, raw ∈ extra ∧ TrimSpace raw = i) ∧ i ≠ "") as He.
  { setoid_rewrite Hextra. split.
    - intros (raw & (x & Hx & <- & _) & <- & ?). split; [|done]. exists x. split; [done|]. by rewrite TrimSpace_idemp.
    - intros [(x & Hx & <-) ?]. exists (TrimSpace x). rewrite TrimSpace_idemp. split_and!; [by exists x|done|done]. }
  rewrite Hout. destruct (Z.ltb_spec 0 (Z.of_nat (length (accountCredentials userID d)))) as [_|Hnone].
  - setoid_rewrite elem_of_app. setoid_rewrite elem_of_accountInstallations. setoid_rewrite (elem_of_accountCredentials userID d _ Hkey).
    split.
    + intros (raw & [Hr|(k & s & Hk & Ho & <-)] & Ht & Hne); [|split; [done|right; by exists k, s]].
      split; [done|]. left. apply He. by exists raw.
    + intros [Hne [Hr|(k & s & Hk & Ho & <-)]].
      * destruct (proj2 He) as (raw & ? & ? & _); [by split|]. exists raw. split_and!; [by left|done|done].
      * exists (S.InstallationID s). split_and!; [right; by exists k, s|done|done].
  - rewrite He. split; [intros [??]; split; [done|by left]|]. intros [Hne [Hr|(k & s & Hk & Ho & _)]]; [done|].
    apply (elem_of_accountCredentials userID d _ Hkey) in Ho. destruct (accountCredentials userID d); [by apply elem_of_nil in Ho|cbn in Hnone; lia].
Qed.

Lemma revoked_by userID extra d d1 d2 d3 d4 n4 d5 n5 :
  map_Forall (λ id c, CR.ID c = id) (credentials d) →
  (credentials d1 = credentials d ∧ handoffs d1 = handoffs d ∧ pending d1 = pending d ∧
   ∀ k s, sessions d1 !! k = Some s ↔ sessions d !! k = Some s ∧ S.CredentialID s ∉ accountCredentials userID d) →
  (credentials d2 = credentials d1 ∧ sessions d2 = sessions d1 ∧ pending d2 = pending d1 ∧
   ∀ k h, handoffs d2 !! k = Some h ↔ handoffs d1 !! k = Some h ∧
     H.CredentialID h ∉ accountCredentials userID d ∧ H.InstallationID h ∉ accountPlaces userID extra d) →
  (credentials d3 = credentials d2 ∧ sessions d3 = sessions d2 ∧ handoffs d3 = handoffs d2 ∧
   ∀ k p, pending d3 !! k = Some p ↔ pending d2 !! k = Some p ∧ P.InstallationID p ∉ accountPlaces userID extra d) →
  deleteCredentials (λ c, CR.UserID c == userID) d3 = Ok (d4, n4) → orphans d4 = Ok (d5, n5) →
  revoked userID extra d d5.
Proof.
  intros Hkey (Hc1 & Hh1 & Hp1 & Hs1) (Hc2 & Hs2 & Hp2 & Hh2) (Hc3 & Hs3 & Hh3 & Hp3) H4 H5.
  apply deleteCredentials_spec in H4 as (Hp4 & Hc4 & Hs4 & Hh4). rewrite Hc3, Hc2, Hc1 in *.
  apply orphans_spec in H5 as (Hp5 & Hc5 & Hs5 & Hh5).
  2: { intros id c Hc. apply Hc4 in Hc as [Hc _]. by apply Hkey. }
  setoid_rewrite bool_decide_eq_false in Hc4. setoid_rewrite bool_decide_eq_false in Hs4.
  setoid_rewrite bool_decide_eq_false in Hh4. unfold revoked.
  setoid_rewrite <- (elem_of_accountCredentials userID d _ Hkey). setoid_rewrite <- (elem_of_accountPlaces userID extra d _ Hkey).
  assert (∀ id, id ∉ accountCredentials userID d ↔ ∀ c, credentials d !! id = Some c → CR.UserID c ≠ userID) as Hnot.
  { intros id. rewrite (elem_of_accountCredentials userID d _ Hkey). unfold owned. naive_solver. }
  split_and!.
  - intros k s. rewrite Hs5, Hs4, Hs3, Hs2, Hs1, Hnot. naive_solver.
  - intros k h. rewrite Hh5, Hh4, Hh3, Hh2, Hh1, Hnot. naive_solver.
  - intros k p. by rewrite Hp5, Hp4, Hp3, Hp2, Hp1.
  - intros id c. rewrite Hc5, Hc4. setoid_rewrite Hs5. setoid_rewrite Hh5. naive_solver.
Qed.

(** The deletions of the transaction. *)
Definition deletions L (userID : string) (ids places : list string) : M (tx db) (Z * Z) :=
  let! removedSessions :=
    if 0 <? Z.of_nat (length ids) then database "delete account sessions"
      (onTx L ids (deleteSessions (λ s, bool_decide (S.CredentialID s ∈ ids))))
    else ret 0 in
  let! _ :=
    if (0 <? Z.of_nat (length ids)) || (0 <? Z.of_nat (length places)) then database "delete account handoffs"
      (onTx L (ids ++ places) (deleteHandoffs (λ h,
         bool_decide (H.CredentialID h ∈ ids) || bool_decide (H.InstallationID h ∈ places))))
    else ret () in
  let! _ :=
    if 0 <? Z.of_nat (length places) then database "delete account pending auth"
      (onTx L places (deletePending (λ p, bool_decide (P.InstallationID p ∈ places))))
    else ret () in
  let! removedCredentials := database "delete account credentials"
    (onTx L [userID] (deleteCredentials (λ c, CR.UserID c == userID))) in
  let! _ := deleteOrphanCredentials L in
  let! _ := database "commit account revocation" (Commit L) in
  ret (removedSessions, removedCredentials).

Lemma not_in_none {A} (l : list A) x : 0 <? Z.of_nat (length l) = false → x ∉ l.
Proof. destruct l; [intros _; apply not_elem_of_nil|done]. Qed.

Lemma deletions_runs L userID extra t m (Q : tx db → result (Z * Z) → Prop) :
  map_Forall (λ id c, CR.ID c = id) (credentials t) →
  (∀ x e, published x = t → Q x (Err e)) →
  (∀ x answer, revoked userID extra t (published x) → Q x answer) →
  runs (deletions L userID (accountCredentials userID t) (accountPlaces userID extra t)) (mkTx t t false m) Q.
Proof.
  intros Hkey Herr Hok. unfold deletions, deleteOrphanCredentials.
  set (ids := accountCredentials userID t). set (places := accountPlaces userID extra t).
  tx_step. apply runs_when; [by intros; apply Herr|]. intros m1 d1 removed H1.
  tx_step. apply runs_when; [by intros; apply Herr|]. intros m2 d2 [] H2.
  tx_step. apply runs_when; [by intros; apply Herr|]. intros m3 d3 [] H3.
  tx_step. tx_step. tx_step; [by intros; apply Herr|]. intros m4 d4 n4 H4%execute_ok.
  tx_step. tx_step. tx_step. tx_step; [by intros; apply Herr|]. intros m5 d5 n5 H5%execute_ok. tx_step.
  tx_step. tx_step.
  assert (revoked userID extra t d5) as Hrevoked.
  { eapply (revoked_by userID extra t d1 d2 d3 d4 n4 d5 n5); [done|..|exact H4|exact H5]; fold ids places.
    - destruct (0 <? Z.of_nat (length ids)) eqn:Hlen.
      + apply deleteSessions_spec in H1 as (? & ? & ? & Hs). split_and!; [done..|]. intros k x. rewrite Hs. by rewrite bool_decide_eq_false.
      + destruct H1 as [-> _]. split_and!; [done..|]. intros k x. pose proof (not_in_none ids (S.CredentialID x) Hlen). naive_solver.
    - destruct (_ || _) eqn:Hlen in H2.
      + apply ok_fst in H2. subst d2. split_and!; [done..|]. intros k h. cbn [handoffs update fst].
        by rewrite deleteWhere_iff, orb_false_iff, !bool_decide_eq_false.
      + destruct H2 as [-> _]. apply orb_false_iff in Hlen as [Hl1 Hl2]. split_and!; [done..|]. intros k h.
        pose proof (not_in_none ids (H.CredentialID h) Hl1). pose proof (not_in_none places (H.InstallationID h) Hl2). naive_solver.
    - destruct (0 <? Z.of_nat (length places)) eqn:Hlen.
      + apply ok_fst in H3. subst d3. split_and!; [done..|]. intros k q. cbn [pending update fst].
        by rewrite deleteWhere_iff, bool_decide_eq_false.
      + destruct H3 as [-> _]. split_and!; [done..|]. intros k q. pose proof (not_in_none places (P.InstallationID q) Hlen). naive_solver. }
  tx_step; [by intros; apply Herr|]. intros m6. cbn beta iota. split; [tx_step|intros e]; by apply Hok.
Qed.

Lemma RevokeAccount_runs L userID extra s :
  let t := others L (sent s) (tables s) in
  map_Forall (λ id c, CR.ID c = id) (credentials t) → TrimSpace userID ≠ "" →
  runs (RevokeAccount L userID extra) s (λ s' answer,
    (tables s' = t ∧ is_ok answer = false) ∨ revoked (TrimSpace userID) extra t (tables s')).
Proof.
  intros t Hkey Hne. unfold RevokeAccount, queryTx. rewrite bool_decide_eq_false_2 by done.
  generalize (TrimSpace userID). clear Hne userID. intros userID.
  tx_step; [by left|]. intros n. fold t.
  tx_step. tx_step. tx_step; [by left|]. intros m w ids Heq%execute_ok. cbn beta in Heq. fold (accountCredentials userID t) in Heq.
  injection Heq as <- <-. cbn beta iota zeta. tx_step.
  pose proof (deletions_runs L userID extra t) as Hbody. unfold accountPlaces in Hbody.
  destruct (0 <? Z.of_nat (length (accountCredentials userID t))) eqn:Hlen.
  - tx_step. tx_step. tx_step; [by left|]. intros m1 w found Heq%execute_ok. injection Heq as <- <-. tx_step.
    specialize (Hbody m1). unfold deletions in Hbody. rewrite Hlen in Hbody. apply Hbody; [done|by intros x e <-; left|by right].
  - tx_step. specialize (Hbody m). unfold deletions in Hbody. rewrite Hlen in Hbody. apply Hbody; [done|by intros x e <-; left|by right].
Qed.

(** *** When every statement is answered *)

(** The identifiers of the revocation can be sent. *)
Definition sendable (userID : string) (extra : list string) d : Prop :=
  text userID = true ∧ (∀ id, owned userID d id → text id = true) ∧ (∀ i, placed userID extra d i → text i = true).

Lemma sendable_texts userID extra d : map_Forall (λ id c, CR.ID c = id) (credentials d) → sendable userID extra d →
  forallb text [userID] = true ∧ forallb text (accountCredentials userID d) = true ∧ forallb text (accountPlaces userID extra d) = true.
Proof.
  intros Hkey (Hu & Hids & Hplaces). split_and!; [cbn; by rewrite Hu|..]; apply forallb_forall; intros x Hx%list_elem_of_In.
  - by apply Hids, elem_of_accountCredentials.
  - by apply Hplaces, elem_of_accountPlaces.
Qed.

Lemma sent_answered L {A} params (f : db → result (db * A)) t w n w' a (Q : tx db → result A → Prop) :
  (∀ i, outcomeOf L i = Answered) → forallb text params = true → f w = Ok (w', a) →
  (∀ m, Q (mkTx t w' false m) (Ok a)) → runs (onTx L params f) (mkTx t w false n) Q.
Proof. intros HL Hp Hf HQ. by eapply runs_onTx_ok. Qed.

(** A deletion sent under a condition. *)
Lemma answered_when L {A} (b : bool) operation params (f : db → result (db * A)) (a : A) t w n (Q : tx db → result A → Prop) :
  (∀ i, outcomeOf L i = Answered) → forallb text params = true → (∃ w' r, f w = Ok (w', r)) →
  (∀ m w' r, Q (mkTx t w' false m) (Ok r)) →
  runs (if b then database operation (onTx L params f) else ret a) (mkTx t w false n) Q.
Proof.
  intros HL Hp (w' & r & Hf) HQ. destruct b; [|by tx_step]. tx_step. by eapply sent_answered.
Qed.

Lemma deletions_answered L userID ids places t w m :
  (∀ i, outcomeOf L i = Answered) → forallb text [userID] = true → forallb text ids = true → forallb text places = true →
  runs (deletions L userID ids places) (mkTx t w false m) (λ _ answer, is_ok answer = true).
Proof.
  intros HL Hu Hids Hplaces. unfold deletions, deleteOrphanCredentials.
  assert (∀ p d, ∃ d' r, deleteSessions p d = Ok (d', r)) as Hs by (intros p d; unfold deleteSessions; destruct (deleteWhere _ _); eauto).
  assert (∀ p d, ∃ d' r, deleteCredentials p d = Ok (d', r)) as Hc by (intros p d; unfold deleteCredentials; destruct (deleteWhere _ _); eauto).
  tx_step. apply answered_when; [done|done|apply Hs|]. intros m1 d1 r1.
  tx_step. apply answered_when; [done|by rewrite forallb_app, Hids|by do 2 eexists|]. intros m2 d2 r2.
  tx_step. apply answered_when; [done|done|by do 2 eexists|]. intros m3 d3 r3.
  tx_step. tx_step. destruct (Hc (λ c, CR.UserID c == userID) d3) as (d4 & r4 & H4). eapply sent_answered; [done|done|exact H4|]. intros m4.
  tx_step. tx_step. tx_step. destruct (Hc (λ c, negb (inUse d4 (CR.ID c))) d4) as (d5 & r5 & H5).
  eapply sent_answered; [done|done|exact H5|]. intros m5. tx_step. tx_step. tx_step. by apply runs_Commit_ok.
Qed.

Lemma RevokeAccount_answered L userID extra s :
  let t := others L (sent s) (tables s) in
  (∀ i, outcomeOf L i = Answered) → map_Forall (λ id c, CR.ID c = id) (credentials t) → TrimSpace userID ≠ "" →
  sendable (TrimSpace userID) extra t → runs (RevokeAccount L userID extra) s (λ _ answer, is_ok answer = true).
Proof.
  intros t HL Hkey Hne Hsend. unfold RevokeAccount, queryTx. rewrite bool_decide_eq_false_2 by done. revert Hsend.
  generalize (TrimSpace userID). clear Hne userID. intros userID Hsend.
  destruct (sendable_texts userID extra t Hkey Hsend) as (Hu & Hids & Hplaces).
  unfold runs, transaction. rewrite HL. fold t.
  match goal with |- context [let '(x, a) := ?body (mkTx t t false ?n) in _] =>
    assert (runs body (mkTx t t false n) (λ _ answer, is_ok answer = true)) as Hb end.
  2: { unfold runs in Hb. match goal with |- context [let '(x, a) := ?c in _] => by destruct c end. }
  tx_step. tx_step. eapply sent_answered; [done|done|reflexivity|]. fold (accountCredentials userID t). intros m.
  cbn beta iota zeta. tx_step. unfold accountPlaces in Hplaces.
  pose proof (deletions_answered L userID (accountCredentials userID t)) as Hbody. unfold deletions in Hbody.
  destruct (0 <? Z.of_nat (length (accountCredentials userID t))) eqn:Hlen.
  - tx_step. tx_step. eapply sent_answered; [done|done|reflexivity|]. intros m1. cbn beta iota. tx_step. by apply Hbody.
  - tx_step. by apply Hbody.
Qed.

(** C18: the revocation of an account in the production store.  Whatever
    other servers did and whatever becomes of its statements, afterwards
    either nothing has changed and an error was reported, or the tables are
    exactly what a revocation leaves: every session but those of the account,
    every handoff but those of the account's credentials or for an
    installation of the account, every pending authorization but those for
    such an installation, and of the credentials of other accounts those a
    session or handoff still uses.  When every statement is answered, and the
    identifiers are text the database can hold, the revocation succeeds. *)
Theorem postgres_account_revocation_atomic (L : Link db) (ops : list op) userID extra :
  replicas exec (λ _, True) L → TrimSpace userID ≠ "" →
  let s := foldl (exec L) (mkSession emptyDb 0) ops in
  let t := others L (sent s) (tables s) in
  let '(s', answer) := RevokeAccount L userID extra s in
  ((tables s' = t ∧ is_ok answer = false) ∨ revoked (TrimSpace userID) extra t (tables s')) ∧
  ((∀ i, outcomeOf L i = Answered) → sendable (TrimSpace userID) extra t →
     is_ok answer = true ∧ revoked (TrimSpace userID) extra t (tables s')).
Proof.
  intros HL Hne s t.
  assert (map_Forall (λ id c, CR.ID c = id) (credentials t)) as Hkey.
  { apply wf_keyed. apply (replicas_rely exec (λ _, True)); [|done|by apply reached_wf].
    intros outcomes s' o _ Hs'. apply exec_preserves; [done|apply wf_respected|done]. }
  pose proof (RevokeAccount_runs L userID extra s Hkey Hne) as H1. unfold runs in H1. fold t in H1.
  pose proof (λ HL, RevokeAccount_answered L userID extra s HL Hkey Hne) as H2. unfold runs in H2. fold t in H2.
  destruct (RevokeAccount L userID extra s) as [s' answer]. split; [done|]. intros Hans Hsend. specialize (H2 Hans Hsend).
  split; [done|]. destruct H1 as [[_ Hno]|]; [congruence|done].
Qed.

End Proofs.

(** ** Examples *)

#[local] Existing Instance reference_runtime.
#[local] Existing Instance bytewise.
#[local] Existing Instance toy_sha256.

Definition quiet : Link db := alone (λ _, Answered).
Abbreviation toy_exec := (exec (Some toy_aead) quiet).

Lemma others_quiet i d : others quiet i d = d.
Proof. done. Qed.

Lemma replicas_quiet assumed : replicas (exec (Some toy_aead)) assumed quiet.
Proof. intros i d. exists (λ _, Answered), []. by split; [constructor|]. Qed.

Definition credentialOf (id user : string) : C.t :=
  C.mk id "client" user "login" ["chat:read"] "access-token" "refresh-token" 100 200 300.

Definition handoffOf (id installationID : string) : H.t :=
  H.mk id installationID (HashSecret "secret") "app://callback" (HashSecret "state") 1000 (2 * Hour).

Definition issue (id user installationID code : string) : op :=
  OpPutCredentialAndHandoff (λ _, zero_rand) 1000 (credentialOf id user) code (handoffOf id installationID).

(** Two accounts with a login code each. *)
Definition twoLogins : list op := [issue "c1" "alice" "phone" "code1"; issue "c2" "bob" "tablet" "code2"].

(** The first one has exchanged its code and signed in. *)
Definition signedIn : list op :=
  twoLogins ++ [OpConsumeHandoff 2000 "code1" "phone" "secret" "state"; OpCreateSession zero_rand 3000 "c1" "phone" "secret" Hour].

Abbreviation after ops := (foldl toy_exec (mkSession emptyDb 0) ops).

Lemma postgres_auth_invariant_witness :
  mlen (sessions (tables (after signedIn))) = 1 ∧
  map_Forall (λ _ s, is_Some (credentials (tables (after signedIn)) !! S.CredentialID s)) (sessions (tables (after signedIn))).
Proof.
  split; [by vm_compute|]. apply (postgres_auth_invariant (Some toy_aead) quiet signedIn (replicas_quiet _)).
Defined.

Definition exchangedOnce : session db * result H.t := ConsumeHandoff quiet 2000 "code1" "phone" "secret" "state" (after twoLogins).

Lemma postgres_handoff_once_witness :
  exchangedOnce.2 = Ok (handoffOf "c1" "phone") ∧
  is_ok (ConsumeHandoff quiet 4000 "code1" "phone" "secret" "state"
    (foldl toy_exec exchangedOnce.1 [OpCreateSession zero_rand 3000 "c1" "phone" "secret" Hour])).2 = false.
Proof.
  assert (exchangedOnce = (exchangedOnce.1, Ok (handoffOf "c1" "phone"))) as Hexchanged by by vm_compute.
  split; [by rewrite Hexchanged|].
  apply (postgres_handoff_once (Some toy_aead) quiet (after twoLogins) exchangedOnce.1 2000 "code1" "phone" "secret" "state"
    (handoffOf "c1" "phone") [OpCreateSession zero_rand 3000 "c1" "phone" "secret" Hour] 4000 "phone" "secret" "state"
    (replicas_quiet _) Hexchanged).
  by repeat constructor; intros ?.
Defined.

Definition token : string := match RandomToken zero_rand "fsv1_" 32 with Ok token => token | Err _ => "" end.

Lemma postgres_session_not_taken_over_witness :
  is_Some (sessions (tables (after signedIn)) !! HashSecret token) ∧
  is_ok (CreateSession quiet zero_rand 4000 "c2" "phone" "stolen" Hour (after signedIn)).2 = false.
Proof.
  split; [by vm_compute; eexists|].
  pose proof (postgres_session_not_taken_over (Some toy_aead) quiet signedIn zero_rand 4000 "c2" "phone" "stolen" Hour
    (HashSecret token) (S.mk "c1" "phone" (HashSecret "secret") 3000 (3000 + Hour)) (replicas_quiet _)) as H. cbv zeta in H.
  destruct (CreateSession quiet zero_rand 4000 "c2" "phone" "stolen" Hour (after signedIn)) as [s answer]. cbn [snd].
  destruct H as [_ H]; [by vm_compute|done|by vm_compute|by vm_compute|done].
Defined.

Lemma postgres_account_revocation_atomic_witness :
  (RevokeAccount quiet " alice " [] (after signedIn)).2 = Ok (1, 1) ∧
  revoked (TrimSpace " alice ") [] (tables (after signedIn)) (tables (RevokeAccount quiet " alice " [] (after signedIn)).1).
Proof.
  split; [by vm_compute|].
  pose proof (postgres_account_revocation_atomic (Some toy_aead) quiet signedIn " alice " [] (replicas_quiet _)) as H. cbv zeta in H.
  rewrite others_quiet in H.
  assert (is_ok (RevokeAccount quiet " alice " [] (after signedIn)).2 = true) as Hok by by vm_compute.
  destruct (RevokeAccount quiet " alice " [] (after signedIn)) as [s answer]. cbn [fst snd] in *.
  assert (TrimSpace " alice " ≠ "") as Hne by by vm_compute.
  destruct (H Hne) as [[[_ Hno]|Hr] _]; [rewrite Hok in Hno; discriminate Hno|exact Hr].
Defined.

(** Between the exchange of a login code and the creation of its session the
    credential is used by neither, and the sign-in of any other device
    deletes it: the first sign-in then fails although its code is spent. *)
Example sign_in_race :
  let exchanged := after (twoLogins ++
    [OpConsumeHandoff 2000 "code1" "phone" "secret" "state"; OpConsumeHandoff 2000 "code2" "tablet" "secret" "state"]) in
  let other := CreateSession quiet zero_rand 3000 "c2" "tablet" "secret" Hour exchanged in
  is_ok (CreateSession quiet zero_rand 3000 "c1" "phone" "secret" Hour exchanged).2 = true ∧
  is_ok other.2 = true ∧
  (CreateSession quiet zero_rand 3001 "c1" "phone" "secret" Hour other.1).2 = Err ErrAuthNotFound.
Proof. by vm_compute. Qed.
End PgAuthProofs.
