(* ===== verification/EventSub.v ===== *)
(** * EventSub routing: [internal/application/eventsub.go]

    The verification of webhook messages and the translation of a Twitch
    event into the notification of one registration: which channel it is
    about, which rule it falls under, and whether the registration wants it.
    A function that reads the clock takes [clock], indexed by the call. *)

From stdpp Require Import pretty.
From Stdlib Require Import SpecFloat.
From S2P Require Import Prelude GoStrings Credentials Domain.
#[local] Open Scope Z_scope.
#[local] Open Scope go_scope.

Module EventSub.
Module N := Notification.
Module R := Registration.

(** ** JSON accessors *)

Abbreviation object := (gmap string json).

Definition stringValue (value : object) (key : string) : string :=
  match value !! key with
  | Some (JString raw) => TrimSpace raw
  | _ => ""
  end.

Definition nestedString (value : object) (outer inner : string) : string :=
  match value !! outer with
  | Some (JObject nested) => stringValue nested inner
  | _ => ""
  end.

Definition boolValue (value : object) (key : string) : bool :=
  match value !! key with
  | Some (JBool result) => result
  | _ => false
  end.

(** [fmt.Sprintf("%.0f", f)]: the nearest integer, ties to even. *)
Definition roundHalfEven (m : Z) (d : Z) : Z :=
  let q := m / d in
  let r := m mod d in
  if 2 * r <? d then q else
  if d <? 2 * r then q + 1 else
  if Z.even q then q else q + 1.

Definition formatFloat0 (f : spec_float) : string :=
  match f with
  | S754_nan => "NaN"
  | S754_infinity true => "-Inf"
  | S754_infinity false => "+Inf"
  | S754_zero true => "-0"
  | S754_zero false => "0"
  | S754_finite sign m e =>
      let magnitude := if 0 <=? e then Zpos m * 2 ^ e else roundHalfEven (Zpos m) (2 ^ (- e)) in
      (if sign then "-" else "") +:+ pretty (Z.to_N magnitude)
  end.

(** [None] is a missing key. *)
Definition numberString (value : option json) : string :=
  match value with
  | Some (JNumber current) => formatFloat0 current
  | Some (JString current) => current
  | _ => "0"
  end.

Fixpoint firstNonBlank (values : list string) : string :=
  match values with
  | [] => ""
  | value :: values =>
      let value := TrimSpace value in
      if value != "" then value else firstNonBlank values
  end.

Definition nonBlank (values : list string) : list string :=
  omap (λ value, let value := TrimSpace value in if value != "" then Some value else None) values.

Definition boundedEventSubMessageID (value : string) : string :=
  let maximum := 256 in
  let value := TrimSpace value in
  if len value <=? maximum then value else take_str 256 value.

Definition containsString (values : list string) (target : string) : bool :=
  existsb (λ value, value == target) values.

(** ** Rules *)

Definition ruleEnabled (registration : R.t) (rule : string) : bool :=
  (Z.of_nat (length (R.NotificationRules registration)) =? 0) ||
  containsString (R.NotificationRules registration) rule.

Definition ruleConfiguredForChannel (registration : R.t) (rule channelID : string) : bool :=
  let channelID := TrimSpace channelID in
  match (if channelID != "" then R.NotificationChannelRules registration !! channelID else None) with
  | Some rules => containsString rules rule
  | None => ruleEnabled registration rule
  end.

(** A missing entry of the mute map is [0]. *)
Definition mutedUntil (registration : R.t) (channelID : string) : Z :=
  default 0 (R.NotificationChannelMutedUntilEpochMillis registration !! channelID).

Definition ruleEnabledForChannel (now : time) (registration : R.t) (rule channelID : string) : bool :=
  let channelID := TrimSpace channelID in
  if (channelID != "") && (UnixMilli now <? mutedUntil registration channelID) then false
  else ruleConfiguredForChannel registration rule channelID.

Section Routing.
Context {uni : Unicode}.

(** ** Mentions and phrases *)

Definition byteAt (s : string) (i : nat) : option ascii := String.get i s.

Definition isTwitchLoginCharacter (value : ascii) : bool :=
  let v := Z.of_N (N_of_ascii value) in
  (v =? 95) || ((97 <=? v) && (v <=? 122)) || ((48 <=? v) && (v <=? 57)).

(** Whether a login may not continue at [end_]. *)
Definition mentionEnds (lowerText : string) (end_ : nat) : bool :=
  match byteAt lowerText end_ with
  | None => true
  | Some c => negb (isTwitchLoginCharacter c)
  end.

(** The scanning loop from [offset]; each turn moves past a non-empty needle,
    so [len(lowerText)] turns are enough. *)
Fixpoint mentionLoop (fuel : nat) (lowerText needle : string) (offset : nat) : bool :=
  match fuel with
  | O => false
  | S fuel =>
      if (String.length lowerText <=? offset)%nat then false else
      match Index (drop_str offset lowerText) needle with
      | None => false
      | Some index =>
          let end_ := (offset + index + String.length needle)%nat in
          if mentionEnds lowerText end_ then true else mentionLoop fuel lowerText needle end_
      end
  end.

Definition containsMention (text login : string) : bool :=
  let login := TrimSpace login in
  if login == "" then false else
  let lowerText := ToLower text in
  let needle := "@" +:+ ToLower login in
  mentionLoop (S (String.length lowerText)) lowerText needle 0.

Fixpoint containsAnyPhrase_loop (lower : string) (phrases : list string) : bool :=
  match phrases with
  | [] => false
  | phrase :: phrases =>
      let phrase := TrimSpace phrase in
      if (phrase != "") && Contains lower (ToLower phrase) then true
      else containsAnyPhrase_loop lower phrases
  end.

Definition containsAnyPhrase (text : string) (phrases : list string) : bool :=
  let lower := ToLower text in containsAnyPhrase_loop lower phrases.

Definition containsFold (values : list string) (target : string) : bool :=
  existsb (λ value, EqualFold (TrimSpace value) (TrimSpace target)) values.

(** ** Notifications *)

Definition chatMessageNotification (clock : nat → time) (base : N.t) (event : object)
    (registration : R.t) : option N.t :=
  let text := nestedString event "message" "text" in
  if text == "" then None else
  let authorID := stringValue event "chatter_user_id" in
  let authorLogin := stringValue event "chatter_user_login" in
  let authorName := firstNonBlank [stringValue event "chatter_user_name"; authorLogin] in
  let base := base <| N.ActorID := authorID |> <| N.ActorLogin := authorLogin |>
                   <| N.ActorDisplayName := authorName |> in
  if (R.UserID registration != "") && (authorID == R.UserID registration) then None else
  let base := base <| N.MessageID := stringValue event "message_id" |> <| N.Body := text |> in
  let parentUserID := nestedString event "reply" "parent_user_id" in
  let parentUserLogin := nestedString event "reply" "parent_user_login" in
  let enabled := λ i rule, ruleEnabledForChannel (clock i) registration rule (N.ChannelID base) in
  if enabled 0%nat "reply" && (R.UserID registration != "") &&
     (parentUserID == R.UserID registration) then
    Some (base <| N.Type_ := "reply" |> <| N.Title := "Ответ от " +:+ authorName |>
               <| N.Destination := "mentions" |>)
  else if enabled 1%nat "reply" && (R.UserLogin registration != "") &&
          EqualFold parentUserLogin (R.UserLogin registration) then
    Some (base <| N.Type_ := "reply" |> <| N.Title := "Ответ от " +:+ authorName |>
               <| N.Destination := "mentions" |>)
  else if enabled 2%nat "mention" && containsMention text (R.UserLogin registration) then
    Some (base <| N.Type_ := "mention" |> <| N.Title := "Упоминание от " +:+ authorName |>
               <| N.Destination := "mentions" |>)
  else if enabled 3%nat "selected_user" &&
          containsFold (R.SelectedUserLogins registration) authorLogin then
    Some (base <| N.Type_ := "selected_user" |> <| N.Title := "Сообщение от " +:+ authorName |>
               <| N.Destination := "mentions" |>)
  else if enabled 4%nat "highlight" &&
          containsAnyPhrase text (R.HighlightPhrases registration) then
    Some (base <| N.Type_ := "highlight" |> <| N.Title := "Highlight: " +:+ authorName |>
               <| N.Destination := "mentions" |>)
  else None.

(** [None] is the result [false]. *)
Definition eventNotificationForRegistration (clock : nat → time) (eventID subscriptionType : string)
    (event : object) (registration : R.t) : option N.t :=
  let channelID := firstNonBlank [stringValue event "broadcaster_user_id";
                                  stringValue event "to_broadcaster_user_id"] in
  if (channelID != "") && negb (containsString (R.ChannelIDs registration) channelID) then None else
  let channelLogin := firstNonBlank [stringValue event "broadcaster_user_login";
                                     stringValue event "to_broadcaster_user_login"] in
  let channelName := firstNonBlank [stringValue event "broadcaster_user_name";
                                    stringValue event "to_broadcaster_user_name"; channelLogin] in
  let base := N.zero <| N.EventID := eventID |> <| N.ChannelID := channelID |>
                     <| N.ChannelLogin := channelLogin |>
                     <| N.CreatedAtEpochMillis := UnixMilli (clock 0%nat) |> in
  let enabled := λ i rule, ruleEnabledForChannel (clock i) registration rule channelID in
  if subscriptionType == "channel.chat.message" then
    chatMessageNotification (λ i, clock (S i)) base event registration
  else if subscriptionType == "automod.message.hold" then
    if negb (enabled 1%nat "automod_hold") then None else
    let base := base
      <| N.Type_ := "automod_hold" |>
      <| N.Title := "AutoMod: " +:+ firstNonBlank [stringValue event "user_name"; stringValue event "user_login"] |>
      <| N.Body := nestedString event "message" "text" |>
      <| N.MessageID := stringValue event "message_id" |>
      <| N.Destination := "moderation" |> in
    if N.Body base != "" then Some base else None
  else if subscriptionType == "channel.ban" then
    let typeName := if negb (boolValue event "is_permanent") || (stringValue event "ends_at" != "")
                    then "timeout" else "ban" in
    if negb (enabled 1%nat typeName) then None else
    Some (base
      <| N.Type_ := typeName |>
      <| N.Title := (if typeName == "ban" then "Блокировка" else "Timeout") +:+ " в #" +:+ channelName |>
      <| N.Body := firstNonBlank [stringValue event "user_name"; stringValue event "user_login"] |>
      <| N.Destination := "moderation" |>)
  else if subscriptionType == "channel.moderate" then
    if negb (enabled 1%nat "moderation_action") then None else
    Some (base
      <| N.Type_ := "moderation_action" |>
      <| N.Title := "Действие модерации в #" +:+ channelName |>
      <| N.Body := firstNonBlank [stringValue event "action"; "Изменение модерации"] |>
      <| N.Destination := "moderation" |>)
  else if subscriptionType == "stream.online" then
    if negb (enabled 1%nat "stream_online") then None else
    Some (base
      <| N.Type_ := "stream_online" |>
      <| N.Title := channelName +:+ " начал трансляцию" |>
      <| N.Body := "Канал сейчас онлайн" |>)
  else if subscriptionType == "channel.update" then
    let titleChanged := boolValue event "_ferventio_title_changed" in
    let gameChanged := boolValue event "_ferventio_game_changed" in
    let canTitle := titleChanged && enabled 1%nat "title_change" in
    let canGame := gameChanged && enabled 2%nat "game_change" in
    if negb canTitle && negb canGame then None else
    let title := stringValue event "title" in
    let category := stringValue event "category_name" in
    let base :=
      if canTitle && canGame then
        base <| N.Type_ := "title_change" |>
             <| N.Title := "Title и game изменены: " +:+ channelName |>
             <| N.Body := TrimSpace (Join (nonBlank [title; category]) " · ") |>
      else if canTitle then
        base <| N.Type_ := "title_change" |> <| N.Title := "Новый title: " +:+ channelName |>
             <| N.Body := title |>
      else if canGame then
        base <| N.Type_ := "game_change" |> <| N.Title := "Новая категория: " +:+ channelName |>
             <| N.Body := category |>
      else base in
    if N.Body base != "" then Some base else None
  else if subscriptionType == "channel.raid" then
    if negb (enabled 1%nat "raid") then None else
    Some (base
      <| N.Type_ := "raid" |>
      <| N.Title := "Raid на " +:+ channelName |>
      <| N.Body := firstNonBlank [stringValue event "from_broadcaster_user_name";
                                  stringValue event "from_broadcaster_user_login"]
                   +:+ " · зрителей: " +:+ numberString (event !! "viewers") |>)
  else if subscriptionType == "channel.channel_points_custom_reward_redemption.add" then
    if negb (enabled 1%nat "reward") then None else
    Some (base
      <| N.Type_ := "reward" |>
      <| N.Title := "Награда в #" +:+ channelName |>
      <| N.Body := firstNonBlank [nestedString event "reward" "title"; stringValue event "user_input";
                                  "Использована награда канала"] |>)
  else if containsString ["channel.subscribe"; "channel.subscription.message";
                          "channel.subscription.gift"; "channel.chat.notification"] subscriptionType then
    if negb (enabled 1%nat "subscription") then None else
    Some (base
      <| N.Type_ := "subscription" |>
      <| N.Title := "Подписка в #" +:+ channelName |>
      <| N.Body := firstNonBlank [stringValue event "user_name"; stringValue event "user_login";
                                  nestedString event "message" "text"; "Новое событие подписки"] |>)
  else None.
End Routing.

(** ** Webhook verification *)

Definition eventSubReplayWindow : duration := 10 * Minute.

Definition validateEventSubVerificationHeaders (messageID rawTimestamp signature : string)
    : option error :=
  if (messageID == "") || (rawTimestamp == "") || (signature == "")
  then Some (ErrMsg "missing EventSub verification headers") else
  if (128 <? len messageID) || (64 <? len rawTimestamp) ||
     negb (len signature =? len "sha256=" + 32 * 2)
  then Some (ErrMsg "invalid EventSub verification header length") else
  if negb (HasPrefix signature "sha256=") then Some (ErrMsg "invalid EventSub signature format") else
  None.

(** One hexadecimal digit, either case. *)
Definition hexDigit (c : ascii) : option Z :=
  let v := Z.of_N (N_of_ascii c) in
  if (48 <=? v) && (v <=? 57) then Some (v - 48) else
  if (97 <=? v) && (v <=? 102) then Some (v - 87) else
  if (65 <=? v) && (v <=? 70) then Some (v - 55) else None.

(** [hex.DecodeString]. *)
Fixpoint hexDecode (s : string) : option string :=
  match s with
  | "" => Some ""
  | String a (String b s) =>
      x ← hexDigit a; y ← hexDigit b; rest ← hexDecode s;
      Some (String (Base64.Zbyte (16 * x + y)) rest)
  | String _ "" => None
  end.

(** [parseTime] is [time.Parse(time.RFC3339Nano, _)] and [hmac] HMAC-SHA256
    of a message under a key. *)
Definition verifyEventSubMessage (parseTime : string → option time) (hmac : string → string → string)
    (secret messageID rawTimestamp signature body : string) (now : time) : option error :=
  if (messageID == "") || (rawTimestamp == "") || negb (HasPrefix signature "sha256=")
  then Some (ErrMsg "missing EventSub verification headers") else
  match parseTime rawTimestamp with
  | None => Some (ErrMsg "invalid EventSub timestamp")
  | Some timestamp =>
      let delta := Sub now timestamp in
      if (eventSubReplayWindow <? delta) || (delta <? - eventSubReplayWindow)
      then Some (ErrMsg "EventSub timestamp is outside replay window") else
      let expected := hmac secret (messageID +:+ rawTimestamp +:+ body) in
      match hexDecode (TrimPrefix signature "sha256=") with
      | None => Some (ErrMsg "EventSub signature mismatch")
      | Some provided =>
          if ConstantTimeCompare expected provided then None
          else Some (ErrMsg "EventSub signature mismatch")
      end
  end.

End EventSub.
