(* ===== verification/EventSubProofs.v ===== *)
(** * EventSub routing: theorems

    The mention scanner finds exactly the mentions, a notification is only
    produced when the registration's channels, rules and mutes allow it, and
    a webhook message is accepted exactly when it is fresh and signed. *)

From S2P Require Import Prelude GoStrings Credentials Domain EventSub.

Module EventSubProofs.
Import EventSub.

(** ** Positions in a string *)

Lemma get_drop_str i j s : String.get j (drop_str i s) = String.get (i + j) s.
Proof.
  revert s. induction i as [|i IH]; intros [|c s]; try done.
  change (drop_str (S i) (String c s)) with (drop_str i s). apply IH.
Qed.

Lemma get_app_l p t j : (j < String.length p)%nat → String.get j (p +:+ t) = String.get j p.
Proof.
  revert j. induction p as [|c p IH]; intros j Hj; simpl in Hj; [lia|].
  rewrite app_str_cons. destruct j; [done|]. simpl. apply IH. lia.
Qed.

Lemma prefix_get p s j :
  String.prefix p s = true → (j < String.length p)%nat → String.get j s = String.get j p.
Proof. intros [t ->]%prefix_spec. apply get_app_l. Qed.

Lemma prefix_length_le p s : String.prefix p s = true → (String.length p ≤ String.length s)%nat.
Proof. intros [t ->]%prefix_spec. rewrite length_app_str. lia. Qed.

Lemma app_str_inj p s t : p +:+ s = p +:+ t → s = t.
Proof. induction p as [|c p IH]; [done|]. rewrite !app_str_cons. intros [= H]. by apply IH. Qed.

(** ** Mentions *)

Section Mentions.
Context (text login : string).

Definition needle : string := "@" +:+ login.

(** The needle occurs at [i]. *)
Definition occurs (i : nat) : Prop := String.prefix needle (drop_str i text) = true.

Lemma needle_length : String.length needle = S (String.length login).
Proof. unfold needle. by rewrite length_app_str. Qed.

Lemma needle_get j : String.get (S j) needle = String.get j login.
Proof. done. Qed.

Lemma occurs_get i j :
  occurs i → (j ≤ String.length login)%nat → String.get (i + j) text = String.get j needle.
Proof.
  intros Ho Hj. rewrite <-get_drop_str. apply prefix_get; [done|]. rewrite needle_length. lia.
Qed.

Lemma occurs_lt i : occurs i → (i + String.length login < String.length text)%nat.
Proof.
  intros Ho%prefix_length_le. rewrite needle_length, length_drop_str in Ho. lia.
Qed.

(** A needle contains its ['@'] only once, so occurrences do not overlap. *)
Lemma occurs_apart i i' :
  (∀ j, String.get j login ≠ Some "@"%char) → occurs i → occurs i' → (i < i')%nat →
  (i + S (String.length login) ≤ i')%nat.
Proof.
  intros Hat Hi Hi' Hlt. destruct (decide (i + S (String.length login) ≤ i')%nat); [done|].
  pose proof (occurs_get i' 0 Hi' ltac:(lia)) as H1.
  pose proof (occurs_get i (i' - i) Hi ltac:(lia)) as H2.
  replace (i + (i' - i))%nat with (i' + 0)%nat in H2 by lia. rewrite H1 in H2.
  replace (i' - i)%nat with (S (i' - i - 1)) in H2 by lia. rewrite needle_get in H2.
  by destruct (Hat (i' - i - 1)%nat).
Qed.

Lemma mentionLoop_spec fuel offset :
  (∀ j, String.get j login ≠ Some "@"%char) →
  (String.length text < fuel + offset)%nat →
  mentionLoop fuel text needle offset = true ↔
  ∃ i, (offset ≤ i)%nat ∧ occurs i ∧ mentionEnds text (i + String.length needle) = true.
Proof.
  intros Hat. revert offset. induction fuel as [|fuel IH]; intros offset Hfuel; cbn [mentionLoop].
  { split; [done|]. intros (i & Hi & Ho%occurs_lt & _). lia. }
  destruct (Nat.leb_spec (String.length text) offset).
  { split; [done|]. intros (i & Hi & Ho%occurs_lt & _). lia. }
  destruct (Index (drop_str offset text) needle) as [index|] eqn:Hidx.
  - apply Index_Some in Hidx as (Hp & _ & Hmin). rewrite drop_str_drop in Hp.
    destruct (mentionEnds text (offset + index + String.length needle)) eqn:Hend.
    + split; [|done]. intros _. exists (offset + index)%nat. split_and!; [lia|exact Hp|done].
    + rewrite IH by (rewrite needle_length; lia). split.
      * intros (i & Hi & Ho & He). exists i. split_and!; [rewrite needle_length in *; lia|done..].
      * intros (i & Hi & Ho & He). exists i. split_and!; [|done..].
        destruct (decide (i < offset + index)%nat) as [Hlt|Hge].
        { specialize (Hmin (i - offset)%nat ltac:(lia)). rewrite drop_str_drop in Hmin.
          replace (offset + (i - offset))%nat with i in Hmin by lia. unfold occurs in Ho. congruence. }
        destruct (decide (i = offset + index)%nat) as [->|Hne]; [congruence|].
        pose proof (occurs_apart (offset + index) i Hat Hp Ho ltac:(lia)). rewrite needle_length. lia.
  - split; [done|]. intros (i & Hi & Ho & _). pose proof (occurs_lt i Ho).
    pose proof (Index_None _ _ Hidx (i - offset)%nat) as Hno. rewrite length_drop_str in Hno.
    rewrite drop_str_drop in Hno. replace (offset + (i - offset))%nat with i in Hno by lia.
    unfold occurs in Ho. rewrite Hno in Ho by lia. done.
Qed.
End Mentions.

(** Mentions.  For a login without an ['@'], [containsMention] is true
    exactly when ["@login"] occurs in the lower-cased text at a place where
    the login ends, that is before a byte that cannot continue it or at the
    end; so ["@bobby"] is not a mention of ["bob"], and no mention is missed
    after such a false start. *)
Theorem mention_found_iff_present {uni : Unicode} text login :
  TrimSpace login ≠ "" →
  (∀ j, String.get j (ToLower (TrimSpace login)) ≠ Some "@"%char) →
  let target := "@" +:+ ToLower (TrimSpace login) in
  containsMention text login = true ↔
  ∃ i, String.prefix target (drop_str i (ToLower text)) = true ∧
       mentionEnds (ToLower text) (i + String.length target) = true.
Proof.
  intros Hne Hat target. unfold containsMention. rewrite bool_decide_false by done.
  change target with (needle (ToLower (TrimSpace login))).
  rewrite (mentionLoop_spec (ToLower text)); [|done|lia]. split.
  - intros (i & _ & Ho & He). eauto.
  - intros (i & Ho & He). exists i. split; [lia|]. split; done.
Qed.

Lemma mention_found_iff_present_witness :
  containsMention (uni:=ascii_unicode) "hey @Bobby and @BOB!" " bob " = true.
Proof.
  apply (mention_found_iff_present (uni:=ascii_unicode) "hey @Bobby and @BOB!" " bob ").
  - vm_compute. discriminate.
  - intros [|[|[|j]]]; vm_compute; discriminate.
  - exists 15%nat. split; vm_compute; reflexivity.
Defined.

(** ** Gating *)

Lemma firstNonBlank_trimmed l : TrimSpace (firstNonBlank l) = firstNonBlank l.
Proof.
  induction l as [|x l IH]; [done|]. simpl.
  destruct (bool_decide_reflect (TrimSpace x = "")); simpl; [done|]. apply TrimSpace_idemp.
Qed.

(** What the settings of a registration say of a rule on a channel. *)
Definition rule_on (registration : R.t) (rule channelID : string) : Prop :=
  match (if channelID != "" then R.NotificationChannelRules registration !! channelID else None) with
  | Some rules => rule ∈ rules
  | None => R.NotificationRules registration = [] ∨ rule ∈ R.NotificationRules registration
  end.

Lemma containsString_spec l x : containsString l x = true ↔ x ∈ l.
Proof.
  unfold containsString. rewrite existsb_exists. split.
  - intros (y & Hy & ->%bool_decide_eq_true). by apply list_elem_of_In.
  - intros Hx. exists x. rewrite bool_decide_true by done. split; [by apply list_elem_of_In|done].
Qed.

(** The rule is on and the channel is not muted at [now]. *)
Lemma ruleEnabledForChannel_spec now registration rule channelID :
  TrimSpace channelID = channelID →
  ruleEnabledForChannel now registration rule channelID = true ↔
  rule_on registration rule channelID ∧
  (channelID ≠ "" → mutedUntil registration channelID ≤ UnixMilli now).
Proof.
  intros Ht. unfold ruleEnabledForChannel, ruleConfiguredForChannel, rule_on, ruleEnabled.
  rewrite !Ht. destruct (bool_decide_reflect (channelID = "")) as [->|Hne]; simpl.
  - rewrite orb_true_iff, containsString_spec, Z.eqb_eq. split.
    + intros H. split; [|done]. destruct H as [H|H]; [left|by right].
      apply nil_length_inv. lia.
    + intros [[->|?] _]; [by left|by right].
  - destruct (Z.ltb_spec (UnixMilli now) (mutedUntil registration channelID)) as [Hm|Hm].
    { split; [done|]. intros [_ H]. specialize (H Hne). lia. }
    destruct (R.NotificationChannelRules registration !! channelID) as [rules|].
    { rewrite containsString_spec. tauto. }
    rewrite orb_true_iff, containsString_spec, Z.eqb_eq. split.
    + intros H. split; [|done]. destruct H as [H|H]; [left; apply nil_length_inv; lia|by right].
    + intros [[->|?] _]; [by left|by right].
Qed.

(** What every notification satisfies. *)
Definition allowed (clock : nat → time) (registration : R.t) (eventID channelID : string) (n : N.t) : Prop :=
  N.EventID n = eventID ∧ N.ChannelID n = channelID ∧
  ∃ i, ruleEnabledForChannel (clock i) registration (N.Type_ n) channelID = true.

Section Gate.
Context {uni : Unicode}.

Lemma chat_allowed clock base event registration n :
  chatMessageNotification clock base event registration = Some n →
  allowed clock registration (N.EventID base) (N.ChannelID base) n ∧
  (R.UserID registration ≠ "" → N.ActorID n ≠ R.UserID registration) ∧ N.Body n ≠ "".
Proof.
  unfold chatMessageNotification. case_bool_decide as Htext; [done|].
  destruct (_ && (stringValue event "chatter_user_id" == _)) eqn:Hown; [done|].
  assert (R.UserID registration ≠ "" → stringValue event "chatter_user_id" ≠ R.UserID registration) as Hnot.
  { intros Hne Heq. rewrite Heq, (bool_decide_false _ Hne), bool_decide_true in Hown by done. done. }
  intros H. repeat match type of H with
    | (if ?g then Some _ else _) = Some _ =>
        let Hg := fresh "Hg" in destruct g eqn:Hg;
        [injection H as <-; rewrite !andb_true_iff in Hg; 
         repeat match type of Hg with _ ∧ _ => destruct Hg as [Hg _] end;
         split; [split_and!; [done..|by eexists]|by split]|]
    end.
  done.
Qed.

(** Branches guarded by one rule, with or without a check of the body. *)
Ltac gate_body n H :=
  lazymatch type of H with
  | (if ?b then Some _ else None) = Some _ => destruct b; [|discriminate H]
  | _ => idtac
  end; apply (inj Some) in H; subst n;
  split; [reflexivity|split; [reflexivity|eexists; eassumption]].

Ltac gate n :=
  lazymatch goal with
  | H : (if negb ?g then None else _) = Some _ |- _ =>
      let Hg := fresh "Hg" in
      destruct g eqn:Hg; cbn [negb] in H; [|discriminate H]; gate_body n H
  end.

Lemma notification_allowed clock eventID typ event registration n :
  eventNotificationForRegistration clock eventID typ event registration = Some n →
  let channelID := firstNonBlank [stringValue event "broadcaster_user_id";
                                  stringValue event "to_broadcaster_user_id"] in
  (channelID ≠ "" → channelID ∈ R.ChannelIDs registration) ∧
  allowed clock registration eventID channelID n.
Proof.
  intros H channelID. unfold eventNotificationForRegistration in H. fold channelID in H.
  destruct ((channelID != "") && _) eqn:Hch; [done|]. split.
  { intros Hne. rewrite bool_decide_false in Hch by done. simpl in Hch.
    apply containsString_spec. by apply negb_false_iff in Hch. }
  case_bool_decide.
  { apply chat_allowed in H as [(? & ? & i & ?) _]. split_and!; [done..|]. by exists (S i). }
  case_bool_decide; [gate n|]. case_bool_decide; [gate n|]. case_bool_decide; [gate n|].
  case_bool_decide; [gate n|]. case_bool_decide.
  { destruct (boolValue event "_ferventio_title_changed" && _) eqn:Ht,
      (boolValue event "_ferventio_game_changed" && _) eqn:Hg; cbn [negb andb] in H;
      [apply andb_prop in Ht as [_ Ht]|apply andb_prop in Ht as [_ Ht]|
       apply andb_prop in Hg as [_ Hg]|discriminate H]; gate_body n H. }
  case_bool_decide; [gate n|]. case_bool_decide; [gate n|].
  destruct (containsString _ typ); [|discriminate H]. gate n.
Qed.

(** C36: notifications respect the settings.  A notification is produced only
    for an event whose channel the registration follows, under a rule the
    registration has on for that channel (its own rules for the channel if
    it has any, the general ones otherwise) while the channel is not muted,
    and never for the registration's own chat messages. *)
Theorem notification_respects_settings clock eventID typ event registration n :
  eventNotificationForRegistration clock eventID typ event registration = Some n →
  let channelID := N.ChannelID n in
  N.EventID n = eventID ∧
  (channelID ≠ "" → channelID ∈ R.ChannelIDs registration) ∧
  rule_on registration (N.Type_ n) channelID ∧
  (∃ i, channelID ≠ "" → mutedUntil registration channelID ≤ UnixMilli (clock i)) ∧
  (typ = "channel.chat.message" → R.UserID registration ≠ "" →
     N.ActorID n ≠ R.UserID registration ∧ N.Body n ≠ "").
Proof.
  intros H. pose proof (notification_allowed _ _ _ _ _ _ H) as (Hfollow & He & Hc & i & Hrule).
  intros channelID. subst channelID. rewrite Hc.
  apply ruleEnabledForChannel_spec in Hrule as [Hon Hmute]; [|apply firstNonBlank_trimmed].
  split_and!; [done..|by exists i|]. intros -> Huser.
  unfold eventNotificationForRegistration in H. destruct (_ && _) in H; [done|].
  rewrite bool_decide_true in H by done. apply chat_allowed in H as (_ & Hown & Hbody). auto.
Qed.
End Gate.

Definition example_registration : R.t :=
  R.zero <| R.InstallationID := "phone" |> <| R.UserID := "42" |> <| R.UserLogin := "bob" |>
         <| R.ChannelIDs := ["7"] |> <| R.NotificationRules := ["mention"] |>.

(** A clock that always reads 1,000 seconds after the Unix epoch. *)
Definition example_clock (_ : nat) : time := (unixToInternal + 1000) * Second.

Definition example_event : object :=
  <["broadcaster_user_id" := JString "7"]> (<["chatter_user_id" := JString "99"]>
    (<["chatter_user_login" := JString "alice"]>
      (<["message" := JObject {["text" := JString "hi @Bob"]}]> ∅))).

Lemma notification_respects_settings_witness :
  ∃ n, eventNotificationForRegistration (uni:=ascii_unicode) example_clock "m1" "channel.chat.message"
         example_event example_registration = Some n ∧
       N.Type_ n = "mention" ∧ rule_on example_registration (N.Type_ n) (N.ChannelID n).
Proof.
  eexists. split; [vm_compute; reflexivity|]. split; [reflexivity|].
  eapply (notification_respects_settings (uni:=ascii_unicode) example_clock "m1" "channel.chat.message"
    example_event example_registration). vm_compute. reflexivity.
Defined.

(** ** Webhook verification *)

(** Webhook messages.  [verifyEventSubMessage] accepts a message exactly
    when its headers are present, its timestamp is within ten minutes of the
    clock, and the signature is the HMAC of the message identifier, the
    timestamp and the body under the secret, in hexadecimal. *)
Theorem webhook_accepted_iff_signed parseTime hmac secret messageID rawTimestamp signature body now :
  verifyEventSubMessage parseTime hmac secret messageID rawTimestamp signature body now = None ↔
  messageID ≠ "" ∧ rawTimestamp ≠ "" ∧
  (∃ timestamp, parseTime rawTimestamp = Some timestamp ∧
     - (10 * Minute) ≤ now - timestamp ≤ 10 * Minute) ∧
  (∃ hex, signature = "sha256=" +:+ hex ∧
     hexDecode hex = Some (hmac secret (messageID +:+ rawTimestamp +:+ body))).
Proof.
  unfold verifyEventSubMessage.
  destruct (bool_decide_reflect (messageID = "")) as [|Hm]; simpl; [by split; [done|intros [? _]]|].
  destruct (bool_decide_reflect (rawTimestamp = "")) as [|Ht]; simpl;
    [by split; [done|intros (_ & ? & _)]|].
  destruct (HasPrefix signature "sha256=") eqn:Hs; simpl.
  2: { split; [done|]. intros (_ & _ & _ & hex & -> & _). unfold HasPrefix in Hs.
       by rewrite (proj2 (prefix_spec _ _)) in Hs by eauto. }
  apply prefix_spec in Hs as [hex ->]. rewrite TrimPrefix_app.
  destruct (parseTime rawTimestamp) as [ts|]; [|split; [done|by intros (_ & _ & (? & ? & _) & _)]].
  assert (∀ d, - (10 * Minute) ≤ d ≤ 10 * Minute ↔
    (eventSubReplayWindow <? Z.max min_int64 (Z.min max_int64 d)) ||
    (Z.max min_int64 (Z.min max_int64 d) <? - eventSubReplayWindow) = false) as Hwin.
  { intros d. rewrite orb_false_iff, !Z.ltb_ge.
    unfold eventSubReplayWindow, Minute, Second, min_int64, max_int64. lia. }
  unfold Sub. specialize (Hwin (now - ts)).
  destruct (_ || _).
  { split; [done|]. intros (_ & _ & (ts' & [= <-] & Hd) & _). by apply Hwin in Hd. }
  split.
  - intros H. split_and!; [done..|by exists ts; split; [|apply Hwin]|]. exists hex. split; [done|].
    destruct (hexDecode hex); [|done]. unfold ConstantTimeCompare in H. case_bool_decide; congruence.
  - intros (_ & _ & _ & hex' & Heq & Hdec). apply app_str_inj in Heq as <-. rewrite Hdec.
    unfold ConstantTimeCompare. by rewrite bool_decide_true.
Qed.

End EventSubProofs.
