(* ===== verification/Subscriptions.v ===== *)
(** * EventSub subscriptions: [internal/application/eventsub_subscriptions.go]

    The manager keeps the webhook subscriptions Twitch holds for this
    backend equal to what the registrations want.  It reaches Twitch over
    HTTP: the class [TwitchAPI] is the service, with a state of its own, and
    a request either fails or is answered.  A manager operation changes the
    manager and the service and returns a result, so the operations are
    written in the monad [M] of the prelude; [calls] lists the requests sent, is written
    and never read. *)

From stdpp Require Import pretty.
From S2P Require Import Prelude GoStrings NetIP Config Credentials Domain EventSub.
#[local] Open Scope Z_scope.
#[local] Open Scope go_scope.

Module Subscriptions.
Export Config.
Module R := Registration.

(** ** Data *)

(** [eventSubSubscriptionSpec], its transport flattened. *)
Module Spec.
Record t := mk {
  Type_ : string;
  Version : string;
  Condition : gmap string string;
  Method : string;
  Callback : string;
  Secret : string
}.
#[global] Instance eta_t : Eta t := λ r,
  mk (Type_ r) (Version r) (Condition r) (Method r) (Callback r) (Secret r).
End Spec.

(** [eventSubSubscription], its transport flattened. *)
Module Sub.
Record t := mk {
  ID : string;
  Status : string;
  Type_ : string;
  Version : string;
  Condition : gmap string string;
  Method : string;
  Callback : string
}.
End Sub.

Record eventSubListResponse := mkPage { Data : list Sub.t; Cursor : string }.
Record appTokenResponse := mkAppToken { AccessToken : string; ExpiresIn : Z }.

(** [userChatSubscriptionRequest] ([user_chat_eventsub.go]), its transport
    flattened. *)
Record userChatSubscriptionRequest := mkChatRequest {
  ChatType : string;
  ChatVersion : string;
  ChatCondition : gmap string string;
  ChatMethod : string;
  SessionID : string
}.

(** What is sent: the query stays structured, and a body is the value that
    is marshalled or form-encoded. *)
Inductive content :=
| NoBody
| JSONSpec (spec : Spec.t)
| JSONChat (body : userChatSubscriptionRequest)
| Form (fields : list (string * string)).
Record request := mkRequest {
  Method : string;
  URL : string;
  Query : list (string * string);
  Authorization : string;
  ClientId : string;
  Content : content
}.

(** What comes back: the status, the bytes of the body and the error its
    reading ended with. *)
Record reply := mkReply { StatusCode : Z; Payload : string; ReadError : option error }.

Class TwitchAPI (T : Type) := {
  Do : T → request → T * result reply;
  decodePage : string → result eventSubListResponse;
  decodeAppToken : string → result appTokenResponse
}.

(** [io.ReadAll(io.LimitReader(body, n))]. *)
Definition limited (n : Z) (payload : string) : string :=
  if len payload <=? n then payload else take_str (Z.to_nat n) payload.

(** ** What the registrations want *)

Definition anyRule (registration : R.t) (rules : list string) : bool :=
  existsb (EventSub.ruleEnabled registration) rules.

Definition anyRuleForChannel (registration : R.t) (channelID : string) (rules : list string) : bool :=
  existsb (λ rule, EventSub.ruleConfiguredForChannel registration rule channelID) rules.

Section Desired.
Context {rt : GoRuntime}.

Definition eventSubSpecKey (eventType version : string) (condition : gmap string string) : string :=
  let keys := sortSlice string_lt (rangeMap condition).*1 in
  foldl (λ builder key, builder +:+ "|" +:+ key +:+ "=" +:+ default "" (condition !! key))
    (eventType +:+ "|" +:+ version) keys.

(** The loop of [appendSpec] over its condition: it trims each value, and
    stops at a blank one. *)
Fixpoint trimCondition (entries : list (string * string)) (condition : gmap string string)
    : option (gmap string string) :=
  match entries with
  | [] => Some condition
  | (key, value) :: entries =>
      if TrimSpace value == "" then None
      else trimCondition entries (<[key := TrimSpace value]> condition)
  end.

Definition appendSpec (cfg : Config) (unique : gmap string Spec.t)
    (eventType version : string) (condition : gmap string string) : gmap string Spec.t :=
  match trimCondition (rangeMap condition) condition with
  | None => unique
  | Some condition =>
      let spec := Spec.mk eventType version condition "webhook" (EventSubCallbackURL cfg) (EventSubSecret cfg) in
      <[eventSubSpecKey eventType version condition := spec]> unique
  end.

(** [if guard { appendSpec(...) }]. *)
Definition appendIf (guard : bool) (cfg : Config) (unique : gmap string Spec.t)
    (eventType version : string) (condition : gmap string string) : gmap string Spec.t :=
  if guard then appendSpec cfg unique eventType version condition else unique.

(** The body of the loop over a registration's channels. *)
Definition appendChannel (cfg : Config) (registration : R.t) (unique : gmap string Spec.t)
    (broadcasterID : string) : gmap string Spec.t :=
  let broadcasterID := TrimSpace broadcasterID in
  if broadcasterID == "" then unique else
  let isModerator := EventSub.containsString (R.ModeratorChannelIDs registration) broadcasterID in
  let isBroadcaster := (R.UserID registration != "") && (R.UserID registration == broadcasterID) in
  let configured rule := EventSub.ruleConfiguredForChannel registration rule broadcasterID in
  let both : gmap string string :=
    <["broadcaster_user_id" := broadcasterID]> {["moderator_user_id" := R.UserID registration]} in
  let broadcaster : gmap string string := {["broadcaster_user_id" := broadcasterID]} in
  let unique := appendIf ((R.UserID registration != "") && isModerator && configured "automod_hold")
    cfg unique "automod.message.hold" "2" both in
  let unique := appendIf ((R.UserID registration != "") && isModerator && configured "moderation_action")
    cfg unique "channel.moderate" "2" both in
  let unique := appendIf (isModerator && anyRuleForChannel registration broadcasterID ["ban"; "timeout"])
    cfg unique "channel.ban" "1" broadcaster in
  let unique := appendIf (configured "stream_online")
    cfg unique "stream.online" "1" broadcaster in
  let unique := appendIf (anyRuleForChannel registration broadcasterID ["title_change"; "game_change"])
    cfg unique "channel.update" "2" broadcaster in
  let unique := appendIf (configured "raid")
    cfg unique "channel.raid" "1" {["to_broadcaster_user_id" := broadcasterID]} in
  let unique := appendIf (isBroadcaster && configured "reward")
    cfg unique "channel.channel_points_custom_reward_redemption.add" "1" broadcaster in
  if isBroadcaster && configured "subscription" then
    let unique := appendSpec cfg unique "channel.subscribe" "1" broadcaster in
    let unique := appendSpec cfg unique "channel.subscription.message" "1" broadcaster in
    appendSpec cfg unique "channel.subscription.gift" "1" broadcaster
  else unique.

Definition specKey (spec : Spec.t) : string :=
  eventSubSpecKey (Spec.Type_ spec) (Spec.Version spec) (Spec.Condition spec).
Definition subKey (sub : Sub.t) : string :=
  eventSubSpecKey (Sub.Type_ sub) (Sub.Version sub) (Sub.Condition sub).

Definition uniqueSpecs (cfg : Config) (registrations : list R.t) : gmap string Spec.t :=
  foldl (λ unique registration, foldl (appendChannel cfg registration) unique (R.ChannelIDs registration))
    ∅ registrations.

Definition desiredEventSubSubscriptions (cfg : Config) (registrations : list R.t) : list Spec.t :=
  sortSlice (λ x y, string_lt (specKey x) (specKey y)) (rangeMap (uniqueSpecs cfg registrations)).*2.

End Desired.

(** ** The manager *)

Definition enabled (cfg : Config) : bool :=
  (EventSubSecret cfg != "") && (EventSubCallbackURL cfg != "") &&
  (TwitchClientID cfg != "") && (TwitchClientSecret cfg != "").

(** [readings] counts the readings of the clock. *)
Record manager {T : Type} := mkManager {
  appToken : string;
  tokenUntil : time;
  net : T;
  readings : nat;
  calls : list request
}.
Arguments manager : clear implicits.
Arguments mkManager {T}.
#[global] Instance eta_manager {T} : Eta (manager T) := λ m,
  mkManager (appToken m) (tokenUntil m) (net m) (readings m) (calls m).

(** [newEventSubManager]. *)
Definition newEventSubManager {T} (t : T) : manager T := mkManager "" 0 t 0 [].

(** [errors.Join]. *)
Definition errorsJoin (failures : list error) : option error :=
  match failures with
  | [] => None
  | _ => Some (ErrMsg (Join (Error <$> failures) (String "010"%char "")))
  end.

Section Manager.
Context {rt : GoRuntime} {T : Type} {api : TwitchAPI T} (cfg : Config) (clock : nat → time).
Implicit Types (m : manager T).

Definition Now : M (manager T) time := λ m, (m <| readings := S (readings m) |>, Ok (clock (readings m))).

Definition send (r : request) : M (manager T) reply := λ m,
  let '(t, answer) := Do (net m) r in
  (m <| net := t |> <| calls := r :: calls m |>, answer).

Definition tokenRequest : request :=
  mkRequest "POST" (TrimSuffix (TwitchIDBaseURL cfg) "/" +:+ "/oauth2/token") [] "" ""
    (Form [("client_id", TwitchClientID cfg); ("client_secret", TwitchClientSecret cfg);
           ("grant_type", "client_credentials")]).

Definition setToken (accessToken : string) (until : time) : M (manager T) () := λ m,
  (m <| appToken := accessToken |> <| tokenUntil := until |>, Ok ()).

Definition requestToken : M (manager T) string :=
  let! response := send tokenRequest in
  let payload := limited (Z.shiftl 1 20) (Payload response) in
  if (StatusCode response <? 200) || (299 <? StatusCode response)
  then fail (ErrMsg ("Twitch app token HTTP " +:+ pretty (StatusCode response) +:+ ": " +:+ TrimSpace payload))
  else
    match decodeAppToken payload with
    | Err err => fail err
    | Ok token =>
        if (AccessToken token == "") || (ExpiresIn token <=? 0)
        then fail (ErrMsg "Twitch returned incomplete app token") else
        let! now := Now in
        let! _ := setToken (AccessToken token) (Add now (int64_wrap (ExpiresIn token * Second))) in
        ret (AccessToken token)
    end.

(** The clock is read only when a token is cached. *)
Definition token : M (manager T) string := λ m,
  if appToken m == "" then requestToken m else
  let '(m, now) := Now m in
  match now with
  | Ok now => if Before (Add now Minute) (tokenUntil m) then (m, Ok (appToken m)) else requestToken m
  | Err e => (m, Err e)
  end.

Definition invalidateToken : M (manager T) () := setToken "" 0.

Definition apiRequest (method path : string) (query : list (string * string)) (body : content)
    (token : string) : request :=
  mkRequest method (TrimSuffix (TwitchHelixBaseURL cfg) "/" +:+ path) query ("Bearer " +:+ token)
    (TwitchClientID cfg) body.

Definition do_ (method path : string) (query : list (string * string)) (body : content) : M (manager T) reply :=
  let! tok := token in
  let! response := send (apiRequest method path query body tok) in
  if StatusCode response =? 401 then
    let! _ := invalidateToken in
    let! tok := token in
    send (apiRequest method path query body tok)
  else ret response.

Definition subscriptionsPath : string := "/eventsub/subscriptions".

Definition create (spec : Spec.t) : M (manager T) () :=
  let! response := do_ "POST" subscriptionsPath [] (JSONSpec spec) in
  if (StatusCode response <? 200) || (299 <? StatusCode response)
  then fail (ErrMsg ("create EventSub subscription HTTP " +:+ pretty (StatusCode response) +:+ ": " +:+
                     TrimSpace (limited (Z.shiftl 1 20) (Payload response))))
  else ret ().

(** One turn per page; the context's deadline ends a listing that goes on. *)
Fixpoint listLoop (turns : nat) (cursor : string) (result : list Sub.t) : M (manager T) (list Sub.t) :=
  match turns with
  | O => fail (ErrMsg "context deadline exceeded")
  | S turns =>
      let! response := do_ "GET" subscriptionsPath (if cursor != "" then [("after", cursor)] else []) NoBody in
      match ReadError response with
      | Some readErr => fail readErr
      | None =>
          let payload := limited (Z.shiftl 4 20) (Payload response) in
          if (StatusCode response <? 200) || (299 <? StatusCode response)
          then fail (ErrMsg ("list EventSub subscriptions HTTP " +:+ pretty (StatusCode response) +:+ ": " +:+
                             TrimSpace payload))
          else
            match decodePage payload with
            | Err err => fail err
            | Ok page =>
                let result := result ++ Data page in
                if Cursor page == "" then ret result else listLoop turns (Cursor page) result
            end
      end
  end.

Definition list_ (turns : nat) : M (manager T) (list Sub.t) := listLoop turns "" [].

Definition delete_ (id : string) : M (manager T) () :=
  let! response := do_ "DELETE" subscriptionsPath [("id", id)] NoBody in
  if negb (StatusCode response =? 204) && negb (StatusCode response =? 404)
  then fail (ErrMsg ("delete EventSub subscription HTTP " +:+ pretty (StatusCode response) +:+ ": " +:+
                     TrimSpace (limited (Z.shiftl 1 20) (Payload response))))
  else ret ().

(** ** Reconciliation *)

Record sweep := mkSweep {
  kept : gset string;
  blocked : gset string;
  failures : list error;
  deleted : Z
}.

Definition usable (sub : Sub.t) : bool :=
  (Sub.Status sub == "enabled") || (Sub.Status sub == "webhook_callback_verification_pending").

(** One turn of the loop over the existing subscriptions. *)
Definition sweepOne (desiredByKey : gmap string Spec.t) (st : manager T * sweep) (subscription : Sub.t)
    : manager T * sweep :=
  let '(m, acc) := st in
  if Sub.Callback subscription != EventSubCallbackURL cfg then (m, acc) else
  let key := subKey subscription in
  let wanted := bool_decide (is_Some (desiredByKey !! key)) in
  if wanted && negb (bool_decide (key ∈ kept acc)) && usable subscription
  then (m, mkSweep ({[key]} ∪ kept acc) (blocked acc) (failures acc) (deleted acc)) else
  match delete_ (Sub.ID subscription) m with
  | (m, Err err) =>
      (m, mkSweep (kept acc) ({[key]} ∪ blocked acc)
            (failures acc ++ [ErrMsg ("delete " +:+ key +:+ ": " +:+ Error err)]) (deleted acc))
  | (m, Ok _) => (m, mkSweep (kept acc) (blocked acc) (failures acc) (deleted acc + 1))
  end.

(** One turn of the loop over the wanted subscriptions. *)
Definition createOne (acc : sweep) (st : manager T * (list error * Z)) (entry : string * Spec.t)
    : manager T * (list error * Z) :=
  let '(m, (failed, created)) := st in
  let '(key, spec) := entry in
  if bool_decide (key ∈ kept acc) || bool_decide (key ∈ blocked acc) then st else
  match create spec m with
  | (m, Err err) => (m, (failed ++ [ErrMsg ("create " +:+ key +:+ ": " +:+ Error err)], created))
  | (m, Ok _) => (m, (failed, created + 1))
  end.

Definition indexByKey (desired : list Spec.t) : gmap string Spec.t :=
  foldl (λ acc spec, <[specKey spec := spec]> acc) ∅ desired.

(** The numbers of subscriptions created and deleted, and the error. *)
Definition reconcile (turns : nat) (registrations : list R.t) m : manager T * (Z * Z * option error) :=
  if negb (enabled cfg) then (m, (0, 0, Some (ErrMsg "EventSub subscription manager is not configured"))) else
  let desired := desiredEventSubSubscriptions cfg registrations in
  match list_ turns m with
  | (m, Err err) => (m, (0, 0, Some err))
  | (m, Ok existing) =>
      let desiredByKey := indexByKey desired in
      let '(m, acc) := foldl (sweepOne desiredByKey) (m, mkSweep ∅ ∅ [] 0) existing in
      let '(m, (failed, created)) := foldl (createOne acc) (m, (failures acc, 0)) (rangeMap desiredByKey) in
      (m, (created, deleted acc, errorsJoin failed))
  end.

(** The loop of [deleteAllForCallback]: it stops at the first failure. *)
Fixpoint deleteLoop (existing : list Sub.t) (count : Z) m : manager T * (Z * option error) :=
  match existing with
  | [] => (m, (count, None))
  | subscription :: existing =>
      if Sub.Callback subscription != EventSubCallbackURL cfg then deleteLoop existing count m else
      match delete_ (Sub.ID subscription) m with
      | (m, Err err) => (m, (count, Some err))
      | (m, Ok _) => deleteLoop existing (count + 1) m
      end
  end.

Definition deleteAllForCallback (turns : nat) m : manager T * (Z * option error) :=
  match list_ turns m with
  | (m, Err err) => (m, (0, Some err))
  | (m, Ok existing) => deleteLoop existing 0 m
  end.

End Manager.
End Subscriptions.
