(* ===== verification/DesiredProofs.v ===== *)
(** * EventSub subscriptions: theorems on the desired set

    What the registrations want, declared as a catalogue of subscription
    types with the role and the rules each one needs, and the theorem that
    the loops of [desiredEventSubSubscriptions] compute exactly that. *)

From S2P Require Import Prelude GoStrings NetIP Config Credentials Domain EventSub EventSubProofs Subscriptions.

Module DesiredProofs.
Import EventSubProofs Subscriptions.

(** ** The catalogue *)

(** Who may subscribe: any registration that lists the channel, one whose
    user moderates it (the subscription naming the moderator or not), or the
    channel's owner. *)
Inductive role := Anyone | NamedModerator | Moderator | Broadcaster.

#[export] Instance role_eq_dec : EqDecision role.
Proof. solve_decision. Defined.

Record entry := mkEntry {
  eventType : string;
  eventVersion : string;
  needs : role;
  rules : list string
}.

Definition catalogue : list entry := [
  mkEntry "automod.message.hold" "2" NamedModerator ["automod_hold"];
  mkEntry "channel.moderate" "2" NamedModerator ["moderation_action"];
  mkEntry "channel.ban" "1" Moderator ["ban"; "timeout"];
  mkEntry "stream.online" "1" Anyone ["stream_online"];
  mkEntry "channel.update" "2" Anyone ["title_change"; "game_change"];
  mkEntry "channel.raid" "1" Anyone ["raid"];
  mkEntry "channel.channel_points_custom_reward_redemption.add" "1" Broadcaster ["reward"];
  mkEntry "channel.subscribe" "1" Broadcaster ["subscription"];
  mkEntry "channel.subscription.message" "1" Broadcaster ["subscription"];
  mkEntry "channel.subscription.gift" "1" Broadcaster ["subscription"]
].

(** Whether the registration [r] has the role in the channel [b]. *)
Definition entitled (r : R.t) (b : string) (needed : role) : Prop :=
  match needed with
  | Anyone => True
  | NamedModerator => b ∈ R.ModeratorChannelIDs r ∧ R.UserID r ≠ "" ∧ TrimSpace (R.UserID r) ≠ ""
  | Moderator => b ∈ R.ModeratorChannelIDs r
  | Broadcaster => R.UserID r = b
  end.

(** The condition of the subscription, for a trimmed user and channel. *)
Definition conditionFor (e : entry) (user b : string) : gmap string string :=
  match needs e with
  | NamedModerator => <["broadcaster_user_id" := b]> {["moderator_user_id" := user]}
  | _ => if eventType e == "channel.raid" then {["to_broadcaster_user_id" := b]}
         else {["broadcaster_user_id" := b]}
  end.

Definition specFor (cfg : Config) (e : entry) (user b : string) : Spec.t :=
  Spec.mk (eventType e) (eventVersion e) (conditionFor e user b) "webhook" (EventSubCallbackURL cfg)
    (EventSubSecret cfg).

(** A registration wants [spec]: one of its channels, named without blanks,
    has a rule of the entry switched on, and the registration has the role
    the entry needs there. *)
Definition wants (cfg : Config) (r : R.t) (spec : Spec.t) : Prop :=
  ∃ channel e rule, let b := TrimSpace channel in
    channel ∈ R.ChannelIDs r ∧ e ∈ catalogue ∧ rule ∈ rules e ∧ b ≠ "" ∧ entitled r b (needs e) ∧
    EventSub.ruleConfiguredForChannel r rule b = true ∧
    spec = specFor cfg e (TrimSpace (R.UserID r)) b.

Section Proofs.
Context {rt : GoRuntime} (cfg : Config).

(** ** Conditions *)

Lemma trimCondition_foldl entries condition :
  trimCondition entries condition =
  if existsb (λ kv, TrimSpace kv.2 == "") entries then None else
  Some (foldl (λ acc '(k, v), match Some (TrimSpace v) with Some v' => <[k:=v']> acc | None => delete k acc end)
          condition entries).
Proof.
  revert condition. induction entries as [|[k v] l IH]; intros c; simpl; [done|].
  case_bool_decide; simpl; [done|]. apply IH.
Qed.

Lemma trimCondition_spec (condition : gmap string string) :
  trimCondition (rangeMap condition) condition =
  if existsb (λ kv, TrimSpace kv.2 == "") (rangeMap condition) then None else Some (TrimSpace <$> condition).
Proof.
  rewrite trimCondition_foldl. destruct (existsb _ _); [done|]. f_equal.
  apply map_eq. intros k. rewrite lookup_fmap.
  pose proof (range_update_lookup (λ _ v, Some (TrimSpace v)) condition k) as H.
  unfold range_update in H. rewrite H. by destruct (condition !! k).
Qed.

(** The condition before [appendSpec] trims it. *)
Lemma appendSpec_for unique e user b :
  TrimSpace b = b → b ≠ "" → (needs e = NamedModerator → TrimSpace user ≠ "") →
  appendSpec cfg unique (eventType e) (eventVersion e) (conditionFor e user b) =
  <[specKey (specFor cfg e (TrimSpace user) b) := specFor cfg e (TrimSpace user) b]> unique.
Proof.
  intros Hb Hne Hu. unfold appendSpec. rewrite trimCondition_spec.
  replace (existsb _ _) with false.
  - replace (TrimSpace <$> conditionFor e user b) with (conditionFor e (TrimSpace user) b); [done|].
    unfold conditionFor. destruct (needs e); try (case_bool_decide; by rewrite map_fmap_singleton, Hb).
    by rewrite fmap_insert, map_fmap_singleton, Hb.
  - symmetry. apply not_true_iff_false. rewrite existsb_exists.
    intros ([k v] & Hin%list_elem_of_In%elem_of_rangeMap & Hv). cbn [snd] in Hv.
    apply bool_decide_eq_true in Hv. unfold conditionFor in Hin.
    destruct (needs e) eqn:Hn; repeat case_bool_decide;
      repeat (apply lookup_insert_Some in Hin as [[<- <-]|[_ Hin]]);
      try apply lookup_singleton_Some in Hin as [<- <-]; try congruence; by destruct (Hu eq_refl).
Qed.

(** A blank moderator drops the specification. *)
Lemma appendSpec_blank unique e user b :
  needs e = NamedModerator → TrimSpace user = "" →
  appendSpec cfg unique (eventType e) (eventVersion e) (conditionFor e user b) = unique.
Proof.
  intros Hn Hu. unfold appendSpec. rewrite trimCondition_spec.
  replace (existsb _ _) with true; [done|]. symmetry. apply existsb_exists.
  exists ("moderator_user_id", user). cbn [snd]. rewrite bool_decide_true by done. split; [|done].
  apply list_elem_of_In, elem_of_rangeMap. unfold conditionFor. rewrite Hn.
  by rewrite lookup_insert_ne, lookup_singleton_eq.
Qed.

(** ** The loops *)

Definition entitledb (r : R.t) (b : string) (needed : role) : bool :=
  let isModerator := EventSub.containsString (R.ModeratorChannelIDs r) b in
  match needed with
  | Anyone => true
  | NamedModerator => (R.UserID r != "") && isModerator
  | Moderator => isModerator
  | Broadcaster => (R.UserID r != "") && (R.UserID r == b)
  end.

Definition applies (r : R.t) (b : string) (e : entry) : bool :=
  entitledb r b (needs e) && anyRuleForChannel r b (rules e).

Definition appendEntry (r : R.t) (b : string) (unique : gmap string Spec.t) (e : entry) : gmap string Spec.t :=
  appendIf (applies r b e) cfg unique (eventType e) (eventVersion e) (conditionFor e (R.UserID r) b).

(** The sequence of conditionals is a loop over the catalogue. *)
Lemma appendChannel_catalogue r unique channel :
  appendChannel cfg r unique channel =
  if TrimSpace channel == "" then unique else foldl (appendEntry r (TrimSpace channel)) unique catalogue.
Proof.
  unfold appendChannel. destruct (TrimSpace channel == ""); [done|].
  cbn [foldl catalogue]. unfold appendEntry, applies, anyRuleForChannel, entitledb.
  cbn [eventType eventVersion needs rules conditionFor existsb].
  rewrite !orb_false_r. cbn [andb].
  destruct ((R.UserID r != "") && (R.UserID r == TrimSpace channel) &&
            EventSub.ruleConfiguredForChannel r "subscription" (TrimSpace channel)); reflexivity.
Qed.

(** What a registration contributes, as a list. *)
Definition contributed (r : R.t) : list Spec.t :=
  channel ← R.ChannelIDs r;
  if TrimSpace channel == "" then [] else
  e ← catalogue;
  if applies r (TrimSpace channel) e &&
     negb (bool_decide (needs e = NamedModerator ∧ TrimSpace (R.UserID r) = ""))
  then [specFor cfg e (TrimSpace (R.UserID r)) (TrimSpace channel)] else [].

Definition insertSpec (unique : gmap string Spec.t) (spec : Spec.t) : gmap string Spec.t :=
  <[specKey spec := spec]> unique.

Lemma appendEntries_foldl r b unique :
  b ≠ "" → TrimSpace b = b →
  foldl (appendEntry r b) unique catalogue =
  foldl insertSpec unique
    (e ← catalogue;
     if applies r b e && negb (bool_decide (needs e = NamedModerator ∧ TrimSpace (R.UserID r) = ""))
     then [specFor cfg e (TrimSpace (R.UserID r)) b] else []).
Proof.
  intros Hne Hb. generalize catalogue. intros l. revert unique.
  induction l as [|e l IH]; intros unique; [done|].
  cbn [foldl]. rewrite bind_cons, foldl_app, IH. f_equal. unfold appendEntry, appendIf.
  destruct (applies r b e); [|done]. cbn [andb].
  destruct (decide (needs e = NamedModerator ∧ TrimSpace (R.UserID r) = "")) as [[Hn Hu]|Hn].
  - rewrite bool_decide_true by done. by apply appendSpec_blank.
  - rewrite bool_decide_false by done. apply appendSpec_for; [done..|].
    intros H1 H2. by apply Hn.
Qed.

Lemma uniqueSpecs_foldl registrations :
  uniqueSpecs cfg registrations = foldl insertSpec ∅ (registrations ≫= contributed).
Proof.
  unfold uniqueSpecs. generalize (∅ : gmap string Spec.t).
  induction registrations as [|r l IH]; intros unique; [done|].
  cbn [foldl]. rewrite bind_cons, foldl_app, IH. f_equal. unfold contributed. clear IH.
  generalize (R.ChannelIDs r). intros channels. revert unique.
  induction channels as [|channel channels IH]; intros unique; [done|].
  cbn [foldl]. rewrite bind_cons, foldl_app, IH, appendChannel_catalogue. f_equal.
  case_bool_decide; [done|]. apply appendEntries_foldl; [done|apply TrimSpace_idemp].
Qed.

Lemma elem_of_contributed r spec : spec ∈ contributed r ↔ wants cfg r spec.
Proof.
  unfold contributed, wants. rewrite list_elem_of_bind. split.
  - intros (channel & Hspec & Hch). case_bool_decide as Hb; [by apply elem_of_nil in Hspec|].
    apply list_elem_of_bind in Hspec as (e & Hspec & He).
    destruct (applies r (TrimSpace channel) e) eqn:Ha; [|by apply elem_of_nil in Hspec].
    case_bool_decide as Hn; [by apply elem_of_nil in Hspec|]. apply list_elem_of_singleton in Hspec as ->.
    apply andb_true_iff in Ha as [Hent Hrule]. apply existsb_exists in Hrule as (rule & Hr & Hc).
    apply list_elem_of_In in Hr. exists channel, e, rule. split_and!; try done.
    unfold entitledb, entitled in *.
    destruct (needs e); rewrite ?andb_true_iff, ?negb_true_iff, ?bool_decide_eq_false, ?bool_decide_eq_true in Hent;
      rewrite ?containsString_spec in Hent; naive_solver.
  - intros (channel & e & rule & Hch & He & Hrule & Hb & Hent & Hc & ->).
    exists channel. split; [|done]. rewrite bool_decide_false by done. apply list_elem_of_bind.
    exists e. split; [|done].
    assert (applies r (TrimSpace channel) e = true) as ->.
    { apply andb_true_iff. split.
      - unfold entitledb, entitled in *.
        destruct (needs e); rewrite ?andb_true_iff, ?negb_true_iff, ?bool_decide_eq_false, ?bool_decide_eq_true;
          rewrite ?containsString_spec; try naive_solver. by rewrite Hent.
      - apply existsb_exists. exists rule. by rewrite <-list_elem_of_In. }
    rewrite bool_decide_false; [by left|]. intros [Hn Hu]. unfold entitled in Hent. rewrite Hn in Hent. naive_solver.
Qed.

(** ** Maps of specifications *)

Lemma insertSpec_lookup l unique k spec :
  foldl insertSpec unique l !! k = Some spec →
  spec ∈ l ∧ k = specKey spec ∨ unique !! k = Some spec.
Proof.
  revert unique. induction l as [|x l IH]; intros unique; cbn [foldl]; [by right|].
  intros [[Hin ->]|H]%IH; [left; split; [by right|done]|].
  unfold insertSpec in H. apply lookup_insert_Some in H as [[<- <-]|[_ H]]; [left; split; [by left|done]|by right].
Qed.

Lemma insertSpec_present l unique spec :
  spec ∈ l ∨ is_Some (unique !! specKey spec) → is_Some (foldl insertSpec unique l !! specKey spec).
Proof.
  revert unique. induction l as [|x l IH]; intros unique; cbn [foldl].
  - intros [?%elem_of_nil|?]; done.
  - intros H. apply IH. unfold insertSpec. rewrite elem_of_cons in H.
    destruct (decide (specKey x = specKey spec)) as [Heq|Hne].
    + right. rewrite Heq, lookup_insert_eq. eauto.
    + rewrite lookup_insert_ne by done. destruct H as [[->|?]|?]; [done|by left|by right].
Qed.

Lemma uniqueSpecs_lookup registrations k spec :
  uniqueSpecs cfg registrations !! k = Some spec →
  k = specKey spec ∧ ∃ r, r ∈ registrations ∧ wants cfg r spec.
Proof.
  rewrite uniqueSpecs_foldl. intros [[Hin ->]|H]%insertSpec_lookup.
  - split; [done|]. apply list_elem_of_bind in Hin as (r & Hr & Hin).
    exists r. by rewrite <-elem_of_contributed.
  - by rewrite lookup_empty in H.
Qed.

Lemma uniqueSpecs_present registrations r spec :
  r ∈ registrations → wants cfg r spec → is_Some (uniqueSpecs cfg registrations !! specKey spec).
Proof.
  intros Hr Hw. rewrite uniqueSpecs_foldl. apply insertSpec_present. left.
  apply list_elem_of_bind. exists r. by rewrite elem_of_contributed.
Qed.

Lemma elem_of_desired registrations spec :
  spec ∈ desiredEventSubSubscriptions cfg registrations ↔
  uniqueSpecs cfg registrations !! specKey spec = Some spec.
Proof.
  unfold desiredEventSubSubscriptions. rewrite sortSlice_perm, list_elem_of_fmap. split.
  - intros ([k x] & -> & Hin%elem_of_rangeMap). cbn [snd].
    by destruct (uniqueSpecs_lookup _ _ _ Hin) as [<- _].
  - intros H. exists (specKey spec, spec). by rewrite elem_of_rangeMap.
Qed.

Lemma desired_keys registrations :
  specKey <$> (rangeMap (uniqueSpecs cfg registrations)).*2 = (rangeMap (uniqueSpecs cfg registrations)).*1.
Proof.
  rewrite <-list_fmap_compose. apply list_fmap_ext. intros i [k x] Hx.
  apply list_elem_of_lookup_2, elem_of_rangeMap, uniqueSpecs_lookup in Hx as [-> _]. done.
Qed.

Lemma NoDup_desired registrations : NoDup (specKey <$> desiredEventSubSubscriptions cfg registrations).
Proof.
  unfold desiredEventSubSubscriptions. rewrite sortSlice_perm, desired_keys. apply NoDup_rangeMap.
Qed.

#[local] Instance key_strict_weak : StrictWeak (λ x y, string_lt (specKey x) (specKey y)).
Proof.
  split; intros *.
  - apply less_irrefl.
  - apply (less_trans (less:=string_lt)).
  - apply (less_negtrans (less:=string_lt)).
Qed.

(** ** Keys *)

(** The key of a specification of the catalogue, written out. *)
Definition keyText (e : entry) (user b : string) : string :=
  eventType e +:+ "|" +:+ eventVersion e +:+ "|" +:+
  match needs e with
  | NamedModerator => ("broadcaster_user_id=" +:+ b) +:+ "|" +:+ ("moderator_user_id=" +:+ user)
  | _ => if eventType e == "channel.raid" then "to_broadcaster_user_id=" +:+ b else "broadcaster_user_id=" +:+ b
  end.

Lemma sorted_two (m : gmap string string) a b va vb :
  string_lt a b = true → m = <[a := va]> {[b := vb]} → sortSlice string_lt (rangeMap m).*1 = [a; b].
Proof.
  intros Hlt ->. assert (a ≠ b) as Hne by (intros ->; by rewrite less_irrefl in Hlt).
  rewrite (sortSlice_deterministic string_lt _ _ _ [a; b]).
  - apply sortSlice_id; [apply _|]. repeat constructor. done.
  - intros x y _ _. apply string_lt_tie.
  - rewrite rangeMap_perm, map_to_list_insert, map_to_list_singleton by by rewrite lookup_singleton_ne. done.
Qed.

Lemma sorted_one (a va : string) : sortSlice string_lt (rangeMap {[a := va]}).*1 = [a].
Proof.
  assert ((rangeMap {[a := va]}).*1 ≡ₚ [a]) as H by by rewrite rangeMap_perm, map_to_list_singleton.
  apply Permutation_singleton_r in H as ->.
  apply sortSlice_id; [apply _|]. repeat constructor.
Qed.

Lemma specKey_text e user b : specKey (specFor cfg e user b) = keyText e user b.
Proof.
  unfold specKey, specFor, eventSubSpecKey, keyText. cbn [Spec.Type_ Spec.Version Spec.Condition].
  unfold conditionFor. destruct (needs e); try case_bool_decide.
  all: rewrite ?sorted_one; cbn [foldl]; rewrite ?lookup_singleton_eq; unfold default; cbn [id];
    rewrite ?app_str_assoc; try reflexivity.
  rewrite (sorted_two _ "broadcaster_user_id" "moderator_user_id" b user) by done. cbn [foldl].
  rewrite lookup_insert_eq, lookup_insert_ne, lookup_singleton_eq by done. unfold default; cbn [id].
  by rewrite !app_str_assoc.
Qed.

Lemma catalogue_free e : e ∈ catalogue → free "|" (eventType e) ∧ free "|" (eventVersion e).
Proof.
  revert e. apply Forall_forall. unfold catalogue, free. repeat constructor; cbn; set_solver.
Qed.

Lemma Split_bar s t : free "|" s → Split "|" (s +:+ "|" +:+ t) = s :: Split "|" t.
Proof. apply Split_sep. Qed.

(** An event type appears once in the catalogue. *)
Lemma catalogue_type e e' : e ∈ catalogue → e' ∈ catalogue → eventType e = eventType e' → e = e'.
Proof.
  intros He He'.
  assert (Forall (λ e, Forall (λ e', eventType e = eventType e' → e = e') catalogue) catalogue) as H.
  { repeat constructor; cbn; done. }
  rewrite Forall_forall in H. specialize (H e He). rewrite Forall_forall in H. by apply H.
Qed.

(** A key without a stray separator determines the specification. *)
Lemma specKey_inj e e' user user' b b' :
  e ∈ catalogue → e' ∈ catalogue →
  free "|" user → free "|" user' → free "|" b → free "|" b' →
  specKey (specFor cfg e user b) = specKey (specFor cfg e' user' b') →
  specFor cfg e user b = specFor cfg e' user' b'.
Proof.
  intros He He' Hu Hu' Hb Hb'. rewrite !specKey_text. unfold keyText. intros H.
  destruct (catalogue_free e He) as [Ht Hv], (catalogue_free e' He') as [Ht' Hv'].
  apply (f_equal (Split "|")) in H. rewrite !(Split_bar (eventType _)) in H by done.
  injection H as Htype H. rewrite !(Split_bar (eventVersion _)) in H by done. injection H as _ H.
  assert (e = e') as <- by by apply catalogue_type.
  assert (∀ s t, free "|" s → free "|" (t +:+ s) ↔ free "|" t) as Hfree by (intros; rewrite free_app; tauto).
  unfold specFor. f_equal. unfold conditionFor in *. destruct (needs e).
  2: { rewrite !(Split_bar ("broadcaster_user_id=" +:+ _)), !(Split_free "|" ("moderator_user_id=" +:+ _)) in H
         by (apply Hfree; [done|]; unfold free; cbn; set_solver).
       injection H as Hb1 Hu1. apply (inj _) in Hb1 as ->. apply (inj _) in Hu1 as ->. done. }
  all: case_bool_decide;
    rewrite !(Split_free "|" (_ +:+ _)) in H by (apply Hfree; [done|]; unfold free; cbn; set_solver);
    injection H as Hb1; apply (inj _) in Hb1 as ->; done.
Qed.

(** Identifiers of users and channels hold no separator. *)
Definition plain (r : R.t) : Prop :=
  free "|" (TrimSpace (R.UserID r)) ∧ ∀ c, c ∈ R.ChannelIDs r → free "|" (TrimSpace c).

(** C16.  For registrations whose identifiers hold no separator (Twitch's are
    decimal numbers), [desiredEventSubSubscriptions] returns exactly the
    subscriptions of the catalogue that some registration wants, each one
    once and in the order of their keys: a subscription that names a
    moderator, or shows bans, only for a channel the registration
    moderates, one about rewards or subscribers only for the channel's
    owner, and none for a blank channel. *)
Theorem desired_exact registrations :
  (∀ r, r ∈ registrations → plain r) →
  (∀ spec, spec ∈ desiredEventSubSubscriptions cfg registrations ↔
     ∃ r, r ∈ registrations ∧ wants cfg r spec) ∧
  NoDup (specKey <$> desiredEventSubSubscriptions cfg registrations) ∧
  StronglySorted (λ x y, string_lt (specKey y) (specKey x) = false)
    (desiredEventSubSubscriptions cfg registrations).
Proof.
  intros Hplain. split_and!; [|apply NoDup_desired|apply sortSlice_sorted, _].
  intros spec. rewrite elem_of_desired. split; [by intros [_ ?]%uniqueSpecs_lookup|].
  intros (r & Hr & Hw). destruct (uniqueSpecs_present _ _ _ Hr Hw) as [spec' Hspec'].
  rewrite Hspec'. f_equal. apply uniqueSpecs_lookup in Hspec' as (Hkey & r' & Hr' & Hw').
  destruct Hw as (c & e & rule & Hc & He & _ & _ & _ & _ & ->).
  destruct Hw' as (c' & e' & rule' & Hc' & He' & _ & _ & _ & _ & ->).
  symmetry. destruct (Hplain r Hr), (Hplain r' Hr'). apply specKey_inj; auto.
Qed.
End Proofs.

(** Alice owns channel 42 and moderates channel 10; Bob watches 42. *)
Definition exampleRegistrations : list R.t :=
  [Registration.zero <| Registration.InstallationID := "a" |> <| Registration.UserID := "42" |>
     <| Registration.ChannelIDs := ["42"; " 10 "; "  "] |> <| Registration.ModeratorChannelIDs := ["10"] |>
     <| Registration.NotificationRules := ["automod_hold"; "subscription"] |>;
   Registration.zero <| Registration.InstallationID := "b" |> <| Registration.UserID := "7" |>
     <| Registration.ChannelIDs := ["42"] |> <| Registration.NotificationRules := ["raid"; "subscription"] |>].

Lemma desired_exact_witness :
  let cfg := Config.zero <| EventSubCallbackURL := "https://x" |> in
  Spec.Type_ <$> @desiredEventSubSubscriptions reference_runtime cfg exampleRegistrations =
    ["automod.message.hold"; "channel.raid"; "channel.subscribe"; "channel.subscription.gift";
     "channel.subscription.message"] ∧
  ∃ r, r ∈ exampleRegistrations ∧
    wants cfg r (specFor cfg (mkEntry "channel.raid" "1" Anyone ["raid"]) "7" "42").
Proof.
  intros cfg. split; [vm_compute; reflexivity|].
  apply (@desired_exact reference_runtime cfg exampleRegistrations).
  - intros r Hr. unfold plain, free. repeat (apply elem_of_cons in Hr as [->|Hr]); [..|by apply elem_of_nil in Hr];
      (split; [|intros c Hc; repeat (apply elem_of_cons in Hc as [->|Hc]); [..|by apply elem_of_nil in Hc]]);
      vm_compute; set_solver.
  - rewrite elem_of_desired. vm_compute. reflexivity.
Defined.

End DesiredProofs.
