(* ===== verification/SubscriptionProofs.v ===== *)
(** * EventSub subscriptions: theorems on reconciliation

    Twitch holds a table of subscriptions.  [TruthfulTwitch] states that its
    answers are true of that table, while any call may fail; with
    [HealthyTwitch] calls with a fresh token are also served.  Against the
    first, a reconciliation interrupted by any failures does no harm;
    against the second it reaches the wanted table and then stays there. *)

From S2P Require Import Prelude GoStrings NetIP Config Credentials Domain EventSub EventSubProofs.
From S2P Require Import Subscriptions DesiredProofs.

Module SubscriptionProofs.
Import Subscriptions DesiredProofs.

(** ** The service *)

(** The calls the manager makes, with the token of each. *)
Inductive call := CList (cursor : string) | CCreate (spec : Spec.t) | CDelete (id : string).

Definition callRequest (cfg : Config) (c : call) (token : string) : request :=
  match c with
  | CList cursor =>
      apiRequest cfg "GET" subscriptionsPath (if cursor != "" then [("after", cursor)] else []) NoBody token
  | CCreate spec => apiRequest cfg "POST" subscriptionsPath [] (JSONSpec spec) token
  | CDelete id => apiRequest cfg "DELETE" subscriptionsPath [("id", id)] NoBody token
  end.

(** A subscription as Twitch creates it from a specification. *)
Definition created_from (spec : Spec.t) (sub : Sub.t) : Prop :=
  Sub.Type_ sub = Spec.Type_ spec ∧ Sub.Version sub = Spec.Version spec ∧
  Sub.Condition sub = Spec.Condition spec ∧ Sub.Callback sub = Spec.Callback spec ∧
  Sub.Status sub = "webhook_callback_verification_pending".

(** What a call may do to the table. *)
Definition effect (c : call) (table table' : list Sub.t) : Prop :=
  match c with
  | CList _ => table' = table
  | CCreate spec => ∃ sub, created_from spec sub ∧ table' = table ++ [sub]
  | CDelete id => table' = List.filter (λ sub, Sub.ID sub != id) table
  end.

Definition success (c : call) (r : reply) : bool :=
  match c with
  | CDelete _ => (StatusCode r =? 204) || (StatusCode r =? 404)
  | _ => (200 <=? StatusCode r) && (StatusCode r <=? 299)
  end.

(** A listing is served in pages: [rest table cursor] is what follows the
    cursor, and a page that is not the last one makes progress. *)
Class TruthfulTwitch (T : Type) {api : TwitchAPI T} (cfg : Config) := {
  table : T → list Sub.t;
  page : list Sub.t → string → eventSubListResponse;
  rest : list Sub.t → string → list Sub.t;
  table_ids t : NoDup (Sub.ID <$> table t);
  rest_start l : rest l "" = l;
  rest_page l cursor :
    rest l cursor = Data (page l cursor) ++ (if Cursor (page l cursor) == "" then [] else rest l (Cursor (page l cursor)));
  rest_progress l cursor :
    Cursor (page l cursor) ≠ "" →
    (length (rest l (Cursor (page l cursor))) < length (rest l cursor))%nat;
  (** asking for a token does not touch the table; a call has its effect or
      none, the one it reports when it reports success, and none when it is
      unauthorized *)
  token_effect t : table (Do t (tokenRequest cfg)).1 = table t;
  call_effect t c tok :
    let t' := (Do t (callRequest cfg c tok)).1 in table t' = table t ∨ effect c (table t) (table t');
  call_success t t' c tok r :
    Do t (callRequest cfg c tok) = (t', Ok r) → success c r = true → effect c (table t) (table t');
  call_refused t t' c tok r :
    Do t (callRequest cfg c tok) = (t', Ok r) → StatusCode r = 401 → table t' = table t;
  page_true t t' cursor tok r p :
    Do t (callRequest cfg (CList cursor) tok) = (t', Ok r) → success (CList cursor) r = true →
    ReadError r = None → decodePage (limited (Z.shiftl 4 20) (Payload r)) = Ok p → p = page (table t) cursor
}.

(** Twitch refuses a second subscription with the same type, version,
    condition and callback. *)
Definition conflict (spec : Spec.t) (sub : Sub.t) : Prop :=
  Sub.Type_ sub = Spec.Type_ spec ∧ Sub.Version sub = Spec.Version spec ∧
  Sub.Condition sub = Spec.Condition spec ∧ Sub.Callback sub = Spec.Callback spec.

(** Calls with a token Twitch accepts are served, other tokens are answered
    401, and the token endpoint issues tokens that are accepted. *)
Class HealthyTwitch (T : Type) {api : TwitchAPI T} (cfg : Config) {truth : TruthfulTwitch T cfg} := {
  accepts : T → string → bool;
  encodePage : eventSubListResponse → string;
  decode_page p : decodePage (encodePage p) = Ok p;
  issues t : ∃ r token,
    (Do t (tokenRequest cfg)).2 = Ok r ∧ 200 ≤ StatusCode r ≤ 299 ∧
    decodeAppToken (limited (Z.shiftl 1 20) (Payload r)) = Ok token ∧
    AccessToken token ≠ "" ∧ 0 < ExpiresIn token ∧
    accepts (Do t (tokenRequest cfg)).1 (AccessToken token) = true;
  refuses t c tok : accepts t tok = false →
    ∃ r, (Do t (callRequest cfg c tok)).2 = Ok r ∧ StatusCode r = 401;
  serves t c tok : accepts t tok = true →
    (∀ spec sub, c = CCreate spec → sub ∈ table t → ¬ conflict spec sub) →
    ∃ r, (Do t (callRequest cfg c tok)).2 = Ok r ∧ success c r = true ∧
      ∀ cursor, c = CList cursor → ReadError r = None ∧ Payload r = encodePage (page (table t) cursor)
}.

(** ** Steps of the manager *)

Section Truthful.
Context {rt : GoRuntime} {T : Type} {api : TwitchAPI T} (cfg : Config) {truth : TruthfulTwitch T cfg}.
Context (clock : nat → time).
Implicit Types (m : manager T) (l : list Sub.t).

Definition view m : list Sub.t := table (net m).

Lemma requestToken_view m : view (requestToken cfg clock m).1 = view m.
Proof.
  unfold requestToken, bind, send. destruct (Do (net m) (tokenRequest cfg)) as [t r] eqn:Hdo.
  assert (table t = view m) as Ht by (unfold view; rewrite <-(token_effect (net m)), Hdo; done).
  destruct r as [r|]; [|done]. destruct (_ || _); [done|].
  destruct (decodeAppToken _); [|done]. by destruct (_ || _).
Qed.

Lemma token_view m : view (token cfg clock m).1 = view m.
Proof.
  unfold token, Now. case_bool_decide; [apply requestToken_view|].
  destruct (Before _ _); [done|]. by rewrite requestToken_view.
Qed.

(** What is known of the outcome of a call: it had its effect or none, the
    one it reports when it reports success, and a listed page is true. *)
Definition sound_call (c : call) m (out : manager T * result reply) : Prop :=
  (view out.1 = view m ∨ effect c (view m) (view out.1)) ∧
  ∀ r, out.2 = Ok r → success c r = true →
    effect c (view m) (view out.1) ∧
    ∀ cursor p, c = CList cursor → ReadError r = None →
      decodePage (limited (Z.shiftl 4 20) (Payload r)) = Ok p → p = page (view m) cursor.

(** One attempt. *)
Lemma send_call m c tok :
  let out := send (callRequest cfg c tok) m in
  sound_call c m out ∧ (∀ r, out.2 = Ok r → StatusCode r = 401 → view out.1 = view m).
Proof.
  unfold send. destruct (Do (net m) (callRequest cfg c tok)) as [t r'] eqn:Hdo. cbn zeta.
  split; [split|].
  - pose proof (call_effect (net m) c tok) as H. by rewrite Hdo in H.
  - cbn [snd fst]. intros r -> Hs. split; [by eapply call_success|].
    intros cursor p -> Hr Hp. by eapply page_true.
  - cbn [snd fst]. intros r -> H401. exact (call_refused _ _ _ _ _ Hdo H401).
Qed.

(** A call that fails before it is sent changes nothing. *)
Lemma sound_call_err c m m' e : view m' = view m → sound_call c m (m', Err e).
Proof. intros Hv. split; [by left|done]. Qed.

Lemma sound_call_view c m m' out : view m' = view m → sound_call c m' out → sound_call c m out.
Proof. unfold sound_call. by intros ->. Qed.

Definition callArgs (c : call) : string * list (string * string) * content :=
  match c with
  | CList cursor => ("GET", if cursor != "" then [("after", cursor)] else [], NoBody)
  | CCreate spec => ("POST", [], JSONSpec spec)
  | CDelete id => ("DELETE", [("id", id)], NoBody)
  end.

(** [do_] for a call. *)
Definition perform (c : call) : M (manager T) reply :=
  do_ cfg clock (callArgs c).1.1 subscriptionsPath (callArgs c).1.2 (callArgs c).2.

Lemma callRequest_args c tok :
  apiRequest cfg (callArgs c).1.1 subscriptionsPath (callArgs c).1.2 (callArgs c).2 tok = callRequest cfg c tok.
Proof. by destruct c. Qed.

Lemma perform_sound c m : sound_call c m (perform c m).
Proof.
  unfold perform, do_, bind. pose proof (token_view m) as Htok.
  destruct (token cfg clock m) as [m1 [tok|e]]; [|by apply sound_call_err].
  cbn [fst] in Htok. rewrite callRequest_args.
  destruct (send_call m1 c tok) as [Hsound H401].
  destruct (send _ m1) as [m2 [r|e]]; cycle 1.
  { by eapply sound_call_view. }
  cbn [fst snd] in *. destruct (Z.eqb_spec (StatusCode r) 401) as [Hc|]; cycle 1.
  { by eapply sound_call_view. }
  specialize (H401 r eq_refl Hc). unfold invalidateToken, setToken.
  set (m3 := _ <| tokenUntil := 0 |>). assert (view m3 = view m) as Hm3 by (change (view m3) with (view m2); congruence).
  pose proof (token_view m3) as Htok3.
  destruct (token cfg clock m3) as [m4 [tok'|e]]; cbn [fst] in Htok3; [|apply sound_call_err; congruence].
  rewrite callRequest_args. apply (sound_call_view _ _ m4); [congruence|]. apply send_call.
Qed.

(** The two calls that change the table. *)
Lemma create_sound spec m m' r :
  create cfg clock spec m = (m', r) →
  (view m' = view m ∧ is_ok r = false) ∨ effect (CCreate spec) (view m) (view m').
Proof.
  unfold create, bind. fold (perform (CCreate spec)).
  change (do_ cfg clock "POST" subscriptionsPath [] (JSONSpec spec)) with (perform (CCreate spec)).
  destruct (perform_sound (CCreate spec) m) as [Heff Hok].
  destruct (perform (CCreate spec) m) as [m1 [rep|e]]; cbn [fst snd] in *; cycle 1.
  { intros [= <- <-]. naive_solver. }
  destruct (_ || _) eqn:Hs.
  - intros [= <- <-]. naive_solver.
  - intros [= <- <-]. right. apply (Hok rep); [done|]. cbn. lia.
Qed.

Lemma delete_sound id m m' r :
  delete_ cfg clock id m = (m', r) →
  (view m' = view m ∧ is_ok r = false) ∨ effect (CDelete id) (view m) (view m').
Proof.
  unfold delete_, bind.
  change (do_ cfg clock "DELETE" subscriptionsPath [("id", id)] NoBody) with (perform (CDelete id)).
  destruct (perform_sound (CDelete id) m) as [Heff Hok].
  destruct (perform (CDelete id) m) as [m1 [rep|e]]; cbn [fst snd] in *; cycle 1.
  { intros [= <- <-]. naive_solver. }
  destruct (_ && _) eqn:Hs.
  - intros [= <- <-]. naive_solver.
  - intros [= <- <-]. right. apply (Hok rep); [done|]. cbn. lia.
Qed.

(** A listing that succeeds returns the table. *)
Lemma listLoop_sound turns cursor acc m m' r :
  listLoop cfg clock turns cursor acc m = (m', r) →
  view m' = view m ∧ ∀ l, r = Ok l → l = acc ++ rest (view m) cursor.
Proof.
  revert cursor acc m. induction turns as [|turns IH]; intros cursor acc m; [by intros [= <- <-]|].
  cbn [listLoop]. unfold bind.
  change (do_ cfg clock "GET" _ _ NoBody) with (perform (CList cursor)).
  destruct (perform_sound (CList cursor) m) as [Heff Hok].
  destruct (perform (CList cursor) m) as [m1 [rep|e]]; cbn [fst snd] in *; cycle 1.
  { intros [= <- <-]. split; [|done]. by destruct Heff. }
  assert (view m1 = view m) as Hv by by destruct Heff.
  destruct (ReadError rep) eqn:Hre; [by intros [= <- <-]|].
  destruct (_ || _) eqn:Hs; [by intros [= <- <-]|].
  destruct (decodePage _) as [p|] eqn:Hp; [|by intros [= <- <-]].
  destruct (Hok rep eq_refl) as [_ Hpage]; [cbn; lia|].
  pose proof (Hpage cursor p eq_refl Hre Hp) as Hpp.
  rewrite (rest_page (view m) cursor), <-Hpp. case_bool_decide as Hcur.
  - intros [= <- <-]. split; [done|]. intros l [= <-]. by rewrite app_nil_r.
  - intros [Hv' Hl]%IH. split; [congruence|]. intros l H%Hl. by rewrite H, Hv, app_assoc.
Qed.

Lemma list_sound turns m m' r :
  list_ cfg clock turns m = (m', r) → view m' = view m ∧ ∀ l, r = Ok l → l = view m.
Proof.
  unfold list_. intros [Hv Hl]%listLoop_sound. split; [done|]. intros l H. by rewrite (Hl l H), rest_start.
Qed.

(** ** The sweep over the existing subscriptions *)

Definition own (sub : Sub.t) : Prop := Sub.Callback sub = EventSubCallbackURL cfg.
#[local] Instance own_dec sub : Decision (own sub).
Proof. unfold own. apply _. Defined.
Definition foreign l : list Sub.t := List.filter (λ sub, Sub.Callback sub != EventSubCallbackURL cfg) l.

Lemma elem_of_without id l x : x ∈ List.filter (λ sub, Sub.ID sub != id) l ↔ x ∈ l ∧ Sub.ID x ≠ id.
Proof. by rewrite elem_of_filter_bool, negb_true_iff, bool_decide_eq_false. Qed.

(** What holds after the subscriptions [seen] were handled: the table only
    lost own subscriptions; what is unseen is still there; a kept key has a
    usable subscription; and a seen one that is still there is the kept one
    of its key, unless a deletion of that key failed. *)
Record swept (l seen : list Sub.t) (wanted : gmap string Spec.t) m (acc : sweep) : Prop := {
  swept_sub x : x ∈ view m → x ∈ l;
  swept_foreign : foreign (view m) = foreign l;
  swept_unseen x : x ∈ l → x ∉ seen → x ∈ view m;
  swept_kept k : k ∈ kept acc →
    ∃ x, x ∈ view m ∧ x ∈ seen ∧ own x ∧ usable x = true ∧ subKey x = k ∧ is_Some (wanted !! k);
  swept_usable x : x ∈ seen → own x → usable x = true → is_Some (wanted !! subKey x) → subKey x ∈ kept acc;
  swept_left x : x ∈ view m → x ∈ seen → own x → subKey x ∉ blocked acc →
    subKey x ∈ kept acc ∧ usable x = true ∧
    ∀ y, y ∈ view m → y ∈ seen → own y → subKey y = subKey x → y = x
}.

Lemma swept_init l wanted m : view m = l → swept l [] wanted m (mkSweep ∅ ∅ [] 0).
Proof. intros <-. split; cbn; try done; set_solver. Qed.

Lemma swept_skip l seen wanted m acc x :
  ¬ own x → swept l seen wanted m acc → swept l (seen ++ [x]) wanted m acc.
Proof.
  intros Hx [H1 H2 H3 H4 H5 H6]. split; try done.
  - intros y Hy Hn. apply H3; [done|]. set_solver.
  - intros k Hk. destruct (H4 k Hk) as (y & ? & ? & ? & ? & ? & ?). exists y. set_solver.
  - intros y [Hy| ->%list_elem_of_singleton]%elem_of_app; [by apply H5|done].
  - intros y Hv [Hy| ->%list_elem_of_singleton]%elem_of_app Ho Hb; [|done].
    destruct (H6 y Hv Hy Ho Hb) as (? & ? & Hu). split_and!; [done..|].
    intros z Hz [Hzs| ->%list_elem_of_singleton]%elem_of_app Hoz; [by apply Hu|done].
Qed.

Lemma swept_keep l seen wanted m acc x :
  x ∈ l → x ∉ seen → own x → is_Some (wanted !! subKey x) → subKey x ∉ kept acc → usable x = true →
  swept l seen wanted m acc →
  swept l (seen ++ [x]) wanted m (mkSweep ({[subKey x]} ∪ kept acc) (blocked acc) (failures acc) (deleted acc)).
Proof.
  intros Hl Hns Ho Hw Hk Hus [H1 H2 H3 H4 H5 H6].
  assert (x ∈ view m) as Hxv by by apply H3.
  split; cbn; try done.
  - intros y Hy Hn. apply H3; [done|]. set_solver.
  - intros k [->%elem_of_singleton|Hin]%elem_of_union.
    + exists x. set_solver.
    + destruct (H4 k Hin) as (y & ? & ? & ? & ? & ? & ?). exists y. set_solver.
  - intros y [Hy| ->%list_elem_of_singleton]%elem_of_app; [|set_solver].
    intros. apply elem_of_union. right. by apply H5.
  - intros y Hv [Hy| ->%list_elem_of_singleton]%elem_of_app Hoy Hb.
    + destruct (H6 y Hv Hy Hoy Hb) as (? & ? & Hu). split_and!; [set_solver|done|].
      intros z Hz [Hzs| ->%list_elem_of_singleton]%elem_of_app Hoz Heq; [by apply Hu|].
      destruct Hk. by rewrite Heq.
    + split_and!; [set_solver|done|].
      intros z Hz [Hzs| ->%list_elem_of_singleton]%elem_of_app Hoz Heq; [|done].
      destruct Hk. rewrite <-Heq. apply (H6 z Hz Hzs Hoz). by rewrite Heq.
Qed.

(** A deletion that was carried out or not; if it was not, or was not
    reported, the key is blocked. *)
Lemma swept_drop l seen wanted m m' acc acc' x :
  NoDup (Sub.ID <$> l) → x ∈ l → x ∉ seen → own x →
  (is_Some (wanted !! subKey x) → usable x = true → subKey x ∈ kept acc) →
  kept acc' = kept acc → blocked acc ⊆ blocked acc' →
  (view m' = view m ∧ subKey x ∈ blocked acc' ∨ effect (CDelete (Sub.ID x)) (view m) (view m')) →
  swept l seen wanted m acc → swept l (seen ++ [x]) wanted m' acc'.
Proof.
  intros Hnd Hl Hns Ho Hnk Hkept Hbl Heff [H1 H2 H3 H4 H5 H6].
  assert (∀ y, y ∈ l → Sub.ID y = Sub.ID x → y = x) as Hid.
  { intros y Hy. by apply (NoDup_fmap_elem Sub.ID l). }
  assert (∀ y, y ∈ view m' → y ∈ view m) as Hsub.
  { intros y. destruct Heff as [[-> _]| ->]; [done|]. by intros [? _]%elem_of_without. }
  assert (∀ y, y ∈ view m → y ≠ x → y ∈ view m') as Hsup.
  { intros y Hy Hne. destruct Heff as [[-> _]| ->]; [done|]. apply elem_of_without. split; [done|].
    intros Heq. by apply Hne, Hid; [apply H1|]. }
  assert (x ∈ view m' → subKey x ∈ blocked acc') as Hxb.
  { destruct Heff as [[_ ?]| ->]; [done|]. by intros [_ ?]%elem_of_without. }
  split.
  - intros y Hy. by apply H1, Hsub.
  - rewrite <-H2. destruct Heff as [[-> _]| ->]; [done|]. unfold foreign. rewrite filter_comm_bool.
    apply filter_all. intros y [Hy Hf]%elem_of_filter_bool. apply negb_true_iff, bool_decide_eq_false.
    apply negb_true_iff, bool_decide_eq_false in Hf. intros Heq. apply Hf.
    rewrite (Hid y); [done|by apply H1|done].
  - intros y Hy Hn. apply Hsup; [apply H3; [done|]|]; set_solver.
  - rewrite Hkept. intros k Hk. destruct (H4 k Hk) as (y & ? & ? & ? & ? & ? & ?). exists y.
    split_and!; try done; [|set_solver]. apply Hsup; [done|]. by intros ->.
  - rewrite Hkept. intros y [Hy| ->%list_elem_of_singleton]%elem_of_app; [by apply H5|]. auto.
  - rewrite Hkept. intros y Hv [Hy| ->%list_elem_of_singleton]%elem_of_app Hoy Hb; [|by destruct Hb; auto].
    destruct (H6 y (Hsub _ Hv) Hy Hoy) as (? & ? & Hu); [set_solver|]. split_and!; [done..|].
    intros z Hz [Hzs| ->%list_elem_of_singleton]%elem_of_app Hoz Heq; [by apply Hu; auto|].
    destruct Hb. rewrite <-Heq. auto.
Qed.

Lemma sweepOne_swept l seen wanted m acc x :
  NoDup (Sub.ID <$> l) → x ∈ l → x ∉ seen →
  swept l seen wanted m acc →
  let st := sweepOne cfg clock wanted (m, acc) x in swept l (seen ++ [x]) wanted st.1 st.2.
Proof.
  intros Hnd Hl Hns Hs. unfold sweepOne. case_bool_decide as Ho; cbn [negb]; cycle 1.
  { by apply swept_skip. }
  destruct (bool_decide (is_Some _) && _ && _) eqn:Hc.
  { rewrite !andb_true_iff, negb_true_iff, bool_decide_eq_true, bool_decide_eq_false in Hc.
    destruct Hc as [[? ?] ?]. by apply swept_keep. }
  assert (is_Some (wanted !! subKey x) → usable x = true → subKey x ∈ kept acc) as Hnk.
  { intros Hw Hu. rewrite (bool_decide_true _ Hw), Hu, andb_true_r in Hc. cbn in Hc.
    by apply negb_false_iff, bool_decide_eq_true in Hc. }
  destruct (delete_ cfg clock (Sub.ID x) m) as [m' r] eqn:Hd. pose proof (delete_sound _ _ _ _ Hd) as Heff.
  destruct r as [[]|e]; cbn [fst snd].
  - eapply (swept_drop l seen wanted m m' acc); cbn; try done. destruct Heff as [[_ ?]|?]; [done|by right].
  - eapply (swept_drop l seen wanted m m' acc); cbn; try done; [set_solver|].
    destruct Heff as [[? _]|?]; [left; split; [done|set_solver]|by right].
Qed.

Lemma sweep_swept l wanted todo seen m acc :
  NoDup (Sub.ID <$> l) → l = seen ++ todo → swept l seen wanted m acc →
  let st := foldl (sweepOne cfg clock wanted) (m, acc) todo in swept l l wanted st.1 st.2.
Proof.
  intros Hnd. revert seen m acc. induction todo as [|x todo IH]; intros seen m acc Hl Hs; cbn [foldl].
  { by rewrite app_nil_r in Hl; subst. }
  destruct (sweepOne cfg clock wanted (m, acc) x) as [m1 acc1] eqn:H1.
  apply (IH (seen ++ [x])).
  - by rewrite <-app_assoc.
  - pose proof Hnd as Hnd'. apply NoDup_fmap_1 in Hnd'. rewrite Hl in Hnd'. apply NoDup_app in Hnd' as (_ & Hdis & _).
    pose proof (sweepOne_swept l seen wanted m acc x) as H. rewrite H1 in H. apply H; [done|..|done].
    + rewrite Hl. apply elem_of_app. right. by left.
    + intros Hin. apply (Hdis x Hin). by left.
Qed.

(** ** The creations *)

Lemma created_key spec x : created_from spec x → subKey x = specKey spec.
Proof. unfold subKey, specKey. by intros (-> & -> & -> & _). Qed.

(** After the entries [seen]: the table is what the sweep left, and at most
    one new subscription for each seen key that is neither kept nor blocked. *)
Definition extended (base : list Sub.t) (acc : sweep) (seen : list (string * Spec.t)) m : Prop :=
  ∃ news, view m = base ++ news ∧ NoDup (subKey <$> news) ∧
    ∀ x, x ∈ news → ∃ spec, (subKey x, spec) ∈ seen ∧ created_from spec x ∧
      subKey x ∉ kept acc ∧ subKey x ∉ blocked acc.

Lemma extended_more base acc seen entry m :
  extended base acc seen m → extended base acc (seen ++ [entry]) m.
Proof.
  intros (news & Hv & Hnd & Hin). exists news. split_and!; [done..|].
  intros x Hx. destruct (Hin x Hx) as (spec & ? & ?). exists spec. split; [|done]. apply elem_of_app. by left.
Qed.

Lemma createOne_extended base acc seen k spec m failed created :
  k = specKey spec → k ∉ seen.*1 → extended base acc seen m →
  extended base acc (seen ++ [(k, spec)]) (createOne cfg clock acc (m, (failed, created)) (k, spec)).1.
Proof.
  intros Hk Hns Hext. unfold createOne. case_bool_decide as Hkept; cbn [orb]; [by apply extended_more|].
  case_bool_decide as Hbl; [by apply extended_more|].
  destruct (create cfg clock spec m) as [m' r] eqn:Hc. pose proof (create_sound _ _ _ _ Hc) as Heff.
  assert (extended base acc (seen ++ [(k, spec)]) m'); [|by destruct r].
  destruct Heff as [[Hv _]|(x & Hx & Hv)].
  { apply (extended_more _ _ _ (k, spec)) in Hext as (news & Hv0 & ?). exists news. by rewrite Hv. }
  destruct Hext as (news & Hv0 & Hnd & Hin). exists (news ++ [x]). rewrite Hv, Hv0, app_assoc.
  pose proof (created_key _ _ Hx) as Hxk. split_and!; [done| |].
  - rewrite fmap_app. apply NoDup_app. split_and!; [done| |apply NoDup_singleton].
    intros k' (y & -> & Hy)%list_elem_of_fmap Hk'%list_elem_of_singleton.
    destruct (Hin y Hy) as (spec' & Hs & _). destruct Hns. rewrite Hk, <-Hxk, <-Hk'.
    apply list_elem_of_fmap. by exists (subKey y, spec').
  - intros y [Hy| ->%list_elem_of_singleton]%elem_of_app.
    + destruct (Hin y Hy) as (spec' & ? & ?). exists spec'. split; [|done]. apply elem_of_app. by left.
    + exists spec. rewrite Hxk, <-Hk. split_and!; [|done..]. apply elem_of_app. right. by left.
Qed.

Lemma creations_extended base acc todo seen m failed created :
  NoDup (seen ++ todo).*1 → (∀ k spec, (k, spec) ∈ todo → k = specKey spec) →
  extended base acc seen m →
  extended base acc (seen ++ todo) (foldl (createOne cfg clock acc) (m, (failed, created)) todo).1.
Proof.
  revert seen m failed created. induction todo as [|[k spec] todo IH]; intros seen m failed created Hnd Hk Hext.
  { by rewrite app_nil_r. }
  cbn [foldl]. pose proof (createOne_extended base acc seen k spec m failed created) as H1.
  destruct (createOne _ _ _ _ _) as [m1 [failed1 created1]].
  replace (seen ++ (k, spec) :: todo) with ((seen ++ [(k, spec)]) ++ todo) in Hnd |- * by by rewrite <-app_assoc.
  apply IH; [done|set_solver|]. apply H1; [apply Hk; by left| |done].
  rewrite !fmap_app in Hnd. apply NoDup_app in Hnd as (Hnd & _). apply NoDup_app in Hnd as (_ & Hd & _).
  intros Hin. apply (Hd k Hin). by left.
Qed.

(** ** Desired, by key *)

Lemma indexByKey_desired registrations :
  indexByKey (desiredEventSubSubscriptions cfg registrations) = uniqueSpecs cfg registrations.
Proof.
  change (indexByKey ?l) with (foldl insertSpec ∅ l). apply map_eq. intros k.
  destruct (uniqueSpecs cfg registrations !! k) as [spec|] eqn:Hu.
  - destruct (uniqueSpecs_lookup _ _ _ _ Hu) as [-> _].
    destruct (insertSpec_present (desiredEventSubSubscriptions cfg registrations) ∅ spec) as [spec' Hs].
    { left. by apply elem_of_desired. }
    rewrite Hs. apply insertSpec_lookup in Hs as [[Hin Hk]|Hs]; [|by rewrite lookup_empty in Hs].
    apply elem_of_desired in Hin. rewrite <-Hk, Hu in Hin. done.
  - apply eq_None_not_Some. intros [spec' Hs].
    apply insertSpec_lookup in Hs as [[Hin ->]|Hs]; [|by rewrite lookup_empty in Hs].
    apply elem_of_desired in Hin. congruence.
Qed.

Lemma wanted_callback registrations k spec :
  uniqueSpecs cfg registrations !! k = Some spec → Spec.Callback spec = EventSubCallbackURL cfg.
Proof. by intros (_ & r & _ & c & e & rule & _ & _ & _ & _ & _ & _ & ->)%uniqueSpecs_lookup. Qed.

(** ** Reconciliation under failures *)

(** The subscription is for this backend, works, and some registration
    wants one like it. *)
Definition serving (registrations : list R.t) (x : Sub.t) : Prop :=
  own x ∧ usable x = true ∧ ∃ spec, spec ∈ desiredEventSubSubscriptions cfg registrations ∧ specKey spec = subKey x.

Lemma serving_wanted registrations x :
  serving registrations x ↔ own x ∧ usable x = true ∧ is_Some (uniqueSpecs cfg registrations !! subKey x).
Proof.
  unfold serving. split; intros (Ho & Hu & H); (split_and!; [done..|]).
  - destruct H as (spec & Hs%elem_of_desired & <-). eauto.
  - destruct H as [spec Hs]. exists spec. destruct (uniqueSpecs_lookup _ _ _ _ Hs) as [Hk _].
    split; [|done]. apply elem_of_desired. by rewrite <-Hk.
Qed.

(** What was created from a wanted specification serves. *)
Lemma created_serving registrations x spec :
  (subKey x, spec) ∈ rangeMap (uniqueSpecs cfg registrations) → created_from spec x → serving registrations x.
Proof.
  intros Hs%elem_of_rangeMap (_ & _ & _ & Hcb & Hst). apply serving_wanted. split_and!; [|..|by eexists].
  - unfold own. rewrite Hcb. by eapply wanted_callback.
  - unfold usable. by rewrite Hst.
Qed.

(** What is known of a run of [reconcile] that got the list. *)
Lemma reconcile_run turns registrations m :
  view (reconcile cfg clock turns registrations m).1 = view m ∨
  ∃ m1 acc, swept (view m) (view m) (uniqueSpecs cfg registrations) m1 acc ∧
    extended (view m1) acc (rangeMap (uniqueSpecs cfg registrations))
      (reconcile cfg clock turns registrations m).1.
Proof.
  unfold reconcile. destruct (negb (enabled cfg)); [by left|].
  destruct (list_ cfg clock turns m) as [m0 r] eqn:Hl. apply list_sound in Hl as [Hv Hl].
  destruct r as [existing|e]; [|by left]. specialize (Hl existing eq_refl) as ->.
  rewrite indexByKey_desired. right.
  pose proof (sweep_swept (view m) (uniqueSpecs cfg registrations) (view m) [] m0 (mkSweep ∅ ∅ [] 0)
    (table_ids _) eq_refl (swept_init _ _ _ Hv)) as Hs.
  destruct (foldl _ _ (view m)) as [m1 acc]. cbn [fst snd] in Hs.
  pose proof (creations_extended (view m1) acc (rangeMap (uniqueSpecs cfg registrations)) [] m1 (failures acc) 0) as He.
  destruct (foldl _ _ (rangeMap _)) as [m2 [failed created]]. exists m1, acc. split; [done|].
  apply He.
  - apply NoDup_rangeMap.
  - intros k spec Hin%elem_of_rangeMap. by apply uniqueSpecs_lookup in Hin as [? _].
  - exists []. rewrite app_nil_r. split_and!; [done|constructor|]. by intros x ?%elem_of_nil.
Qed.

(** Whatever calls to Twitch fail, are lost after they took effect, or
    are refused for a stale token, a reconciliation does no harm:
    subscriptions of other callbacks are untouched; a subscription type that
    was served before is still served; everything created is wanted, and it
    is the only subscription of this backend with its key. *)
Theorem reconcile_harmless turns registrations m :
  let m' := (reconcile cfg clock turns registrations m).1 in
  foreign (view m') = foreign (view m) ∧
  (∀ x, x ∈ view m → serving registrations x →
     ∃ y, y ∈ view m' ∧ subKey y = subKey x ∧ serving registrations y) ∧
  (∀ x, x ∈ view m' → x ∉ view m →
     serving registrations x ∧ ∀ y, y ∈ view m' → own y → subKey y = subKey x → y = x).
Proof.
  intros m'. pose proof (reconcile_run turns registrations m) as Hrun. fold m' in Hrun.
  destruct Hrun as [Hv|(m1 & acc & Hs & Hext)].
  { rewrite Hv. split_and!; [done| |done]. intros x ? ?. by exists x. }
  destruct Hext as (news & Hv & Hnd & Hin). rewrite Hv.
  assert (∀ x, x ∈ news → serving registrations x) as Hnew.
  { intros x Hx. destruct (Hin x Hx) as (spec & ? & ? & _). by eapply created_serving. }
  split_and!.
  - rewrite <-(swept_foreign _ _ _ _ _ Hs). unfold foreign. rewrite List.filter_app, (filter_none _ news), app_nil_r; [done|].
    intros x Hx. destruct (Hnew x Hx) as [Ho _]. apply negb_false_iff, bool_decide_eq_true, Ho.
  - intros x Hx (Ho & Hu & Hw)%serving_wanted.
    destruct (swept_kept _ _ _ _ _ Hs (subKey x)) as (y & Hy & _ & Hoy & Huy & Hk & Hwy).
    { by apply (swept_usable _ _ _ _ _ Hs). }
    exists y. split_and!; [apply elem_of_app; by left|done|]. apply serving_wanted. by rewrite Hk.
  - intros x [Hx|Hx]%elem_of_app Hnot; [by destruct Hnot; apply (swept_sub _ _ _ _ _ Hs)|].
    split; [by apply Hnew|]. destruct (Hin x Hx) as (_ & _ & _ & Hkx & Hbx).
    intros y [Hy|Hy]%elem_of_app Hoy Heq.
    + destruct Hkx. rewrite <-Heq. apply (swept_left _ _ _ _ _ Hs y); [done|by apply (swept_sub _ _ _ _ _ Hs)|done|].
      by rewrite Heq.
    + by apply (NoDup_fmap_elem subKey news).
Qed.

(** The table holds, for this backend, exactly one working subscription for
    each wanted key, and nothing else. *)
Definition synchronized (registrations : list R.t) (l : list Sub.t) : Prop :=
  (∀ x, x ∈ l → own x → serving registrations x) ∧
  (∀ spec, spec ∈ desiredEventSubSubscriptions cfg registrations →
     ∃ x, x ∈ l ∧ own x ∧ subKey x = specKey spec) ∧
  (∀ x y, x ∈ l → y ∈ l → own x → own y → subKey x = subKey y → x = y).

(** When no deletion failed, what is left for this backend is kept. *)
Lemma swept_base l wanted m acc :
  swept l l wanted m acc → blocked acc = ∅ →
  ∀ x, x ∈ view m → own x → subKey x ∈ kept acc ∧ usable x = true ∧
    ∀ y, y ∈ view m → own y → subKey y = subKey x → y = x.
Proof.
  intros Hs Hb x Hx Hox.
  destruct (swept_left _ _ _ _ _ Hs x Hx) as (? & ? & Hu); [by apply (swept_sub _ _ _ _ _ Hs)|done|rewrite Hb; set_solver|].
  split_and!; [done..|]. intros y Hy. apply Hu; [done|]. by apply (swept_sub _ _ _ _ _ Hs).
Qed.

(** What a sweep without failures and the creations leave is synchronized. *)
Lemma extended_synchronized registrations l m1 acc m2 :
  swept l l (uniqueSpecs cfg registrations) m1 acc → blocked acc = ∅ →
  extended (view m1) acc (rangeMap (uniqueSpecs cfg registrations)) m2 →
  (∀ x, x ∈ view m1 → x ∈ view m2) →
  (∀ k spec, (k, spec) ∈ rangeMap (uniqueSpecs cfg registrations) →
     k ∈ kept acc ∨ ∃ x, x ∈ view m2 ∧ own x ∧ subKey x = k) →
  synchronized registrations (view m2).
Proof.
  intros Hs Hb (news & Hv2 & Hnd & Hin) Hmono Hall.
  assert (∀ x, x ∈ view m1 → own x → subKey x ∈ kept acc ∧ usable x = true ∧
    ∀ y, y ∈ view m1 → own y → subKey y = subKey x → y = x) as Hbase by by eapply swept_base.
  assert (∀ x, x ∈ news → serving registrations x) as Hnew.
  { intros x Hx. destruct (Hin x Hx) as (spec & ? & ? & _). by eapply created_serving. }
  split_and!.
  - intros x Hx Hox. rewrite Hv2 in Hx. apply elem_of_app in Hx as [Hx|Hx]; [|by apply Hnew].
    destruct (Hbase x Hx Hox) as (Hk & Hu & _). apply serving_wanted. split_and!; [done..|].
    by destruct (swept_kept _ _ _ _ _ Hs _ Hk) as (? & _ & _ & _ & _ & _ & ?).
  - intros spec Hspec%elem_of_desired. destruct (Hall (specKey spec) spec) as [Hk|(x & ? & ? & ?)];
      [by apply elem_of_rangeMap| |by eauto].
    destruct (swept_kept _ _ _ _ _ Hs _ Hk) as (x & ? & _ & ? & _ & ? & _). eauto.
  - intros x y Hx Hy Hox Hoy Heq. rewrite Hv2 in Hx, Hy.
    apply elem_of_app in Hx as [Hx|Hx], Hy as [Hy|Hy].
    + symmetry. by apply (Hbase x Hx Hox).
    + destruct (Hin y Hy) as (_ & _ & _ & Hny & _). destruct Hny. rewrite <-Heq. by apply (Hbase x).
    + destruct (Hin x Hx) as (_ & _ & _ & Hnx & _). destruct Hnx. rewrite Heq. by apply (Hbase y).
    + by apply (NoDup_fmap_elem subKey news).
Qed.

(** A failed deletion is reported. *)
Lemma sweep_reported wanted todo m acc :
  (failures acc = [] → blocked acc = ∅) →
  let st := foldl (sweepOne cfg clock wanted) (m, acc) todo in failures st.2 = [] → blocked st.2 = ∅.
Proof.
  revert m acc. induction todo as [|x todo IH]; intros m acc H; [done|]. cbn [foldl].
  destruct (sweepOne cfg clock wanted (m, acc) x) as [m1 acc1] eqn:H1. apply IH. revert H1. unfold sweepOne.
  destruct (negb _); [by intros [= <- <-]|]. destruct (_ && _); [by intros [= <- <-]|].
  destruct (delete_ cfg clock (Sub.ID x) m) as [m' [u|e]]; intros [= <- <-]; [done|].
  cbn. by intros [_ ?]%app_nil.
Qed.

(** So is a failed creation: without a report, every wanted key is kept,
    blocked or created. *)
Lemma creations_reported acc todo m failed created :
  (∀ k spec, (k, spec) ∈ todo → k = specKey spec ∧ Spec.Callback spec = EventSubCallbackURL cfg) →
  let st := foldl (createOne cfg clock acc) (m, (failed, created)) todo in
  st.2.1 = [] →
  failed = [] ∧ (∀ x, x ∈ view m → x ∈ view st.1) ∧
  ∀ k spec, (k, spec) ∈ todo → k ∈ kept acc ∨ k ∈ blocked acc ∨ ∃ x, x ∈ view st.1 ∧ own x ∧ subKey x = k.
Proof.
  revert m failed created. induction todo as [|[k spec] todo IH]; intros m failed created Hk.
  { cbn. intros ->. split_and!; [done..|]. by intros ?? ?%elem_of_nil. }
  destruct (Hk k spec) as [Hks Hcb]; [by left|].
  cbn [foldl]. destruct (createOne cfg clock acc (m, (failed, created)) (k, spec)) as [m1 [failed1 created1]] eqn:H1.
  intros Hst. destruct (IH m1 failed1 created1) as (Hf & Hmono & Hall); [|done|]. { intros ???. apply Hk. by right. }
  assert (failed = [] ∧ (∀ x, x ∈ view m → x ∈ view m1) ∧
    (k ∈ kept acc ∨ k ∈ blocked acc ∨ ∃ x, x ∈ view m1 ∧ own x ∧ subKey x = k)) as (Hf0 & Hmono1 & Hkey).
  { revert H1. unfold createOne. case_bool_decide; cbn [orb]; [intros [= <- <- <-]; naive_solver|].
    case_bool_decide; [intros [= <- <- <-]; naive_solver|].
    destruct (create cfg clock spec m) as [m' [u|e]] eqn:Hc; intros [= <- <- <-]; [|by apply app_nil in Hf as [_ ?]].
    destruct (create_sound _ _ _ _ Hc) as [[_ ?]|(x & Hx & Hv)]; [done|]. rewrite Hv. split_and!; [done| |].
    - intros y Hy. apply elem_of_app. by left.
    - right. right. exists x. split_and!; [apply elem_of_app; right; by left| |].
      + unfold own. destruct Hx as (_ & _ & _ & -> & _). done.
      + rewrite Hks. by apply created_key. }
  split_and!; [done|auto|]. intros k' spec' [[= -> ->]|Hin]%elem_of_cons; [|by eapply Hall].
  destruct Hkey as [?|[?|(x & ? & ? & ?)]]; [by left|by right; left|]. right. right. exists x. auto.
Qed.

(** A reconciliation that reports no error has synchronized the table. *)
Lemma reconcile_success turns registrations m :
  (reconcile cfg clock turns registrations m).2.2 = None →
  synchronized registrations (view (reconcile cfg clock turns registrations m).1).
Proof.
  unfold reconcile. destruct (negb (enabled cfg)); [done|].
  destruct (list_ cfg clock turns m) as [m0 r] eqn:Hl. apply list_sound in Hl as [Hv Hl].
  destruct r as [existing|e]; [|done]. specialize (Hl existing eq_refl) as ->. rewrite indexByKey_desired.
  pose proof (sweep_swept (view m) (uniqueSpecs cfg registrations) (view m) [] m0 (mkSweep ∅ ∅ [] 0)
    (table_ids _) eq_refl (swept_init _ _ _ Hv)) as Hs.
  pose proof (sweep_reported (uniqueSpecs cfg registrations) (view m) m0 (mkSweep ∅ ∅ [] 0) (λ _, eq_refl)) as Hb.
  destruct (foldl _ _ (view m)) as [m1 acc]. cbn [fst snd] in Hs, Hb.
  set (todo := rangeMap (uniqueSpecs cfg registrations)).
  assert (∀ k spec, (k, spec) ∈ todo → k = specKey spec ∧ Spec.Callback spec = EventSubCallbackURL cfg) as Htodo.
  { intros k spec Hin%elem_of_rangeMap. split; [by apply uniqueSpecs_lookup in Hin as [? _]|by eapply wanted_callback]. }
  pose proof (creations_reported acc todo m1 (failures acc) 0 Htodo) as Hr.
  pose proof (creations_extended (view m1) acc todo [] m1 (failures acc) 0) as Hext.
  destruct (foldl _ _ todo) as [m2 [failed created]]. cbn [fst snd] in *.
  destruct failed as [|e failed]; [|done]. intros _. destruct (Hr eq_refl) as (Hf & Hmono & Hall).
  specialize (Hb Hf). eapply extended_synchronized; [done|done| |done|].
  - apply Hext; [apply NoDup_rangeMap|by intros k spec [? _]%Htodo|].
    exists []. rewrite app_nil_r. split_and!; [done|constructor|]. by intros x ?%elem_of_nil.
  - intros k spec Hin. destruct (Hall k spec Hin) as [?|[?|?]]; [by left|set_solver|by right].
Qed.

End Truthful.
(** ** Reconciliation with a healthy service *)

Section Healthy.
Context {rt : GoRuntime} {T : Type} {api : TwitchAPI T} (cfg : Config) {truth : TruthfulTwitch T cfg}.
Context {healthy : HealthyTwitch T cfg} (clock : nat → time).
Implicit Types (m : manager T).

Lemma requestToken_ok m : ∃ m' tok, requestToken cfg clock m = (m', Ok tok) ∧ accepts (net m') tok = true.
Proof.
  unfold requestToken, bind, send. destruct (issues (net m)) as (r & token & Hdo & Hst & Hdec & Hne & Hexp & Hacc).
  destruct (Do (net m) (tokenRequest cfg)) as [t r'] eqn:Ht. cbn [fst snd] in *. subst r'.
  replace (_ || _) with false by lia. rewrite Hdec.
  replace (_ || _) with false by (rewrite bool_decide_false by done; lia).
  cbn. eexists _, _. split; [reflexivity|]. exact Hacc.
Qed.

Lemma token_ok m : ∃ m' tok, token cfg clock m = (m', Ok tok) ∧ (appToken m = "" → accepts (net m') tok = true).
Proof.
  unfold token, Now. case_bool_decide as Htok.
  - destruct (requestToken_ok m) as (m' & tok & -> & ?). eauto.
  - destruct (Before _ _).
    + eexists _, _. split; [done|]. done.
    + destruct (requestToken_ok (m <| readings := S (readings m) |>)) as (m' & tok & Heq & ?). eauto.
Qed.

(** No page is larger than what the manager reads of an answer. *)
Definition fits (l : list Sub.t) : Prop := ∀ cursor, len (encodePage (page l cursor)) ≤ Z.shiftl 4 20.

(** A call that Twitch has no reason to refuse succeeds. *)
Lemma perform_ok c m :
  (∀ spec sub, c = CCreate spec → sub ∈ view cfg m → ¬ conflict spec sub) →
  ∃ m' r, perform cfg clock c m = (m', Ok r) ∧ success c r = true ∧
    ∀ cursor, c = CList cursor → ReadError r = None ∧ Payload r = encodePage (page (view cfg m) cursor).
Proof.
  intros Hc. unfold perform, do_, bind. pose proof (token_view cfg clock m) as Hv1.
  destruct (token_ok m) as (m1 & tok & Htok & _). rewrite Htok in Hv1 |- *. rewrite callRequest_args.
  destruct (send_call cfg m1 c tok) as [_ H401]. unfold send in *.
  destruct (accepts (net m1) tok) eqn:Hacc.
  - destruct (serves (net m1) c tok Hacc) as (r & Hdo & Hs & Hl).
    { intros spec sub Hcs Hin. apply (Hc spec sub Hcs). unfold view in *. by rewrite <-Hv1. }
    destruct (Do (net m1) _) as [t r']. cbn [snd] in Hdo. subst r'.
    replace (StatusCode r =? 401) with false by (destruct c; cbn in Hs; lia).
    eexists _, _. split_and!; [done..|]. cbn [fst] in Hv1. unfold view in *. by rewrite <-Hv1.
  - destruct (refuses (net m1) c tok Hacc) as (r & Hdo & Hst).
    destruct (Do (net m1) _) as [t r']. cbn [snd fst] in *. subst r'. rewrite Hst. cbn [Z.eqb Pos.eqb].
    specialize (H401 r eq_refl Hst). unfold invalidateToken, setToken.
    set (m3 := _ <| tokenUntil := 0 |>). pose proof (token_view cfg clock m3) as Hv3.
    destruct (token_ok m3) as (m4 & tok' & Htok' & Hacc'). rewrite Htok' in Hv3 |- *. specialize (Hacc' eq_refl).
    assert (view cfg m4 = view cfg m) as Hv4.
    { change (view cfg m3) with (table t) in Hv3. change (table t = view cfg m1) in H401. cbn [fst] in Hv1, Hv3. congruence. }
    rewrite callRequest_args. unfold send.
    destruct (serves (net m4) c tok' Hacc') as (r4 & Hdo4 & Hs & Hl).
    { intros spec sub Hcs Hin. apply (Hc spec sub Hcs).
      unfold view in Hv4 |- *. by rewrite <-Hv4. }
    destruct (Do (net m4) _) as [t4 r4']. cbn [snd] in Hdo4. subst r4'.
    eexists _, _. split_and!; [done..|]. unfold view in Hv4 |- *. by rewrite <-Hv4.
Qed.

Lemma delete_ok id m : ∃ m', delete_ cfg clock id m = (m', Ok ()).
Proof.
  unfold delete_, bind.
  change (do_ cfg clock "DELETE" subscriptionsPath [("id", id)] NoBody) with (perform cfg clock (CDelete id)).
  destruct (perform_ok (CDelete id) m) as (m' & r & -> & Hs & _); [done|]. cbn in Hs.
  replace (_ && _) with false by lia. by eexists.
Qed.

Lemma create_ok spec m :
  (∀ sub, sub ∈ view cfg m → ¬ conflict spec sub) → ∃ m', create cfg clock spec m = (m', Ok ()).
Proof.
  intros Hc. unfold create, bind.
  change (do_ cfg clock "POST" subscriptionsPath [] (JSONSpec spec)) with (perform cfg clock (CCreate spec)).
  destruct (perform_ok (CCreate spec) m) as (m' & r & -> & Hs & _).
  { intros spec' sub [= <-]. apply Hc. }
  cbn in Hs. replace (_ || _) with false by lia. by eexists.
Qed.

(** The listing ends, after at most one turn for each subscription and one more. *)
Lemma listLoop_ok turns cursor acc m :
  fits (view cfg m) → (length (rest (view cfg m) cursor) < turns)%nat →
  ∃ m' l, listLoop cfg clock turns cursor acc m = (m', Ok l).
Proof.
  revert cursor acc m. induction turns as [|turns IH]; intros cursor acc m Hfits Hlt; [lia|].
  cbn [listLoop]. unfold bind. change (do_ cfg clock "GET" _ _ NoBody) with (perform cfg clock (CList cursor)).
  destruct (perform_sound cfg clock (CList cursor) m) as [Heff Hok].
  destruct (perform_ok (CList cursor) m) as (m1 & r & Hp & Hs & Hl); [done|]. rewrite Hp in Heff, Hok |- *.
  destruct (Hl cursor eq_refl) as [Hre Hpay]. rewrite Hre.
  set (p := page (view cfg m) cursor) in *.
  assert (decodePage (limited (Z.shiftl 4 20) (Payload r)) = Ok p) as Hdec.
  { unfold limited. rewrite Hpay, (proj2 (Z.leb_le _ _) (Hfits cursor : len (encodePage p) ≤ _)). apply decode_page. }
  assert ((StatusCode r <? 200) || (299 <? StatusCode r) = false) as -> by (cbn in Hs; lia). rewrite Hdec.
  case_bool_decide as Hcur; [by eexists _, _|].
  assert (view cfg m1 = view cfg m) as Hv by by destruct Heff.
  apply IH; rewrite Hv; [done|].
  pose proof (rest_progress (view cfg m) cursor Hcur) as Hlt'. fold p in Hlt'. lia.
Qed.

Lemma list_ok turns m :
  fits (view cfg m) → (length (view cfg m) < turns)%nat →
  ∃ m', list_ cfg clock turns m = (m', Ok (view cfg m)) ∧ view cfg m' = view cfg m.
Proof.
  intros Hfits Hlt. destruct (listLoop_ok turns "" [] m) as (m' & l & Hl); [done|by rewrite rest_start|].
  pose proof (list_sound cfg clock turns m m' (Ok l) Hl) as [Hv Heq]. exists m'.
  split; [|exact Hv]. rewrite <-(Heq l eq_refl). exact Hl.
Qed.

(** No deletion fails. *)
Lemma sweep_ok wanted todo m acc :
  blocked acc = ∅ → failures acc = [] →
  let st := foldl (sweepOne cfg clock wanted) (m, acc) todo in blocked st.2 = ∅ ∧ failures st.2 = [].
Proof.
  revert m acc. induction todo as [|x todo IH]; intros m acc Hb Hf; [done|]. cbn [foldl].
  destruct (sweepOne cfg clock wanted (m, acc) x) as [m1 acc1] eqn:H1.
  assert (blocked acc1 = ∅ ∧ failures acc1 = []) as [Hb1 Hf1]; [|by apply IH].
  revert H1. unfold sweepOne. destruct (negb _); [by intros [= <- <-]|].
  destruct (_ && _); [by intros [= <- <-]|].
  destruct (delete_ok (Sub.ID x) m) as [m' ->]. by intros [= <- <-].
Qed.

(** Every creation succeeds. *)
Lemma creations_ok base acc todo seen m created :
  NoDup (seen ++ todo).*1 → (∀ k spec, (k, spec) ∈ todo → k = specKey spec ∧ Spec.Callback spec = EventSubCallbackURL cfg) →
  (∀ x, x ∈ base → own cfg x → subKey x ∈ kept acc) → blocked acc = ∅ →
  extended cfg base acc seen m →
  (foldl (createOne cfg clock acc) (m, ([], created)) todo).2.1 = [].
Proof.
  revert seen m created. induction todo as [|[k spec] todo IH]; intros seen m created Hnd Hk Hbase Hbl Hext; [done|].
  cbn [foldl]. pose proof (createOne_extended cfg clock base acc seen k spec m [] created) as H1.
  destruct (Hk k spec) as [Hks Hcb]; [by left|].
  assert (k ∉ seen.*1) as Hns.
  { rewrite fmap_app in Hnd. apply NoDup_app in Hnd as (_ & Hd & _). intros Hin. apply (Hd k Hin). by left. }
  specialize (H1 Hks Hns Hext).
  assert (∃ m1 created1, createOne cfg clock acc (m, ([], created)) (k, spec) = (m1, ([], created1)))
    as (m1 & created1 & Hone).
  { unfold createOne. case_bool_decide as Hkept; cbn [orb]; [by exists m, created|].
    rewrite Hbl, bool_decide_false by set_solver.
    destruct (create_ok spec m) as [m' ->]; [|by eexists _, _].
    intros x Hx (Ht & Hver & Hcond & Hxc). assert (subKey x = k) as Hxk.
    { rewrite Hks. unfold subKey, specKey. congruence. }
    destruct Hext as (news & Hv & _ & Hin). rewrite Hv in Hx. apply elem_of_app in Hx as [Hx|Hx].
    - destruct Hkept. rewrite <-Hxk. apply Hbase; [done|]. unfold own. congruence.
    - destruct (Hin x Hx) as (spec' & Hin' & _). destruct Hns. apply list_elem_of_fmap.
      exists (subKey x, spec'). by rewrite Hxk in *. }
  rewrite Hone in H1 |- *. apply (IH (seen ++ [(k, spec)])); [by rewrite <-app_assoc| |done..].
  intros k' spec' Hin. apply Hk. by right.
Qed.

(** On a synchronized table the sweep keeps everything and calls nothing. *)
Lemma sweep_synchronized registrations l todo seen m acc :
  synchronized cfg registrations l → NoDup l → l = seen ++ todo →
  (∀ k, k ∈ kept acc ↔ ∃ x, x ∈ seen ∧ own cfg x ∧ subKey x = k) →
  let st := foldl (sweepOne cfg clock (uniqueSpecs cfg registrations)) (m, acc) todo in
  st.1 = m ∧ blocked st.2 = blocked acc ∧ failures st.2 = failures acc ∧ deleted st.2 = deleted acc ∧
  ∀ k, k ∈ kept st.2 ↔ ∃ x, x ∈ l ∧ own cfg x ∧ subKey x = k.
Proof.
  intros (Hserve & _ & Huniq) Hnd. revert seen acc. induction todo as [|x todo IH]; intros seen acc Hl Hkept; cbn [foldl].
  { rewrite app_nil_r in Hl. by subst. }
  assert (x ∈ l) as Hx by (rewrite Hl; apply elem_of_app; right; by left).
  assert (x ∉ seen) as Hns.
  { rewrite Hl in Hnd. apply NoDup_app in Hnd as (_ & Hd & _). intros Hin. apply (Hd x Hin). by left. }
  assert (∃ acc1, sweepOne cfg clock (uniqueSpecs cfg registrations) (m, acc) x = (m, acc1) ∧
    blocked acc1 = blocked acc ∧ failures acc1 = failures acc ∧ deleted acc1 = deleted acc ∧
    ∀ k, k ∈ kept acc1 ↔ k ∈ kept acc ∨ own cfg x ∧ subKey x = k) as (acc1 & -> & <- & <- & <- & Hk1).
  { unfold sweepOne. case_bool_decide as Ho; cbn [negb]; cycle 1.
    { exists acc. split_and!; [done..|]. intros k. split; [by left|]. by intros [?|[? _]]. }
    destruct (proj1 (serving_wanted _ _ _) (Hserve x Hx Ho)) as (_ & Hu & Hw).
    assert (subKey x ∉ kept acc) as Hnk.
    { intros (y & Hy & Hoy & Hk)%Hkept. destruct Hns. rewrite <-(Huniq y x); [done|set_solver|done..]. }
    rewrite (bool_decide_true _ Hw), (bool_decide_false (_ ∈ _)), Hu by done. cbn [negb andb].
    eexists. split; [done|]. split_and!; [done..|]. intros k. cbn [kept]. set_solver. }
  apply (IH (seen ++ [x]) acc1); [by rewrite <-app_assoc|].
  intros k. rewrite Hk1, Hkept. split.
  - intros [(y & Hy & Hoy & Hk)|[Ho Hk]]; [exists y|exists x]; (split; [apply elem_of_app|done]);
      [by left|right; by left].
  - intros (y & [Hy| ->%list_elem_of_singleton]%elem_of_app & Hoy & Hk); [left; by exists y|by right].
Qed.

(** A reconciliation of a synchronized table does nothing. *)
Lemma reconcile_idle registrations turns m :
  enabled cfg = true → synchronized cfg registrations (view cfg m) →
  fits (view cfg m) → (length (view cfg m) < turns)%nat →
  let out := reconcile cfg clock turns registrations m in
  out.2 = (0, 0, None) ∧ view cfg out.1 = view cfg m.
Proof.
  intros Hen Hsync Hfits Hlt. unfold reconcile. rewrite Hen. cbn [negb].
  destruct (list_ok turns m Hfits Hlt) as (m0 & -> & Hv). rewrite indexByKey_desired.
  destruct (sweep_synchronized registrations (view cfg m) (view cfg m) [] m0 (mkSweep ∅ ∅ [] 0) Hsync)
    as (Hm & Hb & Hf & Hd & Hk); [by eapply NoDup_fmap_1, table_ids|done| |].
  { intros k. cbn. split; [set_solver|]. by intros (x & ?%elem_of_nil & _). }
  destruct (foldl _ _ (view cfg m)) as [m1 acc]. cbn [fst snd blocked failures deleted] in *. subst m1.
  assert (∀ todo, (∀ k spec, (k, spec) ∈ todo → k ∈ kept acc) →
    foldl (createOne cfg clock acc) (m0, (failures acc, 0)) todo = (m0, (failures acc, 0))) as Hnone.
  { induction todo as [|[k spec] todo IH]; intros Hall; [done|]. cbn [foldl]. unfold createOne at 2.
    rewrite bool_decide_true by (apply (Hall k spec); by left). cbn [orb]. apply IH. intros k' s' ?. apply (Hall k' s'). by right. }
  rewrite Hnone; [by rewrite Hf, Hd|]. intros k spec Hin%elem_of_rangeMap. apply Hk.
  destruct Hsync as (_ & Hall & _). destruct (uniqueSpecs_lookup _ _ _ _ Hin) as [-> _].
  destruct (Hall spec) as (x & ? & ? & ?); [by apply elem_of_desired|]. eauto.
Qed.

(** C14.  With a healthy service and enough turns to read the list, one
    reconciliation succeeds and leaves, for this backend, exactly one working
    subscription for each wanted one and no other, whatever was there before
    (missing, duplicated, failed or unwanted subscriptions, a stale token);
    the subscriptions of other callbacks stay, and the next reconciliation
    with the same registrations changes nothing. *)
Theorem reconcile_converges registrations turns m :
  enabled cfg = true → fits (view cfg m) → (length (view cfg m) < turns)%nat →
  let out := reconcile cfg clock turns registrations m in
  out.2.2 = None ∧ synchronized cfg registrations (view cfg out.1) ∧
  foreign cfg (view cfg out.1) = foreign cfg (view cfg m) ∧
  ∀ turns', fits (view cfg out.1) → (length (view cfg out.1) < turns')%nat →
    let out' := reconcile cfg clock turns' registrations out.1 in
    out'.2 = (0, 0, None) ∧ view cfg out'.1 = view cfg out.1.
Proof.
  intros Hen Hfits Hlt out.
  destruct (reconcile_harmless cfg clock turns registrations m) as (Hforeign & _ & _). fold out in Hforeign.
  assert (out.2.2 = None) as Herr; cycle 1.
  { assert (synchronized cfg registrations (view cfg out.1)) as Hsync by by apply reconcile_success.
    split_and!; [done..|]. intros turns' Hfits' Hlt'. by apply reconcile_idle. }
  clear Hforeign. unfold out, reconcile. rewrite Hen. cbn [negb].
  destruct (list_ok turns m Hfits Hlt) as (m0 & -> & Hv). rewrite indexByKey_desired.
  pose proof (sweep_swept cfg clock (view cfg m) (uniqueSpecs cfg registrations) (view cfg m) [] m0 (mkSweep ∅ ∅ [] 0)
    (table_ids _) eq_refl (swept_init _ _ _ _ Hv)) as Hs.
  pose proof (sweep_ok (uniqueSpecs cfg registrations) (view cfg m) m0 (mkSweep ∅ ∅ [] 0) eq_refl eq_refl) as [Hb Hf].
  destruct (foldl _ _ (view cfg m)) as [m1 acc]. cbn [fst snd] in Hs, Hb, Hf.
  pose proof (creations_ok (view cfg m1) acc (rangeMap (uniqueSpecs cfg registrations)) [] m1 0) as Hfail.
  rewrite Hf. destruct (foldl _ _ (rangeMap _)) as [m2 [failed created]]. cbn [fst snd] in *. rewrite Hfail; [done|..].
  - apply NoDup_rangeMap.
  - intros k spec Hin%elem_of_rangeMap. split; [by apply uniqueSpecs_lookup in Hin as [? _]|by eapply wanted_callback].
  - intros x Hx Hox. by apply (swept_base _ _ _ _ _ Hs Hb x).
  - done.
  - exists []. rewrite app_nil_r. split_and!; [done|constructor|]. by intros x ?%elem_of_nil.
Qed.

End Healthy.
(** ** A service that satisfies the laws *)

Module ToyTwitch.

(** The table, one subscription to a page; the token "fresh" is accepted. *)
Record state := mkState {
  subs : list Sub.t;
  subs_ids : bool_decide (NoDup (Sub.ID <$> subs)) = true
}.

Abbreviation flat := (list (string * string * string * string * gmap string string * string * string) * string)%type.
Definition flatten (x : Sub.t) : string * string * string * string * gmap string string * string * string :=
  (Sub.ID x, Sub.Status x, Sub.Type_ x, Sub.Version x, Sub.Condition x, Sub.Method x, Sub.Callback x).
Definition unflatten (x : string * string * string * string * gmap string string * string * string) : Sub.t :=
  let '(a, b, c, d, e, f, g) := x in Sub.mk a b c d e f g.

Definition encode_page (p : eventSubListResponse) : string :=
  writeBits (encode (((flatten <$> Data p), Cursor p) : flat)).
Definition decode_page (s : string) : result eventSubListResponse :=
  match readBits s ≫= λ p, decode p : option flat with
  | Some (l, cursor) => Ok (mkPage (unflatten <$> l) cursor)
  | None => Err (ErrMsg "invalid JSON")
  end.

Lemma page_decode_encode p : decode_page (encode_page p) = Ok p.
Proof.
  unfold decode_page, encode_page. rewrite readBits_writeBits. simpl. rewrite decode_encode.
  destruct p as [l c]. simpl. f_equal. f_equal. rewrite <-list_fmap_compose.
  rewrite <-(list_fmap_id l) at 2. apply list_fmap_ext. by intros i [] _.
Qed.

Lemma decode_limited n p q : decode_page (limited n (encode_page p)) = Ok q → q = p.
Proof.
  unfold limited. destruct (_ <=? _); [rewrite page_decode_encode; by intros [= <-]|].
  pose proof (page_decode_encode p) as Hp. revert Hp. unfold decode_page, encode_page.
  rewrite readBits_writeBits. destruct (readBits (take_str _ _)) as [b|] eqn:Hb; [|done].
  apply readBits_truncated in Hb as ->. intros -> [= ->]. done.
Qed.

(** The cursor of an offset. *)
Fixpoint marks (n : nat) : string := match n with O => "" | S n => String "x" (marks n) end.

Lemma length_marks n : String.length (marks n) = n.
Proof. induction n; simpl; congruence. Qed.

Definition pageAt (l : list Sub.t) (cursor : string) : eventSubListResponse :=
  let offset := String.length cursor in
  mkPage (take 1 (drop offset l)) (if bool_decide (S offset < length l)%nat then marks (S offset) else "").

Lemma pageAt_end l cursor : (length l ≤ String.length cursor)%nat → pageAt l cursor = mkPage [] "".
Proof. intros Hle. unfold pageAt. rewrite drop_ge by done. by rewrite bool_decide_false by lia. Qed.

(** Longer than every identifier in use. *)
Definition freshID (l : list Sub.t) : string := foldr (λ x s, Sub.ID x +:+ s) "!" l.

Lemma freshID_length l x : x ∈ l → (String.length (Sub.ID x) < String.length (freshID l))%nat.
Proof.
  induction l as [|y l IH]; [by intros ?%elem_of_nil|]. cbn [freshID foldr]. rewrite length_app_str. fold (freshID l).
  assert (0 < String.length (freshID l))%nat.
  { clear. induction l as [|z l IH]; [cbn; lia|]. cbn [freshID foldr]. rewrite length_app_str. fold (freshID l). lia. }
  intros [->|Hin%IH]%elem_of_cons; lia.
Qed.

Definition create_sub (l : list Sub.t) (spec : Spec.t) : Sub.t :=
  Sub.mk (freshID l) "webhook_callback_verification_pending" (Spec.Type_ spec) (Spec.Version spec)
    (Spec.Condition spec) (Spec.Method spec) (Spec.Callback spec).

Lemma ids_create l spec :
  bool_decide (NoDup (Sub.ID <$> l)) = true → bool_decide (NoDup (Sub.ID <$> l ++ [create_sub l spec])) = true.
Proof.
  rewrite !bool_decide_eq_true, fmap_app, NoDup_app. intros Hnd. split_and!; [done| |apply NoDup_singleton].
  intros id (x & -> & Hx)%list_elem_of_fmap Heq%list_elem_of_singleton.
  apply freshID_length in Hx. rewrite Heq in Hx. cbn in Hx. lia.
Qed.

Lemma ids_delete l id :
  bool_decide (NoDup (Sub.ID <$> l)) = true →
  bool_decide (NoDup (Sub.ID <$> List.filter (λ x, Sub.ID x != id) l)) = true.
Proof. rewrite !bool_decide_eq_true. apply NoDup_fmap_filter. Qed.

Definition answer (code : Z) (payload : string) : result reply := Ok (mkReply code payload None).

Definition respond (t : state) (r : request) : state * result reply :=
  match Content r with
  | Form _ => (t, answer 200 "token")
  | JSONChat _ => (t, answer 400 "")
  | JSONSpec spec =>
      if Authorization r != "Bearer fresh" then (t, answer 401 "") else
      (mkState (subs t ++ [create_sub (subs t) spec]) (ids_create _ spec (subs_ids t)), answer 202 "")
  | NoBody =>
      if Authorization r != "Bearer fresh" then (t, answer 401 "") else
      if Method r == "GET"
      then (t, answer 200 (encode_page (pageAt (subs t) (match Query r with (_, v) :: _ => v | [] => "" end))))
      else (mkState (List.filter (λ x, Sub.ID x != match Query r with (_, v) :: _ => v | [] => "" end) (subs t))
              (ids_delete _ _ (subs_ids t)), answer 204 "")
  end.

#[export] Instance api : TwitchAPI state := {|
  Do := respond;
  decodePage := decode_page;
  decodeAppToken s := if s == "token" then Ok (mkAppToken "fresh" 3600) else Err (ErrMsg "invalid JSON")
|}.

Section Laws.
Context (cfg : Config).

Lemma query_cursor cursor :
  match (if cursor != "" then [("after", cursor)] else []) with (_, v) :: _ => v | [] => "" end = cursor.
Proof. case_bool_decide; [by subst|done]. Qed.

(** What the service does with a call. *)
Lemma respond_call t c tok :
  respond t (callRequest cfg c tok) =
  if "Bearer " +:+ tok != "Bearer fresh" then (t, answer 401 "") else
  match c with
  | CList cursor => (t, answer 200 (encode_page (pageAt (subs t) cursor)))
  | CCreate spec =>
      (mkState (subs t ++ [create_sub (subs t) spec]) (ids_create _ spec (subs_ids t)), answer 202 "")
  | CDelete id =>
      (mkState (List.filter (λ x, Sub.ID x != id) (subs t)) (ids_delete _ _ (subs_ids t)), answer 204 "")
  end.
Proof.
  destruct c as [cursor|spec|id]; unfold respond, callRequest, apiRequest; cbn [Content Authorization Query Method];
    (destruct (_ != _); [done|]); [|done|done].
  rewrite bool_decide_true by done. by rewrite query_cursor.
Qed.

Lemma respond_effect t c tok :
  let '(t', r) := respond t (callRequest cfg c tok) in
  (r = answer 401 "" ∧ t' = t) ∨ effect c (subs t) (subs t').
Proof.
  rewrite respond_call. destruct (_ != _); [by left|].
  destruct c as [cursor|spec|id]; right; [done| |done].
  exists (create_sub (subs t) spec). done.
Qed.

#[export, refine] Instance truthful : TruthfulTwitch state cfg := {|
  table := subs;
  page := pageAt;
  rest l cursor := drop (String.length cursor) l
|}.
Proof.
  - intros t. apply (bool_decide_eq_true (NoDup (Sub.ID <$> subs t))), subs_ids.
  - done.
  - intros l cursor. unfold pageAt. cbn [Data Cursor].
    destruct (decide (S (String.length cursor) < length l)%nat) as [Hlt|Hlt].
    + rewrite (bool_decide_true _ Hlt). rewrite bool_decide_false by done. rewrite length_marks.
      replace (drop (S (String.length cursor)) l) with (drop 1 (drop (String.length cursor) l))
        by (rewrite drop_drop; f_equal; lia). by rewrite take_drop.
    + rewrite (bool_decide_false _ Hlt). rewrite bool_decide_true by done. rewrite app_nil_r. symmetry. apply take_ge. rewrite length_drop. lia.
  - intros l cursor. unfold pageAt. cbn [Data Cursor]. case_bool_decide as Hlt; [|done]. intros _.
    rewrite length_marks, !length_drop. lia.
  - done.
  - intros t c tok. pose proof (respond_effect t c tok) as H. cbn [Do api].
    destruct (respond _ _) as [t' r]. destruct H as [[_ ->]|H]; [by left|by right].
  - intros t t' c tok r Hdo Hs. pose proof (respond_effect t c tok) as H. cbn [Do api] in Hdo. rewrite Hdo in H.
    destruct H as [[Hr _]|H]; [|done]. injection Hr as ->. by destruct c.
  - intros t t' c tok r Hdo Hst. cbn [Do api] in Hdo. rewrite respond_call in Hdo.
    destruct (_ != _); [by injection Hdo as <- _|]. destruct c; unfold answer in Hdo; by injection Hdo as _ <-.
  - intros t t' cursor tok r p Hdo Hs _ Hp. cbn [Do api decodePage] in *. rewrite respond_call in Hdo.
    unfold answer in Hdo. destruct (_ != _); injection Hdo as _ <-; [done|]. by apply decode_limited in Hp.
Defined.

#[export, refine] Instance healthy : HealthyTwitch state cfg := {|
  accepts t tok := "Bearer " +:+ tok == "Bearer fresh";
  encodePage := encode_page
|}.
Proof.
  - apply page_decode_encode.
  - intros t. by exists (mkReply 200 "token" None), (mkAppToken "fresh" 3600).
  - intros t c tok Hacc. cbn [Do api]. rewrite respond_call, Hacc. cbn. eauto.
  - intros t c tok Hacc _. cbn [Do api]. rewrite respond_call, Hacc. cbn [negb].
    destruct c; eexists; (split; [reflexivity|]); (split; [done|]); by intros cursor' [= <-].
Defined.
End Laws.

(** Another service's subscription, two of ours for the same channel, of
    which one failed and one is not wanted any more, and a stale token. *)
Definition cfg : Config :=
  Config.zero <| EventSubSecret := "s" |> <| EventSubCallbackURL := "https://us" |>
    <| TwitchClientID := "c" |> <| TwitchClientSecret := "cs" |>.
Definition before : list Sub.t := [
  Sub.mk "1" "enabled" "channel.raid" "1" {["to_broadcaster_user_id" := "42"]} "webhook" "https://other";
  Sub.mk "2" "notification_failures_exceeded" "channel.raid" "1" {["to_broadcaster_user_id" := "42"]} "webhook" "https://us";
  Sub.mk "3" "enabled" "stream.online" "1" {["broadcaster_user_id" := "42"]} "webhook" "https://us";
  Sub.mk "4" "enabled" "channel.subscribe" "1" {["broadcaster_user_id" := "42"]} "webhook" "https://us"].
Definition start : manager state := mkManager "stale" (100 * Minute) (mkState before eq_refl) 0 [].
Definition run : manager state * (Z * Z * option error) :=
  @reconcile reference_runtime state api cfg (λ _, 0) 5 exampleRegistrations start.
End ToyTwitch.

Lemma reconcile_converges_witness :
  ToyTwitch.run.2 = (4, 2, None) ∧
  Sub.Type_ <$> ToyTwitch.subs (net ToyTwitch.run.1) =
    ["channel.raid"; "channel.subscribe"; "channel.subscription.gift"; "channel.subscription.message";
     "channel.raid"; "automod.message.hold"] ∧
  @synchronized reference_runtime ToyTwitch.cfg exampleRegistrations (ToyTwitch.subs (net ToyTwitch.run.1)).
Proof.
  split; [vm_compute; reflexivity|]. split; [vm_compute; reflexivity|].
  refine (proj1 (proj2 (@reconcile_converges reference_runtime ToyTwitch.state ToyTwitch.api ToyTwitch.cfg (ToyTwitch.truthful ToyTwitch.cfg)
    (ToyTwitch.healthy ToyTwitch.cfg) (λ _, 0) exampleRegistrations 5 ToyTwitch.start _ _ _))).
  - reflexivity.
  - intros cursor. change (len (ToyTwitch.encode_page (ToyTwitch.pageAt ToyTwitch.before cursor)) ≤ Z.shiftl 4 20).
    destruct (decide (4 ≤ String.length cursor)%nat) as [Hle|Hlt].
    + rewrite ToyTwitch.pageAt_end by exact Hle. vm_compute. discriminate.
    + unfold ToyTwitch.pageAt. destruct (String.length cursor) as [|[|[|[|n]]]]; cycle 4.
      { destruct Hlt. do 4 apply le_n_S. apply Nat.le_0_l. }
      all: vm_compute; discriminate.
  - vm_compute. repeat constructor.
Defined.

End SubscriptionProofs.
