(* ===== verification/PushSocket.v ===== *)
(** * Push socket: [internal/application/push_socket.go]

    The WebSocket framing of the push connection, the hub that knows the
    live connection of each installation, and the checks of the
    authentication message.  Bytes are integers in [0, 256).  A connection
    carries the bytes still to be read, the bytes written and whether it is
    closed; the outcome of a write on the network is an argument ([None] for
    success, and a failed write leaves no trace in the output), and the
    deadlines set on the network connection, which only turn a silent peer
    into a read error, are not modelled. *)

From stdpp Require Import pretty.
From S2P Require Import Prelude GoStrings Credentials Domain.
#[local] Open Scope Z_scope.
#[local] Open Scope go_scope.

Module PushSocket.

Abbreviation bytes := (list Z).

Definition maxSocketMessageBytes : Z := Z.shiftl 64 10.
Definition maxPreAuthSockets : Z := 256.

Record conn := mkConn {
  installationID : string;
  connectionID : string;
  input : bytes;
  output : bytes;
  closed : bool
}.
#[global] Instance eta_conn : Eta conn := λ c,
  mkConn (installationID c) (connectionID c) (input c) (output c) (closed c).

Definition ErrClosed : error := ErrMsg "use of closed network connection".
Definition EOF : error := ErrMsg "EOF".
Definition ErrUnexpectedEOF : error := ErrMsg "unexpected EOF".

(** [binary.BigEndian]. *)
Fixpoint beBytes (n : nat) (z : Z) : bytes :=
  match n with
  | O => []
  | S n => (z / 256 ^ Z.of_nat n) mod 256 :: beBytes n z
  end.
Definition beValue (l : bytes) : Z := foldl (λ acc b, acc * 256 + b) 0 l.

(** ** Writing *)

(** The bytes of an unmasked final frame. *)
Definition frameBytes (opcode : Z) (payload : bytes) : bytes :=
  let first := Z.lor 128 opcode in
  let length := Z.of_nat (length payload) in
  [first] ++
  (if length <=? 125 then [length mod 256]
   else if length <=? 65535 then [126] ++ beBytes 2 (length mod 2 ^ 16)
   else [127] ++ beBytes 8 (length mod 2 ^ 64)) ++
  payload.

Definition writeFrame (io : option error) (c : conn) (opcode : Z) (payload : bytes)
    : conn * option error :=
  if closed c then (c, Some ErrClosed) else
  match io with
  | Some err => (c, Some err)
  | None => (c <| output := output c ++ frameBytes opcode payload |>, None)
  end.

(** ** Reading *)

Definition readByte (input : bytes) : result (Z * bytes) :=
  match input with
  | [] => Err EOF
  | b :: input => Ok (b, input)
  end.

(** [io.ReadFull] of [n] bytes. *)
Definition readFull (n : nat) (input : bytes) : result (bytes * bytes) :=
  if (n <=? length input)%nat then Ok (take n input, drop n input) else
  match input with [] => Err EOF | _ => Err ErrUnexpectedEOF end.

(** The payload length and the input after the extended length. *)
Definition readLength (second : Z) (input : bytes) : result (Z * bytes) :=
  let length := Z.land second 127 in
  if length =? 126 then
    let? value := readFull 2 input in Ok (beValue value.1, value.2)
  else if length =? 127 then
    let? value := readFull 8 input in Ok (beValue value.1, value.2)
  else Ok (length, input).

(** The checks on opcode and length. *)
Definition checkFrame (fin : bool) (opcode length : Z) : option error :=
  if 8 <=? opcode then
    if negb fin then Some (ErrMsg "fragmented WebSocket control frame") else
    if 125 <? length then Some (ErrMsg "WebSocket control frame exceeds 125 bytes") else
    if maxSocketMessageBytes <? length then Some (ErrMsg "WebSocket frame exceeds 65536 bytes") else None
  else
    if negb fin then Some (ErrMsg "fragmented WebSocket frames are not supported") else
    if maxSocketMessageBytes <? length then Some (ErrMsg "WebSocket frame exceeds 65536 bytes") else None.

(** [payload[index] ^= mask[index%4]]. *)
Definition unmask (mask payload : bytes) : bytes :=
  imap (λ index b, Z.lxor b (nth (index mod 4) mask 0)) payload.

(** One frame: its opcode, its payload and the rest of the input. *)
Definition readFrame (input : bytes) : result (Z * bytes * bytes) :=
  let? r := readByte input in let '(first, input) := r in
  let? r := readByte input in let '(second, input) := r in
  let fin := negb (Z.land first 128 =? 0) in
  let opcode := Z.land first 15 in
  let masked := negb (Z.land second 128 =? 0) in
  if negb (Z.land first 112 =? 0) then Err (ErrMsg "WebSocket reserved bits are not supported") else
  if negb masked then Err (ErrMsg "client WebSocket frame is not masked") else
  let? r := readLength second input in let '(length, input) := r in
  match checkFrame fin opcode length with
  | Some err => Err err
  | None =>
      let? r := readFull 4 input in let '(mask, input) := r in
      let? r := readFull (Z.to_nat length) input in let '(payload, input) := r in
      Ok (opcode, unmask mask payload, input)
  end.

(** The reading loop.  Setting the deadline fails on a closed connection.  A
    turn consumes at least six bytes, so as many turns as there are bytes are
    enough; [io] gives the outcome of the write of each turn.  After a read
    error the callers give the connection up, so the bytes of the broken
    frame are left in the input. *)
Fixpoint readLoop (fuel : nat) (io : nat → option error) (c : conn) : conn * result bytes :=
  match fuel with
  | O => (c, Err EOF)
  | S fuel =>
      if closed c then (c, Err ErrClosed) else
      match readFrame (input c) with
      | Err err => (c, Err err)
      | Ok (opcode, payload, rest) =>
          let c := c <| input := rest |> in
          if opcode =? 1 then (c, Ok payload) else
          if opcode =? 8 then let '(c, _) := writeFrame (io 0%nat) c 8 payload in (c, Err EOF) else
          if opcode =? 9 then
            let '(c, err) := writeFrame (io 0%nat) c 10 payload in
            match err with
            | Some err => (c, Err err)
            | None => readLoop fuel (λ i, io (S i)) c
            end
          else if opcode =? 10 then readLoop fuel (λ i, io (S i)) c
          else (c, Err (ErrMsg ("unsupported WebSocket opcode " +:+ pretty opcode)))
      end
  end.

Definition readText (io : nat → option error) (c : conn) : conn * result bytes :=
  readLoop (S (length (input c))) io c.

(** ** Authentication message *)

Record socketClientMessage := mkMessage {
  Type_ : string;
  ProtocolVersion : Z;
  MInstallationID : string;
  MDeviceSecret : string;
  LastEventID : string;
  MEventID : string
}.

Definition validatePushSocketAuthentication (message : socketClientMessage) : option error :=
  if Type_ message != "authenticate" then Some (ErrMsg "unsupported push protocol") else
  let protocolVersion := ProtocolVersion message in
  let protocolVersion := if protocolVersion =? 0 then 1 else protocolVersion in
  if negb (protocolVersion =? 1) then Some (ErrMsg "unsupported push protocol") else None.

Section Headers.
Context {uni : Unicode}.
Definition headerContainsToken (value token : string) : bool :=
  existsb (λ item, EqualFold (TrimSpace item) token) (Split "," value).
End Headers.

Definition randomSocketID (rnd : rand_read) : result string :=
  match rnd 16%nat with
  | None => Err (ErrMsg "rand")
  | Some value => Ok ("psc_" +:+ Base64.EncodeToString value)
  end.

(** ** The hub

    Connections are pointers; here a pointer is a number, [owner] gives the
    installation a connection was authenticated for, and [shut] is the set
    of closed connections. *)

Record PushHub := mkHub {
  connections : gmap string nat;
  shut : gset nat
}.
#[global] Instance eta_hub : Eta PushHub := λ h, mkHub (connections h) (shut h).

Definition NewPushHub : PushHub := mkHub ∅ ∅.

Section Hub.
Context (owner : nat → string).

Definition close (h : PushHub) (connection : nat) : PushHub :=
  h <| shut := {[connection]} ∪ shut h |>.

Definition Attach (h : PushHub) (connection : nat) : PushHub :=
  let previous := connections h !! owner connection in
  let h := h <| connections := <[owner connection := connection]> (connections h) |> in
  match previous with
  | Some previous => if previous != connection then close h previous else h
  | None => h
  end.

Definition Detach (h : PushHub) (connection : nat) : PushHub :=
  if bool_decide (connections h !! owner connection = Some connection)
  then h <| connections := delete (owner connection) (connections h) |> else h.

(** [send] is the outcome of [sendJSON] on the connection. *)
Definition Send (h : PushHub) (installationID : string) (send : nat → option error)
    : PushHub * option error :=
  match connections h !! installationID with
  | None => (h, Some ErrRegistrationNotFound)
  | Some connection =>
      match send connection with
      | Some err => (close h connection, Some err)
      | None => (h, None)
      end
  end.

Definition Close (h : PushHub) (installationID : string) : PushHub :=
  match connections h !! installationID with
  | Some connection => close h connection
  | None => h
  end.
End Hub.

End PushSocket.
