(* ===== verification/PushSocketProofs.v ===== *)
(** * Push socket: theorems

    The reader inverts the masked framing a client uses and answers pings,
    the writer's frames decode to what was written, no frame beyond the
    limit is accepted, and an installation has one live connection. *)

From S2P Require Import Prelude GoStrings Credentials Domain PushSocket.

Module PushSocketProofs.
Import PushSocket.

(** ** Big-endian numbers *)

Lemma beBytes_length n z : length (beBytes n z) = n.
Proof. revert z. induction n; intros; simpl; auto. Qed.

Lemma beValue_beBytes n z : beValue (beBytes n z) = z mod 256 ^ Z.of_nat n.
Proof.
  unfold beValue.
  assert (∀ acc, foldl (λ acc b, acc * 256 + b) acc (beBytes n z) =
    acc * 256 ^ Z.of_nat n + z mod 256 ^ Z.of_nat n) as Hgen; [|by rewrite Hgen].
  induction n as [|n IH]; intros acc; cbn [beBytes foldl].
  { rewrite Z.mod_1_r. lia. }
  rewrite IH, Nat2Z.inj_succ, Z.pow_succ_r by lia.
  rewrite (Z.mul_comm 256), Z.rem_mul_r by lia. lia.
Qed.

Lemma beBytes_value n z : 0 ≤ z < 256 ^ Z.of_nat n → beValue (beBytes n z) = z.
Proof. intros. rewrite beValue_beBytes. by apply Z.mod_small. Qed.

(** ** Reading full blocks *)

Lemma readFull_app n l rest : length l = n → readFull n (l ++ rest) = Ok (l, rest).
Proof.
  intros <-. unfold readFull. rewrite length_app.
  destruct (Nat.leb_spec (length l) (length l + length rest)); [|lia].
  by rewrite take_app_length, drop_app_length.
Qed.

Lemma readFull_ok n l a b : readFull n l = Ok (a, b) → l = a ++ b ∧ length a = n.
Proof.
  unfold readFull. destruct (Nat.leb_spec n (length l)); [|by destruct l].
  intros [= <- <-]. rewrite take_drop, length_take. split; [done|lia].
Qed.

(** ** The client's framing (RFC 6455, section 5.2) *)

(** The seven-bit length and the extended length of a payload. *)
Definition length7 (n : Z) : Z := if n <=? 125 then n else if n <=? 65535 then 126 else 127.
Definition extended (n : Z) : bytes :=
  if n <=? 125 then []
  else if n <=? 65535 then [n / 2 ^ 8; n mod 2 ^ 8]
  else [n / 2 ^ 56; n / 2 ^ 48 mod 2 ^ 8; n / 2 ^ 40 mod 2 ^ 8; n / 2 ^ 32 mod 2 ^ 8;
        n / 2 ^ 24 mod 2 ^ 8; n / 2 ^ 16 mod 2 ^ 8; n / 2 ^ 8 mod 2 ^ 8; n mod 2 ^ 8].

(** Masking (section 5.3): the bytes of the key are used in turn. *)
Fixpoint masked (key payload : bytes) : bytes :=
  match payload, key with
  | b :: payload, k :: key => Z.lxor b k :: masked (key ++ [k]) payload
  | payload, _ => payload
  end.

(** A final frame as a client sends it. *)
Definition clientFrame (opcode : Z) (mask payload : bytes) : bytes :=
  let n := Z.of_nat (length payload) in
  [128 + opcode; 128 + length7 n] ++ extended n ++ mask ++ masked mask payload.

(** The pong a server owes for a ping. *)
Definition pongFrame (payload : bytes) : bytes := [138; Z.of_nat (length payload)] ++ payload.

Lemma length7_range n : 0 ≤ n → 0 ≤ length7 n < 128.
Proof. unfold length7. intros. repeat case_match; lia. Qed.

(** The masking bit and the length share the second byte. *)
Definition second_ok (l : Z) : bool :=
  negb (Z.land (128 + l) 128 =? 0) && (Z.land (128 + l) 127 =? l).

Lemma second_all : forallb second_ok (Z.of_nat <$> seq 0 128) = true.
Proof. vm_compute. reflexivity. Qed.

Lemma second_spec l :
  0 ≤ l < 128 → (Z.land (128 + l) 128 =? 0) = false ∧ Z.land (128 + l) 127 = l.
Proof.
  intros Hl. pose proof second_all as Hall. rewrite forallb_forall in Hall.
  specialize (Hall l ltac:(apply list_elem_of_In, list_elem_of_fmap; exists (Z.to_nat l);
    rewrite elem_of_seq; lia)).
  apply andb_prop in Hall as [H1%negb_true_iff H2%Z.eqb_eq]. done.
Qed.

Lemma unmask_length mask payload : length (unmask mask payload) = length payload.
Proof. unfold unmask. apply length_imap. Qed.

Lemma masked_length key payload : length (masked key payload) = length payload.
Proof. revert key. induction payload as [|b payload IH]; intros [|k key]; cbn; auto. Qed.

(** The key after [n] bytes: its bytes in the turn of position [n]. *)
Lemma unmask_masked_at n a b c d payload :
  imap (λ i x, Z.lxor x (nth ((n + i) mod 4) [a; b; c; d] 0))
    (masked (rotate n [a; b; c; d]) payload) = payload.
Proof.
  revert n. induction payload as [|x payload IH]; intros n; [by destruct (rotate _ _)|].
  assert (rotate n [a; b; c; d] = nth (n mod 4) [a; b; c; d] 0 :: tail (rotate n [a; b; c; d]) ∧
    tail (rotate n [a; b; c; d]) ++ [nth (n mod 4) [a; b; c; d] 0] = rotate (S n) [a; b; c; d]) as [Hhd Htl].
  { unfold rotate. change (length [a; b; c; d]) with 4%nat.
    assert (n mod 4 < 4)%nat as Hn by (apply Nat.mod_upper_bound; lia).
    assert (S n mod 4 = if bool_decide (n mod 4 = 3) then 0 else S (n mod 4))%nat as ->.
    { pose proof (Nat.div_mod n 4 ltac:(lia)). case_bool_decide as H3.
      - symmetry. apply (Nat.mod_unique _ _ (S (n / 4))); lia.
      - symmetry. apply (Nat.mod_unique _ _ (n / 4)); lia. }
    destruct (n mod 4)%nat as [|[|[|[|]]]]; [done..|lia]. }
  rewrite Hhd. cbn [masked]. rewrite Htl. cbn [imap]. rewrite Nat.add_0_r. f_equal.
  - by rewrite Z.lxor_assoc, Z.lxor_nilpotent, Z.lxor_0_r.
  - rewrite <-(IH (S n)) at 2. apply imap_ext. intros i y _. cbn. by rewrite Nat.add_succ_r.
Qed.

Lemma unmask_masked mask payload : length mask = 4%nat → unmask mask (masked mask payload) = payload.
Proof.
  intros Hm. destruct mask as [|a [|b [|c [|d [|]]]]]; try done. apply (unmask_masked_at 0).
Qed.

Lemma extended_be n : 0 ≤ n < 2 ^ 64 →
  extended n = if n <=? 125 then [] else if n <=? 65535 then beBytes 2 n else beBytes 8 n.
Proof.
  intros Hn. unfold extended. destruct (n <=? 125); [done|]. destruct (Z.leb_spec n 65535).
  - cbn. rewrite Z.div_1_r, (Z.mod_small (n / 256)); [done|]. change 256 with (2 ^ 8). split; [apply Z.div_pos; lia|].
    apply Z.div_lt_upper_bound; lia.
  - cbn. rewrite Z.div_1_r, (Z.mod_small (n / 72057594037927936)); [done|]. split; [apply Z.div_pos; lia|].
    apply Z.div_lt_upper_bound; lia.
Qed.

Lemma readLength_client n rest :
  0 ≤ n < 2 ^ 64 → readLength (128 + length7 n) (extended n ++ rest) = Ok (n, rest).
Proof.
  intros Hn. rewrite extended_be by done. unfold readLength.
  destruct (second_spec (length7 n)) as [_ ->]; [apply length7_range; lia|].
  unfold length7.
  destruct (Z.leb_spec n 125).
  { destruct (Z.eqb_spec n 126); [lia|]. destruct (Z.eqb_spec n 127); [lia|]. done. }
  destruct (Z.leb_spec n 65535).
  - rewrite (readFull_app 2) by apply beBytes_length. cbn [result_bind fst snd].
    rewrite beBytes_value; [done|]. simpl. lia.
  - change (127 =? 126) with false. change (127 =? 127) with true. cbv iota.
    rewrite (readFull_app 8) by apply beBytes_length. cbn [result_bind fst snd].
    rewrite beBytes_value; [done|]. simpl. lia.
Qed.

(** The opcodes the reader serves, each with its limit. *)
Definition served (opcode n : Z) : Prop :=
  opcode = 1 ∧ n ≤ maxSocketMessageBytes ∨
  (opcode = 8 ∨ opcode = 9 ∨ opcode = 10) ∧ n ≤ 125.

Lemma readFrame_client opcode mask payload rest :
  length mask = 4%nat → served opcode (Z.of_nat (length payload)) →
  readFrame (clientFrame opcode mask payload ++ rest) = Ok (opcode, payload, rest).
Proof.
  intros Hmask Hserved. unfold clientFrame, readFrame.
  set (n := Z.of_nat (length payload)) in *.
  assert (0 ≤ n < 2 ^ 64) as Hn.
  { unfold served, maxSocketMessageBytes in Hserved. rewrite Z.shiftl_mul_pow2 in Hserved by lia. lia. }
  rewrite <-!app_assoc. cbn [app readByte result_bind].
  destruct (second_spec (length7 n)) as [-> _]; [apply length7_range; lia|]. cbn [negb].
  rewrite readLength_client by done. cbn [result_bind].
  assert (Z.land (128 + opcode) 112 = 0 ∧ Z.land (128 + opcode) 15 = opcode ∧
    (Z.land (128 + opcode) 128 =? 0) = false ∧ checkFrame true opcode n = None)
    as (-> & -> & -> & Hcheck).
  { destruct Hserved as [[-> ?]|[[->|[->| ->]] ?]]; repeat split; unfold checkFrame; cbn -[Z.ltb];
      rewrite ?(proj2 (Z.ltb_ge 125 n)) by done; try rewrite (proj2 (Z.ltb_ge maxSocketMessageBytes n)); try done.
    all: unfold maxSocketMessageBytes; rewrite Z.shiftl_mul_pow2; lia. }
  cbn [negb Z.eqb]. rewrite Hcheck, readFull_app by done. cbn [result_bind].
  rewrite readFull_app; [|rewrite masked_length; lia]. cbn [result_bind].
  by rewrite unmask_masked.
Qed.

(** ** A conversation: pings and pongs, then a text message *)

Inductive control := Ping (mask payload : bytes) | Pong (mask payload : bytes).

Definition control_ok (k : control) : Prop :=
  match k with Ping mask payload | Pong mask payload => length mask = 4%nat ∧ (length payload ≤ 125)%nat end.
Definition control_frame (k : control) : bytes :=
  match k with Ping mask payload => clientFrame 9 mask payload | Pong mask payload => clientFrame 10 mask payload end.
(** The frames the server owes: the same payload in a pong, for a ping. *)
Definition answer (k : control) : bytes :=
  match k with Ping _ payload => pongFrame payload | Pong _ _ => [] end.

Lemma pong_bytes payload : (length payload ≤ 125)%nat → frameBytes 10 payload = pongFrame payload.
Proof.
  intros Hlen. unfold frameBytes, pongFrame. rewrite (proj2 (Z.leb_le _ _)) by lia. rewrite Z.mod_small by lia. done.
Qed.

Lemma conn_input_self (c : conn) i : input c = i → c <| input := i |> = c.
Proof. intros <-. by destruct c. Qed.

Lemma readLoop_conversation fuel c ks mask text rest :
  closed c = false → Forall control_ok ks →
  length mask = 4%nat → Z.of_nat (length text) ≤ maxSocketMessageBytes →
  input c = mjoin (control_frame <$> ks) ++ clientFrame 1 mask text ++ rest →
  (length ks < fuel)%nat →
  readLoop fuel (λ _, None) c =
    (c <| input := rest |> <| output := output c ++ mjoin (answer <$> ks) |>, Ok text).
Proof.
  revert fuel c. induction ks as [|k ks IH]; intros fuel c Hopen Hks Hmask Htext Hin Hfuel;
    (destruct fuel as [|fuel]; [simpl in Hfuel; lia|]); cbn [readLoop]; rewrite Hopen, Hin.
  { cbn [fmap list_fmap mjoin list_join app].
    rewrite readFrame_client by (unfold served; auto). cbn -[app]. rewrite app_nil_r.
    by destruct c. }
  apply Forall_cons in Hks as [Hk Hks]. rewrite fmap_cons. cbn [mjoin list_join]. rewrite <-app_assoc.
  destruct k as [m p|m p]; destruct Hk as [Hm Hp]; cbn [control_frame].
  - rewrite readFrame_client by (unfold served; auto with lia).
    cbn [Z.eqb Pos.eqb]. unfold writeFrame. cbn [closed update]. rewrite Hopen, pong_bytes by done.
    rewrite IH by (try done; simpl in Hfuel; lia). cbn [update eta_conn eta output input fmap list_fmap mjoin list_join].
    rewrite <-app_assoc. done.
  - rewrite readFrame_client by (unfold served; auto with lia).
    cbn [Z.eqb Pos.eqb].
    rewrite IH by (try done; simpl in Hfuel; lia). done.
Qed.

Lemma control_frames_length ks :
  (length ks ≤ length (mjoin (control_frame <$> ks)))%nat.
Proof.
  induction ks as [|k ks IH]; [done|]. rewrite fmap_cons. cbn [mjoin list_join].
  rewrite length_app. assert (1 ≤ length (control_frame k))%nat as H1; [destruct k; simpl; lia|].
  exact (Nat.add_le_mono 1 _ _ _ H1 IH).
Qed.

(** C38.  After any number of masked ping and pong frames, the next masked
    text frame of at most 65536 bytes is returned exactly as the client sent
    it, the input after it is left for the next call, and the output grew by
    one pong per ping, with the ping's payload, in order. *)
Theorem read_text_round_trip c ks mask text rest :
  closed c = false → Forall control_ok ks →
  length mask = 4%nat → Z.of_nat (length text) ≤ 65536 →
  input c = mjoin (control_frame <$> ks) ++ clientFrame 1 mask text ++ rest →
  readText (λ _, None) c =
    (c <| input := rest |> <| output := output c ++ mjoin (answer <$> ks) |>, Ok text).
Proof.
  intros ???? Hin. apply (readLoop_conversation _ _ _ mask); try done.
  rewrite Hin, length_app. pose proof (control_frames_length ks). lia.
Qed.

Lemma read_text_round_trip_witness :
  let mask := [1; 2; 3; 4] in
  let c := mkConn "device" "psc" (clientFrame 9 mask [65; 66] ++ clientFrame 1 mask [123; 125]) [] false in
  readText (λ _, None) c = (mkConn "device" "psc" [] [138; 2; 65; 66] false, Ok [123; 125]).
Proof.
  cbv zeta.
  rewrite (read_text_round_trip _ [Ping [1; 2; 3; 4] [65; 66]] [1; 2; 3; 4] [123; 125] []).
  - reflexivity.
  - reflexivity.
  - repeat constructor.
  - reflexivity.
  - vm_compute. discriminate.
  - reflexivity.
Defined.

(** ** What the reader accepts *)

Lemma readLength_ok second l n rest :
  readLength second l = Ok (n, rest) → ∃ l', l = l' ++ rest.
Proof.
  unfold readLength. destruct (_ =? 126); [|destruct (_ =? 127)].
  - destruct (readFull 2 l) as [[a b]|] eqn:Hr; [|done]. intros [= _ <-].
    apply readFull_ok in Hr as [-> _]. by exists a.
  - destruct (readFull 8 l) as [[a b]|] eqn:Hr; [|done]. intros [= _ <-].
    apply readFull_ok in Hr as [-> _]. by exists a.
  - intros [= _ <-]. by exists [].
Qed.

Lemma checkFrame_ok fin opcode n :
  checkFrame fin opcode n = None →
  fin = true ∧ n ≤ maxSocketMessageBytes ∧ (8 ≤ opcode → n ≤ 125).
Proof.
  unfold checkFrame.
  destruct (Z.leb_spec 8 opcode), fin; cbn [negb]; try done;
    repeat match goal with |- context [?a <? ?b] => destruct (Z.ltb_spec a b) end; try done; lia.
Qed.

(** An accepted frame takes its header, its mask and its payload from the
    input, and its payload is within the limits. *)
Lemma readFrame_ok l opcode payload rest :
  readFrame l = Ok (opcode, payload, rest) →
  (∃ header, l = header ++ rest ∧ (6 + length payload ≤ length header)%nat) ∧
  Z.of_nat (length payload) ≤ maxSocketMessageBytes ∧
  (8 ≤ opcode → (length payload ≤ 125)%nat).
Proof.
  unfold readFrame. destruct l as [|first [|second l]]; [done..|]. cbn [readByte result_bind].
  destruct (negb (Z.land first 112 =? 0)); [done|]. destruct (negb (negb _)); [done|].
  destruct (readLength second l) as [[n l1]|] eqn:Hlen; [|done]. cbn [result_bind].
  destruct (checkFrame _ _ n) eqn:Hcheck; [done|].
  destruct (readFull 4 l1) as [[mask l2]|] eqn:Hmask; [|done]. cbn [result_bind].
  destruct (readFull (Z.to_nat n) l2) as [[p l3]|] eqn:Hp; [|done].
  intros [= <- <- <-].
  apply readLength_ok in Hlen as [l' ->]. apply readFull_ok in Hmask as [-> Hm], Hp as [-> Hp].
  apply checkFrame_ok in Hcheck as (_ & Hmax & Hctl). rewrite unmask_length. split.
  - exists (first :: second :: l' ++ mask ++ p). simpl. rewrite <-!app_assoc, !length_app. split; [done|lia].
  - unfold maxSocketMessageBytes in *. rewrite Z.shiftl_mul_pow2 in * by lia. split; [lia|].
    intros Hop. specialize (Hctl Hop). lia.
Qed.

Lemma writeFrame_input io c opcode payload :
  input (writeFrame io c opcode payload).1 = input c ∧ closed (writeFrame io c opcode payload).1 = closed c.
Proof. unfold writeFrame. destruct (closed c) eqn:?, io; done. Qed.

(** More fuel than input makes no difference. *)
Lemma readLoop_fuel f1 f2 io c :
  (length (input c) < f1)%nat → (length (input c) < f2)%nat →
  readLoop f1 io c = readLoop f2 io c.
Proof.
  revert f2 io c. induction f1 as [|f1 IH]; intros f2 io c H1 H2; [lia|].
  destruct f2 as [|f2]; [lia|]. cbn [readLoop]. destruct (closed c); [done|].
  destruct (readFrame (input c)) as [[[opcode payload] rest]|] eqn:Hr; [|done].
  apply readFrame_ok in Hr as [(header & Hin & Hlen) _]. rewrite Hin, length_app in H1, H2.
  destruct (opcode =? 1); [done|]. destruct (opcode =? 8); [done|].
  destruct (opcode =? 9).
  - pose proof (writeFrame_input (io 0%nat) (c <| input := rest |>) 10 payload) as [Hw _].
    destruct (writeFrame _ _ 10 payload) as [c' [e|]]; [done|]. cbn [fst] in Hw.
    apply IH; rewrite Hw; cbn [update eta eta_conn input]; lia.
  - destruct (opcode =? 10); [|done]. apply IH; cbn [update eta eta_conn input]; lia.
Qed.

Lemma readLoop_limit fuel io c text :
  (readLoop fuel io c).2 = Ok text → Z.of_nat (length text) ≤ maxSocketMessageBytes.
Proof.
  revert io c. induction fuel as [|fuel IH]; intros io c; [done|]. cbn [readLoop].
  destruct (closed c); [done|].
  destruct (readFrame (input c)) as [[[opcode payload] rest]|] eqn:Hr; [|done].
  apply readFrame_ok in Hr as (_ & Hmax & _).
  destruct (opcode =? 1); [by intros [= <-]|].
  destruct (opcode =? 8); [by destruct (writeFrame _ _ 8 _)|].
  destruct (opcode =? 9); [destruct (writeFrame _ _ 10 _) as [c' [e|]]; [done|apply IH]|].
  destruct (opcode =? 10); [apply IH|done].
Qed.

(** C39.  Whatever bytes a client sends and whatever the network answers to
    the writes, the reader decides the call within the bytes it has (any
    larger number of turns gives the same result), and a message it returns
    has at most 65536 bytes. *)
Theorem read_text_bounded io c fuel :
  (length (input c) < fuel)%nat →
  readLoop fuel io c = readText io c ∧
  ∀ text, (readText io c).2 = Ok text → Z.of_nat (length text) ≤ 65536.
Proof.
  intros Hfuel. split; [apply readLoop_fuel; lia|]. intros text Htext.
  by apply readLoop_limit in Htext.
Qed.

Lemma read_text_bounded_witness :
  let c := mkConn "device" "psc" (clientFrame 1 [1; 2; 3; 4] [65]) [] false in
  readLoop 100 (λ _, None) c = readText (λ _, None) c ∧ (readText (λ _, None) c).2 = Ok [65].
Proof.
  cbv zeta. split; [|reflexivity].
  apply (read_text_bounded (λ _, None) (mkConn "device" "psc" (clientFrame 1 [1; 2; 3; 4] [65]) [] false) 100).
  vm_compute. lia.
Defined.

(** ** The server's frames *)

(** A client's parser of unmasked final frames. *)
Definition decodeFrame (l : bytes) : option (Z * bytes * bytes) :=
  match l with
  | first :: second :: l =>
      if (Z.land first 240 =? 128) && (second <? 128) then
        match readLength second l with
        | Ok (n, l) =>
            match readFull (Z.to_nat n) l with
            | Ok (payload, rest) => Some (Z.land first 15, payload, rest)
            | Err _ => None
            end
        | Err _ => None
        end
      else None
  | _ => None
  end.

Fixpoint decodeFrames (fuel : nat) (l : bytes) : list (Z * bytes) :=
  match fuel with
  | O => []
  | S fuel =>
      match decodeFrame l with
      | Some (opcode, payload, rest) => (opcode, payload) :: decodeFrames fuel rest
      | None => []
      end
  end.

Definition first_ok (opcode : Z) : bool :=
  (Z.land (Z.lor 128 opcode) 240 =? 128) && (Z.land (Z.lor 128 opcode) 15 =? opcode).

Lemma first_all : forallb first_ok (Z.of_nat <$> seq 0 16) = true.
Proof. vm_compute. reflexivity. Qed.

Lemma first_spec opcode :
  0 ≤ opcode < 16 → Z.land (Z.lor 128 opcode) 240 = 128 ∧ Z.land (Z.lor 128 opcode) 15 = opcode.
Proof.
  intros Ho. pose proof first_all as Hall. rewrite forallb_forall in Hall.
  specialize (Hall opcode ltac:(apply list_elem_of_In, list_elem_of_fmap; exists (Z.to_nat opcode);
    rewrite elem_of_seq; lia)).
  apply andb_prop in Hall as [H1%Z.eqb_eq H2%Z.eqb_eq]. done.
Qed.

Lemma decodeFrame_frameBytes opcode payload rest :
  0 ≤ opcode < 16 → Z.of_nat (length payload) < 2 ^ 63 →
  decodeFrame (frameBytes opcode payload ++ rest) = Some (opcode, payload, rest).
Proof.
  intros Hop Hlen. unfold frameBytes. set (n := Z.of_nat (length payload)) in *.
  assert (0 ≤ n) by lia. destruct (first_spec opcode Hop) as [H240 H15].
  assert (∀ second ext, 0 ≤ second < 128 → readLength second (ext ++ payload ++ rest) = Ok (n, payload ++ rest) →
    decodeFrame ([Z.lor 128 opcode] ++ ([second] ++ ext) ++ payload ++ rest) = Some (opcode, payload, rest)) as Hdec.
  { intros second ext Hs Hr. cbn [app]. unfold decodeFrame. rewrite H240, H15, Hr.
    rewrite (proj2 (Z.ltb_lt second 128)) by lia. cbn [andb Z.eqb Pos.eqb].
    rewrite readFull_app by lia. done. }
  rewrite <-!app_assoc.
  destruct (Z.leb_spec n 125); [|destruct (Z.leb_spec n 65535)].
  - rewrite Z.mod_small by lia. apply (Hdec n []); [lia|]. unfold readLength.
    change 127 with (Z.ones 7). rewrite Z.land_ones, Z.mod_small by lia. change (Z.ones 7) with 127.
    destruct (Z.eqb_spec n 126); [lia|]. destruct (Z.eqb_spec n 127); [lia|]. done.
  - rewrite Z.mod_small by lia. apply (Hdec 126 (beBytes 2 n)); [lia|]. unfold readLength.
    change (Z.land 126 127 =? 126) with true. cbv iota.
    rewrite (readFull_app 2) by apply beBytes_length. cbn [result_bind fst snd].
    rewrite beBytes_value; [done|]. simpl. lia.
  - rewrite Z.mod_small by lia. apply (Hdec 127 (beBytes 8 n)); [lia|]. unfold readLength.
    change (Z.land 127 127 =? 126) with false. change (Z.land 127 127 =? 127) with true. cbv iota.
    rewrite (readFull_app 8) by apply beBytes_length. cbn [result_bind fst snd].
    rewrite beBytes_value; [done|]. simpl. lia.
Qed.

(** The connection after a sequence of successful writes. *)
Definition writeAll (c : conn) (frames : list (Z * bytes)) : conn :=
  foldl (λ c f, (writeFrame None c f.1 f.2).1) c frames.

Lemma writeAll_output c frames :
  closed c = false → output (writeAll c frames) = output c ++ mjoin ((λ f, frameBytes f.1 f.2) <$> frames).
Proof.
  revert c. induction frames as [|[op p] frames IH]; intros c Hopen.
  { cbn. by rewrite app_nil_r. }
  cbn [writeAll foldl]. unfold writeAll in IH. unfold writeFrame at 2. rewrite Hopen. cbn [fst snd].
  rewrite IH by done. cbn [update eta eta_conn output fmap list_fmap mjoin list_join fst snd].
  by rewrite <-app_assoc.
Qed.

(** A client that parses the byte stream recovers exactly the frames
    the server wrote on the connection, opcode and payload, in the order of
    the writes: for each of the three forms of the length, and with no frame
    swallowed into its neighbour. *)
Theorem written_frames_decode c frames :
  closed c = false → output c = [] →
  Forall (λ f, 0 ≤ f.1 < 16 ∧ Z.of_nat (length f.2) < 2 ^ 63) frames →
  decodeFrames (S (length frames)) (output (writeAll c frames)) = frames.
Proof.
  intros Hopen Hout Hok. rewrite writeAll_output, Hout by done. cbn [app]. clear Hout.
  induction Hok as [|[op p] frames [Hop Hp] Hok IH]; [done|].
  cbn [fmap list_fmap mjoin list_join fst snd length decodeFrames] in *.
  rewrite decodeFrame_frameBytes by done. by rewrite <-IH at 2.
Qed.

Lemma written_frames_decode_witness :
  let c := mkConn "device" "psc" [] [] false in
  decodeFrames 3 (output (writeAll c [(1, repeat 65 126); (10, [7])])) = [(1, repeat 65 126); (10, [7])].
Proof.
  cbv zeta. apply (written_frames_decode _ [(1, repeat 65 126); (10, [7])]); [reflexivity..|].
  repeat constructor; vm_compute; intros; discriminate.
Defined.

(** ** The hub *)

Section HubTrace.
Context (owner : nat → string).

Inductive hubOp :=
| OpAttach (connection : nat)
| OpDetach (connection : nat)
| OpSend (installationID : string) (send : nat → option error)
| OpClose (installationID : string).

Definition hubStep (h : PushHub) (op : hubOp) : PushHub :=
  match op with
  | OpAttach c => Attach owner h c
  | OpDetach c => Detach owner h c
  | OpSend id send => (Send h id send).1
  | OpClose id => Close h id
  end.

(** The connections attached and not detached since. *)
Definition attachedStep (a : gset nat) (op : hubOp) : gset nat :=
  match op with OpAttach c => {[c]} ∪ a | OpDetach c => a ∖ {[c]} | _ => a end.

Definition runHub (ops : list hubOp) : PushHub := foldl hubStep NewPushHub ops.
Definition attached (ops : list hubOp) : gset nat := foldl attachedStep ∅ ops.

Record hub_inv (h : PushHub) (a : gset nat) : Prop := {
  hub_owner : ∀ id c, connections h !! id = Some c → owner c = id ∧ c ∈ a;
  hub_live : ∀ c, c ∈ a → c ∉ shut h → connections h !! owner c = Some c
}.

Lemma hub_inv_close h a c : hub_inv h a → hub_inv (close h c) a.
Proof. intros [Ho Hl]. split; [done|]. intros c' Hc' Hs. apply Hl; [done|]. cbn in Hs. set_solver. Qed.

Lemma hub_inv_attach h a c : hub_inv h a → hub_inv (Attach owner h c) ({[c]} ∪ a).
Proof.
  intros [Ho Hl]. unfold Attach.
  set (h1 := h <| connections := <[owner c := c]> (connections h) |>).
  assert (∀ id c', connections h1 !! id = Some c' → owner c' = id ∧ c' ∈ {[c]} ∪ a) as Ho1.
  { intros id c'. cbn. rewrite lookup_insert_Some. intros [[<- <-]|[Hne Hc']]; [set_solver|].
    destruct (Ho _ _ Hc') as [<- ?]. set_solver. }
  assert (∀ c', c' ∈ {[c]} ∪ a → c' ∉ shut h →
    connections h !! owner c ≠ Some c' ∨ c' = c → connections h1 !! owner c' = Some c') as Hl1.
  { intros c' Hin Hs Hor. cbn. destruct (decide (c' = c)) as [->|Hne]; [by rewrite lookup_insert_eq|].
    assert (c' ∈ a) as Ha by set_solver. pose proof (Hl c' Ha Hs) as Hc'.
    destruct (decide (owner c = owner c')) as [Heq|?]; [|by rewrite lookup_insert_ne].
    rewrite Heq in Hor. naive_solver. }
  destruct (connections h !! owner c) as [p|] eqn:Hp; [destruct (bool_decide_reflect (p = c)) as [->|Hne]|]; cbn [negb].
  - split; [done|]. intros c' ? Hs. apply Hl1; [done..|]. destruct (decide (c' = c)); [by right|left; congruence].
  - split; [done|]. intros c' ? Hs. cbn in Hs. apply Hl1; [done|set_solver|]. left. set_solver.
  - split; [done|]. intros c' ? Hs. apply Hl1; [done..|by left].
Qed.

Lemma hub_inv_detach h a c : hub_inv h a → hub_inv (Detach owner h c) (a ∖ {[c]}).
Proof.
  intros [Ho Hl]. unfold Detach.
  destruct (bool_decide_reflect (connections h !! owner c = Some c)) as [Hc|Hc]; split; cbn.
  - intros id c'. rewrite lookup_delete_Some. intros [Hne Hc']. destruct (Ho _ _ Hc') as [<- ?]. set_solver.
  - intros c' Hin Hs. assert (connections h !! owner c' = Some c') as Hc' by (apply Hl; set_solver).
    rewrite lookup_delete_ne; [done|]. intros Heq. rewrite Heq in Hc. set_solver.
  - intros id c' Hc'. destruct (Ho _ _ Hc') as [<- ?]. set_solver.
  - intros c' Hin Hs. apply Hl; set_solver.
Qed.

Lemma hub_inv_step h a op : hub_inv h a → hub_inv (hubStep h op) (attachedStep a op).
Proof.
  intros Hinv. destruct op as [c|c|id send|id]; cbn [hubStep attachedStep].
  - by apply hub_inv_attach.
  - by apply hub_inv_detach.
  - unfold Send. destruct (connections h !! id) as [c|]; [|done].
    destruct (send c); [by apply hub_inv_close|done].
  - unfold Close. destruct (connections h !! id); [by apply hub_inv_close|done].
Qed.

Lemma hub_inv_run ops : hub_inv (runHub ops) (attached ops).
Proof.
  unfold runHub, attached.
  assert (hub_inv NewPushHub ∅) as H0 by (split; [intros ??; cbn; by rewrite lookup_empty|set_solver]).
  revert H0. generalize NewPushHub (∅ : gset nat). induction ops as [|op ops IH]; intros h a Hinv; [done|].
  cbn [foldl]. by apply IH, hub_inv_step.
Qed.

(** After any interleaving of attaches, detaches, sends and closes, a
    connection that is attached and open is the one the hub routes its
    installation's messages to, so an installation has at most one open
    connection: a late detach of a replaced connection does not cut off its
    successor, and a replaced connection has been closed. *)
Theorem live_connection_is_routed ops c :
  c ∈ attached ops → c ∉ shut (runHub ops) →
  (∀ send, (Send (runHub ops) (owner c) send).2 = send c) ∧
  (∀ c', c' ∈ attached ops → c' ∉ shut (runHub ops) → owner c' = owner c → c' = c).
Proof.
  intros Ha Hs. destruct (hub_inv_run ops) as [_ Hl]. pose proof (Hl c Ha Hs) as Hc. split.
  - intros send. unfold Send. rewrite Hc. by destruct (send c).
  - intros c' Ha' Hs' Heq. pose proof (Hl c' Ha' Hs') as Hc'. congruence.
Qed.
End HubTrace.

Lemma live_connection_is_routed_witness :
  let owner (c : nat) := "device" in
  let ops := [OpAttach 1; OpAttach 2; OpDetach 1] in
  (Send (runHub owner ops) "device" (λ c, if bool_decide (c = 2%nat) then None else Some EOF)).2 = None.
Proof.
  cbv zeta.
  rewrite (proj1 (live_connection_is_routed (λ _, "device") [OpAttach 1; OpAttach 2; OpDetach 1] 2
    ltac:(apply (bool_decide_unpack _); vm_compute; exact I)
    ltac:(apply (bool_decide_unpack _); vm_compute; exact I)) _).
  reflexivity.
Defined.

End PushSocketProofs.
