(* ===== verification/RegistrationInput.v ===== *)
(** * Registration requests: [internal/application/server.go]

    The normalization and validation of what a device sends when it
    registers: trimmed and bounded lists without duplicates, per-channel
    settings restricted to the listed channels, and the provider's required
    fields.  The check of the endpoint's address is an argument,
    [validatePublicHTTPSURL]. *)

From S2P Require Import Prelude GoStrings Credentials Domain.

Module RegistrationInput.
Module R := Registration.

(** [auth_handlers.go] *)
Definition validateMobileDevice (installationID deviceSecret : string) : option error :=
  let installationID := TrimSpace installationID in
  let deviceSecret := TrimSpace deviceSecret in
  if (installationID == "") || (128 <? len installationID) then Some (ErrMsg "invalid installationId") else
  if (len deviceSecret <? 32) || (256 <? len deviceSecret) then Some (ErrMsg "invalid deviceSecret") else
  None.

Section Input.
Context {rt : GoRuntime} {uni : Unicode}.

Definition normalizeRegistration (registration : R.t) : R.t :=
  let registration := registration <| R.Platform := ToLower (TrimSpace (R.Platform registration)) |> in
  let registration := registration <| R.Provider := ToLower (TrimSpace (R.Provider registration)) |> in
  let registration := registration <| R.APNsDeviceToken := TrimSpace (R.APNsDeviceToken registration) |> in
  let registration := registration <| R.Endpoint := TrimSpace (R.Endpoint registration) |> in
  if R.Platform registration == "" then registration <| R.Platform := "android" |> else registration.

Definition validateRegistration (validatePublicHTTPSURL : string → option error) (registration : R.t)
    : option error :=
  match validateMobileDevice (R.InstallationID registration) (R.DeviceSecret registration) with
  | Some err => Some err
  | None =>
      if R.Platform registration == "android" then
        if R.Provider registration == "fcm" then
          if R.FirebaseInstallation registration == ""
          then Some (ErrMsg "firebaseInstallationId is required for FCM") else None
        else if R.Provider registration == "unifiedpush" then
          if (R.Endpoint registration == "") || (R.P256DH registration == "") ||
             (R.Auth registration == "")
          then Some (ErrMsg "endpoint, p256dh and auth are required for UnifiedPush") else
          match validatePublicHTTPSURL (R.Endpoint registration) with
          | Some _ => Some (ErrMsg "UnifiedPush endpoint must be a public HTTPS URL")
          | None => None
          end
        else if R.Provider registration == "embedded_socket" then None
        else Some (ErrMsg "android provider must be fcm, unifiedpush, or embedded_socket")
      else if R.Platform registration == "ios" then
        if R.Provider registration != "apns" then Some (ErrMsg "ios provider must be apns") else
        if R.APNsDeviceToken registration == "" then Some (ErrMsg "apnsDeviceToken is required for APNs")
        else None
      else Some (ErrMsg "platform must be android or ios")
  end.

Definition intersectStrings (values allowed : list string) : list string :=
  let allowedSet : gset string := foldl (λ set value, {[ToLower value]} ∪ set) ∅ allowed in
  foldl (λ result value,
      if bool_decide (ToLower value ∈ allowedSet) then result ++ [value] else result) [] values.

(** The loop of [normalizeLimitedStrings], with its [continue]s and [break]. *)
Fixpoint limitedLoop (maxItems maxLength : Z) (values : list string) (seen : gset string)
    (result : list string) : list string :=
  match values with
  | [] => result
  | value :: values =>
      let value := TrimSpace value in
      if (value == "") || (maxLength <? len value)
      then limitedLoop maxItems maxLength values seen result else
      let key := ToLower value in
      if bool_decide (key ∈ seen) then limitedLoop maxItems maxLength values seen result else
      let seen := {[key]} ∪ seen in
      let result := result ++ [value] in
      if maxItems <=? Z.of_nat (length result) then result
      else limitedLoop maxItems maxLength values seen result
  end.

Definition normalizeLimitedStrings (values : list string) (maxItems maxLength : Z) : list string :=
  limitedLoop maxItems maxLength values ∅ [].

(** The channels by their lower-case identifier. *)
Definition allowedChannels (channelIDs : list string) : gmap string string :=
  foldl (λ allowed channelID,
      let channelID := TrimSpace channelID in
      if channelID != "" then <[ToLower channelID := channelID]> allowed else allowed)
    ∅ channelIDs.

(** The loop the two per-channel maps share; [f] gives the value to store,
    [None] for an entry to skip. *)
Fixpoint channelLoop {V W} (allowed : gmap string string) (f : V → option W)
    (entries : list (string * V)) (result : gmap string W) : gmap string W :=
  match entries with
  | [] => result
  | (rawChannelID, raw) :: entries =>
      match allowed !! ToLower (TrimSpace rawChannelID), f raw with
      | Some channelID, Some value =>
          let result := <[channelID := value]> result in
          if 100 <=? mlen result then result else channelLoop allowed f entries result
      | _, _ => channelLoop allowed f entries result
      end
  end.

Definition normalizeChannelMap {V W} (f : V → option W) (value : gmap string V)
    (channelIDs : list string) : gmap string W :=
  if (mlen value =? 0) || (Z.of_nat (length channelIDs) =? 0) then ∅ else
  let allowed := allowedChannels channelIDs in
  if mlen allowed =? 0 then ∅ else
  channelLoop allowed f (rangeMap value) ∅.

Definition normalizeNotificationChannelRules (value : gmap string (list string))
    (channelIDs : list string) : gmap string (list string) :=
  normalizeChannelMap (λ rawRules, Some (normalizeLimitedStrings rawRules 32 64)) value channelIDs.

Definition normalizeNotificationChannelMutedUntilEpochMillis (value : gmap string Z)
    (channelIDs : list string) : gmap string Z :=
  normalizeChannelMap (λ mutedUntilEpochMillis,
      if mutedUntilEpochMillis <=? 0 then None else Some mutedUntilEpochMillis) value channelIDs.

(** The list and map fields, as [upsertRegistration] normalizes them. *)
Definition normalizeFields (registration : R.t) : R.t :=
  let registration := registration
    <| R.ChannelIDs := normalizeLimitedStrings (R.ChannelIDs registration) 100 64 |> in
  let registration := registration
    <| R.ModeratorChannelIDs := normalizeLimitedStrings (R.ModeratorChannelIDs registration) 100 64 |> in
  let registration := registration
    <| R.ModeratorChannelIDs :=
         intersectStrings (R.ModeratorChannelIDs registration) (R.ChannelIDs registration) |> in
  let registration := registration
    <| R.NotificationRules := normalizeLimitedStrings (R.NotificationRules registration) 32 64 |> in
  let registration := registration
    <| R.NotificationChannelRules :=
         normalizeNotificationChannelRules (R.NotificationChannelRules registration)
           (R.ChannelIDs registration) |> in
  let registration := registration
    <| R.NotificationChannelMutedUntilEpochMillis :=
         normalizeNotificationChannelMutedUntilEpochMillis
           (R.NotificationChannelMutedUntilEpochMillis registration) (R.ChannelIDs registration) |> in
  let registration := registration
    <| R.HighlightPhrases := normalizeLimitedStrings (R.HighlightPhrases registration) 100 200 |> in
  registration
    <| R.SelectedUserLogins := normalizeLimitedStrings (R.SelectedUserLogins registration) 100 50 |>.

(** ** Lemmas *)

Lemma allowedSet_spec (allowed : list string) (acc : gset string) k :
  k ∈ foldl (λ set value, {[ToLower value]} ∪ set) acc allowed ↔
  k ∈ acc ∨ ∃ value, value ∈ allowed ∧ ToLower value = k.
Proof.
  revert acc. induction allowed as [|x l IH]; intros acc; simpl; [set_solver|].
  rewrite IH. set_solver.
Qed.

Lemma intersectLoop_spec (p : string → bool) values result :
  foldl (λ result value, if p value then result ++ [value] else result) result values =
  result ++ List.filter p values.
Proof.
  revert result. induction values as [|x l IH]; intros result; simpl; [by rewrite app_nil_r|].
  destruct (p x); rewrite IH; [by rewrite <-app_assoc|done].
Qed.

Lemma elem_of_intersect values allowed x :
  x ∈ intersectStrings values allowed ↔ x ∈ values ∧ ∃ a, a ∈ allowed ∧ ToLower a = ToLower x.
Proof.
  unfold intersectStrings. rewrite (intersectLoop_spec (λ v, bool_decide (ToLower v ∈ _))). cbn [app].
  rewrite elem_of_filter_bool, bool_decide_eq_true, allowedSet_spec. set_solver.
Qed.

Lemma intersect_sublist values allowed : intersectStrings values allowed `sublist_of` values.
Proof.
  unfold intersectStrings. rewrite (intersectLoop_spec (λ v, bool_decide (ToLower v ∈ _))).
  apply filter_bool_sublist.
Qed.

(** A value [normalizeLimitedStrings] accepts. *)
Definition admissible (maxLength : Z) (value : string) : Prop :=
  value ≠ "" ∧ len value ≤ maxLength ∧ TrimSpace value = value.

(** A list as [normalizeLimitedStrings] leaves it. *)
Record limited (maxItems maxLength : Z) (l : list string) : Prop := {
  limited_values : Forall (admissible maxLength) l;
  limited_distinct : NoDup (ToLower <$> l);
  limited_items : Z.of_nat (length l) ≤ maxItems
}.

Lemma limitedLoop_spec maxItems maxLength values seen result :
  (∀ k, k ∈ seen ↔ k ∈ ToLower <$> result) → limited maxItems maxLength result →
  Z.of_nat (length result) < maxItems →
  let out := limitedLoop maxItems maxLength values seen result in
  limited maxItems maxLength out ∧
  (∃ added, out = result ++ added ∧ added `sublist_of` (TrimSpace <$> values)) ∧
  (Z.of_nat (length out) < maxItems → ∀ v, v ∈ values → admissible maxLength (TrimSpace v) →
     ToLower (TrimSpace v) ∈ ToLower <$> out).
Proof.
  revert seen result. induction values as [|v values IH]; intros seen result Hseen Hlim Hlen; cbn [limitedLoop].
  { cbv zeta. split_and!; [done| |set_solver]. exists []. by rewrite app_nil_r. }
  assert (∀ seen result', (∃ added, result' = result ++ added ∧ added `sublist_of` [TrimSpace v]) →
    (∀ k, k ∈ seen ↔ k ∈ ToLower <$> result') → limited maxItems maxLength result' →
    Z.of_nat (length result') < maxItems →
    (admissible maxLength (TrimSpace v) → ToLower (TrimSpace v) ∈ ToLower <$> result') →
    let out := limitedLoop maxItems maxLength values seen result' in
    limited maxItems maxLength out ∧
    (∃ added, out = result ++ added ∧ added `sublist_of` (TrimSpace <$> (v :: values))) ∧
    (Z.of_nat (length out) < maxItems → ∀ w, w ∈ v :: values → admissible maxLength (TrimSpace w) →
       ToLower (TrimSpace w) ∈ ToLower <$> out)) as Hgo.
  { intros seen' result' (a1 & -> & Ha1) Hs Hl Hn Hv.
    destruct (IH seen' (result ++ a1) Hs Hl Hn) as (H1 & (a2 & H2 & Ha2) & H3). cbv zeta.
    split_and!; [done| |].
    - exists (a1 ++ a2). rewrite H2, app_assoc. split; [done|].
      rewrite fmap_cons. by apply (sublist_app a1 [TrimSpace v] a2).
    - intros Hlt w [->|Hw]%elem_of_cons Hadm; [|by apply H3]. rewrite H2.
      rewrite fmap_app, elem_of_app. left. by apply Hv. }
  destruct (_ || _) eqn:Hbad.
  { apply Hgo; try done.
    - exists []. rewrite app_nil_r. split; [done|apply sublist_nil_l].
    - intros (Hne & Hlen' & _). rewrite orb_true_iff, bool_decide_eq_true, Z.ltb_lt in Hbad. naive_solver lia. }
  rewrite orb_false_iff, bool_decide_eq_false, Z.ltb_ge in Hbad. destruct Hbad as [Hne Hmax].
  assert (admissible maxLength (TrimSpace v)) as Hadm by (split_and!; [done..|apply TrimSpace_idemp]).
  case_bool_decide as Hin.
  { apply Hgo; try done.
    - exists []. rewrite app_nil_r. split; [done|apply sublist_nil_l].
    - intros _. by apply Hseen. }
  assert (limited maxItems maxLength (result ++ [TrimSpace v])) as Hlim'.
  { destruct Hlim as [Hv Hd Hi]. split.
    - apply Forall_app; by split; [|constructor].
    - rewrite fmap_app, NoDup_app. split_and!; [done| |apply NoDup_singleton].
      intros k Hk ->%list_elem_of_singleton. by apply Hin, Hseen.
    - rewrite length_app. simpl. lia. }
  assert (ToLower (TrimSpace v) ∈ ToLower <$> result ++ [TrimSpace v]) as Hnew.
  { rewrite fmap_app, elem_of_app. right. by left. }
  destruct (Z.leb_spec maxItems (Z.of_nat (length (result ++ [TrimSpace v])))) as [Hfull|Hroom].
  - cbv zeta. split_and!; [done| |lia]. exists [TrimSpace v]. split; [done|].
    apply sublist_skip, sublist_nil_l.
  - apply Hgo; try done.
    + exists [TrimSpace v]. by split.
    + intros k. rewrite fmap_app, elem_of_app, elem_of_union, Hseen. set_solver.
Qed.

Lemma limited_nil maxItems maxLength : 0 ≤ maxItems → limited maxItems maxLength [].
Proof. intros. split; [constructor|constructor|simpl; lia]. Qed.

Lemma normalizeLimited_limited values maxItems maxLength :
  0 < maxItems → limited maxItems maxLength (normalizeLimitedStrings values maxItems maxLength).
Proof.
  intros. apply (limitedLoop_spec maxItems maxLength values ∅ []); [set_solver|apply limited_nil; lia|done].
Qed.

(** A list already in that form goes through unchanged. *)
Lemma limitedLoop_id maxItems maxLength l seen result :
  (∀ k, k ∈ seen ↔ k ∈ ToLower <$> result) → limited maxItems maxLength (result ++ l) →
  limitedLoop maxItems maxLength l seen result = result ++ l.
Proof.
  revert seen result. induction l as [|v l IH]; intros seen result Hseen Hlim; cbn [limitedLoop].
  { by rewrite app_nil_r. }
  pose proof Hlim as [Hv Hd Hi]. rewrite Forall_app, Forall_cons in Hv. destruct Hv as (_ & (Hne & Hmax & Htrim) & _).
  rewrite Htrim, bool_decide_false, (proj2 (Z.ltb_ge _ _)) by done. cbn [orb].
  rewrite bool_decide_false; cycle 1.
  { rewrite fmap_app, fmap_cons, NoDup_app in Hd. intros Hin%Hseen. destruct Hd as (_ & Hdis & _).
    eapply Hdis; [exact Hin|by left]. }
  assert (result ++ v :: l = (result ++ [v]) ++ l) as Heq by by rewrite <-app_assoc.
  destruct (Z.leb_spec maxItems (Z.of_nat (length (result ++ [v])))) as [Hfull|Hroom].
  - destruct l; [done|]. rewrite !length_app in *. simpl in *. lia.
  - rewrite Heq. apply IH; [|by rewrite <-Heq].
    intros k. rewrite fmap_app, elem_of_app, elem_of_union, Hseen. set_solver.
Qed.

(** [normalizeLimitedStrings] keeps, in the order of the request and
    trimmed, the first occurrence (ignoring case) of each admissible value,
    at most [maxItems] of them: every value it returns is trimmed, non-blank
    and within the length limit, no two are equal ignoring case, nothing
    admissible is dropped while there is room, and a second pass changes
    nothing. *)
Theorem normalize_limited_exact values maxItems maxLength :
  0 < maxItems →
  let out := normalizeLimitedStrings values maxItems maxLength in
  limited maxItems maxLength out ∧
  out `sublist_of` (TrimSpace <$> values) ∧
  (Z.of_nat (length out) < maxItems → ∀ v, v ∈ values → admissible maxLength (TrimSpace v) →
     ToLower (TrimSpace v) ∈ ToLower <$> out) ∧
  normalizeLimitedStrings out maxItems maxLength = out.
Proof.
  intros Hpos out. pose proof (normalizeLimited_limited values maxItems maxLength Hpos) as Hlim.
  destruct (limitedLoop_spec maxItems maxLength values ∅ []) as (_ & (added & Hadd & Hsub) & Hall);
    [set_solver|apply limited_nil; lia|done|].
  cbn [app] in Hadd.
  split_and!; [done|unfold out, normalizeLimitedStrings; by rewrite Hadd|exact Hall|].
  unfold normalizeLimitedStrings at 1. apply (limitedLoop_id _ _ _ _ []); [set_solver|exact Hlim].
Qed.

(** ** Per-channel maps *)

Lemma allowedChannels_spec channelIDs maxItems maxLength k :
  limited maxItems maxLength channelIDs →
  ∀ c, allowedChannels channelIDs !! k = Some c ↔ c ∈ channelIDs ∧ ToLower c = k.
Proof.
  intros [Hv Hd _] c. unfold allowedChannels.
  assert (∀ acc : gmap string string, (∀ c, c ∈ channelIDs → acc !! ToLower c = None) →
    foldl (λ allowed channelID, let channelID := TrimSpace channelID in
      if channelID != "" then <[ToLower channelID := channelID]> allowed else allowed) acc channelIDs !! k =
      Some c ↔ acc !! k = Some c ∨ c ∈ channelIDs ∧ ToLower c = k) as Hgen.
  { induction channelIDs as [|x l IH]; intros acc Hfresh; cbn [foldl].
    { set_solver. }
    apply Forall_cons in Hv as [(Hne & _ & Ht) Hv]. rewrite fmap_cons, NoDup_cons in Hd. destruct Hd as [Hx Hd].
    cbv zeta. rewrite Ht, bool_decide_false by done. cbn [negb]. rewrite IH; [|done..|].
    - rewrite lookup_insert_Some. split.
      + intros [[[<- <-]|[? ?]]|[? ?]]; [right|left|right]; try done; split; try done; [by left|by right].
      + intros [Hacc|[[->|Hin]%elem_of_cons <-]].
        * left. right. split; [|done]. intros <-. rewrite Hfresh in Hacc; [done|by left].
        * left. by left.
        * right. done.
    - intros c' Hc'. rewrite lookup_insert_ne; [apply Hfresh; by right|].
      intros Heq. apply Hx. rewrite Heq. by apply list_elem_of_fmap_2. }
  rewrite Hgen by (intros; apply lookup_empty). rewrite lookup_empty. naive_solver.
Qed.

Section ChannelMaps.
Context {V W : Type} (f : V → option W) (channelIDs : list string) (maxLength : Z).
Context (Hlim : limited 100 maxLength channelIDs).
Implicit Types (result : gmap string W).

(** An entry of the request that concerns channel [c] with value [w]. *)
Definition concerns (entries : list (string * V)) (c : string) (w : W) : Prop :=
  ∃ raw v, (raw, v) ∈ entries ∧ ToLower (TrimSpace raw) = ToLower c ∧ f v = Some w.

Lemma channelLoop_sound entries result c w :
  channelLoop (allowedChannels channelIDs) f entries result !! c = Some w →
  result !! c = Some w ∨ (c ∈ channelIDs ∧ concerns entries c w).
Proof.
  revert result. induction entries as [|[raw v] entries IH]; intros result; cbn [channelLoop]; [by left|].
  assert (∀ c w, concerns entries c w → concerns ((raw, v) :: entries) c w) as Hmono.
  { intros c' w' (r & v' & ? & ?). exists r, v'. split; [by right|done]. }
  destruct (allowedChannels channelIDs !! _) as [c0|] eqn:Hc0; [destruct (f v) as [w0|] eqn:Hf|]; cycle 1.
  1,2: intros [?|[? ?]]%IH; [by left|right; eauto].
  apply (allowedChannels_spec _ _ _ _ Hlim) in Hc0 as [Hin Hlow].
  assert (∀ c w, <[c0 := w0]> result !! c = Some w →
    result !! c = Some w ∨ (c ∈ channelIDs ∧ concerns ((raw, v) :: entries) c w)) as Hins.
  { intros c' w'. rewrite lookup_insert_Some. intros [[<- <-]|[? ?]]; [|by left].
    right. split; [done|]. exists raw, v. split_and!; [by left|done..]. }
  destruct (100 <=? _); [apply Hins|]. intros [?|[? ?]]%IH; [by apply Hins|right; eauto].
Qed.

(** The loop never drops a channel: it only breaks when every channel of the
    request has an entry. *)
Lemma channelLoop_complete entries result c w :
  (∀ c w, result !! c = Some w → c ∈ channelIDs) → c ∈ channelIDs →
  concerns entries c w ∨ is_Some (result !! c) →
  is_Some (channelLoop (allowedChannels channelIDs) f entries result !! c).
Proof.
  revert result. induction entries as [|[raw v] entries IH]; intros result Hdom Hc Hor; cbn [channelLoop].
  { destruct Hor as [(r & v & Hin & _)|?]; [by apply elem_of_nil in Hin|done]. }
  destruct (allowedChannels channelIDs !! _) as [c0|] eqn:Hc0; [destruct (f v) as [w0|] eqn:Hf|]; cycle 1.
  { apply IH; [done..|]. destruct Hor as [(r & v' & [[= -> ->]|?]%elem_of_cons & Hl & Hv)|?]; [congruence| |by right].
    left. by exists r, v'. }
  { apply IH; [done..|]. destruct Hor as [(r & v' & [[= -> ->]|?]%elem_of_cons & Hl & Hv)|?]; [| |by right].
    - assert (allowedChannels channelIDs !! ToLower (TrimSpace raw) = Some c) as Hs; [|congruence].
      by apply (allowedChannels_spec _ _ _ _ Hlim).
    - left. by exists r, v'. }
  pose proof (proj1 (allowedChannels_spec _ _ _ _ Hlim c0) Hc0) as [Hin0 Hlow0].
  assert (∀ c w, <[c0 := w0]> result !! c = Some w → c ∈ channelIDs) as Hdom'.
  { intros c' w'. rewrite lookup_insert_Some. intros [[<- _]|[_ ?]]; eauto. }
  destruct (Z.leb_spec 100 (mlen (<[c0 := w0]> result))) as [Hfull|Hroom].
  - apply elem_of_dom. rewrite (set_subseteq_size_eq _ (list_to_set channelIDs : gset string)).
    + by apply elem_of_list_to_set.
    + intros k [w' Hk]%elem_of_dom. apply elem_of_list_to_set. by eapply Hdom'.
    + destruct Hlim as [_ Hd Hi]. rewrite size_list_to_set by by eapply NoDup_fmap_1.
      rewrite size_dom. unfold mlen in Hfull. lia.
  - apply IH; [done..|]. destruct Hor as [(r & v' & [[= -> ->]|?]%elem_of_cons & Hl & Hv)|Hs].
    + right. assert (allowedChannels channelIDs !! ToLower (TrimSpace raw) = Some c) as Hs.
      { by apply (allowedChannels_spec _ _ _ _ Hlim). }
      replace c0 with c by congruence. rewrite lookup_insert_eq. eauto.
    + left. by exists r, v'.
    + right. apply lookup_insert_is_Some. destruct (decide (c0 = c)); [by left|by right].
Qed.

Lemma normalizeChannelMap_spec (value : gmap string V) c :
  (∀ w, normalizeChannelMap f value channelIDs !! c = Some w →
     c ∈ channelIDs ∧ concerns (rangeMap value) c w) ∧
  (∀ w, c ∈ channelIDs → concerns (rangeMap value) c w →
     is_Some (normalizeChannelMap f value channelIDs !! c)).
Proof.
  unfold normalizeChannelMap.
  destruct (Z.eqb_spec (mlen value) 0) as [Hv|Hv]; cbn [orb].
  { split; [intros w; by rewrite lookup_empty|]. intros w _ (r & v & Hin%elem_of_rangeMap & _).
    rewrite (map_size_empty_inv value) in Hin by (unfold mlen in Hv; lia). by rewrite lookup_empty in Hin. }
  destruct (Z.eqb_spec (Z.of_nat (length channelIDs)) 0) as [Hn|Hn].
  { destruct channelIDs; [|done]. split; [intros w; by rewrite lookup_empty|]. by intros w ?%elem_of_nil. }
  cbv zeta. destruct (Z.eqb_spec (mlen (allowedChannels channelIDs)) 0) as [Ha|Ha].
  { split; [intros w; by rewrite lookup_empty|]. intros w Hc _.
    assert (allowedChannels channelIDs !! ToLower c = Some c) as Hs by by apply (allowedChannels_spec _ _ _ _ Hlim).
    rewrite (map_size_empty_inv (allowedChannels channelIDs)) in Hs by (unfold mlen in Ha; lia).
    by rewrite lookup_empty in Hs. }
  split.
  - intros w [H|?]%channelLoop_sound; [by rewrite lookup_empty in H|done].
  - intros w Hc Hw. eapply channelLoop_complete; [intros ??; by rewrite lookup_empty|done|by left].
Qed.
End ChannelMaps.

(** The per-channel rules of a request are kept for exactly the listed
    channels they name (ignoring case and surrounding space), under the
    channel's own spelling: no channel outside the list gets rules, the cap
    of 100 entries never drops one, and the rules kept are the normalized
    rules the request gave for that channel. *)
Theorem channel_rules_exact value raw c :
  let channelIDs := normalizeLimitedStrings raw 100 64 in
  let out := normalizeNotificationChannelRules value channelIDs in
  (is_Some (out !! c) ↔
     c ∈ channelIDs ∧ ∃ k rules, value !! k = Some rules ∧ ToLower (TrimSpace k) = ToLower c) ∧
  (∀ rules, out !! c = Some rules → limited 32 64 rules ∧
     ∃ k given, value !! k = Some given ∧ ToLower (TrimSpace k) = ToLower c ∧
       rules = normalizeLimitedStrings given 32 64).
Proof.
  intros channelIDs out.
  pose proof (normalizeLimited_limited raw 100 64 ltac:(lia)) as Hlim.
  destruct (normalizeChannelMap_spec (λ given, Some (normalizeLimitedStrings given 32 64))
    channelIDs 64 Hlim value c) as [Hsound Hcomplete].
  split.
  - split.
    + intros [rules (Hc & k & given & Hk%elem_of_rangeMap & Hl & _)%Hsound]. split; [done|eauto].
    + intros (Hc & k & rules & Hk & Hl). eapply Hcomplete; [done|].
      exists k, rules. split_and!; [by apply elem_of_rangeMap|done|done].
  - intros rules (Hc & k & given & Hk%elem_of_rangeMap & Hl & [= <-])%Hsound.
    split; [by apply normalizeLimited_limited|eauto].
Qed.

End Input.

Lemma normalize_limited_exact_witness :
  let values := [" Alpha "; "beta"; ""; "ALPHA"; "gamma"] in
  let out := @normalizeLimitedStrings ascii_unicode values 2 5 in
  out = ["Alpha"; "beta"] ∧ @normalizeLimitedStrings ascii_unicode out 2 5 = out.
Proof.
  cbv zeta. split; [reflexivity|].
  apply (@normalize_limited_exact ascii_unicode [" Alpha "; "beta"; ""; "ALPHA"; "gamma"] 2 5). reflexivity.
Defined.

End RegistrationInput.
