(* ===== verification/OAuth.v ===== *)
(** * The Twitch OAuth client: [internal/application/twitch_oauth.go]

    Authorization codes are exchanged for tokens, stored tokens are leased,
    validated and refreshed, and the channels a user moderates are read,
    with a cache.  The client works on the authentication store and reaches
    Twitch over HTTP: the record [Env] holds what comes from outside, each
    reading indexed by the number of readings made so far. *)

From stdpp Require Import pretty.
From S2P Require Import Prelude GoStrings NetIP Config Credentials Domain AuthStore Subscriptions RegistrationInput.
#[local] Open Scope Z_scope.
#[local] Open Scope go_scope.

Module OAuth.
Import Config Memory.
Module Http := Subscriptions.
Module C := AuthCredential.

Record twitchTokenResponse := mkToken {
  AccessToken : string;
  RefreshToken : string;
  ExpiresIn : Z;
  Scopes : list string;
  TokenType : string
}.

Record twitchValidationResponse := mkValidation {
  ClientID : string;
  UserID : string;
  Login : string;
  ValidScopes : list string;
  ValidFor : Z
}.

Record moderatedChannelCacheEntry := mkCached { IDs : list string; ExpiresAt : time }.

(** A page of [twitchModeratedChannelsResponse]: broadcasters and cursor. *)
Record twitchModeratedChannelsResponse := mkModerated { Broadcasters : list string; Cursor : string }.

Record Env := mkEnv {
  config : Config;
  clock : nat → time;
  random : nat → rand_read;
  aead : option AEAD;
  Do : nat → Http.request → result Http.reply;
  decodeToken : string → result twitchTokenResponse;
  decodeValidation : string → result twitchValidationResponse;
  decodeModerated : string → result twitchModeratedChannelsResponse
}.

(** The client's state; [readings] counts what was read from outside. *)
Record state := mkState {
  store : AuthStore.t;
  moderatedCache : gmap string moderatedChannelCacheEntry;
  readings : nat
}.
#[global] Instance eta_state : Eta state := λ s, mkState (store s) (moderatedCache s) (readings s).

(** [Config.AuthEnabled]; [newTwitchOAuthClient] makes no client without it. *)
Definition AuthEnabled (c : Config) : bool :=
  (AuthEncryptionKey c != "") && (TwitchClientID c != "") && (TwitchClientSecret c != "") &&
  (TwitchRedirectURL c != "") && (PublicBaseURL c != "").

(** The error lists the scopes that are missing. *)
Definition ensureScopes (actual required : list string) : option error :=
  match List.filter (λ scope, negb (bool_decide (scope ∈ actual))) required with
  | [] => None
  | missing => Some (ErrMsg ("Twitch authorization is missing scopes: " +:+ Join missing ", "))
  end.

Definition minPositiveInt64 (left right : Z) : Z :=
  if left <=? 0 then right else if right <=? 0 then left else if left <? right then left else right.

(** [time.Duration(n) * time.Second]. *)
Definition seconds (n : Z) : duration := int64_wrap (n * Second).

Section Client.
Context {rt : GoRuntime} {sha : Sha256} {uni : Unicode} (E : Env).

Definition normalizedScopes (scopes : list string) : list string :=
  let unique : gmap string () :=
    foldl (λ acc scope, let scope := TrimSpace scope in if scope != "" then <[scope := ()]> acc else acc)
      ∅ scopes in
  sortSlice string_lt (rangeMap unique).*1.

(** The stripe of locks a credential belongs to. *)
Definition lockForCredential (credentialID : string) : Z :=
  match sha256 credentialID with
  | "" => 0
  | String c _ => Z.of_N (N_of_ascii c) mod 64
  end.

Definition authorizationURL (oauthState : string) : string :=
  TrimSuffix (TwitchIDBaseURL (config E)) "/" +:+ "/oauth2/authorize?" +:+
  encodeValues [("client_id", TwitchClientID (config E)); ("redirect_uri", TwitchRedirectURL (config E));
                ("response_type", "code"); ("scope", Join (AuthScopes (config E)) " "); ("state", oauthState)].

(** ** Calls *)

Definition Now : M state time := λ s, (s <| readings := S (readings s) |>, Ok (clock E (readings s))).
Definition send (r : Http.request) : M state Http.reply := λ s,
  (s <| readings := S (readings s) |>, Do E (readings s) r).
Definition newRandomToken (prefix : string) (size : nat) : M state string := λ s,
  (s <| readings := S (readings s) |>, randomToken (random E (readings s)) prefix size).
Definition GetCredential (credentialID : string) : M state C.t := λ s,
  (s, AuthStore.GetCredential (aead E) (store s) credentialID).
Definition PutCredential (credential : C.t) : M state () := λ s,
  let '(st, err) := AuthStore.PutCredential (aead E) (λ i, random E (readings s + i)) (store s) credential in
  (s <| store := st |> <| readings := (readings s + 2)%nat |>,
   match err with Some err => Err err | None => Ok () end).

Definition idRequest (method path authorization : string) (body : Http.content) : Http.request :=
  Http.mkRequest method (TrimSuffix (TwitchIDBaseURL (config E)) "/" +:+ path) [] authorization "" body.

(** The body of an answer, read within 1 MiB. *)
Definition readAnswer (what : string) (response : Http.reply) : M state string :=
  match Http.ReadError response with
  | Some err => fail (ErrMsg ("read Twitch " +:+ what +:+ " response: " +:+ Error err))
  | None => ret (Http.limited (Z.shiftl 1 20) (Http.Payload response))
  end.

Definition httpStatus (what : string) (response : Http.reply) (body : string) : error :=
  ErrMsg (what +:+ " HTTP " +:+ pretty (Http.StatusCode response) +:+ ": " +:+ TrimSpace body).

Definition requestToken (values : list (string * string)) : M state twitchTokenResponse :=
  let! response := annotate "Twitch token request" (send (idRequest "POST" "/oauth2/token" "" (Http.Form values))) in
  let! body := readAnswer "token" response in
  if (Http.StatusCode response <? 200) || (299 <? Http.StatusCode response) then
    if (Http.StatusCode response =? 400) || (Http.StatusCode response =? 401) then fail ErrOAuthRevoked
    else fail (httpStatus "Twitch token" response body)
  else
    match decodeToken E body with
    | Err err => fail (ErrMsg ("decode Twitch token response: " +:+ Error err))
    | Ok token =>
        if (AccessToken token == "") || (RefreshToken token == "") || (ExpiresIn token <=? 0)
        then fail (ErrMsg "Twitch returned incomplete OAuth tokens") else ret token
    end.

Definition refresh (refreshToken : string) : M state twitchTokenResponse :=
  requestToken [("client_id", TwitchClientID (config E)); ("client_secret", TwitchClientSecret (config E));
                ("grant_type", "refresh_token"); ("refresh_token", refreshToken)].

Definition validate (accessToken : string) : M state twitchValidationResponse :=
  let! response := annotate "Twitch validation request"
    (send (idRequest "GET" "/oauth2/validate" ("Bearer " +:+ accessToken) Http.NoBody)) in
  let! body := readAnswer "validation" response in
  if Http.StatusCode response =? 401 then fail ErrOAuthRevoked else
  if (Http.StatusCode response <? 200) || (299 <? Http.StatusCode response)
  then fail (httpStatus "Twitch validation" response body) else
  match decodeValidation E body with
  | Err err => fail (ErrMsg ("decode Twitch validation response: " +:+ Error err))
  | Ok validation =>
      if (ClientID validation == "") || (UserID validation == "") || (Login validation == "") ||
         (ValidFor validation <=? 0)
      then fail (ErrMsg "Twitch returned incomplete validation data") else ret validation
  end.

Definition exchangeCode (code : string) : M state C.t :=
  let! token := requestToken
    [("client_id", TwitchClientID (config E)); ("client_secret", TwitchClientSecret (config E)); ("code", code);
     ("grant_type", "authorization_code"); ("redirect_uri", TwitchRedirectURL (config E))] in
  let! validation := validate (AccessToken token) in
  if ClientID validation != TwitchClientID (config E)
  then fail (ErrMsg "Twitch returned a token for another client ID") else
  match ensureScopes (ValidScopes validation) (AuthScopes (config E)) with
  | Some err => fail err
  | None =>
      let! id := newRandomToken "fc1_" 24 in
      let! now := Now in
      ret (C.mk id (ClientID validation) (UserID validation) (Login validation)
             (normalizedScopes (ValidScopes validation)) (AccessToken token) (RefreshToken token)
             (Add now (seconds (minPositiveInt64 (ExpiresIn token) (ValidFor validation)))) now now)
  end.

(** A 400 answer means the token is invalid already. *)
Definition revokeAccessToken (credential : C.t) : M state () :=
  let! response := annotate "Twitch revoke request"
    (send (idRequest "POST" "/oauth2/revoke" ""
      (Http.Form [("client_id", TwitchClientID (config E)); ("token", C.AccessToken credential)]))) in
  let! body := readAnswer "revoke" response in
  if (Http.StatusCode response =? 200) || (Http.StatusCode response =? 400) then ret ()
  else fail (httpStatus "Twitch revoke" response body).

(** ** Leases *)

(** Whether Twitch's answer is about this client, this user, and grants
    what is required. *)
Definition confirms (credential : C.t) (validation : twitchValidationResponse) : bool :=
  (ClientID validation == TwitchClientID (config E)) && (UserID validation == C.UserID credential) &&
  match ensureScopes (ValidScopes validation) (AuthScopes (config E)) with None => true | Some _ => false end.

(** The refresh of [lease]. *)
Definition refreshCredential (now : time) (credential : C.t) : M state C.t :=
  let! refreshed := refresh (C.RefreshToken credential) in
  let! validation := validate (AccessToken refreshed) in
  if negb (confirms credential validation) then fail ErrOAuthRevoked else
  let credential := credential
    <| C.AccessToken := AccessToken refreshed |> <| C.RefreshToken := RefreshToken refreshed |>
    <| C.Login := Login validation |> <| C.Scopes := normalizedScopes (ValidScopes validation) |>
    <| C.AccessExpiresAt := Add now (seconds (minPositiveInt64 (ExpiresIn refreshed) (ValidFor validation))) |>
    <| C.LastValidatedAt := now |> <| C.UpdatedAt := now |> in
  let! _ := PutCredential credential in
  ret credential.

(** The hourly validation of [lease]; [None] asks for a refresh. *)
Definition validateCredential (now : time) (credential : C.t) : M state (option C.t) := λ s,
  match validate (C.AccessToken credential) s with
  | (s, Err ErrOAuthRevoked) => (s, Ok None)
  | (s, Err validateErr) => (s, Err validateErr)
  | (s, Ok validation) =>
      if negb (confirms credential validation) then (s, Err ErrOAuthRevoked) else
      let credential := credential
        <| C.Login := Login validation |> <| C.Scopes := normalizedScopes (ValidScopes validation) |>
        <| C.AccessExpiresAt := Add now (seconds (ValidFor validation)) |>
        <| C.LastValidatedAt := now |> <| C.UpdatedAt := now |> in
      (let! _ := PutCredential credential in ret (Some credential)) s
  end.

Definition lease (credentialID : string) (forceRefresh : bool) : M state C.t :=
  let! credential := GetCredential credentialID in
  let! now := Now in
  let refreshAhead :=
    if AuthAccessRefreshAhead (config E) <=? 0 then 5 * Minute else AuthAccessRefreshAhead (config E) in
  if forceRefresh || Before (C.AccessExpiresAt credential) (Add now refreshAhead)
  then refreshCredential now credential else
  if 55 * Minute <=? Sub now (C.LastValidatedAt credential) then
    let! validated := validateCredential now credential in
    match validated with
    | Some credential => ret credential
    | None => refreshCredential now credential
    end
  else ret credential.

(** ** Moderated channels *)

(** One turn per page; the context's deadline ends a listing that goes on. *)
Fixpoint moderatedLoop (turns : nat) (credential : C.t) (cursor : string) (result : list string)
    : M state (list string) :=
  match turns with
  | O => fail (ErrMsg "context deadline exceeded")
  | S turns =>
      let query := [("user_id", C.UserID credential); ("first", "100")] ++
                   (if cursor != "" then [("after", cursor)] else []) in
      let! response := annotate "moderated channels request"
        (send (Http.mkRequest "GET" (TrimSuffix (TwitchHelixBaseURL (config E)) "/" +:+ "/moderation/channels")
                 query ("Bearer " +:+ C.AccessToken credential) (TwitchClientID (config E)) Http.NoBody)) in
      let payload := Http.limited (Z.shiftl 2 20) (Http.Payload response) in
      match Http.ReadError response with
      | Some readErr => fail (ErrMsg ("read moderated channels response: " +:+ Error readErr))
      | None =>
          if Http.StatusCode response =? 401 then fail ErrOAuthRevoked else
          if (Http.StatusCode response <? 200) || (299 <? Http.StatusCode response)
          then fail (httpStatus "moderated channels" response payload) else
          match decodeModerated E payload with
          | Err err => fail (ErrMsg ("decode moderated channels response: " +:+ Error err))
          | Ok page =>
              let result := result ++ List.filter (λ id, id != "") (TrimSpace <$> Broadcasters page) in
              let cursor := TrimSpace (Cursor page) in
              if cursor == "" then ret result else moderatedLoop turns credential cursor result
          end
      end
  end.

Definition cacheModerated (credentialID : string) (ids : list string) (until : time) : M state () := λ s,
  (s <| moderatedCache := <[credentialID := mkCached ids until]> (moderatedCache s) |>, Ok ()).

(** What follows when the cache has no answer. *)
Definition fetchModerated (turns : nat) (credentialID : string) (now : time) : M state (list string) :=
  let! credential := lease credentialID false in
  let! result := moderatedLoop turns credential "" [] in
  let result := RegistrationInput.normalizeLimitedStrings result 1000 64 in
  let! _ := cacheModerated credentialID result (Add now (5 * Minute)) in
  ret result.

Definition moderatedChannelIDs (turns : nat) (credentialID : string) : M state (list string) :=
  let! now := Now in
  λ s,
  match moderatedCache s !! credentialID with
  | Some cached =>
      if Before now (ExpiresAt cached) then (s, Ok (IDs cached)) else fetchModerated turns credentialID now s
  | None => fetchModerated turns credentialID now s
  end.

End Client.
End OAuth.
