(* ===== verification/OAuthProofs.v ===== *)
(** * The Twitch OAuth client: theorems

    Whatever Twitch answers, a lease stays with the account it was made for
    and what it returns is what is stored. *)

From S2P Require Import Prelude GoStrings NetIP Config Credentials Domain AuthStore AuthProofs AuthTheorems.
From S2P Require Import Subscriptions RegistrationInput OAuth.
#[local] Open Scope Z_scope.
#[local] Open Scope go_scope.

Module OAuthProofs.
Import Config OAuth Memory.

Section Client.
Context {rt : GoRuntime} {sha : Sha256} {uni : Unicode} (E : Env).
Implicit Types (s : state).

(** ** Calls that leave the state alone *)

(** A computation that changes nothing but the number of readings. *)
Definition quiet {A} (x : M state A) : Prop :=
  ∀ s, store (x s).1 = store s ∧ moderatedCache (x s).1 = moderatedCache s.

Lemma quiet_ret {A} (a : A) : quiet (ret a).
Proof. done. Qed.
Lemma quiet_fail {A} e : quiet (fail (A:=A) e).
Proof. done. Qed.
Lemma quiet_bind {A B} (x : M state A) (k : A → M state B) : quiet x → (∀ a, quiet (k a)) → quiet (bind x k).
Proof.
  intros Hx Hk s. unfold bind. destruct (Hx s) as [H1 H2]. destruct (x s) as [s1 [a|e]]; [|done].
  cbn [fst] in *. destruct (Hk a s1) as [H3 H4]. split; congruence.
Qed.
Lemma quiet_annotate {A} prefix (x : M state A) : quiet x → quiet (annotate prefix x).
Proof. intros Hx s. unfold annotate. pose proof (Hx s) as H. by destruct (x s) as [s1 [a|e]]. Qed.
Lemma quiet_send r : quiet (send E r).
Proof. done. Qed.
Lemma quiet_now : quiet (Now E).
Proof. done. Qed.
Lemma quiet_random prefix n : quiet (newRandomToken E prefix n).
Proof. done. Qed.
Lemma quiet_read what response : quiet (readAnswer what response).
Proof. unfold readAnswer. by destruct (Subscriptions.ReadError response). Qed.
Create HintDb oauth.
#[local] Hint Resolve quiet_ret quiet_fail quiet_bind quiet_annotate quiet_send quiet_now quiet_random quiet_read : oauth.

Lemma quiet_requestToken values : quiet (requestToken E values).
Proof.
  unfold requestToken. apply quiet_bind; [auto with oauth|]. intros response. apply quiet_bind; [auto with oauth|].
  intros body. destruct (_ || _); [by destruct (_ || _)|]. destruct (decodeToken E body); [|done].
  by destruct (_ || _).
Qed.

Lemma quiet_validate token : quiet (validate E token).
Proof.
  unfold validate. apply quiet_bind; [auto with oauth|]. intros response. apply quiet_bind; [auto with oauth|].
  intros body. destruct (_ =? 401); [done|]. destruct (_ || _); [done|]. destruct (decodeValidation E body); [|done].
  by destruct (_ || _).
Qed.
#[local] Hint Resolve quiet_requestToken quiet_validate : oauth.

(** The exchange of a code touches no store. *)
Lemma quiet_exchangeCode code : quiet (exchangeCode E code).
Proof.
  unfold exchangeCode. apply quiet_bind; [auto with oauth|]. intros token. apply quiet_bind; [auto with oauth|].
  intros validation. destruct (negb _); [done|]. destruct (ensureScopes _ _); [done|].
  apply quiet_bind; [auto with oauth|]. intros id. apply quiet_bind; auto with oauth.
Qed.

Lemma quiet_revoke credential : quiet (revokeAccessToken E credential).
Proof.
  unfold revokeAccessToken. apply quiet_bind; [auto with oauth|]. intros response. apply quiet_bind; [auto with oauth|].
  intros body. by destruct (_ || _).
Qed.

(** ** What Twitch said of a token *)

(** Twitch answered a validation of the token with [v]. *)
Definition twitch_says (tok : string) (v : twitchValidationResponse) : Prop :=
  ∃ n r, Do E n (idRequest E "GET" "/oauth2/validate" ("Bearer " +:+ tok) Subscriptions.NoBody) = Ok r ∧
    200 ≤ Subscriptions.StatusCode r ≤ 299 ∧
    decodeValidation E (Subscriptions.limited (Z.shiftl 1 20) (Subscriptions.Payload r)) = Ok v.

Lemma validate_says tok s s' v : validate E tok s = (s', Ok v) → twitch_says tok v.
Proof.
  unfold validate, bind, annotate, send. set (req := idRequest _ _ _ _ _).
  destruct (Do E (readings s) req) as [r|] eqn:Hdo; [|done]. unfold readAnswer.
  destruct (Subscriptions.ReadError r); [done|]. cbn [ret].
  destruct (Subscriptions.StatusCode r =? 401); [done|].
  destruct (_ || _) eqn:Hst; [done|]. destruct (decodeValidation E _) as [v'|] eqn:Hdec; [|done].
  case_match; [done|]. unfold ret. intros [= <- <-]. exists (readings s), r. split_and!; [done|lia..|done].
Qed.

(** ** Leases *)

(** The credential [c] is the account's credential [c0], brought up to date
    with what Twitch says now of the very token that is returned. *)
Definition renewed (now : time) (c0 c : C.t) : Prop :=
  C.ID c = C.ID c0 ∧ C.UserID c = C.UserID c0 ∧ C.ClientID c = C.ClientID c0 ∧ C.LastValidatedAt c = now ∧
  ∃ v, twitch_says (C.AccessToken c) v ∧ ClientID v = TwitchClientID (config E) ∧ UserID v = C.UserID c0 ∧
    (∀ scope, scope ∈ AuthScopes (config E) → scope ∈ ValidScopes v).

Lemma confirms_spec c v :
  confirms E c v = true →
  ClientID v = TwitchClientID (config E) ∧ UserID v = C.UserID c ∧
  (∀ scope, scope ∈ AuthScopes (config E) → scope ∈ ValidScopes v).
Proof.
  unfold confirms. rewrite !andb_true_iff, !bool_decide_eq_true. intros [[-> ->] Hsc]. split_and!; [done..|].
  unfold ensureScopes in Hsc. destruct (List.filter _ _) as [|x l] eqn:Hf; [|done].
  intros scope Hin. destruct (decide (scope ∈ ValidScopes v)) as [|Hn]; [done|].
  assert (scope ∈ List.filter (λ scope, negb (bool_decide (scope ∈ ValidScopes v))) (AuthScopes (config E))) as H.
  { apply elem_of_filter_bool. split; [done|]. by rewrite bool_decide_false. }
  rewrite Hf in H. by apply elem_of_nil in H.
Qed.

(** What the parts of a lease do to the store: on an error nothing, and
    otherwise they store what they return. *)
Definition stores (s s' : state) (c0 : C.t) (r : result C.t) : Prop :=
  match r with
  | Err _ => store s' = store s
  | Ok c =>
      C.ID c = C.ID c0 ∧ AuthStore.GetCredential (aead E) (store s') (C.ID c0) = Ok c ∧
      AuthStore.Sessions (store s') = AuthStore.Sessions (store s) ∧
      AuthStore.Pending (store s') = AuthStore.Pending (store s) ∧
      AuthStore.Handoffs (store s') = AuthStore.Handoffs (store s) ∧
      ∀ id, id ≠ C.ID c0 → AuthStore.GetCredential (aead E) (store s') id = AuthStore.GetCredential (aead E) (store s) id
  end.

Context (Hrand : ∀ i, rand_ok (random E i)).

Lemma put_stores s s' c0 c r :
  C.ID c = C.ID c0 → PutCredential E c s = (s', r) →
  stores s s' c0 (match r with Ok _ => Ok c | Err e => Err e end).
Proof.
  intros Hid. unfold PutCredential.
  destruct (AuthStore.PutCredential _ _ _ _) as [st err] eqn:Hput. intros [= <- <-].
  pose proof (AuthTheorems.PutCredential_frame _ _ _ _ _ _ Hput) as (H1 & H2 & H3 & H4).
  destruct err as [e|]; cbn; [by rewrite H4|].
  destruct (AuthTheorems.PutCredential_get (aead E) (store s) st (λ i, random E (readings s + i)) c (λ i, Hrand _) Hput)
    as [Hget Hothers]. rewrite <-Hid. by split_and!.
Qed.

Lemma refresh_stores now c0 s s' r :
  refreshCredential E now c0 s = (s', r) → stores s s' c0 r ∧ ∀ c, r = Ok c → renewed now c0 c.
Proof.
  unfold refreshCredential. unfold bind at 1. pose proof quiet_requestToken as Hq1.
  change (refresh E (C.RefreshToken c0)) with (requestToken E [("client_id", TwitchClientID (config E));
    ("client_secret", TwitchClientSecret (config E)); ("grant_type", "refresh_token");
    ("refresh_token", C.RefreshToken c0)]).
  set (values := [_; _; _; _]). destruct (Hq1 values s) as [Hs1 _].
  destruct (requestToken E values s) as [s1 [refreshed|e]]; cbn [fst] in Hs1; [|by intros [= <- <-]].
  unfold bind at 1. destruct (quiet_validate (AccessToken refreshed) s1) as [Hs2 _].
  destruct (validate E (AccessToken refreshed) s1) as [s2 [v|e]] eqn:Hv; cbn [fst] in Hs2;
    [|intros [= <- <-]; split; [unfold stores; congruence|done]].
  destruct (confirms E c0 v) eqn:Hc; cbn [negb]; [|intros [= <- <-]; split; [unfold stores; congruence|done]].
  set (c := _ <| C.UpdatedAt := now |>). unfold bind.
  destruct (PutCredential E c s2) as [s3 r3] eqn:Hput.
  pose proof (put_stores s2 s3 c0 c r3 eq_refl Hput) as Hst.
  destruct r3 as [u|e]; intros [= <- <-]; cbn in Hst |- *; rewrite Hs2, Hs1 in Hst; (split; [done|]); [|done].
  intros ? [= <-]. destruct (confirms_spec c0 v Hc) as (? & ? & ?). split_and!; try done.
  exists v. split_and!; try done. by eapply validate_says.
Qed.

Lemma validate_stores now c0 s s' r :
  validateCredential E now c0 s = (s', r) →
  match r with
  | Ok None => store s' = store s
  | Ok (Some c) => stores s s' c0 (Ok c) ∧ renewed now c0 c
  | Err e => store s' = store s
  end.
Proof.
  unfold validateCredential. destruct (quiet_validate (C.AccessToken c0) s) as [Hs1 _].
  destruct (validate E (C.AccessToken c0) s) as [s1 [v|e]] eqn:Hv; cbn [fst] in Hs1; cycle 1.
  { destruct e; by intros [= <- <-]. }
  destruct (confirms E c0 v) eqn:Hc; cbn [negb]; [|by intros [= <- <-]].
  set (c := _ <| C.UpdatedAt := now |>). unfold bind.
  destruct (PutCredential E c s1) as [s2 r2] eqn:Hput.
  pose proof (put_stores s1 s2 c0 c r2 eq_refl Hput) as Hst.
  destruct r2 as [u|e]; intros [= <- <-]; cbn in Hst |- *; rewrite Hs1 in Hst; [|done].
  split; [done|]. destruct (confirms_spec c0 v Hc) as (? & ? & ?). split_and!; try done.
  exists v. split_and!; try done. by eapply validate_says.
Qed.

(** The time ahead of the expiry at which a token is refreshed. *)
Definition refreshAhead : duration :=
  if AuthAccessRefreshAhead (config E) <=? 0 then 5 * Minute else AuthAccessRefreshAhead (config E).

(** The outcome of a lease. *)
Definition lease_outcome s s' id (force : bool) (r : result C.t) : Prop :=
  match r with
  | Err _ => store s' = store s
  | Ok c => ∃ c0, let now := clock E (readings s) in
      AuthStore.GetCredential (aead E) (store s) id = Ok c0 ∧ C.ID c0 = id ∧ stores s s' c0 (Ok c) ∧
      (renewed now c0 c ∨
       c = c0 ∧ force = false ∧ now + refreshAhead ≤ C.AccessExpiresAt c ∧ now - C.LastValidatedAt c < 55 * Minute)
  end.

Lemma lease_spec s s' id force r :
  AuthProofs.wf (aead E) (store s) → lease E id force s = (s', r) → lease_outcome s s' id force r.
Proof.
  intros Hreach. unfold lease, lease_outcome. unfold bind at 1. unfold GetCredential at 1.
  destruct (AuthStore.GetCredential (aead E) (store s) id) as [c0|e] eqn:Hget; [|by intros [= <- <-]].
  assert (C.ID c0 = id) as Hid.
  { destruct Hreach as (_ & _ & _ & _ & Hc & _). unfold AuthStore.GetCredential in Hget.
    destruct (AuthStore.Credentials (store s) !! id) as [rec|] eqn:Hrec; [|done].
    destruct (Hc _ _ Hrec) as [Hrid _]. unfold AuthStore.openCredential in Hget.
    destruct (AuthStore.open _ _ _); [|done]. cbn in Hget. destruct (AuthStore.open _ _ _); [|done].
    cbn in Hget. by injection Hget as <-. }
  unfold bind at 1. unfold Now at 1. fold refreshAhead. set (now := clock E (readings s)).
  set (s1 := s <| readings := _ |>). change (store s) with (store s1).
  destruct (force || _) eqn:Hforce.
  { intros [Hst Hren]%refresh_stores. destruct r as [c|e]; [|done]. exists c0. split_and!; try done. left. by apply Hren. }
  destruct (55 * Minute <=? _) eqn:Hval; cycle 1.
  { intros [= <- <-]. exists c0. split_and!; try done.
    - unfold stores. rewrite Hid. by split_and!.
    - right. apply orb_false_iff in Hforce as [-> Hbef]. unfold Before, Add, Sub, Minute, Second in *.
      unfold min_int64, max_int64 in *. split_and!; try done; lia. }
  unfold bind. destruct (validateCredential E now c0 s1) as [s2 r2] eqn:Hvc. apply validate_stores in Hvc.
  destruct r2 as [[c|]|e]; [|..|by intros [= <- <-]].
  - intros [= <- <-]. exists c0. destruct Hvc. split_and!; try done. by left.
  - intros [Hst Hren]%refresh_stores. destruct r as [c|e]; unfold stores in *; rewrite Hvc in Hst; [|done].
    exists c0. split_and!; try done; [apply Hst..|]. left. by apply Hren.
Qed.

(** Whatever Twitch answers, a lease stays with its account: it
    returns the stored credential of that identifier, either unchanged
    because it is far from its expiry and Twitch confirmed it less than 55
    minutes ago, or renewed, in which case Twitch has just confirmed the very
    token that is returned for this client, this user and all required
    scopes.  What is returned is what is stored; sessions, logins in progress
    and the other credentials are untouched; a lease that fails stores
    nothing. *)
Theorem lease_stays_with_account s s' id force r :
  rtc (AuthProofs.step (aead E)) AuthStore.empty (store s) →
  lease E id force s = (s', r) → lease_outcome s s' id force r.
Proof. intros ?%AuthProofs.auth_reachable_wf. by apply lease_spec. Qed.

End Client.

(** ** A lease that renews *)

Module Example.
#[export] Existing Instance reference_runtime.
#[export] Existing Instance toy_sha256.
#[export] Existing Instance ascii_unicode.

(** Twitch answers every request, and the stored token has expired. *)
Definition env : Env :=
  mkEnv (Config.zero <| TwitchClientID := "client" |> <| AuthScopes := ["chat"] |>) (λ _, 5 * Hour) (λ _, zero_rand)
    (Some toy_aead) (λ _ _, Ok (Subscriptions.mkReply 200 "" None))
    (λ _, Ok (mkToken "access2" "refresh2" 3600 [] "bearer"))
    (λ _, Ok (mkValidation "client" (C.UserID AuthTheorems.example_credential) "renamed" ["chat"] 1800))
    (λ _, Ok (mkModerated ["10"] "")).
Definition start : state := mkState AuthTheorems.with_credential ∅ 0.
Definition leased : C.t :=
  AuthTheorems.example_credential <| C.AccessToken := "access2" |> <| C.RefreshToken := "refresh2" |>
    <| C.Login := "renamed" |> <| C.Scopes := ["chat"] |> <| C.AccessExpiresAt := 5 * Hour + 1800 * Second |>
    <| C.LastValidatedAt := 5 * Hour |> <| C.UpdatedAt := 5 * Hour |>.
End Example.
Import Example.

Lemma lease_stays_with_account_witness :
  ∃ s', lease Example.env "cred" false Example.start = (s', Ok Example.leased) ∧
  AuthStore.GetCredential (Some toy_aead) (store s') "cred" = Ok Example.leased.
Proof.
  eexists. assert (lease Example.env "cred" false Example.start =
    (mkState (AuthTheorems.run AuthTheorems.with_credential
                (AuthProofs.OpPutCredential (λ _, zero_rand) Example.leased)) ∅ 5, Ok Example.leased)) as Hl
    by (vm_compute; reflexivity).
  split; [exact Hl|].
  destruct (lease_stays_with_account Example.env (λ _, zero_rand_ok) Example.start _ "cred" false _
    (rtc_once _ _ (AuthProofs.step_exec _ _ _ (AuthProofs.OpPutCredential (λ _, zero_rand) AuthTheorems.example_credential)
      (λ _, zero_rand_ok))) Hl) as (c0 & Hc0 & Hid & (_ & Hst & _) & _).
  rewrite Hid in Hst. exact Hst.
Defined.

End OAuthProofs.
