(* ===== verification/Repositories.v ===== *)
(** * Repository interfaces: [internal/domain/repositories.go]

    The application reaches its stores through interfaces.  The class below
    is the interface of the registration store together with the laws the
    application relies on; the in-memory store and the Postgres store are
    instances, so what is proved of the application against the class holds
    for both. *)

From S2P Require Import Prelude GoStrings Credentials Domain RegistrationStore.

(** A registration as the store hands it out: without its secret. *)
Definition withoutSecret (r : Registration.t) : Registration.t :=
  r <| Registration.DeviceSecret := "" |> <| Registration.DeviceSecretHash := "" |>.

(** What a store keeps of a registration [r] it accepted: everything the
    application decides by, under the same identifiers and without the
    secret.  A store may round the time, and replace bytes that are not text
    in the names of rules. *)
Record kept (r r' : Registration.t) : Prop := {
  kept_installation : Registration.InstallationID r' = Registration.InstallationID r;
  kept_secret : Registration.DeviceSecret r' = "" ∧ Registration.DeviceSecretHash r' = "";
  kept_user : Registration.UserID r' = Registration.UserID r;
  kept_channels : Registration.ChannelIDs r' = Registration.ChannelIDs r;
  kept_moderated : Registration.ModeratorChannelIDs r' = Registration.ModeratorChannelIDs r;
  kept_rules : (∀ c, is_Some (Registration.NotificationChannelRules r !! c) → c ∈ Registration.ChannelIDs r) →
    ∀ c, is_Some (Registration.NotificationChannelRules r' !! c) → c ∈ Registration.ChannelIDs r;
  kept_muted :
    (∀ c, is_Some (Registration.NotificationChannelMutedUntilEpochMillis r !! c) → c ∈ Registration.ChannelIDs r) →
    ∀ c, is_Some (Registration.NotificationChannelMutedUntilEpochMillis r' !! c) → c ∈ Registration.ChannelIDs r
}.

Lemma kept_withoutSecret r : kept r (withoutSecret r).
Proof. by split. Qed.

(** The interface.  The laws allow every operation to fail: a failed write
    may or may not have taken effect (the answer of a database can be lost),
    and a failed listing is empty. *)
Class RegistrationRepository (RS : Type) := {
  Upsert : RS → Registration.t → RS * result ();
  List : RS → list Registration.t;
  Get : RS → string → result Registration.t;
  Authenticate : RS → string → string → result Registration.t;
  Delete : RS → string → string → RS * result ();
  DeleteForAccount : RS → string → list string → RS * result (list string);
  (** The registrations that are stored, by installation. *)
  stored : RS → gmap string Registration.t;
  (** A saved registration is stored and the others are untouched. *)
  Upsert_stored s s' r answer :
    Upsert s r = (s', answer) →
    stored s' = stored s ∧ answer ≠ Ok () ∨
    ∃ r', kept r r' ∧ stored s' = <[Registration.InstallationID r := r']> (stored s);
  (** The deletions only delete. *)
  Delete_stored s id secret : stored (Delete s id secret).1 ⊆ stored s;
  DeleteForAccount_stored s userID ids : stored (DeleteForAccount s userID ids).1 ⊆ stored s;
  (** After its registrations were deleted nothing is left of an account,
      and the answer names them. *)
  DeleteForAccount_user s s' userID ids removed id r :
    DeleteForAccount s userID ids = (s', Ok removed) → TrimSpace userID ≠ "" →
    stored s !! id = Some r → Registration.UserID r = TrimSpace userID →
    stored s' !! id = None ∧ id ∈ removed;
  (** Reads show what is stored; whoever authenticates gets the registration
      of that installation. *)
  Get_stored s id r : Get s id = Ok r → stored s !! id = Some r;
  Authenticate_stored s id secret r : Authenticate s id secret = Ok r → stored s !! id = Some r;
  List_stored s r : r ∈ List s → ∃ id, stored s !! id = Some r
}.

(** A store that never fails half-way: refusals change nothing and listings
    are complete. *)
Class ReliableRepository (RS : Type) `{!RegistrationRepository RS} := {
  Upsert_refused s s' r e : Upsert s r = (s', Err e) → stored s' = stored s;
  Delete_refused s s' id secret e : Delete s id secret = (s', Err e) → stored s' = stored s;
  List_complete s id r : stored s !! id = Some r → r ∈ List s
}.

Section Memory.
Context {rt : GoRuntime} {sha : Sha256}.
Import RegistrationStore.

Lemma public_withoutSecret r : public r = withoutSecret r.
Proof. unfold public, withoutSecret. by rewrite clone_rules_id, clone_muted_id. Qed.

Lemma public_at_rest r : public (at_rest r) = withoutSecret r.
Proof. unfold public, at_rest, withoutSecret. destruct r; cbn. by rewrite !clone_rules_id, !clone_muted_id. Qed.

Definition memory_stored (s : RegistrationStore.t) : gmap string Registration.t := public <$> registrations s.

Lemma memory_stored_Some s id r :
  memory_stored s !! id = Some r ↔ ∃ r0, registrations s !! id = Some r0 ∧ r = public r0.
Proof. unfold memory_stored. rewrite lookup_fmap, fmap_Some. done. Qed.

#[export, refine] Instance memory_registrations : RegistrationRepository RegistrationStore.t := {|
  Repositories.Upsert := RegistrationStore.Upsert;
  Repositories.List := RegistrationStore.List;
  Repositories.Get := RegistrationStore.Get;
  Repositories.Authenticate := RegistrationStore.Authenticate;
  Repositories.Delete := RegistrationStore.Delete;
  Repositories.DeleteForAccount := RegistrationStore.DeleteForAccount;
  Repositories.stored := memory_stored
|}.
Proof.
  - intros s s' r answer. unfold RegistrationStore.Upsert. case_bool_decide; [intros [= <- <-]; by left|].
    case_match; [intros [= <- <-]; by left|]. intros [= <- _]. right. exists (withoutSecret r).
    split; [apply kept_withoutSecret|]. unfold memory_stored. cbn [registrations].
    by rewrite fmap_insert, public_at_rest.
  - intros s id secret. unfold RegistrationStore.Delete. destruct (registrations s !! id); [|done].
    destruct (registrationSecretMatches _ _); [|done]. apply map_fmap_mono, delete_subseteq.
  - intros s userID ids. rewrite DeleteForAccount_eq. apply map_fmap_mono. cbn [fst registrations].
    apply map_subseteq_spec. by intros id r [? _]%range_delete_Some.
  - intros s s' userID ids removed id r. rewrite DeleteForAccount_eq. intros [= <- <-] Hu Hr Huser.
    apply memory_stored_Some in Hr as (r0 & Hr & ->).
    assert (account_selects (TrimSpace userID) (account_targets ids) id r0 = true) as Hsel
      by (apply account_selects_true; right; by split).
    split.
    + unfold memory_stored. cbn [registrations]. rewrite lookup_fmap, range_delete_lookup, Hr. cbn. by rewrite Hsel.
    + rewrite sortSlice_perm. apply elem_of_account_removed. eauto.
  - intros s id r. unfold RegistrationStore.Get. destruct (registrations s !! id) eqn:Hr; [|done].
    intros [= <-]. apply memory_stored_Some. eauto.
  - intros s id secret r. unfold RegistrationStore.Authenticate.
    destruct (registrations s !! id) eqn:Hr; [|done]. destruct (registrationSecretMatches _ _); [|done].
    intros [= <-]. apply memory_stored_Some. eauto.
  - intros s r. unfold RegistrationStore.List. rewrite list_elem_of_fmap.
    intros (r0 & -> & ([id r1] & -> & Hin%elem_of_rangeMap)%list_elem_of_fmap).
    exists id. apply memory_stored_Some. eauto.
Defined.

#[export] Instance memory_reliable : ReliableRepository RegistrationStore.t.
Proof.
  split.
  - intros s s' r e. cbn. unfold RegistrationStore.Upsert. case_bool_decide; [by intros [= <- _]|].
    case_match; [by intros [= <- _]|done].
  - intros s s' id secret e. cbn. unfold RegistrationStore.Delete.
    destruct (registrations s !! id); [|by intros [= <- _]].
    destruct (registrationSecretMatches _ _); [done|by intros [= <- _]].
  - intros s id r. cbn. intros (r0 & Hr & ->)%memory_stored_Some. unfold RegistrationStore.List.
    apply list_elem_of_fmap. exists r0. split; [done|]. apply list_elem_of_fmap.
    exists (id, r0). by rewrite elem_of_rangeMap.
Qed.
End Memory.
