(* ===== verification/PgRegistration.v ===== *)
(** * The registration store of production:
    [internal/storage/postgres/postgres_registration.go]

    The table [push_registrations] and its operations as the statements they
    send; [PgRegistrationProofs] shows that they implement the registry of
    owned entries on a database that may fail at every statement. *)

From S2P Require Import Prelude GoStrings GoUnicode Credentials Domain RegistrationStore Postgres Repositories.
Import Postgres.

(** [encoding/json] on the two maps of a registration, which survive a
    [JSONB] column.  Bytes that are not text are replaced. *)
Class RegistrationJSON `{Jsonb} := {
  MarshalRules : gmap string (list string) → string;
  UnmarshalRules : string → result (gmap string (list string));
  MarshalMuted : gmap string Z → string;
  UnmarshalMuted : string → result (gmap string Z);
  rules_text m j : jsonb (MarshalRules m) = Some j → j ≠ "" ∧
    ∃ m', UnmarshalRules j = Ok m' ∧ ((∀ c, is_Some (m !! c) → ValidString c = true) → dom m' = dom m) ∧
      ((∀ c l, m !! c = Some l → ValidString c = true ∧ ∀ x, x ∈ l → ValidString x = true) → m' = m);
  muted_text m j : jsonb (MarshalMuted m) = Some j → j ≠ "" ∧
    ∃ m', UnmarshalMuted j = Ok m' ∧ ((∀ c, is_Some (m !! c) → ValidString c = true) → m' = m);
  empty_text : jsonb "{}" = Some "{}" ∧ UnmarshalRules "{}" = Ok ∅ ∧ UnmarshalMuted "{}" = Ok ∅
}.

Module PgRegistration.
Module R := Registration.

(** A row: the columns that are texts, arrays and times, and the two [JSONB]
    columns. *)
Record row := mkRow { columns : R.t; rulesColumn : string; mutedColumn : string }.

Section Store.
Context {rt : GoRuntime} {sha : Sha256} `{json : RegistrationJSON} {collation : Collation}.
Abbreviation table := (gmap string row).

Definition notificationChannelRulesJSON (value : gmap string (list string)) : string :=
  if mlen value =? 0 then "{}" else MarshalRules value.
Definition notificationChannelMutedUntilEpochMillisJSON (value : gmap string Z) : string :=
  if mlen value =? 0 then "{}" else MarshalMuted value.

Definition scanRegistration (r : row) : result R.t :=
  let registration := columns r in
  let? registration :=
    if 0 <? len (rulesColumn r) then
      match UnmarshalRules (rulesColumn r) with
      | Ok rules => Ok (registration <| R.NotificationChannelRules := rules |>)
      | Err err => Err (ErrMsg ("decode notification channel rules: " +:+ Error err))
      end
    else Ok registration in
  if 0 <? len (mutedColumn r) then
    match UnmarshalMuted (mutedColumn r) with
    | Ok muted => Ok (registration <| R.NotificationChannelMutedUntilEpochMillis := muted |>)
    | Err err => Err (ErrMsg ("decode notification channel mutes: " +:+ Error err))
    end
  else Ok registration.

Definition publicRegistration (registration : R.t) : R.t :=
  registration <| R.DeviceSecret := "" |> <| R.DeviceSecretHash := "" |>
    <| R.NotificationChannelRules :=
         RegistrationStore.cloneNotificationChannelRules (R.NotificationChannelRules registration) |>
    <| R.NotificationChannelMutedUntilEpochMillis :=
         RegistrationStore.cloneNotificationChannelMutedUntilEpochMillis
           (R.NotificationChannelMutedUntilEpochMillis registration) |>.

(** The constraint on the column [provider]. *)
Definition providers : list string := ["fcm"; "unifiedpush"; "embedded_socket"; "apns"].

(** The texts a registration is sent with. *)
Definition texts (r : R.t) : list string :=
  [R.InstallationID r; R.DeviceSecretHash r; R.Provider r; R.FirebaseInstallation r; R.APNsDeviceToken r;
   R.Endpoint r; R.P256DH r; R.Auth r; R.AppVersion r; R.Platform r; R.UserID r; R.UserLogin r;
   notificationChannelRulesJSON (R.NotificationChannelRules r);
   notificationChannelMutedUntilEpochMillisJSON (R.NotificationChannelMutedUntilEpochMillis r)] ++
  R.ChannelIDs r ++ R.ModeratorChannelIDs r ++ R.NotificationRules r ++ R.HighlightPhrases r ++
  R.SelectedUserLogins r.

(** [INSERT ... ON CONFLICT (installation_id) DO UPDATE SET ...], which sets
    every column. *)
Definition upsertRow (r : R.t) (t : table) : result (table * ()) :=
  if negb (bool_decide (R.Provider r ∈ providers))
  then Err (ErrMsg "violates check constraint push_registrations_provider_check") else
  match jsonb (notificationChannelRulesJSON (R.NotificationChannelRules r)),
        jsonb (notificationChannelMutedUntilEpochMillisJSON (R.NotificationChannelMutedUntilEpochMillis r)) with
  | Some rules, Some muted =>
      Ok (<[R.InstallationID r :=
             mkRow (r <| R.DeviceSecret := "" |> <| R.NotificationChannelRules := ∅ |>
                      <| R.NotificationChannelMutedUntilEpochMillis := ∅ |>
                      <| R.UpdatedAt := timestamptz (R.UpdatedAt r) |>) rules muted]> t, ())
  | _, _ => Err (ErrMsg "invalid input syntax for type json")
  end.

(** [SELECT ... WHERE installation_id = $1]. *)
Definition selectRow (installationID : string) (t : table) : result (table * option row) :=
  Ok (t, t !! installationID).

(** [DELETE ... WHERE installation_id = $1 AND device_secret_hash = $2] and
    the number of rows it affected. *)
Definition deleteRow (installationID secretHash : string) (t : table) : result (table * Z) :=
  match t !! installationID with
  | Some r => if R.DeviceSecretHash (columns r) == secretHash then Ok (delete installationID t, 1) else Ok (t, 0)
  | None => Ok (t, 0)
  end.

(** [WHERE ($1 <> '' AND user_id = $1) OR installation_id = ANY($2)]. *)
Definition ofAccount (userID : string) (installationIDs : list string) (installationID : string) (r : row) : bool :=
  ((userID != "") && (R.UserID (columns r) == userID)) || bool_decide (installationID ∈ installationIDs).

(** [DELETE ... RETURNING installation_id]; the order of the rows is the
    database's. *)
Definition deleteAccountRows (userID : string) (installationIDs : list string) (t : table)
    : result (table * list string) :=
  Ok (filter (λ kv, ofAccount userID installationIDs kv.1 kv.2 = false) t,
      (List.filter (λ kv, ofAccount userID installationIDs kv.1 kv.2) (rangeMap t)).*1).

Context (L : Link table).

Definition Upsert (registration : R.t) : M (session table) () :=
  if (TrimSpace (R.InstallationID registration) == "") || (R.DeviceSecret registration == "")
  then fail ErrDeviceSecretMismatch else
  transaction L "begin registration upsert" (
    let! existing := database "load registration for upsert"
      (onTx L [R.InstallationID registration] (selectRow (R.InstallationID registration))) in
    if match existing with
       | Some r => negb (EqualHash (R.DeviceSecretHash (columns r)) (HashSecret (R.DeviceSecret registration)))
       | None => false
       end then fail ErrDeviceSecretMismatch else
    let registration := registration <| R.DeviceSecretHash := HashSecret (R.DeviceSecret registration) |>
      <| R.DeviceSecret := "" |> in
    let! _ := database "upsert registration" (onTx L (texts registration) (upsertRow registration)) in
    database "commit registration upsert" (Commit L)).

(** The rows as registrations; the first that does not scan ends it. *)
Fixpoint scanAll (rows : list row) : result (list R.t) :=
  match rows with
  | [] => Ok []
  | r :: rows =>
      let? registration := scanRegistration r in
      let? registrations := scanAll rows in
      Ok (publicRegistration registration :: registrations)
  end.

(** Errors are logged and the list is empty. *)
Definition List (s : session table) : list R.t :=
  match (onPool L [] (λ t : table, Ok (t, (stable_sort (λ x y, text_lt x.1 y.1) (map_to_list t)).*2)) s).2 with
  | Ok rows => match scanAll rows with Ok registrations => registrations | Err _ => [] end
  | Err _ => []
  end.

Definition loadRegistration (installationID : string) : M (session table) (option R.t) :=
  let! found := onPool L [installationID] (selectRow installationID) in
  match found with
  | None => ret None
  | Some r => match scanRegistration r with Ok registration => ret (Some registration) | Err err => fail err end
  end.

Definition Get (installationID : string) : M (session table) R.t :=
  let! found := database "get registration" (loadRegistration installationID) in
  match found with
  | None => fail ErrRegistrationNotFound
  | Some registration => ret (publicRegistration registration)
  end.

Definition Authenticate (installationID deviceSecret : string) : M (session table) R.t :=
  let! found := database "authenticate registration" (loadRegistration installationID) in
  match found with
  | None => fail ErrRegistrationNotFound
  | Some registration =>
      if negb (EqualHash (R.DeviceSecretHash registration) (HashSecret deviceSecret))
      then fail ErrDeviceSecretMismatch else ret (publicRegistration registration)
  end.

Definition Delete (installationID deviceSecret : string) : M (session table) () :=
  let! found := database "load registration for delete" (onPool L [installationID] (selectRow installationID)) in
  match found with
  | None => fail ErrRegistrationNotFound
  | Some r =>
      let secretHash := R.DeviceSecretHash (columns r) in
      if negb (EqualHash secretHash (HashSecret deviceSecret)) then fail ErrDeviceSecretMismatch else
      let! affected := database "delete registration"
        (onPool L [installationID; secretHash] (deleteRow installationID secretHash)) in
      if affected =? 0 then fail ErrRegistrationNotFound else ret ()
  end.

Definition DeleteForAccount (userID : string) (installationIDs : list string) : M (session table) (list string) :=
  let userID := TrimSpace userID in
  let installationIDs := compactStrings installationIDs in
  let! removed := database "delete registrations for account"
    (onPool L (userID :: installationIDs) (deleteAccountRows userID installationIDs)) in
  ret (sortSlice string_lt removed).
End Store.
End PgRegistration.
