(* ===== verification/PgRegistrationProofs.v ===== *)
(** * The Postgres registration store: theorems

    The table implements the registry of owned entries on a connection that
    may fail at every statement, and the interface the application relies
    on. *)

From S2P Require Import Prelude GoStrings GoUnicode Credentials Domain RegistrationStore Postgres Repositories PgRegistration.
Import Postgres.

Module PgRegistrationProofs.
Import PgRegistration.

Section Rows.
Context {rt : GoRuntime} {sha : Sha256} `{json : RegistrationJSON} {collation : Collation}.
Abbreviation table := (gmap string row).
Implicit Types (t : table) (r : R.t).

(** What the store shows of a row, when it can be read. *)
Definition shown (x : row) : option R.t :=
  match scanRegistration x with Ok r => Some (publicRegistration r) | Err _ => None end.
Definition pgStored t : gmap string R.t := omap shown t.

Lemma pgStored_Some t id r :
  pgStored t !! id = Some r ↔ ∃ x r0, t !! id = Some x ∧ scanRegistration x = Ok r0 ∧ r = publicRegistration r0.
Proof.
  unfold pgStored, shown. rewrite lookup_omap_Some. split.
  - intros (x & Hs & Hx). destruct (scanRegistration x) eqn:He; naive_solver.
  - intros (x & r0 & Hx & He & ->). exists x. by rewrite He.
Qed.

Lemma public_withoutSecret' r : publicRegistration r = withoutSecret r.
Proof.
  unfold publicRegistration, withoutSecret.
  by rewrite RegistrationStore.clone_rules_id, RegistrationStore.clone_muted_id.
Qed.

(** Scanning only fills in the two maps. *)
Lemma scan_columns x r :
  scanRegistration x = Ok r →
  r = (columns x) <| R.NotificationChannelRules := R.NotificationChannelRules r |>
        <| R.NotificationChannelMutedUntilEpochMillis := R.NotificationChannelMutedUntilEpochMillis r |>.
Proof.
  unfold scanRegistration.
  destruct (0 <? len (rulesColumn x)); [destruct (UnmarshalRules _); [|done]|]; cbn [result_bind];
    (destruct (0 <? len (mutedColumn x)); [destruct (UnmarshalMuted _); [|done]|]); intros [= <-]; by destruct (columns x).
Qed.

Lemma rulesJSON_text m j :
  jsonb (notificationChannelRulesJSON m) = Some j → j ≠ "" ∧
  ∃ m', UnmarshalRules j = Ok m' ∧ ((∀ c, is_Some (m !! c) → ValidString c = true) → dom m' = dom m) ∧
    ((∀ c l, m !! c = Some l → ValidString c = true ∧ ∀ x, x ∈ l → ValidString x = true) → m' = m).
Proof.
  unfold notificationChannelRulesJSON, mlen. destruct (Z.eqb_spec (Z.of_nat (size m)) 0) as [Hz|_]; [|apply rules_text].
  assert (m = ∅) as -> by (apply map_size_empty_inv; lia).
  destruct empty_text as (-> & Hr & _). intros [= <-]. split; [done|]. exists ∅. by split_and!.
Qed.

Lemma mutedJSON_text m j :
  jsonb (notificationChannelMutedUntilEpochMillisJSON m) = Some j → j ≠ "" ∧
  ∃ m', UnmarshalMuted j = Ok m' ∧ ((∀ c, is_Some (m !! c) → ValidString c = true) → m' = m).
Proof.
  unfold notificationChannelMutedUntilEpochMillisJSON, mlen.
  destruct (Z.eqb_spec (Z.of_nat (size m)) 0) as [Hz|_]; [|apply muted_text].
  assert (m = ∅) as -> by (apply map_size_empty_inv; lia).
  destruct empty_text as (-> & _ & Hr). intros [= <-]. split; [done|]. by exists ∅.
Qed.

(** All the texts of the two maps are text. *)
Definition plain r : Prop :=
  (∀ c l, R.NotificationChannelRules r !! c = Some l → ValidString c = true ∧ ∀ x, x ∈ l → ValidString x = true) ∧
  (∀ c, is_Some (R.NotificationChannelMutedUntilEpochMillis r !! c) → ValidString c = true).

(** The registration with the time as the database keeps it. *)
Definition stamped r : R.t := r <| R.UpdatedAt := timestamptz (R.UpdatedAt r) |>.

(** The row [Upsert] writes for [r], and what can be read back from it. *)
Definition hashed r : R.t := r <| R.DeviceSecretHash := HashSecret (R.DeviceSecret r) |> <| R.DeviceSecret := "" |>.

Lemma nonempty_len s : s ≠ "" → (0 <? len s) = true.
Proof. intros Hs. apply Z.ltb_lt. unfold len. destruct s; [done|]. cbn. lia. Qed.

Lemma upsertRow_saved r t t' u :
  execute (texts (hashed r)) (upsertRow (hashed r)) t = Ok (t', u) →
  ∃ x r1, t' = <[R.InstallationID r := x]> t ∧ scanRegistration x = Ok r1 ∧
    R.DeviceSecretHash (columns x) = HashSecret (R.DeviceSecret r) ∧
    R.InstallationID (columns x) = R.InstallationID r ∧ kept r (publicRegistration r1) ∧
    (plain r → publicRegistration r1 = withoutSecret (stamped r)).
Proof.
  unfold execute. destruct (forallb text (texts (hashed r))) eqn:Htexts; [|done].
  assert (∀ c, c ∈ R.ChannelIDs r → ValidString c = true) as Hvalid.
  { intros c Hc. rewrite forallb_forall in Htexts. specialize (Htexts c).
    unfold text in Htexts. apply andb_true_iff in Htexts as [? _]; [done|].
    apply list_elem_of_In. unfold texts. rewrite !elem_of_app. right. left. done. }
  clear Htexts. unfold upsertRow. destruct (negb _); [done|].
  destruct (jsonb (notificationChannelRulesJSON _)) as [rules|] eqn:Hr; [|done].
  destruct (jsonb (notificationChannelMutedUntilEpochMillisJSON _)) as [muted|] eqn:Hm; [|done].
  intros [= <- _]. change (R.NotificationChannelRules (hashed r)) with (R.NotificationChannelRules r) in Hr.
  change (R.NotificationChannelMutedUntilEpochMillis (hashed r))
    with (R.NotificationChannelMutedUntilEpochMillis r) in Hm.
  apply rulesJSON_text in Hr as (Hr0 & m1 & Hr1 & Hdom1 & Heq1).
  apply mutedJSON_text in Hm as (Hm0 & m2 & Hm1 & Heq2).
  eexists _, _. split; [done|]. split.
  { unfold scanRegistration. cbn [rulesColumn mutedColumn columns].
    rewrite !nonempty_len, Hr1 by done. cbn [result_bind]. by rewrite Hm1. }
  split; [done|]. split; [done|]. rewrite public_withoutSecret'. split.
  - split; try done.
    + intros Hin c Hc. cbn in Hc. apply Hin. apply elem_of_dom. rewrite <-Hdom1; [by apply elem_of_dom|].
      intros c' Hc'. by apply Hvalid, Hin.
    + intros Hin c Hc. cbn in Hc. apply Hin. rewrite <-Heq2; [done|]. intros c' Hc'. by apply Hvalid, Hin.
  - intros [Hp1 Hp2]. rewrite (Heq1 Hp1), (Heq2 Hp2). by destruct r.
Qed.

(** ** What the operations do *)

Section Operations.
Context (outcomes : nat → outcome).
Abbreviation L := (alone (T:=table) outcomes).
Implicit Types (s : session table).

(** An answer that reports a failure of the database, never a refusal. *)
Definition unavailable {A} (answer : result A) : Prop := ∃ m, answer = Err (ErrMsg m).

(** The device of a registration owns the row, if there is one. *)
Definition owns t (id secret : string) : Prop :=
  ∀ x, t !! id = Some x → R.DeviceSecretHash (columns x) = HashSecret secret.

Inductive upserted t r : table → result () → Prop :=
| upsert_refused :
    TrimSpace (R.InstallationID r) = "" ∨ R.DeviceSecret r = "" ∨ ¬ owns t (R.InstallationID r) (R.DeviceSecret r) →
    upserted t r t (Err ErrDeviceSecretMismatch)
| upsert_failed answer : unavailable answer → upserted t r t answer
| upsert_saved x r1 answer :
    R.DeviceSecret r ≠ "" → TrimSpace (R.InstallationID r) ≠ "" → owns t (R.InstallationID r) (R.DeviceSecret r) →
    scanRegistration x = Ok r1 → R.DeviceSecretHash (columns x) = HashSecret (R.DeviceSecret r) →
    R.InstallationID (columns x) = R.InstallationID r → kept r (publicRegistration r1) →
    (plain r → publicRegistration r1 = withoutSecret (stamped r)) →
    answer = Ok () ∨ unavailable answer →
    upserted t r (<[R.InstallationID r := x]> t) answer.

Lemma Upsert_runs r s : runs (Upsert L r) s (λ s' answer, upserted (tables s) r (tables s') answer).
Proof.
  unfold Upsert. destruct (bool_decide_reflect (TrimSpace (R.InstallationID r) = "")) as [Hb|Hb].
  { apply upsert_refused. by left. }
  destruct (bool_decide_reflect (R.DeviceSecret r = "")) as [Hs|Hs].
  { apply upsert_refused. by right; left. }
  cbn [orb]. assert (∀ op e, unavailable (A:=()) (Err (fmtDatabase op (Some e)))) as Hun by (intros; by eexists).
  tx_step; [intros; apply upsert_failed; by eexists|]. cbn [others alone]. intros n.
  tx_step. tx_step. tx_step; [intros; cbn; by apply upsert_failed|]. intros m w existing Hsel. cbn beta iota.
  unfold execute, selectRow in Hsel. destruct (forallb _ _); [|done]. injection Hsel as <- <-.
  destruct (tables s !! R.InstallationID r) as [x0|] eqn:Hx0.
  - rewrite EqualHash_HashSecret.
    destruct (bool_decide_reflect (R.DeviceSecretHash (columns x0) = HashSecret (R.DeviceSecret r))) as [Hh|Hh]; cbn [negb].
    2: { intros m'. cbn. apply upsert_refused. right. right. intros Ho. by apply Hh, Ho. }
    tx_step. tx_step. tx_step; [intros; cbn; by apply upsert_failed|]. cbn beta iota. intros m' w u Hup.
    destruct (upsertRow_saved _ _ _ _ Hup) as (x & r1 & -> & ? & ? & ? & ? & ?). tx_step.
    assert (owns (tables s) (R.InstallationID r) (R.DeviceSecret r)) as Ho by (intros ? ?; simplify_eq; congruence).
    tx_step; [intros; cbn; by apply upsert_failed|]. split; intros; cbn; eapply upsert_saved; eauto.
  - tx_step. tx_step. tx_step; [intros; cbn; by apply upsert_failed|]. cbn beta iota. intros m' w u Hup.
    destruct (upsertRow_saved _ _ _ _ Hup) as (x & r1 & -> & ? & ? & ? & ? & ?). tx_step.
    assert (owns (tables s) (R.InstallationID r) (R.DeviceSecret r)) as Ho by (intros ? ?; simplify_eq).
    tx_step; [intros; cbn; by apply upsert_failed|]. split; intros; cbn; eapply upsert_saved; eauto.
Qed.

Inductive deleted t (id secret : string) : table → result () → Prop :=
| delete_refused answer :
    answer = (match t !! id with None => Err ErrRegistrationNotFound | Some _ => Err ErrDeviceSecretMismatch end) →
    (is_Some (t !! id) → ¬ owns t id secret) → deleted t id secret t answer
| delete_failed answer : unavailable answer → deleted t id secret t answer
| delete_done answer :
    is_Some (t !! id) → owns t id secret → answer = Ok () ∨ unavailable answer → deleted t id secret (delete id t) answer.

Lemma Delete_runs id secret s :
  runs (Delete L id secret) s (λ s' answer, deleted (tables s) id secret (tables s') answer).
Proof.
  unfold Delete. assert (∀ op e, unavailable (A:=()) (Err (fmtDatabase op (Some e)))) as Hun by (intros; by eexists).
  tx_step. tx_step. tx_step; cbn [others alone]; [intros; by apply delete_failed|].
  intros n t' found Hsel. unfold execute, selectRow in Hsel. destruct (forallb _ _); [|done]. injection Hsel as <- <-.
  split; [|intros; by apply delete_failed]. destruct (tables s !! id) as [x|] eqn:Hx; cycle 1.
  { tx_step. apply delete_refused; cbn [tables]; rewrite Hx; [done|by intros []]. }
  rewrite EqualHash_HashSecret.
  destruct (bool_decide_reflect (R.DeviceSecretHash (columns x) = HashSecret secret)) as [Hh|Hh]; cbn [negb].
  2: { tx_step. apply delete_refused; cbn [tables]; rewrite Hx; [done|]. intros _ Ho. by apply Hh, Ho. }
  assert (owns (tables s) id secret) as Ho by (intros ? ?; simplify_eq; congruence).
  tx_step. tx_step. tx_step; cbn [others alone tables]; [intros; by apply delete_failed|].
  intros n' t' affected Hdel. unfold execute, deleteRow in Hdel. destruct (forallb _ _); [|done].
  rewrite Hx, bool_decide_true in Hdel by done. injection Hdel as <- <-.
  split; [|intros e]; cbn; apply delete_done; eauto.
Qed.

(** The rows of an account are the entries the in-memory store selects. *)
Lemma ofAccount_selects userID ids id x :
  ofAccount (TrimSpace userID) (compactStrings ids) id x =
  RegistrationStore.account_selects (TrimSpace userID) (RegistrationStore.account_targets ids) id (columns x).
Proof.
  apply eq_true_iff_eq. rewrite RegistrationStore.account_selects_true, RegistrationStore.elem_of_account_targets.
  unfold ofAccount. rewrite orb_true_iff, andb_true_iff, negb_true_iff, bool_decide_eq_false, !bool_decide_eq_true.
  unfold compactStrings. rewrite elem_of_compact. assert (id ∉ (∅ : gset string)) by set_solver. naive_solver.
Qed.

Definition accountRemoved t (userID : string) (ids : list string) : list string :=
  (List.filter (λ kv, ofAccount (TrimSpace userID) (compactStrings ids) kv.1 kv.2) (rangeMap t)).*1.
Definition accountKept t (userID : string) (ids : list string) : table :=
  filter (λ kv, ofAccount (TrimSpace userID) (compactStrings ids) kv.1 kv.2 = false) t.

Lemma DeleteForAccount_runs userID ids s :
  runs (DeleteForAccount L userID ids) s (λ s' answer,
    tables s' = tables s ∧ unavailable answer ∨
    tables s' = accountKept (tables s) userID ids ∧
      (answer = Ok (sortSlice string_lt (accountRemoved (tables s) userID ids)) ∨ unavailable answer)).
Proof.
  unfold DeleteForAccount. tx_step. tx_step. tx_step; cbn [others alone]; [intros; left; split; [done|by eexists]|].
  intros n t' removed Hdel. unfold execute, deleteAccountRows in Hdel. destruct (forallb _ _); [|done].
  injection Hdel as <- <-. split; [|intros e]; right; (split; [done|]); [by left|right; by eexists].
Qed.

(** Reads show the row of that installation. *)
Lemma load_runs id s :
  runs (loadRegistration L id) s (λ s' answer,
    tables s' = tables s ∧
    match answer with
    | Ok None => tables s !! id = None
    | Ok (Some r) => ∃ x, tables s !! id = Some x ∧ scanRegistration x = Ok r
    | Err _ => True
    end).
Proof.
  unfold loadRegistration. tx_step. tx_step; [done|]. intros n t' found Hsel. cbn [others alone] in *.
  unfold execute, selectRow in Hsel. destruct (forallb _ _); [|done]. injection Hsel as <- <-. split; [|done].
  destruct (tables s !! id) as [x|] eqn:Hx; [|done]. unfold runs.
  destruct (scanRegistration x) eqn:He; [|done]. split; [done|]. eauto.
Qed.

Lemma Get_runs id s :
  runs (Get L id) s (λ s' answer,
    tables s' = tables s ∧
    (unavailable answer ∨ answer = Err ErrRegistrationNotFound ∧ tables s !! id = None ∨
     ∃ x r, tables s !! id = Some x ∧ scanRegistration x = Ok r ∧ answer = Ok (publicRegistration r))).
Proof.
  unfold Get. tx_step. tx_step. eapply runs_mono; [|apply load_runs]. intros s' [[r|]|e] [Ht Ha].
  - destruct Ha as (x & Hx & Hr). split; [done|]. right. right. eauto.
  - split; [done|]. right. by left.
  - split; [done|]. left. by eexists.
Qed.

Lemma Authenticate_runs id secret s :
  runs (Authenticate L id secret) s (λ s' answer,
    tables s' = tables s ∧
    (unavailable answer ∨ answer = Err ErrRegistrationNotFound ∧ tables s !! id = None ∨
     ∃ x r, tables s !! id = Some x ∧ scanRegistration x = Ok r ∧
       answer = if bool_decide (R.DeviceSecretHash (columns x) = HashSecret secret)
                then Ok (publicRegistration r) else Err ErrDeviceSecretMismatch)).
Proof.
  unfold Authenticate. tx_step. tx_step. eapply runs_mono; [|apply load_runs]. intros s' [[r|]|e] [Ht Ha].
  - destruct Ha as (x & Hx & Hr). rewrite EqualHash_HashSecret.
    assert (R.DeviceSecretHash r = R.DeviceSecretHash (columns x)) as Hh by (by rewrite (scan_columns _ _ Hr)).
    rewrite Hh. case_bool_decide as Heq; (split; [done|]; right; right; exists x, r; by rewrite ?bool_decide_true, ?bool_decide_false by done).
  - split; [done|]. right. by left.
  - split; [done|]. left. by eexists.
Qed.

Lemma scanAll_shown rows r l : scanAll rows = Ok l → r ∈ l → ∃ x, x ∈ rows ∧ shown x = Some r.
Proof.
  revert l. induction rows as [|x rows IH]; intros l; cbn [scanAll]; [intros [= <-] ?%elem_of_nil; done|].
  destruct (scanRegistration x) as [r0|] eqn:Hx; [|done]. cbn [result_bind].
  destruct (scanAll rows) as [l0|]; [|done]. cbn [result_bind]. intros [= <-] [->|Hin]%elem_of_cons.
  - exists x. split; [by left|]. unfold shown. by rewrite Hx.
  - destruct (IH _ eq_refl Hin) as (y & ? & ?). exists y. split; [by right|done].
Qed.

Lemma List_shown s r : r ∈ List L s → ∃ id, pgStored (tables s) !! id = Some r.
Proof.
  unfold List, onPool, execute. cbn [forallb others alone].
  destruct (outcomeOf _ _); [|by intros ?%elem_of_nil|by intros ?%elem_of_nil]. cbn [snd].
  destruct (scanAll _) as [l|] eqn:Hl; [|by intros ?%elem_of_nil]. intros Hr.
  destruct (scanAll_shown _ _ _ Hl Hr) as (x & ([id x'] & -> & Hin)%list_elem_of_fmap & Hx).
  unfold stable_sort in Hin. rewrite merge_sort_Permutation in Hin. apply elem_of_map_to_list in Hin.
  exists id. unfold pgStored. by rewrite lookup_omap, Hin.
Qed.

(** ** Refinement *)

(** One operation on the database. *)
Definition exec s (o : RegistrationStore.op) : session table * RegistrationStore.output :=
  match o with
  | RegistrationStore.OpUpsert r => let '(s, x) := Upsert L r s in (s, RegistrationStore.OutUnit x)
  | RegistrationStore.OpGet id => let '(s, x) := Get L id s in (s, RegistrationStore.OutRegistration x)
  | RegistrationStore.OpAuthenticate id secret =>
      let '(s, x) := Authenticate L id secret s in (s, RegistrationStore.OutRegistration x)
  | RegistrationStore.OpDelete id secret => let '(s, x) := Delete L id secret s in (s, RegistrationStore.OutUnit x)
  | RegistrationStore.OpDeleteForAccount userID ids =>
      let '(s, x) := DeleteForAccount L userID ids s in (s, RegistrationStore.OutRemoved x)
  end.

(** An output that reports a failure of the database. *)
Definition broken (out : RegistrationStore.output) : Prop :=
  match out with
  | RegistrationStore.OutUnit x => unavailable x
  | RegistrationStore.OutRegistration x => unavailable x
  | RegistrationStore.OutRemoved x => unavailable x
  end.

(** The registry behind an unreliable line: an operation is performed and
    answered, or reported as failed and either performed or not. *)
Inductive served (a : gmap string RegistrationStore.Registry.entry) (o : RegistrationStore.op)
    : gmap string RegistrationStore.Registry.entry → RegistrationStore.output → Prop :=
| served_done : served a o (RegistrationStore.Registry.exec a o).1 (RegistrationStore.Registry.exec a o).2
| served_failed out : broken out → served a o a out
| served_lost out : broken out → served a o (RegistrationStore.Registry.exec a o).1 out.

(** The operation as the columns keep it: the time of a registration to the
    microsecond. *)
Definition stampedOp (o : RegistrationStore.op) : RegistrationStore.op :=
  match o with
  | RegistrationStore.OpUpsert r => RegistrationStore.OpUpsert (stamped r)
  | _ => o
  end.

(** What the application sends: identifiers and secrets that are not blank,
    and names that are text. *)
Definition admissible (o : RegistrationStore.op) : Prop :=
  match o with
  | RegistrationStore.OpUpsert r => TrimSpace (R.InstallationID r) ≠ "" ∧ plain r
  | RegistrationStore.OpAuthenticate _ secret | RegistrationStore.OpDelete _ secret => secret ≠ ""
  | _ => True
  end.

(** Every row can be read. *)
Definition readable t : Prop := map_Forall (λ _ x, is_ok (scanRegistration x) = true) t.

Definition entryOf (x : row) : RegistrationStore.Registry.entry :=
  {| RegistrationStore.Registry.owner := R.DeviceSecretHash (columns x);
     RegistrationStore.Registry.published :=
       match scanRegistration x with Ok r => publicRegistration r | Err _ => R.zero end |}.
Definition registryOf t : gmap string RegistrationStore.Registry.entry := entryOf <$> t.

Lemma entryOf_scanned x r : scanRegistration x = Ok r →
  entryOf x = {| RegistrationStore.Registry.owner := R.DeviceSecretHash (columns x);
                 RegistrationStore.Registry.published := publicRegistration r |}.
Proof. unfold entryOf. by intros ->. Qed.

Lemma opens_owner x secret :
  secret ≠ "" → RegistrationStore.Registry.opens (entryOf x) secret = (R.DeviceSecretHash (columns x) == HashSecret secret).
Proof. intros Hs. unfold RegistrationStore.Registry.opens. by rewrite bool_decide_false. Qed.

Lemma readable_insert t id x : readable t → is_ok (scanRegistration x) = true → readable (<[id:=x]> t).
Proof. intros. by apply map_Forall_insert_2. Qed.

Lemma upserted_served t r t' answer :
  admissible (RegistrationStore.OpUpsert r) → readable t → upserted t r t' answer →
  readable t' ∧ served (registryOf t) (RegistrationStore.OpUpsert (stamped r)) (registryOf t') (RegistrationStore.OutUnit answer).
Proof.
  intros (Hid & Hplain) Ht Hup. destruct Hup as [Href|answer Hun|x r1 answer Hs _ Ho Hx Hh Hxid _ Heq Hans].
  - split; [done|].
    enough (RegistrationStore.Registry.exec (registryOf t) (RegistrationStore.OpUpsert (stamped r)) =
      (registryOf t, RegistrationStore.OutUnit (Err ErrDeviceSecretMismatch))) as He.
    { pose proof (served_done (registryOf t) (RegistrationStore.OpUpsert (stamped r))) as Hd. by rewrite He in Hd. }
    cbn [RegistrationStore.Registry.exec]. change (R.InstallationID (stamped r)) with (R.InstallationID r).
    change (R.DeviceSecret (stamped r)) with (R.DeviceSecret r). unfold registryOf at 1. rewrite lookup_fmap.
    destruct (decide (R.DeviceSecret r = "")) as [Hs|Hs].
    { destruct (t !! R.InstallationID r); cbn; unfold RegistrationStore.Registry.opens; by rewrite bool_decide_true by done. }
    destruct Href as [?|[?|Hown]]; [done..|]. destruct (t !! R.InstallationID r) as [x|] eqn:Hx; cbn.
    + rewrite opens_owner by done. rewrite bool_decide_false; [done|]. intros Hh. apply Hown. intros x' Hx'. by simplify_eq.
    + exfalso. apply Hown. intros x' Hx'. by simplify_eq.
  - split; [done|]. by apply served_failed.
  - split; [apply readable_insert; [done|by rewrite Hx]|].
    enough (RegistrationStore.Registry.exec (registryOf t) (RegistrationStore.OpUpsert (stamped r)) =
      (registryOf (<[R.InstallationID r:=x]> t), RegistrationStore.OutUnit (Ok ()))) as He.
    { pose proof (served_done (registryOf t) (RegistrationStore.OpUpsert (stamped r))) as Hd.
      pose proof (served_lost (registryOf t) (RegistrationStore.OpUpsert (stamped r))) as Hl.
      rewrite He in Hd, Hl. destruct Hans as [->|Hun]; [done|by apply Hl]. }
    cbn [RegistrationStore.Registry.exec]. change (R.InstallationID (stamped r)) with (R.InstallationID r).
    change (R.DeviceSecret (stamped r)) with (R.DeviceSecret r). unfold registryOf. rewrite lookup_fmap, fmap_insert.
    rewrite (entryOf_scanned _ _ Hx), Hh, (Heq Hplain).
    destruct (t !! R.InstallationID r) as [y|] eqn:Hy; cbn.
    + rewrite opens_owner by done. by rewrite bool_decide_true by (by apply Ho).
    + by rewrite bool_decide_false.
Qed.

Lemma deleted_served t id secret t' answer :
  secret ≠ "" → readable t → deleted t id secret t' answer →
  readable t' ∧ served (registryOf t) (RegistrationStore.OpDelete id secret) (registryOf t') (RegistrationStore.OutUnit answer).
Proof.
  intros Hs Ht Hd. pose proof (served_done (registryOf t) (RegistrationStore.OpDelete id secret)) as Hdone.
  pose proof (served_lost (registryOf t) (RegistrationStore.OpDelete id secret)) as Hlost.
  assert ((registryOf t) !! id = entryOf <$> t !! id) as Hget by apply lookup_fmap.
  cbn [RegistrationStore.Registry.exec] in Hdone, Hlost. rewrite Hget in Hdone, Hlost.
  destruct Hd as [answer -> Hown|answer Hun|answer [x Hx] Ho Hans].
  - split; [done|]. destruct (t !! id) as [x|] eqn:Hx; cbn in *; [|done].
    rewrite opens_owner, bool_decide_false in Hdone; [done| |done]. intros Hh. apply Hown; [done|].
    intros x' Hx'. by simplify_eq.
  - split; [done|]. by apply served_failed.
  - split; [by apply map_Forall_delete|]. rewrite Hx in Hdone, Hlost. cbn in Hdone, Hlost.
    rewrite opens_owner, bool_decide_true in Hdone by (try done; by apply Ho).
    rewrite opens_owner, bool_decide_true in Hlost by (try done; by apply Ho). cbn in Hdone, Hlost.
    unfold registryOf. rewrite fmap_delete. destruct Hans as [->|Hun]; [done|by apply Hlost].
Qed.

Lemma registryOf_selects userID ids id x :
  readable {[id := x]} →
  RegistrationStore.account_selects (TrimSpace userID) (RegistrationStore.account_targets ids) id
    (RegistrationStore.Registry.published (entryOf x)) = ofAccount (TrimSpace userID) (compactStrings ids) id x.
Proof.
  intros Hx%map_Forall_singleton. rewrite ofAccount_selects. unfold entryOf.
  destruct (scanRegistration x) as [r|] eqn:Hr; [|done]. cbn [RegistrationStore.Registry.published].
  rewrite (scan_columns _ _ Hr). done.
Qed.


Lemma account_served t userID ids :
  readable t →
  RegistrationStore.Registry.exec (registryOf t) (RegistrationStore.OpDeleteForAccount userID ids) =
  (registryOf (accountKept t userID ids),
   RegistrationStore.OutRemoved (Ok (sortSlice string_lt (accountRemoved t userID ids)))).
Proof.
  intros Ht. cbn [RegistrationStore.Registry.exec]. f_equal.
  - apply map_eq. intros id. unfold registryOf, accountKept. rewrite map_lookup_filter, !lookup_fmap, map_lookup_filter.
    destruct (t !! id) as [x|] eqn:Hx; [|done].
    cbn -[entryOf ofAccount RegistrationStore.account_selects]. rewrite registryOf_selects.
    2: { apply map_Forall_singleton. by apply (Ht id). }
    by destruct (ofAccount _ _ _ _).
  - do 2 f_equal. symmetry. apply (sortSlice_deterministic string_lt rt reference_runtime).
    { intros. by apply string_lt_tie. }
    unfold accountRemoved. etrans; [apply fmap_Permutation, filter_bool_perm, rangeMap_perm|].
    unfold registryOf. rewrite map_to_list_fmap. match goal with |- ?l ≡ₚ ?k => enough (l = k) as -> by done end.
    assert (∀ kv, kv ∈ map_to_list t → is_ok (scanRegistration kv.2) = true) as Hok.
    { intros [id x] Hin%elem_of_map_to_list. by apply (Ht id). }
    induction (map_to_list t) as [|[id x] l IH]; [done|].
    cbn -[entryOf ofAccount RegistrationStore.account_selects].
    rewrite registryOf_selects by (apply map_Forall_singleton, (Hok (id, x)); by left).
    specialize (IH (λ kv Hkv, Hok kv (list_elem_of_further _ _ _ Hkv))).
    destruct (ofAccount _ _ _ _); cbn; by rewrite IH.
Qed.

Lemma exec_served s o :
  admissible o → readable (tables s) →
  readable (tables (exec s o).1) ∧ served (registryOf (tables s)) (stampedOp o) (registryOf (tables (exec s o).1)) (exec s o).2.
Proof.
  intros Ho Hs. pose proof (served_done (registryOf (tables s)) (stampedOp o)) as Hdone.
  assert (∀ id, registryOf (tables s) !! id = entryOf <$> tables s !! id) as Hget by (intros; apply lookup_fmap).
  destruct o as [r|id|id secret|id secret|userID ids]; cbn [exec stampedOp] in *.
  - pose proof (Upsert_runs r s) as Hr. unfold runs in Hr. destruct (Upsert L r s). by apply upserted_served.
  - pose proof (Get_runs id s) as Hr. unfold runs in Hr. destruct (Get L id s) as [s' out]. cbn [fst snd].
    destruct Hr as [-> [Hun|[[-> Hx]|(x & r & Hx & Hr & ->)]]]; (split; [done|]); [by apply served_failed|..];
      cbn [RegistrationStore.Registry.exec fst snd] in Hdone; rewrite Hget, Hx in Hdone; [done|].
    cbn [fmap option_fmap option_map] in Hdone. by rewrite (entryOf_scanned _ _ Hr) in Hdone.
  - pose proof (Authenticate_runs id secret s) as Hr. unfold runs in Hr.
    destruct (Authenticate L id secret s) as [s' out]. cbn [fst snd].
    destruct Hr as [-> [Hun|[[-> Hx]|(x & r & Hx & Hr & ->)]]]; (split; [done|]); [by apply served_failed|..];
      cbn [RegistrationStore.Registry.exec fst snd] in Hdone; rewrite Hget, Hx in Hdone; [done|].
    cbn [fmap option_fmap option_map] in Hdone. rewrite opens_owner in Hdone by done.
    rewrite (entryOf_scanned _ _ Hr) in Hdone. done.
  - pose proof (Delete_runs id secret s) as Hr. unfold runs in Hr. destruct (Delete L id secret s).
    by apply deleted_served.
  - pose proof (DeleteForAccount_runs userID ids s) as Hr. unfold runs in Hr.
    destruct (DeleteForAccount L userID ids s) as [s' out]. cbn [fst snd].
    pose proof (served_lost (registryOf (tables s)) (RegistrationStore.OpDeleteForAccount userID ids)) as Hlost.
    rewrite account_served in Hdone, Hlost by done.
    destruct Hr as [[-> Hun]|[-> Hout]]; [split; [done|by apply served_failed]|].
    split; [intros id x [Hx _]%map_lookup_filter_Some; by apply (Hs id)|]. destruct Hout as [->|Hun]; [done|by apply Hlost].
Qed.

(** What the database can hold: texts that are UTF-8, a known provider and
    maps that are JSON. *)
Definition storable (o : RegistrationStore.op) : Prop :=
  match o with
  | RegistrationStore.OpUpsert r =>
      forallb text (texts (hashed r)) = true ∧ R.Provider r ∈ providers ∧
      is_Some (jsonb (notificationChannelRulesJSON (R.NotificationChannelRules r))) ∧
      is_Some (jsonb (notificationChannelMutedUntilEpochMillisJSON (R.NotificationChannelMutedUntilEpochMillis r)))
  | RegistrationStore.OpGet id | RegistrationStore.OpAuthenticate id _ => text id = true
  | RegistrationStore.OpDelete id secret => text id = true ∧ text (HashSecret secret) = true
  | RegistrationStore.OpDeleteForAccount userID ids =>
      forallb text (TrimSpace userID :: compactStrings ids) = true
  end.

(** When every statement is answered, what can be held is never reported as
    a failure. *)
Section Answered.
Context (answered : ∀ i, outcomes i = Answered).

Lemma exec_available s o : storable o → readable (tables s) → ¬ broken (exec s o).2.
Proof.
  intros Ho Hs. destruct o as [r|id|id secret|id secret|userID ids]; cbn [exec storable broken] in *.
  - destruct Ho as (Htexts & Hprov & [rules Hrules] & [muted Hmuted]).
    enough (¬ unavailable (Upsert L r s).2) by (by destruct (Upsert L r s)).
    unfold Upsert. case_match; [by intros [m ?]|].
    unfold transaction. cbn [others alone outcomeOf]. rewrite answered.
    assert (forallb text [R.InstallationID r] = true) as Hid.
    { cbn. apply andb_true_iff. split; [|done]. eapply forallb_forall; [exact Htexts|by left]. }
    unfold bind at 1, database at 1. rewrite (answered_onTx L answered _ _ _ _ _ (tables s) (tables s !! R.InstallationID r)) by done.
    match goal with |- context [if ?b then fail ErrDeviceSecretMismatch else _] => destruct b; [by intros [m ?]|] end.
    assert (∃ t, upsertRow (hashed r) (tables s) = Ok (t, ())) as [t Hup].
    { unfold upsertRow. change (R.Provider (hashed r)) with (R.Provider r). rewrite bool_decide_true by done. cbn [negb].
      change (R.NotificationChannelRules (hashed r)) with (R.NotificationChannelRules r).
      change (R.NotificationChannelMutedUntilEpochMillis (hashed r)) with (R.NotificationChannelMutedUntilEpochMillis r).
      rewrite Hrules, Hmuted. eauto. }
    fold (hashed r). unfold bind at 1, database at 1.
    rewrite (answered_onTx L answered _ _ _ _ _ t ()) by done.
    unfold database, Commit. cbn [alone outcomeOf aborted position working published]. rewrite answered. by intros [m ?].
  - enough (¬ unavailable (Get L id s).2) by (by destruct (Get L id s)).
    unfold Get, loadRegistration, bind at 1, database, bind at 1.
    rewrite (answered_onPool L answered _ _ _ (tables s) (tables s !! id)) by (cbn; by rewrite ?Ho).
    destruct (tables s !! id) as [x|] eqn:Hx; [|by intros [m ?]].
    pose proof (Hs _ _ Hx) as Hok. cbn beta in Hok. destruct (scanRegistration x); [|done]. by intros [m ?].
  - enough (¬ unavailable (Authenticate L id secret s).2) by (by destruct (Authenticate L id secret s)).
    unfold Authenticate, loadRegistration, bind at 1, database, bind at 1.
    rewrite (answered_onPool L answered _ _ _ (tables s) (tables s !! id)) by (cbn; by rewrite ?Ho).
    destruct (tables s !! id) as [x|] eqn:Hx; [|by intros [m ?]].
    pose proof (Hs _ _ Hx) as Hok. cbn beta in Hok. destruct (scanRegistration x); [|done]. cbn. case_match; by intros [m ?].
  - destruct Ho as [Hid Hh]. enough (¬ unavailable (Delete L id secret s).2) by (by destruct (Delete L id secret s)).
    unfold Delete, bind at 1, database at 1.
    rewrite (answered_onPool L answered _ _ _ (tables s) (tables s !! id)) by (cbn; by rewrite ?Hid).
    destruct (tables s !! id) as [x|] eqn:Hx; [|by intros [m ?]]. rewrite EqualHash_HashSecret.
    case_bool_decide as Heq; [|by intros [m ?]]. cbn [negb]. unfold bind, database.
    rewrite (answered_onPool L answered _ _ _ (delete id (tables s)) 1); [by intros [m ?]|cbn; by rewrite Hid, Heq, Hh|].
    unfold deleteRow. cbn [others alone tables]. by rewrite Hx, bool_decide_true.
  - enough (¬ unavailable (DeleteForAccount L userID ids s).2) by (by destruct (DeleteForAccount L userID ids s)).
    unfold DeleteForAccount, bind, database.
    erewrite (answered_onPool L answered); [by intros [m ?]|done..].
Qed.

End Answered.

(** ** Sequences of calls *)

(** What the application calls: an operation, or [List]. *)
Inductive call := Operation (o : RegistrationStore.op) | ListAll.
Inductive reply := Output (out : RegistrationStore.output) | Listed (registrations : list R.t).

Definition perform s (c : call) : session table * reply :=
  match c with
  | Operation o => let '(s, out) := exec s o in (s, Output out)
  | ListAll => (mkSession (tables s) (S (sent s)), Listed (List L s))
  end.
Fixpoint run s (calls : list call) : list reply :=
  match calls with
  | [] => []
  | c :: calls => let '(s, answer) := perform s c in answer :: run s calls
  end.

(** The registry's answer to a call: [List] shows every entry once, in the
    order of the identifiers. *)
Inductive answers (a : gmap string RegistrationStore.Registry.entry) : call →
    gmap string RegistrationStore.Registry.entry → reply → Prop :=
| answers_operation o :
    answers a (Operation o) (RegistrationStore.Registry.exec a (stampedOp o)).1
      (Output (RegistrationStore.Registry.exec a (stampedOp o)).2)
| answers_list entries :
    entries ≡ₚ map_to_list a → StronglySorted (λ x y, text_lt x.1 y.1 = true) entries →
    answers a ListAll a (Listed (RegistrationStore.Registry.published <$> entries.*2)).

(** The reply of a call that failed: a failure of the database; [List] logs
    it and shows nothing. *)
Definition failure (answer : reply) : Prop :=
  match answer with Output out => broken out | Listed registrations => registrations = [] end.

(** The registry behind a line that may fail when [faulty]: a call is
    answered, or fails and is performed as a whole or not at all. *)
Inductive replies (faulty : Prop) : gmap string RegistrationStore.Registry.entry → list call → list reply → Prop :=
| replies_nil a : replies faulty a [] []
| replies_answered a a' c calls answer rest :
    answers a c a' answer → replies faulty a' calls rest → replies faulty a (c :: calls) (answer :: rest)
| replies_failed a a' c calls answer rest :
    faulty → failure answer → a' = a ∨ (∃ lost, answers a c a' lost) → replies faulty a' calls rest →
    replies faulty a (c :: calls) (answer :: rest).

Lemma scanAll_readable rows :
  Forall (λ x, is_ok (scanRegistration x) = true) rows →
  scanAll rows = Ok (RegistrationStore.Registry.published <$> (entryOf <$> rows)).
Proof.
  induction 1 as [|x rows Hx _ IH]; [done|]. cbn [scanAll]. rewrite IH, !fmap_cons.
  destruct (scanRegistration x) as [r|] eqn:Hr; [|done]. by rewrite (entryOf_scanned _ _ Hr).
Qed.

#[local] Instance identifier_weak : StrictWeak (λ x y : string * row, text_lt x.1 y.1).
Proof. split; intros *; [apply less_irrefl|apply (less_trans (less:=text_lt))|apply (less_negtrans (less:=text_lt))]. Qed.

(** The rows in the order of the statement are the entries in order. *)
Lemma List_answered s : readable (tables s) → outcomes (sent s) = Answered →
  answers (registryOf (tables s)) ListAll (registryOf (tables s)) (Listed (List L s)).
Proof.
  intros Hs Hout. unfold List, onPool, execute. cbn [forallb others alone outcomeOf]. rewrite Hout. cbn [snd].
  set (rows := stable_sort (λ x y : string * row, text_lt x.1 y.1) (map_to_list (tables s))).
  destruct (stable_sort_strict (λ x y : string * row, text_lt x.1 y.1) (map_to_list (tables s))) as [Hsort Hperm].
  { apply NoDup_map_to_list. }
  { intros [k x] [k' x'] Hx%elem_of_map_to_list Hy%elem_of_map_to_list Hxy Hyx. cbn in *.
    pose proof (text_lt_tie _ _ Hxy Hyx) as ->. by simplify_eq. }
  fold rows in Hsort, Hperm. rewrite scanAll_readable; cycle 1.
  { apply Forall_forall. intros x ([k y] & -> & Hin)%list_elem_of_fmap. rewrite Hperm in Hin.
    apply elem_of_map_to_list in Hin. by apply (Hs k). }
  replace (entryOf <$> rows.*2) with ((prod_map id entryOf <$> rows).*2) by (by rewrite <-!list_fmap_compose).
  apply answers_list.
  - unfold registryOf. by rewrite Hperm, map_to_list_fmap.
  - clear Hperm. induction Hsort as [|x l Hl IH Hx]; cbn; constructor; [done|]. by apply Forall_fmap.
Qed.

Definition callAdmissible (c : call) : Prop := match c with Operation o => admissible o | ListAll => True end.
Definition callStorable (c : call) : Prop := match c with Operation o => storable o | ListAll => True end.

Lemma served_replies faulty a a' o out calls rest :
  served a (stampedOp o) a' out → (broken out → faulty) → replies faulty a' calls rest →
  replies faulty a (Operation o :: calls) (Output out :: rest).
Proof.
  intros Hserved Hf Hrest. inversion Hserved as [|out' Hb|out' Hb]; subst.
  - eapply replies_answered; [constructor|done].
  - eapply replies_failed; [by apply Hf|done|by left|done].
  - eapply replies_failed; [by apply Hf|done|right; eexists; constructor|done].
Qed.

Lemma run_replies (faulty : Prop) s calls :
  (∀ s o, Operation o ∈ calls → readable (tables s) → broken (exec s o).2 → faulty) →
  ((∀ i, outcomes i = Answered) ∨ faulty) →
  Forall callAdmissible calls → readable (tables s) → replies faulty (registryOf (tables s)) calls (run s calls).
Proof.
  revert s. induction calls as [|c calls IH]; intros s Hbroken Hline Hcalls Hs; cbn [run]; [constructor|].
  apply Forall_cons in Hcalls as [Hc Hcalls].
  assert (∀ s, readable (tables s) → replies faulty (registryOf (tables s)) calls (run s calls)) as Hrest.
  { intros s' Hs'. apply IH; try done. intros s'' o Ho. apply Hbroken. by right. }
  destruct c as [o|]; cbn [perform].
  - pose proof (exec_served s o Hc Hs) as [Hs' Hserved]. specialize (Hbroken s o ltac:(by left) Hs).
    destruct (exec s o) as [s' out]. eapply served_replies; [done|done|by apply Hrest].
  - specialize (Hrest (mkSession (tables s) (S (sent s))) Hs). cbn [tables] in Hrest.
    destruct (outcomes (sent s)) eqn:Hout; [by eapply replies_answered; [apply List_answered|]|..];
      (destruct Hline as [Hans|Hf]; [by rewrite Hans in Hout|]); (eapply replies_failed; [done| |by left|done]);
      cbn; unfold List, onPool, execute; cbn [outcomeOf alone]; by rewrite Hout.
Qed.

(** C2: the production store refines the same registry.  On a new database,
    whatever becomes of each statement (answered, refused, or executed with
    its answer lost, the commit included), every sequence of calls returns
    what the registry of owned entries returns for the registrations with
    their times cut to the microsecond, which is what the column keeps, or
    fails: an operation then reports a failure of the database and was
    performed as a whole or not at all, and [List] shows nothing.  [List]
    shows every entry once, in the order of the identifiers.  When every
    statement is answered, and the database can hold what it is given,
    nothing fails.  The clock has nanoseconds; identifiers of registrations
    and the secrets of [Authenticate] and [Delete] are not blank, and the
    names in the two maps are UTF-8. *)
Theorem postgres_refines_registry calls :
  Forall callAdmissible calls →
  replies True ∅ calls (run (mkSession ∅ 0) calls) ∧
  ((∀ i, outcomes i = Answered) → Forall callStorable calls →
   replies False ∅ calls (run (mkSession ∅ 0) calls)).
Proof.
  intros Hcalls. assert (∅ = registryOf ∅) as -> by (unfold registryOf; by rewrite fmap_empty).
  split; [|intros Hans Hst]; apply (run_replies _ (mkSession ∅ 0)); try done; [by right| |by left].
  intros s o Ho Hs. apply exec_available; [done| |done]. rewrite Forall_forall in Hst. apply (Hst _ Ho).
Qed.

(** ** The interface *)

#[export, refine] Instance postgres_registrations : RegistrationRepository (session table) := {|
  Repositories.Upsert s r := Upsert L r s;
  Repositories.List s := List L s;
  Repositories.Get s id := (Get L id s).2;
  Repositories.Authenticate s id secret := (Authenticate L id secret s).2;
  Repositories.Delete s id secret := Delete L id secret s;
  Repositories.DeleteForAccount s userID ids := DeleteForAccount L userID ids s;
  Repositories.stored s := pgStored (tables s)
|}.
Proof.
  - intros s s' r answer Hup. apply (runs_pair _ _ _ _ _ (Upsert_runs r s)) in Hup.
    destruct Hup as [|answer' [m ->]|x r1 answer' _ _ _ Hx _ _ Hk _ _]; [by left..|right].
    exists (publicRegistration r1). split; [done|]. unfold pgStored.
    erewrite omap_insert_Some; [done|]. unfold shown. by rewrite Hx.
  - intros s id secret. pose proof (Delete_runs id secret s) as Hd. unfold runs in Hd.
    destruct (Delete L id secret s) as [s' answer]. cbn [fst].
    destruct Hd as [| |]; [done..|]. apply map_omap_mono, delete_subseteq.
  - intros s userID ids. pose proof (DeleteForAccount_runs userID ids s) as Hd. unfold runs in Hd.
    destruct (DeleteForAccount L userID ids s) as [s' answer]. cbn [fst].
    destruct Hd as [[-> _]|[-> _]]; [done|]. apply map_omap_mono, map_filter_subseteq.
  - intros s s' userID ids removed id r Hd Hu Hr Huser.
    apply (runs_pair _ _ _ _ _ (DeleteForAccount_runs userID ids s)) in Hd.
    destruct Hd as [[_ [m Hm]]|[-> [Ha|[m Hm]]]]; [done| |done]. injection Ha as ->.
    apply pgStored_Some in Hr as (x & r0 & Hx & Hscan & ->).
    assert (ofAccount (TrimSpace userID) (compactStrings ids) id x = true) as Hsel.
    { rewrite ofAccount_selects. apply RegistrationStore.account_selects_true. right. split; [done|].
      rewrite <-Huser, (scan_columns _ _ Hscan). done. }
    split.
    + unfold pgStored, accountKept. rewrite lookup_omap, map_lookup_filter, Hx. cbn. by rewrite Hsel.
    + rewrite sortSlice_perm. unfold accountRemoved. apply list_elem_of_fmap. exists (id, x). split; [done|].
      apply elem_of_filter_bool. split; [by apply elem_of_rangeMap|done].
  - intros s id r Hg. pose proof (Get_runs id s) as Hr. unfold runs in Hr. destruct (Get L id s) as [s' answer].
    cbn [snd] in Hg. subst answer. destruct Hr as [_ [[m ?]|[[? _]|(x & r0 & Hx & Hs & Ha)]]]; [done..|].
    apply pgStored_Some. exists x, r0. by simplify_eq.
  - intros s id secret r Hg. pose proof (Authenticate_runs id secret s) as Hr. unfold runs in Hr.
    destruct (Authenticate L id secret s) as [s' answer]. cbn [snd] in Hg. subst answer.
    destruct Hr as [_ [[m ?]|[[? _]|(x & r0 & Hx & Hs & Ha)]]]; [done..|].
    apply pgStored_Some. exists x, r0. case_bool_decide; by simplify_eq.
  - intros s r. apply List_shown.
Defined.
End Operations.
End Rows.

(** ** An example *)

(** An encoder and decoder of the two maps. *)
#[refine] Definition bits_json : RegistrationJSON (H:=Some) := {|
  MarshalRules := writeValue;
  UnmarshalRules j := if j == "{}" then Ok ∅ else readValue j;
  MarshalMuted := writeValue;
  UnmarshalMuted j := if j == "{}" then Ok ∅ else readValue j
|}.
Proof.
  - intros m j [= <-]. split; [apply writeValue_nonempty|]. exists m.
    rewrite bool_decide_false by apply writeValue_not_braces. split_and!; [apply readValue_writeValue|done..].
  - intros m j [= <-]. split; [apply writeValue_nonempty|]. exists m.
    rewrite bool_decide_false by apply writeValue_not_braces. split; [apply readValue_writeValue|done].
  - done.
Defined.

Definition example_calls : list call :=
  let r := RegistrationStore.example_registration <| R.UpdatedAt := 1234567 |> in
  [Operation (RegistrationStore.OpUpsert r);
   Operation (RegistrationStore.OpUpsert (r <| R.DeviceSecret := "other" |>));
   Operation (RegistrationStore.OpAuthenticate "device-1" "s3cret"); ListAll;
   Operation (RegistrationStore.OpDeleteForAccount "42" [])].

(** The commit of the first upsert is executed and its answer lost; the next
    device is refused all the same. *)
Definition example_outcomes (i : nat) : outcome := if Nat.eqb i 3 then Lost (ErrMsg "EOF") else Answered.
Definition example_run : list reply :=
  run (rt:=reference_runtime) (sha:=toy_sha256) (json:=bits_json) (collation:=bytewise) example_outcomes (mkSession ∅ 0) example_calls.

Lemma postgres_refines_registry_witness :
  replies (sha:=toy_sha256) (collation:=bytewise) True ∅ example_calls example_run ∧
  example_run !! 1%nat = Some (Output (RegistrationStore.OutUnit (Err ErrDeviceSecretMismatch))) ∧
  match example_run !! 3%nat with Some (Listed [r]) => R.UpdatedAt r = 1234000 | _ => False end ∧
  example_run !! 4%nat = Some (Output (RegistrationStore.OutRemoved (Ok ["device-1"]))).
Proof.
  split; [|by vm_compute].
  apply (postgres_refines_registry (rt:=reference_runtime) (sha:=toy_sha256) (json:=bits_json) (collation:=bytewise)
           example_outcomes example_calls).
  unfold example_calls. rewrite !Forall_cons, Forall_nil. split_and!; try done; (split_and!; [by vm_compute|]);
    split; [by intros c l|by intros c []|by intros c l|by intros c []].
Defined.
End PgRegistrationProofs.
