(* ===== verification/Server.v ===== *)
(** * The server: [internal/application/server.go]

    The state the HTTP handlers and the background workers share, and the
    handlers of the registrations.  The registration store is any
    implementation of its interface; the other stores are the in-memory
    ones.  What comes from outside (clock, random source, Twitch, push
    transports, JSON decoding) is the record [World]; a
    function that changes over time takes the number of readings made so
    far, [ticks], so that two readings may differ. *)

From S2P Require Import Prelude GoStrings NetIP Config Credentials Domain RegistrationStore SettingsSync AuditStore.
From S2P Require Import RateLimit DeliveryStore AuthStore Subscriptions PushSocket RegistrationInput OAuth Repositories.

Module Server.
Export Config.
Import RegistrationInput RateLimit.
Module R := Registration.
Module A := AuditRecord.

(** ** Configuration, environment and state *)

Record httpRequest := mkRequest {
  Method : string;
  Path : string;
  PathValue : string → string;
  QueryParam : string → string;
  Header : string → string;
  RemoteAddr : string;
  Body : string
}.

(** The requests of the mobile login ([auth_handlers.go]). *)
Record mobileAuthStartRequest := mkAuthStart {
  StartInstallationID : string;
  StartDeviceSecret : string;
  StartCallbackURI : string
}.
Record mobileAuthCompleteRequest := mkAuthComplete {
  CompleteInstallationID : string;
  CompleteDeviceSecret : string;
  CompleteCode : string;
  CompleteState : string
}.

Record World := mkWorld {
  cfg : Config;
  clock : nat → time;
  random : nat → rand_read;
  (** Twitch: its answers, how they decode, and how many pages of a listing
      can be read before the deadline *)
  twitch : nat → Subscriptions.request → result Subscriptions.reply;
  decodeToken : string → result OAuth.twitchTokenResponse;
  decodeValidation : string → result OAuth.twitchValidationResponse;
  decodeModerated : string → result OAuth.twitchModeratedChannelsResponse;
  pages : nat;
  (** [sender.Send]; [None] when no sender is configured *)
  sender : option (nat → R.t → Notification.t → option error);
  (** [sendJSON] on a push connection *)
  sendJSON : nat → nat → option error;
  (** [validatePublicHTTPSURL], [decodeJSON] *)
  checkURL : string → option error;
  decodeRegistration : string → result R.t;
  decodeNotification : string → result Notification.t;
  decodeAuthStart : string → result mobileAuthStartRequest;
  decodeAuthComplete : string → result mobileAuthCompleteRequest;
  (** [url.Parse] *)
  parseURL : string → option NetURL.URL;
  (** reading a request's body within its limit *)
  readBody : httpRequest → result string;
  (** [json.Unmarshal] of a webhook's body and of a socket message *)
  decodeEnvelope : string → option EventSubEnvelope.t;
  decodeMessage : list Z → option PushSocket.socketClientMessage;
  (** [time.Parse(time.RFC3339Nano, _)] and HMAC-SHA256 *)
  parseTime : string → option time;
  hmac : string → string → string;
  (** the cipher of the authentication store *)
  aead : option AEAD
}.
#[global] Instance eta_World : Eta World := λ W,
  mkWorld (cfg W) (clock W) (random W) (twitch W) (decodeToken W) (decodeValidation W) (decodeModerated W) (pages W)
    (sender W) (sendJSON W) (checkURL W) (decodeRegistration W) (decodeNotification W) (decodeAuthStart W)
    (decodeAuthComplete W) (parseURL W) (readBody W) (decodeEnvelope W) (decodeMessage W) (parseTime W) (hmac W)
    (aead W).

Record queuedEventSub := mkQueued { MessageID : string; Envelope : EventSubEnvelope.t }.

(** The mutable part of [Server].  [reconcileRequested] is the one-place
    channel [eventSubReconcile]; [sent] lists the transport calls made, and is
    written and never read. *)
Record server {RS : Type} := mkServer {
  store : RS;
  authStore : AuthStore.t;
  deliveries : DeliveryStore.t;
  audit : AuditStore.t;
  settingsSync : SettingsSync.t;
  hub : PushSocket.PushHub;
  rateLimiter : RateLimit.rateLimiter;
  moderatedCache : gmap string OAuth.moderatedChannelCacheEntry;
  eventQueue : list queuedEventSub;
  eventInFlight : gset string;
  reconcileRequested : bool;
  ticks : nat;
  sent : list (string * Notification.t)
}.
Arguments server : clear implicits.
Arguments mkServer {RS}.
#[global] Instance eta_server {RS} : Eta (server RS) := λ s,
  mkServer (store s) (authStore s) (deliveries s) (audit s) (settingsSync s) (hub s) (rateLimiter s)
    (moderatedCache s) (eventQueue s)
    (eventInFlight s) (reconcileRequested s) (ticks s) (sent s).

(** [New], with the configuration and an empty registration store given. *)
Definition New {RS} (config : Config) (registrations : RS) : server RS :=
  mkServer registrations AuthStore.empty DeliveryStore.newMemoryDeliveryStore
    AuditStore.newMemoryAuditStore SettingsSync.newMemorySettingsSyncStore PushSocket.NewPushHub
    (newRateLimiter (rateLimitMaxKeys config) (rateLimitIdleTTL config)) ∅ [] ∅ false 0 [].

(** ** Responses *)

(** What a device is told of its Twitch authorization. *)
Record mobileTokenLease := mkLease {
  AccessToken : string;
  ServerTime : time;
  LeaseClientID : string;
  LeaseUserID : string;
  Login : string;
  Scopes : list string;
  LeaseExpiresAt : time;
  TwitchExpiresAt : time;
  TwitchValidatedAt : time;
  SessionExpiresAt : time
}.

Inductive payload :=
| NoContent
| JError (message : string)
| JLimited (message : string) (retryAfter limit : Z)
| JStatus (status : string)
| RawText (text : string)
| JSnapshot (snapshot : SettingsSyncSnapshot.t)
| JConflict (message : string) (snapshot : SettingsSyncSnapshot.t)
| JHistory (entries : list (Z * time * string * string * string))
| JCounts (counts : list (string * Z))
| JSubscriptions (data : list Subscriptions.Sub.t)
| JAuthStart (authorizationURL state : string) (serverTime expiresAt : time)
| JAuthComplete (sessionToken : string) (sessionExpiresAt : time) (lease : mobileTokenLease)
| JLease (lease : mobileTokenLease)
| Redirect (location : string)
| JVAPID (publicKey : string)
| JInbox (data : list EventSubInboxRecord.t)
| JDeliveries (data : list DeliveryRecord.t)
| JAudit (data : list A.t)
(** the page that opens the app at [callbackURI] with the query parameters [set] *)
| AppReturn (callbackURI : string) (set : list (string * string)) (success : bool).
Record response := mkResponse { Status : Z; Payload : payload }.
Definition writeError (status : Z) (message : string) : response := mkResponse status (JError message).

(** [secureEqual] of the application. *)
Definition secureEqual (left right : string) : bool :=
  if negb (len left =? len right) || (len left =? 0) then false else left == right.

Definition bearerToken (r : httpRequest) : string :=
  let value := TrimSpace (Header r "Authorization") in
  if negb (HasPrefix value "Bearer ") then "" else TrimSpace (TrimPrefix value "Bearer ").

(** [hex.EncodeToString]. *)
Definition hexChar (n : Z) : ascii := ascii_of_N (Z.to_N (if n <? 10 then 48 + n else 87 + n)).
Fixpoint hexEncode (s : string) : string :=
  match s with
  | "" => ""
  | String c s =>
      String (hexChar (Base64.byteZ c / 16)) (String (hexChar (Base64.byteZ c mod 16)) (hexEncode s))
  end.

Section Server.
Context {RS : Type} `{!RegistrationRepository RS}.
Context {rt : GoRuntime} {sha : Sha256} {uni : Unicode} (W : World).
Implicit Types (s : server RS).

(** ** Reading the environment *)

Definition tick s : server RS := s <| ticks := S (ticks s) |>.
Definition Now s : server RS * time := (tick s, clock W (ticks s)).

Definition auditRecord s (record : A.t) : server RS :=
  let '(a, _) := AuditStore.Append (random W (ticks s)) (clock W (ticks s)) (audit s) record in
  tick (s <| audit := a |>).

Definition authorizeAdmin (r : httpRequest) : option response :=
  if (AdminToken (cfg W) == "") || negb (secureEqual (bearerToken r) (AdminToken (cfg W)))
  then Some (writeError 401 "unauthorized") else None.

(** The request to the subscription manager's worker. *)
Definition requestEventSubReconcile s : server RS :=
  if negb (Subscriptions.enabled (cfg W)) then s else s <| reconcileRequested := true |>.

(** ** Rate limits *)

Definition take s (policy : rateLimitPolicy) (key : string) : server RS * rateLimitDecision :=
  let '(limiter, decision) := RateLimit.take (clock W (ticks s)) (rateLimiter s) policy key in
  (tick (s <| rateLimiter := limiter |>), decision).

Definition auditRateLimitBlock s (decision : rateLimitDecision)
    (policyName method path installationID userID : string) : server RS :=
  if negb (Audit decision) then s else
  let '(s, auditDecision) := take s auditPolicy "global" in
  if negb (Allowed auditDecision) then s else
  auditRecord s (A.zero <| A.Action := "security.rate_limit" |> <| A.Status := "blocked" |>
    <| A.InstallationID := installationID |> <| A.UserID := userID |>
    <| A.Detail := "policy=" +:+ policyName +:+ " method=" +:+ method +:+ " path=" +:+ path |>).

(** [None] when the request may go on. *)
Definition enforceRateLimit s (r : httpRequest) (policy : rateLimitPolicy) (key installationID userID : string)
    : server RS * option response :=
  let '(s, decision) := take s policy key in
  if Allowed decision then (s, None) else
  let retrySeconds := ceilInt (Seconds (RetryAfter decision)) in
  let retrySeconds := if retrySeconds <? 1 then 1 else retrySeconds in
  let s := auditRateLimitBlock s decision (name policy) (Method r) (Path r) installationID userID in
  (s, Some (mkResponse 429 (JLimited "rate limit exceeded" retrySeconds (Limit decision)))).

(** The separator is a zero byte. *)
Definition installationRateKey (installationID deviceSecret : string) : string :=
  hexEncode (sha256 (TrimSpace installationID +:+ String "000"%char (TrimSpace deviceSecret))).

Definition enforceInstallationRateLimit s (r : httpRequest) (installationID deviceSecret : string)
    : server RS * option response :=
  if RateLimitDisabled (cfg W) then (s, None) else
  match validateMobileDevice installationID deviceSecret with
  | Some _ => (s, None)
  | None =>
      enforceRateLimit s r (installationPolicy (cfg W)) ("installation:" +:+ installationRateKey installationID deviceSecret)
        (TrimSpace installationID) ""
  end.

(** The installation a request names: by its headers, or by its path. *)
Definition requestInstallationCredentials (r : httpRequest) : string * string :=
  let installationID := TrimSpace (Header r "X-Installation-ID") in
  let deviceSecret := TrimSpace (Header r "X-Device-Secret") in
  let prefix := "/v1/push/registrations/" in
  if (installationID == "") && HasPrefix (Path r) prefix
  then (TrimSpace (default "" (head (Split "/" (TrimPrefix (Path r) prefix)))), deviceSecret)
  else (installationID, deviceSecret).

Definition clientIP (r : httpRequest) : string :=
  requestClientIP (RemoteAddr r) (Header r "X-Forwarded-For") (RateLimitTrustedProxyCIDRs (cfg W)).

(** The policy a request is limited by. *)
Definition policyFor (path : string) : rateLimitPolicy :=
  if HasPrefix path "/v1/auth/" then authPolicy (cfg W) else
  if HasPrefix path "/v1/admin/" then adminPolicy (cfg W) else generalPolicy (cfg W).

(** The checks of [rateLimitRequests]: [None] when the request goes on to the
    routes. *)
Definition admission s (r : httpRequest) : server RS * option response :=
  if RateLimitDisabled (cfg W) || rateLimitExemptPath (Path r) then (s, None) else
  let '(s, refused) := enforceRateLimit s r (policyFor (Path r)) ("ip:" +:+ clientIP r) "" "" in
  match refused with
  | Some response => (s, Some response)
  | None =>
      let '(installationID, deviceSecret) := requestInstallationCredentials r in
      if (installationID != "") && (deviceSecret != "")
      then enforceInstallationRateLimit s r installationID deviceSecret else (s, None)
  end.

(** ** The OAuth client *)

Definition oauthEnv : OAuth.Env :=
  OAuth.mkEnv (cfg W) (clock W) (random W) (aead W) (twitch W) (decodeToken W) (decodeValidation W) (decodeModerated W).

(** A call of the client: it works on the authentication store and its
    cache, and reads the environment from here on. *)
Definition oauthCall {B} s (call : M OAuth.state B) : server RS * result B :=
  let '(o, answer) := call (OAuth.mkState (authStore s) (moderatedCache s) (ticks s)) in
  (s <| authStore := OAuth.store o |> <| moderatedCache := OAuth.moderatedCache o |> <| ticks := OAuth.readings o |>,
   answer).

(** ** Registrations *)

(** The identity and the moderated channels of a registration are taken from
    the device's Twitch authorization, never from the request. *)
Definition verifyModeration s (credential : AuthCredential.t) (registration : R.t) : server RS * R.t :=
  let requestedModeratorIDs := R.ModeratorChannelIDs registration in
  let '(s, answer) := oauthCall s (OAuth.moderatedChannelIDs oauthEnv (pages W) (AuthCredential.ID credential)) in
  match answer with
  | Err verifyErr =>
      let registration := registration <| R.ModeratorChannelIDs := [] |> in
      let registration :=
        match Get (store s) (R.InstallationID registration) with
        | Ok existing =>
            if R.UserID existing == AuthCredential.UserID credential
            then registration <| R.ModeratorChannelIDs :=
                   intersectStrings requestedModeratorIDs (R.ModeratorChannelIDs existing) |>
            else registration
        | Err _ => registration
        end in
      let s := auditRecord s (A.zero <| A.Action := "push.registration.moderation_verify" |>
        <| A.Status := "failed_safe" |> <| A.InstallationID := R.InstallationID registration |>
        <| A.UserID := AuthCredential.UserID credential |> <| A.Detail := Error verifyErr |>) in
      (s, registration)
  | Ok verifiedModeratorIDs =>
      (s, registration <| R.ModeratorChannelIDs :=
            intersectStrings requestedModeratorIDs verifiedModeratorIDs |>)
  end.

(** Without OAuth a device registers its transport and nothing else. *)
Definition transportOnly (registration : R.t) : R.t :=
  registration <| R.UserID := "" |> <| R.UserLogin := "" |> <| R.ChannelIDs := [] |>
    <| R.ModeratorChannelIDs := [] |> <| R.NotificationRules := [] |>
    <| R.NotificationChannelRules := ∅ |> <| R.NotificationChannelMutedUntilEpochMillis := ∅ |>
    <| R.HighlightPhrases := [] |> <| R.SelectedUserLogins := [] |>.

Definition bindRegistration s (registration : R.t) : server RS * (response + R.t) :=
  if OAuth.AuthEnabled (cfg W) then
      let '(s, now) := Now s in
      match AuthStore.CredentialForInstallation (aead W) now (authStore s)
              (R.InstallationID registration) (R.DeviceSecret registration) with
      | Err err =>
          let s := auditRecord s (A.zero <| A.Action := "push.registration.upsert" |>
            <| A.Status := "unauthorized" |> <| A.InstallationID := R.InstallationID registration |>
            <| A.Detail := Error err |>) in
          (s, inl (writeError 401 "active Twitch authorization is required"))
      | Ok credential =>
          let registration := registration <| R.UserID := AuthCredential.UserID credential |> in
          let registration := registration <| R.UserLogin := AuthCredential.Login credential |> in
          let '(s, registration) := verifyModeration s credential registration in
          (s, inr registration)
      end
  else (s, inr (transportOnly registration)).

Definition saveRegistration s (registration : R.t) : server RS * response :=
  let '(s, now) := Now s in
  let registration := registration <| R.UpdatedAt := now |> in
  let '(stored, err) := Upsert (store s) registration in
  let s := s <| store := stored |> in
  match err with
  | Err ErrDeviceSecretMismatch => (s, writeError 403 "device secret mismatch")
  | Err _ => (s, writeError 500 "registration was not saved")
  | Ok _ =>
      let s := auditRecord s (A.zero <| A.Action := "push.registration.upsert" |> <| A.Status := "ok" |>
        <| A.InstallationID := R.InstallationID registration |> <| A.UserID := R.UserID registration |>
        <| A.Detail := R.Provider registration |>) in
      (requestEventSubReconcile s, mkResponse 200 (JStatus "registered"))
  end.

Definition upsertRegistration s (r : httpRequest) : server RS * response :=
  let installationID := PathValue r "installationID" in
  match decodeRegistration W (Body r) with
  | Err err => (s, writeError 400 (Error err))
  | Ok registration =>
      if R.InstallationID registration != installationID
      then (s, writeError 400 "installationId does not match URL") else
      let registration := normalizeRegistration registration in
      match validateRegistration (checkURL W) registration with
      | Some err => (s, writeError 400 (Error err))
      | None =>
          let '(s, refused) := enforceInstallationRateLimit s r (R.InstallationID registration)
                                 (R.DeviceSecret registration) in
          match refused with
          | Some response => (s, response)
          | None =>
              let registration := normalizeFields registration in
              let '(s, bound) := bindRegistration s registration in
              match bound with
              | inl response => (s, response)
              | inr registration => saveRegistration s registration
              end
          end
      end
  end.

Definition deleteRegistration s (r : httpRequest) : server RS * response :=
  let '(stored, err) := Delete (store s) (PathValue r "installationID") (Header r "X-Device-Secret") in
  let s := s <| store := stored |> in
  match err with
  | Err ErrRegistrationNotFound => (s, writeError 404 "registration not found")
  | Err ErrDeviceSecretMismatch => (s, writeError 403 "device secret mismatch")
  | Err _ => (s, writeError 500 "registration was not deleted")
  | Ok _ =>
      let installationID := PathValue r "installationID" in
      let s := s <| hub := PushSocket.Close (hub s) installationID |> in
      let s := auditRecord s (A.zero <| A.Action := "push.registration.delete" |> <| A.Status := "ok" |>
        <| A.InstallationID := installationID |>) in
      (requestEventSubReconcile s, mkResponse 204 NoContent)
  end.

Definition authorizeDevice s (r : httpRequest) : response + R.t :=
  match Authenticate (store s) (PathValue r "installationID") (Header r "X-Device-Secret") with
  | Err ErrRegistrationNotFound => inl (writeError 404 "registration not found")
  | Err ErrDeviceSecretMismatch => inl (writeError 403 "device secret mismatch")
  | Err _ => inl (writeError 500 "registration lookup failed")
  | Ok registration => inr registration
  end.

End Server.
End Server.
