(* ===== verification/ServerProofs.v ===== *)
(** * The server: registrations

    Lemmas proved against the interface of the registration store: whatever
    store implements it, a registration saved by the handler carries only
    moderator rights Twitch reported for its user, given that the answers of
    the OAuth client are.  [ModerationProofs] discharges that condition and
    states the theorems over the executions of the server. *)

From S2P Require Import Prelude GoStrings NetIP Config Credentials Domain RegistrationStore SettingsSync AuditStore.
From S2P Require Import RateLimit DeliveryStore AuthStore Subscriptions PushSocket RegistrationInput OAuth Repositories Server.

Module ServerProofs.
Import RegistrationInput RateLimit Server.

Section Registrations.
Context {RS : Type} `{!RegistrationRepository RS}.
Context {rt : GoRuntime} {sha : Sha256} {uni : Unicode}.
Implicit Types (s : server RS) (W : World).

(** ** Frames: what the helpers leave alone *)

Definition same_registry s s' : Prop :=
  store s' = store s ∧ authStore s' = authStore s ∧ moderatedCache s' = moderatedCache s ∧ (ticks s ≤ ticks s')%nat.

#[local] Instance same_registry_preorder : PreOrder same_registry.
Proof.
  split; [by intros s|]. intros s1 s2 s3 (? & ? & ? & ?) (? & ? & ? & ?). split_and!; congruence || lia.
Qed.

Lemma tick_registry s : same_registry s (tick s).
Proof. split_and!; cbn; done || lia. Qed.

Lemma auditRecord_registry W s record : same_registry s (auditRecord W s record).
Proof. unfold auditRecord. destruct (AuditStore.Append _ _ _ _). split_and!; cbn; done || lia. Qed.

Lemma reconcile_registry W s : same_registry s (requestEventSubReconcile W s).
Proof. unfold requestEventSubReconcile. by destruct (negb _). Qed.

Lemma take_registry W s policy key : same_registry s (take W s policy key).1.
Proof. unfold take. destruct (RateLimit.take _ _ _ _). split_and!; cbn; done || lia. Qed.

Lemma auditRateLimitBlock_registry W s d p m q i u : same_registry s (auditRateLimitBlock W s d p m q i u).
Proof.
  unfold auditRateLimitBlock. destruct (negb (Audit d)); [done|].
  pose proof (take_registry W s auditPolicy "global") as Ht. destruct (take W s _ _) as [s1 d1].
  destruct (negb (Allowed _)); [done|]. etrans; [exact Ht|apply auditRecord_registry].
Qed.

Lemma rateLimit_registry W s r id secret :
  same_registry s (enforceInstallationRateLimit W s r id secret).1.
Proof.
  unfold enforceInstallationRateLimit. destruct (RateLimitDisabled _); [done|].
  destruct (validateMobileDevice _ _); [done|].
  unfold enforceRateLimit. set (key := _ +:+ _). pose proof (take_registry W s (installationPolicy (cfg W)) key) as Ht.
  destruct (take W s _ _) as [s1 d1]. destruct (Allowed _); [done|].
  cbn [fst]. etrans; [exact Ht|apply auditRateLimitBlock_registry].
Qed.

(** ** Sound registrations *)

(** Twitch reported that the user moderates the channel: at a reading before
    [t] it answered a request for the user's moderated channels with success
    and a page that names the channel. *)
Definition reported W (t : nat) (user channel : string) : Prop :=
  ∃ n cursor token reply page, (n < t)%nat ∧
    twitch W n (Subscriptions.mkRequest "GET" (TrimSuffix (TwitchHelixBaseURL (cfg W)) "/" +:+ "/moderation/channels")
      ([("user_id", user); ("first", "100")] ++ (if decide (cursor = "") then [] else [("after", cursor)]))
      ("Bearer " +:+ token) (TwitchClientID (cfg W)) Subscriptions.NoBody) = Ok reply ∧
    Subscriptions.ReadError reply = None ∧ 200 ≤ Subscriptions.StatusCode reply ≤ 299 ∧
    decodeModerated W (Subscriptions.limited (2 * 2 ^ 20) (Subscriptions.Payload reply)) = Ok page ∧
    channel ∈ TrimSpace <$> OAuth.Broadcasters page.

Lemma reported_later W t t' user channel : (t ≤ t')%nat → reported W t user channel → reported W t' user channel.
Proof. intros Ht (n & cursor & token & reply & page & Hn & H). exists n, cursor, token, reply, page. split; [lia|done]. Qed.

(** [ids] lists [channel], ignoring case. *)
Definition lists (ids : list string) (channel : string) : Prop :=
  ∃ id, id ∈ ids ∧ ToLower id = ToLower channel.

(** What a stored registration satisfies: its channels are a bounded list
    without duplicates, its per-channel settings are about those channels,
    and each channel it claims to moderate is one of them and was reported
    by Twitch for the registration's user. *)
Record sound W (t : nat) (r : R.t) : Prop := {
  sound_channels : limited 100 64 (R.ChannelIDs r);
  sound_rules : ∀ c, is_Some (R.NotificationChannelRules r !! c) → c ∈ R.ChannelIDs r;
  sound_muted : ∀ c, is_Some (R.NotificationChannelMutedUntilEpochMillis r !! c) → c ∈ R.ChannelIDs r;
  sound_listed : ∀ c, c ∈ R.ModeratorChannelIDs r → lists (R.ChannelIDs r) c;
  sound_verified : ∀ c, c ∈ R.ModeratorChannelIDs r →
    ∃ id, reported W t (R.UserID r) id ∧ ToLower id = ToLower c
}.

Definition registry_sound W s : Prop :=
  ∀ id r, stored (store s) !! id = Some r → sound W (ticks s) r.

Lemma sound_kept W t r r' : kept r r' → sound W t r → sound W t r'.
Proof.
  intros [_ _ Hu Hc Hm Hr Hmu] [H1 H2 H3 H4 H5]. split; rewrite ?Hu, ?Hc, ?Hm; auto.
Qed.

Lemma sound_mono W t t' r : (t ≤ t')%nat → sound W t r → sound W t' r.
Proof.
  intros Ht [? ? ? ? Hv]. split; try done. intros c Hc. destruct (Hv c Hc) as (id & Hid & ?). exists id.
  split; [by eapply reported_later|done].
Qed.

(** Removing registrations, and time passing, keeps them sound. *)
Lemma registry_sound_sub W s s' :
  stored (store s') ⊆ stored (store s) → (ticks s ≤ ticks s')%nat → registry_sound W s → registry_sound W s'.
Proof. intros Hs Ht H id r Hr. eapply sound_mono; [exact Ht|]. eapply H, lookup_weaken; [exact Hr|done]. Qed.

Lemma registry_sound_frame W s s' : same_registry s s' → registry_sound W s → registry_sound W s'.
Proof. intros (Hs & _ & _ & Ht). apply registry_sound_sub; [by rewrite Hs|done]. Qed.

Lemma fields_channels registration : limited 100 64 (R.ChannelIDs (normalizeFields registration)).
Proof. by apply normalizeLimited_limited. Qed.

Lemma fields_listed registration c :
  c ∈ R.ModeratorChannelIDs (normalizeFields registration) → lists (R.ChannelIDs (normalizeFields registration)) c.
Proof. intros Hc. by apply elem_of_intersect in Hc as [_ ?]. Qed.

Lemma fields_rules registration c :
  is_Some (R.NotificationChannelRules (normalizeFields registration) !! c) →
  c ∈ R.ChannelIDs (normalizeFields registration).
Proof.
  intros [rules Hr]. by eapply (normalizeChannelMap_spec _ _ _ (fields_channels registration)) in Hr as [? _].
Qed.

Lemma fields_muted registration c :
  is_Some (R.NotificationChannelMutedUntilEpochMillis (normalizeFields registration) !! c) →
  c ∈ R.ChannelIDs (normalizeFields registration).
Proof.
  intros [rules Hr]. by eapply (normalizeChannelMap_spec _ _ _ (fields_channels registration)) in Hr as [? _].
Qed.

(** The answers of the OAuth client about a credential's moderated channels
    are Twitch's, and the client's calls take time and leave the
    registrations alone. *)
Definition truthful W s (credential : AuthCredential.t) : Prop :=
  let '(s', answer) := oauthCall s (OAuth.moderatedChannelIDs (oauthEnv W) (pages W) (AuthCredential.ID credential)) in
  (ticks s ≤ ticks s')%nat ∧
  ∀ ids, answer = Ok ids → Forall (reported W (ticks s') (AuthCredential.UserID credential)) ids.

(** The registration the handler saves is sound, and the store is as it was. *)
Lemma verifyModeration_sound s W credential registration s' out :
  registry_sound W s → truthful W s credential →
  (∀ t, sound W t (registration <| R.ModeratorChannelIDs := [] |>)) →
  (∀ c, c ∈ R.ModeratorChannelIDs registration → lists (R.ChannelIDs registration) c) →
  R.UserID registration = AuthCredential.UserID credential →
  verifyModeration W s credential registration = (s', out) →
  store s' = store s ∧ (ticks s ≤ ticks s')%nat ∧ sound W (ticks s') out.
Proof.
  intros Hs Htrue Hbase Hlisted Hu. unfold verifyModeration. unfold truthful in Htrue.
  assert (store (oauthCall s (OAuth.moderatedChannelIDs (oauthEnv W) (pages W) (AuthCredential.ID credential))).1 = store s) as Hst
    by (unfold oauthCall; by destruct (OAuth.moderatedChannelIDs _ _ _ _)).
  destruct (oauthCall s _) as [s1 answer]. cbn [fst] in Hst. destruct Htrue as [Ht Hids].
  destruct answer as [ids|e].
  - intros [= <- <-]. split_and!; [exact Hst|exact Ht|]. specialize (Hids ids eq_refl). rewrite Forall_forall in Hids.
    destruct (Hbase (ticks s1)) as [Hc Hr Hm _ _]. split; [exact Hc|exact Hr|exact Hm| |];
      intros c [Hreq (id & Hid & Hlow)]%elem_of_intersect; [by apply Hlisted|].
    exists id. split; [|exact Hlow]. cbn. rewrite Hu. by apply Hids.
  - set (out' := match Get _ _ with Ok _ => _ | Err _ => _ end).
    intros [= <- <-].
    match goal with |- context [auditRecord W s1 ?x] =>
      destruct (auditRecord_registry W s1 x) as (Hst2 & _ & _ & Ht2) end.
    split_and!; [congruence|lia|]. eapply sound_mono; [exact Ht2|]. unfold out'. rewrite Hst.
    destruct (Get (store s) _) as [existing|] eqn:Hget; [|apply Hbase].
    case_bool_decide as Huser; [|apply Hbase].
    destruct (Hbase (ticks s1)) as [Hc Hr Hm _ _]. split; [exact Hc|exact Hr|exact Hm| |];
      intros c [Hreq (e' & He' & Hlow)]%elem_of_intersect; [by apply Hlisted|].
    destruct (sound_verified _ _ _ (Hs _ _ (Get_stored _ _ _ Hget)) e' He') as (id & Hid & Hl).
    exists id. cbn. rewrite Hu, <-Huser. split; [by eapply reported_later|congruence].
Qed.

(** Every credential a device of this state may register with. *)
Definition all_truthful W s : Prop :=
  ∀ s0 now id secret credential, same_registry s s0 →
    AuthStore.CredentialForInstallation (aead W) now (authStore s) id secret = Ok credential → truthful W s0 credential.

Lemma bindRegistration_sound s W registration s' out :
  registry_sound W s → all_truthful W s → bindRegistration W s (normalizeFields registration) = (s', inr out) →
  store s' = store s ∧ (ticks s ≤ ticks s')%nat ∧ sound W (ticks s') out.
Proof.
  intros Hs Htrue. pose proof (fields_channels registration) as Hc. pose proof (fields_rules registration) as Hr.
  pose proof (fields_muted registration) as Hm. pose proof (fields_listed registration) as Hl.
  revert Hc Hr Hm Hl. generalize (normalizeFields registration). intros nf Hc Hr Hm Hl.
  unfold bindRegistration, Now. destruct (OAuth.AuthEnabled (cfg W)); cycle 1.
  { intros [= <- <-]. split_and!; [done..|]. split; cbn.
    - by apply limited_nil.
    - intros c [? Hn]. by rewrite lookup_empty in Hn.
    - intros c [? Hn]. by rewrite lookup_empty in Hn.
    - by intros c ?%elem_of_nil.
    - by intros c ?%elem_of_nil. }
  destruct (AuthStore.CredentialForInstallation _ _ _ _ _) as [credential|] eqn:Hcred; [|done].
  destruct (verifyModeration _ _ _ _) as [s1 out1] eqn:Hv. intros [= <- <-].
  assert (truthful W (tick s) credential) as Ht by (eapply Htrue; [apply tick_registry|exact Hcred]).
  apply verifyModeration_sound in Hv as (? & Hle & ?); [split_and!; [done|cbn in Hle; lia|done]|..].
  - eapply registry_sound_frame; [apply tick_registry|done].
  - done.
  - intros t. split; cbn; [done..| |]; by intros c ?%elem_of_nil.
  - exact Hl.
  - done.
Qed.

Lemma bindRegistration_refused s W registration s' resp :
  bindRegistration W s registration = (s', inl resp) → same_registry s s'.
Proof.
  unfold bindRegistration, Now. destruct (OAuth.AuthEnabled (cfg W)); [|done].
  destruct (AuthStore.CredentialForInstallation _ _ _ _ _); [by destruct (verifyModeration _ _ _ _)|].
  intros [= <- _]. etrans; [apply tick_registry|apply auditRecord_registry].
Qed.

Lemma saveRegistration_sound s W registration :
  registry_sound W s → sound W (ticks s) registration →
  registry_sound W (saveRegistration W s registration).1.
Proof.
  intros Hs Hr. unfold saveRegistration, Now.
  set (r1 := registration <| R.UpdatedAt := _ |>). change (store (tick s)) with (store s).
  destruct (Upsert (store s) r1) as [stored answer] eqn:Hup.
  assert (registry_sound W (tick s <| store := stored |>)) as Hkeep.
  { intros id r Hid. apply (sound_mono W (ticks s)); [cbn; lia|]. revert Hid. cbn.
    apply Upsert_stored in Hup as [[-> _]|(r' & Hk & ->)]; [apply Hs|].
    rewrite lookup_insert. case_decide; [|apply Hs]. intros [= <-].
    eapply sound_kept; [exact Hk|]. destruct Hr as [H1 H2 H3 H4 H5]. by split. }
  destruct answer as [[]|e]; [|by destruct e].
  eapply registry_sound_frame; [etrans; [apply auditRecord_registry|apply reconcile_registry]|]. exact Hkeep.
Qed.

Lemma upsertRegistration_sound s W r :
  registry_sound W s → all_truthful W s → registry_sound W (upsertRegistration W s r).1.
Proof.
  intros Hs Htrue. unfold upsertRegistration. destruct (decodeRegistration W (Body r)) as [registration|]; [|done].
  destruct (negb _); [done|]. destruct (validateRegistration _ _); [done|].
  pose proof (rateLimit_registry W s r (R.InstallationID (normalizeRegistration registration))
    (R.DeviceSecret (normalizeRegistration registration))) as Hrl.
  destruct (enforceInstallationRateLimit _ _ _ _ _) as [s1 [resp|]]; cbn [fst] in Hrl;
    apply (registry_sound_frame W _ _ Hrl) in Hs; [done|].
  assert (all_truthful W s1) as Htrue1.
  { intros s0 now id secret credential Hf. rewrite (proj1 (proj2 Hrl)). apply Htrue. by etrans. }
  destruct (bindRegistration _ _ _) as [s2 [resp|out]] eqn:Hbind.
  - eapply registry_sound_frame; [by eapply bindRegistration_refused|done].
  - apply bindRegistration_sound in Hbind as (Hst & Ht & Hout); [|done..].
    apply saveRegistration_sound; [|done]. eapply registry_sound_sub; [|exact Ht|exact Hs]. by rewrite Hst.
Qed.

Lemma deleteRegistration_sound s W r : registry_sound W s → registry_sound W (deleteRegistration W s r).1.
Proof.
  intros Hs. unfold deleteRegistration.
  destruct (Delete (store s) _ _) as [stored err] eqn:Hd.
  assert (registry_sound W (s <| store := stored |>)) as Hdel.
  { eapply (registry_sound_sub W s); [|reflexivity|exact Hs]. cbn.
    pose proof (Delete_stored (store s) (PathValue r "installationID") (Header r "X-Device-Secret")) as Hsub.
    by rewrite Hd in Hsub. }
  destruct err as [u|e]; [|by destruct e].
  cbn [fst]. eapply registry_sound_frame; [apply reconcile_registry|].
  eapply registry_sound_frame; [apply auditRecord_registry|]. exact Hdel.
Qed.
End Registrations.
(** ** A concrete run *)

Module Example.
#[export] Existing Instance reference_runtime.
#[export] Existing Instance toy_sha256.
#[export] Existing Instance ascii_unicode.

Definition secret : string := "0123456789abcdef0123456789abcdef".

Definition credential : AuthCredential.t :=
  AuthCredential.mk "cred" "client" "42" "alice" ["chat"] "access" "refresh" 2000 1000 1000.
Definition authorized : AuthStore.t :=
  (AuthStore.CreateSession zero_rand 1000
    (AuthStore.PutCredential (Some toy_aead) (λ _, zero_rand) AuthStore.empty credential).1
    "cred" "device" secret Hour).1.

Definition request : Registration.t :=
  Registration.zero <| Registration.InstallationID := "device" |>
    <| Registration.DeviceSecret := secret |> <| Registration.Provider := "embedded_socket" |>
    <| Registration.ChannelIDs := ["10"; "20"] |> <| Registration.ModeratorChannelIDs := ["20"; "10"] |>.

(** Twitch reports that the user moderates channel 10 only. *)
Definition config : Config :=
  Config.zero <| AuthSessionTTL := Hour |> <| RateLimitDisabled := true |> <| AuthEncryptionKey := "key" |>
    <| TwitchClientID := "client" |> <| TwitchClientSecret := "cs" |> <| TwitchRedirectURL := "https://us/cb" |>
    <| PublicBaseURL := "https://us" |>.
Definition world : World :=
  mkWorld config (λ _, 1000) (λ _, zero_rand) (λ _ _, Ok (Subscriptions.mkReply 200 "" None))
    (λ _, Ok (OAuth.mkToken "access2" "refresh2" 3600 [] "bearer"))
    (λ _, Ok (OAuth.mkValidation "client" "42" "alice" [] 3600)) (λ _, Ok (OAuth.mkModerated ["10"] "")) 1
    None (λ _ _, None) (λ _, None) (λ _, Ok request)
    (λ _, Err (ErrMsg "")) (λ _, Err (ErrMsg "")) (λ _, Err (ErrMsg "")) (λ _, None) (λ r, Ok (Body r)) (λ _, None) (λ _, None) (λ _, None) (λ _ _, "")
    (Some toy_aead).
Definition put : httpRequest :=
  mkRequest "PUT" "/v1/push/registrations/device" (λ _, "device") (λ _, "") (λ _, "") "" "".

Definition started : server RegistrationStore.t := New Config.zero RegistrationStore.OpenStore.
Definition signed_in : server RegistrationStore.t := started <| authStore := authorized |>.
Definition registered : server RegistrationStore.t := (upsertRegistration world signed_in put).1.
Definition saved : Registration.t :=
  withoutSecret (request <| Registration.Platform := "android" |> <| Registration.UserID := "42" |>
    <| Registration.UserLogin := "alice" |> <| Registration.ModeratorChannelIDs := ["10"] |>
    <| Registration.UpdatedAt := 1000 |>).
End Example.
End ServerProofs.
