(* ===== verification/Dispatch.v ===== *)
(** * Notification dispatch: [delivery_dispatch.go], [eventsub.go],
      [push_socket.go] and [server.go] of [internal/application]

    From a Twitch webhook to a device: the webhook stores the message in the
    inbox and hands it to a worker, the worker turns it into notifications
    and queues them for the registrations concerned, and a flush sends what
    is queued for one installation over its transport.  The mutexes that
    serialize the flushes of one installation and the updates of one
    channel make the modelled calls atomic. *)

From stdpp Require Import pretty.
From S2P Require Import Prelude GoStrings NetIP Config Credentials Domain RegistrationStore SettingsSync AuditStore.
From S2P Require Import RateLimit DeliveryStore AuthStore EventSub PushSocket RegistrationInput Repositories Server.
#[local] Open Scope Z_scope.
#[local] Open Scope go_scope.

Module Dispatch.
Import RegistrationInput RateLimit Server.
Module N := Notification.
Module D := DeliveryRecord.
Module I := EventSubInboxRecord.
Module E := EventSubEnvelope.
Module Sub := Subscription.

Definition notificationTTL (eventType : string) : duration :=
  if (eventType == "title_change") || (eventType == "game_change") then 30 * Minute else
  if eventType == "stream_online" then 2 * Hour else 24 * Hour.

(** [Duration.Round(time.Second)], in seconds. *)
Definition roundSeconds (d : duration) : Z :=
  let r := Z.rem d Second in
  if d <? 0 then
    if - r * 2 <? Second then (d - r) / Second else (d - r) / Second - 1
  else if r * 2 <? Second then (d - r) / Second else (d - r) / Second + 1.

Section Dispatch.
Context {RS : Type} `{!RegistrationRepository RS}.
Context {rt : GoRuntime} {sha : Sha256} {uni : Unicode} (W : World).
Implicit Types (s : server RS).

(** ** Flushing the queue of one installation *)

Definition auditSend s (registration : R.t) (payload : N.t) (status detail : string) : server RS :=
  auditRecord W s (A.zero <| A.Action := "push.delivery.send" |> <| A.Status := status |>
    <| A.InstallationID := R.InstallationID registration |> <| A.UserID := R.UserID registration |>
    <| A.ChannelID := N.ChannelID payload |> <| A.EventID := N.EventID payload |>
    <| A.Detail := detail |>).

Definition markFailed s (id : string) (err : error) : server RS :=
  let '(s, now) := Now W s in
  s <| deliveries := (DeliveryStore.MarkFailed (deliveries s) id err now).1 |>.

(** What is sent for a record. *)
Definition payloadOf (record : D.t) : N.t :=
  (D.Notification_ record) <| N.EventID := D.EventID record |>.

(** One record over the push socket; [false] ends the flush. *)
Definition flushSocket s (installationID : string) (record : D.t) : server RS * bool :=
  let '(h, err) := PushSocket.Send (hub s) installationID (sendJSON W (ticks s)) in
  let s := tick (s <| hub := h |>) in
  match err with
  | Some ErrRegistrationNotFound => (s, false)
  | Some err => (markFailed s (D.ID record) err, false)
  | None =>
      let s := s <| sent := sent s ++ [(installationID, payloadOf record)] |> in
      let '(s, now) := Now W s in
      (s <| deliveries := (DeliveryStore.MarkSent (deliveries s) (D.ID record) now).1 |>, true)
  end.

(** One record over the configured push sender. *)
Definition flushSender s (installationID : string) (registration : R.t) (record : D.t)
    : server RS * bool :=
  let payload := payloadOf record in
  let err := match sender W with
             | None => Some (ErrMsg "push sender is not configured")
             | Some send => send (ticks s) registration payload
             end in
  let s := tick s in
  match err with
  | Some err =>
      let s := markFailed s (D.ID record) err in
      (auditSend s registration payload "failed" (Error err), false)
  | None =>
      let s := s <| sent := sent s ++ [(installationID, payload)] |> in
      let '(s, sentAt) := Now W s in
      let s := s <| deliveries := (DeliveryStore.MarkSent (deliveries s) (D.ID record) sentAt).1 |> in
      let s := s <| deliveries :=
        (DeliveryStore.Ack (deliveries s) (R.InstallationID registration) (D.EventID record) sentAt).1 |> in
      (auditSend s registration payload "acked" (N.Type_ payload), true)
  end.

Definition flushOne s (installationID : string) (registration : R.t) (record : D.t)
    : server RS * bool :=
  if R.Provider registration == "embedded_socket" then flushSocket s installationID record
  else flushSender s installationID registration record.

Fixpoint flushLoop s (installationID : string) (registration : R.t) (records : list D.t) : server RS :=
  match records with
  | [] => s
  | record :: records =>
      let '(s, continue) := flushOne s installationID registration record in
      if continue then flushLoop s installationID registration records else s
  end.

Definition flushPending s (installationID : string) : server RS :=
  match Get (store s) installationID with
  | Err _ => s
  | Ok registration =>
      let '(s, now) := Now W s in
      flushLoop s installationID registration
        (DeliveryStore.PendingForInstallation (deliveries s) installationID 100 now)
  end.

(** ** Queuing a notification *)

Definition deliverToRegistration s (registration : R.t) (notification : N.t)
    : server RS * option error :=
  let '(s, now) := Now W s in
  let rnd := random W (ticks s) in
  let s := tick s in
  match (if N.EventID notification == "" then
           let? eventID := RandomToken rnd "pe_" 18 in Ok (notification <| N.EventID := eventID |>)
         else Ok notification) with
  | Err err => (s, Some (ErrMsg ("create event id: " +:+ Error err)))
  | Ok notification =>
  let notification := if N.Type_ notification == "" then notification <| N.Type_ := "generic" |>
                      else notification in
  let notification := if N.CreatedAtEpochMillis notification =? 0
                      then notification <| N.CreatedAtEpochMillis := UnixMilli now |> else notification in
  let rnd := random W (ticks s) in
  let s := tick s in
  match RandomToken rnd "pd_" 18 with
  | Err err => (s, Some (ErrMsg ("create delivery id: " +:+ Error err)))
  | Ok deliveryID =>
  let '(s, enqueuedAt) := Now W s in
  let '(d, (_, created, err)) := DeliveryStore.Enqueue enqueuedAt (deliveries s)
    (D.zero <| D.ID := deliveryID |> <| D.EventID := N.EventID notification |>
       <| D.InstallationID := R.InstallationID registration |> <| D.Notification_ := notification |>
       <| D.Status := DeliveryStatusPending |> <| D.AvailableAt := now |>
       <| D.ExpiresAt := Add now (notificationTTL (N.Type_ notification)) |> <| D.CreatedAt := now |>) in
  let s := s <| deliveries := d |> in
  match err with
  | Some err => (s, Some (ErrMsg ("enqueue notification: " +:+ Error err)))
  | None =>
  let s :=
    if (created : bool) then
      auditRecord W s (A.zero <| A.Action := "push.delivery.enqueue" |> <| A.Status := "pending" |>
        <| A.InstallationID := R.InstallationID registration |> <| A.UserID := R.UserID registration |>
        <| A.ChannelID := N.ChannelID notification |> <| A.EventID := N.EventID notification |>
        <| A.Detail := N.Type_ notification |>)
    else s in
  (flushPending s (R.InstallationID registration), None)
  end
  end
  end.

(** ** The workers' queue *)

Definition maxQueue : Z := 1024.

Definition reserveEventSub s (messageID : string) : server RS * bool :=
  if bool_decide (messageID ∈ eventInFlight s) then (s, false) else
  (s <| eventInFlight := {[messageID]} ∪ eventInFlight s |>, true).

Definition releaseEventSub s (messageID : string) : server RS :=
  s <| eventInFlight := eventInFlight s ∖ {[messageID]} |>.

Definition scheduleEventSub s (record : I.t) : server RS * bool :=
  if (I.MessageID record == "") || (I.Status record != EventSubInboxStatusPending) then (s, false) else
  let '(s, reserved) := reserveEventSub s (I.MessageID record) in
  if negb reserved then (s, false) else
  let queued := mkQueued (I.MessageID record) (I.Envelope record) in
  if Z.of_nat (length (eventQueue s)) <? maxQueue
  then (s <| eventQueue := eventQueue s ++ [queued] |>, true)
  else (releaseEventSub s (I.MessageID record), false).

(** [drain] of the inbox drainer. *)
Definition drain s : server RS :=
  let '(s, now) := Now W s in
  foldl (λ s record, (scheduleEventSub s record).1) s
    (DeliveryStore.PendingEventSub (deliveries s) 512 now).

(** ** Processing a message *)

Definition auditProcess s (messageID channelID status detail : string) : server RS :=
  auditRecord W s (A.zero <| A.Action := "eventsub.process" |> <| A.Status := status |>
    <| A.EventID := messageID |> <| A.ChannelID := channelID |> <| A.Detail := detail |>).

(** The loop over the registrations: how many wanted the event, and the
    errors of those that could not be served.  Six readings of the clock are
    set aside for the routing of one registration. *)
Definition deliverLoop s (messageID subscriptionType : string) (event : EventSub.object)
    (registrations : list R.t) : server RS * (Z * list error) :=
  foldl (λ '(s, (matched, errs)) registration,
      let clk := λ i, clock W (ticks s + i)%nat in
      let s := s <| ticks := (ticks s + 6)%nat |> in
      match EventSub.eventNotificationForRegistration clk messageID subscriptionType event registration with
      | None => (s, (matched, errs))
      | Some notification =>
          let '(s, err) := deliverToRegistration s registration notification in
          match err with
          | Some err =>
              (s, (matched + 1, errs ++ [ErrMsg (R.InstallationID registration +:+ ": " +:+ Error err)]))
          | None => (s, (matched + 1, errs))
          end
      end)
    (s, (0, [])) registrations.

(** [errors.Join]. *)
Definition joinErrors (errs : list error) : error :=
  ErrMsg (Join (Error <$> errs) (String "010"%char "")).

(** Everything after the change of the channel has been looked at:
    [saveState] holds the channel, its title and its category when the state
    is to be saved. *)
Definition notifyRegistrations s (messageID subscriptionType : string) (event : EventSub.object)
    (saveState : option (string * string * string)) : server RS * option error :=
  let '(s, (matched, deliveryErrors)) :=
    deliverLoop s messageID subscriptionType event (List (store s)) in
  if negb (bool_decide (deliveryErrors = [])) then
    let s := auditProcess s messageID "" "retry_pending"
      ("type=" +:+ subscriptionType +:+ " matched=" +:+ pretty matched +:+ " failed=" +:+
       pretty (Z.of_nat (length deliveryErrors))) in
    (s, Some (joinErrors deliveryErrors))
  else
  let '(s, saved) :=
    match saveState with
    | Some (channelID, title, category) =>
        let '(s, now) := Now W s in
        let '(d, err) := DeliveryStore.SaveChannelState (deliveries s) channelID title category now in
        (s <| deliveries := d |>, err)
    | None => (s, None)
    end in
  match saved with
  | Some err => (s, Some (ErrMsg ("save channel notification state: " +:+ Error err)))
  | None =>
      (auditProcess s messageID "" "processed"
         ("type=" +:+ subscriptionType +:+ " matched=" +:+ pretty matched), None)
  end.

(** The two flags a channel update carries are written into the event, which
    is the inbox record's own map: every processing writes them before it
    reads them, so each call may work on its own copy.  A message without an
    event has no channel, and is refused before the map is written. *)
Definition processEventSubNotification s (messageID : string) (envelope : E.t)
    : server RS * option error :=
  let subscriptionType := Sub.Type_ (E.Subscription_ envelope) in
  let event := E.Event envelope in
  if subscriptionType == "channel.update" then
    let channelID := EventSub.stringValue event "broadcaster_user_id" in
    let channelTitle := EventSub.stringValue event "title" in
    let channelCategory := EventSub.stringValue event "category_name" in
    match DeliveryStore.ChannelStateChanges (deliveries s) channelID channelTitle channelCategory with
    | Err err => (s, Some (ErrMsg ("inspect channel notification state: " +:+ Error err)))
    | Ok (titleChanged, gameChanged, initialized) =>
        if (initialized : bool) then
          let '(s, now) := Now W s in
          let '(d, err) := DeliveryStore.SaveChannelState (deliveries s) channelID channelTitle
                             channelCategory now in
          let s := s <| deliveries := d |> in
          match err with
          | Some err => (s, Some (ErrMsg ("initialize channel notification state: " +:+ Error err)))
          | None => (auditProcess s messageID channelID "state_initialized" subscriptionType, None)
          end
        else if negb titleChanged && negb gameChanged then
          (auditProcess s messageID channelID "unchanged" subscriptionType, None)
        else
        let event := <["_ferventio_title_changed" := JBool titleChanged]> event in
        let event := <["_ferventio_game_changed" := JBool gameChanged]> event in
        notifyRegistrations s messageID subscriptionType event
          (Some (channelID, channelTitle, channelCategory))
    end
  else notifyRegistrations s messageID subscriptionType event None.

(** The deferred part of [handleQueuedEventSub] after the reservation has
    been released. *)
Definition settleEventSub s (messageID : string) (processErr : option error) : server RS :=
  let '(s, now) := Now W s in
  match processErr with
  | Some err =>
      let s := s <| deliveries :=
        (DeliveryStore.MarkEventSubFailed (deliveries s) messageID (Some err) now).1 |> in
      auditProcess s messageID "" "failed" (Error err)
  | None =>
      let '(d, err) := DeliveryStore.CompleteEventSub (deliveries s) messageID now in
      let s := s <| deliveries := d |> in
      match err with
      | Some err => auditProcess s messageID "" "completion_failed" (Error err)
      | None => s
      end
  end.

Definition handleQueuedEventSub s (queued : queuedEventSub) : server RS :=
  let '(s, processErr) := processEventSubNotification s (MessageID queued) (Envelope queued) in
  let s := releaseEventSub s (MessageID queued) in
  settleEventSub s (MessageID queued) processErr.

(** ** The webhook *)

Definition enforceInvalidEventSubRateLimit s (r : httpRequest) : server RS * option response :=
  if RateLimitDisabled (cfg W) then (s, None) else
  enforceRateLimit W s r eventSubInvalidPolicy ("ip:" +:+ clientIP W r) "" "".

Definition auditInvalidEventSubVerification s (messageID : string) (verificationErr : error) : server RS :=
  let '(s, decision) := take W s eventSubInvalidAuditPolicy "global" in
  if negb (Allowed decision) then s else
  auditRecord W s (A.zero <| A.Action := "eventsub.verify" |> <| A.Status := "rejected" |>
    <| A.EventID := messageID |> <| A.Detail := Error verificationErr |>).

(** The answer to a message that does not verify. *)
Definition rejectEventSub s (r : httpRequest) (messageID : string) (err : error) : server RS * response :=
  let '(s, refused) := enforceInvalidEventSubRateLimit s r in
  match refused with
  | Some response => (s, response)
  | None =>
      let s := auditInvalidEventSubVerification s (EventSub.boundedEventSubMessageID messageID) err in
      (s, writeError 403 "invalid EventSub signature")
  end.

Definition auditEnqueue s (messageID channelID status detail : string) : server RS :=
  auditRecord W s (A.zero <| A.Action := "eventsub.enqueue" |> <| A.Status := status |>
    <| A.EventID := messageID |> <| A.ChannelID := channelID |> <| A.Detail := detail |>).

Definition acceptNotification s (messageID : string) (envelope : E.t) : server RS * response :=
  let '(s, now) := Now W s in
  let '(d, (record, created, err)) := DeliveryStore.EnqueueEventSub (deliveries s) messageID envelope now in
  let s := s <| deliveries := d |> in
  match err with
  | Some err =>
      (auditEnqueue s messageID "" "persist_failed" (Error err),
       writeError 503 "EventSub inbox is unavailable")
  | None =>
      let s :=
        if (created : bool) then
          auditEnqueue s messageID
            (EventSub.firstNonBlank [EventSub.stringValue (E.Event envelope) "broadcaster_user_id";
                                     EventSub.stringValue (E.Event envelope) "to_broadcaster_user_id"])
            "persisted" (Sub.Type_ (E.Subscription_ envelope))
        else s in
      let s :=
        if (I.MessageID record != "") && (I.Status record == EventSubInboxStatusPending) then
          let '(s, scheduled) := scheduleEventSub s record in
          if negb scheduled
          then auditEnqueue s messageID "" "persisted_waiting" (Sub.Type_ (E.Subscription_ envelope))
          else s
        else s in
      (s, mkResponse 204 NoContent)
  end.

Definition eventSubWebhook s (r : httpRequest) : server RS * response :=
  if EventSubSecret (cfg W) == "" then (s, writeError 503 "EventSub webhook is not configured") else
  let messageID := TrimSpace (Header r "Twitch-Eventsub-Message-Id") in
  let messageTimestamp := TrimSpace (Header r "Twitch-Eventsub-Message-Timestamp") in
  let signature := TrimSpace (Header r "Twitch-Eventsub-Message-Signature") in
  match EventSub.validateEventSubVerificationHeaders messageID messageTimestamp signature with
  | Some err => rejectEventSub s r messageID err
  | None =>
  match readBody W r with
  | Err _ => (s, writeError 400 "invalid EventSub body")
  | Ok body =>
  let '(s, now) := Now W s in
  match EventSub.verifyEventSubMessage (parseTime W) (hmac W) (EventSubSecret (cfg W)) messageID
          messageTimestamp signature body now with
  | Some err => rejectEventSub s r messageID err
  | None =>
  match decodeEnvelope W body with
  | None => (s, writeError 400 "invalid EventSub JSON")
  | Some envelope =>
  let messageType := Header r "Twitch-Eventsub-Message-Type" in
  let subscription := E.Subscription_ envelope in
  if messageType == "webhook_callback_verification" then
    if E.Challenge envelope == "" then (s, writeError 400 "missing EventSub challenge") else
    let s := auditRecord W s (A.zero <| A.Action := "eventsub.challenge" |> <| A.Status := "ok" |>
      <| A.EventID := messageID |> <| A.Detail := Sub.Type_ subscription |>) in
    (s, mkResponse 200 (RawText (E.Challenge envelope)))
  else if messageType == "notification" then acceptNotification s messageID envelope
  else if messageType == "revocation" then
    let '(s, now) := Now W s in
    let s := s <| deliveries := (DeliveryStore.SeenEventSub (deliveries s) messageID now (24 * Hour)).1 |> in
    let s := auditRecord W s (A.zero <| A.Action := "eventsub.revocation" |>
      <| A.Status := Sub.Status subscription |> <| A.EventID := messageID |>
      <| A.Detail := Sub.Type_ subscription +:+ ":" +:+ Sub.ID subscription |>) in
    (requestEventSubReconcile W s, mkResponse 204 NoContent)
  else (s, writeError 400 "unsupported EventSub message type")
  end
  end
  end
  end.

(** ** Test and administration endpoints *)

Definition selfTest s (r : httpRequest) : server RS * response :=
  match authorizeDevice s r with
  | inl response => (s, response)
  | inr registration =>
      let '(s, now) := Now W s in
      let notification := N.zero <| N.Title := "Ferventio" |>
        <| N.Body := "Тестовое push-уведомление работает" |>
        <| N.MessageID := "self-test-" +:+ pretty (now - unixToInternal * Second) |> in
      let '(s, err) := deliverToRegistration s registration notification in
      match err with
      | Some _ => (s, writeError 502 "push delivery failed")
      | None => (s, mkResponse 202 (JStatus "sent"))
      end
  end.

Definition adminPush s (r : httpRequest) : server RS * response :=
  match authorizeAdmin W r with
  | Some response => (s, response)
  | None =>
  match Get (store s) (PathValue r "installationID") with
  | Err ErrRegistrationNotFound => (s, writeError 404 "registration not found")
  | Err _ => (s, writeError 500 "registration lookup failed")
  | Ok registration =>
  match decodeNotification W (Body r) with
  | Err err => (s, writeError 400 (Error err))
  | Ok notification =>
      if TrimSpace (N.Body notification) == "" then (s, writeError 400 "body is required") else
      let notification := if N.Title notification == "" then notification <| N.Title := "Ferventio" |>
                          else notification in
      let '(s, err) := deliverToRegistration s registration notification in
      match err with
      | Some err => (s, writeError 502 (Error err))
      | None => (s, mkResponse 202 (JStatus "sent"))
      end
  end
  end
  end.

Definition adminRetryEventSubInbox s (r : httpRequest) : server RS * response :=
  match authorizeAdmin W r with
  | Some response => (s, response)
  | None =>
      let messageID := TrimSpace (PathValue r "messageID") in
      if messageID == "" then (s, writeError 400 "message id is required") else
      let '(s, now) := Now W s in
      let '(d, err) := DeliveryStore.RetryEventSub (deliveries s) messageID now in
      let s := s <| deliveries := d |> in
      match err with
      | Some ErrRegistrationNotFound => (s, writeError 404 "EventSub inbox item not found")
      | Some _ => (s, writeError 500 "EventSub inbox item was not updated")
      | None =>
          let s := auditRecord W s (A.zero <| A.Action := "eventsub.retry" |> <| A.Status := "queued" |>
            <| A.EventID := messageID |>) in
          let '(s, now) := Now W s in
          let s :=
            match List.find (λ record, I.MessageID record == messageID)
                    (DeliveryStore.PendingEventSub (deliveries s) 1000 now) with
            | Some record => (scheduleEventSub s record).1
            | None => s
            end in
          (s, mkResponse 202 (JStatus "queued"))
      end
  end.

(** ** Authentication of a push connection *)

Definition takeInstallationRateLimit s (installationID deviceSecret : string)
    : server RS * rateLimitDecision :=
  if RateLimitDisabled (cfg W) then (s, allowed) else
  match validateMobileDevice installationID deviceSecret with
  | Some _ => (s, allowed)
  | None => take W s (installationPolicy (cfg W)) ("installation:" +:+ installationRateKey installationID deviceSecret)
  end.

(** [io] gives the outcome of the pongs written while reading. *)
Definition authenticatePushSocket s (io : nat → option error) (connection : PushSocket.conn)
    : server RS * PushSocket.conn * result R.t :=
  let '(connection, read) := PushSocket.readText io connection in
  match read with
  | Err err => (s, connection, Err (ErrMsg ("read authentication: " +:+ Error err)))
  | Ok payload =>
  match decodeMessage W payload with
  | None => (s, connection, Err (ErrMsg "invalid authentication JSON"))
  | Some message =>
  match PushSocket.validatePushSocketAuthentication message with
  | Some err => (s, connection, Err err)
  | None =>
  let installationID := PushSocket.MInstallationID message in
  let deviceSecret := PushSocket.MDeviceSecret message in
  match validateMobileDevice installationID deviceSecret with
  | Some _ => (s, connection, Err (ErrMsg "push authentication failed"))
  | None =>
  let '(s, decision) := takeInstallationRateLimit s installationID deviceSecret in
  if negb (Allowed decision) then
    let s := auditRateLimitBlock W s decision "installation" "WEBSOCKET" "/v1/push/socket"
               installationID "" in
    let retrySeconds := roundSeconds (RetryAfter decision) in
    let retrySeconds := if retrySeconds <? 1 then 1 else retrySeconds in
    (s, connection, Err (ErrMsg ("push authentication rate limited; retry after " +:+
                                 pretty retrySeconds +:+ "s")))
  else
  match Authenticate (store s) installationID deviceSecret with
  | Err _ => (s, connection, Err (ErrMsg "push authentication failed"))
  | Ok registration =>
      if R.Provider registration != "embedded_socket"
      then (s, connection, Err (ErrMsg "push authentication failed")) else
      let connection := connection <| PushSocket.installationID := R.InstallationID registration |> in
      let s :=
        if PushSocket.LastEventID message != "" then
          let '(s, now) := Now W s in
          s <| deliveries := (DeliveryStore.AckThrough (deliveries s) (R.InstallationID registration)
                                (PushSocket.LastEventID message) now).1 |>
        else s in
      (s, connection, Ok registration)
  end
  end
  end
  end
  end.

End Dispatch.
End Dispatch.
