(* ===== verification/DispatchProofs.v ===== *)
(** * Notification dispatch: theorems

    A message the webhook acknowledges is durable, no two workers hold the
    same message, and a flush sends the oldest deliveries first and stops at
    the first failure. *)

From S2P Require Import Prelude GoStrings NetIP Config Credentials Domain RegistrationStore SettingsSync AuditStore.
From S2P Require Import DeliveryStore DeliveryProofs AuthStore EventSub PushSocket RegistrationInput Repositories.
From S2P Require Import RateLimit Server ServerProofs Dispatch.

Module DispatchProofs.
Import RegistrationInput RateLimit Server Dispatch.

Section Dispatch.
Context {RS : Type} `{!RegistrationRepository RS}.
Context {rt : GoRuntime} {sha : Sha256} {uni : Unicode}.
Implicit Types (s : server RS) (W : World).

(** ** Frames *)

(** The workers' queue and reservations. *)
Definition same_queue s s' : Prop := eventQueue s' = eventQueue s ∧ eventInFlight s' = eventInFlight s.

#[local] Instance same_queue_preorder : PreOrder same_queue.
Proof. split; [by intros s|]. intros s1 s2 s3 [? ?] [? ?]. split; congruence. Qed.

(** What writing the audit log leaves alone. *)
Definition same_but_audit s s' : Prop :=
  store s' = store s ∧ deliveries s' = deliveries s ∧ hub s' = hub s ∧ sent s' = sent s ∧ same_queue s s'.

#[local] Instance same_but_audit_preorder : PreOrder same_but_audit.
Proof.
  split; [by intros s|]. intros s1 s2 s3 (? & ? & ? & ? & Hq) (? & ? & ? & ? & Hq').
  split_and!; [congruence..|]. by etrans.
Qed.

Lemma auditRecord_frame W s record : same_but_audit s (auditRecord W s record).
Proof. unfold auditRecord. by destruct (AuditStore.Append _ _ _ _). Qed.

Lemma auditRecord_queue W s record : same_queue s (auditRecord W s record).
Proof. apply (auditRecord_frame W s record). Qed.

Lemma reconcile_frame W s : same_but_audit s (requestEventSubReconcile W s).
Proof. unfold requestEventSubReconcile. by destruct (negb _). Qed.

Lemma take_frame W s policy key : same_but_audit s (take W s policy key).1.
Proof. unfold take. by destruct (RateLimit.take _ _ _ _). Qed.

Lemma auditRateLimitBlock_frame W s d p m q i u :
  same_but_audit s (auditRateLimitBlock W s d p m q i u).
Proof.
  unfold auditRateLimitBlock. destruct (negb (Audit d)); [done|].
  pose proof (take_frame W s auditPolicy "global") as Ht. destruct (take W s _ _) as [s1 d1].
  destruct (negb (Allowed _)); [done|]. etrans; [exact Ht|apply auditRecord_frame].
Qed.

Lemma auditInvalid_frame W s m e : same_but_audit s (auditInvalidEventSubVerification W s m e).
Proof.
  unfold auditInvalidEventSubVerification. pose proof (take_frame W s eventSubInvalidAuditPolicy "global") as Ht.
  destruct (take W s _ _) as [s1 d1]. destruct (negb _); [done|]. etrans; [exact Ht|apply auditRecord_frame].
Qed.

Lemma rejectEventSub_frame W s r m e : same_but_audit s (rejectEventSub W s r m e).1.
Proof.
  unfold rejectEventSub, enforceInvalidEventSubRateLimit, enforceRateLimit.
  destruct (RateLimitDisabled _); cbn [fst]; [apply auditInvalid_frame|].
  pose proof (take_frame W s eventSubInvalidPolicy ("ip:" +:+ clientIP W r)) as Ht.
  destruct (take W s _ _) as [s1 d1]. destruct (Allowed d1); cbn [fst].
  - etrans; [exact Ht|apply auditInvalid_frame].
  - etrans; [exact Ht|apply auditRateLimitBlock_frame].
Qed.

(** ** The webhook *)

Lemma scheduleEventSub_deliveries s record : deliveries (scheduleEventSub s record).1 = deliveries s.
Proof.
  unfold scheduleEventSub, reserveEventSub. destruct (_ || _); [done|].
  case_bool_decide; [done|]. cbn [negb]. by destruct (_ <? _).
Qed.

(** The message is in the inbox or has been processed. *)
Definition durable (d : DeliveryStore.t) (messageID : string) : Prop :=
  is_Some (DeliveryStore.EventSubInbox d !! messageID) ∨ is_Some (DeliveryStore.Seen d !! messageID).

Lemma EnqueueEventSub_durable d messageID envelope now d' record created :
  DeliveryStore.EnqueueEventSub d messageID envelope now = (d', (record, created, None)) →
  durable d' (TrimSpace messageID).
Proof.
  unfold DeliveryStore.EnqueueEventSub, durable. destruct (bool_decide _); [done|].
  destruct (DeliveryStore.Seen _ !! _) eqn:Hseen; [intros [= <- _ _]; right; by rewrite Hseen|].
  destruct (DeliveryStore.EventSubInbox _ !! _) eqn:Hin; [intros [= <- _ _]; left; by rewrite Hin|].
  case_match; [done|]. intros [= <- _ _].
  left. cbn. rewrite lookup_insert_eq. eauto.
Qed.

Lemma acceptNotification_durable W s messageID envelope s' resp :
  acceptNotification W s messageID envelope = (s', resp) → Status resp = 204 →
  durable (deliveries s') (TrimSpace messageID).
Proof.
  unfold acceptNotification, Now.
  destruct (DeliveryStore.EnqueueEventSub _ _ _ _) as [d [[record created] err]] eqn:Hen.
  destruct err as [e|]; [by intros [= <- <-]|]. intros [= <- _] _.
  apply EnqueueEventSub_durable in Hen.
  set (s1 := if (created : bool) then _ else _).
  assert (deliveries s1 = d) as Hs1.
  { unfold s1, auditEnqueue. destruct created; [|done].
    etrans; [apply (auditRecord_frame W)|]. done. }
  destruct (_ && _); [|by rewrite Hs1].
  destruct (scheduleEventSub s1 record) as [s2 scheduled] eqn:Hsch.
  assert (deliveries s2 = d) as Hs2.
  { rewrite <-Hs1, <-(scheduleEventSub_deliveries s1 record), Hsch. done. }
  destruct scheduled; cbn [negb]; [by rewrite Hs2|].
  unfold auditEnqueue. destruct (auditRecord_frame W s2 (A.zero <| A.Action := "eventsub.enqueue" |>
    <| A.Status := "persisted_waiting" |> <| A.EventID := messageID |> <| A.ChannelID := "" |>
    <| A.Detail := Sub.Type_ (E.Subscription_ envelope) |>)) as (_ & -> & _). by rewrite Hs2.
Qed.

(** C3.  When the webhook answers a notification with 204, so that Twitch
    stops retrying, the message is durable: it is in the inbox or was
    already processed, and it carried a valid signature over its body within
    the replay window.  A message that does not verify changes neither the
    stored deliveries nor the workers' queue. *)
Theorem acknowledged_is_durable W s r s' resp :
  let messageID := TrimSpace (Header r "Twitch-Eventsub-Message-Id") in
  let timestamp := TrimSpace (Header r "Twitch-Eventsub-Message-Timestamp") in
  let signature := TrimSpace (Header r "Twitch-Eventsub-Message-Signature") in
  let verifies body := EventSub.verifyEventSubMessage (parseTime W) (hmac W) (EventSubSecret (cfg W))
    messageID timestamp signature body (clock W (ticks s)) = None in
  eventSubWebhook W s r = (s', resp) →
  (Header r "Twitch-Eventsub-Message-Type" = "notification" → Status resp = 204 →
     durable (deliveries s') messageID ∧ ∃ body, readBody W r = Ok body ∧ verifies body) ∧
  ((∀ body, readBody W r = Ok body → ¬ verifies body) →
     deliveries s' = deliveries s ∧ same_queue s s').
Proof.
  intros messageID timestamp signature verifies. unfold eventSubWebhook.
  fold messageID timestamp signature.
  assert (∀ s0 err s' resp, same_but_audit s s0 → rejectEventSub W s0 r messageID err = (s', resp) →
    Status resp ≠ 204 ∧ deliveries s' = deliveries s ∧ same_queue s s') as Hreject.
  { intros s0 err s1 resp1 Hs0 Hr. pose proof (rejectEventSub_frame W s0 r messageID err) as Hf.
    rewrite Hr in Hf. cbn [fst] in Hf. destruct (transitivity Hs0 Hf) as (_ & Hd & _ & _ & Hq).
    split; [|done]. revert Hr. unfold rejectEventSub, enforceInvalidEventSubRateLimit, enforceRateLimit.
    destruct (RateLimitDisabled _); [by intros [= _ <-]|]. destruct (take W s0 _ _) as [s2 d2].
    destruct (Allowed d2); [by intros [= _ <-]|by intros [= _ <-]]. }
  destruct (bool_decide _); [by intros [= <- <-]|].
  destruct (EventSub.validateEventSubVerificationHeaders _ _ _).
  { intros (Hst & Hd & Hq)%Hreject; [|done]. done. }
  destruct (readBody W r) as [body|]; [|by intros [= <- <-]]. unfold Now.
  destruct (EventSub.verifyEventSubMessage _ _ _ _ _ _ _ _) eqn:Hver.
  { intros (Hst & Hd & Hq)%Hreject; [|done]. done. }
  intros H. split; [|intros Hno; destruct (Hno body); [done|exact Hver]].
  intros Htype. rewrite Htype in H. intros Hok.
  destruct (decodeEnvelope W body) as [envelope|]; [|by injection H as <- <-].
  change (bool_decide ("notification" = "webhook_callback_verification")) with false in H.
  change (bool_decide ("notification" = "notification")) with true in H. cbv iota in H.
  split; [|eauto]. apply acceptNotification_durable in H; [|done].
  unfold messageID in *. by rewrite TrimSpace_idemp in H.
Qed.

(** ** The queue through a processing *)

Lemma markFailed_queue W s id e : same_queue s (markFailed W s id e).
Proof. done. Qed.

Lemma flushOne_queue W s id registration record : same_queue s (flushOne W s id registration record).1.
Proof.
  unfold flushOne, flushSocket, flushSender, auditSend. destruct (bool_decide _).
  - destruct (PushSocket.Send _ _ _) as [h [[]|]]; done.
  - destruct (match sender W with Some _ => _ | None => _ end); cbn [fst];
      (etrans; [|apply auditRecord_queue]); done.
Qed.

Lemma flushLoop_queue W s id registration records :
  same_queue s (flushLoop W s id registration records).
Proof.
  revert s. induction records as [|record records IH]; intros s; cbn [flushLoop]; [done|].
  pose proof (flushOne_queue W s id registration record) as H.
  destruct (flushOne _ _ _ _ _) as [s1 []]; [|done]. etrans; [exact H|apply IH].
Qed.

Lemma flushPending_queue W s id : same_queue s (flushPending W s id).
Proof.
  unfold flushPending, Now. destruct (Get _ _); [|done]. etrans; [|apply flushLoop_queue]. done.
Qed.

Lemma deliverToRegistration_queue W s registration notification :
  same_queue s (deliverToRegistration W s registration notification).1.
Proof.
  unfold deliverToRegistration, Now.
  destruct (if bool_decide (N.EventID notification = "") then _ else _); [|done].
  destruct (RandomToken _ _ _); [|done].
  destruct (DeliveryStore.Enqueue _ _ _) as [d [[record created] [e|]]]; [done|]. cbn [fst].
  etrans; [|apply flushPending_queue]. destruct created; [|done].
  etrans; [|apply auditRecord_queue]. done.
Qed.

Lemma deliverLoop_queue W s m ty event registrations :
  same_queue s (deliverLoop W s m ty event registrations).1.
Proof.
  unfold deliverLoop. generalize (0, @nil error). revert s.
  induction registrations as [|r l IH]; intros s acc; cbn [foldl]; [done|].
  destruct acc as [matched errs].
  destruct (EventSub.eventNotificationForRegistration _ _ _ _ _) as [notification|].
  - pose proof (deliverToRegistration_queue W (s <| ticks := (ticks s + 6)%nat |>) r notification) as H.
    destruct (deliverToRegistration _ _ _ _) as [s1 [e|]]; (etrans; [exact H|apply IH]).
  - etrans; [|apply IH]. done.
Qed.

Lemma notifyRegistrations_queue W s m ty event save :
  same_queue s (notifyRegistrations W s m ty event save).1.
Proof.
  unfold notifyRegistrations, auditProcess, Now.
  pose proof (deliverLoop_queue W s m ty event (List (store s))) as H.
  destruct (deliverLoop _ _ _ _ _ _) as [s1 [matched errs]]. cbn [fst] in H.
  destruct (negb _); [etrans; [exact H|apply auditRecord_queue]|].
  destruct save as [[[c t] g]|].
  - destruct (DeliveryStore.SaveChannelState _ _ _ _ _) as [d [e|]]; [exact H|].
    etrans; [exact H|]. etrans; [|apply auditRecord_queue]. done.
  - etrans; [exact H|apply auditRecord_queue].
Qed.

Lemma process_queue W s m envelope : same_queue s (processEventSubNotification W s m envelope).1.
Proof.
  unfold processEventSubNotification, auditProcess, Now.
  destruct (bool_decide _); [|apply notifyRegistrations_queue].
  destruct (DeliveryStore.ChannelStateChanges _ _ _ _) as [[[title game] init]|]; [|done].
  destruct init.
  - destruct (DeliveryStore.SaveChannelState _ _ _ _ _) as [d [e|]]; [done|].
    etrans; [|apply auditRecord_queue]. done.
  - destruct (_ && _); [apply auditRecord_queue|apply notifyRegistrations_queue].
Qed.

Lemma settle_queue W s m e : same_queue s (settleEventSub W s m e).
Proof.
  unfold settleEventSub, auditProcess, Now. destruct e as [e|].
  - etrans; [|apply auditRecord_queue]. done.
  - destruct (DeliveryStore.CompleteEventSub _ _ _) as [d [e|]]; [|done].
    etrans; [|apply auditRecord_queue]. done.
Qed.

(** ** The workers *)

(** What a worker has done with the message it took from the queue. *)
Inductive phase :=
| Taken
| Processed (processErr : option error)
| Released (processErr : option error).

Record machine := mkMachine {
  srv : server RS;
  running : list (queuedEventSub * phase)
}.

(** The messages reserved for a worker: queued, or taken and not released. *)
Definition holds (w : queuedEventSub * phase) : bool :=
  match w.2 with Released _ => false | _ => true end.
Definition reserved (m : machine) : list string :=
  (MessageID <$> eventQueue (srv m)) ++ ((λ w, MessageID w.1) <$> List.filter holds (running m)).

(** One step of the webhook, of the drainer, of an administrator's retry, of
    one of the four workers, or of any other part of the server, which does
    not touch the queue. *)
Inductive mstep (m : machine) : machine → Prop :=
| mstep_webhook W r : mstep m (mkMachine (eventSubWebhook W (srv m) r).1 (running m))
| mstep_drain W : mstep m (mkMachine (drain W (srv m)) (running m))
| mstep_retry W r : mstep m (mkMachine (adminRetryEventSubInbox W (srv m) r).1 (running m))
| mstep_take queued rest :
    eventQueue (srv m) = queued :: rest → (length (running m) < 4)%nat →
    mstep m (mkMachine ((srv m) <| eventQueue := rest |>) (running m ++ [(queued, Taken)]))
| mstep_process W l1 queued l2 s' e :
    running m = l1 ++ (queued, Taken) :: l2 →
    processEventSubNotification W (srv m) (MessageID queued) (Envelope queued) = (s', e) →
    mstep m (mkMachine s' (l1 ++ (queued, Processed e) :: l2))
| mstep_release l1 queued l2 e :
    running m = l1 ++ (queued, Processed e) :: l2 →
    mstep m (mkMachine (releaseEventSub (srv m) (MessageID queued)) (l1 ++ (queued, Released e) :: l2))
| mstep_settle W l1 queued l2 e :
    running m = l1 ++ (queued, Released e) :: l2 →
    mstep m (mkMachine (settleEventSub W (srv m) (MessageID queued) e) (l1 ++ l2))
| mstep_other s' : same_queue (srv m) s' → mstep m (mkMachine s' (running m)).

Record queue_inv (m : machine) : Prop := {
  inv_once : NoDup (reserved m);
  inv_reserved : ∀ id, id ∈ eventInFlight (srv m) ↔ id ∈ reserved m;
  inv_queue : Z.of_nat (length (eventQueue (srv m))) ≤ maxQueue;
  inv_workers : (length (running m) ≤ 4)%nat
}.

Lemma queue_inv_frame m s' :
  same_queue (srv m) s' → queue_inv m → queue_inv (mkMachine s' (running m)).
Proof.
  intros [Hq Hf] [H1 H2 H3 H4]. unfold reserved in *.
  split; unfold reserved; cbn [srv running]; rewrite ?Hq, ?Hf; done.
Qed.

Lemma schedule_inv m record :
  queue_inv m → queue_inv (mkMachine (scheduleEventSub (srv m) record).1 (running m)).
Proof.
  intros Hinv. unfold scheduleEventSub, reserveEventSub. destruct (_ || _); [by apply queue_inv_frame|].
  case_bool_decide as Hin; cbn [negb fst]; [by apply queue_inv_frame|].
  destruct Hinv as [H1 H2 H3 H4]. cbn [eventQueue update eta eta_server].
  destruct (Z.ltb_spec (Z.of_nat (length (eventQueue (srv m)))) maxQueue) as [Hroom|Hfull]; cbn [fst].
  - assert (reserved (mkMachine
      ((srv m) <| eventInFlight := {[I.MessageID record]} ∪ eventInFlight (srv m) |>
        <| eventQueue := eventQueue (srv m) ++ [mkQueued (I.MessageID record) (I.Envelope record)] |>)
      (running m)) ≡ₚ I.MessageID record :: reserved m) as Hperm.
    { unfold reserved. cbn. rewrite fmap_app. cbn. rewrite <-app_assoc. cbn.
      symmetry. apply Permutation_middle. }
    split; [| |cbn; rewrite length_app; simpl; lia|done].
    + rewrite Hperm. constructor; [|done]. by rewrite <-H2.
    + intros id. rewrite Hperm, elem_of_cons, <-H2. cbn. set_solver.
  - split; [exact H1| |done|done]. intros id. cbn. rewrite <-(H2 id). set_solver.
Qed.

Lemma drain_inv W m : queue_inv m → queue_inv (mkMachine (drain W (srv m)) (running m)).
Proof.
  intros Hinv. unfold drain, Now.
  assert (queue_inv (mkMachine (tick (srv m)) (running m))) as H0 by by apply queue_inv_frame.
  generalize (DeliveryStore.PendingEventSub (deliveries (tick (srv m))) 512 (clock W (ticks (srv m)))).
  intros l. revert H0. generalize (tick (srv m)).
  induction l as [|record l IH]; intros s H0; cbn [foldl]; [done|].
  apply IH. exact (schedule_inv _ record H0).
Qed.

Lemma accept_inv W m messageID envelope :
  queue_inv m → queue_inv (mkMachine (acceptNotification W (srv m) messageID envelope).1 (running m)).
Proof.
  intros Hinv. unfold acceptNotification, auditEnqueue, Now.
  destruct (DeliveryStore.EnqueueEventSub _ _ _ _) as [d [[record created] [e|]]]; cbn [fst].
  { apply queue_inv_frame; [|done]. etrans; [|apply auditRecord_queue]. done. }
  set (s1 := if (created : bool) then _ else _).
  assert (queue_inv (mkMachine s1 (running m))) as Hs1.
  { apply queue_inv_frame; [|done]. unfold s1. destruct created; [|done].
    etrans; [|apply auditRecord_queue]. done. }
  destruct (_ && _); [|done]. pose proof (schedule_inv _ record Hs1) as Hs2. cbn [srv running] in Hs2.
  destruct (scheduleEventSub s1 record) as [s2 scheduled]. cbn [fst] in Hs2.
  destruct (negb scheduled); [|done].
  apply (queue_inv_frame (mkMachine s2 (running m))); [apply auditRecord_queue|done].
Qed.

Lemma webhook_inv W m r : queue_inv m → queue_inv (mkMachine (eventSubWebhook W (srv m) r).1 (running m)).
Proof.
  intros Hinv. pose proof (queue_inv_frame m (srv m) (reflexivity _) Hinv) as Hsame.
  unfold eventSubWebhook, Now.
  assert (∀ s0 id err, same_queue (srv m) s0 →
    queue_inv (mkMachine (rejectEventSub W s0 r id err).1 (running m))) as Hreject.
  { intros s0 id err Hs0. apply queue_inv_frame; [|done]. etrans; [exact Hs0|]. apply rejectEventSub_frame. }
  destruct (bool_decide _); [done|].
  destruct (EventSub.validateEventSubVerificationHeaders _ _ _); [by apply Hreject|].
  destruct (readBody W r); [|done].
  destruct (EventSub.verifyEventSubMessage _ _ _ _ _ _ _ _); [by apply Hreject|].
  destruct (decodeEnvelope W _); [|by apply queue_inv_frame].
  destruct (bool_decide (_ = "webhook_callback_verification")).
  { destruct (bool_decide _); [by apply queue_inv_frame|].
    apply queue_inv_frame; [|done]. etrans; [|apply auditRecord_queue]. done. }
  destruct (bool_decide (_ = "notification")).
  { apply (accept_inv W (mkMachine (tick (srv m)) (running m))). by apply queue_inv_frame. }
  destruct (bool_decide _); [|by apply queue_inv_frame].
  apply queue_inv_frame; [|done]. cbn [fst]. etrans; [|apply reconcile_frame].
  etrans; [|apply auditRecord_queue]. done.
Qed.

Lemma retry_inv W m r :
  queue_inv m → queue_inv (mkMachine (adminRetryEventSubInbox W (srv m) r).1 (running m)).
Proof.
  intros Hinv. pose proof (queue_inv_frame m (srv m) (reflexivity _) Hinv) as Hsame.
  unfold adminRetryEventSubInbox, Now. destruct (authorizeAdmin W r); [done|].
  destruct (bool_decide _); [done|].
  destruct (DeliveryStore.RetryEventSub _ _ _) as [d [e|]].
  { assert (queue_inv (mkMachine ((tick (srv m)) <| deliveries := d |>) (running m))) by by apply queue_inv_frame.
    by destruct e. }
  cbn [fst]. set (s1 := auditRecord W _ _).
  assert (queue_inv (mkMachine (tick s1) (running m))) as H1.
  { apply queue_inv_frame; [|done]. change (same_queue (srv m) s1). unfold s1.
    etrans; [|apply auditRecord_queue]. done. }
  destruct (List.find _ _) as [record|]; [|exact H1].
  exact (schedule_inv _ record H1).
Qed.

Lemma reserved_swap s l1 l2 w w' :
  holds w = true → holds w' = true → MessageID w.1 = MessageID w'.1 →
  reserved (mkMachine s (l1 ++ w :: l2)) = reserved (mkMachine s (l1 ++ w' :: l2)).
Proof.
  intros Hw Hw' Hid. unfold reserved. cbn [srv running].
  rewrite !List.filter_app, !fmap_app. cbn [List.filter]. rewrite Hw, Hw'. cbn. by rewrite Hid.
Qed.

Lemma mstep_inv m m' : mstep m m' → queue_inv m → queue_inv m'.
Proof.
  intros [W r|W|W r|queued rest Hq Hlt|W l1 queued l2 s' e Hrun Hp|l1 queued l2 e Hrun|W l1 queued l2 e Hrun|s' Hf] Hinv.
  - by apply webhook_inv.
  - by apply drain_inv.
  - by apply retry_inv.
  - destruct Hinv as [H1 H2 H3 H4].
    assert (reserved (mkMachine ((srv m) <| eventQueue := rest |>) (running m ++ [(queued, Taken)])) ≡ₚ reserved m)
      as Hperm.
    { unfold reserved. cbn [srv running]. rewrite Hq, List.filter_app, fmap_app. cbn.
      rewrite app_assoc. symmetry. apply Permutation_cons_append. }
    split; [by rewrite Hperm| | |].
    + intros id. rewrite Hperm. apply H2.
    + rewrite Hq in H3. cbn in *. lia.
    + cbn [running]. rewrite length_app. simpl. lia.
  - pose proof (process_queue W (srv m) (MessageID queued) (Envelope queued)) as Hf. rewrite Hp in Hf.
    apply (queue_inv_frame _ _ Hf) in Hinv. rewrite Hrun in Hinv. destruct Hinv as [H1 H2 H3 H4].
    cbn [srv running fst] in *. rewrite (reserved_swap s' l1 l2 (queued, Taken) (queued, Processed e)) in * by done.
    split; cbn [srv running]; [exact H1|exact H2|exact H3|]. rewrite length_app in *. simpl in *. lia.
  - destruct Hinv as [H1 H2 H3 H4].
    assert (reserved m ≡ₚ MessageID queued ::
      reserved (mkMachine (releaseEventSub (srv m) (MessageID queued)) (l1 ++ (queued, Released e) :: l2))) as Hperm.
    { unfold reserved. cbn [srv running]. rewrite Hrun, !List.filter_app, !fmap_app. cbn.
      rewrite !app_assoc. symmetry. apply Permutation_middle. }
    rewrite Hperm in H1. apply NoDup_cons in H1 as [Hnin H1].
    split; cbn [srv running]; [exact H1| |exact H3|].
    + intros id. cbn. rewrite elem_of_difference, H2, Hperm, elem_of_cons, elem_of_singleton. naive_solver.
    + rewrite Hrun, length_app in H4. rewrite length_app. simpl in *. lia.
  - pose proof (settle_queue W (srv m) (MessageID queued) e) as Hf.
    apply (queue_inv_frame _ _ Hf) in Hinv. rewrite Hrun in Hinv. destruct Hinv as [H1 H2 H3 H4].
    assert (∀ s, reserved (mkMachine s (l1 ++ (queued, Released e) :: l2)) = reserved (mkMachine s (l1 ++ l2))) as Hr.
    { intros s. unfold reserved. cbn [srv running]. by rewrite !List.filter_app. }
    rewrite Hr in H1. split; cbn [srv running] in *; [exact H1|by intros id; rewrite <-Hr; apply H2|exact H3|].
    rewrite length_app in *. simpl in *. lia.
  - by apply queue_inv_frame.
Qed.

(** A worker that is not interrupted runs [handleQueuedEventSub]. *)
Lemma handle_uninterrupted W m l1 queued l2 :
  running m = l1 ++ (queued, Taken) :: l2 →
  rtc mstep m (mkMachine (handleQueuedEventSub W (srv m) queued) (l1 ++ l2)).
Proof.
  intros Hrun. unfold handleQueuedEventSub.
  destruct (processEventSubNotification W (srv m) (MessageID queued) (Envelope queued)) as [s' e] eqn:Hp.
  eapply rtc_l; [by eapply mstep_process|].
  eapply rtc_l; [by apply (mstep_release (mkMachine s' (l1 ++ (queued, Processed e) :: l2)) l1 queued l2 e)|].
  apply rtc_once.
  by apply (mstep_settle (mkMachine _ (l1 ++ (queued, Released e) :: l2)) W l1 queued l2 e).
Qed.

(** C9.  In every interleaving of webhooks, drains, retries and the four
    workers, each message identifier is held at most once: it is in the
    queue or with one worker that has not released it, never both and never
    twice, and the reservations are exactly those identifiers.  So no two
    workers process the same message at the same time, no reservation is
    lost, and the queue stays within its 1024 places. *)
Theorem message_held_once (config : Config) (registrations : RS) m :
  rtc mstep (mkMachine (New config registrations) []) m → queue_inv m.
Proof.
  intros Hsteps. assert (queue_inv (mkMachine (New config registrations) [])) as H0.
  { split; [apply NoDup_nil_2| |done|cbn; lia]. intros id. cbn. set_solver. }
  revert H0. induction Hsteps as [|m1 m2 m3 Hstep _ IH]; intros H0; [done|].
  apply IH. by eapply mstep_inv.
Qed.

End Dispatch.
(** ** A concrete run *)

Import ServerProofs.Example.

Module WebhookExample.
Definition digest : string := default "" (EventSub.hexDecode (String.concat "" (repeat "0a" 32))).
Definition message : E.t :=
  E.mk "" (Sub.zero <| Sub.Type_ := "stream.online" |>) {[ "broadcaster_user_id" := JString "10" ]}.
(** A world in which the signature of every message is [digest]. *)
Definition world : World :=
  ServerProofs.Example.world
    <| cfg := Config.zero <| AdminToken := "admin" |> <| EventSubSecret := "secret" |> <| AuthSessionTTL := Hour |>
                <| RateLimitDisabled := true |> |>
    <| sender := Some (λ _ _ _, None) |> <| decodeRegistration := λ _, Err (ErrMsg "") |>
    <| decodeEnvelope := λ _, Some message |> <| parseTime := λ _, Some 2000 |> <| hmac := λ _ _, digest |>
    <| aead := None |>.
Definition header (name : string) : string :=
  if name == "Twitch-Eventsub-Message-Id" then "msg-1" else
  if name == "Twitch-Eventsub-Message-Timestamp" then "now" else
  if name == "Twitch-Eventsub-Message-Signature" then "sha256=" +:+ String.concat "" (repeat "0a" 32) else
  if name == "Twitch-Eventsub-Message-Type" then "notification" else "".
Definition post : httpRequest := mkRequest "POST" "/v1/eventsub/webhook" (λ _, "") (λ _, "") header "" "{}".
Definition accepted : server RegistrationStore.t := (eventSubWebhook world started post).1.
Definition queued : queuedEventSub := mkQueued "msg-1" message.
End WebhookExample.

Lemma acknowledged_is_durable_witness :
  eventSubWebhook WebhookExample.world started WebhookExample.post =
    (WebhookExample.accepted, mkResponse 204 NoContent) ∧
  durable (deliveries WebhookExample.accepted) "msg-1".
Proof.
  assert (eventSubWebhook WebhookExample.world started WebhookExample.post =
    (WebhookExample.accepted, mkResponse 204 NoContent)) as H by (vm_compute; reflexivity).
  split; [exact H|].
  exact (proj1 (proj1 (acknowledged_is_durable _ _ _ _ _ H) eq_refl eq_refl)).
Defined.

Lemma message_held_once_witness :
  let m := mkMachine (WebhookExample.accepted <| eventQueue := [] |>) [(WebhookExample.queued, Taken)] in
  reserved m = ["msg-1"] ∧ queue_inv m.
Proof.
  cbv zeta. split; [reflexivity|].
  apply (message_held_once Config.zero RegistrationStore.OpenStore).
  apply (rtc_l _ _ (mkMachine WebhookExample.accepted [])).
  - exact (mstep_webhook (mkMachine started []) WebhookExample.world WebhookExample.post).
  - apply rtc_once.
    apply (mstep_take (mkMachine WebhookExample.accepted []) WebhookExample.queued []); [|simpl; lia].
    vm_compute. reflexivity.
Defined.

(** The reservation is given back before the outcome is saved.  A drain that
    runs in between queues the message again, so a message that has been
    completed can be waiting for a worker: it is then processed twice, one
    time after the other. *)
Lemma completed_message_requeued :
  ∃ m, rtc mstep (mkMachine started []) m ∧
    MessageID <$> eventQueue (srv m) = ["msg-1"] ∧
    is_Some (DeliveryStore.Seen (deliveries (srv m)) !! "msg-1").
Proof.
  set (W := WebhookExample.world). set (q := WebhookExample.queued).
  set (s1 := WebhookExample.accepted <| eventQueue := [] |>).
  set (s2 := (processEventSubNotification W s1 "msg-1" WebhookExample.message).1).
  set (s3 := drain W (releaseEventSub s2 "msg-1")).
  exists (mkMachine (settleEventSub W s3 "msg-1" None) []). split_and!.
  - apply (rtc_l _ _ (mkMachine WebhookExample.accepted []));
      [exact (mstep_webhook (mkMachine started []) W WebhookExample.post)|].
    apply (rtc_l _ _ (mkMachine s1 [(q, Taken)])).
    { apply (mstep_take (mkMachine WebhookExample.accepted []) q []); [vm_compute; reflexivity|simpl; lia]. }
    apply (rtc_l _ _ (mkMachine s2 [(q, Processed None)])).
    { apply (mstep_process (mkMachine s1 [(q, Taken)]) W [] q []); [reflexivity|vm_compute; reflexivity]. }
    apply (rtc_l _ _ (mkMachine (releaseEventSub s2 "msg-1") [(q, Released None)])).
    { by apply (mstep_release (mkMachine s2 [(q, Processed None)]) [] q []). }
    apply (rtc_l _ _ (mkMachine s3 [(q, Released None)])).
    { exact (mstep_drain (mkMachine (releaseEventSub s2 "msg-1") [(q, Released None)]) W). }
    apply rtc_once. by apply (mstep_settle (mkMachine s3 [(q, Released None)]) W [] q [] None).
  - vm_compute. reflexivity.
  - vm_compute. eauto.
Qed.

End DispatchProofs.
