(* ===== verification/FlushProofs.v ===== *)
(** * Flushing the queue of an installation: theorems

    [flushPending] hands the due deliveries to the transport in the order of
    their age, stops at the first failure, and records the outcome of each
    attempt on exactly the delivery it concerns. *)

From S2P Require Import Prelude GoStrings NetIP Config Credentials Domain RegistrationStore SettingsSync AuditStore.
From S2P Require Import DeliveryStore DeliveryProofs AuthStore EventSub PushSocket RegistrationInput Repositories.
From S2P Require Import RateLimit Server Dispatch DispatchProofs ServerProofs.

Module FlushProofs.
Import RegistrationInput RateLimit Server Dispatch DispatchProofs.
Abbreviation Records s := (DeliveryStore.Records (deliveries s)).
Abbreviation wf s := (DeliveryProofs.wf (deliveries s)).

Section Flush.
Context {RS : Type} `{!RegistrationRepository RS}.
Context {rt : GoRuntime} {sha : Sha256} {uni : Unicode} (W : World).
Implicit Types (s : server RS) (r : D.t) (registration : R.t).

(** The status of a delivery whose transport accepted it: a socket delivery
    waits for the device's acknowledgement, the others are done. *)
Definition accepted registration : string :=
  if R.Provider registration == "embedded_socket" then DeliveryStatusSent else DeliveryStatusAcked.

(** What the transport answers when the delivery is offered to it at a
    moment: the device's open connection, or the configured sender. *)
Definition transport (h : PushSocket.PushHub) registration r (n : nat) : option error :=
  if R.Provider registration == "embedded_socket" then
    match PushSocket.connections h !! D.InstallationID r with
    | None => Some ErrRegistrationNotFound
    | Some connection => sendJSON W n connection
    end
  else
    match sender W with
    | None => Some (ErrMsg "push sender is not configured")
    | Some send => send n registration (payloadOf r)
    end.

(** What a failed attempt makes of a delivery: untouched when the device is
    not connected, else one attempt more, and waiting again or dead. *)
Definition after_failure registration (e : error) r r' : Prop :=
  if (R.Provider registration == "embedded_socket") && (e == ErrRegistrationNotFound) then r' = r
  else D.AttemptCount r' = int64_wrap (D.AttemptCount r + 1) ∧
    (D.Status r' = DeliveryStatusPending ∨ D.Status r' = DeliveryStatusDead).

Definition after_success registration r r' : Prop :=
  D.Status r' = accepted registration ∧ D.AttemptCount r' = int64_wrap (D.AttemptCount r + 1).

(** The effect of one attempt on the deliveries. *)
Record attempted s registration r s' (ok : bool) : Prop := {
  att_wf : wf s';
  att_other : ∀ k, k ≠ D.ID r → Records s' !! k = Records s !! k;
  att_sent : sent s' = sent s ++ (if ok then [(D.InstallationID r, payloadOf r)] else []);
  att_hub : ok = true → hub s' = hub s;
  att_outcome : ∃ n r', (ticks s ≤ n < ticks s')%nat ∧ Records s' !! D.ID r = Some r' ∧
    match transport (hub s) registration r n with
    | None => ok = true ∧ after_success registration r r'
    | Some e => ok = false ∧ after_failure registration e r r'
    end
}.

Lemma MarkSent_spec d id r at_ :
  DeliveryStore.Records d !! id = Some r →
  ∃ r', DeliveryStore.Records (DeliveryStore.MarkSent d id at_).1 = <[id := r']> (DeliveryStore.Records d) ∧
    D.Status r' = DeliveryStatusSent ∧ D.AttemptCount r' = int64_wrap (D.AttemptCount r + 1) ∧
    D.InstallationID r' = D.InstallationID r ∧ D.EventID r' = D.EventID r.
Proof. intros Hr. unfold DeliveryStore.MarkSent. rewrite Hr. eexists. by split_and!. Qed.

Lemma MarkFailed_spec d id r e at_ :
  DeliveryStore.Records d !! id = Some r →
  ∃ r', DeliveryStore.Records (DeliveryStore.MarkFailed d id e at_).1 = <[id := r']> (DeliveryStore.Records d) ∧
    D.AttemptCount r' = int64_wrap (D.AttemptCount r + 1) ∧ (D.Status r' = DeliveryStatusPending ∨ D.Status r' = DeliveryStatusDead).
Proof.
  intros Hr. unfold DeliveryStore.MarkFailed. rewrite Hr. eexists. split; [done|].
  destruct (_ || _); cbn; auto.
Qed.

(** Acknowledging a pair only touches the delivery of that pair. *)
Lemma Ack_spec d id r at_ :
  DeliveryProofs.wf d → DeliveryStore.Records d !! id = Some r →
  DeliveryStore.Records (DeliveryStore.Ack d (D.InstallationID r) (D.EventID r) at_).1 =
    <[id := DeliveryStore.acknowledge at_ r]> (DeliveryStore.Records d).
Proof.
  intros ((_ & Hpair & _) & _) Hr. unfold DeliveryStore.Ack.
  assert (∀ d', DeliveryStore.Records (if negb (range_exists (DeliveryStore.samePair (D.InstallationID r) (D.EventID r))
      (DeliveryStore.Records d)) then (d', Some ErrRegistrationNotFound) else
      (d', DeliveryStore.persistLocked d')).1 = DeliveryStore.Records d') as Hfst by by intros d'; case_match.
  rewrite Hfst. clear Hfst. cbn. apply map_eq. intros k. rewrite range_update_lookup.
  destruct (decide (k = id)) as [->|Hne].
  - rewrite Hr, lookup_insert_eq. simpl. unfold DeliveryStore.samePair. by rewrite !bool_decide_true.
  - rewrite lookup_insert_ne by done. destruct (DeliveryStore.Records d !! k) as [r'|] eqn:Hk; [|done]. simpl.
    destruct (DeliveryStore.samePair _ _ k r') eqn:Hp; [|done]. destruct Hne.
    apply andb_prop in Hp as [H1%bool_decide_eq_true H2%bool_decide_eq_true]. by eapply Hpair.
Qed.

Lemma auditSend_frame s registration payload status detail :
  same_but_audit s (auditSend W s registration payload status detail).
Proof. apply auditRecord_frame. Qed.

(** A failure that is recorded. *)
Lemma markFailed_attempted s s0 registration r e :
  wf s → Records s !! D.ID r = Some r → deliveries s0 = deliveries s → sent s0 = sent s → ticks s0 = S (ticks s) →
  transport (hub s) registration r (ticks s) = Some e →
  (R.Provider registration == "embedded_socket") && (e == ErrRegistrationNotFound) = false →
  attempted s registration r (markFailed W s0 (D.ID r) e) false.
Proof.
  intros Hwf Hr Hd Hs Ht Hans Hkind. unfold markFailed, Now.
  destruct (MarkFailed_spec (deliveries s) (D.ID r) r e (clock W (ticks s0)) Hr) as (r' & Heq & Hfail).
  split; cbn; rewrite ?Hd.
  - by apply DeliveryProofs.markFailed_wf.
  - intros k Hk. rewrite Heq. by rewrite lookup_insert_ne.
  - by rewrite app_nil_r.
  - done.
  - exists (ticks s), r'. rewrite Hans, Heq, lookup_insert_eq, Ht. split_and!; [lia..|done|done|]. unfold after_failure. by rewrite Hkind.
Qed.

(** The outcome carries over to a later state that differs in the audit log. *)
Lemma attempted_frame s s1 s' registration r ok :
  same_but_audit s1 s' → (ticks s1 ≤ ticks s')%nat → attempted s registration r s1 ok → attempted s registration r s' ok.
Proof.
  intros (_ & Hd' & Hh' & Hs' & _) Ht [H1 H2 H3 H4 (n & r' & Hn & H5)].
  split; rewrite ?Hd', ?Hs', ?Hh'; [done..|]. exists n, r'. split; [lia|done].
Qed.

Lemma flushSocket_attempted s registration r s' ok :
  R.Provider registration = "embedded_socket" → wf s → Records s !! D.ID r = Some r →
  flushSocket W s (D.InstallationID r) r = (s', ok) → attempted s registration r s' ok.
Proof.
  intros Hprov Hwf Hr. unfold flushSocket, Now.
  assert ((PushSocket.Send (hub s) (D.InstallationID r) (sendJSON W (ticks s))).2 = transport (hub s) registration r (ticks s)) as Hans.
  { unfold transport, PushSocket.Send. rewrite bool_decide_true by done. destruct (PushSocket.connections (hub s) !! D.InstallationID r) as [id|]; [|done].
    by destruct (sendJSON W (ticks s) id). }
  assert ((PushSocket.Send (hub s) (D.InstallationID r) (sendJSON W (ticks s))).2 = None →
    (PushSocket.Send (hub s) (D.InstallationID r) (sendJSON W (ticks s))).1 = hub s) as Hhub.
  { unfold PushSocket.Send. destruct (PushSocket.connections (hub s) !! D.InstallationID r) as [id|]; [|done]. by destruct (sendJSON W (ticks s) id). }
  destruct (PushSocket.Send _ _ _) as [h err]. cbn [fst snd] in Hans, Hhub. symmetry in Hans. destruct err as [err|].
  - assert (err ≠ ErrRegistrationNotFound → attempted s registration r (markFailed W (tick (s <| hub := h |>)) (D.ID r) err) false) as Hfail.
    { intros Hne. apply markFailed_attempted; try done. by rewrite (bool_decide_false (err = _)), andb_false_r. }
    destruct err; intros [= <- <-]; try by apply Hfail.
    split; [exact Hwf|done|cbn; by rewrite app_nil_r|done|]. exists (ticks s), r. rewrite Hans. cbn. split_and!; [lia..|exact Hr|done|].
    unfold after_failure. by rewrite !bool_decide_true.
  - intros [= <- <-]. cbn [deliveries update eta eta_server tick].
    destruct (MarkSent_spec (deliveries s) (D.ID r) r (clock W (S (ticks s))) Hr) as (r' & Heq & Hst & Hat & _).
    split; cbn.
    + by apply DeliveryProofs.markSent_wf.
    + intros k Hk. rewrite Heq. by rewrite lookup_insert_ne.
    + done.
    + intros _. by apply Hhub.
    + exists (ticks s), r'. rewrite Hans, Heq, lookup_insert_eq. split_and!; [lia..|done|done|]. split; [|done].
      unfold accepted. by rewrite Hprov.
Qed.

Lemma auditSend_ticks s registration payload status detail : (ticks s ≤ ticks (auditSend W s registration payload status detail))%nat.
Proof. unfold auditSend, auditRecord. destruct (AuditStore.Append _ _ _ _). cbn. lia. Qed.

Lemma flushSender_attempted s registration r s' ok :
  R.Provider registration ≠ "embedded_socket" → R.InstallationID registration = D.InstallationID r →
  wf s → Records s !! D.ID r = Some r →
  flushSender W s (D.InstallationID r) registration r = (s', ok) → attempted s registration r s' ok.
Proof.
  intros Hprov Hinst Hwf Hr. unfold flushSender, Now.
  assert (transport (hub s) registration r (ticks s) =
    match sender W with None => Some (ErrMsg "push sender is not configured") | Some send => send (ticks s) registration (payloadOf r) end) as Hans
    by (unfold transport; by rewrite bool_decide_false).
  rewrite <- Hans. destruct (transport (hub s) registration r (ticks s)) as [err|] eqn:Htr; intros [= <- <-]; clear Hans.
  - eapply attempted_frame; [apply auditSend_frame|apply auditSend_ticks|]. apply markFailed_attempted; try done.
    by rewrite (bool_decide_false (R.Provider _ = _)).
  - eapply attempted_frame; [apply auditSend_frame|apply auditSend_ticks|]. cbn [deliveries update eta eta_server tick ticks].
    set (at_ := clock W (S (ticks s))).
    destruct (MarkSent_spec (deliveries s) (D.ID r) r at_ Hr) as (r' & Heq & Hst & Hat & Hi & He).
    pose proof (DeliveryProofs.markSent_wf (deliveries s) (D.ID r) at_ Hwf) as Hwf1.
    set (d1 := (DeliveryStore.MarkSent (deliveries s) (D.ID r) at_).1) in *.
    assert (DeliveryStore.Records d1 !! D.ID r = Some r') as Hr' by by rewrite Heq, lookup_insert_eq.
    pose proof (Ack_spec d1 (D.ID r) r' at_ Hwf1 Hr') as Hack. rewrite Hi, He in Hack.
    rewrite Hinst. split; cbn.
    + by apply DeliveryProofs.ack_wf.
    + intros k Hk. rewrite Hack, lookup_insert_ne, Heq by done. by rewrite lookup_insert_ne.
    + done.
    + done.
    + exists (ticks s), (DeliveryStore.acknowledge at_ r'). rewrite Htr, Hack, lookup_insert_eq. split_and!; [lia..|done|done|].
      unfold after_success, accepted. by rewrite bool_decide_false by done.
Qed.

Lemma flushOne_attempted s registration r s' ok :
  R.InstallationID registration = D.InstallationID r → wf s → Records s !! D.ID r = Some r →
  flushOne W s (D.InstallationID r) registration r = (s', ok) → attempted s registration r s' ok.
Proof.
  intros Hinst Hwf Hr. unfold flushOne. case_bool_decide.
  - by apply flushSocket_attempted.
  - by apply flushSender_attempted.
Qed.

(** The effect of a whole flush on a list of deliveries: those of [served]
    were offered and accepted, the first of [rest], if any, was offered and
    refused, nothing else changed. *)
Record flushed s registration (served rest : list D.t) s' : Prop := {
  fl_sent : sent s' = sent s ++ ((λ r, (D.InstallationID r, payloadOf r)) <$> served);
  fl_done : ∀ r, r ∈ served → ∃ n r', (ticks s ≤ n < ticks s')%nat ∧ transport (hub s) registration r n = None ∧
    Records s' !! D.ID r = Some r' ∧ after_success registration r r';
  fl_failed : ∀ r, head rest = Some r → ∃ n e r', (ticks s ≤ n < ticks s')%nat ∧ transport (hub s) registration r n = Some e ∧
    Records s' !! D.ID r = Some r' ∧ after_failure registration e r r';
  fl_other : ∀ k, k ∉ D.ID <$> served → (∀ r, head rest = Some r → k ≠ D.ID r) →
    Records s' !! k = Records s !! k
}.

Lemma flushLoop_flushed s registration installationID records :
  R.InstallationID registration = installationID → wf s → NoDup (D.ID <$> records) →
  Forall (λ r, D.InstallationID r = installationID ∧ Records s !! D.ID r = Some r) records →
  ∃ served rest, records = served ++ rest ∧
    flushed s registration served rest (flushLoop W s installationID registration records) ∧
    (ticks s ≤ ticks (flushLoop W s installationID registration records))%nat.
Proof.
  intros Hinst. revert s. induction records as [|r records IH]; intros s Hwf Hnd Hall; cbn [flushLoop].
  { exists [], []. split_and!; [done| |done]. split; [by rewrite app_nil_r|by intros ? ?%elem_of_nil|done|done]. }
  apply Forall_cons in Hall as [[Hri Hr] Hall]. rewrite fmap_cons, NoDup_cons in Hnd. destruct Hnd as [Hnin Hnd].
  destruct (flushOne _ _ _ _ _) as [s1 ok] eqn:Hone. rewrite <-Hri in Hone.
  apply flushOne_attempted in Hone as [H1 H2 H3 Hh (n & r' & Hn & Hr' & H4)]; [|congruence|done|done].
  assert (∀ x, x ∈ records → D.ID x ≠ D.ID r) as Hdiff.
  { intros x Hx Heq. apply Hnin. rewrite <-Heq. by apply list_elem_of_fmap_2. }
  destruct ok; cycle 1.
  { exists [], (r :: records). split_and!; [done| |lia]. split.
    - exact H3.
    - by intros ? ?%elem_of_nil.
    - intros x [= <-]. destruct (transport (hub s) registration r n) as [e|] eqn:Htr; destruct H4; [|done]. by exists n, e, r'.
    - intros k _ Hk. apply H2. by apply Hk. }
  destruct (transport (hub s) registration r n) as [e|] eqn:Htr; destruct H4 as [? H4]; [done|]. rewrite <- (Hh eq_refl) in Htr.
  destruct (IH s1) as (served & rest & -> & [F1 F2 F3 F4] & Hle); [done..| |].
  { apply Forall_forall. intros x Hx. rewrite H2 by by apply Hdiff. by eapply Forall_forall in Hall. }
  exists (r :: served), rest. split_and!; [by rewrite app_comm_cons| |lia].
  assert (Records (flushLoop W s1 installationID registration (served ++ rest)) !! D.ID r = Some r') as Hkeep.
  { rewrite F4, Hr'; [done| |].
    - intros (x & Heq & Hx)%list_elem_of_fmap. apply (Hdiff x); [by apply elem_of_app; left|done].
    - intros x Hx Heq. apply (Hdiff x); [|done]. apply elem_of_app. right. destruct rest; [done|].
      injection Hx as ->. by left. }
  split.
  - rewrite F1, H3, fmap_cons. by rewrite <-app_assoc.
  - rewrite <- (Hh eq_refl). intros x [->|Hx]%elem_of_cons; [exists n, r'; split_and!; done || lia|].
    destruct (F2 x Hx) as (n' & x' & ? & ?). exists n', x'. split; [lia|done].
  - rewrite <- (Hh eq_refl). intros x Hx. destruct (F3 x Hx) as (n' & e & x' & ? & ?). exists n', e, x'. split; [lia|done].
  - intros k. rewrite fmap_cons, not_elem_of_cons. intros [Hk1 Hk2] Hk3. rewrite F4 by done. by apply H2.
Qed.

(** A delivery is due for the installation: neither acknowledged nor dead,
    available and not expired. *)
Definition due installationID (now : time) r : Prop :=
  D.InstallationID r = installationID ∧ D.Status r ≠ "acked" ∧ D.Status r ≠ "dead" ∧ D.AvailableAt r ≤ now < D.ExpiresAt r.

(** Queued before the other; deliveries of the same instant go by identifier. *)
Definition older r r' : Prop :=
  D.CreatedAt r < D.CreatedAt r' ∨ D.CreatedAt r = D.CreatedAt r' ∧ String.ltb (D.ID r) (D.ID r') = true.

Lemma due_spec installationID now r : DeliveryStore.eligible installationID now r = true ↔ due installationID now r.
Proof.
  rewrite DeliveryProofs.eligible_spec. unfold due, DeliveryStore.completed, DeliveryStatusAcked, DeliveryStatusDead.
  rewrite orb_false_iff, !bool_decide_eq_false. tauto.
Qed.

Lemma older_spec r r' : lex_less D.CreatedAt D.ID r r' = true ↔ older r r'.
Proof.
  unfold lex_less, older, string_lt. destruct (Z.eqb_spec (D.CreatedAt r) (D.CreatedAt r')) as [Heq|Hne]; cbn [negb].
  - split; [by right|]. intros [?|[_ ?]]; [lia|done].
  - rewrite Z.ltb_lt. split; [by left|]. intros [?|[? _]]; [done|lia].
Qed.

(** C10.  A flush offers the deliveries that are due for the installation to
    its transport oldest first.  The ones considered are due, in the order of
    their creation, at most 100, and complete: a due delivery that is not
    among them is younger than all of 100.  From the oldest on each is offered
    to the transport during the flush, with its own event identifier, and all
    are, unless one is refused: the accepted ones are counted and marked (sent
    on a socket, acknowledged elsewhere), the refused one has an attempt more
    and waits again or is dead (or is left alone, when the device is not
    connected), and no other delivery changes. *)
Theorem flush_oldest_first s installationID registration :
  rtc DeliveryProofs.step DeliveryStore.newMemoryDeliveryStore (deliveries s) →
  Get (store s) installationID = Ok registration →
  R.InstallationID registration = installationID →
  let now := clock W (ticks s) in
  ∃ served rest,
    StronglySorted older (served ++ rest) ∧ (length (served ++ rest) ≤ 100)%nat ∧
    (∀ r, r ∈ served ++ rest → Records s !! D.ID r = Some r ∧ due installationID now r) ∧
    (∀ k r, Records s !! k = Some r → due installationID now r → r ∈ served ++ rest ∨
       length (served ++ rest) = 100%nat ∧ Forall (λ x, older x r) (served ++ rest)) ∧
    flushed s registration served rest (flushPending W s installationID).
Proof.
  intros Hwf%DeliveryProofs.reachable_wf Hget Hinst now. unfold flushPending, Now. rewrite Hget.
  set (l := DeliveryStore.PendingForInstallation (deliveries s) installationID 100 now).
  destruct (DeliveryProofs.oldest_spec D.ID D.CreatedAt
    (DeliveryStore.eligible installationID now) 100 (Records s)) as (Hs & Hin & Hlen & Hall);
    [by apply DeliveryProofs.records_keyed, Hwf|done|].
  change (DeliveryProofs.oldest _ _ _ _ _) with l in Hs, Hin, Hlen, Hall. change (DeliveryStore.PendingForInstallation (deliveries (tick s)) installationID 100
    (clock W (ticks s))) with l.
  destruct (flushLoop_flushed (tick s) registration installationID l) as (served & rest & Heq & [F1 F2 F3 F4] & Hle); [done|exact Hwf|..].
  - apply NoDup_fmap_2_strong.
    + intros x y Hx%Hin Hy%Hin Hid. destruct Hx as [Hx _], Hy as [Hy _]. congruence.
    + by apply (strict_NoDup (lex_less D.CreatedAt D.ID)).
  - apply Forall_forall. intros r [Hr He]%Hin. split; [|exact Hr]. by apply due_spec in He as [? _].
  - exists served, rest. rewrite <- Heq. split_and!.
    + eapply StronglySorted_weaken; [|exact Hs]. intros x y. by apply older_spec.
    + lia.
    + intros r [? ?%due_spec]%Hin. done.
    + intros k r Hr He%due_spec. destruct (Hall k r Hr He) as [?|[? Hf]]; [by left|]. right. split; [lia|].
      eapply Forall_impl; [exact Hf|]. intros x. by apply older_spec.
    + split; [done| | |done].
      * intros r Hr. destruct (F2 r Hr) as (n & r' & ? & ?). exists n, r'. cbn in *. split; [lia|done].
      * intros r Hr. destruct (F3 r Hr) as (n & e & r' & ? & ?). exists n, e, r'. cbn in *. split; [lia|done].
Qed.
End Flush.
(** ** A concrete run *)

Import ServerProofs.Example.

Definition example_server : server RegistrationStore.t :=
  (New Config.zero (RegistrationStore.Upsert RegistrationStore.OpenStore
    (Registration.zero <| R.InstallationID := "phone" |> <| R.DeviceSecret := "s" |>
       <| R.Provider := "fcm" |>)).1)
  <| deliveries := DeliveryProofs.example_store |>.
Definition example_phone : R.t :=
  Registration.zero <| R.InstallationID := "phone" |> <| R.Provider := "fcm" |>.

Lemma flush_oldest_first_witness :
  sent (flushPending WebhookExample.world example_server "phone") =
    [("phone", payloadOf DeliveryProofs.example_delivery)] ∧
  ∃ served rest, StronglySorted older (served ++ rest) ∧
    flushed WebhookExample.world example_server example_phone served rest
      (flushPending WebhookExample.world example_server "phone").
Proof.
  split; [vm_compute; reflexivity|].
  destruct (flush_oldest_first WebhookExample.world example_server "phone" example_phone
    DeliveryProofs.example_store_reachable) as (served & rest & Hs & _ & _ & _ & Hf); [vm_compute; reflexivity|reflexivity|].
  exists served, rest. split; [exact Hs|exact Hf].
Defined.

End FlushProofs.
