(* ===== verification/UserChat.v ===== *)
(** * User chat connections: [internal/application/user_chat_eventsub.go]

    Chat messages of a channel are read over a personal EventSub WebSocket of
    one of the users who watch it.  The manager spreads the watched channels
    over the users, keeps one session per user that was given channels, and
    each session connects, subscribes and enqueues what it hears, for as long
    as it is wanted.  The other end of the sockets, the order in which the
    workers that create subscriptions get through, and the store of
    credentials are the record [Peer]. *)

From stdpp Require Import pretty.
From S2P Require Import Prelude GoStrings GoUnicode NetIP Config Credentials Domain RegistrationStore DeliveryStore AuthStore EventSub.
From S2P Require Import Subscriptions RegistrationInput OAuth Repositories Server Dispatch.

Module UserChat.
Export Config.
Module R := Registration.
Module E := EventSubEnvelope.
Module Sub := Subscription.
Module I := EventSubInboxRecord.
Module A := AuditRecord.
Module C := AuthCredential.
Module Http := Subscriptions.

Definition defaultUserChatEventSubURL : string := "wss://eventsub.wss.twitch.tv/ws".
Definition maxUserChatChannels : Z := 100.
Definition maxUserChatMessageBytes : Z := Z.shiftl 1 20.

(** ** Assigning channels to users *)

Section Assignment.
Context {rt : GoRuntime} {sha : Sha256}.

(** The users who watch each channel: a map of sets. *)
Abbreviation watched := (gmap string (gmap string ())).

Definition chatRules : list string := ["mention"; "reply"; "highlight"; "selected_user"].

Definition watchChannel (registration : R.t) (userID : string) (watchers : watched) (rawChannelID : string) : watched :=
  let channelID := TrimSpace rawChannelID in
  if (channelID == "") || negb (Subscriptions.anyRuleForChannel registration channelID chatRules) then watchers else
  <[channelID := <[userID := ()]> (default ∅ (watchers !! channelID))]> watchers.

Definition watchRegistration (watchers : watched) (registration : R.t) : watched :=
  let userID := TrimSpace (R.UserID registration) in
  if userID == "" then watchers else
  foldl (watchChannel registration userID) watchers (R.ChannelIDs registration).

Definition watchersOf (registrations : list R.t) : watched := foldl watchRegistration ∅ registrations.

(** [len(assigned[userID])]. *)
Definition load (assigned : gmap string (list string)) (userID : string) : Z :=
  Z.of_nat (length (default [] (assigned !! userID))).

(** The first candidate with room gets the channel. *)
Fixpoint place (assigned : gmap string (list string)) (channelID : string) (candidates : list string)
    : gmap string (list string) :=
  match candidates with
  | [] => assigned
  | userID :: candidates =>
      if maxUserChatChannels <=? load assigned userID then place assigned channelID candidates else
      <[userID := default [] (assigned !! userID) ++ [channelID]]> assigned
  end.

Definition assignChannel (watchers : watched) (assigned : gmap string (list string)) (channelID : string)
    : gmap string (list string) :=
  place assigned channelID
    (sortSlice (lex_less (load assigned) id) (rangeMap (default ∅ (watchers !! channelID))).*1).

(** [sort.Slice] by the number of watchers, then by name. *)
Definition channelOrder (watchers : watched) : list string :=
  sortSlice (lex_less (λ channelID, mlen (default ∅ (watchers !! channelID))) id) (rangeMap watchers).*1.

Definition assignUserChatChannels (registrations : list R.t) : gmap string (list string) :=
  let watchers := watchersOf registrations in
  sortSlice string_lt <$> foldl (assignChannel watchers) ∅ (channelOrder watchers).

Definition userChatSessionSignature (channels : list string) : string :=
  Server.hexEncode (sha256 (Join channels (String Ascii.zero ""))).
End Assignment.

(** ** The manager *)

(** A session of the map: its signature, and the context [cancel] ends. *)
Record userChatSession := mkSession { signature : string; context : nat }.

(** [contexts] counts the contexts made so far, [cancelled] are those that
    were cancelled, and [launched] the goroutines started, by context, with
    the user and the channels each was started for. *)
Record userChatEventSubManager := mkManager {
  sessions : gmap string userChatSession;
  contexts : nat;
  cancelled : gset nat;
  launched : gmap nat (string * list string)
}.
#[global] Instance eta_userChatEventSubManager : Eta userChatEventSubManager := λ m,
  mkManager (sessions m) (contexts m) (cancelled m) (launched m).

Definition newUserChatEventSubManager : userChatEventSubManager := mkManager ∅ 0 ∅ ∅.

Section Manager.
Context {rt : GoRuntime} {sha : Sha256}.
Implicit Types (m : userChatEventSubManager).

(** [session.cancel()]. *)
Definition cancel m (session : userChatSession) : userChatEventSubManager :=
  m <| cancelled := {[context session]} ∪ cancelled m |>.

(** With a store of credentials that can look up a user's. *)
Definition enabled (cfg : Config) (provides : bool) : bool :=
  OAuth.AuthEnabled cfg && provides && (TrimSpace (TwitchClientID cfg) != "") &&
  (TrimSpace (TwitchHelixBaseURL cfg) != "").

Definition stopAll m : userChatEventSubManager * Z :=
  let stopped := mlen (sessions m) in
  (foldl (λ m '(userID, session), (cancel m session) <| sessions := delete userID (sessions m) |>) m (rangeMap (sessions m)),
   stopped).

(** The loop over the sessions there are: one that is wanted as it is stays,
    and is no longer to be started. *)
Definition sweepOne (acc : userChatEventSubManager * gmap string (list string) * Z) (entry : string * userChatSession)
    : userChatEventSubManager * gmap string (list string) * Z :=
  let '(m, desired, stopped) := acc in
  let '(userID, session) := entry in
  if match desired !! userID with
     | Some channels => signature session == userChatSessionSignature channels
     | None => false
     end
  then (m, delete userID desired, stopped)
  else ((cancel m session) <| sessions := delete userID (sessions m) |>, desired, stopped + 1).

(** The loop over what is to be started. *)
Definition startOne (acc : userChatEventSubManager * Z) (entry : string * list string) : userChatEventSubManager * Z :=
  let '(m, started) := acc in
  let '(userID, channels) := entry in
  match channels with
  | [] => acc
  | _ =>
      (m <| sessions := <[userID := mkSession (userChatSessionSignature channels) (contexts m)]> (sessions m) |>
         <| launched := <[contexts m := (userID, channels)]> (launched m) |>
         <| contexts := S (contexts m) |>, started + 1)
  end.

(** The numbers of sessions started and stopped. *)
Definition reconcile (cfg : Config) (provides : bool) (registrations : list R.t) m : userChatEventSubManager * (Z * Z) :=
  if negb (enabled cfg provides) then let '(m, stopped) := stopAll m in (m, (0, stopped)) else
  let desired := assignUserChatChannels registrations in
  let '(m, desired, stopped) := foldl sweepOne (m, desired, 0) (rangeMap (sessions m)) in
  let '(m, started) := foldl startOne (m, 0) (rangeMap desired) in
  (m, (started, stopped)).

(** [RunUserChatEventSub]: the reconciliations at start-up and at every tick,
    with the registrations each of them read, and the deferred [stopAll]. *)
Definition passes (cfg : Config) (provides : bool) (history : list (list R.t)) : userChatEventSubManager :=
  foldl (λ m registrations, (reconcile cfg provides registrations m).1) newUserChatEventSubManager history.
Definition RunUserChatEventSub (cfg : Config) (provides : bool) (history : list (list R.t)) : userChatEventSubManager * Z :=
  if negb (enabled cfg provides) then (newUserChatEventSubManager, 0) else stopAll (passes cfg provides history).
End Manager.

(** ** Messages *)

Record userChatWebSocketMessage := mkMessage {
  MetadataMessageID : string;
  MessageType : string;
  SubscriptionType : string;
  SubscriptionVersion : string;
  SessionID : string;
  ReconnectURL : string;
  KeepaliveTimeoutSeconds : Z;
  Subscription_ : Sub.t;
  Event : EventSub.object
}.

(** A failed connection: an error that [errors.Is] recognizes as
    [errUserChatUnauthorized], or another. *)
Inductive failure := errUserChatUnauthorized | Failure (err : error).

(** What [serveConnection] ends with: an error is the list of those that were
    joined, none of them when there is no error. *)
Abbreviation failures := (list failure).
Definition errorsNew (message : string) : failures := [Failure (ErrMsg message)].
Definition isUnauthorized (e : failures) : bool :=
  existsb (λ f, match f with errUserChatUnauthorized => true | Failure _ => false end) e.

(** What [websocket.DialConfig] leads to: frames, and the error the reading
    ends with (the end of the stream, a deadline, a closed connection). *)
Record connection := mkConnection { frames : list string; ending : error }.

Record Peer := mkPeer {
  (** [userChatCredentialProvider], if the store of credentials is one *)
  CredentialForUser : option (nat → string → result C.t);
  (** the error of [websocket.NewConfig] *)
  newConfig : string → option error;
  (** [websocket.DialConfig] *)
  dial : nat → string → result connection;
  (** [json.Unmarshal] of a frame *)
  decodeFrame : string → result userChatWebSocketMessage;
  (** the order in which the workers' requests are made *)
  workers : nat → list string → list string;
  workers_perm : ∀ n l, workers n l ≡ₚ l;
  (** [ctx.Err() != nil], and whether the context ended a wait *)
  ended : nat → bool
}.

Section Sessions.
Context {RS : Type} `{!RegistrationRepository RS}.
Context {rt : GoRuntime} {sha : Sha256} {uni : Unicode} {tables : RuneTables} (W : Server.World) (P : Peer).
Import Server Dispatch.
Implicit Types (s : server RS).

Definition validateUserChatReconnectURL (raw : string) : option error :=
  let invalid := Some (ErrMsg "invalid Twitch EventSub reconnect URL") in
  match parseURL W raw with
  | None => invalid
  | Some parsed =>
      if (NetURL.Scheme parsed != "wss") || (NetURL.Hostname parsed != "eventsub.wss.twitch.tv") ||
         NetURL.HasUser parsed || (NetURL.Fragment parsed != "") ||
         ((NetURL.Port parsed != "") && (NetURL.Port parsed != "443"))
      then invalid else None
  end.

Definition nextUserChatBackoff (current : duration) : duration :=
  let current := int64_wrap (current * 2) in
  if Minute <? current then Minute else current.

Definition waitUserChatRetry s : server RS * bool := (tick s, negb (ended P (ticks s))).

(** ** Subscribing *)

Definition createChatSubscription s (accessToken userID sessionID channelID : string) : server RS * failures :=
  let body := Http.mkChatRequest "channel.chat.message" "1"
    (<["broadcaster_user_id" := channelID]> {["user_id" := userID]}) "websocket" sessionID in
  let endpoint := TrimSuffix (TwitchHelixBaseURL (cfg W)) "/" +:+ "/eventsub/subscriptions" in
  let request := Http.mkRequest "POST" endpoint [] ("Bearer " +:+ accessToken) (TwitchClientID (cfg W)) (Http.JSONChat body) in
  let failed := "create user chat EventSub subscription for " +:+ channelID in
  (tick s,
   match twitch W (ticks s) request with
   | Err err => errorsNew (failed +:+ ": " +:+ Error err)
   | Ok response =>
       let payload := Http.limited (Z.shiftl 1 20) (Http.Payload response) in
       if Http.StatusCode response =? 401 then [errUserChatUnauthorized] else
       if Http.StatusCode response =? 409 then [] else
       if (Http.StatusCode response <? 200) || (299 <? Http.StatusCode response)
       then errorsNew (failed +:+ " HTTP " +:+ pretty (Http.StatusCode response) +:+ ": " +:+ TrimSpace payload)
       else []
   end).

Fixpoint createAll s (accessToken userID sessionID : string) (channels : list string) : server RS * failures :=
  match channels with
  | [] => (s, [])
  | channelID :: channels =>
      let '(s, failed) := createChatSubscription s accessToken userID sessionID channelID in
      let '(s, rest) := createAll s accessToken userID sessionID channels in
      (s, failed ++ rest)
  end.

(** The first on its own, the others by the workers. *)
Definition createChatSubscriptions s (accessToken userID sessionID : string) (channels : list string) : server RS * failures :=
  match channels with
  | [] => (s, [])
  | first :: rest =>
      match createChatSubscription s accessToken userID sessionID first with
      | (s, []) => createAll s accessToken userID sessionID (workers P (ticks s) rest)
      | refused => refused
      end
  end.

(** ** Receiving *)

Definition userChatEnvelope (message : userChatWebSocketMessage) : E.t :=
  let subscription := Subscription_ message in
  E.mk "" (Sub.mk (Sub.ID subscription)
    (EventSub.firstNonBlank [Sub.Type_ subscription; SubscriptionType message])
    (EventSub.firstNonBlank [Sub.Version subscription; SubscriptionVersion message])
    (Sub.Status subscription) (Sub.Condition subscription)) (Event message).

(** The identifier a message is stored under. *)
Definition userChatMessageID (message : userChatWebSocketMessage) : string :=
  let messageID := TrimSpace (EventSub.stringValue (Event message) "message_id") in
  if messageID != "" then "chat:" +:+ messageID else "ws:" +:+ TrimSpace (MetadataMessageID message).

Definition enqueueUserChatEvent s (message : userChatWebSocketMessage) : server RS * option error :=
  let envelope := userChatEnvelope message in
  let messageID := userChatMessageID message in
  if messageID == "ws:" then (s, Some (ErrMsg "user chat EventSub message ID is missing")) else
  let '(s, now) := Now W s in
  let '(d, (record, created, err)) := DeliveryStore.EnqueueEventSub (deliveries s) messageID envelope now in
  let s := s <| deliveries := d |> in
  match err with
  | Some err => (s, Some (ErrMsg ("persist user chat EventSub event: " +:+ Error err)))
  | None =>
      let s :=
        if created then auditRecord W s (A.zero <| A.Action := "eventsub.websocket.enqueue" |> <| A.Status := "persisted" |>
          <| A.EventID := messageID |> <| A.ChannelID := EventSub.stringValue (Event message) "broadcaster_user_id" |>
          <| A.Detail := Sub.Type_ (E.Subscription_ envelope) |>)
        else s in
      let s :=
        if (I.MessageID record != "") && (I.Status record == EventSubInboxStatusPending)
        then (scheduleEventSub s record).1 else s in
      (s, None)
  end.

(** The loop of [serveConnection] over the frames: the URL to reconnect to,
    or the error. *)
Fixpoint receiveLoop s (credential : C.t) (userID : string) (channels : list string) (resubscribe welcomed : bool)
    (end_ : error) (raws : list string) : server RS * (string * failures) :=
  match raws with
  | [] => (s, ("", [Failure end_]))
  | raw :: raws =>
      if (len raw =? 0) || (maxUserChatMessageBytes <? len raw)
      then (s, ("", errorsNew "invalid user chat EventSub frame size")) else
      match decodeFrame P raw with
      | Err err => (s, ("", errorsNew ("decode user chat EventSub frame: " +:+ Error err)))
      | Ok message =>
          if MessageType message == "session_welcome" then
            if welcomed || (TrimSpace (SessionID message) == "")
            then (s, ("", errorsNew "invalid user chat EventSub welcome")) else
            let '(s, refused) :=
              if resubscribe
              then createChatSubscriptions s (C.AccessToken credential) userID (SessionID message) channels
              else (s, []) in
            match refused with
            | [] => receiveLoop s credential userID channels resubscribe true end_ raws
            | _ => (s, ("", refused))
            end
          else if MessageType message == "session_keepalive" then
            if negb welcomed then (s, ("", errorsNew "user chat EventSub keepalive before welcome"))
            else receiveLoop s credential userID channels resubscribe welcomed end_ raws
          else if MessageType message == "session_reconnect" then
            let reconnectURL := TrimSpace (ReconnectURL message) in
            if reconnectURL == "" then (s, ("", errorsNew "user chat EventSub reconnect URL is missing")) else
            match validateUserChatReconnectURL reconnectURL with
            | Some err => (s, ("", [Failure err]))
            | None => (s, (reconnectURL, []))
            end
          else if MessageType message == "notification" then
            if negb welcomed || (SubscriptionType message != "channel.chat.message")
            then receiveLoop s credential userID channels resubscribe welcomed end_ raws else
            receiveLoop (enqueueUserChatEvent s message).1 credential userID channels resubscribe welcomed end_ raws
          else if MessageType message == "revocation" then
            (s, ("", errorsNew ("user chat EventSub subscription revoked: " +:+ Sub.Status (Subscription_ message))))
          else receiveLoop s credential userID channels resubscribe welcomed end_ raws
      end
  end.

Definition serveConnection s (endpoint : string) (credential : C.t) (userID : string) (channels : list string)
    (resubscribe : bool) : server RS * (string * failures) :=
  match newConfig P endpoint with
  | Some err => (s, ("", errorsNew ("create user chat WebSocket config: " +:+ Error err)))
  | None =>
      let answer := dial P (ticks s) endpoint in
      let s := tick s in
      match answer with
      | Err err => (s, ("", errorsNew ("dial user chat EventSub: " +:+ Error err)))
      | Ok opened => receiveLoop s credential userID channels resubscribe false (ending opened) (frames opened)
      end
  end.

(** ** A session *)

(** The variables of the loop of [runSession]. *)
Record loop := mkLoop { endpoint : string; resubscribe : bool; backoff : duration }.

Definition firstTurn : loop := mkLoop defaultUserChatEventSubURL true Second.

(** The credential of the user, leased. *)
Definition sessionCredential s (provider : nat → string → result C.t) (userID : string) : server RS * result C.t :=
  match provider (ticks s) userID with
  | Err err => (tick s, Err err)
  | Ok credential => oauthCall (tick s) (OAuth.lease (oauthEnv W) (C.ID credential) false)
  end.

(** Waiting before the next turn, or returning when the context ends. *)
Definition retryLater s (l : loop) : server RS * option loop :=
  let '(s, again) := waitUserChatRetry s in
  (s, if (again : bool) then Some (mkLoop (endpoint l) (resubscribe l) (nextUserChatBackoff (backoff l))) else None).

(** One turn of the loop: its next variables, unless the session is over. *)
Definition sessionTurn s (provider : nat → string → result C.t) (userID : string) (channels : list string) (l : loop)
    : server RS * option loop :=
  if ended P (ticks s) then (tick s, None) else
  let '(s, answer) := sessionCredential (tick s) provider userID in
  match answer with
  | Err _ => retryLater s l
  | Ok credential =>
      let '(s, (reconnectURL, serveErr)) := serveConnection s (endpoint l) credential userID channels (resubscribe l) in
      if ended P (ticks s) then (tick s, None) else
      let s := tick s in
      if reconnectURL != "" then (s, Some (mkLoop reconnectURL false Second)) else
      let s := if isUnauthorized serveErr then (oauthCall s (OAuth.lease (oauthEnv W) (C.ID credential) true)).1 else s in
      retryLater s (mkLoop defaultUserChatEventSubURL true (backoff l))
  end.

(** [runSession] as far as the given number of turns. *)
Fixpoint runTurns (turns : nat) s (provider : nat → string → result C.t) (userID : string) (channels : list string)
    (l : loop) : server RS * option loop :=
  match turns with
  | O => (s, Some l)
  | S turns =>
      match sessionTurn s provider userID channels l with
      | (s, Some l) => runTurns turns s provider userID channels l
      | (s, None) => (s, None)
      end
  end.

Definition runSession (turns : nat) s (userID : string) (channels : list string) : server RS * option loop :=
  match CredentialForUser P with
  | Some provider => runTurns turns s provider userID channels firstTurn
  | None => (s, None)
  end.
End Sessions.
End UserChat.
