(* ===== verification/UserChatProofs.v ===== *)
(** * User chat connections: the assignment of channels and the manager

    How the watched channels are spread over the users, and that the sessions
    the manager keeps are the ones that are wanted. *)

From S2P Require Import Prelude GoStrings GoUnicode NetIP Config Credentials Domain EventSub Subscriptions OAuth Server Dispatch UserChat.

Module UserChatProofs.
Import UserChat.

Section Assignment.
Implicit Types (w : gmap string (gmap string ())) (assigned : gmap string (list string)).

(** The user watches the channel. *)
Definition isWatcher w (c u : string) : Prop := default ∅ (w !! c) !! u = Some ().

(** Some device of the user follows the channel with a rule that needs its
    chat. *)
Definition watches (registrations : list R.t) (c u : string) : Prop :=
  c ≠ "" ∧ u ≠ "" ∧ ∃ r, r ∈ registrations ∧ TrimSpace (R.UserID r) = u ∧ (∃ raw, raw ∈ R.ChannelIDs r ∧ TrimSpace raw = c) ∧
    Subscriptions.anyRuleForChannel r c chatRules = true.

(** ** The watchers *)

Lemma isWatcher_insert w c u c' u' :
  isWatcher (<[c := <[u := ()]> (default ∅ (w !! c))]> w) c' u' ↔ (c' = c ∧ u' = u) ∨ isWatcher w c' u'.
Proof.
  unfold isWatcher. destruct (decide (c = c')) as [<-|Hc].
  - rewrite lookup_insert_eq. cbn. destruct (decide (u = u')) as [<-|Hu]; [rewrite lookup_insert_eq|rewrite lookup_insert_ne by done].
    + naive_solver.
    + naive_solver.
  - rewrite lookup_insert_ne by done. naive_solver.
Qed.

Lemma trimmed_cons raw channels c :
  (∃ x, x ∈ raw :: channels ∧ TrimSpace x = c) ↔ c = TrimSpace raw ∨ ∃ x, x ∈ channels ∧ TrimSpace x = c.
Proof.
  split.
  - intros (x & [->|Hx]%elem_of_cons & <-); [by left|]. right. by exists x.
  - intros [->|(x & Hx & <-)]; [exists raw|exists x]; (split; [|done]); [by left|by right].
Qed.

Lemma watchChannels_spec r u channels w c' u' :
  isWatcher (foldl (watchChannel r u) w channels) c' u' ↔
  isWatcher w c' u' ∨ (u' = u ∧ c' ≠ "" ∧ Subscriptions.anyRuleForChannel r c' chatRules = true ∧
                       ∃ raw, raw ∈ channels ∧ TrimSpace raw = c').
Proof.
  revert w. induction channels as [|raw channels IH]; intros w; cbn [foldl].
  { split; [by left|]. intros [?|(_ & _ & _ & raw & Hin & _)]; [done|by apply elem_of_nil in Hin]. }
  rewrite IH, trimmed_cons. unfold watchChannel. cbv zeta. generalize (TrimSpace raw). clear raw. intros c.
  generalize (∃ x, x ∈ channels ∧ TrimSpace x = c'). intros Q.
  destruct (bool_decide_reflect (c = "")) as [->|Hne]; cbn [orb]; [naive_solver|].
  destruct (Subscriptions.anyRuleForChannel r c chatRules) eqn:Hr; cbn [negb]; [rewrite isWatcher_insert|]; clear IH;
    (destruct (decide (c' = c)) as [->|Hc]; [|tauto]); intuition congruence.
Qed.

Lemma watchRegistration_spec w r c u :
  isWatcher (watchRegistration w r) c u ↔ isWatcher w c u ∨ watches [r] c u.
Proof.
  assert (watches [r] c u ↔ c ≠ "" ∧ u ≠ "" ∧ TrimSpace (R.UserID r) = u ∧
    (∃ raw, raw ∈ R.ChannelIDs r ∧ TrimSpace raw = c) ∧ Subscriptions.anyRuleForChannel r c chatRules = true) as ->.
  { unfold watches. split.
    - by intros (? & ? & r' & ->%list_elem_of_singleton & ? & ? & ?).
    - intros (? & ? & ? & ? & ?). split_and!; [done..|]. exists r. by rewrite list_elem_of_singleton. }
  unfold watchRegistration. cbv zeta. generalize (TrimSpace (R.UserID r)). intros u'.
  case_bool_decide as Hu'; [naive_solver|]. rewrite watchChannels_spec.
  generalize (∃ raw, raw ∈ R.ChannelIDs r ∧ TrimSpace raw = c). naive_solver.
Qed.

Lemma watches_cons r registrations c u : watches (r :: registrations) c u ↔ watches [r] c u ∨ watches registrations c u.
Proof. unfold watches. setoid_rewrite elem_of_cons. setoid_rewrite elem_of_nil. naive_solver. Qed.

Lemma watchersOf_spec registrations c u : isWatcher (watchersOf registrations) c u ↔ watches registrations c u.
Proof.
  assert (∀ w, isWatcher (foldl watchRegistration w registrations) c u ↔ isWatcher w c u ∨ watches registrations c u) as H.
  { induction registrations as [|r l IH]; intros w; cbn [foldl].
    - split; [by left|]. intros [?|(_ & _ & r & Hr & _)]; [done|by apply elem_of_nil in Hr].
    - rewrite IH, watchRegistration_spec, (watches_cons r l). tauto. }
  unfold watchersOf. rewrite H. split; [|by right]. intros [Hno|?]; [|done].
  unfold isWatcher in Hno. rewrite lookup_empty in Hno. cbn in Hno. by rewrite lookup_empty in Hno.
Qed.

(** Every channel of the map has a watcher. *)
Definition inhabited w : Prop := map_Forall (λ _ us, us ≠ ∅) w.

Lemma watchersOf_inhabited registrations : inhabited (watchersOf registrations).
Proof.
  assert (∀ w, inhabited w → inhabited (foldl watchRegistration w registrations)) as H; [|by apply H, map_Forall_empty].
  induction registrations as [|r l IH]; intros w Hw; cbn [foldl]; [done|]. apply IH. unfold watchRegistration. cbv zeta.
  case_match; [done|]. clear -Hw. generalize (TrimSpace (R.UserID r)). intros u. revert w Hw.
  induction (R.ChannelIDs r) as [|raw channels IH]; intros w Hw; cbn [foldl]; [done|]. apply IH. unfold watchChannel. cbv zeta.
  case_match; [done|]. apply map_Forall_insert_2; [apply insert_non_empty|done].
Qed.

(** The watchers are determined by who watches what. *)
Lemma watchers_ext w w' : inhabited w → inhabited w' → (∀ c u, isWatcher w c u ↔ isWatcher w' c u) → w = w'.
Proof.
  intros Hi Hi' Heq.
  assert (∀ c, default ∅ (w !! c) = default ∅ (w' !! c)) as Hd.
  { intros c. apply map_eq. intros u. specialize (Heq c u). unfold isWatcher in Heq.
    destruct (default ∅ (w !! c) !! u) as [[]|], (default ∅ (w' !! c) !! u) as [[]|]; naive_solver. }
  apply map_eq. intros c. specialize (Hd c).
  destruct (w !! c) as [x|] eqn:Hx, (w' !! c) as [y|] eqn:Hy; cbn in Hd; [by subst|..|done].
  - by destruct (Hi c x Hx).
  - by destruct (Hi' c y Hy).
Qed.

Lemma watchersOf_ext registrations registrations' :
  (∀ r, r ∈ registrations ↔ r ∈ registrations') → watchersOf registrations = watchersOf registrations'.
Proof.
  intros Heq. apply watchers_ext; [apply watchersOf_inhabited..|]. intros c u. rewrite !watchersOf_spec. unfold watches.
  by setoid_rewrite Heq.
Qed.

(** ** The greedy assignment *)

(** [c] is among the channels of [u]. *)
Definition given assigned (u c : string) : Prop := ∃ l, assigned !! u = Some l ∧ c ∈ l.

Record greedy w (handled : list string) assigned : Prop := {
  g_room : map_Forall (λ _ l, l ≠ [] ∧ Z.of_nat (length l) ≤ maxUserChatChannels ∧ NoDup l) assigned;
  g_watched : ∀ u c, given assigned u c → c ∈ handled ∧ isWatcher w c u;
  g_once : ∀ u u' c, given assigned u c → given assigned u' c → u = u';
  g_left : ∀ c, c ∈ handled → (∃ u, given assigned u c) ∨ ∀ u, isWatcher w c u → load assigned u = maxUserChatChannels
}.

Lemma place_spec assigned c candidates :
  (place assigned c candidates = assigned ∧ ∀ u, u ∈ candidates → maxUserChatChannels ≤ load assigned u) ∨
  ∃ u, u ∈ candidates ∧ load assigned u < maxUserChatChannels ∧
    place assigned c candidates = <[u := default [] (assigned !! u) ++ [c]]> assigned.
Proof.
  induction candidates as [|u candidates IH]; cbn [place].
  { left. split; [done|]. by intros u ?%elem_of_nil. }
  destruct (Z.leb_spec maxUserChatChannels (load assigned u)).
  - destruct IH as [[-> Hall]|(u' & ? & ? & ->)].
    + left. split; [done|]. intros u' [->|?]%elem_of_cons; [done|by apply Hall].
    + right. exists u'. split_and!; [by right|done|done].
  - right. exists u. split_and!; [by left|done|done].
Qed.

Lemma given_insert assigned u c u' c' :
  given (<[u := default [] (assigned !! u) ++ [c]]> assigned) u' c' ↔ (u' = u ∧ c' = c) ∨ given assigned u' c'.
Proof.
  unfold given. destruct (decide (u = u')) as [<-|Hne].
  - rewrite lookup_insert_eq. split.
    + intros (l & [= <-] & [Hin| ->%list_elem_of_singleton]%elem_of_app); [|by left]. right.
      destruct (assigned !! u) as [l|]; [by exists l|by apply elem_of_nil in Hin].
    + intros [[_ ->]|(l & -> & Hin)]; eexists; (split; [done|]); apply elem_of_app; [right; by left|by left].
  - rewrite lookup_insert_ne by done. split; [by right|]. by intros [[-> _]|?].
Qed.

Lemma load_insert assigned u c u' :
  load (<[u := default [] (assigned !! u) ++ [c]]> assigned) u' = load assigned u' + (if decide (u' = u) then 1 else 0).
Proof.
  unfold load. destruct (decide (u' = u)) as [->|Hne].
  - rewrite lookup_insert_eq. cbn. rewrite length_app. cbn. lia.
  - rewrite lookup_insert_ne by done. lia.
Qed.

Lemma greedy_load w handled assigned u : greedy w handled assigned → load assigned u ≤ maxUserChatChannels.
Proof.
  intros Hg. unfold load. destruct (assigned !! u) as [l|] eqn:Hl; cbn; [|done]. by destruct (g_room _ _ _ Hg u l Hl) as (_ & ? & _).
Qed.

Lemma greedy_step {rt : GoRuntime} w handled assigned c :
  c ∉ handled → greedy w handled assigned → greedy w (handled ++ [c]) (assignChannel w assigned c).
Proof.
  intros Hfresh Hg. pose proof (λ u, greedy_load w handled assigned u Hg) as Hload. destruct Hg as [H1 H2 H3 H4].
  assert (∀ u, u ∈ sortSlice (lex_less (load assigned) id) (rangeMap (default ∅ (w !! c))).*1 ↔ isWatcher w c u) as Hcand.
  { intros u. rewrite sortSlice_perm, list_elem_of_fmap. unfold isWatcher. split.
    - intros ([k []] & -> & Hin). by apply elem_of_rangeMap in Hin.
    - intros Hu. exists (u, ()). by rewrite elem_of_rangeMap. }
  unfold assignChannel. destruct (place_spec assigned c (sortSlice (lex_less (load assigned) id) (rangeMap (default ∅ (w !! c))).*1))
    as [[-> Hfull]|(u & Hu & Hroom & ->)].
  - split; [done| |done|].
    + intros u c' Hgiven. destruct (H2 u c' Hgiven). split; [apply elem_of_app; by left|done].
    + intros c' [Hc'| ->%list_elem_of_singleton]%elem_of_app; [by apply H4|]. right. intros u Hu.
      apply Hcand, Hfull in Hu. specialize (Hload u). lia.
  - apply Hcand in Hu. assert (∀ u', ¬ given assigned u' c) as Hnew by (intros u' Hno; by apply Hfresh; apply (H2 u' c Hno)).
    split.
    + apply map_Forall_insert_2; [|done]. split_and!.
      * by destruct (default [] (assigned !! u)).
      * unfold load in Hroom. rewrite length_app. cbn. lia.
      * apply NoDup_app. split_and!; [|by intros x Hx ->%list_elem_of_singleton; apply (Hnew u);
          destruct (assigned !! u) as [l|] eqn:Hl; [by exists l|by apply elem_of_nil in Hx]|by apply NoDup_singleton].
        destruct (assigned !! u) as [l|] eqn:Hl; [by destruct (H1 u l Hl) as (_ & _ & ?)|apply NoDup_nil_2].
    + intros u' c' [[-> ->]|Hgiven]%given_insert; [split; [apply elem_of_app; right; by left|done]|].
      destruct (H2 u' c' Hgiven). split; [apply elem_of_app; by left|done].
    + intros u1 u2 c' [[-> ->]|G1]%given_insert [[-> E]|G2]%given_insert; try subst; try done; [by destruct (Hnew u2)|by destruct (Hnew u1)|].
      by apply (H3 u1 u2 c').
    + intros c' [Hc'| ->%list_elem_of_singleton]%elem_of_app.
      * destruct (H4 c' Hc') as [(u' & Hu')|Hall]; [left; exists u'; apply given_insert; by right|]. right.
        intros u' Hw. specialize (Hall u' Hw). rewrite load_insert. destruct (decide (u' = u)) as [->|]; lia.
      * left. exists u. apply given_insert. by left.
Qed.

Lemma greedy_all {rt : GoRuntime} w channels : NoDup channels → greedy w channels (foldl (assignChannel w) ∅ channels).
Proof.
  intros Hnd.
  assert (∀ handled assigned, NoDup (handled ++ channels) → greedy w handled assigned →
    greedy w (handled ++ channels) (foldl (assignChannel w) assigned channels)) as H.
  { clear Hnd. induction channels as [|c channels IH]; intros handled assigned Hnd Hg; cbn [foldl]; [by rewrite app_nil_r|].
    rewrite cons_middle, app_assoc. apply IH; [by rewrite <- app_assoc|]. apply greedy_step; [|done].
    apply NoDup_app in Hnd as (_ & Hnd & _). intros Hc. by apply (Hnd c Hc); left. }
  apply (H []); [done|]. assert (∀ u c, ¬ given ∅ u c) as Hno by (intros u c (l & Hl & _); by rewrite lookup_empty in Hl).
  split; [apply map_Forall_empty|by intros u c ?%Hno|by intros u u' c ?%Hno|by intros c ?%elem_of_nil].
Qed.

Lemma elem_of_channelOrder {rt : GoRuntime} w c : inhabited w → c ∈ channelOrder w ↔ ∃ u, isWatcher w c u.
Proof.
  intros Hi. unfold channelOrder. rewrite sortSlice_perm, list_elem_of_fmap. unfold isWatcher. split.
  - intros ([k us] & -> & Hin). apply elem_of_rangeMap in Hin. cbn. rewrite Hin. cbn.
    destruct (map_choose us) as (u & [] & Hu); [by apply (Hi k)|by exists u].
  - intros (u & Hu). destruct (w !! c) as [us|] eqn:Hc; cbn in Hu; [|by rewrite lookup_empty in Hu].
    exists (c, us). by rewrite elem_of_rangeMap.
Qed.

Lemma NoDup_channelOrder {rt : GoRuntime} w : NoDup (channelOrder w).
Proof. unfold channelOrder. rewrite sortSlice_perm. apply NoDup_rangeMap. Qed.

(** The assignment before its lists are sorted. *)
Lemma given_sorted {rt : GoRuntime} assigned u c : given (sortSlice string_lt <$> assigned) u c ↔ given assigned u c.
Proof.
  unfold given. rewrite lookup_fmap. destruct (assigned !! u) as [l|]; cbn; [|naive_solver]. split.
  - intros (k & [= <-] & Hc). exists l. split; [done|]. by rewrite sortSlice_perm in Hc.
  - intros (k & [= <-] & Hc). eexists. split; [done|]. by rewrite sortSlice_perm.
Qed.

Lemma assigned_nonempty {rt : GoRuntime} registrations u l : assignUserChatChannels registrations !! u = Some l → l ≠ [].
Proof.
  unfold assignUserChatChannels. rewrite lookup_fmap. intros (k & Hk & ->)%fmap_Some Hnil.
  destruct (g_room _ _ _ (greedy_all _ _ (NoDup_channelOrder (watchersOf registrations))) u k Hk) as (Hne & _).
  apply Hne, Permutation_nil. by rewrite <- Hnil, sortSlice_perm.
Qed.

(** C25: the channels whose chat is needed are spread soundly over the users.
    A user is given between one and a hundred channels, in increasing order
    and without repetition, each watched by one of the user's own devices; no
    channel is given to two users; and a watched channel is left out only when
    every user who watches it already has a hundred others. *)
Theorem user_chat_assignment_exact {rt : GoRuntime} (registrations : list R.t) :
  let assigned := assignUserChatChannels registrations in
  (∀ u l, assigned !! u = Some l →
     l ≠ [] ∧ Z.of_nat (length l) ≤ 100 ∧ StronglySorted (λ x y, string_lt x y = true) l ∧
     ∀ c, c ∈ l → watches registrations c u) ∧
  (∀ u u' l l' c, assigned !! u = Some l → assigned !! u' = Some l' → c ∈ l → c ∈ l' → u = u') ∧
  (∀ c u, watches registrations c u →
     (∃ u' l, assigned !! u' = Some l ∧ c ∈ l) ∨ ∃ l, assigned !! u = Some l ∧ length l = 100%nat ∧ c ∉ l).
Proof.
  set (w := watchersOf registrations). pose proof (greedy_all w _ (NoDup_channelOrder w)) as [H1 H2 H3 H4].
  set (raw := foldl (assignChannel w) ∅ (channelOrder w)) in *. intros assigned.
  change assigned with (sortSlice string_lt <$> raw). clear assigned.
  assert (∀ u l, (sortSlice string_lt <$> raw) !! u = Some l → ∃ k, raw !! u = Some k ∧ l = sortSlice string_lt k) as Hl.
  { intros u l. rewrite lookup_fmap. intros (k & Hk & ->)%fmap_Some. by exists k. }
  split_and!.
  - intros u l (k & Hk & ->)%Hl. destruct (H1 u k Hk) as (Hne & Hlen & Hnd). split_and!.
    + intros Hnil. apply Hne, Permutation_nil. by rewrite <- Hnil, sortSlice_perm.
    + by rewrite sortSlice_perm.
    + apply sorted_strict; [by rewrite sortSlice_perm|by apply sortSlice_sorted, _|]. intros x y _ _. apply string_lt_tie.
    + intros c Hc. rewrite sortSlice_perm in Hc. apply watchersOf_spec. apply (H2 u c). by exists k.
  - intros u u' l l' c Hu Hu' Hc Hc'. apply (H3 u u' c); apply given_sorted; [by exists l|by exists l'].
  - intros c u Hw%watchersOf_spec. destruct (H4 c) as [(u' & Hg)|Hfull].
    + apply elem_of_channelOrder; [apply watchersOf_inhabited|by exists u].
    + left. apply given_sorted in Hg as (l & Hl' & Hc). by exists u', l.
    + specialize (Hfull u Hw). unfold load in Hfull. destruct (raw !! u) as [l|] eqn:Hraw; cbn in Hfull; [|done].
      destruct (decide (c ∈ l)) as [Hin|Hout].
      * left. exists u, (sortSlice string_lt l). rewrite lookup_fmap, Hraw. split; [done|]. by rewrite sortSlice_perm.
      * right. exists (sortSlice string_lt l). rewrite lookup_fmap, Hraw. split_and!; [done|..]; rewrite sortSlice_perm; [|done].
        unfold maxUserChatChannels in Hfull. lia.
Qed.

Lemma rangeMap_keys {V} (rt rt' : GoRuntime) (m : gmap string V) : (rangeMap (GoRuntime:=rt) m).*1 ≡ₚ (rangeMap (GoRuntime:=rt') m).*1.
Proof. by rewrite (rangeMap_perm (GoRuntime:=rt)), (rangeMap_perm (GoRuntime:=rt')). Qed.

Lemma user_chat_assignment_same (rt rt' : GoRuntime) (registrations registrations' : list R.t) :
  (∀ r, r ∈ registrations ↔ r ∈ registrations') →
  assignUserChatChannels (rt:=rt) registrations = assignUserChatChannels (rt:=rt') registrations'.
Proof.
  intros Hset. unfold assignUserChatChannels. rewrite (watchersOf_ext _ _ Hset). set (w := watchersOf registrations').
  assert (channelOrder (rt:=rt) w = channelOrder (rt:=rt') w) as ->.
  { apply (sortSlice_deterministic _); [|apply rangeMap_keys]. intros x y _ _. apply (lex_less_tie _ id). }
  assert (∀ assigned c, assignChannel (rt:=rt) w assigned c = assignChannel (rt:=rt') w assigned c) as Hstep.
  { intros assigned c. unfold assignChannel. f_equal.
    apply (sortSlice_deterministic _); [|apply rangeMap_keys]. intros x y _ _. apply (lex_less_tie _ id). }
  assert (∀ assigned l, foldl (assignChannel (rt:=rt) w) assigned l = foldl (assignChannel (rt:=rt') w) assigned l) as ->.
  { intros assigned l. revert assigned. induction l as [|c l IH]; intros assigned; cbn [foldl]; [done|]. by rewrite Hstep, IH. }
  apply map_fmap_ext. intros u l _. apply (sortSlice_deterministic _); [|done]. intros x y _ _. apply string_lt_tie.
Qed.

(** The assignment depends only on the set of registrations: neither
    their order or repetition nor the order in which Go's maps are iterated
    and equal elements are sorted changes who is given which channel.  So the
    sessions are not restarted while the registrations stay the same. *)
Theorem user_chat_assignment_stable (rt rt' : GoRuntime) (registrations registrations' : list R.t) :
  (∀ r, r ∈ registrations ↔ r ∈ registrations') →
  assignUserChatChannels (rt:=rt) registrations = assignUserChatChannels (rt:=rt') registrations'.
Proof. apply user_chat_assignment_same. Qed.
End Assignment.

(** ** The manager *)

Section Manager.
Context {rt : GoRuntime} {sha : Sha256}.
Implicit Types (m : userChatEventSubManager) (desired : gmap string (list string)).

(** The session is wanted as it is. *)
Definition upToDate desired (u : string) (session : userChatSession) : bool :=
  match desired !! u with
  | Some channels => signature session == userChatSessionSignature channels
  | None => false
  end.

(** The goroutines that have not been told to stop are those of the sessions
    in the map, one per user, each started for channels with the session's
    signature. *)
Record tracked m : Prop := {
  t_session : ∀ u x, sessions m !! u = Some x →
    context x ∉ cancelled m ∧
    ∃ channels, launched m !! context x = Some (u, channels) ∧ signature x = userChatSessionSignature channels;
  t_goroutine : ∀ i u channels, launched m !! i = Some (u, channels) → i ∉ cancelled m →
    ∃ x, sessions m !! u = Some x ∧ context x = i;
  t_launched : ∀ i, is_Some (launched m !! i) → (i < contexts m)%nat;
  t_cancelled : ∀ i, i ∈ cancelled m → (i < contexts m)%nat
}.

Lemma tracked_inj m u u' x x' : tracked m → sessions m !! u = Some x → sessions m !! u' = Some x' → context x = context x' → u = u'.
Proof.
  intros Ht Hx Hx' Heq. destruct (t_session m Ht u x Hx) as (_ & c & H & _), (t_session m Ht u' x' Hx') as (_ & c' & H' & _).
  rewrite Heq in H. congruence.
Qed.

(** Cancelling the session of a user and removing it from the map. *)
Definition stop m (u : string) (x : userChatSession) : userChatEventSubManager :=
  (cancel m x) <| sessions := delete u (sessions m) |>.

Lemma tracked_stop m u x : tracked m → sessions m !! u = Some x → tracked (stop m u x).
Proof.
  intros Ht Hx. pose proof (t_session m Ht u x Hx) as (Hnc & channels & Hl & _).
  split; cbn [stop cancel sessions cancelled launched contexts update].
  - intros v y Hy. apply lookup_delete_Some in Hy as [Hne Hy]. destruct (t_session m Ht v y Hy) as (Hc & c & Hc' & Hsig). split; [|by exists c].
    intros [Heq%elem_of_singleton|?]%elem_of_union; [|done]. by apply Hne, (tracked_inj m u v x y).
  - intros i v c Hi Hnot. apply not_elem_of_union in Hnot as [Hne%not_elem_of_singleton Hnot].
    destruct (t_goroutine m Ht i v c Hi Hnot) as (y & Hy & <-). exists y. split; [|done]. apply lookup_delete_Some. split; [|done].
    intros ->. simplify_eq.
  - apply (t_launched m Ht).
  - intros i [->%elem_of_singleton|Hi]%elem_of_union; [by apply (t_launched m Ht); eexists|by apply (t_cancelled m Ht)].
Qed.

(** The loop over the sessions. *)
Lemma sweep_spec l m desired n : NoDup l.*1 → (∀ u x, (u, x) ∈ l → sessions m !! u = Some x) → tracked m →
  let '(m', desired', n') := foldl sweepOne (m, desired, n) l in
  tracked m' ∧ contexts m' = contexts m ∧ launched m' = launched m ∧ n ≤ n' ∧
  n' + mlen (sessions m') = n + mlen (sessions m) ∧
  (∀ u, u ∉ l.*1 → sessions m' !! u = sessions m !! u ∧ desired' !! u = desired !! u) ∧
  (∀ u x, (u, x) ∈ l → if upToDate desired u x then sessions m' !! u = Some x ∧ desired' !! u = None
                       else sessions m' !! u = None ∧ desired' !! u = desired !! u).
Proof.
  revert m desired n. induction l as [|[u x] l IH]; intros m desired n Hnd Hl Ht; cbn [foldl].
  { split_and!; try done; lia || by intros u x ?%elem_of_nil. }
  cbn [fmap list_fmap fst] in Hnd. apply NoDup_cons in Hnd as [Hu Hnd].
  assert (∀ v y, (v, y) ∈ l → v ≠ u) as Hdiff.
  { intros v y Hin ->. apply Hu, list_elem_of_fmap. by exists (u, y). }
  cbn [sweepOne]. fold (upToDate desired u x). destruct (upToDate desired u x) eqn:Hup.
  - specialize (IH m (delete u desired) n Hnd). destruct (foldl sweepOne _ l) as [[m' desired'] n'].
    destruct IH as (Ht' & Hc & Hla & Hn & Hsize & Hother & Hin).
    { intros v y Hv. apply Hl. by right. }
    { done. }
    split_and!; try done.
    + intros v [Hv1 Hv2]%not_elem_of_cons. destruct (Hother v Hv2) as [-> ->]. by rewrite lookup_delete_ne.
    + intros v y [[= -> ->]|Hv]%elem_of_cons.
      * rewrite Hup. destruct (Hother u Hu) as [-> ->]. rewrite lookup_delete_eq. split; [|done]. apply Hl. by left.
      * specialize (Hin v y Hv). specialize (Hdiff v y Hv). unfold upToDate in *. by rewrite lookup_delete_ne in Hin.
  - assert (sessions m !! u = Some x) as Hx by (apply Hl; by left).
    fold (stop m u x). specialize (IH (stop m u x) desired (n + 1) Hnd). destruct (foldl sweepOne _ l) as [[m' desired'] n'].
    destruct IH as (Ht' & Hc & Hla & Hn & Hsize & Hother & Hin).
    { intros v y Hv. cbn. rewrite lookup_delete_ne by (intros <-; by apply (Hdiff u y)). apply Hl. by right. }
    { by apply tracked_stop. }
    split_and!; try done; [lia|..].
    + rewrite Hsize. cbn [stop sessions update]. unfold mlen. rewrite (map_size_delete_Some u (sessions m)) by by eexists.
      assert (size (sessions m) ≠ 0%nat); [|lia]. apply map_size_non_empty_iff. intros He. by rewrite He, lookup_empty in Hx.
    + intros v [Hv1 Hv2]%not_elem_of_cons. destruct (Hother v Hv2) as [-> ->]. cbn. by rewrite lookup_delete_ne.
    + intros v y [[= -> ->]|Hv]%elem_of_cons; [|by apply Hin].
      rewrite Hup. destruct (Hother u Hu) as [-> ->]. cbn. by rewrite lookup_delete_eq.
Qed.

(** The loop over what is to be started. *)
Lemma tracked_start m u channels : tracked m → sessions m !! u = None →
  tracked (m <| sessions := <[u := mkSession (userChatSessionSignature channels) (contexts m)]> (sessions m) |>
             <| launched := <[contexts m := (u, channels)]> (launched m) |> <| contexts := S (contexts m) |>).
Proof.
  intros Ht Hu. assert (launched m !! contexts m = None) as Hfresh.
  { destruct (launched m !! contexts m) eqn:E; [|done]. assert (contexts m < contexts m)%nat; [|lia]. by apply (t_launched m Ht); eexists. }
  assert (contexts m ∉ cancelled m) as Hnc by (intros ?%(t_cancelled m Ht); lia).
  split; cbn [sessions cancelled launched contexts update].
  - intros v y Hy. destruct (decide (u = v)) as [<-|Hne].
    + rewrite lookup_insert_eq in Hy. injection Hy as <-. cbn. rewrite lookup_insert_eq. split; [done|]. by exists channels.
    + rewrite lookup_insert_ne in Hy by done. destruct (t_session m Ht v y Hy) as (Hc & c & Hl & Hsig). split; [done|]. exists c.
      split; [|done]. rewrite lookup_insert_ne; [done|]. intros Heq. rewrite <- Heq in Hl. congruence.
  - intros i v c Hi Hnot. destruct (decide (contexts m = i)) as [<-|Hne].
    + rewrite lookup_insert_eq in Hi. injection Hi as -> ->. eexists. by rewrite lookup_insert_eq.
    + rewrite lookup_insert_ne in Hi by done. destruct (t_goroutine m Ht i v c Hi Hnot) as (y & Hy & Hi'). exists y. split; [|done].
      rewrite lookup_insert_ne; [done|]. intros ->. congruence.
  - intros i. destruct (decide (contexts m = i)) as [<-|Hne]; [lia|]. rewrite lookup_insert_ne by done.
    intros Hi%(t_launched m Ht). lia.
  - intros i Hi%(t_cancelled m Ht). lia.
Qed.

Lemma start_spec l m n : NoDup l.*1 → (∀ u channels, (u, channels) ∈ l → sessions m !! u = None ∧ channels ≠ []) → tracked m →
  let '(m', n') := foldl startOne (m, n) l in
  tracked m' ∧ n' = n + Z.of_nat (length l) ∧
  (∀ u, u ∉ l.*1 → sessions m' !! u = sessions m !! u) ∧
  (∀ u channels, (u, channels) ∈ l →
     ∃ i, (contexts m ≤ i)%nat ∧ sessions m' !! u = Some (mkSession (userChatSessionSignature channels) i) ∧
          launched m' !! i = Some (u, channels)) ∧
  (∀ i, (i < contexts m)%nat → launched m' !! i = launched m !! i).
Proof.
  revert m n. induction l as [|[u channels] l IH]; intros m n Hnd Hl Ht; cbn [foldl].
  { split_and!; try done; [cbn; lia|]. by intros u x ?%elem_of_nil. }
  cbn [fmap list_fmap fst] in Hnd. apply NoDup_cons in Hnd as [Hu Hnd].
  destruct (Hl u channels) as [Hnone Hne]; [by left|].
  cbn [startOne]. destruct channels as [|c rest]; [done|]. clear Hne. set (channels := c :: rest) in *.
  pose proof (tracked_start m u channels Ht Hnone) as Ht1. set (m1 := m <| sessions := _ |> <| launched := _ |> <| contexts := _ |>) in *.
  specialize (IH m1 (n + 1) Hnd). destruct (foldl startOne _ l) as [m' n']. destruct IH as (Ht' & Hn & Hother & Hin & Hold).
  { intros v k Hv. destruct (Hl v k) as [Hv' Hk]; [by right|]. split; [|done]. unfold m1. cbn. rewrite lookup_insert_ne; [done|].
    intros ->. apply Hu, list_elem_of_fmap. by exists (v, k). }
  { done. }
  split_and!; [done| | | |].
  - cbn [length]. lia.
  - intros v [Hv1 Hv2]%not_elem_of_cons. rewrite (Hother v Hv2). unfold m1. cbn. by rewrite lookup_insert_ne.
  - intros v k [[= -> ->]|Hv]%elem_of_cons.
    + exists (contexts m). split; [done|]. rewrite (Hother u Hu), Hold by (unfold m1; cbn; lia). unfold m1. cbn.
      by rewrite !lookup_insert_eq.
    + destruct (Hin v k Hv) as (i & Hi & ?). exists i. split; [|done]. unfold m1 in Hi. cbn in Hi. lia.
  - intros i Hi. rewrite Hold by (unfold m1; cbn; lia). unfold m1. cbn. by rewrite lookup_insert_ne by lia.
Qed.

Lemma tracked_new : tracked newUserChatEventSubManager.
Proof.
  split; cbn.
  - intros u x. by rewrite lookup_empty.
  - intros i u channels. by rewrite lookup_empty.
  - intros i [x Hx]. by rewrite lookup_empty in Hx.
  - by intros i ?%elem_of_empty.
Qed.

(** What a reconciliation leaves of each user's session. *)
Definition reconciled desired m m' (u : string) : Prop :=
  match desired !! u with
  | None => sessions m' !! u = None
  | Some channels =>
      ∃ x, sessions m' !! u = Some x ∧ signature x = userChatSessionSignature channels ∧
        (sessions m !! u = Some x ∨ launched m' !! context x = Some (u, channels) ∧ (contexts m ≤ context x)%nat ∧
           ∀ old, sessions m !! u = Some old → signature old ≠ userChatSessionSignature channels)
  end.

Lemma reconcile_spec cfg provides registrations m : enabled cfg provides = true → tracked m →
  let '(m', (started, stopped)) := reconcile cfg provides registrations m in
  tracked m' ∧ 0 ≤ started ∧ 0 ≤ stopped ∧ (∀ i, (i < contexts m)%nat → launched m' !! i = launched m !! i) ∧
  (∀ u, reconciled (assignUserChatChannels registrations) m m' u).
Proof.
  intros Hen Ht. unfold reconcile. rewrite Hen. cbn [negb]. set (desired := assignUserChatChannels registrations).
  pose proof (sweep_spec (rangeMap (sessions m)) m desired 0 (NoDup_rangeMap _)) as Hsweep.
  destruct (foldl sweepOne _ _) as [[m1 desired1] stopped]. destruct Hsweep as (Ht1 & Hc1 & Hl1 & Hn1 & _ & Hother1 & Hin1).
  { intros u x. by rewrite elem_of_rangeMap. }
  { done. }
  assert (∀ u, match sessions m !! u with
               | Some x => if upToDate desired u x then sessions m1 !! u = Some x ∧ desired1 !! u = None
                           else sessions m1 !! u = None ∧ desired1 !! u = desired !! u
               | None => sessions m1 !! u = None ∧ desired1 !! u = desired !! u
               end) as H1.
  { intros u. destruct (sessions m !! u) as [x|] eqn:Hx; [by apply Hin1, elem_of_rangeMap|].
    rewrite <- Hx. apply Hother1. by apply rangeMap_lookup_None. }
  clear Hother1 Hin1.
  assert (∀ u channels, desired1 !! u = Some channels → sessions m1 !! u = None ∧ desired !! u = Some channels ∧
    ∀ x, sessions m !! u = Some x → signature x ≠ userChatSessionSignature channels) as Hstart.
  { intros u channels Hu. specialize (H1 u). unfold upToDate in H1. destruct (sessions m !! u) as [x|]; [|destruct H1; split_and!; congruence || done].
    destruct (desired !! u) as [wanted|] eqn:Hd; [case_bool_decide as Hsig|]; destruct H1 as [H1 H2]; [congruence| |congruence].
    rewrite Hu in H2. injection H2 as <-. split_and!; [done|done|]. by intros y [= <-]. }
  pose proof (start_spec (rangeMap desired1) m1 0 (NoDup_rangeMap _)) as Hs.
  destruct (foldl startOne _ _) as [m' started]. destruct Hs as (Ht' & Hn & Hother & Hin & Hold).
  { intros u channels Hu%elem_of_rangeMap. destruct (Hstart u channels Hu) as (? & ? & _). split; [done|].
    by apply (assigned_nonempty registrations u). }
  { done. }
  split_and!; [done|lia|done|by rewrite <- Hc1, <- Hl1|]. intros u. unfold reconciled.
  destruct (desired1 !! u) as [channels|] eqn:Hd1.
  - destruct (Hstart u channels Hd1) as (_ & -> & Hsig). destruct (Hin u channels) as (i & Hi & Hx & Hli); [by apply elem_of_rangeMap|].
    eexists. split_and!; [done|done|]. right. cbn [context]. rewrite <- Hc1. done.
  - rewrite (Hother u) by by apply rangeMap_lookup_None. specialize (H1 u). unfold upToDate in H1. rewrite Hd1 in H1.
    destruct (sessions m !! u) as [x|] eqn:Hx, (desired !! u) as [channels|] eqn:Hd; [case_bool_decide as Hsig|..]; destruct H1 as [H1 H2]; try done.
    eexists. split_and!; [done|done|]. by left.
Qed.

(** Passes of the reconciliation loop over successive registrations. *)
Lemma tracked_passes cfg provides history : enabled cfg provides = true → tracked (passes cfg provides history).
Proof.
  intros Hen. unfold passes. assert (tracked newUserChatEventSubManager) as H by apply tracked_new. revert H.
  generalize newUserChatEventSubManager. induction history as [|l history IH]; intros m Hm; cbn [foldl]; [done|]. apply IH.
  pose proof (reconcile_spec cfg provides l m Hen Hm) as H. destruct (reconcile cfg provides l m) as [m' [a b]]. apply H.
Qed.

(** The goroutine of a context runs for the user and the channels, and has
    not been told to stop. *)
Definition live m (i : nat) (u : string) (channels : list string) : Prop :=
  launched m !! i = Some (u, channels) ∧ i ∉ cancelled m.

(** ** Signatures *)

Lemma Split_Join sep l : l ≠ [] → Forall (free sep) l → Split sep (Join l (String sep "")) = l.
Proof.
  induction l as [|x l IH]; [done|]. intros _ [Hx Hl]%Forall_cons. destruct l as [|y l]; [by apply Split_free|].
  change (Join (x :: y :: l) (String sep "")) with (x +:+ String sep "" +:+ Join (y :: l) (String sep "")).
  rewrite app_str_cons, app_str_nil_l, Split_sep, IH by done. done.
Qed.

Lemma hexChar_inj (i j : Z) : 0 ≤ i < 16 → 0 ≤ j < 16 → Server.hexChar i = Server.hexChar j → i = j.
Proof.
  assert (∀ k, 0 ≤ k < 16 → Z.of_N (N_of_ascii (Server.hexChar k)) = if k <? 10 then 48 + k else 87 + k) as Hval.
  { intros k Hk. unfold Server.hexChar. destruct (Z.ltb_spec k 10); rewrite N_ascii_embedding by lia; lia. }
  intros Hi Hj Heq. pose proof (Hval i Hi) as H1. pose proof (Hval j Hj) as H2. rewrite Heq in H1.
  destruct (Z.ltb_spec i 10), (Z.ltb_spec j 10); lia.
Qed.

Lemma hexEncode_inj s t : Server.hexEncode s = Server.hexEncode t → s = t.
Proof.
  revert t. induction s as [|c s IH]; intros [|d t]; cbn [Server.hexEncode]; try done.
  assert (∀ x, 0 ≤ Base64.byteZ x < 256) as Hb.
  { intros x. unfold Base64.byteZ. pose proof (N_ascii_bounded x). lia. }
  pose proof (Hb c) as Hc. pose proof (Hb d) as Hd. intros Heq. injection Heq as H1 H2 H3%IH.
  apply hexChar_inj in H1; [|split; [apply Z.div_pos; lia|apply Z.div_lt_upper_bound; lia]..].
  apply hexChar_inj in H2; [|apply Z.mod_pos_bound; lia..].
  assert (Base64.byteZ c = Base64.byteZ d) as Hcd by (rewrite (Z.div_mod (Base64.byteZ c) 16), (Z.div_mod (Base64.byteZ d) 16); lia).
  unfold Base64.byteZ in Hcd. subst t. f_equal. rewrite <- (ascii_N_embedding c), <- (ascii_N_embedding d). f_equal. lia.
Qed.

(** Lists of channels a history of registrations gives to users. *)
Definition handedOut (history : list (list R.t)) (channels : list string) : Prop :=
  ∃ registrations u, registrations ∈ history ∧ assignUserChatChannels registrations !! u = Some channels.

(** What the comparison of signatures relies on: channel identifiers have no
    zero byte, which separates them in the text that is hashed, and SHA-256
    has no collision among the texts of this history. *)
Definition separated (history : list (list R.t)) : Prop :=
  (∀ channels, handedOut history channels → Forall (free Ascii.zero) channels) ∧
  (∀ l l', handedOut history l → handedOut history l' →
     sha256 (Join l (String Ascii.zero "")) = sha256 (Join l' (String Ascii.zero "")) →
     Join l (String Ascii.zero "") = Join l' (String Ascii.zero "")).

Lemma signature_inj history l l' : separated history → handedOut history l → handedOut history l' →
  userChatSessionSignature l = userChatSessionSignature l' → l = l'.
Proof.
  intros [Hfree Hsha] Hl Hl' Heq%hexEncode_inj.
  assert (∀ x, handedOut history x → x ≠ []) as Hne by (intros x (registrations & u & _ & Hx); by apply (assigned_nonempty registrations u)).
  rewrite <- (Split_Join Ascii.zero l), <- (Split_Join Ascii.zero l') by auto. f_equal. by apply Hsha.
Qed.

(** The channels a session of the map was started for were given to its user
    by a pass. *)
Lemma sessions_given cfg provides history u x channels : enabled cfg provides = true →
  sessions (passes cfg provides history) !! u = Some x → launched (passes cfg provides history) !! context x = Some (u, channels) →
  handedOut history channels.
Proof.
  intros Hen. revert u x channels. induction history as [|l history IH] using rev_ind; intros u x channels.
  { cbn. by rewrite lookup_empty. }
  pose proof (tracked_passes cfg provides history Hen) as Ht. unfold passes in *. rewrite foldl_app. cbn [foldl].
  set (m := foldl _ newUserChatEventSubManager history) in *. pose proof (reconcile_spec cfg provides l m Hen Ht) as H.
  destruct (reconcile cfg provides l m) as [m' [a b]]. destruct H as (_ & _ & _ & Hold & Hr). cbn [fst]. intros Hx Hl.
  specialize (Hr u). unfold reconciled in Hr. destruct (assignUserChatChannels l !! u) as [wanted|] eqn:Hw; [|congruence].
  destruct Hr as (y & Hy & _ & Hfrom). assert (x = y) as <- by congruence. destruct Hfrom as [Hsame|(Hnew & _)].
  - destruct (IH u x channels Hsame) as (l0 & v & Hin & Hv); [|exists l0, v; split; [|done]; apply elem_of_app; by left].
    rewrite <- Hold; [done|]. destruct (t_session m Ht u x Hsame) as (_ & c & Hc & _). apply (t_launched m Ht). by eexists.
  - exists l, u. split; [apply elem_of_app; right; by apply list_elem_of_singleton|congruence].
Qed.

(** C26: the connections that run are the ones that are wanted.  After any
    history of reconciliations and one more, a goroutine that was not told to
    stop runs for a user and a list of channels exactly when the last
    registrations give the user those channels, and each user has one; a
    goroutine whose channels are still wanted goes on undisturbed.  Assumed of
    the channel identifiers is that none has a zero byte, and of SHA-256 that
    no two lists given in this history have the same hash. *)
Theorem user_chat_sessions_exact cfg provides (history : list (list R.t)) (registrations : list R.t) :
  enabled cfg provides = true → separated (history ++ [registrations]) →
  let m := passes cfg provides history in
  let m' := (reconcile cfg provides registrations m).1 in
  let desired := assignUserChatChannels registrations in
  (∀ u channels, desired !! u = Some channels ↔ ∃ i, live m' i u channels) ∧
  (∀ i j u channels channels', live m' i u channels → live m' j u channels' → i = j) ∧
  (∀ i u channels, live m i u channels → desired !! u = Some channels → live m' i u channels).
Proof.
  intros Hen Hsep m m' desired. pose proof (tracked_passes cfg provides history Hen) as Ht. fold m in Ht.
  pose proof (sessions_given cfg provides (history ++ [registrations])) as Hgiven.
  assert (passes cfg provides (history ++ [registrations]) = m') as Hm' by (unfold m', m, passes; by rewrite foldl_app).
  rewrite Hm' in Hgiven. clear Hm'.
  pose proof (reconcile_spec cfg provides registrations m Hen Ht) as H. fold desired in H. unfold m' in *. clear m'.
  destruct (reconcile cfg provides registrations m) as [m2 [a b]]. destruct H as (Ht' & _ & _ & Hold & Hr). cbn [fst] in *.
  assert (∀ u x started channels, sessions m2 !! u = Some x → launched m2 !! context x = Some (u, started) →
    desired !! u = Some channels → started = channels) as Hsame.
  { intros u x started channels Hx Hl Hd. specialize (Hr u). unfold reconciled in Hr. rewrite Hd in Hr.
    destruct Hr as (y & Hy & Hsig & _). assert (x = y) as <- by congruence.
    destruct (t_session m2 Ht' u x Hx) as (_ & k & Hk & Hsig'). assert (k = started) as -> by congruence.
    apply (signature_inj (history ++ [registrations])); [done|by eapply Hgiven| |congruence].
    exists registrations, u. split; [apply elem_of_app; right; by apply list_elem_of_singleton|done]. }
  assert (∀ i j u k k', live m2 i u k → live m2 j u k' → i = j) as Huniq.
  { intros i j u k k' [Hi Hci] [Hj Hcj].
    destruct (t_goroutine m2 Ht' i u k Hi Hci) as (x & Hx & <-), (t_goroutine m2 Ht' j u k' Hj Hcj) as (y & Hy & <-). congruence. }
  split_and!; [|done|].
  - intros u channels. split.
    + intros Hu. pose proof (Hr u) as Hru. unfold reconciled in Hru. rewrite Hu in Hru. destruct Hru as (x & Hx & _).
      destruct (t_session m2 Ht' u x Hx) as (Hc & started & Hl & _). exists (context x).
      rewrite (Hsame u x started channels Hx Hl Hu) in Hl. done.
    + intros [i [Hl Hc]]. destruct (t_goroutine m2 Ht' i u channels Hl Hc) as (x & Hx & <-). pose proof (Hr u) as Hru.
      unfold reconciled in Hru. destruct (desired !! u) as [wanted|] eqn:Hd; [|congruence].
      by rewrite (Hsame u x channels wanted Hx Hl Hd).
  - intros i u channels [Hl Hc] Hu. destruct (t_goroutine m Ht i u channels Hl Hc) as (x & Hx & <-).
    destruct (t_session m Ht u x Hx) as (_ & k & Hk & Hsig). assert (k = channels) as -> by congruence.
    pose proof (Hr u) as Hru. unfold reconciled in Hru. rewrite Hu in Hru. destruct Hru as (y & Hy & _ & [Hkept|(_ & _ & Hno)]).
    + assert (y = x) as -> by congruence. destruct (t_session m2 Ht' u x Hy) as (Hc2 & k & Hk2 & _). split; [|done].
      by rewrite Hold by (apply (t_launched m Ht); by eexists).
    + by destruct (Hno x Hx).
Qed.

Lemma sweep_unchanged l m desired n : NoDup l.*1 → (∀ u x, (u, x) ∈ l → upToDate desired u x = true) →
  ∃ desired', foldl sweepOne (m, desired, n) l = (m, desired', n) ∧
    ∀ u, desired' !! u = if bool_decide (u ∈ l.*1) then None else desired !! u.
Proof.
  revert desired. induction l as [|[u x] l IH]; intros desired Hnd Hl; cbn [foldl].
  { exists desired. split; [done|]. intros u. by rewrite bool_decide_eq_false_2 by apply not_elem_of_nil. }
  cbn [fmap list_fmap fst] in *. apply NoDup_cons in Hnd as [Hu Hnd]. cbn [sweepOne]. fold (upToDate desired u x).
  rewrite (Hl u x) by by left. destruct (IH (delete u desired)) as (desired' & Hf & Hd); [done| |].
  - intros v y Hv. unfold upToDate. rewrite lookup_delete_ne; [apply Hl; by right|].
    intros <-. apply Hu, list_elem_of_fmap. by exists (u, y).
  - exists desired'. split; [done|]. intros v. rewrite Hd. destruct (decide (u = v)) as [<-|Hne].
    + rewrite bool_decide_eq_false_2 by done. by rewrite lookup_delete_eq, bool_decide_eq_true_2 by by left.
    + rewrite lookup_delete_ne by done. apply (f_equal (λ b : bool, if b then None else desired !! v)), bool_decide_ext.
      rewrite elem_of_cons. naive_solver.
Qed.

(** Reconciling is idempotent.  When a reconciliation is followed by
    another over the same registrations, in whatever order they are listed
    and the maps iterated, nothing is started, stopped or changed. *)
Theorem user_chat_reconcile_idempotent (rt' : GoRuntime) cfg provides (history : list (list R.t)) (registrations registrations' : list R.t) :
  enabled cfg provides = true → (∀ r, r ∈ registrations ↔ r ∈ registrations') →
  let m := (reconcile (rt:=rt) cfg provides registrations (passes (rt:=rt) cfg provides history)).1 in
  reconcile (rt:=rt') cfg provides registrations' m = (m, (0, 0)).
Proof.
  intros Hen Hset m. pose proof (reconcile_spec cfg provides registrations _ Hen (tracked_passes cfg provides history Hen)) as Hspec.
  unfold m. destruct (reconcile (rt:=rt) cfg provides registrations _) as [m1 [a b]]. cbn [fst]. clear m.
  destruct Hspec as (_ & _ & _ & _ & Hr). unfold reconcile. rewrite Hen. cbn [negb].
  rewrite <- (user_chat_assignment_same rt rt' registrations registrations' Hset).
  set (desired := assignUserChatChannels (rt:=rt) registrations) in *. unfold reconciled in Hr.
  destruct (sweep_unchanged (rangeMap (GoRuntime:=rt') (sessions m1)) m1 desired 0 (NoDup_rangeMap _)) as (desired' & -> & Hd).
  { intros u x Hx%elem_of_rangeMap. specialize (Hr u). unfold upToDate. destruct (desired !! u) as [channels|]; [|congruence].
    destruct Hr as (y & Hy & Hsig & _). apply bool_decide_eq_true. congruence. }
  assert (desired' = ∅) as ->.
  { apply map_eq. intros u. rewrite lookup_empty, Hd. case_bool_decide as Hin; [done|]. specialize (Hr u).
    destruct (desired !! u) as [channels|]; [|done]. destruct Hr as (y & Hy & _). destruct Hin. apply list_elem_of_fmap.
    exists (u, y). by rewrite elem_of_rangeMap. }
  assert (rangeMap (GoRuntime:=rt') (∅ : gmap string (list string)) = []) as ->; [|done].
  apply Permutation_nil. by rewrite (rangeMap_perm (GoRuntime:=rt')), map_to_list_empty.
Qed.

(** When the server stops, or the connections are switched off, every
    goroutine that ran is told to stop. *)
Theorem user_chat_all_stopped cfg provides (history : list (list R.t)) :
  enabled cfg provides = true →
  let '(m, stopped) := RunUserChatEventSub cfg provides history in
  sessions m = ∅ ∧ stopped = mlen (sessions (passes cfg provides history)) ∧ ∀ i u channels, ¬ live m i u channels.
Proof.
  intros Hen. unfold RunUserChatEventSub. rewrite Hen. cbn [negb]. pose proof (tracked_passes cfg provides history Hen) as Ht. set (m := passes cfg provides history) in *. unfold stopAll.
  assert (∀ l m, NoDup l.*1 → (∀ u x, (u, x) ∈ l → sessions m !! u = Some x) → tracked m →
    let m' := foldl (λ m '(userID, session), (cancel m session) <| sessions := delete userID (sessions m) |>) m l in
    tracked m' ∧ ∀ u, sessions m' !! u = if bool_decide (u ∈ l.*1) then None else sessions m !! u) as Hloop.
  { clear. induction l as [|[u x] l IH]; intros m Hnd Hl Ht; cbn [foldl].
    { split; [done|]. intros u. by rewrite bool_decide_eq_false_2 by apply not_elem_of_nil. }
    cbn [fmap list_fmap fst] in *. apply NoDup_cons in Hnd as [Hu Hnd]. destruct (IH (stop m u x) Hnd) as [Ht' Hs].
    - intros v y Hv. cbn. rewrite lookup_delete_ne; [apply Hl; by right|]. intros <-. apply Hu, list_elem_of_fmap. by exists (u, y).
    - apply tracked_stop; [done|]. apply Hl. by left.
    - split; [done|]. intros v. unfold stop in Hs. rewrite Hs. cbn [sessions update]. destruct (decide (u = v)) as [<-|Hne].
      + rewrite bool_decide_eq_false_2 by done. by rewrite lookup_delete_eq, bool_decide_eq_true_2 by by left.
      + rewrite lookup_delete_ne by done. apply (f_equal (λ b : bool, if b then None else sessions m !! v)), bool_decide_ext.
        rewrite elem_of_cons. naive_solver. }
  destruct (Hloop (rangeMap (sessions m)) m (NoDup_rangeMap _)) as [Ht' Hs]; [by intros u x ?%elem_of_rangeMap|done|].
  set (m' := foldl _ m _) in *. assert (sessions m' = ∅) as He.
  { apply map_eq. intros u. rewrite Hs, lookup_empty. case_bool_decide as Hu; [done|].
    destruct (sessions m !! u) as [x|] eqn:Hx; [|done]. destruct Hu. apply list_elem_of_fmap. exists (u, x). by rewrite elem_of_rangeMap. }
  split_and!; [done|done|]. intros i u channels [Hl Hc]. destruct (t_goroutine m' Ht' i u channels Hl Hc) as (x & Hx & _).
  by rewrite He, lookup_empty in Hx.
Qed.
End Manager.

(** ** Examples *)

Definition example_config : Config :=
  Config.zero <| AuthEncryptionKey := "key" |> <| TwitchClientID := "client" |> <| TwitchClientSecret := "secret" |>
    <| TwitchRedirectURL := "https://push.example/callback" |> <| PublicBaseURL := "https://push.example" |>
    <| TwitchHelixBaseURL := "https://api.twitch.tv/helix" |>.

Definition watcher (user : string) (channels : list string) : R.t :=
  Registration.zero <| R.UserID := user |> <| R.ChannelIDs := channels |> <| R.NotificationRules := ["mention"] |>.

(** Alice watches two channels, of which Bob watches one. *)
Definition two_users : list R.t := [watcher "alice" ["c1"; " c2 "]; watcher "bob" ["c2"]].

#[local] Existing Instance reference_runtime.
#[local] Existing Instance toy_sha256.

Lemma user_chat_assignment_stable_witness :
  assignUserChatChannels two_users = {["alice" := ["c1"]; "bob" := ["c2"]]} ∧
  assignUserChatChannels two_users = assignUserChatChannels (reverse two_users ++ two_users).
Proof.
  split; [by vm_compute|]. apply user_chat_assignment_stable. intros r. rewrite elem_of_app, elem_of_reverse. tauto.
Defined.

(** Bob's device is removed: Alice is given his channel and starts anew. *)
Lemma user_chat_sessions_exact_witness :
  let m := passes example_config true [two_users] in
  let m' := (reconcile example_config true [watcher "alice" ["c1"; "c2"]] m).1 in
  cancelled m' = {[0%nat; 1%nat]} ∧ live m' 2 "alice" ["c1"; "c2"] ∧
  ∀ i j u started started', live m' i u started → live m' j u started' → i = j.
Proof.
  cbv zeta. split; [by vm_compute|]. split; [by vm_compute|].
  apply (user_chat_sessions_exact example_config true [two_users] [watcher "alice" ["c1"; "c2"]]); [by vm_compute|].
  assert (∀ l, handedOut ([two_users] ++ [[watcher "alice" ["c1"; "c2"]]]) l → l ∈ [["c1"]; ["c2"]; ["c1"; "c2"]]) as Hgiven.
  { intros l (registrations & u & Hin & Hl). apply elem_of_cons in Hin as [->|Hin].
    - apply elem_of_map_to_list in Hl. vm_compute in Hl. set_solver.
    - apply list_elem_of_singleton in Hin as ->. apply elem_of_map_to_list in Hl. vm_compute in Hl. set_solver. }
  split.
  - intros l Hl%Hgiven. unfold free. repeat (apply elem_of_cons in Hl as [->|Hl]); [..|by apply elem_of_nil in Hl];
      repeat constructor; cbn; set_solver.
  - intros l l' Hl%Hgiven Hl'%Hgiven.
    repeat (apply elem_of_cons in Hl as [->|Hl]); [..|by apply elem_of_nil in Hl];
      (repeat (apply elem_of_cons in Hl' as [->|Hl']); [..|by apply elem_of_nil in Hl']); vm_compute; congruence.
Defined.

Lemma user_chat_reconcile_idempotent_witness :
  let m := (reconcile example_config true two_users (passes example_config true [])).1 in
  mlen (sessions m) = 2 ∧ reconcile example_config true (reverse two_users) m = (m, (0, 0)).
Proof.
  cbv zeta. split; [by vm_compute|].
  apply (user_chat_reconcile_idempotent reference_runtime example_config true [] two_users (reverse two_users)); [by vm_compute|].
  intros r. by rewrite elem_of_reverse.
Defined.

Lemma user_chat_all_stopped_witness :
  sessions (RunUserChatEventSub example_config true [two_users]).1 = ∅ ∧ (RunUserChatEventSub example_config true [two_users]).2 = 2.
Proof.
  pose proof (user_chat_all_stopped example_config true [two_users]) as H.
  assert ((RunUserChatEventSub example_config true [two_users]).2 = 2) as H2 by by vm_compute.
  destruct (RunUserChatEventSub example_config true [two_users]) as [m stopped]. cbn [fst snd] in *.
  destruct H as (H & _); [by vm_compute|]. by split.
Defined.
End UserChatProofs.
