(* ===== verification/UserChatSessionProofs.v ===== *)
(** * User chat connections: sessions

    What a session of a user stores, where it connects to, how long it waits
    between attempts, and that it goes on only when all its channels are
    subscribed. *)

From S2P Require Import Prelude GoStrings GoUnicode NetIP Config Credentials Domain RegistrationStore DeliveryStore DeliveryProofs InboxProofs.
From S2P Require Import EventSub Subscriptions RegistrationInput OAuth Repositories Server ServerProofs Dispatch DispatchProofs UserChat.

Module UserChatSessionProofs.
Import UserChat Server.

Section Sessions.
Context {RS : Type} `{!RegistrationRepository RS}.
Context {rt : GoRuntime} {sha : Sha256} {uni : Unicode} {tables : RuneTables} (W : World) (P : Peer).
Implicit Types (s : server RS).

(** ** What is stored *)

Abbreviation inbox s := (DeliveryStore.EventSubInbox (deliveries s)).


Lemma auditRecord_deliveries s record : deliveries (auditRecord W s record) = deliveries s.
Proof. apply (DispatchProofs.auditRecord_frame W s record). Qed.

Lemma enqueue_deliveries s message : userChatMessageID message ≠ "ws:" →
  ∃ now, deliveries (enqueueUserChatEvent W s message).1 =
    (DeliveryStore.EnqueueEventSub (deliveries s) (userChatMessageID message) (userChatEnvelope message) now).1.
Proof.
  intros Hid. unfold enqueueUserChatEvent. rewrite bool_decide_eq_false_2 by done. exists (clock W (ticks s)).
  cbn [Now deliveries tick update]. set (call := DeliveryStore.EnqueueEventSub _ _ _ _). destruct call as [d [[record created] [err|]]]; [done|].
  cbn [fst]. set (s1 := if created then _ else _). assert (deliveries s1 = d) as Hs1.
  { unfold s1. destruct created; [by rewrite auditRecord_deliveries|done]. }
  destruct (_ && _); [|done]. by rewrite DispatchProofs.scheduleEventSub_deliveries.
Qed.












(** ** A session *)










(** ** Subscribing *)

Definition chatRequest (token userID sessionID channelID : string) : Http.request :=
  Http.mkRequest "POST" (TrimSuffix (TwitchHelixBaseURL (cfg W)) "/" +:+ "/eventsub/subscriptions") [] ("Bearer " +:+ token)
    (TwitchClientID (cfg W)) (Http.JSONChat (Http.mkChatRequest "channel.chat.message" "1"
      (<["broadcaster_user_id" := channelID]> {["user_id" := userID]}) "websocket" sessionID)).

(** Twitch has the subscription: it was made, or was there already. *)
Definition accepted (answer : result Http.reply) : Prop :=
  ∃ r, answer = Ok r ∧ (Http.StatusCode r = 409 ∨ 200 ≤ Http.StatusCode r ≤ 299).

Lemma createChatSubscription_spec s token userID sessionID c :
  (createChatSubscription W s token userID sessionID c).1 = tick s ∧
  ((createChatSubscription W s token userID sessionID c).2 = [] ↔ accepted (twitch W (ticks s) (chatRequest token userID sessionID c))).
Proof.
  split; [done|]. unfold accepted, createChatSubscription, chatRequest. cbv zeta. cbn [snd].
  destruct (twitch W (ticks s) _) as [r|err]; [|split; [done|by intros (r & ? & _)]].
  assert ((∃ r0, Ok r = Ok r0 ∧ (Http.StatusCode r0 = 409 ∨ 200 ≤ Http.StatusCode r0 ≤ 299)) ↔
    (Http.StatusCode r = 409 ∨ 200 ≤ Http.StatusCode r ≤ 299)) as ->.
  { split; [by intros (r0 & [= <-] & ?)|]. intros. by exists r. }
  destruct (Z.eqb_spec (Http.StatusCode r) 401), (Z.eqb_spec (Http.StatusCode r) 409), (Z.ltb_spec (Http.StatusCode r) 200),
    (Z.ltb_spec 299 (Http.StatusCode r)); cbn [orb]; split; intros; done || lia.
Qed.

Lemma createAll_spec s token userID sessionID channels :
  ticks (createAll W s token userID sessionID channels).1 = (ticks s + length channels)%nat ∧
  ((createAll W s token userID sessionID channels).2 = [] ↔
   ∀ i c, channels !! i = Some c → accepted (twitch W (ticks s + i) (chatRequest token userID sessionID c))).
Proof.
  revert s. induction channels as [|c channels IH]; intros s; cbn [createAll].
  { split; [cbn; lia|]. split; [|done]. intros _ i c. by rewrite lookup_nil. }
  destruct (createChatSubscription_spec s token userID sessionID c) as [Hs Ha].
  destruct (createChatSubscription W s token userID sessionID c) as [s1 failed]. cbn [fst snd] in *. subst s1.
  destruct (IH (tick s)) as [Ht Hall]. destruct (createAll W (tick s) token userID sessionID channels) as [s2 rest]. cbn [fst snd] in *.
  split; [rewrite Ht; cbn; lia|]. rewrite app_nil, Ha, Hall. cbn [ticks tick update]. split.
  - intros [Hc Hrest] [|i] x; cbn; [|intros Hx; rewrite Nat.add_succ_r; by apply (Hrest i)].
    intros [= <-]. by rewrite Nat.add_0_r.
  - intros Hx. split; [rewrite <- (Nat.add_0_r (ticks s)); by apply (Hx 0%nat)|].
    intros i x Hi. cbn. rewrite <- Nat.add_succ_r. by apply (Hx (S i)).
Qed.

(** A connection goes on only when all its channels are subscribed.
    [createChatSubscriptions] reports no error exactly when Twitch accepted,
    or already had, the subscription of every channel, each asked for once
    with the user's own token and identity and the session of the connection,
    the first before the others and those in whatever order the workers get
    to them. *)
Theorem chat_subscriptions_complete s token userID sessionID (channels : list string) :
  ∃ order, order ≡ₚ channels ∧ head order = head channels ∧
    ((createChatSubscriptions W P s token userID sessionID channels).2 = [] ↔
     ∀ i c, order !! i = Some c → accepted (twitch W (ticks s + i) (chatRequest token userID sessionID c))).
Proof.
  unfold createChatSubscriptions. destruct channels as [|c channels].
  { exists []. split_and!; [done|done|]. split; [|done]. intros _ i c. by rewrite lookup_nil. }
  destruct (createChatSubscription_spec s token userID sessionID c) as [Hs Ha].
  exists (c :: workers P (ticks (tick s)) channels). split_and!; [by rewrite workers_perm|done|].
  destruct (createChatSubscription W s token userID sessionID c) as [s1 [|f l]]; cbn [fst snd] in *; subst s1.
  - rewrite (proj2 (createAll_spec _ _ _ _ _)). split.
    + intros Hrest [|i] x; cbn; [intros [= <-]; rewrite Nat.add_0_r; by apply Ha|].
      intros Hx. rewrite Nat.add_succ_r. by apply (Hrest i).
    + intros Hx i x Hi. cbn. rewrite <- Nat.add_succ_r. by apply (Hx (S i)).
  - split; [done|]. intros Hx. assert (f :: l = []); [|done]. apply Ha. rewrite <- (Nat.add_0_r (ticks s)). by apply (Hx 0%nat).
Qed.

(** ** Messages heard twice *)

Lemma messages_keep s (messages : list userChatWebSocketMessage) k e :
  inbox s !! k = Some e → DeliveryStore.inboxDead e = false → DeliveryProofs.wf (deliveries s) →
  inbox (foldl (λ s message, (enqueueUserChatEvent W s message).1) s messages) !! k = Some e.
Proof.
  intros Hk Hd. revert s Hk. induction messages as [|message messages IH]; intros s Hk Hwf; cbn [foldl]; [done|].
  destruct (decide (userChatMessageID message = "ws:")) as [Hws|Hid].
  { unfold enqueueUserChatEvent at 2. rewrite bool_decide_eq_true_2 by done. by apply IH. }
  destruct (enqueue_deliveries s message Hid) as (now & Heq). apply IH; rewrite Heq.
  - by apply InboxProofs.enqueueEventSub_keeps.
  - by apply DeliveryProofs.enqueueEventSub_wf.
Qed.

(** A chat message is stored once.  When a stored message that is not
    dead is reported again, over the same or another user's connection, or
    any other messages arrive, its record stays exactly as it was first
    stored, so it is not processed again. *)
Theorem user_chat_message_stored_once s (messages : list userChatWebSocketMessage) k e :
  rtc DeliveryProofs.step DeliveryStore.newMemoryDeliveryStore (deliveries s) →
  inbox s !! k = Some e → DeliveryStore.inboxDead e = false →
  inbox (foldl (λ s message, (enqueueUserChatEvent W s message).1) s messages) !! k = Some e.
Proof. intros Hs Hk Hd. apply messages_keep; [done|done|]. by apply DeliveryProofs.reachable_wf. Qed.
End Sessions.

(** ** An example *)

#[local] Existing Instance reference_runtime.
#[local] Existing Instance toy_sha256.
#[local] Existing Instance ascii_unicode.

Definition chatMessage (text : string) : userChatWebSocketMessage :=
  mkMessage "ws-1" "notification" "channel.chat.message" "1" "" "" 0 Subscription.zero
    {["message_id" := JString "m1"; "text" := JString text]}.

(** The message arrives over one user's connection. *)
Definition heardOnce : server RegistrationStore.t :=
  (enqueueUserChatEvent ServerProofs.Example.world ServerProofs.Example.started (chatMessage "hello")).1.

Lemma heardOnce_reachable : rtc DeliveryProofs.step DeliveryStore.newMemoryDeliveryStore (deliveries heardOnce).
Proof.
  assert (deliveries heardOnce = DeliveryProofs.exec DeliveryStore.newMemoryDeliveryStore
    (DeliveryProofs.OpEnqueueEventSub "chat:m1" (userChatEnvelope (chatMessage "hello")) 1000)) as -> by by vm_compute.
  apply rtc_once, (DeliveryProofs.step_exec _ reference_runtime).
Qed.

Lemma user_chat_message_stored_once_witness :
  let again := foldl (λ s message, (enqueueUserChatEvent ServerProofs.Example.world s message).1) heardOnce
    [chatMessage "hello"; chatMessage "hallo"] in
  E.Event ∘ I.Envelope <$> DeliveryStore.EventSubInbox (deliveries again) !! "chat:m1" =
    Some {["message_id" := JString "m1"; "text" := JString "hello"]}.
Proof.
  cbv zeta. destruct (DeliveryStore.EventSubInbox (deliveries heardOnce) !! "chat:m1") as [e|] eqn:He; [|by vm_compute in He].
  rewrite (user_chat_message_stored_once ServerProofs.Example.world heardOnce [chatMessage "hello"; chatMessage "hallo"] "chat:m1" e);
    [|apply heardOnce_reachable|done|].
  - apply (f_equal (fmap (E.Event ∘ I.Envelope))) in He. rewrite <- He. by vm_compute.
  - assert (DeliveryStore.inboxDead <$> DeliveryStore.EventSubInbox (deliveries heardOnce) !! "chat:m1" = Some false) as Hd by by vm_compute.
    rewrite He in Hd. by injection Hd.
Defined.
End UserChatSessionProofs.
