(* ===== verification/Metadata.v ===== *)
(** * The Twitch metadata relay: [internal/application/twitch_metadata.go]

    The client relays the chat badges of Twitch, global and of a channel,
    with an application token and a cache of what Twitch answered, and the
    two endpoints of [server.go] that serve them.  The request that several
    callers share ([singleflight]) is one call here: the calls follow each
    other. *)

From stdpp Require Import pretty.
From S2P Require Import Prelude GoStrings GoUnicode NetIP Config Credentials Domain Subscriptions RegistrationInput OAuth Server.

Module Metadata.
Export Config.
Module Http := Subscriptions.

Definition defaultTwitchIdentityURL : string := "https://id.twitch.tv/oauth2/token".
Definition defaultTwitchHelixURL : string := "https://api.twitch.tv/helix".
Definition maxTwitchMetadataBytes : Z := Z.shiftl 4 20.
Definition maxChannelBadgeCacheEntries : Z := 2048.

Definition errTwitchMetadataDisabled : error := ErrMsg "Twitch metadata relay is not configured".

Record twitchMetadataCacheEntry := mkEntry { body : string; expiresAt : time }.
Definition noEntry : twitchMetadataCacheEntry := mkEntry "" 0.

(** What comes from outside: the clock, Twitch's answers, and the decoding of
    a token response and of the [data] of a badge response. *)
Record Env := mkEnv {
  config : Config;
  clock : nat → time;
  Do : nat → Http.request → result Http.reply;
  decodeToken : string → result (string * Z);
  decodeData : string → result string
}.

(** The client; [readings] counts what was read from outside. *)
Record twitchMetadataClient := mkClient {
  accessToken : string;
  tokenExpiresAt : time;
  globalBadges : twitchMetadataCacheEntry;
  channelBadge : gmap string twitchMetadataCacheEntry;
  readings : nat
}.
#[global] Instance eta_twitchMetadataClient : Eta twitchMetadataClient := λ c,
  mkClient (accessToken c) (tokenExpiresAt c) (globalBadges c) (channelBadge c) (readings c).

Definition newTwitchMetadataClient : twitchMetadataClient := mkClient "" 0 noEntry ∅ 0.

Definition validTwitchID (value : string) : bool :=
  if (value == "") || (32 <? len value) then false else
  forallb (λ '(char, _), negb ((char <? 48) || (57 <? char))) (runes value).

Definition compactError (payload : string) : string :=
  let value := TrimSpace payload in if 300 <? len value then take_str 300 value else value.

Section Client.
Context {rt : GoRuntime} (E : Env).
Implicit Types (c : twitchMetadataClient).

Definition enabled : bool :=
  (TrimSpace (TwitchClientID (config E)) != "") && (TrimSpace (TwitchClientSecret (config E)) != "").

Definition now : M twitchMetadataClient time := λ c, (c <| readings := S (readings c) |>, Ok (clock E (readings c))).
Definition request (r : Http.request) : M twitchMetadataClient Http.reply := λ c,
  (c <| readings := S (readings c) |>, Do E (readings c) r).

(** ** The application token *)

Definition invalidateToken c : twitchMetadataClient := c <| accessToken := "" |> <| tokenExpiresAt := 0 |>.

Definition tokenRequest : Http.request :=
  Http.mkRequest "POST" defaultTwitchIdentityURL [] "" ""
    (Http.Form [("client_id", TwitchClientID (config E)); ("client_secret", TwitchClientSecret (config E));
                ("grant_type", "client_credentials")]).

Definition requestToken : M twitchMetadataClient string :=
  let! response := annotate "request Twitch app token" (request tokenRequest) in
  match Http.ReadError response with
  | Some readErr => fail (ErrMsg ("read Twitch token response: " +:+ Error readErr))
  | None =>
      let payload := Http.limited (Z.shiftl 256 10) (Http.Payload response) in
      if negb (Http.StatusCode response =? 200)
      then fail (ErrMsg ("Twitch token endpoint returned " +:+ pretty (Http.StatusCode response) +:+ ": " +:+ compactError payload))
      else
        match decodeToken E payload with
        | Err err => fail (ErrMsg ("decode Twitch app token: " +:+ Error err))
        | Ok (token, expiresIn) =>
            if (TrimSpace token == "") || (expiresIn <=? 0)
            then fail (ErrMsg "Twitch token endpoint returned incomplete credentials")
            else
              let! t := now in
              λ c, (c <| accessToken := token |> <| tokenExpiresAt := Add t (OAuth.seconds expiresIn) |>, Ok token)
        end
  end.

Definition appAccessToken : M twitchMetadataClient string := λ c,
  if negb enabled then (c, Err errTwitchMetadataDisabled) else
  if accessToken c == "" then requestToken c else
  (let! t := now in λ c,
   if Before (Add t (2 * Minute)) (tokenExpiresAt c) then (c, Ok (accessToken c)) else requestToken c) c.

(** ** Requests *)

Definition helixRequest (token path : string) (query : list (string * string)) : Http.request :=
  Http.mkRequest "GET" (defaultTwitchHelixURL +:+ path) query ("Bearer " +:+ token) (TwitchClientID (config E)) Http.NoBody.

(** The status (0 when there is none) and the body or the error. *)
Definition fetchHelixOnce (path : string) (query : list (string * string)) c : twitchMetadataClient * (Z * result string) :=
  match appAccessToken c with
  | (c, Err err) => (c, (0, Err err))
  | (c, Ok token) =>
      match annotate "request Twitch Helix" (request (helixRequest token path query)) c with
      | (c, Err err) => (c, (0, Err err))
      | (c, Ok response) =>
          let payload := Http.limited (maxTwitchMetadataBytes + 1) (Http.Payload response) in
          (c, (Http.StatusCode response,
            match Http.ReadError response with
            | Some readErr => Err (ErrMsg ("read Twitch Helix response: " +:+ Error readErr))
            | None =>
                if maxTwitchMetadataBytes <? len payload then Err (ErrMsg "Twitch Helix response is too large") else
                if negb (Http.StatusCode response =? 200)
                then Err (ErrMsg ("Twitch Helix returned " +:+ pretty (Http.StatusCode response) +:+ ": " +:+ compactError payload))
                else
                  match decodeData E payload with
                  | Err _ => Err (ErrMsg "Twitch Helix returned invalid badge metadata")
                  | Ok data => if data == "" then Err (ErrMsg "Twitch Helix returned invalid badge metadata") else Ok payload
                  end
            end))
      end
  end.

(** A refused token is replaced, once. *)
Definition fetchHelix (path : string) (query : list (string * string)) : M twitchMetadataClient string := λ c,
  match fetchHelixOnce path query c with
  | (c, (_, Ok payload)) => (c, Ok payload)
  | (c, (status, Err err)) =>
      if negb (status =? 401) then (c, Err err) else
      let '(c, (_, answer)) := fetchHelixOnce path query (invalidateToken c) in (c, answer)
  end.

(** ** The cache *)

Definition cachedGlobal : M twitchMetadataClient (option string) := λ c,
  let miss c := (c <| globalBadges := noEntry |>, Ok None) in
  if len (body (globalBadges c)) =? 0 then miss c else
  (let! t := now in λ c,
   if negb (Before t (expiresAt (globalBadges c))) then miss c else (c, Ok (Some (body (globalBadges c))))) c.

Definition cachedChannel (broadcasterID : string) : M twitchMetadataClient (option string) := λ c,
  let miss c := (c <| channelBadge := delete broadcasterID (channelBadge c) |>, Ok None) in
  match channelBadge c !! broadcasterID with
  | None => miss c
  | Some entry =>
      if len (body entry) =? 0 then miss c else
      (let! t := now in λ c, if negb (Before t (expiresAt entry)) then miss c else (c, Ok (Some (body entry)))) c
  end.

Definition cacheChannel (broadcasterID payload : string) : M twitchMetadataClient () :=
  let! t := now in λ c,
  let cache := range_delete (λ _ entry, negb (Before t (expiresAt entry))) (channelBadge c) in
  let cache :=
    if negb (bool_decide (is_Some (cache !! broadcasterID))) && (maxChannelBadgeCacheEntries <=? mlen cache) then
      let '(evictKey, _) := range_oldest expiresAt cache in
      if evictKey != "" then delete evictKey cache else cache
    else cache in
  (c <| channelBadge := <[broadcasterID := mkEntry payload (Add t (30 * Minute))]> cache |>, Ok ()).

Definition globalChatBadges : M twitchMetadataClient string :=
  if negb enabled then fail errTwitchMetadataDisabled else
  let! found := cachedGlobal in
  match found with
  | Some payload => ret payload
  | None =>
      let! found := cachedGlobal in
      match found with
      | Some payload => ret payload
      | None =>
          let! payload := fetchHelix "/chat/badges/global" [] in
          let! t := now in
          λ c, (c <| globalBadges := mkEntry payload (Add t (6 * Hour)) |>, Ok payload)
      end
  end.

Definition channelChatBadges (broadcasterID : string) : M twitchMetadataClient string :=
  if negb enabled then fail errTwitchMetadataDisabled else
  if negb (validTwitchID broadcasterID) then fail (ErrMsg "invalid broadcaster ID") else
  let! found := cachedChannel broadcasterID in
  match found with
  | Some payload => ret payload
  | None =>
      let! found := cachedChannel broadcasterID in
      match found with
      | Some payload => ret payload
      | None =>
          let! payload := fetchHelix "/chat/badges" [("broadcaster_id", broadcasterID)] in
          let! _ := cacheChannel broadcasterID payload in
          ret payload
      end
  end.

(** ** The endpoints *)

Definition writeMetadataError (err : error) : Server.response :=
  if err == errTwitchMetadataDisabled then Server.writeError 503 "Twitch metadata relay is not configured" else
  if Contains (Error err) "invalid broadcaster ID" then Server.writeError 400 "invalid broadcaster ID" else
  Server.writeError 502 "Twitch metadata is temporarily unavailable".

Definition respond (answer : result string) : Server.response :=
  match answer with
  | Ok payload => Server.mkResponse 200 (Server.RawText payload)
  | Err err => writeMetadataError err
  end.

Definition globalTwitchBadges c : twitchMetadataClient * Server.response :=
  let '(c, answer) := globalChatBadges c in (c, respond answer).

Definition channelTwitchBadges c (r : Server.httpRequest) : twitchMetadataClient * Server.response :=
  let '(c, answer) := channelChatBadges (Server.PathValue r "broadcasterID") c in (c, respond answer).
End Client.
End Metadata.
