(* ===== verification/MetadataProofs.v ===== *)
(** * The Twitch metadata relay: theorems

    What is served is what Twitch answered to the same question, recently
    enough; the cache is bounded; a call makes a bounded number of requests. *)

From S2P Require Import Prelude GoStrings GoUnicode NetIP Config Credentials Domain Subscriptions RegistrationInput OAuth Server Metadata.

Module MetadataProofs.
Import Metadata.

Section Proofs.
Context {rt : GoRuntime} (E : Env).
Implicit Types (c : twitchMetadataClient).

(** Twitch answered the request for the path and query, at that reading, with
    the payload: whole, within the limit, and with [data]. *)
Definition genuine (path : string) (query : list (string * string)) (n : nat) (payload : string) : Prop :=
  ∃ token r, Do E n (helixRequest E token path query) = Ok r ∧ Http.StatusCode r = 200 ∧ Http.Payload r = payload ∧
    len payload ≤ maxTwitchMetadataBytes ∧ ∃ data, decodeData E payload = Ok data ∧ data ≠ "".

(** The entry holds such an answer, and expires [ttl] after it came. *)
Definition entryOf (path : string) (query : list (string * string)) (ttl : duration) (bound : nat)
    (entry : twitchMetadataCacheEntry) : Prop :=
  ∃ n k, genuine path query n (body entry) ∧ (n < k < bound)%nat ∧ expiresAt entry = Add (clock E k) ttl.

Definition channelQuery (broadcasterID : string) : list (string * string) := [("broadcaster_id", broadcasterID)].

Record wf c : Prop := {
  wf_global : body (globalBadges c) ≠ "" → entryOf "/chat/badges/global" [] (6 * Hour) (readings c) (globalBadges c);
  wf_channel : map_Forall (λ id entry, entryOf "/chat/badges" (channelQuery id) (30 * Minute) (readings c) entry) (channelBadge c);
  wf_size : mlen (channelBadge c) ≤ maxChannelBadgeCacheEntries;
  wf_key : channelBadge c !! "" = None
}.

(** The caches are as before, while more was read. *)
Definition only_reads c c' : Prop :=
  globalBadges c' = globalBadges c ∧ channelBadge c' = channelBadge c ∧ (readings c ≤ readings c')%nat.

#[local] Instance only_reads_preorder : PreOrder only_reads.
Proof. split; [by intros c|]. intros c1 c2 c3 (? & ? & ?) (? & ? & ?). split_and!; [congruence|congruence|lia]. Qed.

Lemma entryOf_mono path query ttl n m entry : (n ≤ m)%nat → entryOf path query ttl n entry → entryOf path query ttl m entry.
Proof. intros Hnm (i & k & Hg & Hk & He). exists i, k. split_and!; [done|lia|lia|done]. Qed.

Lemma wf_reads c c' : only_reads c c' → wf c → wf c'.
Proof.
  intros (Hg & Hc & Hr) [H1 H2 H3 H4]. split; rewrite ?Hg, ?Hc; [|intros id entry Hid|done|done].
  - intros Hb. eapply entryOf_mono; [exact Hr|by apply H1].
  - eapply entryOf_mono; [exact Hr|by apply H2].
Qed.

Lemma requestToken_reads c : only_reads c (requestToken E c).1.
Proof.
  unfold requestToken, bind, annotate, request. destruct (Do E (readings c) _) as [r|err]; [|by split_and!; cbn; try lia].
  destruct (Http.ReadError r); [split_and!; cbn; try done; lia|]. destruct (negb _); [split_and!; cbn; try done; lia|].
  destruct (decodeToken E _) as [[token expiresIn]|]; [|split_and!; cbn; try done; lia].
  destruct (_ || _); split_and!; cbn; try done; lia.
Qed.

Lemma appAccessToken_reads c : only_reads c (appAccessToken E c).1.
Proof.
  unfold appAccessToken. destruct (negb (enabled E)); [done|]. case_bool_decide; [apply requestToken_reads|].
  unfold bind, now. set (c1 := c <| readings := _ |>). assert (only_reads c c1) as H1 by (split_and!; cbn; try done; lia).
  destruct (Before _ _); [done|]. etrans; [exact H1|apply requestToken_reads].
Qed.

Lemma limited_whole payload : len (Http.limited (maxTwitchMetadataBytes + 1) payload) ≤ maxTwitchMetadataBytes →
  Http.limited (maxTwitchMetadataBytes + 1) payload = payload.
Proof.
  unfold Http.limited. destruct (Z.leb_spec (len payload) (maxTwitchMetadataBytes + 1)); [done|].
  unfold len in *. rewrite length_take_str. change maxTwitchMetadataBytes with 4194304 in *. lia.
Qed.

Lemma fetchHelixOnce_spec path query c :
  let '(c', (_, answer)) := fetchHelixOnce E path query c in
  only_reads c c' ∧ ∀ payload, answer = Ok payload → ∃ n, (readings c ≤ n < readings c')%nat ∧ genuine path query n payload.
Proof.
  unfold fetchHelixOnce. pose proof (appAccessToken_reads c) as H1. destruct (appAccessToken E c) as [c1 [token|err]]; cbn [fst] in H1; [|done].
  unfold annotate, request. assert (only_reads c1 (c1 <| readings := S (readings c1) |>)) as H2 by (split_and!; cbn; try done; lia).
  destruct (Do E (readings c1) (helixRequest E token path query)) as [r|err] eqn:Hdo; [|by split; [etrans|]].
  split; [by etrans|]. destruct (Http.ReadError r); [done|].
  destruct (Z.ltb_spec maxTwitchMetadataBytes (len (Http.limited (maxTwitchMetadataBytes + 1) (Http.Payload r)))) as [|Hlen]; [done|].
  destruct (Z.eqb_spec (Http.StatusCode r) 200) as [Hst|]; cbn [negb]; [|done].
  pose proof (limited_whole _ Hlen) as Hwhole. rewrite Hwhole in Hlen |- *. destruct (decodeData E _) as [data|] eqn:Hdata; [|done]. case_bool_decide as Hne; [done|].
  intros payload [= <-]. exists (readings c1). destruct H1 as (_ & _ & H1). split; [cbn; lia|]. exists token, r. split_and!; try done. by exists data.
Qed.

Lemma fetchHelix_spec path query c :
  only_reads c (fetchHelix E path query c).1 ∧
  ∀ payload, (fetchHelix E path query c).2 = Ok payload →
    ∃ n, (readings c ≤ n < readings (fetchHelix E path query c).1)%nat ∧ genuine path query n payload.
Proof.
  unfold fetchHelix. pose proof (fetchHelixOnce_spec path query c) as H. destruct (fetchHelixOnce E path query c) as [c1 [status [p|err]]].
  { done. }
  destruct H as [H1 _]. destruct (negb _); [done|].
  pose proof (fetchHelixOnce_spec path query (invalidateToken c1)) as H. destruct (fetchHelixOnce E path query (invalidateToken c1)) as [c2 [status' answer]].
  destruct H as [H2 Ha]. cbn [fst snd]. assert (only_reads c1 (invalidateToken c1)) as Hi by done.
  split; [by etrans; [|etrans]|]. intros payload Hp. destruct (Ha payload Hp) as (n & Hn & Hg). exists n. split; [|done].
  destruct H1 as (_ & _ & H1). cbn in Hn. lia.
Qed.

(** What is served: an answer of Twitch to the same question, obtained during
    this call, or earlier and, by a clock reading of this call, less than
    [ttl] before. *)
Definition served (path : string) (query : list (string * string)) (ttl : duration) c c' (payload : string) : Prop :=
  ∃ n, genuine path query n payload ∧
    ((readings c ≤ n < readings c')%nat ∨
     ∃ k t, (n < k < readings c)%nat ∧ (readings c ≤ t < readings c')%nat ∧ clock E t < Add (clock E k) ttl).

Lemma cachedGlobal_spec c : wf c →
  wf (cachedGlobal E c).1 ∧ (readings c ≤ readings (cachedGlobal E c).1)%nat ∧
  match (cachedGlobal E c).2 with
  | Ok (Some payload) => served "/chat/badges/global" [] (6 * Hour) c (cachedGlobal E c).1 payload
  | Ok None => globalBadges (cachedGlobal E c).1 = noEntry
  | Err _ => False
  end.
Proof.
  intros Hwf. unfold cachedGlobal. destruct (Z.eqb_spec (len (body (globalBadges c))) 0) as [He|Hne].
  { cbn. split_and!; [|done|done]. destruct Hwf as [H1 H2 H3 H4]. by split. }
  unfold bind, now. destruct (Before _ _) eqn:Hb; cbn [negb fst snd].
  - assert (body (globalBadges c) ≠ "") as Hbody by (intros E0; rewrite E0 in Hne; done).
    split_and!; [apply (wf_reads c); [split_and!; cbn; try done; lia|done]|cbn; lia|].
    destruct (wf_global c Hwf Hbody) as (n & k & Hg & Hk & Hx). exists n. split; [done|]. right. exists k, (readings c).
    cbn in *. split_and!; try lia. unfold Before in Hb. rewrite Hx in Hb. lia.
  - split_and!; [|cbn; lia|done]. destruct Hwf as [H1 H2 H3 H4]. split; [done|..|done|done]. intros id entry Hid. cbn.
    eapply entryOf_mono; [|by apply H2]. lia.
Qed.

Lemma mlen_subseteq {V} (m m' : gmap string V) : m ⊆ m' → mlen m ≤ mlen m'.
Proof. intros Hsub. unfold mlen. apply subseteq_dom, subseteq_size in Hsub. rewrite !size_dom in Hsub. lia. Qed.

Lemma cachedChannel_spec id c : wf c →
  wf (cachedChannel E id c).1 ∧ (readings c ≤ readings (cachedChannel E id c).1)%nat ∧
  match (cachedChannel E id c).2 with
  | Ok (Some payload) => served "/chat/badges" (channelQuery id) (30 * Minute) c (cachedChannel E id c).1 payload
  | Ok None => True
  | Err _ => False
  end.
Proof.
  intros Hwf.
  assert (∀ c', only_reads c c' → wf (c' <| channelBadge := delete id (channelBadge c') |>)) as Hmiss.
  { intros c' Hr. destruct (wf_reads c c' Hr Hwf) as [H1 H2 H3 H4]. split; cbn [globalBadges channelBadge readings update].
    - done.
    - by apply map_Forall_delete.
    - etrans; [|exact H3]. apply mlen_subseteq, delete_subseteq.
    - rewrite lookup_delete_None. by right. }
  unfold cachedChannel. destruct (channelBadge c !! id) as [entry|] eqn:Hid; [|by split_and!; [apply Hmiss|cbn|]].
  destruct (Z.eqb_spec (len (body entry)) 0) as [He|Hne]; [by split_and!; [apply Hmiss|cbn|]|].
  unfold bind, now. set (c1 := c <| readings := _ |>). assert (only_reads c c1) as H1 by (split_and!; cbn; try done; lia).
  destruct (Before _ _) eqn:Hb; cbn [negb fst snd]; [|by split_and!; [apply Hmiss|cbn; lia|]].
  split_and!; [by apply (wf_reads c)|cbn; lia|]. destruct (wf_channel c Hwf id entry Hid) as (n & k & Hg & Hk & Hx). exists n. split; [done|].
  right. exists k, (readings c). cbn in *. split_and!; try lia. unfold Before in Hb. rewrite Hx in Hb. lia.
Qed.

Lemma cacheChannel_wf id payload n c : wf c → id ≠ "" → (n < readings c)%nat → genuine "/chat/badges" (channelQuery id) n payload →
  wf (cacheChannel E id payload c).1.
Proof.
  intros [H1 H2 H3 H4] Hid Hn Hg. unfold cacheChannel, bind, now. cbn [fst]. cbn [channelBadge update].
  set (cache := range_delete _ _). assert (cache ⊆ channelBadge c) as Hsub.
  { apply map_subseteq_spec. intros k v Hk. by apply range_delete_Some in Hk as [? _]. }
  set (cache' := if negb _ && _ then _ else _).
  assert (cache' ⊆ cache ∧ (mlen cache' < maxChannelBadgeCacheEntries ∨ is_Some (cache' !! id))) as [Hsub' Hroom].
  { unfold cache'. pose proof (mlen_subseteq _ _ Hsub) as Hlen.
    destruct (bool_decide_reflect (is_Some (cache !! id))) as [Hin|Hout]; cbn [negb andb]; [by split; [|right]|].
    destruct (Z.leb_spec maxChannelBadgeCacheEntries (mlen cache)) as [Hfull|]; cbn [andb]; [|by split; [|left]].
    assert (cache ≠ ∅) as Hne by (intros He; rewrite He in Hfull; by vm_compute in Hfull).
    destruct (range_oldest_lookup expiresAt cache Hne) as (v & Hv & _). destruct (range_oldest expiresAt cache) as [k o]. cbn [fst] in Hv.
    rewrite bool_decide_eq_false_2 by (intros ->; by rewrite (lookup_weaken_None _ _ _ H4 Hsub) in Hv). cbn [negb].
    split; [apply delete_subseteq|]. left. unfold mlen in *. rewrite (map_size_delete_Some k) by by eexists.
    assert (size cache ≠ 0%nat); [|lia]. by apply map_size_non_empty_iff. }
  assert (cache' ⊆ channelBadge c) as Hsubc by by etrans.
  split; cbn [globalBadges channelBadge readings update].
  - intros Hb. eapply entryOf_mono; [|by apply H1]. lia.
  - apply map_Forall_insert_2.
    + exists n, (readings c). split_and!; [done|lia|lia|done].
    + intros k entry Hk. eapply entryOf_mono; [|eapply H2, lookup_weaken; [exact Hk|done]]. lia.
  - destruct Hroom as [Hroom|Hin]; [apply mlen_insert_lt; lia|]. unfold mlen. rewrite map_size_insert_Some by done.
    by etrans; [apply (mlen_subseteq _ _ Hsubc)|].
  - rewrite lookup_insert_ne by done. by eapply lookup_weaken_None.
Qed.

(** ** Calls *)

Inductive op := OpGlobal | OpChannel (broadcasterID : string).
Definition exec c (o : op) : twitchMetadataClient :=
  match o with
  | OpGlobal => (globalChatBadges E c).1
  | OpChannel id => (channelChatBadges E id c).1
  end.

Lemma validTwitchID_nonempty id : validTwitchID id = true → id ≠ "".
Proof. by intros Hv ->. Qed.

(** A miss clears the entry, so the second look finds nothing either. *)
Lemma cachedGlobal_miss c c' : cachedGlobal E c = (c', Ok None) → cachedGlobal E c' = (c', Ok None).
Proof.
  unfold cachedGlobal at 1, bind, now. destruct (_ =? 0); [by intros [= <-]|]. destruct (negb _); [|done]. by intros [= <-].
Qed.

Lemma cachedChannel_miss id c c' : cachedChannel E id c = (c', Ok None) → cachedChannel E id c' = (c', Ok None).
Proof.
  assert (∀ c1, channelBadge c1 !! id = None → cachedChannel E id c1 = (c1, Ok None)) as Hno.
  { intros c1 Hc1. unfold cachedChannel. rewrite Hc1, delete_id by done. by destruct c1. }
  unfold cachedChannel at 1, bind, now. destruct (channelBadge c !! id); [destruct (_ =? 0); [|destruct (negb _)]|]; intros [= <-];
    apply Hno, lookup_delete_eq.
Qed.

Lemma global_spec c : wf c →
  wf (globalChatBadges E c).1 ∧
  ∀ payload, (globalChatBadges E c).2 = Ok payload →
    served "/chat/badges/global" [] (6 * Hour) c (globalChatBadges E c).1 payload.
Proof.
  intros Hwf. unfold globalChatBadges. destruct (negb (enabled E)); [by split|]. unfold bind.
  pose proof (cachedGlobal_spec c Hwf) as (Hwf1 & Hr1 & Hs1).
  destruct (cachedGlobal E c) as [c1 [[p|]|e]] eqn:Hc; cbn [fst snd] in *; [|clear Hs1|done].
  { split; [done|]. by intros payload [= <-]. }
  rewrite (cachedGlobal_miss c c1 Hc). destruct (fetchHelix_spec "/chat/badges/global" [] c1) as [Hreads Hgen].
  destruct (fetchHelix E _ _ c1) as [c2 [payload|err]]; cbn [fst snd] in *; [|split; [by apply (wf_reads c1)|done]].
  destruct (Hgen payload eq_refl) as (n & Hn & Hg). pose proof (wf_reads c1 c2 Hreads Hwf1) as [H1 H2 H3 H4]. unfold now. cbn [fst snd].
  split.
  - split; cbn [globalBadges channelBadge readings update]; [|intros id entry Hid|done|done].
    + intros _. exists n, (readings c2). split_and!; [done|lia|lia|done].
    + eapply entryOf_mono; [|by apply H2]. lia.
  - intros p [= <-]. exists n. split; [done|]. left. cbn. lia.
Qed.

Lemma channel_spec id c : wf c →
  wf (channelChatBadges E id c).1 ∧
  ∀ payload, (channelChatBadges E id c).2 = Ok payload →
    served "/chat/badges" (channelQuery id) (30 * Minute) c (channelChatBadges E id c).1 payload.
Proof.
  intros Hwf. unfold channelChatBadges. destruct (negb (enabled E)); [by split|]. destruct (validTwitchID id) eqn:Hv; cbn [negb]; [|by split].
  unfold bind. pose proof (cachedChannel_spec id c Hwf) as (Hwf1 & Hr1 & Hs1).
  destruct (cachedChannel E id c) as [c1 [[p|]|e]] eqn:Hc; cbn [fst snd] in *; [|clear Hs1|done].
  { split; [done|]. by intros payload [= <-]. }
  rewrite (cachedChannel_miss id c c1 Hc). fold (channelQuery id). destruct (fetchHelix_spec "/chat/badges" (channelQuery id) c1) as [Hreads Hgen].
  destruct (fetchHelix E _ _ c1) as [c2 [payload|err]]; cbn [fst snd] in *; [|split; [by apply (wf_reads c1)|done]].
  destruct (Hgen payload eq_refl) as (n & Hn & Hg). pose proof (wf_reads c1 c2 Hreads Hwf1) as Hwf2.
  pose proof (cacheChannel_wf id payload n c2 Hwf2 (validTwitchID_nonempty id Hv) (proj2 Hn) Hg) as Hwf3.
  unfold cacheChannel, bind, now in *. cbn [fst snd ret] in *. split; [exact Hwf3|].
  intros p [= <-]. exists n. split; [done|]. left. cbn. lia.
Qed.

Lemma wf_new : wf newTwitchMetadataClient.
Proof. split; [done|apply map_Forall_empty|done|done]. Qed.

Lemma wf_exec ops : wf (foldl exec newTwitchMetadataClient ops).
Proof.
  assert (∀ c, wf c → wf (foldl exec c ops)) as H; [|by apply H, wf_new].
  induction ops as [|o ops IH]; intros c Hc; cbn [foldl]; [done|]. apply IH. destruct o; [by apply global_spec|by apply channel_spec].
Qed.

(** The relay serves what Twitch answered.  After any calls, the badges
    served for a channel are the whole answer Twitch gave to the request for
    that very channel, within four megabytes and with data, obtained during
    the call or less than thirty minutes before; the same holds for the global
    badges within six hours; an identifier that is not a number is refused
    without asking Twitch; and at most 2048 channels are held. *)
Theorem badges_from_twitch (ops : list op) id :
  let c := foldl exec newTwitchMetadataClient ops in
  (∀ payload, (channelChatBadges E id c).2 = Ok payload →
     validTwitchID id = true ∧ served "/chat/badges" (channelQuery id) (30 * Minute) c (channelChatBadges E id c).1 payload) ∧
  (∀ payload, (globalChatBadges E c).2 = Ok payload →
     served "/chat/badges/global" [] (6 * Hour) c (globalChatBadges E c).1 payload) ∧
  (validTwitchID id = false → (channelChatBadges E id c).1 = c) ∧
  mlen (channelBadge c) ≤ 2048.
Proof.
  intros c. pose proof (wf_exec ops) as Hwf. fold c in Hwf. split_and!.
  - intros payload Hp. split; [|by apply channel_spec]. unfold channelChatBadges in Hp. destruct (negb (enabled E)); [done|].
    by destruct (validTwitchID id).
  - by apply global_spec.
  - intros Hv. unfold channelChatBadges. rewrite Hv. by destruct (negb (enabled E)).
  - apply (wf_size c Hwf).
Qed.
End Proofs.
End MetadataProofs.
