(* ===== verification/Sockets.v ===== *)
(** * Push connections: [pushSocket] of [internal/application/push_socket.go]

    The life of a push connection: the slot it holds until it has
    authenticated, the WebSocket handshake, the authentication, the messages
    its reader handles and the heartbeats.  A connection is served by two
    goroutines, the handler and the reader it starts, beside the other
    connections and the rest of the server; what one of them does between two
    waits is one step here, so that the steps of all of them interleave
    freely.  What the network does (whether a write succeeds, the bytes the
    peer sends before it falls silent) is an argument of the steps.

    Also here: the workers that flush the queues of all installations. *)

From S2P Require Import Prelude GoStrings NetIP Config Credentials Domain RegistrationStore SettingsSync AuditStore.
From S2P Require Import RateLimit DeliveryStore AuthStore Subscriptions PushSocket RegistrationInput OAuth Repositories.
From S2P Require Import Server Dispatch.
#[local] Open Scope Z_scope.
#[local] Open Scope go_scope.

(** ** SHA-1 ([crypto/sha1]) *)

Module Sha1.
Import PushSocket.

Definition w32 (z : Z) : Z := z mod 2 ^ 32.
Definition rotl (n x : Z) : Z := Z.lor (w32 (Z.shiftl x n)) (Z.shiftr x (32 - n)).

(** The message with its padding: a one bit, zeros, the length in bits. *)
Definition padded (m : bytes) : bytes :=
  let n := Z.of_nat (length m) in
  m ++ [128] ++ replicate (Z.to_nat ((55 - n) mod 64)) 0 ++ beBytes 8 (8 * n).

Fixpoint chunks (fuel n : nat) (l : bytes) : list bytes :=
  match fuel, l with
  | S fuel, _ :: _ => take n l :: chunks fuel n (drop n l)
  | _, _ => []
  end.

(** The 80 words of a block, latest first. *)
Fixpoint extend (turns : nat) (w : list Z) : list Z :=
  match turns with
  | O => w
  | S turns =>
      let at_ i := nth i w 0 in
      extend turns (rotl 1 (Z.lxor (Z.lxor (at_ 2%nat) (at_ 7%nat)) (Z.lxor (at_ 13%nat) (at_ 15%nat))) :: w)
  end.
Definition schedule (block : bytes) : list Z := rev (extend 64 (rev (beValue <$> chunks 16 4 block))).

Definition digest : Type := Z * Z * Z * Z * Z.

Definition round (h : digest) (tw : nat * Z) : digest :=
  let '(a, b, c, d, e) := h in
  let '(t, w) := tw in
  let notb := Z.lxor b (2 ^ 32 - 1) in
  let '(f, k) :=
    if (t <? 20)%nat then (Z.lor (Z.land b c) (Z.land notb d), 1518500249)
    else if (t <? 40)%nat then (Z.lxor (Z.lxor b c) d, 1859775393)
    else if (t <? 60)%nat then (Z.lor (Z.lor (Z.land b c) (Z.land b d)) (Z.land c d), 2400959708)
    else (Z.lxor (Z.lxor b c) d, 3395469782) in
  (w32 (rotl 5 a + f + e + k + w), a, rotl 30 b, c, d).

Definition addBlock (h : digest) (block : bytes) : digest :=
  let '(a, b, c, d, e) := h in
  let '(a', b', c', d', e') := foldl round h (imap pair (schedule block)) in
  (w32 (a + a'), w32 (b + b'), w32 (c + c'), w32 (d + d'), w32 (e + e')).

Definition initial : digest := (1732584193, 4023233417, 2562383102, 271733878, 3285377520).

Definition bytesOf (s : string) : bytes := Base64.byteZ <$> String.list_ascii_of_string s.
Definition stringOf (l : bytes) : string := String.string_of_list_ascii (Base64.Zbyte <$> l).

Definition Sum (s : string) : string :=
  let m := padded (bytesOf s) in
  let '(a, b, c, d, e) := foldl addBlock initial (chunks (length m) 64 m) in
  stringOf (beBytes 4 a ++ beBytes 4 b ++ beBytes 4 c ++ beBytes 4 d ++ beBytes 4 e).

(** [base64.StdEncoding]: the other two symbols, and padding. *)
Definition standardSymbol (c : ascii) : ascii :=
  if ascii_dec c "-" then "+"%char else if ascii_dec c "_" then "/"%char else c.
Definition StdEncoding (s : string) : string :=
  String.string_of_list_ascii (standardSymbol <$> String.list_ascii_of_string (Base64.EncodeToString s)) +:+
  String.string_of_list_ascii (replicate (Z.to_nat ((- len s) mod 3)) "="%char).
End Sha1.

Module Sockets.
Import RateLimit Server PushSocket Dispatch.
Module A := AuditRecord.

Definition websocketGUID : string := "258EAFA5-E914-47DA-95CA-C5AB0DC85B11".
Definition defaultHeartbeatPeriod : duration := 45 * Second.
Definition deliveryWorkerConcurrency : Z := 8.

Record socketServerMessage := mkServerMessage {
  SType : string;
  SConnectionID : string;
  SHeartbeatSeconds : Z;
  SEventID : string;
  SPayload : option Notification.t;
  SMessage : string;
  SServerTimeEpochMillis : Z
}.
#[global] Instance eta_socketServerMessage : Eta socketServerMessage := λ m,
  mkServerMessage (SType m) (SConnectionID m) (SHeartbeatSeconds m) (SEventID m) (SPayload m) (SMessage m)
    (SServerTimeEpochMillis m).
Definition noMessage : socketServerMessage := mkServerMessage "" "" 0 "" None "" 0.
Definition errorMessage (message : string) : socketServerMessage :=
  noMessage <| SType := "error" |> <| SMessage := message |>.

(** ** The handshake *)

(** What the network does with the response of a request: whether it can be
    taken over, and the outcome of that, of the write and of the flush; and
    the bytes the peer sends afterwards. *)
Record wire := mkWire {
  Hijacker : bool;
  HijackErr : option error;
  WriteErr : option error;
  FlushErr : option error;
  FromPeer : bytes
}.

(** [\r\n]. *)
Definition crlf : string := String "013"%char (String "010"%char "").
Definition acceptOf (key : string) : string := Sha1.StdEncoding (Sha1.Sum (key +:+ websocketGUID)).
Definition switching (accept : string) : string :=
  "HTTP/1.1 101 Switching Protocols" +:+ crlf +:+ "Upgrade: websocket" +:+ crlf +:+ "Connection: Upgrade" +:+ crlf +:+
  "Sec-WebSocket-Accept: " +:+ accept +:+ crlf +:+ crlf.

Section Handshake.
Context {uni : Unicode}.

(** The response written, if any, the text sent once the connection was taken
    over, and the connection. *)
Definition upgradePushSocket (w : wire) (rnd : rand_read) (r : httpRequest)
    : option response * string * result conn :=
  if negb (EqualFold (Header r "Upgrade") "websocket") || negb (headerContainsToken (Header r "Connection") "upgrade") ||
     (Header r "Sec-WebSocket-Version" != "13")
  then (Some (writeError 426 "WebSocket upgrade required"), "", Err (ErrMsg "invalid WebSocket upgrade headers")) else
  let key := TrimSpace (Header r "Sec-WebSocket-Key") in
  if key == ""
  then (Some (writeError 400 "missing Sec-WebSocket-Key"), "", Err (ErrMsg "missing WebSocket key")) else
  if negb (Hijacker w)
  then (Some (writeError 500 "WebSocket is not supported"), "", Err (ErrMsg "HTTP writer does not support hijacking"))
  else
  match HijackErr w with
  | Some err => (None, "", Err err)
  | None =>
  match WriteErr w with
  | Some err => (None, "", Err err)
  | None =>
  match FlushErr w with
  | Some err => (None, "", Err err)
  | None =>
      let text := switching (acceptOf key) in
      match randomSocketID rnd with
      | Err err => (None, text, Err err)
      | Ok connectionID => (None, text, Ok (mkConn "" connectionID (FromPeer w) [] false))
      end
  end
  end
  end.
End Handshake.

(** ** The state *)

(** Where the handler of a connection is, what its reader does, and the
    messages the two have sent.  [Connected] is between the authentication
    and the greeting; [Done] is after the deferred calls. *)
Inductive phase :=
| Upgrading (r : httpRequest) (w : wire)
| Authenticating
| Connected (registration : R.t)
| Serving (registration : R.t)
| Done.
Inductive reading := NotStarted | Reading | Handling (payload : bytes) | Stopped.

Record socket := mkSocket {
  connection : conn;
  handler : phase;
  reader : reading;
  outbox : list socketServerMessage
}.
#[global] Instance eta_socket : Eta socket := λ k, mkSocket (connection k) (handler k) (reader k) (outbox k).

Definition noConn : conn := mkConn "" "" [] [] false.

(** The server, the slots taken in [preAuthSockets], and the connections: a
    connection is the number it has here and in the hub. *)
Record system {RS : Type} := mkSystem { srv : server RS; preAuthSockets : Z; sockets : gmap nat socket }.
Arguments system : clear implicits.
Arguments mkSystem {RS}.
#[global] Instance eta_system {RS} : Eta (system RS) := λ y, mkSystem (srv y) (preAuthSockets y) (sockets y).

Definition owner (m : gmap nat socket) (id : nat) : string :=
  match m !! id with Some k => installationID (connection k) | None => "" end.

Section Steps.
Context {RS : Type} `{!RegistrationRepository RS}.
Context {rt : GoRuntime} {sha : Sha256} {uni : Unicode} (W : World).
Implicit Types (y : system RS) (id : nat) (k : socket).

Definition put y id k : system RS := y <| sockets := <[id := k]> (sockets y) |>.
Definition isClosed y id : bool := bool_decide (id ∈ shut (hub (srv y))).
Definition closeConnection y id : system RS := y <| srv := (srv y) <| hub := PushSocket.close (hub (srv y)) id |> |>.
Definition audited y (record : A.t) : system RS := y <| srv := auditRecord W (srv y) record |>.

(** [releasePreAuth] of a handler that holds its slot. *)
Definition releasePreAuth y : system RS := y <| preAuthSockets := preAuthSockets y - 1 |>.

(** [sendJSON]; [io] is the outcome of the write. *)
Definition sendJSON (io : option error) y id k (message : socketServerMessage) : socket * option error :=
  if isClosed y id then (k, Some ErrClosed) else
  match io with
  | Some err => (k, Some err)
  | None => (k <| outbox := outbox k ++ [message] |>, None)
  end.

(** ** The handler, one wait at a time *)

(** A new request takes a slot or is refused. *)
Definition accept y id (r : httpRequest) (w : wire) : system RS * option response :=
  if maxPreAuthSockets <=? preAuthSockets y
  then (y, Some (writeError 503 "too many unauthenticated WebSocket connections"))
  else (put (y <| preAuthSockets := preAuthSockets y + 1 |>) id (mkSocket noConn (Upgrading r w) NotStarted []), None).

Definition upgrade y id k (r : httpRequest) (w : wire) : system RS * option response :=
  let '(written, _, upgraded) := upgradePushSocket w (random W (ticks (srv y))) r in
  let y := y <| srv := tick (srv y) |> in
  match upgraded with
  | Err _ => (releasePreAuth (put y id (k <| handler := Done |>)), written)
  | Ok c => (put y id (k <| connection := c |> <| handler := Authenticating |>), written)
  end.

(** [reads] gives the outcome of the pongs, [io] that of the error message. *)
Definition authenticate y id k (reads : nat → option error) (io : option error) : system RS :=
  let c := (connection k) <| closed := isClosed y id |> in
  let '(s, c, answer) := authenticatePushSocket W (srv y) reads c in
  let y := y <| srv := s |> in
  let k := k <| connection := c |> in
  match answer with
  | Err err =>
      let '(k, _) := sendJSON io y id k (errorMessage (Error err)) in
      let y := audited y (A.zero <| A.Action := "push.socket.authenticate" |> <| A.Status := "rejected" |>
                            <| A.Detail := Error err |>) in
      releasePreAuth (closeConnection (put y id (k <| handler := Done |>)) id)
  | Ok registration =>
      let y := releasePreAuth (put y id (k <| handler := Connected registration |>)) in
      let y := y <| srv := (srv y) <| hub := Attach (owner (sockets y)) (hub (srv y)) id |> |> in
      audited y (A.zero <| A.Action := "push.socket.connect" |> <| A.Status := "connected" |>
        <| A.InstallationID := R.InstallationID registration |> <| A.UserID := R.UserID registration |>)
  end.

(** The deferred calls of a handler that returns. *)
Definition leave y id k (registration : R.t) : system RS :=
  let y := put y id (k <| handler := Done |>) in
  let y := y <| srv := (srv y) <| hub := Detach (owner (sockets y)) (hub (srv y)) id |> |> in
  let y := audited y (A.zero <| A.Action := "push.socket.disconnect" |> <| A.Status := "disconnected" |>
             <| A.InstallationID := R.InstallationID registration |> <| A.UserID := R.UserID registration |>) in
  closeConnection y id.

Definition greet y id k (registration : R.t) (io : option error) : system RS :=
  let '(s, now) := Now W (srv y) in
  let y := y <| srv := s |> in
  let '(k, err) := sendJSON io y id k
    (noMessage <| SType := "authenticated" |> <| SConnectionID := connectionID (connection k) |>
       <| SHeartbeatSeconds := defaultHeartbeatPeriod / Second |> <| SServerTimeEpochMillis := UnixMilli now |>) in
  match err with
  | Some _ => leave y id k registration
  | None =>
      let y := y <| srv := flushPending W (srv y) (installationID (connection k)) |> in
      put y id (k <| handler := Serving registration |> <| reader := Reading |>)
  end.

Definition heartbeat y id k (registration : R.t) (io : option error) : system RS :=
  let '(s, now) := Now W (srv y) in
  let y := y <| srv := s |> in
  let '(k, err) := sendJSON io y id k
    (noMessage <| SType := "heartbeat" |> <| SServerTimeEpochMillis := UnixMilli now |>) in
  match err with
  | Some _ => leave y id k registration
  | None => put (y <| srv := flushPending W (srv y) (installationID (connection k)) |>) id k
  end.

(** ** The reader *)

Definition read y id k (reads : nat → option error) : system RS :=
  let c := (connection k) <| closed := isClosed y id |> in
  let '(c, text) := readText reads c in
  put y id (k <| connection := c |> <| reader := match text with Ok payload => Handling payload | Err _ => Stopped end |>).

Definition ack y k (eventID : string) : system RS :=
  let '(s, now) := Now W (srv y) in
  let '(d, err) := DeliveryStore.Ack (deliveries s) (installationID (connection k)) eventID now in
  let y := y <| srv := (s <| deliveries := d |>) |> in
  match err with
  | None => audited y (A.zero <| A.Action := "push.delivery.ack" |> <| A.Status := "acked" |>
              <| A.InstallationID := installationID (connection k) |> <| A.EventID := eventID |>)
  | Some _ => y
  end.

Definition handle y id k (payload : bytes) (io : option error) : system RS :=
  let reply message := put y id ((sendJSON io y id k (errorMessage message)).1 <| reader := Reading |>) in
  match decodeMessage W payload with
  | None => reply "invalid socket JSON"
  | Some message =>
      if Type_ message == "ack" then
        put (if MEventID message != "" then ack y k (MEventID message) else y) id (k <| reader := Reading |>)
      else if Type_ message == "pong" then put y id (k <| reader := Reading |>)
      else reply "unsupported socket message"
  end.

(** ** The steps

    [rest] is what the remaining goroutines of the server may do to it
    between two steps of the connections. *)
Context (rest : server RS → server RS → Prop).

Inductive step : system RS → system RS → Prop :=
| step_accept y id r w : sockets y !! id = None → id ∉ shut (hub (srv y)) → step y (accept y id r w).1
| step_upgrade y id k r w :
    sockets y !! id = Some k → handler k = Upgrading r w → step y (upgrade y id k r w).1
| step_authenticate y id k reads io :
    sockets y !! id = Some k → handler k = Authenticating → step y (authenticate y id k reads io)
| step_greet y id k registration io :
    sockets y !! id = Some k → handler k = Connected registration → step y (greet y id k registration io)
| step_heartbeat y id k registration io :
    sockets y !! id = Some k → handler k = Serving registration → step y (heartbeat y id k registration io)
(** the request's context ends, the connection is closed or the reader is done *)
| step_leave y id k registration :
    sockets y !! id = Some k → handler k = Serving registration → step y (leave y id k registration)
| step_read y id k reads : sockets y !! id = Some k → reader k = Reading → step y (read y id k reads)
| step_handle y id k payload io :
    sockets y !! id = Some k → reader k = Handling payload → step y (handle y id k payload io)
| step_rest y s : rest (srv y) s → step y (y <| srv := s |>).

Inductive reachable (start : server RS) : system RS → Prop :=
| reach_start : reachable start (mkSystem start 0 ∅)
| reach_step y y' : reachable start y → step y y' → reachable start y'.

(** ** The delivery worker *)

(** The jobs still to hand out, those a worker has taken, and whether the
    context has ended. *)
Record flushing := mkFlushing { jobs : list string; taken : list string; cancelled : bool }.

(** At most [deliveryWorkerConcurrency] workers take the jobs in order and
    finish them in any order; once the context has ended no job is handed
    out, and a worker that has taken one may drop it. *)
Inductive flushStep (workers : Z) : server RS * flushing → server RS * flushing → Prop :=
| flush_take s job more busy ended :
    Z.of_nat (length busy) < workers →
    flushStep workers (s, mkFlushing (job :: more) busy ended) (s, mkFlushing more (busy ++ [job]) ended)
| flush_run s more before job after ended :
    flushStep workers (s, mkFlushing more (before ++ job :: after) ended)
      (flushPending W s job, mkFlushing more (before ++ after) ended)
| flush_cancel s more busy ended : flushStep workers (s, mkFlushing more busy ended) (s, mkFlushing [] busy true)
| flush_drop s more before job after :
    flushStep workers (s, mkFlushing more (before ++ job :: after) true) (s, mkFlushing more (before ++ after) true).

Definition flushStart (s : server RS) : server RS * flushing := (s, mkFlushing (R.InstallationID <$> List (store s)) [] false).
Definition flushWorkers (s : server RS) : Z := Z.min deliveryWorkerConcurrency (Z.of_nat (length (List (store s)))).

(** [ended] tells whether the context ended meanwhile. *)
Definition flushPendingInstallations (s : server RS) (ended : bool) (s' : server RS) : Prop :=
  rtc (flushStep (flushWorkers s)) (flushStart s) (s', mkFlushing [] [] ended).

(** A turn of [runDeliveryWorker]. *)
Definition deliveryTurn (s s' : server RS) : Prop :=
  ∃ ended flushed, flushPendingInstallations s ended flushed ∧
    s' = (let '(flushed, now) := Now W flushed in
          flushed <| deliveries := (DeliveryStore.Cleanup now (deliveries flushed)).1 |>).

(** A turn of [runEventSubWorker]: the oldest queued message. *)
Definition eventSubTurn (s : server RS) : server RS :=
  match eventQueue s with
  | [] => s
  | queued :: more => handleQueuedEventSub W (s <| eventQueue := more |>) queued
  end.
End Steps.
End Sockets.
