(* ===== verification/SocketProofs.v ===== *)
(** * Push connections: theorems

    However the goroutines of the connections and of the rest of the server
    interleave: the slots for unauthenticated connections are held by exactly
    the connections that have not authenticated, at most 256 of them; the hub
    routes an installation to a connection that presented its secret, and
    every open authenticated connection is the one routed; and a connection
    acknowledges the deliveries of its own installation only. *)

From S2P Require Import Prelude GoStrings NetIP Config Credentials Domain RegistrationStore SettingsSync AuditStore.
From S2P Require Import RateLimit DeliveryStore DeliveryProofs AuthStore Subscriptions PushSocket PushSocketProofs RegistrationInput OAuth Repositories.
From S2P Require Import Server ServerProofs Dispatch DispatchProofs Sockets.
#[local] Open Scope Z_scope.
#[local] Open Scope go_scope.

Module SocketProofs.
Import RegistrationInput RateLimit Server PushSocket PushSocketProofs Dispatch Sockets.

(** ** What a connection's phase says *)

Definition unauthenticated (k : socket) : bool :=
  match handler k with Upgrading _ _ | Authenticating => true | _ => false end.
Definition registrationOf (k : socket) : option R.t :=
  match handler k with Connected registration | Serving registration => Some registration | _ => None end.
Definition isLive (k : socket) : bool := bool_decide (is_Some (registrationOf k)).

Definition waiting (m : gmap nat socket) : Z := Z.of_nat (size (filter (λ '(_, k), unauthenticated k = true) m)).
Definition attachedIn (m : gmap nat socket) : gset nat := dom (filter (λ '(_, k), isLive k = true) m).

Lemma elem_attachedIn m id : id ∈ attachedIn m ↔ ∃ k, m !! id = Some k ∧ isLive k = true.
Proof. unfold attachedIn. rewrite elem_of_dom. unfold is_Some. setoid_rewrite map_lookup_filter_Some. naive_solver. Qed.

Lemma isLive_spec k : isLive k = true ↔ ∃ registration, registrationOf k = Some registration.
Proof. unfold isLive. by rewrite bool_decide_eq_true. Qed.

(** How the count follows a change of one connection. *)
Lemma waiting_insert m id k :
  waiting (<[id := k]> m) =
  waiting m - (match m !! id with Some k0 => if unauthenticated k0 then 1 else 0 | None => 0 end)
  + (if unauthenticated k then 1 else 0).
Proof.
  unfold waiting. rewrite map_filter_insert.
  assert (∀ n : gmap nat socket,
    Z.of_nat (size (delete id (filter (λ '(_, k), unauthenticated k = true) n))) =
    Z.of_nat (size (filter (λ '(_, k), unauthenticated k = true) n)) -
    (match n !! id with Some k0 => if unauthenticated k0 then 1 else 0 | None => 0 end)) as Hdel.
  { intros n. rewrite map_size_delete.
    destruct (n !! id) as [k0|] eqn:Hk0; [destruct (unauthenticated k0) eqn:Hu|].
    - assert (filter (λ '(_, k), unauthenticated k = true) n !! id = Some k0) as Hf
        by (apply map_lookup_filter_Some; done).
      rewrite Hf. cbv beta iota. assert (size (filter (λ '(_, k), unauthenticated k = true) n) ≠ 0%nat); [|lia].
      intros H0%map_size_empty_inv. rewrite H0 in Hf. by rewrite lookup_empty in Hf.
    - assert (filter (λ '(_, k), unauthenticated k = true) n !! id = None) as ->; [|unfold Datatypes.id; lia].
      apply map_lookup_filter_None. right. intros k1 Hk1. congruence.
    - assert (filter (λ '(_, k), unauthenticated k = true) n !! id = None) as ->; [|unfold Datatypes.id; lia].
      apply map_lookup_filter_None. by left. }
  destruct (decide _) as [Hu|Hu].
  - rewrite Hu, <-insert_delete_eq, map_size_insert_None by apply lookup_delete_eq.
    rewrite Nat2Z.inj_succ, Hdel. lia.
  - apply not_true_is_false in Hu. rewrite Hu.
    specialize (Hdel m). rewrite <-map_filter_delete in Hdel. rewrite Hdel. lia.
Qed.

(** ** The hub under the server's functions *)

(** Connections may be closed; none is attached or detached. *)
Definition hub_kept {RS} (s s' : server RS) : Prop :=
  connections (hub s') = connections (hub s) ∧ shut (hub s) ⊆ shut (hub s').

#[export] Instance hub_kept_preorder {RS} : PreOrder (@hub_kept RS).
Proof. split; [by intros s|]. intros s1 s2 s3 [? ?] [? ?]. split; [congruence|set_solver]. Qed.

Lemma hub_kept_eq {RS} (s s' : server RS) : hub s' = hub s → hub_kept s s'.
Proof. intros H. unfold hub_kept. by rewrite H. Qed.

Lemma hub_inv_kept {RS} (s s' : server RS) f a : hub_kept s s' → hub_inv f (hub s) a → hub_inv f (hub s') a.
Proof. intros [Hc Hs] [Ho Hl]. split; rewrite Hc; [done|]. intros c Hin Hn. apply Hl; [done|set_solver]. Qed.

(** The invariant speaks of the owners of attached connections only. *)
Lemma hub_inv_owner f g h a : (∀ c, c ∈ a → f c = g c) → hub_inv f h a → hub_inv g h a.
Proof.
  intros Hfg [Ho Hl]. split.
  - intros id c Hc. destruct (Ho _ _ Hc) as [<- Hin]. by rewrite Hfg.
  - intros c Hin Hs. rewrite <-Hfg by done. by apply Hl.
Qed.

Section Hub.
Context {RS : Type} `{!RegistrationRepository RS}.
Context {rt : GoRuntime} {sha : Sha256} {uni : Unicode} (W : World).
Implicit Types (s : server RS) (y : system RS).

Lemma auditRecord_hub s record : hub (auditRecord W s record) = hub s.
Proof. apply DispatchProofs.auditRecord_frame. Qed.

Lemma Send_kept h i send :
  connections (Send h i send).1 = connections h ∧ shut h ⊆ shut (Send h i send).1.
Proof. unfold Send. destruct (_ !! i); [|done]. destruct (send _); [|done]. split; [done|]. cbn. set_solver. Qed.

Lemma flushOne_hub s i registration record : hub_kept s (flushOne W s i registration record).1.
Proof.
  unfold flushOne. destruct (_ == _).
  - unfold flushSocket. pose proof (Send_kept (hub s) i (Server.sendJSON W (ticks s))) as Hk.
    destruct (Send _ _ _) as [h err]. destruct err as [[]|]; exact Hk.
  - unfold flushSender, auditSend. apply hub_kept_eq.
    destruct (match sender W with None => _ | Some _ => _ end); cbn [fst Now]; by rewrite auditRecord_hub.
Qed.

Lemma flushLoop_hub s i registration records : hub_kept s (flushLoop W s i registration records).
Proof.
  induction records as [|record records IH] in s |- *; [done|]. cbn [flushLoop].
  pose proof (flushOne_hub s i registration record) as Hk. destruct (flushOne _ _ _ _ _) as [s1 continue].
  destruct continue; [|done]. by etrans.
Qed.

Lemma flushPending_hub s i : hub_kept s (flushPending W s i).
Proof. unfold flushPending. destruct (Get _ _); [|done]. apply (flushLoop_hub (tick s)). Qed.

Lemma deliveryTurn_hub s s' : deliveryTurn W s s' → hub_kept s s'.
Proof.
  intros (ended & flushed & Hf & ->). etrans; [|by apply hub_kept_eq].
  unfold flushPendingInstallations, flushStart in Hf.
  remember (s, mkFlushing (R.InstallationID <$> List (store s)) [] false) as x eqn:Hx.
  remember (flushed, mkFlushing [] [] ended) as z eqn:Hz.
  assert (hub_kept x.1 z.1) as Hk; [|by subst].
  clear Hx Hz. induction Hf as [x|x y z Hs _ IH]; [done|]. etrans; [|exact IH].
  destruct Hs; try done. apply flushPending_hub.
Qed.

(** ** Authentication *)

Lemma readLoop_installation fuel io c : installationID (readLoop fuel io c).1 = installationID c.
Proof.
  induction fuel as [|fuel IH] in io, c |- *; [done|]. cbn [readLoop].
  destruct (closed c); [done|]. destruct (readFrame (input c)) as [[[opcode payload] l]|]; [|done].
  repeat (case_match; try done); rewrite ?IH; try done;
    unfold writeFrame in *; repeat (case_match; simplify_eq; try done).
Qed.

Lemma takeInstallation_frame s i secret : DispatchProofs.same_but_audit s (takeInstallationRateLimit W s i secret).1.
Proof.
  unfold takeInstallationRateLimit. destruct (RateLimitDisabled _); [done|].
  destruct (validateMobileDevice _ _); [done|]. apply DispatchProofs.take_frame.
Qed.

(** What the first message must be for a connection to be authenticated. *)
Lemma authenticatePushSocket_spec s io c :
  let '(s', c', answer) := authenticatePushSocket W s io c in
  hub s' = hub s ∧ store s' = store s ∧
  match answer with
  | Err _ => installationID c' = installationID c
  | Ok registration =>
      installationID c' = R.InstallationID registration ∧ R.Provider registration = "embedded_socket" ∧
      ∃ message, validatePushSocketAuthentication message = None ∧
        Authenticate (store s) (MInstallationID message) (MDeviceSecret message) = Ok registration
  end.
Proof.
  unfold authenticatePushSocket.
  pose proof (readLoop_installation (S (length (input c))) io c) as Hi. fold (readText io c) in Hi.
  destruct (readText io c) as [c1 text]. cbn [fst] in Hi. destruct text as [payload|err]; [|done].
  destruct (decodeMessage W payload) as [message|]; [|done].
  destruct (validatePushSocketAuthentication message) eqn:Hv; [done|].
  destruct (validateMobileDevice _ _); [done|].
  pose proof (takeInstallation_frame s (MInstallationID message) (MDeviceSecret message)) as (Hst & _ & Hh & _).
  destruct (takeInstallationRateLimit _ _ _ _) as [s1 decision]. cbn [fst] in Hst, Hh.
  destruct (Allowed decision); cbn [negb].
  - rewrite Hst. destruct (Authenticate _ _ _) as [registration|] eqn:Ha; [|done].
    destruct (bool_decide_reflect (R.Provider registration = "embedded_socket")) as [Hp|]; cbn [negb]; [|done].
    destruct (_ == _); cbn [negb]; (split_and!; [done..|]); exists message; done.
  - destruct (DispatchProofs.auditRateLimitBlock_frame W s1 decision "installation" "WEBSOCKET" "/v1/push/socket"
      (MInstallationID message) "") as (Hst' & _ & Hh' & _). split_and!; [congruence..|done].
Qed.
End Hub.

(** ** The invariant *)

Section Connections.
Context {RS : Type} `{!RegistrationRepository RS}.
Context {rt : GoRuntime} {sha : Sha256} {uni : Unicode} (W : World).
Context (rest : server RS → server RS → Prop) (rest_kept : ∀ s s', rest s s' → hub_kept s s').
Context (start : server RS) (start_hub : hub start = NewPushHub).
Implicit Types (s : server RS) (y : system RS) (k : socket).

(** The registration was the answer to a secret presented earlier. *)
Definition vouched y (registration : R.t) : Prop :=
  ∃ y0 message, reachable W rest start y0 ∧ rtc (step W rest) y0 y ∧
    Authenticate (store (srv y0)) (MInstallationID message) (MDeviceSecret message) = Ok registration.

Record inv y : Prop := {
  inv_slots : preAuthSockets y = waiting (sockets y);
  inv_bound : preAuthSockets y ≤ maxPreAuthSockets;
  inv_hub : hub_inv (owner (sockets y)) (hub (srv y)) (attachedIn (sockets y));
  inv_live : ∀ id k registration, sockets y !! id = Some k → registrationOf k = Some registration →
    installationID (connection k) = R.InstallationID registration ∧ R.Provider registration = "embedded_socket" ∧
    vouched y registration
}.

Lemma vouched_step y y' registration : step W rest y y' → vouched y registration → vouched y' registration.
Proof. intros Hs (y0 & message & Hr & Hc & Ha). exists y0, message. split_and!; [done| |done]. by eapply rtc_r. Qed.

(** A step that changes neither the phase nor the owner of a connection. *)
Definition alike k k' : Prop :=
  registrationOf k' = registrationOf k ∧ unauthenticated k' = unauthenticated k ∧
  installationID (connection k') = installationID (connection k).

Lemma attachedIn_insert m id k :
  attachedIn (<[id := k]> m) = if isLive k then {[id]} ∪ attachedIn m else attachedIn m ∖ {[id]}.
Proof.
  apply set_eq. intros j. rewrite elem_attachedIn.
  destruct (decide (j = id)) as [->|Hne].
  - rewrite lookup_insert_eq. destruct (isLive k) eqn:Hk; [set_solver|]. split; [|set_solver].
    intros (k' & [= <-] & Hk'). congruence.
  - rewrite lookup_insert_ne by done. rewrite <-elem_attachedIn. destruct (isLive k); set_solver.
Qed.

Lemma attachedIn_alike m id k k' : m !! id = Some k → alike k k' → attachedIn (<[id := k']> m) = attachedIn m.
Proof.
  intros Hk [Hh _]. rewrite attachedIn_insert. unfold isLive at 1. rewrite Hh.
  fold (isLive k). destruct (isLive k) eqn:Hl.
  - assert (id ∈ attachedIn m) by (apply elem_attachedIn; eauto). set_solver.
  - assert (id ∉ attachedIn m); [|set_solver]. rewrite elem_attachedIn. intros (? & ? & ?). congruence.
Qed.

Lemma owner_insert_ne m id k j : j ≠ id → owner (<[id := k]> m) j = owner m j.
Proof. intros Hne. unfold owner. by rewrite lookup_insert_ne. Qed.

Lemma owner_insert_eq m id k : owner (<[id := k]> m) id = installationID (connection k).
Proof. unfold owner. by rewrite lookup_insert_eq. Qed.

Lemma owner_alike m id k k' j : m !! id = Some k → alike k k' → owner (<[id := k']> m) j = owner m j.
Proof.
  intros Hk (_ & _ & Hi). destruct (decide (j = id)) as [->|Hne]; [|by apply owner_insert_ne].
  rewrite owner_insert_eq. unfold owner. by rewrite Hk.
Qed.

(** The steps of a connection that keep its phase, and of the rest. *)
Lemma inv_alike y y' id k k' :
  inv y → step W rest y y' → sockets y !! id = Some k → alike k k' →
  sockets y' = <[id := k']> (sockets y) → preAuthSockets y' = preAuthSockets y → hub_kept (srv y) (srv y') →
  inv y'.
Proof.
  intros [Hslots Hbound Hhub Hlive] Hs Hk Ha Hm Hn Hkept.
  pose proof (proj1 (proj2 Ha)) as Hu.
  split; rewrite ?Hm, ?Hn.
  - rewrite waiting_insert, Hk, Hu. destruct (unauthenticated k); lia.
  - done.
  - rewrite (attachedIn_alike _ _ k) by done. eapply hub_inv_kept; [done|].
    eapply hub_inv_owner; [|exact Hhub]. intros c _. symmetry. by eapply owner_alike.
  - intros j kj registration. rewrite lookup_insert_Some. intros [[<- <-]|[_ Hj]] Hreg.
    + destruct Ha as (Hh & _ & Hi). rewrite Hh in Hreg. rewrite Hi.
      destruct (Hlive id k registration Hk Hreg) as (? & ? & ?). split_and!; [done..|]. by eapply vouched_step.
    + destruct (Hlive j kj registration Hj Hreg) as (? & ? & ?). split_and!; [done..|]. by eapply vouched_step.
Qed.

(** A connection that gives up before or after it has authenticated. *)
Lemma inv_gone y y' id k k' (h : PushHub) :
  inv y → step W rest y y' → sockets y !! id = Some k → handler k' = Done →
  installationID (connection k') = installationID (connection k) →
  sockets y' = <[id := k']> (sockets y) →
  preAuthSockets y' = preAuthSockets y - (if unauthenticated k then 1 else 0) →
  (registrationOf k = None ∧ h = hub (srv y) ∨ h = Detach (owner (sockets y')) (hub (srv y)) id) →
  connections (hub (srv y')) = connections h → shut h ⊆ shut (hub (srv y')) →
  inv y'.
Proof.
  intros [Hslots Hbound Hhub Hlive] Hs Hk Hd Hi Hm Hn Hh Hc Hsub.
  assert (isLive k' = false) as Hl'.
  { unfold isLive, registrationOf. rewrite Hd. by rewrite bool_decide_false by by intros [? ?]. }
  assert (∀ c, owner (sockets y) c = owner (sockets y') c) as Ho.
  { intros c. rewrite Hm. destruct (decide (c = id)) as [->|Hne].
    - rewrite owner_insert_eq. unfold owner. by rewrite Hk.
    - by rewrite owner_insert_ne. }
  assert (hub_inv (owner (sockets y')) h (attachedIn (sockets y'))) as Hinv.
  { rewrite Hm at 2. rewrite attachedIn_insert, Hl'.
    assert (hub_inv (owner (sockets y')) (hub (srv y)) (attachedIn (sockets y))) as H0
      by (eapply hub_inv_owner; [|exact Hhub]; auto).
    destruct Hh as [[Hr ->]| ->].
    - assert (id ∉ attachedIn (sockets y)) as Hni.
      { rewrite elem_attachedIn. intros (k0 & Hk0 & [reg Hreg]%isLive_spec). congruence. }
      by replace (attachedIn (sockets y) ∖ {[id]}) with (attachedIn (sockets y)) by set_solver.
    - by apply hub_inv_detach. }
  split.
  - rewrite Hn, Hm, waiting_insert, Hk. unfold unauthenticated at 3. rewrite Hd. lia.
  - rewrite Hn. destruct (unauthenticated k); lia.
  - destruct Hinv as [H1 H2]. split; rewrite Hc; [done|]. intros c Hin Hns. apply H2; [done|set_solver].
  - intros j kj registration. rewrite Hm, lookup_insert_Some. intros [[<- <-]|[_ Hj]] Hreg.
    + unfold registrationOf in Hreg. by rewrite Hd in Hreg.
    + destruct (Hlive j kj registration Hj Hreg) as (? & ? & ?). split_and!; [done..|]. by eapply vouched_step.
Qed.

(** A connection before its authentication, the new ones included. *)
Lemma inv_waiting y y' id k' :
  inv y → step W rest y y' → sockets y' = <[id := k']> (sockets y) → unauthenticated k' = true →
  match sockets y !! id with
  | Some k => unauthenticated k = true ∧ preAuthSockets y' = preAuthSockets y
  | None => preAuthSockets y' = preAuthSockets y + 1
  end →
  preAuthSockets y' ≤ maxPreAuthSockets → hub (srv y') = hub (srv y) →
  inv y'.
Proof.
  intros [Hslots Hbound Hhub Hlive] Hs Hm Hu Hn Hb Hh.
  assert (registrationOf k' = None) as Hr' by (unfold unauthenticated in Hu; unfold registrationOf; by destruct (handler k')).
  assert (isLive k' = false) as Hl' by (unfold isLive; by rewrite Hr').
  assert (id ∉ attachedIn (sockets y)) as Hni.
  { rewrite elem_attachedIn. intros (k & Hk & [reg Hreg]%isLive_spec). rewrite Hk in Hn. destruct Hn as [Hu0 _].
    unfold unauthenticated in Hu0. unfold registrationOf in Hreg. by destruct (handler k). }
  split; [|done|..].
  - rewrite Hm, waiting_insert, Hu. destruct (sockets y !! id) as [k|]; [|lia]. destruct Hn as [-> ?]. lia.
  - rewrite Hh, Hm, attachedIn_insert, Hl'. replace (_ ∖ {[id]}) with (attachedIn (sockets y)) by set_solver.
    eapply hub_inv_owner; [|exact Hhub]. intros c Hc. rewrite owner_insert_ne; [done|]. set_solver.
  - intros j kj registration. rewrite Hm, lookup_insert_Some. intros [[<- <-]|[_ Hj]] Hreg; [congruence|].
    destruct (Hlive j kj registration Hj Hreg) as (? & ? & ?). split_and!; [done..|]. by eapply vouched_step.
Qed.

Lemma inv_attach y y' id k k' registration :
  inv y → step W rest y y' → sockets y !! id = Some k → unauthenticated k = true →
  handler k' = Connected registration → installationID (connection k') = R.InstallationID registration →
  R.Provider registration = "embedded_socket" → vouched y registration →
  sockets y' = <[id := k']> (sockets y) → preAuthSockets y' = preAuthSockets y - 1 →
  hub (srv y') = Attach (owner (sockets y')) (hub (srv y)) id →
  inv y'.
Proof.
  intros [Hslots Hbound Hhub Hlive] Hs Hk Hu Hh Hi Hp Hv Hm Hn Hhub'.
  assert (id ∉ attachedIn (sockets y)) as Hni.
  { rewrite elem_attachedIn. intros (k0 & Hk0 & [reg Hreg]%isLive_spec). replace k0 with k in Hreg by congruence.
    unfold unauthenticated in Hu. unfold registrationOf in Hreg. by destruct (handler k). }
  split; [|rewrite Hn; lia|..].
  - rewrite Hn, Hm, waiting_insert, Hk, Hu. unfold unauthenticated. rewrite Hh. lia.
  - rewrite Hhub'. rewrite Hm at 3. rewrite attachedIn_insert.
    replace (isLive k') with true by (unfold isLive, registrationOf; by rewrite Hh).
    apply hub_inv_attach. eapply hub_inv_owner; [|exact Hhub]. intros c Hc. rewrite Hm, owner_insert_ne; [done|].
    set_solver.
  - intros j kj reg. rewrite Hm, lookup_insert_Some. intros [[<- <-]|[_ Hj]] Hreg.
    + unfold registrationOf in Hreg. rewrite Hh in Hreg. simplify_eq. split_and!; [done..|]. by eapply vouched_step.
    + destruct (Hlive j kj reg Hj Hreg) as (? & ? & ?). split_and!; [done..|]. by eapply vouched_step.
Qed.

(** ** The steps keep it *)

Lemma sendJSON_socket io y id k message :
  handler (Sockets.sendJSON io y id k message).1 = handler k ∧
  connection (Sockets.sendJSON io y id k message).1 = connection k.
Proof. unfold Sockets.sendJSON. destruct (isClosed _ _); [done|]. by destruct io. Qed.

Lemma same_phase k k' : handler k' = handler k → connection k' = connection k → alike k k'.
Proof. intros Hh Hc. unfold alike, registrationOf, unauthenticated. by rewrite Hh, Hc. Qed.

Lemma audited_hub y record : hub (srv (audited W y record)) = hub (srv y).
Proof. apply auditRecord_hub. Qed.

(** The end of a connection: [leave], from the state [y1] the handler left
    it in. *)
Lemma inv_leave y y1 id k k1 registration :
  inv y → step W rest y (leave W y1 id k1 registration) → sockets y !! id = Some k →
  registrationOf k = Some registration → connection k1 = connection k →
  sockets y1 = sockets y → preAuthSockets y1 = preAuthSockets y → hub (srv y1) = hub (srv y) →
  inv (leave W y1 id k1 registration).
Proof.
  intros Hinv Hs Hk Hr Hc Hm Hn Hh.
  assert (unauthenticated k = false) as Hu by (unfold registrationOf in Hr; unfold unauthenticated; by destruct (handler k)).
  apply (inv_gone y _ id k (k1 <| handler := Done |>)
    (Detach (owner (sockets (leave W y1 id k1 registration))) (hub (srv y)) id)); [done|done|done|done|..].
  - cbn. by rewrite Hc.
  - unfold leave, audited, closeConnection, put. cbn. by rewrite Hm.
  - unfold leave, audited, closeConnection, put. cbn. rewrite Hn, Hu. lia.
  - right. reflexivity.
  - unfold leave, closeConnection. cbn. rewrite auditRecord_hub. cbn. by rewrite Hh.
  - unfold leave, closeConnection. cbn. rewrite auditRecord_hub. cbn. rewrite Hh. set_solver.
Qed.

Lemma acceptSocket_inv y id r w : step W rest y (accept y id r w).1 → sockets y !! id = None → inv y → inv (accept y id r w).1.
Proof.
  intros Hs Hid Hinv. pose proof (inv_bound _ Hinv). unfold accept in *.
  destruct (Z.leb_spec maxPreAuthSockets (preAuthSockets y)); [done|].
  eapply (inv_waiting y); [done|exact Hs|reflexivity|done| |cbn; lia|done]. by rewrite Hid.
Qed.

Lemma upgrade_inv y id k r w :
  step W rest y (upgrade W y id k r w).1 → sockets y !! id = Some k → handler k = Upgrading r w → inv y →
  inv (upgrade W y id k r w).1.
Proof.
  intros Hs Hk Hh Hinv. pose proof (inv_bound _ Hinv). unfold upgrade in *.
  assert (unauthenticated k = true) as Hu by (unfold unauthenticated; by rewrite Hh).
  destruct (upgradePushSocket _ _ _) as [[written text] [c|err]]; cbn [fst] in *.
  - eapply (inv_waiting y); [done|exact Hs|reflexivity|done| |done|done]. by rewrite Hk.
  - apply (inv_gone y _ id k (k <| handler := Done |>) (hub (srv y)));
      [done|exact Hs|done|done|done|done| |left|done|done].
    + cbn. by rewrite Hu.
    + split; [unfold registrationOf; by rewrite Hh|reflexivity].
Qed.

Lemma authenticate_inv y id k reads io :
  reachable W rest start y → step W rest y (authenticate W y id k reads io) →
  sockets y !! id = Some k → handler k = Authenticating → inv y →
  inv (authenticate W y id k reads io).
Proof.
  intros Hreach Hs Hk Hh Hinv. unfold authenticate in *.
  assert (unauthenticated k = true) as Hu by (unfold unauthenticated; by rewrite Hh).
  pose proof (authenticatePushSocket_spec W (srv y) reads ((connection k) <| closed := isClosed y id |>)) as Hspec.
  destruct (authenticatePushSocket _ _ _ _) as [[s1 c1] answer]. destruct Hspec as (Hhub & Hst & Hspec).
  destruct answer as [registration|err].
  - destruct Hspec as (Hi & Hp & message & _ & Ha).
    apply (inv_attach y _ id k (k <| connection := c1 |> <| handler := Connected registration |>) registration); [done|exact Hs|done|done|reflexivity|exact Hi|done| |reflexivity|reflexivity|].
    + exists y, message. by split_and!.
    + rewrite audited_hub. cbn. by rewrite Hhub.
  - pose proof (sendJSON_socket io (y <| srv := s1 |>) id (k <| connection := c1 |>) (errorMessage (Error err))) as [_ Hc].
    destruct (Sockets.sendJSON _ _ _ _ _) as [k1 sent]. cbn [fst] in Hc.
    apply (inv_gone y _ id k (k1 <| handler := Done |>) (hub (srv y))); [done|exact Hs|done|done| |done| |left| |].
    + cbn. rewrite Hc. exact Hspec.
    + cbn. by rewrite Hu.
    + split; [unfold registrationOf; by rewrite Hh|reflexivity].
    + cbn. rewrite auditRecord_hub. cbn. by rewrite Hhub.
    + cbn. rewrite auditRecord_hub. cbn. rewrite Hhub. set_solver.
Qed.

Lemma greet_inv y id k registration io :
  step W rest y (greet W y id k registration io) → sockets y !! id = Some k → handler k = Connected registration →
  inv y → inv (greet W y id k registration io).
Proof.
  intros Hs Hk Hh Hinv. unfold greet in *. cbn [Now] in *.
  match goal with |- context [Sockets.sendJSON io ?y1 id k ?m] =>
    pose proof (sendJSON_socket io y1 id k m) as [Hh1 Hc1]; destruct (Sockets.sendJSON io y1 id k m) as [k1 err]
  end.
  cbn [fst] in Hh1, Hc1. destruct err as [err|].
  - eapply inv_leave; [done|exact Hs|done|unfold registrationOf; by rewrite Hh|done..].
  - eapply (inv_alike y _ id k); [done|exact Hs|done| |reflexivity|reflexivity|].
    + unfold alike, registrationOf, unauthenticated. cbn. by rewrite Hh, Hc1.
    + apply (flushPending_hub W (tick (srv y))).
Qed.

Lemma heartbeat_inv y id k registration io :
  step W rest y (heartbeat W y id k registration io) → sockets y !! id = Some k → handler k = Serving registration →
  inv y → inv (heartbeat W y id k registration io).
Proof.
  intros Hs Hk Hh Hinv. unfold heartbeat in *. cbn [Now] in *.
  match goal with |- context [Sockets.sendJSON io ?y1 id k ?m] =>
    pose proof (sendJSON_socket io y1 id k m) as [Hh1 Hc1]; destruct (Sockets.sendJSON io y1 id k m) as [k1 err]
  end.
  cbn [fst] in Hh1, Hc1. destruct err as [err|].
  - eapply inv_leave; [done|exact Hs|done|unfold registrationOf; by rewrite Hh|done..].
  - eapply (inv_alike y _ id k); [done|exact Hs|done|by apply same_phase|reflexivity|reflexivity|].
    apply (flushPending_hub W (tick (srv y))).
Qed.

Lemma read_inv y id k reads :
  step W rest y (read y id k reads) → sockets y !! id = Some k → inv y → inv (read y id k reads).
Proof.
  intros Hs Hk Hinv. unfold read in *.
  pose proof (readLoop_installation (S (length (input (connection k)))) reads ((connection k) <| closed := isClosed y id |>)) as Hi.
  change (readLoop _ _ _) with (readText reads ((connection k) <| closed := isClosed y id |>)) in Hi.
  destruct (readText _ _) as [c text]. cbn [fst] in Hi.
  eapply (inv_alike y _ id k); [done|exact Hs|done| |reflexivity|reflexivity|done]. by split_and!.
Qed.

Lemma ack_frame y k event :
  sockets (ack W y k event) = sockets y ∧ preAuthSockets (ack W y k event) = preAuthSockets y ∧
  hub (srv (ack W y k event)) = hub (srv y).
Proof.
  unfold ack. cbn [Now]. destruct (DeliveryStore.Ack _ _ _ _) as [d err]. destruct err; [done|].
  split_and!; [done..|]. by rewrite audited_hub.
Qed.

Lemma handle_inv y id k payload io :
  step W rest y (handle W y id k payload io) → sockets y !! id = Some k → inv y → inv (handle W y id k payload io).
Proof.
  intros Hs Hk Hinv. unfold handle in *. cbv zeta in *.
  assert (∀ m, step W rest y (put y id (Sockets.sendJSON io y id k (errorMessage m)).1 <| reader := Reading |>) →
    inv (put y id (Sockets.sendJSON io y id k (errorMessage m)).1 <| reader := Reading |>)) as Hreply.
  { intros m Hs'. destruct (sendJSON_socket io y id k (errorMessage m)) as [Hh Hc].
    eapply (inv_alike y _ id k); [done|exact Hs'|done| |reflexivity|reflexivity|done]. by apply same_phase. }
  destruct (decodeMessage W payload) as [message|]; [|auto].
  destruct (Type_ message == "ack"); [|destruct (Type_ message == "pong"); [|auto]].
  - destruct (ack_frame y k (MEventID message)) as (Hm & Hn & Hh).
    destruct (MEventID message == ""); cbn [negb] in *.
    + eapply (inv_alike y _ id k); [done|exact Hs|done| |reflexivity|reflexivity|done]. by apply same_phase.
    + apply (inv_alike y _ id k (k <| reader := Reading |>)); [done|exact Hs|done|by apply same_phase| |exact Hn|by apply hub_kept_eq].
      unfold put. cbn [sockets update]. by rewrite <-Hm.
  - eapply (inv_alike y _ id k); [done|exact Hs|done| |reflexivity|reflexivity|done]. by apply same_phase.
Qed.

Lemma rest_inv y s : step W rest y (y <| srv := s |>) → rest (srv y) s → inv y → inv (y <| srv := s |>).
Proof.
  intros Hs Hr [Hslots Hbound Hhub Hlive]. split; [done..| |].
  - eapply hub_inv_kept; [by apply rest_kept|done].
  - intros j kj registration Hj Hreg. destruct (Hlive j kj registration Hj Hreg) as (? & ? & ?).
    split_and!; [done..|]. by eapply vouched_step.
Qed.

Lemma step_inv y y' : reachable W rest start y → inv y → step W rest y y' → inv y'.
Proof.
  intros Hreach Hinv Hs. pose proof Hs as Hs'. destruct Hs'.
  - by apply acceptSocket_inv.
  - by apply upgrade_inv.
  - by apply authenticate_inv.
  - by apply greet_inv.
  - by apply heartbeat_inv.
  - eapply inv_leave; [done|exact Hs|done| |done..]. unfold registrationOf. by rewrite H0.
  - by apply read_inv.
  - by apply handle_inv.
  - by apply rest_inv.
Qed.

Lemma reachable_inv y : reachable W rest start y → inv y.
Proof.
  induction 1 as [|y y' Hr IH Hs]; [|by eapply step_inv].
  split; cbn; [done|done| |by intros ? ? ?]. rewrite start_hub. by split; cbn; [intros ??; rewrite lookup_empty|intros ? H].
Qed.

(** ** Theorems *)

(** The slots for connections that have not authenticated are never lost
    and never granted twice.  Whatever the connections and the rest of the
    server have done, the number of slots taken is the number of connections
    that have not authenticated yet, at most 256, and a new connection is
    refused exactly when there are 256 of them. *)
Theorem slots_exact y id r w :
  reachable W rest start y →
  preAuthSockets y = waiting (sockets y) ∧ 0 ≤ preAuthSockets y ≤ maxPreAuthSockets ∧
  (is_Some (accept y id r w).2 ↔ waiting (sockets y) = maxPreAuthSockets).
Proof.
  intros Hr. destruct (reachable_inv y Hr) as [Hs Hb _ _].
  assert (0 ≤ waiting (sockets y)) by apply Zle_0_nat. split_and!; [done|lia|done|].
  unfold accept. destruct (Z.leb_spec maxPreAuthSockets (preAuthSockets y)); split.
  - intros _. lia.
  - by eexists.
  - by intros [? ?].
  - lia.
Qed.

(** The hub routes to authenticated connections, and to all of them.  An
    installation is routed to a connection whose handler serves a
    registration of that installation with the socket transport, and that
    registration was the store's answer to the installation and secret the
    connection presented; and every authenticated connection that is not
    closed is the one its installation is routed to. *)
Theorem connections_routed y :
  reachable W rest start y →
  (∀ installation id, connections (hub (srv y)) !! installation = Some id →
     ∃ k registration, sockets y !! id = Some k ∧ registrationOf k = Some registration ∧
       R.InstallationID registration = installation ∧ R.Provider registration = "embedded_socket" ∧
       vouched y registration) ∧
  (∀ id k registration, sockets y !! id = Some k → registrationOf k = Some registration → id ∉ shut (hub (srv y)) →
     connections (hub (srv y)) !! R.InstallationID registration = Some id).
Proof.
  intros Hr. destruct (reachable_inv y Hr) as [_ _ [Ho Hl] Hlive]. split.
  - intros installation id Hc. destruct (Ho _ _ Hc) as [Hown (k & Hk & [registration Hreg]%isLive_spec)%elem_attachedIn].
    destruct (Hlive id k registration Hk Hreg) as (Hi & Hp & Hv). exists k, registration. split_and!; try done.
    unfold owner in Hown. rewrite Hk in Hown. congruence.
  - intros id k registration Hk Hreg Hs. destruct (Hlive id k registration Hk Hreg) as (Hi & _ & _).
    assert (id ∈ attachedIn (sockets y)) as Hin by (apply elem_attachedIn; exists k; split; [done|]; apply isLive_spec; eauto).
    specialize (Hl id Hin Hs). unfold owner in Hl. rewrite Hk in Hl. congruence.
Qed.

Lemma Ack_records d inst ev at_ key :
  DeliveryStore.Records (DeliveryStore.Ack d inst ev at_).1 !! key = DeliveryStore.Records d !! key ∨
  ∃ record, DeliveryStore.Records d !! key = Some record ∧ D.InstallationID record = inst ∧ D.EventID record = ev ∧
    DeliveryStore.Records (DeliveryStore.Ack d inst ev at_).1 !! key = Some (DeliveryStore.acknowledge at_ record).
Proof.
  unfold DeliveryStore.Ack. set (d1 := d <| DeliveryStore.Records := _ |>).
  assert ((if negb (range_exists (DeliveryStore.samePair inst ev) (DeliveryStore.Records d))
           then (d1, Some ErrRegistrationNotFound) else (d1, DeliveryStore.persistLocked d1)).1 = d1) as -> by by destruct (negb _).
  unfold d1. cbn. rewrite range_update_lookup.
  destruct (DeliveryStore.Records d !! key) as [record|] eqn:Hk; [|by left]. cbn.
  destruct (DeliveryStore.samePair inst ev key record) eqn:Hp; [right|by left].
  unfold DeliveryStore.samePair in Hp. apply andb_prop in Hp as [Hi%bool_decide_eq_true He%bool_decide_eq_true].
  by exists record.
Qed.

(** C8: a connection acknowledges only what was sent to its own
    installation.  Whatever message the reader of a served connection
    handles, a delivery that changes belongs to the registration the
    connection authenticated for, is the event the message names, and becomes
    acknowledged; the inbox does not change. *)
Theorem push_acks_own_deliveries y id k registration payload io key :
  reachable W rest start y → sockets y !! id = Some k → registrationOf k = Some registration →
  let d := deliveries (srv y) in let d' := deliveries (srv (handle W y id k payload io)) in
  DeliveryStore.EventSubInbox d' = DeliveryStore.EventSubInbox d ∧
  (DeliveryStore.Records d' !! key = DeliveryStore.Records d !! key ∨
   ∃ message record, decodeMessage W payload = Some message ∧ Type_ message = "ack" ∧
     DeliveryStore.Records d !! key = Some record ∧ D.InstallationID record = R.InstallationID registration ∧
     D.EventID record = MEventID message ∧
     DeliveryStore.Records d' !! key = Some (DeliveryStore.acknowledge (clock W (ticks (srv y))) record)).
Proof.
  intros Hr Hk Hreg. cbv zeta. destruct (inv_live y (reachable_inv y Hr) id k registration Hk Hreg) as (Hi & _ & _).
  unfold handle. destruct (decodeMessage W payload) as [message|]; [|by split; [|left]].
  destruct (bool_decide_reflect (Type_ message = "ack")) as [Ht|]; [|destruct (_ == _); by split; [|left]].
  destruct (_ == ""); cbn [negb]; [by split; [|left]|]. unfold put. cbn [srv update].
  unfold ack. cbn [Now]. rewrite Hi.
  pose proof (Ack_records (deliveries (srv y)) (R.InstallationID registration) (MEventID message)
    (clock W (ticks (srv y))) key) as Ha.
  assert (DeliveryStore.EventSubInbox (DeliveryStore.Ack (deliveries (srv y)) (R.InstallationID registration) (MEventID message)
    (clock W (ticks (srv y)))).1 = DeliveryStore.EventSubInbox (deliveries (srv y))) as Hb
    by (unfold DeliveryStore.Ack; by destruct (negb _)).
  change (deliveries (tick (srv y))) with (deliveries (srv y)).
  destruct (DeliveryStore.Ack _ _ _ _) as [d err]. cbn [fst] in Ha, Hb.
  match goal with |- context [match err with Some _ => ?a | None => ?b end] =>
    assert (deliveries (srv (match err with Some _ => a | None => b end)) = d) as Hd end.
  { destruct err; [done|]. cbn. by rewrite (proj1 (proj2 (DispatchProofs.auditRecord_frame W _ _))). }
  cbn in Hd |- *. rewrite Hd. split; [done|]. destruct Ha as [?|(record & ? & ? & ? & ?)]; [by left|].
  right. by exists message, record.
Qed.
End Connections.

(** The sample of RFC 6455, section 1.3. *)
Example rfc6455_accept : acceptOf "dGhlIHNhbXBsZSBub25jZQ==" = "s3pPLMBiTxaQ9kYGzzhZRbK+xOo=".
Proof. vm_compute. reflexivity. Qed.

(** ** A connection, from its request to its first acknowledgement *)

Module SocketExample.
Import ServerProofs.Example.

(** Messages are a single letter here: [a] authenticates, [k] acknowledges. *)
Definition world : World :=
  ServerProofs.Example.world <| decodeMessage := λ payload,
    match payload with
    | [97] => Some (mkMessage "authenticate" 1 "device" secret "" "")
    | [107] => Some (mkMessage "ack" 0 "" "" "" "e1")
    | _ => None
    end |>.

Definition upgradeRequest : httpRequest :=
  mkRequest "GET" "/v1/push/socket" (λ _, "") (λ _, "")
    (λ name, if name == "Upgrade" then "websocket" else if name == "Connection" then "keep-alive, Upgrade" else
             if name == "Sec-WebSocket-Version" then "13" else
             if name == "Sec-WebSocket-Key" then "dGhlIHNhbXBsZSBub25jZQ==" else "") "" "".
Definition peer : wire :=
  mkWire true None None None (clientFrame 1 [1; 2; 3; 4] [97] ++ clientFrame 1 [5; 6; 7; 8] [107]).

Definition delivery : D.t := D.zero <| D.ID := "d1" |> <| D.InstallationID := "device" |> <| D.EventID := "e1" |>
  <| D.Status := DeliveryStatusPending |> <| D.CreatedAt := 900 |> <| D.ExpiresAt := Hour |>.
Definition start : server RegistrationStore.t :=
  registered <| deliveries := DeliveryStore.newMemoryDeliveryStore <| DeliveryStore.Records := {["d1" := delivery]} |> |>.

Definition at_ (y : system RegistrationStore.t) : socket :=
  default (mkSocket noConn Done NotStarted []) (sockets y !! 0%nat).
Definition y0 : system RegistrationStore.t := mkSystem start 0 ∅.
Definition y1 : system RegistrationStore.t := (accept y0 0 upgradeRequest peer).1.
Definition y2 : system RegistrationStore.t := (upgrade world y1 0 (at_ y1) upgradeRequest peer).1.
Definition y3 : system RegistrationStore.t := authenticate world y2 0 (at_ y2) (λ _, None) None.
Definition saved3 : R.t := default R.zero (registrationOf (at_ y3)).
Definition y4 : system RegistrationStore.t := greet world y3 0 (at_ y3) saved3 None.
Definition y5 : system RegistrationStore.t := read y4 0 (at_ y4) (λ _, None).

Lemma start_empty : hub start = NewPushHub.
Proof. vm_compute. reflexivity. Qed.
Lemma y1_reachable : reachable world hub_kept start y1.
Proof.
  apply (reach_step _ _ _ y0 _ (reach_start _ _ _)). unfold y1.
  apply (step_accept world hub_kept y0 0 upgradeRequest peer); [reflexivity|].
  change (0%nat ∉ shut (hub start)). rewrite start_empty. by apply not_elem_of_empty.
Qed.
Lemma y2_reachable : reachable world hub_kept start y2.
Proof.
  apply (reach_step _ _ _ y1 _ y1_reachable). unfold y2.
  apply (step_upgrade world hub_kept y1 0 (at_ y1) upgradeRequest peer); vm_compute; reflexivity.
Qed.
Lemma y3_reachable : reachable world hub_kept start y3.
Proof.
  apply (reach_step _ _ _ y2 _ y2_reachable). unfold y3.
  apply (step_authenticate world hub_kept y2 0 (at_ y2)); vm_compute; reflexivity.
Qed.
Lemma y4_reachable : reachable world hub_kept start y4.
Proof.
  apply (reach_step _ _ _ y3 _ y3_reachable). unfold y4.
  apply (step_greet world hub_kept y3 0 (at_ y3)); vm_compute; reflexivity.
Qed.
Lemma y5_reachable : reachable world hub_kept start y5.
Proof.
  apply (reach_step _ _ _ y4 _ y4_reachable). unfold y5.
  apply (step_read world hub_kept y4 0 (at_ y4)); vm_compute; reflexivity.
Qed.

Lemma hub_kept_self (s s' : server RegistrationStore.t) : hub_kept s s' → hub_kept s s'.
Proof. done. Qed.
End SocketExample.
Import ServerProofs.Example SocketExample.

Lemma push_acks_own_deliveries_witness :
  let y6 := handle world y5 0 (at_ y5) [107] None in
  D.Status <$> DeliveryStore.Records (deliveries (srv y5)) !! "d1" = Some DeliveryStatusSent ∧
  D.Status <$> DeliveryStore.Records (deliveries (srv y6)) !! "d1" = Some DeliveryStatusAcked ∧
  DeliveryStore.EventSubInbox (deliveries (srv y6)) = DeliveryStore.EventSubInbox (deliveries (srv y5)).
Proof.
  assert (sockets y5 !! 0%nat = Some (at_ y5)) as Hk by (vm_compute; reflexivity).
  assert (registrationOf (at_ y5) = Some saved3) as Hr by (vm_compute; reflexivity).
  pose proof (push_acks_own_deliveries world hub_kept hub_kept_self start start_empty y5 0 (at_ y5) saved3 [107] None "d1"
    y5_reachable Hk Hr) as [H _].
  cbv zeta. split; [vm_compute; reflexivity|]. split; [vm_compute; reflexivity|exact H].
Defined.
End SocketProofs.
