(* ===== verification/SyncHandlers.v ===== *)
(** * Settings synchronization handlers: [internal/application/sync_handlers.go]

    The four endpoints over the settings store.  A request is authorized by
    a session token together with the installation and the device secret the
    session was created for; the settings it reads or writes are those of
    the Twitch user of the session.  JSON decoding is given by arguments. *)

From stdpp Require Import pretty.
From S2P Require Import Prelude GoStrings NetIP Config Credentials Domain RegistrationStore SettingsSync AuditStore.
From S2P Require Import RateLimit DeliveryStore AuthStore PushSocket RegistrationInput Repositories Server ServerProofs.
#[local] Open Scope Z_scope.
#[local] Open Scope go_scope.

Module SyncHandlers.
Import Server.
Module Snap := SettingsSyncSnapshot.
Module Ses := AuthSessionRecord.
Module Cred := AuthCredential.

Definition settingsBackupFormat : string := "ferventio-settings-backup".
Definition minimumSettingsBackupVersion : Z := 1.
Definition maximumSettingsBackupVersion : Z := 2.
Definition maxSettingsSyncPayloadBytes : Z := Z.shiftl 1 20.

Record settingsSyncPutRequest := mkPut {
  BaseRevision : Z;
  Force : bool;
  PutPayload : string
}.

Record settingsBackupHeader := mkHeader {
  Format : string;
  FormatVersion : Z;
  AppVersion : string;
  ContentHash : string
}.

Definition isSupportedSettingsBackupVersion (version : Z) : bool :=
  (minimumSettingsBackupVersion <=? version) && (version <=? maximumSettingsBackupVersion).

(** A lower-case hexadecimal digit. *)
Definition hashCharacter (c : ascii) : bool :=
  let v := Z.of_N (N_of_ascii c) in
  ((48 <=? v) && (v <=? 57)) || ((97 <=? v) && (v <=? 102)).

(** [%t] *)
Definition showBool (b : bool) : string := if b then "true" else "false".

Section Handlers.
Context {RS : Type} `{!RegistrationRepository RS}.
Context {rt : GoRuntime} {sha : Sha256} (W : World).
(** Whether an authentication store is configured, and JSON decoding:
    [decodeSettingsSyncJSON], [json.Valid], [json.Unmarshal] of the header. *)
Context (authConfigured : bool) (decodePut : string → result settingsSyncPutRequest)
  (jsonValid : string → bool) (decodeHeader : string → option settingsBackupHeader).
Implicit Types (s : server RS).

Definition validateSettingsSyncPayload (payload : string) : result settingsBackupHeader :=
  if (len payload =? 0) || (maxSettingsSyncPayloadBytes <? len payload) || negb (jsonValid payload)
  then Err (ErrMsg "invalid settings payload") else
  match decodeHeader payload with
  | None => Err (ErrMsg "invalid settings backup envelope")
  | Some header =>
      if (Format header != settingsBackupFormat) ||
         negb (isSupportedSettingsBackupVersion (FormatVersion header))
      then Err (ErrMsg "unsupported settings backup format") else
      if (len (AppVersion header) =? 0) || (40 <? len (AppVersion header))
      then Err (ErrMsg "invalid settings app version") else
      if negb (len (ContentHash header) =? 64) then Err (ErrMsg "invalid settings content hash") else
      if negb (forallb hashCharacter (String.list_ascii_of_string (ContentHash header)))
      then Err (ErrMsg "invalid settings content hash") else
      Ok header
  end.

(** [auth_handlers.go] *)
Definition writeAuthRecordError (err : error) : response :=
  match err with
  | ErrAuthExpired => writeError 401 "authentication record expired"
  | ErrAuthDeviceMismatch => writeError 403 "device binding mismatch"
  | ErrAuthStateMismatch => writeError 403 "OAuth state mismatch"
  | ErrAuthCapacity => writeError 429 "authentication capacity exceeded"
  | ErrAuthNotFound => writeError 401 "authentication record not found"
  | _ => writeError 500 "authentication storage failed"
  end.

Definition authorizeMobileSession s (r : httpRequest) : server RS * (response + Ses.t) :=
  let token := bearerToken r in
  let installationID := TrimSpace (Header r "X-Installation-ID") in
  let deviceSecret := TrimSpace (Header r "X-Device-Secret") in
  if (token == "") || (installationID == "") || (deviceSecret == "")
  then (s, inl (writeError 401 "missing backend session credentials")) else
  let '(s, now) := Now W s in
  let '(a, session) := AuthStore.ResolveSession now (authStore s) token installationID deviceSecret
                         (AuthSessionTTL (cfg W)) in
  let s := s <| authStore := a |> in
  match session with
  | Err err => (s, inl (writeAuthRecordError err))
  | Ok session => (s, inr session)
  end.

Definition authorizeSettingsSync s (r : httpRequest) : server RS * (response + Cred.t * Ses.t) :=
  if negb authConfigured then (s, inl (writeError 503 "settings sync is not configured")) else
  let '(s, authorized) := authorizeMobileSession s r in
  match authorized with
  | inl response => (s, inl response)
  | inr session =>
      match AuthStore.GetCredential (aead W) (authStore s) (Ses.CredentialID session) with
      | Err _ => (s, inl (writeError 401 "Twitch authorization is missing"))
      | Ok credential =>
          if Cred.UserID credential == "" then (s, inl (writeError 401 "Twitch authorization is missing"))
          else (s, inr (credential, session))
      end
  end.

Definition getSettingsSync s (r : httpRequest) : server RS * response :=
  let '(s, authorized) := authorizeSettingsSync s r in
  match authorized with
  | inl response => (s, response)
  | inr (credential, _) =>
      match SettingsSync.CurrentSnapshot (settingsSync s) (Cred.UserID credential) with
      | None => (s, mkResponse 204 NoContent)
      | Some snapshot => (s, mkResponse 200 (JSnapshot snapshot))
      end
  end.

Definition auditSettings s (action : string) (credential : Cred.t) (session : Ses.t) (detail : string)
    : server RS :=
  auditRecord W s (A.zero <| A.Action := action |> <| A.Status := "ok" |>
    <| A.InstallationID := Ses.InstallationID session |> <| A.UserID := Cred.UserID credential |>
    <| A.Detail := detail |>).

Definition putSettingsSync s (r : httpRequest) : server RS * response :=
  let '(s, authorized) := authorizeSettingsSync s r in
  match authorized with
  | inl response => (s, response)
  | inr (credential, session) =>
  match decodePut (Body r) with
  | Err err => (s, writeError 400 (Error err))
  | Ok request =>
  match validateSettingsSyncPayload (PutPayload request) with
  | Err err => (s, writeError 400 (Error err))
  | Ok header =>
      let '(s, now) := Now W s in
      let '(stored, (snapshot, err)) :=
        SettingsSync.Put now (settingsSync s) (Cred.UserID credential) (Ses.InstallationID session)
          (BaseRevision request) (Force request) (AppVersion header) (ContentHash header)
          (PutPayload request) in
      let s := s <| settingsSync := stored |> in
      match err with
      | Some ErrSettingsSyncConflict =>
          (s, mkResponse 409 (JConflict "settings revision conflict" snapshot))
      | Some _ => (s, writeError 500 "failed to save settings snapshot")
      | None =>
          let s := auditSettings s "settings.sync.put" credential session
            ("revision=" +:+ pretty (Snap.Revision snapshot) +:+ " force=" +:+ showBool (Force request)) in
          (s, mkResponse 200 (JSnapshot snapshot))
      end
  end
  end
  end.

Definition getSettingsSyncHistory s (r : httpRequest) : server RS * response :=
  let '(s, authorized) := authorizeSettingsSync s r in
  match authorized with
  | inl response => (s, response)
  | inr (credential, _) =>
      let history := SettingsSync.HistoryOf (settingsSync s) (Cred.UserID credential) in
      (s, mkResponse 200 (JHistory ((λ snapshot,
         (Snap.Revision snapshot, Snap.UpdatedAt snapshot, Snap.UpdatedByInstallationID snapshot,
          Snap.AppVersion snapshot, Snap.ContentHash snapshot)) <$> history)))
  end.

Definition restoreSettingsSyncRevision s (r : httpRequest) : server RS * response :=
  let '(s, authorized) := authorizeSettingsSync s r in
  match authorized with
  | inl response => (s, response)
  | inr (credential, session) =>
      match ParseInt (TrimSpace (PathValue r "revision")) with
      | None => (s, writeError 400 "invalid settings revision")
      | Some revision =>
          if revision <=? 0 then (s, writeError 400 "invalid settings revision") else
          let '(s, now) := Now W s in
          let '(stored, (snapshot, err)) :=
            SettingsSync.Restore now (settingsSync s) (Cred.UserID credential)
              (Ses.InstallationID session) revision in
          let s := s <| settingsSync := stored |> in
          match err with
          | Some ErrSettingsSyncRevisionNotFound => (s, writeError 404 "settings revision not found")
          | Some _ => (s, writeError 500 "failed to restore settings revision")
          | None =>
              let s := auditSettings s "settings.sync.restore" credential session
                ("source_revision=" +:+ pretty revision +:+ " new_revision=" +:+
                 pretty (Snap.Revision snapshot)) in
              (s, mkResponse 200 (JSnapshot snapshot))
          end
      end
  end.

(** ** Authorization *)

(** The request carries the token of a live session of its installation and
    device, whose credential belongs to [userID]. *)
Definition signed_in s (r : httpRequest) (userID : string) : Prop :=
  ∃ session credential,
    AuthStore.Sessions (authStore s) !! Memory.hashSecret (bearerToken r) = Some session ∧
    Ses.InstallationID session = TrimSpace (Header r "X-Installation-ID") ∧
    Ses.DeviceHash session = Memory.hashSecret (TrimSpace (Header r "X-Device-Secret")) ∧
    clock W (ticks s) ≤ Ses.ExpiresAt session ∧
    AuthStore.GetCredential (aead W) (authStore s) (Ses.CredentialID session) = Ok credential ∧
    Cred.UserID credential = userID ∧ userID ≠ "".

Lemma ResolveSession_ok now a token installationID deviceSecret ttl a' session :
  AuthStore.ResolveSession now a token installationID deviceSecret ttl = (a', Ok session) →
  AuthStore.Credentials a' = AuthStore.Credentials a ∧
  ∃ x, AuthStore.Sessions a !! Memory.hashSecret token = Some x ∧
    Ses.InstallationID x = installationID ∧ Ses.DeviceHash x = Memory.hashSecret deviceSecret ∧
    now ≤ Ses.ExpiresAt x ∧ Ses.CredentialID session = Ses.CredentialID x ∧
    Ses.InstallationID session = installationID.
Proof.
  unfold AuthStore.ResolveSession.
  destruct (AuthStore.Sessions a !! _) as [x|]; [|done].
  destruct (After now (Ses.ExpiresAt x)) eqn:Hexp; [by destruct (AuthStore.persistLocked _)|].
  destruct (_ || _) eqn:Hdev; [done|].
  rewrite orb_false_iff, !negb_false_iff, bool_decide_eq_true, Memory.secureHashEqual_spec in Hdev.
  destruct Hdev as [Hi [Hd _]]. unfold After in Hexp. apply Z.ltb_ge in Hexp.
  destruct (_ && _); intros [= <- <-]; (split; [done|]); exists x; by split_and!.
Qed.

Lemma authorizeSettingsSync_ok s r s' credential session :
  authorizeSettingsSync s r = (s', inr (credential, session)) →
  settingsSync s' = settingsSync s ∧ signed_in s r (Cred.UserID credential) ∧
  Ses.InstallationID session = TrimSpace (Header r "X-Installation-ID").
Proof.
  unfold authorizeSettingsSync, authorizeMobileSession, Now.
  destruct (negb authConfigured); [done|]. destruct (_ || _); [done|].
  destruct (AuthStore.ResolveSession _ _ _ _ _ _) as [a [x|e]] eqn:Hres; [|done].
  apply ResolveSession_ok in Hres as (Hcreds & y & Hy & Hi & Hd & Hexp & Hcid & Hxi).
  destruct (AuthStore.GetCredential _ _ _) as [c|] eqn:Hcred; [|done].
  case_bool_decide as Hu; [done|]. intros [= <- <- <-].
  split_and!; [done| |done]. exists y, c. split_and!; try done.
  rewrite <-Hcid, <-Hcred. unfold AuthStore.GetCredential. cbn. by rewrite Hcreds.
Qed.

Lemma authorizeSettingsSync_refused s r s' resp :
  authorizeSettingsSync s r = (s', inl resp) → settingsSync s' = settingsSync s.
Proof.
  unfold authorizeSettingsSync, authorizeMobileSession, Now.
  destruct (negb authConfigured); [by intros [= <- _]|]. destruct (_ || _); [by intros [= <- _]|].
  destruct (AuthStore.ResolveSession _ _ _ _ _ _) as [a [x|e]]; [|by intros [= <- _]].
  destruct (AuthStore.GetCredential _ _ _); [|by intros [= <- _]].
  case_bool_decide; [by intros [= <- _]|done].
Qed.

(** ** Effects on the store *)

(** The snapshot a user's client is shown: the zero value before the first
    write. *)
Definition shown (st : SettingsSync.t) (userID : string) : Snap.t :=
  default Snap.zero (SettingsSync.CurrentSnapshot st userID).

(** Only [userID]'s settings may differ. *)
Definition only (userID : string) (st st' : SettingsSync.t) : Prop :=
  ∀ u, u ≠ userID → SettingsSync.Users st' !! u = SettingsSync.Users st !! u.

Lemma put_effect now st userID inst base force app hash payload st' snapshot err :
  SettingsSync.Put now st userID inst base force app hash payload = (st', (snapshot, err)) →
  only userID st st' ∧ snapshot = shown st' userID.
Proof.
  unfold SettingsSync.Put, SettingsSync.putLocked, shown, SettingsSync.CurrentSnapshot, SettingsSync.lookupUser.
  cbn [SettingsSync.persistLocked].
  destruct (SettingsSync.Users st !! userID) as [u|] eqn:Hu; unfold default; cbn [id];
    (destruct (_ && _); [case_match; intros [= <- <- _]; rewrite Hu; (split; [done|]); cbn; by simplify_option_eq|]).
  - destruct (SettingsSyncUserState.Current u) as [c|] eqn:Hc; [case_bool_decide|].
    + intros [= <- <- _]. split; [done|]. by rewrite Hu, Hc.
    + intros [= <- <- _]. split; [intros v Hv; cbn; by rewrite lookup_insert_ne|]. cbn. by rewrite lookup_insert_eq.
    + intros [= <- <- _]. split; [intros v Hv; cbn; by rewrite lookup_insert_ne|]. cbn. by rewrite lookup_insert_eq.
  - intros [= <- <- _]. split; [intros v Hv; cbn; by rewrite lookup_insert_ne|]. cbn. by rewrite lookup_insert_eq.
Qed.

Lemma restore_effect now st userID inst revision st' snapshot err :
  SettingsSync.Restore now st userID inst revision = (st', (snapshot, err)) →
  only userID st st' ∧ (err = None → snapshot = shown st' userID).
Proof.
  unfold SettingsSync.Restore. destruct (SettingsSync.Users st !! userID); [|by intros [= <- _ <-]].
  destruct (SettingsSync.restoreSource _ _); [|by intros [= <- _ <-]].
  intros [H1 H2]%put_effect. done.
Qed.

Lemma auditSettings_settings s action credential session detail :
  settingsSync (auditSettings s action credential session detail) = settingsSync s.
Proof. unfold auditSettings, auditRecord. by destruct (AuditStore.Append _ _ _ _). Qed.

(** ** The endpoints *)

Inductive endpoint := GetCurrent | PutCurrent | GetHistory | RestoreRevision.
Definition serve (e : endpoint) : server RS → httpRequest → server RS * response :=
  match e with
  | GetCurrent => getSettingsSync
  | PutCurrent => putSettingsSync
  | GetHistory => getSettingsSyncHistory
  | RestoreRevision => restoreSettingsSyncRevision
  end.

(** The answer holds a snapshot. *)
Definition discloses (resp : response) (snapshot : Snap.t) : Prop :=
  Payload resp = JSnapshot snapshot ∨ ∃ message, Payload resp = JConflict message snapshot.

(** An answer that lists revisions of settings. *)
Definition lists (resp : response) (entries : list (Z * time * string * string * string)) : Prop :=
  Payload resp = JHistory entries.

(** What the history of a user shows: of each retained revision, its number,
    time, installation, version and hash. *)
Definition historyShown (st : SettingsSync.t) (u : string) : list (Z * time * string * string * string) :=
  (λ x, (Snap.Revision x, Snap.UpdatedAt x, Snap.UpdatedByInstallationID x, Snap.AppVersion x, Snap.ContentHash x)) <$>
    SettingsSync.HistoryOf st u.

Lemma discloses_error code message snapshot : ¬ discloses (writeError code message) snapshot.
Proof. by intros [?|[? ?]]. Qed.

Lemma discloses_snapshot code snapshot snapshot' :
  discloses (mkResponse code (JSnapshot snapshot)) snapshot' → snapshot' = snapshot.
Proof. by intros [[= ->]|[? ?]]. Qed.

Lemma serve_refused e s r s1 resp1 :
  authorizeSettingsSync s r = (s1, inl resp1) →
  serve e s r = (s1, resp1) ∧ settingsSync s1 = settingsSync s ∧ ∃ code message, resp1 = writeError code message.
Proof.
  intros Hauth. split.
  { destruct e; cbn [serve]; unfold getSettingsSync, putSettingsSync, getSettingsSyncHistory,
      restoreSettingsSyncRevision; by rewrite Hauth. }
  revert Hauth. unfold authorizeSettingsSync, authorizeMobileSession, Now.
  destruct (negb authConfigured); [intros [= <- <-]; by split; [|do 2 eexists]|].
  destruct (_ || _); [intros [= <- <-]; by split; [|do 2 eexists]|].
  destruct (AuthStore.ResolveSession _ _ _ _ _ _) as [a [x|e']].
  - destruct (AuthStore.GetCredential _ _ _); [case_bool_decide; [|done]|];
      intros [= <- <-]; by split; [|do 2 eexists].
  - intros [= <- <-]. split; [done|]. destruct e'; by do 2 eexists.
Qed.

Lemma put_authorized s r s1 credential session s' resp :
  authorizeSettingsSync s r = (s1, inr (credential, session)) → putSettingsSync s r = (s', resp) →
  only (Cred.UserID credential) (settingsSync s1) (settingsSync s') ∧
  ∀ snapshot, discloses resp snapshot → snapshot = shown (settingsSync s') (Cred.UserID credential).
Proof.
  intros Hauth. unfold putSettingsSync, Now. rewrite Hauth.
  destruct (decodePut _) as [request|]; [|intros [= <- <-]; split; [done|by intros ? ?%discloses_error]].
  destruct (validateSettingsSyncPayload _) as [header|];
    [|intros [= <- <-]; split; [done|by intros ? ?%discloses_error]].
  destruct (SettingsSync.Put _ _ _ _ _ _ _ _ _) as [stored [snapshot err]] eqn:Hput.
  apply put_effect in Hput as [Honly ->].
  destruct err as [[]|]; intros [= <- <-]; rewrite ?auditSettings_settings; (split; [exact Honly|]);
    try by intros ? ?%discloses_error.
  - by intros snapshot [?|[? [= ? <-]]].
  - by intros snapshot ->%discloses_snapshot.
Qed.

Lemma restore_authorized s r s1 credential session s' resp :
  authorizeSettingsSync s r = (s1, inr (credential, session)) → restoreSettingsSyncRevision s r = (s', resp) →
  only (Cred.UserID credential) (settingsSync s1) (settingsSync s') ∧
  ∀ snapshot, discloses resp snapshot → snapshot = shown (settingsSync s') (Cred.UserID credential).
Proof.
  intros Hauth. unfold restoreSettingsSyncRevision, Now. rewrite Hauth.
  destruct (ParseInt _) as [revision|]; [|intros [= <- <-]; split; [done|by intros ? ?%discloses_error]].
  destruct (revision <=? 0); [intros [= <- <-]; split; [done|by intros ? ?%discloses_error]|].
  destruct (SettingsSync.Restore _ _ _ _ _) as [stored [snapshot err]] eqn:Hres.
  apply restore_effect in Hres as [Honly Hshown].
  destruct err as [[]|]; intros [= <- <-]; rewrite ?auditSettings_settings; (split; [exact Honly|]);
    try by intros ? ?%discloses_error.
  rewrite Hshown by done. by intros snapshot' ->%discloses_snapshot.
Qed.

Lemma serve_authorized e s r s1 credential session s' resp :
  authorizeSettingsSync s r = (s1, inr (credential, session)) → serve e s r = (s', resp) →
  only (Cred.UserID credential) (settingsSync s1) (settingsSync s') ∧
  ∀ snapshot, discloses resp snapshot → snapshot = shown (settingsSync s') (Cred.UserID credential).
Proof.
  intros Hauth. destruct e; cbn [serve].
  - unfold getSettingsSync. rewrite Hauth.
    destruct (SettingsSync.CurrentSnapshot _ _) as [c|] eqn:Hc; intros [= <- <-]; (split; [done|]).
    + intros snapshot ->%discloses_snapshot. unfold shown. by rewrite Hc.
    + by intros snapshot [?|[? ?]].
  - by apply put_authorized with session.
  - unfold getSettingsSyncHistory. rewrite Hauth. intros [= <- <-]. split; [done|]. by intros snapshot [?|[? ?]].
  - by apply restore_authorized with session.
Qed.

Lemma serve_lists e s r s1 credential session s' resp entries :
  authorizeSettingsSync s r = (s1, inr (credential, session)) → serve e s r = (s', resp) → lists resp entries →
  entries = historyShown (settingsSync s') (Cred.UserID credential).
Proof.
  intros Hauth Hserve Hl. unfold lists in Hl. destruct e; cbn [serve] in Hserve; revert Hserve Hl.
  - unfold getSettingsSync. rewrite Hauth. by destruct (SettingsSync.CurrentSnapshot _ _); intros [= <- <-].
  - unfold putSettingsSync, Now. rewrite Hauth. destruct (decodePut _); [|by intros [= <- <-]].
    destruct (validateSettingsSyncPayload _); [|by intros [= <- <-]].
    destruct (SettingsSync.Put _ _ _ _ _ _ _ _ _) as [? [? [[]|]]]; by intros [= <- <-].
  - unfold getSettingsSyncHistory. rewrite Hauth. by intros [= <- <-] [= <-].
  - unfold restoreSettingsSyncRevision, Now. rewrite Hauth. destruct (ParseInt _); [|by intros [= <- <-]].
    destruct (_ <=? 0); [by intros [= <- <-]|].
    destruct (SettingsSync.Restore _ _ _ _ _) as [? [? [[]|]]]; by intros [= <- <-].
Qed.

(** C5.  The settings endpoints serve a user only to that user's sessions.
    Whatever the request, if the settings of a user change then the request
    carried the token of a live session, made for the installation and the
    device secret it names, whose Twitch credential belongs to that user,
    and nobody else's settings change; and what an answer shows, a snapshot
    or the list of the retained revisions, is the current one of the user who
    signed the request. *)
Theorem settings_served_to_owner e s r s' resp :
  serve e s r = (s', resp) →
  (∀ u, SettingsSync.Users (settingsSync s') !! u ≠ SettingsSync.Users (settingsSync s) !! u →
     signed_in s r u ∧ only u (settingsSync s) (settingsSync s')) ∧
  (∀ snapshot, discloses resp snapshot →
     ∃ u, signed_in s r u ∧ snapshot = shown (settingsSync s') u) ∧
  (∀ entries, lists resp entries →
     ∃ u, signed_in s r u ∧ entries = historyShown (settingsSync s') u).
Proof.
  intros Hserve. destruct (authorizeSettingsSync s r) as [s1 [resp1|[credential session]]] eqn:Hauth.
  - destruct (serve_refused e s r s1 resp1 Hauth) as (Heq & Hs & code & message & Herr).
    rewrite Heq in Hserve. injection Hserve as <- <-. rewrite Hs, Herr.
    split_and!; [done| |done]. by intros snapshot ?%discloses_error.
  - destruct (serve_authorized _ _ _ _ _ _ _ _ Hauth Hserve) as [Honly Hshown].
    pose proof (λ entries, serve_lists e s r s1 credential session s' resp entries Hauth Hserve) as Hlist.
    apply authorizeSettingsSync_ok in Hauth as (Hs1 & Hsigned & _). rewrite Hs1 in Honly.
    split_and!; [|eauto|eauto]. intros u Hu. destruct (decide (u = Cred.UserID credential)) as [->|Hne]; [done|].
    destruct Hu. by apply Honly.
Qed.

End Handlers.
(** ** A concrete run *)

Import ServerProofs.Example.

Module PutExample.
Definition token : string :=
  match Memory.randomToken zero_rand "fsv1_" 32 with Ok token => token | Err _ => "" end.
Definition header (name : string) : string :=
  if name == "Authorization" then "Bearer " +:+ token else
  if name == "X-Installation-ID" then "device" else
  if name == "X-Device-Secret" then secret else "".
Definition put : httpRequest := mkRequest "PUT" "/v1/sync/settings" (λ _, "") (λ _, "") header "" "{}".
Definition backup : settingsBackupHeader :=
  mkHeader settingsBackupFormat 2 "1.0" (String.concat "" (repeat "ab" 32)).
Definition run : server RegistrationStore.t * response :=
  putSettingsSync world true (λ _, Ok (mkPut 0 false "{}")) (λ _, true) (λ _, Some backup)
    signed_in put.
End PutExample.

Lemma settings_served_to_owner_witness :
  Status PutExample.run.2 = 200 ∧
  SyncHandlers.signed_in world ServerProofs.Example.signed_in PutExample.put "42".
Proof.
  split; [vm_compute; reflexivity|].
  pose proof (settings_served_to_owner world true (λ _, Ok (mkPut 0 false "{}")) (λ _, true)
    (λ _, Some PutExample.backup) PutCurrent ServerProofs.Example.signed_in PutExample.put) as H.
  change (serve world true (λ _, Ok (mkPut 0 false "{}")) (λ _, true)
    (λ _, Some PutExample.backup) PutCurrent ServerProofs.Example.signed_in PutExample.put)
    with PutExample.run in H.
  apply (H PutExample.run.1 PutExample.run.2 (surjective_pairing _)). vm_compute. discriminate.
Defined.

End SyncHandlers.
