(* ===== verification/AuthHandlers.v ===== *)
(** * Mobile login: [internal/application/auth_handlers.go]

    A device starts a login and gets a state; the browser is sent to Twitch
    with that state; Twitch returns the browser with a code, which is
    exchanged for a credential and a one-time handoff code; the device
    completes the login with the handoff code and gets a session.  With a
    session it leases access tokens, ends the session, or revokes the device
    or the whole account. *)

From stdpp Require Import pretty.
From S2P Require Import Prelude GoStrings NetIP Config Credentials Domain RegistrationStore SettingsSync AuditStore.
From S2P Require Import RateLimit DeliveryStore AuthStore Subscriptions PushSocket RegistrationInput OAuth Repositories.
From S2P Require Import Server SyncHandlers.
#[local] Open Scope Z_scope.
#[local] Open Scope go_scope.

Module AuthHandlers.
Import RegistrationInput Server.
Module A := AuditRecord.
Module P := PendingAuthRecord.
Module H := AuthHandoffRecord.
Module Ses := AuthSessionRecord.
Module C := AuthCredential.

Section Handlers.
Context {RS : Type} `{!RegistrationRepository RS}.
Context {rt : GoRuntime} {sha : Sha256} {uni : Unicode} (W : World).
Implicit Types (s : server RS).

(** [None] when the broker is configured. *)
Definition requireAuthBroker : option response :=
  if OAuth.AuthEnabled (cfg W) then None
  else Some (writeError 503 "Ferventio OAuth broker is not configured").

Definition validateAppCallbackURI (raw : string) : option error :=
  match parseURL W raw with
  | None => Some (ErrMsg "invalid appCallbackUri")
  | Some parsed =>
      let allowed := existsb (λ scheme, NetURL.Scheme parsed == scheme) (AuthAllowedAppSchemes (cfg W)) in
      if negb allowed || (NetURL.Host parsed != "oauth") || (NetURL.Path parsed != "/callback") || NetURL.HasUser parsed
      then Some (ErrMsg "appCallbackUri is not allowed") else
      if (NetURL.RawQuery parsed != "") || (NetURL.Fragment parsed != "")
      then Some (ErrMsg "appCallbackUri must not contain query or fragment") else None
  end.

Definition publicAuthURL (state : string) : string :=
  TrimSuffix (PublicBaseURL (cfg W)) "/" +:+ "/v1/auth/mobile/browser?state=" +:+ QueryEscape state.

Definition renderAppReturn (callbackURI state code errorCode : string) : response :=
  match parseURL W callbackURI with
  | None => writeError 500 "invalid app callback"
  | Some _ =>
      mkResponse 200 (AppReturn callbackURI
        ([("state", state)] ++ (if code != "" then [("code", code)] else []) ++
         (if errorCode != "" then [("error", errorCode)] else [])) (errorCode == ""))
  end.

Definition newToken s (prefix : string) (size : nat) : server RS * result string :=
  (tick s, Memory.randomToken (random W (ticks s)) prefix size).

(** ** Login *)

Definition startMobileAuth s (r : httpRequest) : server RS * response :=
  match requireAuthBroker with
  | Some refused => (s, refused)
  | None =>
  match decodeAuthStart W (Body r) with
  | Err err => (s, writeError 400 (Error err))
  | Ok request =>
  match validateMobileDevice (StartInstallationID request) (StartDeviceSecret request) with
  | Some err => (s, writeError 400 (Error err))
  | None =>
      let '(s, refused) := enforceInstallationRateLimit W s r (StartInstallationID request) (StartDeviceSecret request) in
      match refused with
      | Some response => (s, response)
      | None =>
      match validateAppCallbackURI (StartCallbackURI request) with
      | Some err => (s, writeError 400 (Error err))
      | None =>
          let '(s, state) := newToken s "fs1_" 32 in
          match state with
          | Err _ => (s, writeError 500 "failed to create OAuth state")
          | Ok state =>
              let '(s, now) := Now W s in
              let expiresAt := Add now (AuthStateTTL (cfg W)) in
              let '(s, storeNow) := Now W s in
              let '(a, err) := AuthStore.PutPending storeNow (authStore s) state
                (P.mk (StartInstallationID request) (Memory.hashSecret (StartDeviceSecret request))
                   (StartCallbackURI request) now expiresAt) in
              let s := s <| authStore := a |> in
              match err with
              | Some ErrAuthCapacity => (s, writeError 429 "too many pending OAuth sessions")
              | Some _ => (s, writeError 500 "failed to start OAuth")
              | None => (s, mkResponse 201 (JAuthStart (publicAuthURL state) state now expiresAt))
              end
          end
      end
      end
  end
  end
  end.

Definition beginBrowserAuth s (r : httpRequest) : server RS * response :=
  match requireAuthBroker with
  | Some refused => (s, refused)
  | None =>
      let state := TrimSpace (QueryParam r "state") in
      if state == "" then (s, writeError 400 "missing OAuth state") else
      let '(s, now) := Now W s in
      match AuthStore.GetPending now (authStore s) state with
      | Err _ => (s, writeError 400 "OAuth session is missing or expired")
      | Ok _ => (s, mkResponse 302 (Redirect (OAuth.authorizationURL (oauthEnv W) state)))
      end
  end.

(** The part of [twitchOAuthCallback] up to the credential: the login Twitch
    returned to, and what Twitch gave for its code. *)
Definition exchangeLogin s (r : httpRequest) : server RS * (response + string * P.t * C.t) :=
  match requireAuthBroker with
  | Some refused => (s, inl refused)
  | None =>
      let state := TrimSpace (QueryParam r "state") in
      if state == "" then (s, inl (writeError 400 "missing OAuth state")) else
      let '(s, now) := Now W s in
      let '(a, pending) := AuthStore.ConsumePending now (authStore s) state in
      let s := s <| authStore := a |> in
      match pending with
      | Err _ => (s, inl (writeError 400 "OAuth session is missing or expired"))
      | Ok pending =>
          let denied := TrimSpace (QueryParam r "error") in
          if denied != "" then (s, inl (renderAppReturn (P.AppCallbackURI pending) state "" denied)) else
          let code := TrimSpace (QueryParam r "code") in
          if code == "" then (s, inl (renderAppReturn (P.AppCallbackURI pending) state "" "missing_code")) else
          let '(s, credential) := oauthCall s (OAuth.exchangeCode (oauthEnv W) code) in
          match credential with
          | Err _ => (s, inl (renderAppReturn (P.AppCallbackURI pending) state "" "oauth_exchange_failed"))
          | Ok credential => (s, inr (state, pending, credential))
          end
      end
  end.

(** The rest of [twitchOAuthCallback]. *)
Definition saveLogin s (state : string) (pending : P.t) (credential : C.t) : server RS * response :=
  let '(s, handoffCode) := newToken s "fh1_" 32 in
  match handoffCode with
  | Err _ => (s, renderAppReturn (P.AppCallbackURI pending) state "" "server_random_failed")
  | Ok handoffCode =>
      let '(s, now) := Now W s in
      let '(a, err) := AuthStore.PutCredentialAndHandoff (aead W) (λ i, random W (ticks s + i))
        (λ i, clock W (ticks s + i)) (authStore s) credential handoffCode
        (H.mk (C.ID credential) (P.InstallationID pending) (P.DeviceHash pending) (P.AppCallbackURI pending)
           (Memory.hashSecret state) now (Add now (AuthHandoffTTL (cfg W)))) in
      let s := s <| authStore := a |> <| ticks := (ticks s + 2)%nat |> in
      match err with
      | Some _ => (s, renderAppReturn (P.AppCallbackURI pending) state "" "server_storage_failed")
      | None => (s, renderAppReturn (P.AppCallbackURI pending) state handoffCode "")
      end
  end.

Definition twitchOAuthCallback s (r : httpRequest) : server RS * response :=
  let '(s, exchanged) := exchangeLogin s r in
  match exchanged with
  | inl response => (s, response)
  | inr (state, pending, credential) => saveLogin s state pending credential
  end.

Definition mobileLease s (credential : C.t) (sessionExpiresAt : time) : server RS * mobileTokenLease :=
  let '(s, now) := Now W s in
  let leaseExpiresAt := Add now (AuthLeaseTTL (cfg W)) in
  let leaseExpiresAt :=
    if Before (C.AccessExpiresAt credential) leaseExpiresAt then C.AccessExpiresAt credential else leaseExpiresAt in
  let twitchValidatedAt := C.LastValidatedAt credential in
  let twitchValidatedAt :=
    if IsZero twitchValidatedAt then Add now (-55 * Minute) else
    if After twitchValidatedAt now then now else twitchValidatedAt in
  (s, mkLease (C.AccessToken credential) now (C.ClientID credential) (C.UserID credential) (C.Login credential)
        (C.Scopes credential) leaseExpiresAt (C.AccessExpiresAt credential) twitchValidatedAt sessionExpiresAt).

Definition writeOAuthLeaseError (err : error) : response :=
  match err with
  | ErrOAuthRevoked | ErrAuthNotFound => writeError 401 "Twitch authorization is no longer valid"
  | _ => writeError 502 "Twitch authorization is temporarily unavailable"
  end.

Definition discardCredential s (credentialID : string) : server RS :=
  s <| authStore := (AuthStore.DeleteCredentialIfUnused (authStore s) credentialID).1 |>.

(** What [completeMobileAuth] does with the handoff it has consumed. *)
Definition openSession s (handoff : H.t) (installationID deviceSecret : string) : server RS * response :=
  let '(s, credential) := oauthCall s (OAuth.lease (oauthEnv W) (H.CredentialID handoff) false) in
  match credential with
  | Err err => (discardCredential s (H.CredentialID handoff), writeOAuthLeaseError err)
  | Ok credential =>
      let '(a, session) := AuthStore.CreateSession (random W (ticks s)) (clock W (ticks s)) (authStore s)
        (H.CredentialID handoff) installationID deviceSecret (AuthSessionTTL (cfg W)) in
      let s := tick (s <| authStore := a |>) in
      match session with
      | Err err =>
          let s := discardCredential s (H.CredentialID handoff) in
          match err with
          | ErrAuthCapacity => (s, writeError 429 "too many mobile sessions")
          | _ => (s, writeError 500 "failed to create mobile session")
          end
      | Ok (sessionToken, sessionExpiresAt) =>
          let '(s, lease) := mobileLease s credential sessionExpiresAt in
          (s, mkResponse 200 (JAuthComplete sessionToken sessionExpiresAt lease))
      end
  end.

Definition completeMobileAuth s (r : httpRequest) : server RS * response :=
  match requireAuthBroker with
  | Some refused => (s, refused)
  | None =>
  match decodeAuthComplete W (Body r) with
  | Err err => (s, writeError 400 (Error err))
  | Ok request =>
  match validateMobileDevice (CompleteInstallationID request) (CompleteDeviceSecret request) with
  | Some err => (s, writeError 400 (Error err))
  | None =>
      let '(s, refused) :=
        enforceInstallationRateLimit W s r (CompleteInstallationID request) (CompleteDeviceSecret request) in
      match refused with
      | Some response => (s, response)
      | None =>
          let '(s, now) := Now W s in
          let '(a, handoff) := AuthStore.ConsumeHandoff now (authStore s) (TrimSpace (CompleteCode request))
            (CompleteInstallationID request) (CompleteDeviceSecret request) (CompleteState request) in
          let s := s <| authStore := a |> in
          match handoff with
          | Err err => (s, SyncHandlers.writeAuthRecordError err)
          | Ok handoff => openSession s handoff (CompleteInstallationID request) (CompleteDeviceSecret request)
          end
      end
  end
  end
  end.

(** ** Sessions *)

Definition leaseMobileToken s (r : httpRequest) : server RS * response :=
  match requireAuthBroker with
  | Some refused => (s, refused)
  | None =>
      let '(s, authorized) := SyncHandlers.authorizeMobileSession W s r in
      match authorized with
      | inl response => (s, response)
      | inr session =>
          let forceRefresh := QueryParam r "force_refresh" == "true" in
          let '(s, credential) := oauthCall s (OAuth.lease (oauthEnv W) (Ses.CredentialID session) forceRefresh) in
          match credential with
          | Err err => (s, writeOAuthLeaseError err)
          | Ok credential =>
              let '(s, lease) := mobileLease s credential (Ses.ExpiresAt session) in
              (s, mkResponse 200 (JLease lease))
          end
      end
  end.

Definition deleteMobileSession s (r : httpRequest) : server RS * response :=
  match requireAuthBroker with
  | Some refused => (s, refused)
  | None =>
      let token := bearerToken r in
      let installationID := TrimSpace (Header r "X-Installation-ID") in
      let deviceSecret := TrimSpace (Header r "X-Device-Secret") in
      if token == "" then (s, writeError 401 "missing backend session") else
      let '(a, err) := AuthStore.DeleteSession (authStore s) token installationID deviceSecret in
      let s := s <| authStore := a |> in
      match err with
      | Some ErrAuthNotFound => (s, mkResponse 204 NoContent)
      | Some ErrAuthDeviceMismatch => (s, writeError 403 "device binding mismatch")
      | Some _ => (s, writeError 500 "failed to delete session")
      | None => (s, mkResponse 204 NoContent)
      end
  end.

(** ** Revocation *)

(** A token that names no session must not revoke an installation that still
    has a login, a handoff or a session.  [None] when the request may go on
    to the registration. *)
Definition refuseBound s (installationID deviceSecret : string) : option response :=
  match AuthStore.InstallationBinding (authStore s) installationID deviceSecret with
  | (bound, None) => if bound then Some (writeError 401 "authentication record not found") else None
  | (_, Some ErrAuthDeviceMismatch) => Some (writeError 403 "device binding mismatch")
  | (_, Some ErrAuthNotFound) => None
  | (_, Some _) => Some (writeError 500 "authentication storage failed")
  end.

(** The registration of a device whose session is gone; without one the
    revocation has nothing left to do. *)
Definition staleRegistration s (installationID deviceSecret : string) : response + Registration.t :=
  match Authenticate (store s) installationID deviceSecret with
  | Err ErrDeviceSecretMismatch => inl (writeError 403 "device secret mismatch")
  | Err ErrRegistrationNotFound => inl (mkResponse 204 NoContent)
  | Err _ => inl (writeError 500 "failed to authenticate device registration")
  | Ok registration => inr registration
  end.

(** The parts of [revokeMobileDevice] that remove the device: what follows
    the deletion of its registration, and the whole. *)
Definition forgetDevice s (installationID deviceSecret : string) : server RS * response :=
  let '(d, (_, err)) := DeliveryStore.DeleteForInstallation (deliveries s) installationID in
  let s := s <| deliveries := d |> in
  match err with
  | Some _ => (s, writeError 500 "failed to delete device deliveries")
  | None =>
      let '(a, (removedSessions, err)) := AuthStore.RevokeInstallation (authStore s) installationID deviceSecret in
      let s := s <| authStore := a |> in
      match err with
      | Some ErrAuthDeviceMismatch => (s, writeError 403 "device binding mismatch")
      | Some _ => (s, writeError 500 "failed to revoke device")
      | None =>
          let s := s <| hub := PushSocket.Close (hub s) installationID |> in
          let s := auditRecord W s (A.zero <| A.Action := "auth.device.revoke" |> <| A.Status := "ok" |>
            <| A.InstallationID := installationID |>
            <| A.Detail := "sessions=" +:+ pretty removedSessions |>) in
          (requestEventSubReconcile W s, mkResponse 204 NoContent)
      end
  end.

Definition removeDevice s (installationID deviceSecret : string) : server RS * response :=
  let '(stored, err) := Delete (store s) installationID deviceSecret in
  let s := s <| store := stored |> in
  match err with
  | Err ErrDeviceSecretMismatch => (s, writeError 403 "device secret mismatch")
  | Err ErrRegistrationNotFound | Ok _ => forgetDevice s installationID deviceSecret
  | Err _ => (s, writeError 500 "failed to delete device registration")
  end.

Definition revokeMobileDevice s (r : httpRequest) : server RS * response :=
  match requireAuthBroker with
  | Some refused => (s, refused)
  | None =>
      let token := bearerToken r in
      let installationID := TrimSpace (Header r "X-Installation-ID") in
      let deviceSecret := TrimSpace (Header r "X-Device-Secret") in
      if (token == "") || (installationID == "") || (deviceSecret == "")
      then (s, writeError 401 "missing backend session credentials") else
      let '(s, now) := Now W s in
      let '(a, session) := AuthStore.ResolveSession now (authStore s) token installationID deviceSecret
                             (AuthSessionTTL (cfg W)) in
      let s := s <| authStore := a |> in
      let stale :=
        match staleRegistration s installationID deviceSecret with
        | inl response => (s, response)
        | inr _ => removeDevice s installationID deviceSecret
        end in
      match session with
      | Ok _ => removeDevice s installationID deviceSecret
      | Err ErrAuthDeviceMismatch => (s, writeError 403 "device binding mismatch")
      | Err ErrAuthNotFound =>
          match refuseBound s installationID deviceSecret with
          | Some refused => (s, refused)
          | None => stale
          end
      | Err ErrAuthExpired => stale
      | Err _ => (s, writeError 500 "authentication storage failed")
      end
  end.

(** The account a request to revoke all sessions is about: that of its
    session, even an expired one, or else that of its registration. *)
Definition revocationAccount s (token installationID deviceSecret : string) : server RS * (response + string) :=
  let '(s, now) := Now W s in
  match AuthStore.SessionAccount now (authStore s) token installationID deviceSecret with
  | Ok (userID, _) => (s, inr userID)
  | Err ErrAuthDeviceMismatch => (s, inl (writeError 403 "device binding mismatch"))
  | Err ErrAuthNotFound =>
      match refuseBound s installationID deviceSecret with
      | Some refused => (s, inl refused)
      | None =>
          match staleRegistration s installationID deviceSecret with
          | inl response => (s, inl response)
          | inr registration => (s, inr (TrimSpace (Registration.UserID registration)))
          end
      end
  | Err _ => (s, inl (writeError 500 "authentication storage failed"))
  end.

(** The account's installations and credentials; an account without any is
    no error. *)
Definition accountTargets s (userID : string) : result (list string * list C.t) :=
  match AuthStore.AccountRevocationTargets (aead W) (authStore s) userID with
  | Err ErrAuthNotFound => Ok ([], [])
  | answer => answer
  end.

(** A Go set of strings, and the sorted list of its elements. *)
Definition addAll (set : gmap string ()) (ids : list string) : gmap string () :=
  foldl (λ set id, <[id := ()]> set) set ids.
Definition sortedKeys (set : gmap string ()) : list string := sortSlice string_lt (rangeMap set).*1.

(** Twitch is asked to revoke each token; a failure is passed over. *)
Fixpoint revokeTokens s (credentials : list C.t) (revoked : Z) : server RS * Z :=
  match credentials with
  | [] => (s, revoked)
  | credential :: credentials =>
      let '(s, answer) := oauthCall s (OAuth.revokeAccessToken (oauthEnv W) credential) in
      revokeTokens s credentials (match answer with Ok _ => revoked + 1 | Err _ => revoked end)
  end.

Fixpoint deleteDeliveries s (installationIDs : list string) : server RS * option error :=
  match installationIDs with
  | [] => (s, None)
  | installationID :: installationIDs =>
      let '(d, (_, err)) := DeliveryStore.DeleteForInstallation (deliveries s) installationID in
      let s := s <| deliveries := d |> in
      match err with
      | Some err => (s, Some err)
      | None => deleteDeliveries s installationIDs
      end
  end.

(** The end of [revokeAllMobileSessions], with the installations the account
    is known by. *)
Definition removeAccount s (installationID userID : string) (installationSet : gmap string ())
    (revokedTwitchTokens twitchTokens : Z) : server RS * response :=
  let '(s, err) := deleteDeliveries s (rangeMap installationSet).*1 in
  match err with
  | Some _ => (s, writeError 500 "failed to delete account deliveries")
  | None =>
      let installationIDs := sortedKeys installationSet in
      let '(a, result) := AuthStore.RevokeAccount (authStore s) userID installationIDs in
      let s := s <| authStore := a |> in
      match result with
      | Err _ => (s, writeError 500 "failed to revoke account sessions")
      | Ok (removedSessions, removedCredentials) =>
          let s := s <| hub := foldl PushSocket.Close (hub s) installationIDs |> in
          let s := auditRecord W s (A.zero <| A.Action := "auth.sessions.revoke_all" |> <| A.Status := "ok" |>
            <| A.InstallationID := installationID |>
            <| A.Detail := "sessions=" +:+ pretty removedSessions +:+ " credentials=" +:+ pretty removedCredentials +:+
                 " installations=" +:+ pretty (Z.of_nat (length installationIDs)) +:+
                 " twitch_tokens=" +:+ pretty revokedTwitchTokens +:+ "/" +:+ pretty twitchTokens |>) in
          (requestEventSubReconcile W s, mkResponse 204 NoContent)
      end
  end.

Definition revokeAllMobileSessions s (r : httpRequest) : server RS * response :=
  match requireAuthBroker with
  | Some refused => (s, refused)
  | None =>
      let token := bearerToken r in
      let installationID := TrimSpace (Header r "X-Installation-ID") in
      let deviceSecret := TrimSpace (Header r "X-Device-Secret") in
      if (token == "") || (installationID == "") || (deviceSecret == "")
      then (s, writeError 401 "missing backend session credentials") else
      let '(s, account) := revocationAccount s token installationID deviceSecret in
      match account with
      | inl response => (s, response)
      | inr userID =>
          if userID == "" then (s, writeError 401 "Twitch account binding is missing") else
          match accountTargets s userID with
          | Err _ => (s, writeError 500 "failed to enumerate account sessions")
          | Ok (targetIDs, credentials) =>
              let installationSet := addAll {[installationID := ()]} targetIDs in
              let installationSet := addAll installationSet
                (Registration.InstallationID <$>
                   List.filter (λ registration, Registration.UserID registration == userID) (Repositories.List (store s))) in
              let '(s, revokedTwitchTokens) := revokeTokens s credentials 0 in
              let '(stored, removed) := DeleteForAccount (store s) userID (sortedKeys installationSet) in
              let s := s <| store := stored |> in
              match removed with
              | Err _ => (s, writeError 500 "failed to delete account registrations")
              | Ok removedRegistrationIDs =>
                  removeAccount s installationID userID (addAll installationSet removedRegistrationIDs)
                    revokedTwitchTokens (Z.of_nat (length credentials))
              end
          end
      end
  end.

End Handlers.
End AuthHandlers.
