(* ===== verification/SubscriptionHandlers.v ===== *)
(** * EventSub subscriptions: administration and the background worker

    The admin endpoints of [eventsub_subscriptions.go] and the worker that
    reconciles at start-up, every 15 minutes and after a burst of
    registration changes.  The worker runs beside the handlers: it is a step
    relation in which it reads the registrations in one step and finishes
    the reconciliation in a later one.  The theorem composes the worker, the
    handlers that change registrations and the reconciliation. *)

From stdpp Require Import pretty.
From S2P Require Import Prelude GoStrings NetIP Config Credentials Domain RegistrationStore SettingsSync AuditStore.
From S2P Require Import DeliveryStore AuthStore EventSub Subscriptions DesiredProofs SubscriptionProofs.
From S2P Require Import RateLimit PushSocket RegistrationInput OAuth Repositories Server ServerProofs SyncHandlers AuthHandlers.
#[local] Open Scope Z_scope.
#[local] Open Scope go_scope.

Module SubscriptionHandlers.
Import RateLimit Server.
Module A := AuditRecord.
Module Subs := Subscriptions.

(** The server with its subscription manager. *)
Record backend {RS T : Type} := mkBackend { srv : server RS; eventSub : Subs.manager T }.
Arguments backend : clear implicits.
Arguments mkBackend {RS T}.
#[global] Instance eta_backend {RS T} : Eta (backend RS T) := λ b, mkBackend (srv b) (eventSub b).

Section Handlers.
Context {RS : Type} `{!RegistrationRepository RS}.
Context {rt : GoRuntime} {T : Type} {api : Subs.TwitchAPI T} (W : World).
Implicit Types (b : backend RS T).

Definition auditReconcile (s : server RS) (outcome : Z * Z * option error) : server RS :=
  let '(created, deleted, err) := outcome in
  match err with
  | Some err =>
      auditRecord W s (A.zero <| A.Action := "eventsub.reconcile" |> <| A.Status := "failed" |>
        <| A.Detail := Error err |>)
  | None =>
      auditRecord W s (A.zero <| A.Action := "eventsub.reconcile" |> <| A.Status := "ok" |>
        <| A.Detail := "created=" +:+ pretty created +:+ " deleted=" +:+ pretty deleted |>)
  end.

Definition adminReconcileEventSub (turns : nat) b (r : httpRequest) : backend RS T * response :=
  match authorizeAdmin W r with
  | Some refused => (b, refused)
  | None =>
      let '(m, (created, deleted, err)) :=
        Subs.reconcile (cfg W) (clock W) turns (List (store (srv b))) (eventSub b) in
      let b := mkBackend (auditReconcile (srv b) (created, deleted, err)) m in
      match err with
      | Some err => (b, writeError 502 (Error err))
      | None => (b, mkResponse 200 (JCounts [("created", created); ("deleted", deleted)]))
      end
  end.

Definition adminListEventSubSubscriptions (turns : nat) b (r : httpRequest) : backend RS T * response :=
  match authorizeAdmin W r with
  | Some refused => (b, refused)
  | None =>
      let '(m, subscriptions) := Subs.list_ (cfg W) (clock W) turns (eventSub b) in
      let b := b <| eventSub := m |> in
      match subscriptions with
      | Err err => (b, writeError 502 (Error err))
      | Ok subscriptions =>
          (b, mkResponse 200 (JSubscriptions
                (List.filter (λ subscription, Subs.Sub.Callback subscription == EventSubCallbackURL (cfg W)) subscriptions)))
      end
  end.

Definition adminDeleteEventSubSubscriptions (turns : nat) b (r : httpRequest) : backend RS T * response :=
  match authorizeAdmin W r with
  | Some refused => (b, refused)
  | None =>
      let '(m, (deleted, err)) := Subs.deleteAllForCallback (cfg W) (clock W) turns (eventSub b) in
      let b := b <| eventSub := m |> in
      match err with
      | Some err =>
          (b <| srv := auditRecord W (srv b) (A.zero <| A.Action := "eventsub.delete_all" |> <| A.Status := "failed" |>
                         <| A.Detail := Error err |>) |>, writeError 502 (Error err))
      | None =>
          (b <| srv := auditRecord W (srv b) (A.zero <| A.Action := "eventsub.delete_all" |> <| A.Status := "ok" |>
                         <| A.Detail := "deleted=" +:+ pretty deleted |>) |>,
           mkResponse 200 (JCounts [("deleted", deleted)]))
      end
  end.

(** ** The worker [runEventSubReconciler] *)

(** Where the worker is: about to call [reconcile], in it with the
    registrations it read, waiting for a tick or a request, or letting a
    burst of requests settle. *)
Inductive phase := Ready | Reconciling (registrations : list R.t) | Waiting | Coalescing.

(** [outcome] is the result of the last reconciliation, written and never
    read. *)
Record system := mkSystem { now_ : backend RS T; at_ : phase; outcome : option error }.

Definition clearRequest (s : server RS) : server RS := s <| reconcileRequested := false |>.

(** The end of a reconciliation started with [registrations]. *)
Definition finishReconcile (turns : nat) (registrations : list R.t) b : backend RS T * option error :=
  let '(m, (created, deleted, err)) := Subs.reconcile (cfg W) (clock W) turns registrations (eventSub b) in
  (mkBackend (auditReconcile (srv b) (created, deleted, err)) m, err).

Inductive workerStep : system → system → Prop :=
| worker_read b err : workerStep (mkSystem b Ready err) (mkSystem b (Reconciling (List (store (srv b)))) err)
| worker_finish turns b registrations err :
    workerStep (mkSystem b (Reconciling registrations) err)
      (mkSystem (finishReconcile turns registrations b).1 Waiting (finishReconcile turns registrations b).2)
| worker_tick b err : workerStep (mkSystem b Waiting err) (mkSystem b Ready err)
| worker_request b err :
    reconcileRequested (srv b) = true →
    workerStep (mkSystem b Waiting err) (mkSystem (b <| srv := clearRequest (srv b) |>) Coalescing err)
| worker_drain b err :
    workerStep (mkSystem b Coalescing err) (mkSystem (b <| srv := clearRequest (srv b) |>) Ready err).

End Handlers.
Arguments system : clear implicits.
Arguments mkSystem {RS T}.

(** ** Theorem *)

Section Proofs.
Context {RS : Type} `{!RegistrationRepository RS, !ReliableRepository RS}.
Context {rt : GoRuntime} {sha : Sha256} {uni : Unicode}.
Context {T : Type} {api : Subs.TwitchAPI T} (W : World) {truth : SubscriptionProofs.TruthfulTwitch T (cfg W)}.
Implicit Types (s : server RS) (b : backend RS T) (y : system RS T).

Abbreviation synchronized := (SubscriptionProofs.synchronized (cfg W)).
Abbreviation view := (SubscriptionProofs.view (cfg W)).

(** A revocation was not interrupted: it was answered 204, or it has removed
    no registration. *)
Definition uninterrupted s (outcome : server RS * response) : Prop :=
  Status outcome.2 = 204 ∨ stored (store outcome.1) = stored (store s).

(** The worker beside the four handlers that change registrations, a
    reconciliation asked for by an administrator, and anything else, which
    leaves the registrations and a pending request alone.  A revocation that
    fails after it has removed registrations asks for no reconciliation
    ([interrupted_revocation_stale]), and is not a step here. *)
Inductive step : system RS T → system RS T → Prop :=
| step_worker y y' : workerStep W y y' → step y y'
| step_upsert b ph err r :
    step (mkSystem b ph err) (mkSystem (b <| srv := (upsertRegistration W (srv b) r).1 |>) ph err)
| step_delete b ph err r :
    step (mkSystem b ph err) (mkSystem (b <| srv := (deleteRegistration W (srv b) r).1 |>) ph err)
| step_revoke_device b ph err r :
    uninterrupted (srv b) (AuthHandlers.revokeMobileDevice W (srv b) r) →
    step (mkSystem b ph err) (mkSystem (b <| srv := (AuthHandlers.revokeMobileDevice W (srv b) r).1 |>) ph err)
| step_revoke_all b ph err r :
    uninterrupted (srv b) (AuthHandlers.revokeAllMobileSessions W (srv b) r) →
    step (mkSystem b ph err) (mkSystem (b <| srv := (AuthHandlers.revokeAllMobileSessions W (srv b) r).1 |>) ph err)
| step_admin turns b ph err r :
    authorizeAdmin W r = None →
    step (mkSystem b ph err)
      (mkSystem (adminReconcileEventSub W turns b r).1 ph (finishReconcile W turns (List (store (srv b))) b).2)
| step_other b ph err s' :
    store s' = store (srv b) → (reconcileRequested (srv b) = true → reconcileRequested s' = true) →
    step (mkSystem b ph err) (mkSystem (b <| srv := s' |>) ph err).

(** Two stores with the same registrations. *)
Definition same_content (st st' : RS) : Prop := stored st' = stored st.

(** A handler either asks for a reconciliation, or has changed no
    registration and left a pending request alone. *)
Definition requests s s' : Prop :=
  reconcileRequested s' = true ∨
  same_content (store s) (store s') ∧ (reconcileRequested s = true → reconcileRequested s' = true).

Lemma requests_refl s s' :
  store s' = store s → reconcileRequested s' = reconcileRequested s → requests s s'.
Proof. intros Hs Hr. right. split; [unfold same_content; by rewrite Hs|by rewrite Hr]. Qed.

Lemma auditRecord_flag s record : reconcileRequested (auditRecord W s record) = reconcileRequested s.
Proof. unfold auditRecord. by destruct (AuditStore.Append _ _ _ _). Qed.

Lemma auditRecord_store s record : store (auditRecord W s record) = store s.
Proof. unfold auditRecord. by destruct (AuditStore.Append _ _ _ _). Qed.

Lemma rateLimit_flag s r id secret :
  let s' := (enforceInstallationRateLimit W s r id secret).1 in
  store s' = store s ∧ reconcileRequested s' = reconcileRequested s.
Proof.
  unfold enforceInstallationRateLimit. destruct (RateLimitDisabled _); [done|].
  destruct (RegistrationInput.validateMobileDevice _ _); [done|].
  unfold enforceRateLimit, take. destruct (RateLimit.take _ _ _ _) as [l d]. destruct (Allowed d); [done|]. cbn [fst].
  unfold auditRateLimitBlock, take. destruct (negb (Audit d)); [done|].
  destruct (RateLimit.take _ _ _ _) as [l' d']. destruct (negb (Allowed d')); [done|].
  by rewrite auditRecord_flag, auditRecord_store.
Qed.

Lemma bindRegistration_flag s registration :
  let s' := (bindRegistration W s registration).1 in
  store s' = store s ∧ reconcileRequested s' = reconcileRequested s.
Proof.
  unfold bindRegistration, Now. destruct (OAuth.AuthEnabled (cfg W)); [|done].
  destruct (AuthStore.CredentialForInstallation _ _ _ _ _); cycle 1.
  { cbn [fst]. by rewrite auditRecord_flag, auditRecord_store. }
  unfold verifyModeration, oauthCall. destruct (OAuth.moderatedChannelIDs _ _ _ _) as [o [ids|e]]; [done|]. cbn [fst].
  by rewrite auditRecord_flag, auditRecord_store.
Qed.

Lemma request_set s : Subs.enabled (cfg W) = true → reconcileRequested (requestEventSubReconcile W s) = true.
Proof. unfold requestEventSubReconcile. by intros ->. Qed.

Lemma saveRegistration_requests s registration :
  Subs.enabled (cfg W) = true → requests s (saveRegistration W s registration).1.
Proof.
  intros Hen. unfold saveRegistration, Now.
  set (r1 := registration <| R.UpdatedAt := _ |>). change (store (tick s)) with (store s).
  destruct (Upsert (store s) r1) as [stored [[]|e]] eqn:Hup.
  - left. by apply request_set.
  - assert (requests s (tick s <| store := stored |>)) as Hkeep; [|by destruct e].
    right. split; [|done]. exact (Upsert_refused _ _ _ _ Hup).
Qed.

Lemma upsert_requests s r : Subs.enabled (cfg W) = true → requests s (upsertRegistration W s r).1.
Proof.
  intros Hen. unfold upsertRegistration.
  destruct (decodeRegistration W (Body r)) as [registration|]; [|by apply requests_refl].
  destruct (negb _); [by apply requests_refl|]. destruct (RegistrationInput.validateRegistration _ _); [by apply requests_refl|].
  set (id := R.InstallationID _). set (secret := R.DeviceSecret _).
  pose proof (rateLimit_flag s r id secret) as [Hst Hfl].
  destruct (enforceInstallationRateLimit W s r id secret) as [s1 [resp|]]; cbn [fst] in Hst, Hfl; [by apply requests_refl|].
  match goal with |- context [bindRegistration W s1 ?x] => generalize x end. intros normalized.
  pose proof (bindRegistration_flag s1 normalized) as [Hst2 Hfl2].
  destruct (bindRegistration W s1 normalized) as [s2 [resp|out]]; cbn [fst] in Hst2, Hfl2.
  - cbn [fst]. apply requests_refl; congruence.
  - destruct (saveRegistration_requests s2 out Hen) as [?|[Hc Hf]]; [by left|right].
    split; [unfold same_content; by rewrite <-Hst, <-Hst2|]. rewrite <-Hfl, <-Hfl2. done.
Qed.

Lemma delete_requests s r : Subs.enabled (cfg W) = true → requests s (deleteRegistration W s r).1.
Proof.
  intros Hen. unfold deleteRegistration.
  destruct (Delete (store s) _ _) as [stored [u|e]] eqn:Hd.
  - left. by apply request_set.
  - assert (requests s (s <| store := stored |>)) as Hkeep; [|by destruct e].
    right. split; [|done]. exact (Delete_refused _ _ _ _ _ Hd).
Qed.

(** *** Revocations *)

(** A revocation that was answered 204 has asked for a reconciliation unless
    it has changed no registration, and whatever came of it a pending request
    is left alone. *)
Definition announces s (outcome : server RS * response) : Prop :=
  (Status outcome.2 = 204 → reconcileRequested outcome.1 = true ∨ stored (store outcome.1) = stored (store s)) ∧
  (reconcileRequested s = true → reconcileRequested outcome.1 = true).

Lemma announces_requests s outcome : announces s outcome → uninterrupted s outcome → requests s outcome.1.
Proof. intros [H1 H2] [Hst|Hst]; [destruct (H1 Hst); [by left|right; by split]|right; by split]. Qed.

Lemma announces_refused s s' code message :
  code ≠ 204 → reconcileRequested s' = reconcileRequested s → announces s (s', writeError code message).
Proof. intros Hc Hr. split; cbn; [done|by rewrite Hr]. Qed.

Lemma announces_kept s s' resp :
  reconcileRequested s' = reconcileRequested s → stored (store s') = stored (store s) → announces s (s', resp).
Proof. intros Hr Hs. split; cbn; [by right|by rewrite Hr]. Qed.

Lemma announces_done s s0 : Subs.enabled (cfg W) = true → announces s (requestEventSubReconcile W s0, mkResponse 204 NoContent).
Proof. intros Hen. split; cbn; intros _; [left|]; by apply request_set. Qed.

Lemma forget_announces s s0 inst secret : Subs.enabled (cfg W) = true → reconcileRequested s0 = reconcileRequested s →
  announces s (AuthHandlers.forgetDevice W s0 inst secret).
Proof.
  intros Hen Hr. unfold AuthHandlers.forgetDevice.
  destruct (DeliveryStore.DeleteForInstallation _ _) as [d [n [e|]]]; [by apply announces_refused|].
  destruct (AuthStore.RevokeInstallation _ _ _) as [a [m [e|]]]; [destruct e; by apply announces_refused|by apply announces_done].
Qed.

Lemma removeDevice_announces s s0 inst secret : Subs.enabled (cfg W) = true → reconcileRequested s0 = reconcileRequested s →
  announces s (AuthHandlers.removeDevice W s0 inst secret).
Proof.
  intros Hen Hr. unfold AuthHandlers.removeDevice. destruct (Delete (store s0) inst secret) as [st [u|e]]; [by apply forget_announces|].
  destruct e; try by apply announces_refused. by apply forget_announces.
Qed.

Lemma revokeDevice_announces s r : Subs.enabled (cfg W) = true → announces s (AuthHandlers.revokeMobileDevice W s r).
Proof.
  intros Hen. unfold AuthHandlers.revokeMobileDevice, Now.
  destruct (AuthHandlers.requireAuthBroker W) as [refused|].
  { by apply announces_kept. }
  case_match; [by apply announces_refused|].
  set (inst := TrimSpace (Header r "X-Installation-ID")). set (secret := TrimSpace (Header r "X-Device-Secret")).
  destruct (AuthStore.ResolveSession _ _ _ _ _ _) as [a x]. set (s1 := (tick s) <| authStore := a |>). cbv zeta.
  assert (announces s (AuthHandlers.removeDevice W s1 inst secret)) as Hremove by by apply removeDevice_announces.
  assert (announces s (match AuthHandlers.staleRegistration s1 inst secret with
    | inl response => (s1, response) | inr _ => AuthHandlers.removeDevice W s1 inst secret end)) as Hstale
    by (case_match; [by apply announces_kept|done]).
  destruct x as [x|e]; [done|]. destruct e; try done; try by apply announces_refused.
  destruct (AuthHandlers.refuseBound s1 inst secret); [by apply announces_kept|done].
Qed.

Lemma oauthCall_flag {B} s (call : M OAuth.state B) : reconcileRequested (oauthCall s call).1 = reconcileRequested s.
Proof. unfold oauthCall. by destruct (call _). Qed.

Lemma revokeTokens_flag s credentials n : reconcileRequested (AuthHandlers.revokeTokens W s credentials n).1 = reconcileRequested s.
Proof.
  revert s n. induction credentials as [|c l IH]; intros s n; [done|]. cbn [AuthHandlers.revokeTokens].
  pose proof (oauthCall_flag s (OAuth.revokeAccessToken (oauthEnv W) c)) as H1. destruct (oauthCall s _) as [s1 answer].
  cbn [fst] in H1. by rewrite IH.
Qed.

Lemma deleteDeliveries_flag s ids : reconcileRequested (AuthHandlers.deleteDeliveries s ids).1 = reconcileRequested s.
Proof.
  revert s. induction ids as [|i ids IH]; intros s; [done|]. cbn [AuthHandlers.deleteDeliveries].
  destruct (DeliveryStore.DeleteForInstallation _ _) as [d [n [e|]]]; [done|]. by rewrite IH.
Qed.

Lemma revocationAccount_flag s token inst secret :
  let s' := (AuthHandlers.revocationAccount W s token inst secret).1 in
  reconcileRequested s' = reconcileRequested s ∧ store s' = store s.
Proof. unfold AuthHandlers.revocationAccount, Now. by repeat case_match; simplify_eq. Qed.

Lemma revokeAll_announces s r : Subs.enabled (cfg W) = true → announces s (AuthHandlers.revokeAllMobileSessions W s r).
Proof.
  intros Hen. unfold AuthHandlers.revokeAllMobileSessions.
  destruct (AuthHandlers.requireAuthBroker W) as [refused|].
  { by apply announces_kept. }
  case_match; [by apply announces_refused|].
  set (token := bearerToken r). set (inst := TrimSpace _). set (secret := TrimSpace (Header r "X-Device-Secret")).
  pose proof (revocationAccount_flag s token inst secret) as H1.
  destruct (AuthHandlers.revocationAccount W s token inst secret) as [s1 [resp|u]]; cbn [fst] in H1; destruct H1 as [H1 Hst].
  { apply announces_kept; [done|by rewrite Hst]. }
  case_match; [by apply announces_refused|].
  destruct (AuthHandlers.accountTargets W s1 u) as [[ids credentials]|]; [|by apply announces_refused].
  pose proof (revokeTokens_flag s1 credentials 0) as H2. destruct (AuthHandlers.revokeTokens W s1 credentials 0) as [s2 n].
  cbn [fst] in H2. rewrite H1 in H2. destruct (DeleteForAccount _ _ _) as [st [removed|e]]; [|by apply announces_refused].
  unfold AuthHandlers.removeAccount.
  match goal with |- context [AuthHandlers.deleteDeliveries ?x ?l] => pose proof (deleteDeliveries_flag x l) as H3;
    destruct (AuthHandlers.deleteDeliveries x l) as [s4 [e|]] end; cbn in H3; rewrite H2 in H3; [by apply announces_refused|].
  destruct (AuthStore.RevokeAccount _ _ _) as [a [[m1 m2]|e]]; [by apply announces_done|by apply announces_refused].
Qed.

(** Synchronization depends on which registrations there are, not on the
    order they are listed in. *)
Lemma desired_elements l1 l2 k :
  (∀ r, r ∈ l1 → r ∈ l2) →
  is_Some (Subs.uniqueSpecs (cfg W) l1 !! k) → is_Some (Subs.uniqueSpecs (cfg W) l2 !! k).
Proof.
  intros Hsub [spec Hs]. apply DesiredProofs.uniqueSpecs_lookup in Hs as (-> & r & Hr & Hw).
  by eapply DesiredProofs.uniqueSpecs_present; [apply Hsub|].
Qed.

Lemma synchronized_elements l1 l2 table :
  (∀ r, r ∈ l1 ↔ r ∈ l2) → synchronized l1 table → synchronized l2 table.
Proof.
  intros Heq (Hserve & Hall & Huniq). split_and!; [|..|done].
  - intros x Hx Ho. apply SubscriptionProofs.serving_wanted.
    destruct (proj1 (SubscriptionProofs.serving_wanted _ _ _) (Hserve x Hx Ho)) as (? & ? & Hw). split_and!; [done..|].
    eapply desired_elements; [|done]. apply Heq.
  - intros spec Hspec%DesiredProofs.elem_of_desired.
    destruct (desired_elements l2 l1 (Subs.specKey spec)) as [spec' Hs']; [apply Heq|by eexists|].
    pose proof (DesiredProofs.uniqueSpecs_lookup _ _ _ _ Hs') as [Hk _]. rewrite Hk.
    apply Hall. apply DesiredProofs.elem_of_desired. by rewrite <-Hk.
Qed.

Lemma same_content_List st st' r : same_content st st' → r ∈ List st ↔ r ∈ List st'.
Proof.
  intros Hc. split; intros [id Hid]%List_stored; eapply List_complete; [by rewrite Hc|by rewrite <-Hc].
Qed.

(** The invariant: with no request pending, the registrations the worker
    read are the current ones, and when it rests after a success Twitch's
    table is synchronized with them. *)
Definition settled y : Prop :=
  reconcileRequested (srv (now_ y)) = false →
  match at_ y with
  | Reconciling registrations => ∀ r, r ∈ registrations ↔ r ∈ List (store (srv (now_ y)))
  | Waiting => outcome y = None → synchronized (List (store (srv (now_ y)))) (view (eventSub (now_ y)))
  | _ => True
  end.

Lemma settled_requests b ph err s' :
  requests (srv b) s' → settled (mkSystem b ph err) → settled (mkSystem (b <| srv := s' |>) ph err).
Proof.
  intros Hreq Hs Hflag. cbn in Hflag. destruct Hreq as [Hset|[Hc Hkeep]]; [congruence|].
  assert (reconcileRequested (srv b) = false) as Hf.
  { apply not_true_iff_false. intros Ht. specialize (Hkeep Ht). congruence. }
  specialize (Hs Hf). destruct ph as [|l| |]; cbn in *; [done| |intros He|done].
  - intros r. rewrite Hs. by apply same_content_List.
  - eapply synchronized_elements; [|by apply Hs]. intros r. by apply same_content_List.
Qed.

Lemma auditReconcile_server s out :
  store (auditReconcile W s out) = store s ∧
  reconcileRequested (auditReconcile W s out) = reconcileRequested s.
Proof. destruct out as [[created deleted] [err|]]; cbn; by rewrite auditRecord_store, auditRecord_flag. Qed.

(** A reconciliation with the current registrations settles. *)
Lemma finish_settled turns registrations b ph :
  (reconcileRequested (srv b) = false → ∀ r, r ∈ registrations ↔ r ∈ List (store (srv b))) →
  (∀ l, ph = Reconciling l → settled (mkSystem b ph None)) →
  settled (mkSystem (finishReconcile W turns registrations b).1 ph (finishReconcile W turns registrations b).2).
Proof.
  intros Hread Hrec. unfold finishReconcile.
  pose proof (SubscriptionProofs.reconcile_success (cfg W) (clock W) turns registrations (eventSub b)) as Hok.
  destruct (Subs.reconcile _ _ _ _ _) as [m [[created deleted] err]]. cbn [fst snd] in *.
  destruct (auditReconcile_server (srv b) (created, deleted, err)) as [Hst Hfl].
  intros Hflag. cbn [now_ srv] in Hflag. rewrite Hfl in Hflag.
  destruct ph as [|l| |]; cbn [at_ outcome now_ srv eventSub]; [done| | |done]; rewrite Hst.
  - exact (Hrec l eq_refl Hflag).
  - intros ->. eapply synchronized_elements; [by apply Hread|by apply Hok].
Qed.

Lemma step_settled y y' : Subs.enabled (cfg W) = true → step y y' → settled y → settled y'.
Proof.
  intros Hen Hstep Hs. destruct Hstep as [y y' Hw|b ph err r|b ph err r|b ph err r Hun|b ph err r Hun|turns b ph err r Hauth|b ph err s' Hst Hfl].
  - destruct Hw as [b err|turns b l err|b err|b err Hreq|b err]; try by intros ?.
    by apply finish_settled; [exact Hs|].
  - apply settled_requests; [by apply upsert_requests|done].
  - apply settled_requests; [by apply delete_requests|done].
  - apply settled_requests; [|done]. apply announces_requests; [by apply revokeDevice_announces|done].
  - apply settled_requests; [|done]. apply announces_requests; [by apply revokeAll_announces|done].
  - replace (adminReconcileEventSub W turns b r).1 with (finishReconcile W turns (List (store (srv b))) b).1.
    + apply finish_settled; [done|]. intros l ->. exact Hs.
    + unfold adminReconcileEventSub, finishReconcile. rewrite Hauth.
      by destruct (Subs.reconcile _ _ _ _ _) as [m [[created deleted] [e|]]].
  - apply settled_requests; [|done]. right. split; [unfold same_content; by rewrite Hst|done].
Qed.

(** C13.  The worker beside the handlers, from any state in which it is about
    to read the registrations (at start-up, at a tick or after a request) and
    for every interleaving and every failure of the calls to Twitch: whenever
    the worker waits with no request pending and its last reconciliation
    reported no error, Twitch's table holds exactly the subscriptions the
    current registrations want.  No change by one of the four handlers that
    change registrations (saving, deleting, and revoking a device or an
    account) is missed, also one that arrives while a reconciliation is
    running or a burst is settling, as long as no revocation since that
    reading has failed after it removed registrations; what such a revocation
    leaves stale is repaired from the next reading on.  The store is one whose
    listing does not fail ([ReliableRepository]). *)
Theorem quiescent_synchronized b0 y :
  Subs.enabled (cfg W) = true →
  rtc step (mkSystem b0 Ready None) y →
  at_ y = Waiting → reconcileRequested (srv (now_ y)) = false → outcome y = None →
  synchronized (List (store (srv (now_ y)))) (view (eventSub (now_ y))).
Proof.
  intros Hen Hsteps Hw Hreq Hout. assert (settled y) as Hs.
  { assert (settled (mkSystem b0 Ready None)) as H0 by done.
    revert H0. induction Hsteps as [|y1 y2 y3 Hstep _ IH]; [done|]. intros H1. by apply IH, (step_settled y1). }
  specialize (Hs Hreq). rewrite Hw in Hs. by apply Hs.
Qed.
End Proofs.

(** A device registers while the first reconciliation is running. *)
Module WorkerExample.
Import ServerProofs.Example SubscriptionProofs.
#[local] Existing Instance ToyTwitch.api.

Definition world : World :=
  ServerProofs.Example.world
    <| cfg := ServerProofs.Example.config <| EventSubSecret := "s" |> <| EventSubCallbackURL := "https://us" |> |>.

Abbreviation sys := (system RegistrationStore.t ToyTwitch.state).
Definition start : backend RegistrationStore.t ToyTwitch.state := mkBackend signed_in ToyTwitch.start.
Definition reading : list Registration.t := List (store (srv start)).
Definition registered : backend RegistrationStore.t ToyTwitch.state :=
  start <| srv := (upsertRegistration world (srv start) put).1 |>.
Definition first : backend RegistrationStore.t ToyTwitch.state := (finishReconcile world 9 reading registered).1.
Definition firstErr : option error := (finishReconcile world 9 reading registered).2.
Definition coalescing : backend RegistrationStore.t ToyTwitch.state := first <| srv := clearRequest (srv first) |>.
Definition drained : backend RegistrationStore.t ToyTwitch.state := coalescing <| srv := clearRequest (srv coalescing) |>.
Definition final : sys :=
  mkSystem (finishReconcile world 9 (List (store (srv drained))) drained).1 Waiting
    (finishReconcile world 9 (List (store (srv drained))) drained).2.
End WorkerExample.

#[local] Existing Instance reference_runtime.
#[local] Existing Instance toy_sha256.
#[local] Existing Instance SubscriptionProofs.ToyTwitch.api.

Lemma quiescent_synchronized_witness :
  Registration.InstallationID <$> List (store (srv (now_ WorkerExample.final))) = ["device"] ∧
  length (SubscriptionProofs.ToyTwitch.subs (Subs.net (eventSub (now_ WorkerExample.final)))) = 10%nat ∧
  @SubscriptionProofs.synchronized reference_runtime (cfg WorkerExample.world)
    (List (store (srv (now_ WorkerExample.final))))
    (@SubscriptionProofs.view _ _ (cfg WorkerExample.world) (SubscriptionProofs.ToyTwitch.truthful _)
       (eventSub (now_ WorkerExample.final))).
Proof.
  split; [vm_compute; reflexivity|]. split; [vm_compute; reflexivity|].
  refine (@quiescent_synchronized _ _ _ _ toy_sha256 ascii_unicode _ _ WorkerExample.world
    (SubscriptionProofs.ToyTwitch.truthful _) WorkerExample.start WorkerExample.final _ _ _ _ _).
  - reflexivity.
  - refine (rtc_l _ _ (mkSystem WorkerExample.start (Reconciling WorkerExample.reading) None) _
      (step_worker _ _ _ (worker_read WorkerExample.world WorkerExample.start None)) _).
    refine (rtc_l _ _ (mkSystem WorkerExample.registered (Reconciling WorkerExample.reading) None) _
      (step_upsert WorkerExample.world WorkerExample.start _ _ ServerProofs.Example.put) _).
    refine (rtc_l _ _ (mkSystem WorkerExample.first Waiting WorkerExample.firstErr) _
      (step_worker _ _ _ (worker_finish WorkerExample.world 9 WorkerExample.registered WorkerExample.reading None)) _).
    refine (rtc_l _ _ (mkSystem WorkerExample.coalescing Coalescing WorkerExample.firstErr) _
      (step_worker _ _ _ (worker_request WorkerExample.world WorkerExample.first _ _)) _); [vm_compute; reflexivity|].
    refine (rtc_l _ _ (mkSystem WorkerExample.drained Ready WorkerExample.firstErr) _
      (step_worker _ _ _ (worker_drain WorkerExample.world WorkerExample.coalescing _)) _).
    refine (rtc_l _ _ (mkSystem WorkerExample.drained (Reconciling (List (store (srv WorkerExample.drained)))) WorkerExample.firstErr) _
      (step_worker _ _ _ (worker_read WorkerExample.world WorkerExample.drained _)) _).
    exact (rtc_once _ _ (step_worker _ _ _ (worker_finish WorkerExample.world 9 WorkerExample.drained _ _))).
  - reflexivity.
  - vm_compute. reflexivity.
  - vm_compute. reflexivity.
Defined.

(** A device is registered and its subscriptions are made; somebody else has
    started a login under the same installation; the device is revoked. *)
Module StaleExample.
Import ServerProofs.Example SubscriptionProofs.

Definition other : string := "fedcba9876543210fedcba9876543210".
Definition world : World := WorkerExample.world
  <| decodeAuthStart := λ _, Ok (mkAuthStart "device" other "app://oauth/callback") |>
  <| parseURL := λ _, Some (NetURL.mkURL "app" "oauth" "oauth" "/callback" "/callback" false "" "") |>
  <| cfg := (cfg WorkerExample.world) <| AuthAllowedAppSchemes := ["app"] |> <| AuthStateTTL := Hour |> |>.
Definition synchronizedBackend : backend RegistrationStore.t ToyTwitch.state := now_ WorkerExample.final.
Definition contested : backend RegistrationStore.t ToyTwitch.state :=
  synchronizedBackend <| srv := (AuthHandlers.startMobileAuth world (srv synchronizedBackend) put).1 |>.
Definition token : string := match Memory.randomToken zero_rand "fsv1_" 32 with Ok token => token | Err _ => "" end.
Definition revoke : httpRequest :=
  mkRequest "DELETE" "/v1/auth/mobile/device" (λ _, "") (λ _, "")
    (λ name, if name == "Authorization" then "Bearer " +:+ token else
             if name == "X-Installation-ID" then "device" else if name == "X-Device-Secret" then secret else "") "" "".
Definition outcome : server RegistrationStore.t * response := AuthHandlers.revokeMobileDevice world (srv contested) revoke.
End StaleExample.

(** The revocation removes the registration and is then refused, because the
    other login is bound to another secret.  It has asked for no
    reconciliation: the worker goes on waiting while Twitch keeps the ten
    subscriptions of a device that is not registered any more. *)
Example interrupted_revocation_stale :
  Status StaleExample.outcome.2 = 403 ∧
  List (store (srv StaleExample.contested)) ≠ [] ∧ List (store StaleExample.outcome.1) = [] ∧
  reconcileRequested StaleExample.outcome.1 = false ∧ at_ WorkerExample.final = Waiting ∧
  length (SubscriptionProofs.ToyTwitch.subs (Subs.net (eventSub StaleExample.contested))) = 10%nat.
Proof. split_and!; vm_compute; done. Qed.

End SubscriptionHandlers.
