(* ===== verification/Gateway.v ===== *)
(** * The HTTP gateway: [Handler] of [internal/application/server.go]

    The routes, the multiplexer of [net/http] that chooses among them, the
    middleware in front of it, and the remaining endpoints: health,
    readiness, the VAPID key and the administrator's listings.  This is the
    composition of all handlers of the development: one function takes the
    state of the whole application and a request to the next state and the
    response. *)

From S2P Require Import Prelude GoStrings NetIP Config Credentials Domain RegistrationStore SettingsSync AuditStore.
From S2P Require Import RateLimit DeliveryStore AuthStore Subscriptions PushSocket RegistrationInput OAuth Repositories.
From S2P Require Import Server Dispatch Metadata Sockets SyncHandlers AuthHandlers SubscriptionHandlers.
#[local] Open Scope Z_scope.
#[local] Open Scope go_scope.

(** ** The multiplexer ([net/http.ServeMux]) *)

Module Mux.

(** A percent-encoded string; [None] for a malformed escape. *)
Definition hexValue (c : ascii) : option Z :=
  let v := Base64.byteZ c in
  if (48 <=? v) && (v <=? 57) then Some (v - 48) else
  if (97 <=? v) && (v <=? 102) then Some (v - 87) else
  if (65 <=? v) && (v <=? 70) then Some (v - 55) else None.

Fixpoint unescape (s : string) : option string :=
  match s with
  | "" => Some ""
  | String c rest =>
      if bool_decide (c = "%"%char) then
        match rest with
        | String a (String b rest) =>
            high ← hexValue a; low ← hexValue b; tail ← unescape rest;
            Some (String (Base64.Zbyte (16 * high + low)) tail)
        | _ => None
        end
      else tail ← unescape rest; Some (String c tail)
  end.

(** [path.Clean] on the segments of a rooted path. *)
Definition cleanSegments (segments : list string) : list string :=
  rev (foldl (λ kept segment,
    if (segment == "") || (segment == ".") then kept else
    if segment == ".." then tail kept else segment :: kept) [] segments).

Definition rooted (segments : list string) : string :=
  match segments with [] => "/" | _ => String.concat "" ((λ s, "/" +:+ s) <$> segments) end.

Definition cleanPath (p : string) : string :=
  if p == "" then "/" else
  let p := match p with String "/" _ => p | _ => "/" +:+ p end in
  let np := rooted (cleanSegments (Split "/" p)) in
  if HasSuffix p "/" && (np != "/") then np +:+ "/" else np.

(** The segments the routing tree is walked by: unescaped, and ["/"] for a
    trailing slash.  A segment that does not unescape is taken as it is. *)
Definition segmentOf (s : string) : string := default s (unescape s).
Fixpoint withSlash (segments : list string) : list string :=
  match segments with
  | [] => []
  | [""] => ["/"]
  | s :: segments => segmentOf s :: withSlash segments
  end.
Definition segmentsOf (path : string) : list string := withSlash (Split "/" (TrimPrefix path "/")).

(** A pattern: a method, and segments that are literal or a wildcard. *)
Inductive segment := Lit (text : string) | Wild (name : string).

Definition parseSegment (s : string) : segment :=
  if HasPrefix s "{" && HasSuffix s "}" then Wild (TrimSuffix (TrimPrefix s "{") "}") else Lit s.
Definition parsePattern (pattern : string) : string * list segment :=
  match Split " " pattern with
  | [method; path] => (method, parseSegment <$> Split "/" (TrimPrefix path "/"))
  | _ => ("", [])
  end.

Section Match.
Context {H : Type}.

(** What is left of the patterns after a literal or a wildcard segment. *)
Definition afterLit (seg : string) (patterns : list (list segment * H)) : list (list segment * H) :=
  omap (λ '(p, h), match p with Lit text :: p => if text == seg then Some (p, h) else None | _ => None end) patterns.
Definition afterWild (patterns : list (list segment * H)) : list (list segment * H) :=
  omap (λ '(p, h), match p with Wild _ :: p => Some (p, h) | _ => None end) patterns.

(** The routing tree: a literal is tried before a wildcard, which does not
    match a trailing slash.  The result carries what the wildcards matched. *)
Fixpoint matchPath (patterns : list (list segment * H)) (path : list string) : option (H * list string) :=
  match path with
  | [] => h ← head (omap (λ '(p, h), match p with [] => Some h | _ => None end) patterns); Some (h, [])
  | seg :: path =>
      match matchPath (afterLit seg patterns) path with
      | Some found => Some found
      | None =>
          if seg != "/"
          then '(h, matches) ← matchPath (afterWild patterns) path; Some (h, seg :: matches)
          else None
      end
  end.

(** The patterns of a method; a HEAD request is served by GET as well. *)
Definition ofMethod (method : string) (routes : list (string * list segment * H)) : list (list segment * H) :=
  omap (λ '(m, p, h), if m == method then Some (p, h) else None) routes.
Definition matchMethod (routes : list (string * list segment * H)) (method : string) (path : list string)
    : option (H * list string) :=
  match matchPath (ofMethod method routes) path with
  | Some found => Some found
  | None => if method == "HEAD" then matchPath (ofMethod "GET" routes) path else None
  end.

(** [findHandler]: a handler with the wildcards' values, a redirection to the
    clean path, or the refusals. *)
Inductive decision := Found (handler : H) (matches : list string) | Moved (path : string) | NotAllowed | NotFound.
Definition findHandler (routes : list (string * list segment * H)) (method escapedPath : string) : decision :=
  let path := if method == "CONNECT" then escapedPath else cleanPath escapedPath in
  if path != escapedPath then Moved path else
  match matchMethod routes method (segmentsOf path) with
  | Some (handler, matches) => Found handler matches
  | None =>
      if existsb (λ '(m, _, _), bool_decide (is_Some (matchPath (ofMethod m routes) (segmentsOf path)))) routes
      then NotAllowed else NotFound
  end.
End Match.

Definition wildcards (p : list segment) : list string :=
  omap (λ s, match s with Wild name => Some name | Lit _ => None end) p.
End Mux.

Module Gateway.
Import RateLimit Server Dispatch Sockets SyncHandlers AuthHandlers SubscriptionHandlers Mux.

(** ** The routes *)

Inductive endpoint :=
| Health | Ready | VAPIDPublicKey | GlobalTwitchBadges | ChannelTwitchBadges
| StartMobileAuth | BeginBrowserAuth | TwitchOAuthCallback | CompleteMobileAuth | LeaseMobileToken
| DeleteMobileSession | RevokeMobileDevice | RevokeAllMobileSessions
| GetSettingsSync | PutSettingsSync | GetSettingsSyncHistory | RestoreSettingsSyncRevision
| UpsertRegistration | DeleteRegistration | SelfTest | PushSocketEndpoint | EventSubWebhook
| AdminReconcileEventSub | AdminListEventSubSubscriptions | AdminDeleteEventSubSubscriptions
| AdminEventSubInbox | AdminRetryEventSubInbox | AdminDeliveryHistory | AdminAuditLog | AdminPush.

#[export] Instance endpoint_eq_dec : EqDecision endpoint.
Proof. solve_decision. Defined.

Definition routes : list (string * endpoint) := [
  ("GET /healthz", Health);
  ("GET /readyz", Ready);
  ("GET /v1/push/vapid-public-key", VAPIDPublicKey);
  ("GET /v1/twitch/badges/global", GlobalTwitchBadges);
  ("GET /v1/twitch/badges/{broadcasterID}", ChannelTwitchBadges);
  ("POST /v1/auth/mobile/start", StartMobileAuth);
  ("GET /v1/auth/mobile/browser", BeginBrowserAuth);
  ("GET /v1/auth/twitch/callback", TwitchOAuthCallback);
  ("POST /v1/auth/mobile/complete", CompleteMobileAuth);
  ("POST /v1/auth/token", LeaseMobileToken);
  ("DELETE /v1/auth/session", DeleteMobileSession);
  ("DELETE /v1/auth/device", RevokeMobileDevice);
  ("DELETE /v1/auth/sessions", RevokeAllMobileSessions);
  ("GET /v1/sync/settings", GetSettingsSync);
  ("PUT /v1/sync/settings", PutSettingsSync);
  ("GET /v1/sync/settings/history", GetSettingsSyncHistory);
  ("POST /v1/sync/settings/restore/{revision}", RestoreSettingsSyncRevision);
  ("PUT /v1/push/registrations/{installationID}", UpsertRegistration);
  ("DELETE /v1/push/registrations/{installationID}", DeleteRegistration);
  ("POST /v1/push/registrations/{installationID}/self-test", SelfTest);
  ("GET /v1/push/socket", PushSocketEndpoint);
  ("POST /v1/eventsub/webhook", EventSubWebhook);
  ("POST /v1/admin/eventsub/reconcile", AdminReconcileEventSub);
  ("GET /v1/admin/eventsub/subscriptions", AdminListEventSubSubscriptions);
  ("DELETE /v1/admin/eventsub/subscriptions", AdminDeleteEventSubSubscriptions);
  ("GET /v1/admin/eventsub/inbox", AdminEventSubInbox);
  ("POST /v1/admin/eventsub/inbox/{messageID}/retry", AdminRetryEventSubInbox);
  ("GET /v1/admin/deliveries", AdminDeliveryHistory);
  ("GET /v1/admin/audit", AdminAuditLog);
  ("POST /v1/admin/push/{installationID}", AdminPush)].

Definition parseRoute (route : string * endpoint) : string * list segment * (list string * endpoint) :=
  let '(method, segments) := parsePattern route.1 in (method, segments, (wildcards segments, route.2)).
Definition table : list (string * list segment * (list string * endpoint)) := parseRoute <$> routes.

(** ** The state and a call *)

(** The server with its subscription manager, the metadata client and the
    push connections. *)
Record application {RS T : Type} := mkApplication {
  back : backend RS T;
  metadata : Metadata.twitchMetadataClient;
  preAuth : Z;
  connected : gmap nat socket
}.
Arguments application : clear implicits.
Arguments mkApplication {RS T}.
#[global] Instance eta_application {RS T} : Eta (application RS T) := λ a,
  mkApplication (back a) (metadata a) (preAuth a) (connected a).

(** A request as it arrives: [r.URL.EscapedPath()], what the network does
    with its response, and the number a connection made of it gets. *)
Record call := mkCall { Request : httpRequest; EscapedPath : string; Wire : wire; Number : nat }.

(** [r.SetPathValue] for what the wildcards matched. *)
Definition withPathValues (names matches : list string) (r : httpRequest) : httpRequest :=
  mkRequest (Method r) (Path r)
    (λ name, default "" (snd <$> List.find (λ '(n, _), n == name) (zip names matches)))
    (QueryParam r) (Header r) (RemoteAddr r) (Body r).

Section Gateway.
Context {RS : Type} `{!RegistrationRepository RS}.
Context {T : Type} {api : Subs.TwitchAPI T}.
Context {rt : GoRuntime} {sha : Sha256} {uni : Unicode} (W : World).
(** The environment of the metadata client; the pages of a listing that can
    be read; the readiness check, if there is one, and its outcome. *)
Context (ME : Metadata.Env) (turns : nat) (readiness : option (nat → option error)).
(** What the settings handlers are given ([SyncHandlers]). *)
Context (authConfigured : bool) (decodePut : string → result settingsSyncPutRequest)
  (jsonValid : string → bool) (decodeHeader : string → option settingsBackupHeader).
Implicit Types (a : application RS T) (s : server RS).

(** ** The remaining endpoints *)

Definition health : response := mkResponse 200 (JStatus "ok").

Definition ready s : server RS * response :=
  match readiness with
  | None => (s, health)
  | Some ping =>
      let err := ping (ticks s) in
      let s := tick s in
      match err with
      | Some _ => (s, mkResponse 503 (JStatus "unavailable"))
      | None => (s, health)
      end
  end.

Definition vapidPublicKey : response :=
  if Config.VAPIDPublicKey (cfg W) == "" then writeError 503 "VAPID is not configured"
  else mkResponse 200 (JVAPID (Config.VAPIDPublicKey (cfg W))).

Definition queryLimit (r : httpRequest) (fallback maximum : Z) : Z :=
  let value := match ParseInt (QueryParam r "limit") with
               | Some parsed => if 0 <? parsed then parsed else fallback
               | None => fallback
               end in
  if maximum <? value then maximum else value.

(** An endpoint for the administrator that only reads. *)
Definition adminListing s (r : httpRequest) (listing : Z → payload) : response :=
  match authorizeAdmin W r with
  | Some refused => refused
  | None => mkResponse 200 (listing (queryLimit r 200 1000))
  end.
Definition adminEventSubInbox s (r : httpRequest) : response :=
  adminListing s r (λ limit, JInbox (DeliveryStore.ListEventSubInbox (deliveries s) limit)).
Definition adminDeliveryHistory s (r : httpRequest) : response :=
  adminListing s r (λ limit, JDeliveries (DeliveryStore.ListDeliveries (deliveries s) limit)).
Definition adminAuditLog s (r : httpRequest) : response :=
  adminListing s r (λ limit, JAudit (AuditStore.ListAudit (audit s) limit)).

(** ** The handlers on the whole state *)

Definition onServer a (call : server RS * response) : application RS T * option response :=
  (a <| back := (back a) <| srv := call.1 |> |>, Some call.2).
Definition onBackend a (call : backend RS T * response) : application RS T * option response :=
  (a <| back := call.1 |>, Some call.2).
Definition onMetadata a (call : Metadata.twitchMetadataClient * response) : application RS T * option response :=
  (a <| metadata := call.1 |>, Some call.2).

(** The connections' part of the state. *)
Definition socketsOf a : Sockets.system RS := Sockets.mkSystem (srv (back a)) (preAuth a) (connected a).
Definition withSockets a (y : Sockets.system RS) : application RS T :=
  a <| back := (back a) <| srv := Sockets.srv y |> |> <| preAuth := preAuthSockets y |> <| connected := sockets y |>.

(** A push connection is answered later, or not at all: [None]. *)
Definition serve (e : endpoint) (c : call) a (r : httpRequest) : application RS T * option response :=
  let s := srv (back a) in
  match e with
  | Health => (a, Some health)
  | Ready => onServer a (ready s)
  | VAPIDPublicKey => (a, Some vapidPublicKey)
  | GlobalTwitchBadges => onMetadata a (Metadata.globalTwitchBadges ME (metadata a))
  | ChannelTwitchBadges => onMetadata a (Metadata.channelTwitchBadges ME (metadata a) r)
  | StartMobileAuth => onServer a (startMobileAuth W s r)
  | BeginBrowserAuth => onServer a (beginBrowserAuth W s r)
  | TwitchOAuthCallback => onServer a (twitchOAuthCallback W s r)
  | CompleteMobileAuth => onServer a (completeMobileAuth W s r)
  | LeaseMobileToken => onServer a (leaseMobileToken W s r)
  | DeleteMobileSession => onServer a (deleteMobileSession W s r)
  | RevokeMobileDevice => onServer a (revokeMobileDevice W s r)
  | RevokeAllMobileSessions => onServer a (revokeAllMobileSessions W s r)
  | GetSettingsSync => onServer a (getSettingsSync W authConfigured s r)
  | PutSettingsSync => onServer a (putSettingsSync W authConfigured decodePut jsonValid decodeHeader s r)
  | GetSettingsSyncHistory => onServer a (getSettingsSyncHistory W authConfigured s r)
  | RestoreSettingsSyncRevision => onServer a (restoreSettingsSyncRevision W authConfigured s r)
  | UpsertRegistration => onServer a (upsertRegistration W s r)
  | DeleteRegistration => onServer a (deleteRegistration W s r)
  | SelfTest => onServer a (selfTest W s r)
  | PushSocketEndpoint =>
      let '(y, refused) := Sockets.accept (socketsOf a) (Number c) r (Wire c) in (withSockets a y, refused)
  | EventSubWebhook => onServer a (eventSubWebhook W s r)
  | AdminReconcileEventSub => onBackend a (adminReconcileEventSub W turns (back a) r)
  | AdminListEventSubSubscriptions => onBackend a (adminListEventSubSubscriptions W turns (back a) r)
  | AdminDeleteEventSubSubscriptions => onBackend a (adminDeleteEventSubSubscriptions W turns (back a) r)
  | AdminEventSubInbox => (a, Some (adminEventSubInbox s r))
  | AdminRetryEventSubInbox => onServer a (adminRetryEventSubInbox W s r)
  | AdminDeliveryHistory => (a, Some (adminDeliveryHistory s r))
  | AdminAuditLog => (a, Some (adminAuditLog s r))
  | AdminPush => onServer a (adminPush W s r)
  end.

(** [mux.ServeHTTP]. *)
Definition route (c : call) : decision := findHandler table (Method (Request c)) (EscapedPath c).
Definition ServeHTTP (c : call) a : application RS T * option response :=
  match route c with
  | Found (names, e) matches => serve e c a (withPathValues names matches (Request c))
  | Moved path => (a, Some (mkResponse 301 (Redirect path)))
  | NotAllowed => (a, Some (mkResponse 405 (RawText "Method Not Allowed")))
  | NotFound => (a, Some (mkResponse 404 (RawText "404 page not found")))
  end.

(** [rateLimitRequests] in front of the multiplexer.  [logRequests] only
    writes to the log, and no handler panics, so [recoverPanic] has nothing to
    recover. *)
Definition rateLimitRequests (next : application RS T → application RS T * option response) (r : httpRequest) a
    : application RS T * option response :=
  let '(s, refused) := admission W (srv (back a)) r in
  let a := a <| back := (back a) <| srv := s |> |> in
  match refused with
  | Some response => (a, Some response)
  | None => next a
  end.

Definition Handler (c : call) a : application RS T * option response :=
  rateLimitRequests (ServeHTTP c) (Request c) a.
End Gateway.
End Gateway.
