(* ===== verification/GatewayProofs.v ===== *)
(** * The HTTP gateway: theorems

    Without the administrator's token no route under [/v1/admin/] changes
    anything but the rate limiter and the audit log; the rate limit of a
    request is that of the route it reaches, however its path is written; and
    no request but one for a push connection attaches or detaches a
    connection, so that the theorems on push connections hold beside all of
    them. *)

From S2P Require Import Prelude GoStrings NetIP Config Credentials Domain RegistrationStore SettingsSync AuditStore.
From S2P Require Import RateLimit DeliveryStore AuthStore Subscriptions PushSocket RegistrationInput OAuth Repositories.
From S2P Require Import Server ServerProofs Dispatch DispatchProofs Metadata Sockets SocketProofs SyncHandlers AuthHandlers.
From S2P Require Import SubscriptionProofs SubscriptionHandlers Gateway.
#[local] Open Scope Z_scope.
#[local] Open Scope go_scope.

Module GatewayProofs.
Import RegistrationInput RateLimit Server Dispatch Sockets Mux Gateway.

(** ** The multiplexer *)

(** A path that a pattern matches. *)
Definition fits (p : list segment) (path : list string) : Prop :=
  Forall2 (λ seg s, match seg with Lit text => s = text | Wild _ => s ≠ "/" end) p path.

Lemma matchPath_fits {H} (patterns : list (list segment * H)) path h matches :
  matchPath patterns path = Some (h, matches) → ∃ p, (p, h) ∈ patterns ∧ fits p path.
Proof.
  induction path as [|seg path IH] in patterns, matches |- *; cbn [matchPath].
  - intros (h' & Hh & [= <- <-])%bind_Some. destruct (omap _ _) as [|h0 hs] eqn:Ho; [done|]. injection Hh as ->.
    assert (h' ∈ h' :: hs) as Hin by left. rewrite <-Ho in Hin. apply list_elem_of_omap in Hin as ([p h0] & Hin & Hp).
    destruct p; [|done]. injection Hp as ->. exists []. split; [done|constructor].
  - destruct (matchPath (afterLit seg patterns) path) as [[h0 m0]|] eqn:Hl.
    + intros [= <- <-]. destruct (IH _ _ Hl) as (p & Hin & Hf).
      apply list_elem_of_omap in Hin as ([[|[text|name] p'] h'] & Hin & Hp); [done| |done].
      destruct (bool_decide_reflect (text = seg)) as [->|]; [|done]. injection Hp as -> ->.
      exists (Lit seg :: p). split; [done|by constructor].
    + destruct (bool_decide_reflect (seg = "/")) as [|Hne]; [done|]. cbn [negb].
      intros ([h0 m0] & Hw & [= <- <-])%bind_Some. destruct (IH _ _ Hw) as (p & Hin & Hf).
      apply list_elem_of_omap in Hin as ([[|[text|name] p'] h'] & Hin & Hp); [done|done|]. injection Hp as -> ->.
      exists (Wild name :: p). split; [done|by constructor].
Qed.

Lemma ofMethod_elem {H} method (routes : list (string * list segment * H)) p h :
  (p, h) ∈ ofMethod method routes → (method, p, h) ∈ routes.
Proof.
  intros ([[m p'] h'] & Hin & Hp)%list_elem_of_omap. destruct (bool_decide_reflect (m = method)) as [->|]; [|done].
  by injection Hp as -> ->.
Qed.

Lemma findHandler_fits {H} (routes : list (string * list segment * H)) method escaped h matches :
  (∀ p h, ("CONNECT", p, h) ∉ routes) → findHandler routes method escaped = Found h matches →
  cleanPath escaped = escaped ∧ ∃ m p, (m, p, h) ∈ routes ∧ fits p (segmentsOf escaped).
Proof.
  intros Hno. unfold findHandler. set (path := if method == "CONNECT" then escaped else cleanPath escaped).
  destruct (bool_decide_reflect (path = escaped)) as [Heq|]; [|done]. cbn [negb]. rewrite Heq.
  destruct (matchMethod _ _ _) as [[h0 m0]|] eqn:Hm; [|by destruct (existsb _ _)]. intros [= -> ->].
  unfold matchMethod in Hm. destruct (matchPath (ofMethod method routes) _) as [[h1 m1]|] eqn:Hp.
  - injection Hm as -> ->. destruct (matchPath_fits _ _ _ _ Hp) as (p & Hin%ofMethod_elem & Hf). split; [|eauto].
    unfold path in Heq. destruct (bool_decide_reflect (method = "CONNECT")) as [->|]; [|done]. by destruct (Hno p h).
  - destruct (bool_decide_reflect (method = "HEAD")) as [->|]; [|done].
    destruct (matchPath_fits _ _ _ _ Hm) as (p & Hin%ofMethod_elem & Hf). split; [exact Heq|eauto].
Qed.

(** Unescaping a path and unescaping its segments is the same. *)
Lemma hexValue_slash : hexValue "/"%char = None.
Proof. reflexivity. Qed.

Lemma Split_cons_ne sep c s : c ≠ sep →
  Split sep (String c s) = match Split sep s with h :: t => String c h :: t | [] => [String c ""] end.
Proof. intros Hne. cbn [Split]. by rewrite bool_decide_false. Qed.
Lemma Split_cons_eq sep s : Split sep (String sep s) = "" :: Split sep s.
Proof. cbn [Split]. by rewrite bool_decide_true. Qed.

Lemma concat_cons sep x y l : String.concat sep (x :: y :: l) = x +:+ sep +:+ String.concat sep (y :: l).
Proof. reflexivity. Qed.

Lemma concat_String sep c x l : String.concat sep (String c x :: l) = String c (String.concat sep (x :: l)).
Proof. by destruct l. Qed.

(** The head of a split takes the characters before the first separator. *)
Lemma unescape_split n s t : (String.length s ≤ n)%nat → unescape s = Some t →
  t = String.concat "/" (segmentOf <$> Split "/" s) ∧ Forall (λ x, is_Some (unescape x)) (Split "/" s).
Proof.
  induction n as [|n IH] in s, t |- *; (destruct s as [|c s]; [intros _ [= <-]; split; [done|by repeat constructor]|]);
    [cbn; lia|]. cbn [String.length]. intros Hlen. cbn [unescape].
  destruct (bool_decide_reflect (c = "%"%char)) as [->|Hc].
  - destruct s as [|a [|b s]]; [done|done|].
    intros (high & Ha & (low & Hb & (u & Hu & [= <-])%bind_Some)%bind_Some)%bind_Some.
    cbn [String.length] in Hlen. destruct (IH s u ltac:(lia) Hu) as [-> Hall].
    assert (a ≠ "/"%char) by (intros ->; by rewrite hexValue_slash in Ha).
    assert (b ≠ "/"%char) by (intros ->; by rewrite hexValue_slash in Hb).
    rewrite !Split_cons_ne by done. destruct (Split "/" s) as [|x l] eqn:Hsp; [by apply Split_nonempty in Hsp|].
    apply Forall_cons in Hall as [[u Hx] Hall].
    assert (unescape (String "%" (String a (String b x))) = Some (String (Base64.Zbyte (16 * high + low)) u)) as Hux
      by (cbn [unescape]; rewrite bool_decide_true, Ha by done; cbn; rewrite Hb; cbn; by rewrite Hx).
    cbn [fmap list_fmap]. split; [|constructor; [by eexists|done]].
    unfold segmentOf at 3. rewrite Hux. unfold segmentOf at 1. rewrite Hx. cbn [default]. unfold id.
    by rewrite concat_String.
  - intros (u & Hu & [= <-])%bind_Some. destruct (IH s u ltac:(lia) Hu) as [-> Hall].
    destruct (decide (c = "/"%char)) as [->|Hs].
    + rewrite Split_cons_eq. cbn [fmap list_fmap]. split; [|constructor; [by eexists|done]].
      destruct (Split "/" s) as [|x l] eqn:Hsp; [by apply Split_nonempty in Hsp|]. reflexivity.
    + rewrite Split_cons_ne by done. destruct (Split "/" s) as [|x l] eqn:Hsp; [by apply Split_nonempty in Hsp|].
      apply Forall_cons in Hall as [[u Hx] Hall].
      assert (unescape (String c x) = Some (String c u)) as Hux
        by (cbn [unescape]; rewrite bool_decide_false by done; by rewrite Hx).
      cbn [fmap list_fmap]. split; [|constructor; [by eexists|done]].
      unfold segmentOf at 3. rewrite Hux. unfold segmentOf at 1. rewrite Hx. cbn [default]. unfold id.
      by rewrite concat_String.
Qed.

(** ** Which route a path reaches *)

Lemma withSlash_fits p l :
  l ≠ [] → Forall (λ seg, match seg with Lit text => text ≠ "/" | Wild _ => True end) p → fits p (withSlash l) →
  withSlash l = segmentOf <$> l.
Proof.
  intros Hne Hp. induction l as [|x l IH] in p, Hne, Hp |- *; [done|]. intros Hf.
  destruct l as [|y l].
  - destruct x as [|c x]; [|reflexivity]. cbn in Hf. apply Forall2_cons_inv_r in Hf as (seg & p' & Hs & _ & ->).
    apply Forall_cons in Hp as [Hp _]. by destruct seg; [congruence|].
  - assert (withSlash (x :: y :: l) = segmentOf x :: withSlash (y :: l)) as He by by destruct x.
    rewrite He in Hf |- *. apply Forall2_cons_inv_r in Hf as (seg & p' & _ & Hf & ->).
    apply Forall_cons in Hp as [_ Hp]. cbn [fmap list_fmap]. f_equal. by apply (IH p').
Qed.

Lemma cleanPath_rooted p : cleanPath p = p → ∃ rest, p = "/" +:+ rest.
Proof.
  assert (∀ l, ∃ t, rooted l = "/" +:+ t) as Hr by (intros [|x [|y l]]; cbn; eexists; reflexivity).
  assert (∃ t, cleanPath p = "/" +:+ t) as [t Ht].
  { unfold cleanPath. destruct (p == ""); [by exists ""|]. cbv zeta.
    match goal with |- context [rooted ?l] => destruct (Hr l) as [t ->] end.
    destruct (_ && _); [|eauto]. exists (t +:+ "/"). by rewrite app_str_assoc. }
  intros <-. eauto.
Qed.

(** The method and the path of a registered pattern. *)
Definition patternPath (pattern : string) : string := default "" (Split " " pattern !! 1%nat).

Definition literal (p : list segment) : Prop :=
  Forall (λ seg, match seg with Lit text => text ≠ "/" | Wild _ => True end) p.
Definition literalb (p : list segment) : bool :=
  forallb (λ seg, match seg with Lit text => text != "/" | Wild _ => true end) p.
Lemma literalb_spec p : literalb p = true → literal p.
Proof.
  unfold literalb, literal. rewrite forallb_forall, Forall_forall. intros H seg Hin%list_elem_of_In.
  specialize (H seg Hin). destruct seg; [|done]. by apply negb_true_iff, bool_decide_eq_false in H.
Qed.

Lemma table_literal m p h : (m, p, h) ∈ table → m ≠ "CONNECT" ∧ literal p.
Proof.
  intros Hin.
  assert (forallb (λ '(m, p, _), (m != "CONNECT") && literalb p) table = true) as Hall by (vm_compute; reflexivity).
  rewrite forallb_forall in Hall. specialize (Hall _ (proj1 (list_elem_of_In _ _) Hin)). cbn in Hall.
  apply andb_prop in Hall as [H1%negb_true_iff%bool_decide_eq_false H2]. split; [done|by apply literalb_spec].
Qed.

(** A request that reaches a route has the decoded path of its pattern, with
    the wildcards' values. *)
Lemma route_path c names e matches :
  unescape (EscapedPath c) = Some (Path (Request c)) → route c = Found (names, e) matches →
  ∃ pattern path, (pattern, e) ∈ routes ∧ fits (parsePattern pattern).2 path ∧
    Path (Request c) = "/" +:+ String.concat "/" path.
Proof.
  intros Hu Hr. unfold route in Hr.
  destruct (findHandler_fits table (Method (Request c)) (EscapedPath c) (names, e) matches) as (Hclean & m & p & Hin & Hf);
    [|done|].
  { intros p h Hin. by apply table_literal in Hin as [? _]. }
  pose proof (table_literal _ _ _ Hin) as [_ Hlit].
  unfold table in Hin. apply list_elem_of_fmap in Hin as ([pattern e'] & Heq & Hin).
  unfold parseRoute in Heq. cbn in Heq. destruct (parsePattern pattern) as [method p'] eqn:Hp. injection Heq as -> -> -> ->.
  destruct (cleanPath_rooted _ Hclean) as [tail Htail]. rewrite Htail in Hu, Hf.
  unfold segmentsOf in Hf. rewrite TrimPrefix_app in Hf.
  assert (unescape ("/" +:+ tail) = (t ← unescape tail; Some (String "/" t))) as He by reflexivity.
  rewrite He in Hu. apply bind_Some in Hu as (t & Hu & [= Hpath]).
  destruct (unescape_split (String.length tail) tail t (le_n _) Hu) as [-> _].
  rewrite (withSlash_fits p') in Hf; [|apply Split_nonempty|done|done].
  exists pattern, (segmentOf <$> Split "/" tail). rewrite Hp. by split_and!.
Qed.

(** ** The rate limit of a route *)

(** The limit a route is registered for, by its pattern. *)
Definition patternPolicy (W : World) (pattern : string) : rateLimitPolicy :=
  if HasPrefix (patternPath pattern) "/v1/auth/" then authPolicy (cfg W) else
  if HasPrefix (patternPath pattern) "/v1/admin/" then adminPolicy (cfg W) else generalPolicy (cfg W).

Ltac fits_cases :=
  repeat match goal with
  | H : Forall2 _ [] _ |- _ => apply Forall2_nil_inv_l in H; subst
  | H : Forall2 _ (_ :: _) _ |- _ => apply Forall2_cons_inv_l in H as (? & ? & ? & H & ->)
  end; subst.

(** Reading the registered patterns one by one. *)
Lemma routes_cases (P : string → endpoint → Prop) :
  Forall (λ '(pattern, e), P pattern e) routes → ∀ pattern e, (pattern, e) ∈ routes → P pattern e.
Proof. intros Hall pattern e Hin. rewrite Forall_forall in Hall. by apply (Hall (pattern, e)). Qed.

Lemma policy_of_pattern W pattern e path :
  (pattern, e) ∈ routes → fits (parsePattern pattern).2 path →
  policyFor W ("/" +:+ String.concat "/" path) = patternPolicy W pattern ∧
  (rateLimitExemptPath ("/" +:+ String.concat "/" path) = true ↔ e = EventSubWebhook).
Proof.
  intros Hin. revert path. revert pattern e Hin.
  apply (routes_cases (λ pattern e, ∀ path, fits (parsePattern pattern).2 path →
    policyFor W ("/" +:+ String.concat "/" path) = patternPolicy W pattern ∧
    (rateLimitExemptPath ("/" +:+ String.concat "/" path) = true ↔ e = EventSubWebhook))).
  repeat (apply Forall_cons; split; [intros path Hf; vm_compute in Hf; fits_cases; split; [reflexivity|by split]|]).
  constructor.
Qed.

(** A request is limited by the policy of the route it reaches, however
    its path is written.  With the limiter on, a request that reaches a
    handler was charged to the policy its route is registered under (the
    routes of the login, of the administrator, the others), and the only
    handler reached without a charge is the webhook's: escapes, repeated
    slashes and dot segments do not change the class of a request. *)
Theorem limit_follows_route W c names e matches :
  unescape (EscapedPath c) = Some (Path (Request c)) → route c = Found (names, e) matches →
  (∃ pattern, (pattern, e) ∈ routes ∧ policyFor W (Path (Request c)) = patternPolicy W pattern) ∧
  (rateLimitExemptPath (Path (Request c)) = true ↔ e = EventSubWebhook).
Proof.
  intros Hu Hr. destruct (route_path c names e matches Hu Hr) as (pattern & path & Hin & Hf & ->).
  destruct (policy_of_pattern W pattern e path Hin Hf) as [Hp He]. split; [by exists pattern|done].
Qed.

(** ** What the middleware changes *)

Section Limits.
Context {RS : Type} `{!RegistrationRepository RS}.
Context {rt : GoRuntime} {sha : Sha256} {uni : Unicode} (W : World).
Implicit Types (s : server RS) (r : httpRequest).

(** Nothing but the limiter's buckets, the audit log and the clock. *)
Definition only_limits s s' : Prop :=
  ∃ l log n, s' = s <| Server.rateLimiter := l |> <| audit := log |> <| ticks := n |>.

#[local] Instance only_limits_preorder : PreOrder only_limits.
Proof.
  split.
  - intros s. by exists (Server.rateLimiter s), (audit s), (ticks s); destruct s.
  - intros s1 s2 s3 (l & log & n & ->) (l' & log' & n' & ->). by exists l', log', n'.
Qed.

Lemma auditRecord_limits s record : only_limits s (auditRecord W s record).
Proof. unfold auditRecord. destruct (AuditStore.Append _ _ _ _) as [log ?]. by exists (Server.rateLimiter s), log, (S (ticks s)); destruct s. Qed.

Lemma take_limits s policy key : only_limits s (take W s policy key).1.
Proof. unfold take. destruct (RateLimit.take _ _ _ _) as [l ?]. by exists l, (audit s), (S (ticks s)); destruct s. Qed.

Lemma auditRateLimitBlock_limits s d p m q i u : only_limits s (auditRateLimitBlock W s d p m q i u).
Proof.
  unfold auditRateLimitBlock. destruct (negb (Audit d)); [done|].
  pose proof (take_limits s auditPolicy "global") as Ht. destruct (take W s _ _) as [s1 d1].
  destruct (negb _); [done|]. etrans; [exact Ht|apply auditRecord_limits].
Qed.

Lemma enforceRateLimit_limits s r policy key i u :
  only_limits s (enforceRateLimit W s r policy key i u).1 ∧
  ∀ refused, (enforceRateLimit W s r policy key i u).2 = Some refused → Status refused = 429.
Proof.
  unfold enforceRateLimit. pose proof (take_limits s policy key) as Ht. destruct (take W s policy key) as [s1 d].
  destruct (Allowed d); cbn [fst snd]; [by split|]. split; [|by intros ? [= <-]].
  etrans; [exact Ht|apply auditRateLimitBlock_limits].
Qed.

Lemma enforceInstallation_limits s r i secret :
  only_limits s (enforceInstallationRateLimit W s r i secret).1 ∧
  ∀ refused, (enforceInstallationRateLimit W s r i secret).2 = Some refused → Status refused = 429.
Proof.
  unfold enforceInstallationRateLimit. destruct (RateLimitDisabled _); [by split|].
  destruct (validateMobileDevice _ _); [by split|]. apply enforceRateLimit_limits.
Qed.

Lemma admit_limits s r :
  only_limits s (admission W s r).1 ∧ ∀ refused, (admission W s r).2 = Some refused → Status refused = 429.
Proof.
  unfold admission. destruct (_ || _); [by split|].
  pose proof (enforceRateLimit_limits s r (policyFor W (Path r)) ("ip:" +:+ clientIP W r) "" "") as [Ht Hs].
  destruct (enforceRateLimit _ _ _ _ _ _ _) as [s1 refused]. cbn [fst snd] in Ht, Hs.
  destruct refused as [refused|]; [by split; [|intros ? [= <-]; apply Hs]|].
  destruct (requestInstallationCredentials r) as [i secret]. destruct (_ && _); [|by split].
  destruct (enforceInstallation_limits s1 r i secret) as [Ht2 Hs2]. split; [by etrans|done].
Qed.
End Limits.

(** ** The administrator's routes *)

Section Admin.
Context {RS : Type} `{!RegistrationRepository RS}.
Context {T : Type} {api : SubscriptionHandlers.Subs.TwitchAPI T}.
Context {rt : GoRuntime} {sha : Sha256} {uni : Unicode} (W : World).
Context (ME : Metadata.Env) (turns : nat) (readiness : option (nat → option error)).
Context (authConfigured : bool) (decodePut : string → result SyncHandlers.settingsSyncPutRequest)
  (jsonValid : string → bool) (decodeHeader : string → option SyncHandlers.settingsBackupHeader).
Implicit Types (a : application RS T).

Abbreviation serve := (Gateway.serve W ME turns readiness authConfigured decodePut jsonValid decodeHeader).
Abbreviation Handler := (Gateway.Handler W ME turns readiness authConfigured decodePut jsonValid decodeHeader).

(** The application with another server. *)
Definition withServer a (s : server RS) : application RS T :=
  a <| back := (back a) <| SubscriptionHandlers.srv := s |> |>.

Lemma withServer_self a : withServer a (SubscriptionHandlers.srv (back a)) = a.
Proof. by destruct a as [[]]. Qed.

Lemma authorizeAdmin_values r names matches :
  authorizeAdmin W (withPathValues names matches r) = authorizeAdmin W r.
Proof. reflexivity. Qed.

Lemma serve_admin_refused pattern e c a r refused :
  (pattern, e) ∈ routes → HasPrefix (patternPath pattern) "/v1/admin/" = true →
  authorizeAdmin W r = Some refused → serve e c a r = (a, Some refused).
Proof.
  intros Hin Hp Href. revert Hp. revert pattern e Hin.
  apply (routes_cases (λ pattern e, HasPrefix (patternPath pattern) "/v1/admin/" = true → serve e c a r = (a, Some refused))).
  repeat (apply Forall_cons; split; [intros Hp; vm_compute in Hp; first [discriminate Hp|clear Hp]; cbn [Gateway.serve]|]); [..|constructor];
    unfold SubscriptionHandlers.adminReconcileEventSub, SubscriptionHandlers.adminListEventSubSubscriptions,
      SubscriptionHandlers.adminDeleteEventSubSubscriptions, adminEventSubInbox,
      adminRetryEventSubInbox, adminDeliveryHistory, adminAuditLog, adminPush, adminListing; rewrite Href;
    by destruct a as [[]].
Qed.

(** The request carries the administrator's token: one is configured, and the
    [Authorization] header is [Bearer] followed by it. *)
Definition carriesToken (r : httpRequest) : Prop :=
  AdminToken (cfg W) ≠ "" ∧
  ∃ rest, TrimSpace (Header r "Authorization") = "Bearer " +:+ rest ∧ TrimSpace rest = AdminToken (cfg W).

Lemma secureEqual_iff left right : secureEqual left right = true ↔ left = right ∧ right ≠ "".
Proof.
  unfold secureEqual, ConstantTimeCompare. destruct (Z.eqb_spec (len left) (len right)) as [Hl|Hl]; cbn [negb orb].
  - destruct (Z.eqb_spec (len left) 0) as [H0|H0].
    + split; [done|]. intros [-> Hr]. destruct right; [done|]. unfold len in H0. cbn [String.length] in H0. lia.
    + rewrite bool_decide_eq_true. split; [|by intros []]. intros ->. split; [done|]. by intros ->.
  - split; [done|]. by intros [-> _].
Qed.

Lemma bearer_value r token :
  token ≠ "" → bearerToken r = token ↔ ∃ rest, TrimSpace (Header r "Authorization") = "Bearer " +:+ rest ∧ TrimSpace rest = token.
Proof.
  intros Hne. unfold bearerToken. set (value := TrimSpace (Header r "Authorization")).
  destruct (HasPrefix value "Bearer ") eqn:Hp; cbn [negb].
  - apply prefix_spec in Hp as [rest ->]. rewrite TrimPrefix_app. split; [intros <-; by exists rest|].
    intros (rest' & Heq & <-). by simplify_eq/=.
  - split; [by intros <-|]. intros (rest & Heq & _). assert (HasPrefix value "Bearer " = true) as Hq; [|congruence].
    apply prefix_spec. by exists rest.
Qed.

Lemma authorizeAdmin_iff r :
  ¬ carriesToken r → authorizeAdmin W r = Some (writeError 401 "unauthorized").
Proof.
  intros Hno. unfold authorizeAdmin. destruct (_ || _) eqn:Hc; [done|]. destruct Hno.
  apply orb_false_iff in Hc as [Ha%bool_decide_eq_false Hs%negb_false_iff]. apply secureEqual_iff in Hs as [Hs _].
  split; [done|]. by apply bearer_value.
Qed.

(** C28: without the administrator's token the routes under [/v1/admin/] are
    closed.  A request for one of them whose [Authorization] header is not
    [Bearer] and the configured token, and every such request when no token
    is configured, is answered 401, or 429 by the rate limiter, and changes
    nothing but the limiter and the audit log: no store, no queue, no
    subscription, no connection. *)
Theorem admin_routes_guarded c a pattern e names matches :
  (pattern, e) ∈ routes → HasPrefix (patternPath pattern) "/v1/admin/" = true →
  route c = Found (names, e) matches → ¬ carriesToken (Request c) →
  ∃ s answer, Handler c a = (withServer a s, Some answer) ∧ only_limits (SubscriptionHandlers.srv (back a)) s ∧
    (Status answer = 401 ∨ Status answer = 429).
Proof.
  intros Hin Hp Hr Href%authorizeAdmin_iff. unfold Gateway.Handler, rateLimitRequests.
  destruct (admit_limits W (SubscriptionHandlers.srv (back a)) (Request c)) as [Hl Hs].
  destruct (admission W _ _) as [s [answer|]]; cbn [fst snd] in Hl, Hs.
  { exists s, answer. split_and!; [done..|]. right. by apply Hs. }
  exists s, (writeError 401 "unauthorized"). unfold ServeHTTP. rewrite Hr.
  rewrite (serve_admin_refused pattern e c _ _ (writeError 401 "unauthorized") Hin Hp) by by rewrite authorizeAdmin_values.
  split_and!; [done..|]. by left.
Qed.
End Admin.

(** ** Requests *)

Module GatewayExample.
Import ServerProofs.Example.
#[export] Existing Instance SubscriptionProofs.ToyTwitch.api.

Definition request (method path : string) : httpRequest := mkRequest method path (λ _, "") (λ _, "") (λ _, "") "" "".
Definition noWire : wire := mkWire false None None None [].
Definition escapedCall : call := mkCall (request "POST" "/v1/auth/token") "/v1/%61uth/t%6Fken" noWire 0.
Definition adminCall : call := mkCall (request "GET" "/v1/admin/deliveries") "/v1/admin/deliveries" noWire 0.
Definition guarded : World := ServerProofs.Example.world <| cfg := ServerProofs.Example.config <| AdminToken := "token" |> |>.
Definition a0 : application RegistrationStore.t SubscriptionProofs.ToyTwitch.state :=
  mkApplication (SubscriptionHandlers.mkBackend started SubscriptionProofs.ToyTwitch.start)
    Metadata.newTwitchMetadataClient 0 ∅.
Definition metadataEnv : Metadata.Env :=
  Metadata.mkEnv ServerProofs.Example.config (λ _, 1000) (λ _ _, Err (ErrMsg "")) (λ _, Err (ErrMsg "")) (λ _, Err (ErrMsg "")).
End GatewayExample.
Import ServerProofs.Example GatewayExample.

Lemma limit_follows_route_witness :
  route escapedCall = Found ([], LeaseMobileToken) [] ∧
  rateLimitExemptPath (Path (Request escapedCall)) ≠ true.
Proof.
  assert (route escapedCall = Found ([], LeaseMobileToken) []) as Hr by (vm_compute; reflexivity).
  split; [exact Hr|]. intros He.
  destruct (limit_follows_route ServerProofs.Example.world escapedCall [] LeaseMobileToken []) as [_ [H _]];
    [vm_compute; reflexivity|exact Hr|]. discriminate (H He).
Defined.

Lemma admin_routes_guarded_witness :
  ∃ s answer, Gateway.Handler guarded metadataEnv 9 None true (λ _, Err (ErrMsg "")) (λ _, false) (λ _, None) adminCall a0 =
    (withServer a0 s, Some answer) ∧ (Status answer = 401 ∨ Status answer = 429).
Proof.
  destruct (admin_routes_guarded guarded metadataEnv 9 None true (λ _, Err (ErrMsg "")) (λ _, false) (λ _, None)
    adminCall a0 "GET /v1/admin/deliveries" AdminDeliveryHistory [] []) as (s & answer & H & _ & Hs);
    [apply (bool_decide_unpack _); vm_compute; exact I|vm_compute; reflexivity|vm_compute; reflexivity
    |intros (_ & rest & Hrest & _); discriminate Hrest|].
  exists s, answer. split; [exact H|exact Hs].
Defined.
End GatewayProofs.
