(* ===== verification/ApplicationProofs.v ===== *)
(** * The whole application

    Every handler and every worker of the server beside the push
    connections.  None of them attaches or detaches a connection (they only
    close some), which is what the theorems on push connections ask of the
    rest of the server; so these hold of the application as it runs, with
    its routes, its workers and its connections interleaved. *)

From S2P Require Import Prelude GoStrings NetIP Config Credentials Domain RegistrationStore SettingsSync AuditStore.
From S2P Require Import RateLimit DeliveryStore AuthStore Subscriptions PushSocket RegistrationInput OAuth Repositories.
From S2P Require Import Server ServerProofs Dispatch DispatchProofs Metadata Sockets SocketProofs SyncHandlers AuthHandlers.
From S2P Require Import SubscriptionProofs SubscriptionHandlers Gateway GatewayProofs.
#[local] Open Scope Z_scope.
#[local] Open Scope go_scope.

Module ApplicationProofs.
Import RegistrationInput RateLimit Server Dispatch Sockets SocketProofs SyncHandlers AuthHandlers SubscriptionHandlers Mux Gateway.

(** ** The handlers keep the hub's routes *)

Create HintDb hubs discriminated.

(** [hubs] proves [hub_kept s E] by the structure of [E]: through updates of
    the other fields, through matches, and through the calls of the functions
    registered in [hubs]. *)
Ltac hubs :=
  lazymatch goal with
  | |- hub_kept ?s0 ?E =>
      lazymatch E with
      | fst (pair ?a _) => change (hub_kept s0 a); hubs
      | fst (match ?F with _ => _ end) => hub_split s0 F; hubs
      | match ?F with _ => _ end => hub_split s0 F; hubs
      | tick ?e => change (hub_kept s0 e); hubs
      | update ?field _ ?e =>
          lazymatch field with
          | hub => etrans; [|solve [eauto 1 with hubs nocore]]; hubs
          | _ => change (hub_kept s0 e); hubs
          end
      | _ => first [assumption | reflexivity | etrans; [|solve [eauto 1 with hubs nocore]]; hubs]
      end
  end
with hub_split s0 F :=
  lazymatch type of F with
  | prod (server _) _ =>
      let H := fresh "Hkept" in assert (hub_kept s0 (fst F)) as H by hubs; destruct F; cbn [fst] in H
  | _ => destruct F
  end.

Section Kept.
Context {RS : Type} `{!RegistrationRepository RS}.
Context {rt : GoRuntime} {sha : Sha256} {uni : Unicode} (W : World).
Implicit Types (s : server RS) (r : httpRequest).

Lemma kept_auditRecord s record : hub_kept s (auditRecord W s record).
Proof. apply hub_kept_eq, auditRecord_hub. Qed.
#[local] Hint Resolve kept_auditRecord : hubs.

Lemma kept_request s : hub_kept s (requestEventSubReconcile W s).
Proof. unfold requestEventSubReconcile. by destruct (negb _). Qed.

Lemma Close_kept h i : PushSocket.connections (PushSocket.Close h i) = PushSocket.connections h ∧
  PushSocket.shut h ⊆ PushSocket.shut (PushSocket.Close h i).
Proof. unfold PushSocket.Close. destruct (_ !! i); [|done]. split; [done|]. cbn. set_solver. Qed.

Lemma kept_close s i : hub_kept s (s <| hub := PushSocket.Close (hub s) i |>).
Proof. apply Close_kept. Qed.

Lemma kept_closes s ids : hub_kept s (s <| hub := foldl PushSocket.Close (hub s) ids |>).
Proof.
  unfold hub_kept. cbn. generalize (hub s). induction ids as [|i ids IH]; intros h; [done|]. cbn [foldl].
  destruct (IH (PushSocket.Close h i)) as [-> ?]. destruct (Close_kept h i) as [-> ?]. split; [done|set_solver].
Qed.

Lemma kept_limits s s' : GatewayProofs.only_limits s s' → hub_kept s s'.
Proof. intros (l & log & n & ->). done. Qed.

Lemma kept_enforce s r policy key i u : hub_kept s (enforceRateLimit W s r policy key i u).1.
Proof. apply kept_limits, GatewayProofs.enforceRateLimit_limits. Qed.
Lemma kept_enforceInstallation s r i secret : hub_kept s (enforceInstallationRateLimit W s r i secret).1.
Proof. apply kept_limits, GatewayProofs.enforceInstallation_limits. Qed.
Lemma kept_admit s r : hub_kept s (admission W s r).1.
Proof. apply kept_limits, GatewayProofs.admit_limits. Qed.
Lemma kept_take s policy key : hub_kept s (take W s policy key).1.
Proof. apply kept_limits, GatewayProofs.take_limits. Qed.
Lemma kept_oauth {B} s (call : M OAuth.state B) : hub_kept s (oauthCall s call).1.
Proof. unfold oauthCall. by destruct (call _). Qed.
Lemma kept_flush s i : hub_kept s (flushPending W s i).
Proof. apply flushPending_hub. Qed.
#[local] Hint Resolve kept_request kept_close kept_closes kept_enforce kept_enforceInstallation kept_take
  @kept_oauth kept_flush : hubs.

(** *** Registrations *)

Lemma kept_verifyModeration s credential registration : hub_kept s (verifyModeration W s credential registration).1.
Proof. unfold verifyModeration. cbv zeta. hubs. Qed.
#[local] Hint Resolve kept_verifyModeration : hubs.
Lemma kept_bind s registration : hub_kept s (bindRegistration W s registration).1.
Proof. unfold bindRegistration, Now. cbv zeta. hubs. Qed.
Lemma kept_save s registration : hub_kept s (saveRegistration W s registration).1.
Proof. unfold saveRegistration, Now. cbv zeta. hubs. Qed.
#[local] Hint Resolve kept_bind kept_save : hubs.
Lemma kept_upsert s r : hub_kept s (upsertRegistration W s r).1.
Proof. unfold upsertRegistration. cbv zeta. hubs. Qed.
Lemma kept_delete s r : hub_kept s (deleteRegistration W s r).1.
Proof. unfold deleteRegistration. cbv zeta. hubs. Qed.

(** *** Notifications *)

Lemma kept_deliver s registration notification : hub_kept s (deliverToRegistration W s registration notification).1.
Proof. unfold deliverToRegistration, Now. cbv zeta. hubs. Qed.
#[local] Hint Resolve kept_deliver : hubs.
Lemma kept_selfTest s r : hub_kept s (selfTest W s r).1.
Proof. unfold selfTest, Now. cbv zeta. hubs. Qed.
Lemma kept_adminPush s r : hub_kept s (adminPush W s r).1.
Proof. unfold adminPush. cbv zeta. hubs. Qed.
Lemma kept_schedule s record : hub_kept s (scheduleEventSub s record).1.
Proof. unfold scheduleEventSub, reserveEventSub, releaseEventSub. cbv zeta. hubs. Qed.
#[local] Hint Resolve kept_schedule : hubs.
Lemma kept_retry s r : hub_kept s (adminRetryEventSubInbox W s r).1.
Proof. unfold adminRetryEventSubInbox, Now. cbv zeta. hubs. Qed.
Lemma kept_accept s messageID envelope : hub_kept s (acceptNotification W s messageID envelope).1.
Proof. unfold acceptNotification, auditEnqueue, Now. cbv zeta. hubs. Qed.
Lemma kept_reject s r messageID err : hub_kept s (rejectEventSub W s r messageID err).1.
Proof.
  unfold rejectEventSub, enforceInvalidEventSubRateLimit, auditInvalidEventSubVerification. cbv zeta. hubs.
Qed.
#[local] Hint Resolve kept_accept kept_reject : hubs.
Lemma kept_webhook s r : hub_kept s (eventSubWebhook W s r).1.
Proof. unfold eventSubWebhook, Now. cbv zeta. hubs. Qed.

Lemma kept_deliverLoop s messageID type_ event registrations :
  hub_kept s (deliverLoop W s messageID type_ event registrations).1.
Proof.
  unfold deliverLoop. generalize (0, @nil error). induction registrations as [|registration registrations IH] in s |- *;
    intros acc; [done|]. cbn [foldl]. match goal with |- context [foldl _ ?x _] => assert (hub_kept s x.1) as Hk end.
  { destruct acc as [matched errs]. hubs. }
  destruct (match acc with pair _ _ => _ end) as [s1 acc1]. cbn [fst] in Hk. etrans; [exact Hk|apply IH].
Qed.
#[local] Hint Resolve kept_deliverLoop : hubs.
Lemma kept_notify s messageID type_ event saveState :
  hub_kept s (notifyRegistrations W s messageID type_ event saveState).1.
Proof. unfold notifyRegistrations, auditProcess, Now. cbv zeta. hubs. Qed.
#[local] Hint Resolve kept_notify : hubs.
Lemma kept_process s messageID envelope : hub_kept s (processEventSubNotification W s messageID envelope).1.
Proof. unfold processEventSubNotification, auditProcess, Now. cbv zeta. hubs. Qed.
#[local] Hint Resolve kept_process : hubs.
Lemma kept_handle s queued : hub_kept s (handleQueuedEventSub W s queued).
Proof. unfold handleQueuedEventSub, settleEventSub, releaseEventSub, auditProcess, Now. cbv zeta. hubs. Qed.
Lemma kept_eventSubTurn s : hub_kept s (eventSubTurn W s).
Proof. unfold eventSubTurn. destruct (eventQueue s); [done|]. etrans; [|apply kept_handle]. done. Qed.
Lemma kept_drain s : hub_kept s (drain W s).
Proof.
  unfold drain, Now. generalize (DeliveryStore.PendingEventSub (deliveries (tick s)) 512 (clock W (ticks s))). intros l.
  assert (hub_kept s (tick s)) as H0 by done. revert H0. generalize (tick s).
  induction l as [|record l IH]; intros s1 H0; [done|]. cbn [foldl]. apply IH. hubs.
Qed.

(** *** The login *)

Lemma kept_start s r : hub_kept s (startMobileAuth W s r).1.
Proof. unfold startMobileAuth, newToken, Now. cbv zeta. hubs. Qed.
Lemma kept_browser s r : hub_kept s (beginBrowserAuth W s r).1.
Proof. unfold beginBrowserAuth, Now. cbv zeta. hubs. Qed.
Lemma kept_exchange s r : hub_kept s (exchangeLogin W s r).1.
Proof. unfold exchangeLogin, Now. cbv zeta. hubs. Qed.
Lemma kept_saveLogin s state pending credential : hub_kept s (saveLogin W s state pending credential).1.
Proof. unfold saveLogin, newToken, Now. cbv zeta. hubs. Qed.
#[local] Hint Resolve kept_exchange kept_saveLogin : hubs.
Lemma kept_callback s r : hub_kept s (twitchOAuthCallback W s r).1.
Proof. unfold twitchOAuthCallback. cbv zeta. hubs. Qed.
Lemma kept_openSession s handoff i secret : hub_kept s (openSession W s handoff i secret).1.
Proof. unfold openSession, discardCredential, mobileLease, Now. cbv zeta. hubs. Qed.
#[local] Hint Resolve kept_openSession : hubs.
Lemma kept_complete s r : hub_kept s (completeMobileAuth W s r).1.
Proof. unfold completeMobileAuth, Now. cbv zeta. hubs. Qed.
Lemma kept_authorize s r : hub_kept s (authorizeMobileSession W s r).1.
Proof. unfold authorizeMobileSession, Now. cbv zeta. hubs. Qed.
#[local] Hint Resolve kept_authorize : hubs.
Lemma kept_lease s r : hub_kept s (leaseMobileToken W s r).1.
Proof. unfold leaseMobileToken, mobileLease, Now. cbv zeta. hubs. Qed.
Lemma kept_deleteSession s r : hub_kept s (deleteMobileSession W s r).1.
Proof. unfold deleteMobileSession. cbv zeta. hubs. Qed.

(** *** Revocation *)

Lemma kept_forget s i secret : hub_kept s (forgetDevice W s i secret).1.
Proof. unfold forgetDevice. cbv zeta. hubs. Qed.
#[local] Hint Resolve kept_forget : hubs.
Lemma kept_remove s i secret : hub_kept s (removeDevice W s i secret).1.
Proof. unfold removeDevice. cbv zeta. hubs. Qed.
#[local] Hint Resolve kept_remove : hubs.
Lemma kept_revokeDevice s r : hub_kept s (revokeMobileDevice W s r).1.
Proof. unfold revokeMobileDevice, Now. cbv zeta. hubs. Qed.
Lemma kept_account s token i secret : hub_kept s (revocationAccount W s token i secret).1.
Proof. unfold revocationAccount, Now. cbv zeta. hubs. Qed.
Lemma kept_revokeTokens s credentials n : hub_kept s (revokeTokens W s credentials n).1.
Proof. induction credentials as [|c l IH] in s, n |- *; [done|]. cbn [revokeTokens]. hubs. Qed.
Lemma kept_deleteDeliveries s ids : hub_kept s (deleteDeliveries s ids).1.
Proof.
  induction ids as [|i ids IH] in s |- *; [done|]. cbn [deleteDeliveries].
  destruct (DeliveryStore.DeleteForInstallation _ _) as [d [? []]]; [done|]. etrans; [|apply IH]. done.
Qed.
#[local] Hint Resolve kept_account kept_revokeTokens kept_deleteDeliveries : hubs.
Lemma kept_removeAccount s i user set_ n m : hub_kept s (removeAccount W s i user set_ n m).1.
Proof. unfold removeAccount. cbv zeta. hubs. Qed.
#[local] Hint Resolve kept_removeAccount : hubs.
Lemma kept_revokeAll s r : hub_kept s (revokeAllMobileSessions W s r).1.
Proof. unfold revokeAllMobileSessions. cbv zeta. hubs. Qed.

(** *** Settings *)

Section Settings.
Context (authConfigured : bool) (decodePut : string → result settingsSyncPutRequest)
  (jsonValid : string → bool) (decodeHeader : string → option settingsBackupHeader).
Lemma kept_authorizeSettings s r : hub_kept s (authorizeSettingsSync W authConfigured s r).1.
Proof. unfold authorizeSettingsSync. cbv zeta. hubs. Qed.
#[local] Hint Resolve kept_authorizeSettings : hubs.
Lemma kept_getSettings s r : hub_kept s (getSettingsSync W authConfigured s r).1.
Proof. unfold getSettingsSync. cbv zeta. hubs. Qed.
Lemma kept_putSettings s r : hub_kept s (putSettingsSync W authConfigured decodePut jsonValid decodeHeader s r).1.
Proof. unfold putSettingsSync, auditSettings, Now. cbv zeta. hubs. Qed.
Lemma kept_history s r : hub_kept s (getSettingsSyncHistory W authConfigured s r).1.
Proof. unfold getSettingsSyncHistory. cbv zeta. hubs. Qed.
Lemma kept_restore s r : hub_kept s (restoreSettingsSyncRevision W authConfigured s r).1.
Proof. unfold restoreSettingsSyncRevision, auditSettings, Now. cbv zeta. hubs. Qed.
End Settings.
End Kept.

(** ** The application's steps *)

Section Application.
Context {RS : Type} `{!RegistrationRepository RS}.
Context {T : Type} {api : Subs.TwitchAPI T}.
Context {rt : GoRuntime} {sha : Sha256} {uni : Unicode} (W : World).
Context (ME : Metadata.Env) (turns : nat) (readiness : option (nat → option error)).
Context (authConfigured : bool) (decodePut : string → result settingsSyncPutRequest)
  (jsonValid : string → bool) (decodeHeader : string → option settingsBackupHeader).
Implicit Types (a : application RS T) (s : server RS).

Abbreviation serve := (Gateway.serve W ME turns readiness authConfigured decodePut jsonValid decodeHeader).
Abbreviation Handler := (Gateway.Handler W ME turns readiness authConfigured decodePut jsonValid decodeHeader).
Abbreviation serverOf a := (SubscriptionHandlers.srv (back a)).

(** What runs beside the connections: the routes, the rate limiter in front
    of them, and the workers. *)
Inductive other : application RS T → application RS T → Prop :=
| other_serve e c a r : e ≠ PushSocketEndpoint → other a (serve e c a r).1
| other_admit a r : other a (GatewayProofs.withServer a (admission W (serverOf a) r).1)
| other_event a : other a (GatewayProofs.withServer a (eventSubTurn W (serverOf a)))
| other_drain a : other a (GatewayProofs.withServer a (drain W (serverOf a)))
| other_delivery a s : deliveryTurn W (serverOf a) s → other a (GatewayProofs.withServer a s)
| other_reconcile a n registrations : other a (a <| back := (finishReconcile W n registrations (back a)).1 |>)
| other_clear a : other a (GatewayProofs.withServer a (clearRequest (serverOf a))).

(** The same, seen from the server. *)
Definition others s s' : Prop := ∃ a a', serverOf a = s ∧ serverOf a' = s' ∧ other a a'.

Inductive appStep : application RS T → application RS T → Prop :=
| app_call c a : connected a !! Number c = None → Number c ∉ PushSocket.shut (hub (serverOf a)) → appStep a (Handler c a).1
| app_other a a' : other a a' → appStep a a'
| app_connection a y : Sockets.step W (λ _ _, False) (socketsOf a) y → appStep a (withSockets a y).

Lemma kept_auditReconcile s out : hub_kept s (auditReconcile W s out).
Proof. destruct out as [[created deleted] [err|]]; apply kept_auditRecord. Qed.

Lemma serve_kept e c a r : e ≠ PushSocketEndpoint →
  hub_kept (serverOf a) (serverOf (serve e c a r).1) ∧
  preAuth (serve e c a r).1 = preAuth a ∧ connected (serve e c a r).1 = connected a.
Proof.
  intros He. destruct e; cbn [Gateway.serve]; try done; (split; [|done]); cbn.
  all: try (apply kept_start || apply kept_browser || apply kept_callback || apply kept_complete || apply kept_lease ||
    apply kept_deleteSession || apply kept_revokeDevice || apply kept_revokeAll || apply kept_getSettings ||
    apply kept_putSettings || apply kept_history || apply kept_restore || apply kept_upsert || apply kept_delete ||
    apply kept_selfTest || apply kept_webhook || apply kept_retry || apply kept_adminPush).
  - unfold ready. destruct readiness as [ping|]; [|done]. by destruct (ping _).
  - unfold adminReconcileEventSub. destruct (authorizeAdmin _ _); [done|].
    destruct (Subs.reconcile _ _ _ _ _) as [m [[created deleted] [err|]]]; apply kept_auditReconcile.
  - unfold adminListEventSubSubscriptions. destruct (authorizeAdmin _ _); [done|].
    destruct (Subs.list_ _ _ _ _) as [m [l|err]]; done.
  - unfold adminDeleteEventSubSubscriptions. destruct (authorizeAdmin _ _); [done|].
    destruct (Subs.deleteAllForCallback _ _ _ _) as [m [deleted [err|]]]; apply kept_auditRecord.
Qed.

Lemma other_kept a a' : other a a' →
  hub_kept (serverOf a) (serverOf a') ∧ preAuth a' = preAuth a ∧ connected a' = connected a.
Proof.
  destruct 1 as [e c a r He|a r|a|a|a s Hd|a n registrations|a]; [by apply serve_kept|..]; (split; [|done]); cbn.
  - apply kept_admit.
  - apply kept_eventSubTurn.
  - apply kept_drain.
  - by eapply deliveryTurn_hub.
  - unfold finishReconcile. destruct (Subs.reconcile _ _ _ _ _) as [m [[created deleted] err]]. apply kept_auditReconcile.
  - done.
Qed.

Lemma others_kept s s' : others s s' → hub_kept s s'.
Proof. intros (a & a' & <- & <- & Ho). by apply other_kept. Qed.

Lemma socketsOf_with a y : socketsOf (withSockets a y) = y.
Proof. by destruct y. Qed.

Lemma other_step a a' : other a a' → Sockets.step W others (socketsOf a) (socketsOf a').
Proof.
  intros Ho. destruct (other_kept _ _ Ho) as (_ & Hp & Hc).
  assert (socketsOf a' = (socketsOf a) <| Sockets.srv := serverOf a' |>) as -> by (unfold socketsOf; by rewrite Hp, Hc).
  apply step_rest. exists a, a'. by split_and!.
Qed.

(** The steps of the connections do not depend on the rest. *)
Lemma own_step y y' : Sockets.step W (λ _ _, False) y y' → Sockets.step W others y y'.
Proof. destruct 1; econstructor; done. Qed.

(** Whatever the route, a request is a few steps of the connections' system. *)
Lemma handler_steps c a :
  connected a !! Number c = None → Number c ∉ PushSocket.shut (hub (serverOf a)) →
  rtc (Sockets.step W others) (socketsOf a) (socketsOf (Handler c a).1).
Proof.
  intros Hn Hs. unfold Gateway.Handler, rateLimitRequests. pose proof (other_admit a (Request c)) as Ha.
  destruct (admission W (serverOf a) (Request c)) as [s refused] eqn:Hadmit. cbn [fst] in Ha.
  apply (rtc_l _ _ (socketsOf (GatewayProofs.withServer a s))); [by apply other_step|].
  destruct refused as [response|]; [apply rtc_refl|]. unfold ServeHTTP.
  destruct (route c) as [[names e] matches| | |]; [|apply rtc_refl..].
  destruct (decide (e = PushSocketEndpoint)) as [->|He].
  - cbn [Gateway.serve]. destruct (accept _ _ _ _) as [y refused] eqn:Hacc. cbn [fst]. rewrite socketsOf_with.
    pose proof (step_accept W others (socketsOf (GatewayProofs.withServer a s)) (Number c)
      (withPathValues names matches (Request c)) (Wire c)) as Hstep.
    unfold GatewayProofs.withServer in Hstep. rewrite Hacc in Hstep. apply rtc_once, Hstep; [done|].
    cbn. assert (hub s = hub (serverOf a)) as ->; [|done].
    destruct (GatewayProofs.admit_limits W (serverOf a) (Request c)) as [(l & log & n & Heq) _].
    rewrite Hadmit in Heq. cbn in Heq. by rewrite Heq.
  - apply rtc_once. apply other_step. by apply other_serve.
Qed.

Lemma appStep_steps a a' : appStep a a' → rtc (Sockets.step W others) (socketsOf a) (socketsOf a').
Proof.
  destruct 1 as [c a Hn Hs|a a' Ho|a y Hy]; [by apply handler_steps|by apply rtc_once, other_step|].
  rewrite socketsOf_with. by apply rtc_once, own_step.
Qed.

Context (start : server RS) (start_hub : hub start = PushSocket.NewPushHub).
Context (manager : Subs.manager T) (client : Metadata.twitchMetadataClient).

Definition appStart : application RS T := mkApplication (mkBackend start manager) client 0 ∅.

Lemma app_reachable a : rtc appStep appStart a → Sockets.reachable W others start (socketsOf a).
Proof.
  intros Hr. assert (Sockets.reachable W others start (socketsOf appStart)) as H0 by apply reach_start.
  revert H0. induction Hr as [a|a a1 a2 Hs _ IH]; [done|]. intros H0. apply IH.
  pose proof (appStep_steps _ _ Hs) as Hsteps. revert H0. generalize (socketsOf a) (socketsOf a1) Hsteps.
  intros y y' Hy. induction Hy as [y|y y1 y2 Hone _ IHy]; [done|]. intros H0. apply IHy. by eapply reach_step.
Qed.

(** C29: the slots for connections that have not authenticated are never lost
    and never granted twice.  However requests on all routes, the workers and
    the connections have interleaved, the number of slots taken is the number
    of connections that have not authenticated, at most 256, and a request for
    a push connection that reaches its handler is refused exactly when there
    are 256 of them. *)
Theorem pre_auth_slots_exact a c r :
  rtc appStep appStart a →
  preAuth a = waiting (connected a) ∧ 0 ≤ preAuth a ≤ PushSocket.maxPreAuthSockets ∧
  ((serve PushSocketEndpoint c a r).2 ≠ None ↔ waiting (connected a) = PushSocket.maxPreAuthSockets).
Proof.
  intros Hr%app_reachable.
  destruct (slots_exact W others others_kept start start_hub (socketsOf a) (Number c) r (Wire c) Hr) as (H1 & H2 & H3).
  split_and!; [done|apply H2..|]. rewrite <-H3. cbn [Gateway.serve]. destruct (accept _ _ _ _) as [y [refused|]]; cbn.
  - by split; [eauto|].
  - by split; [intros []|intros [? ?]].
Qed.

(** C7: the hub routes to authenticated connections, and to all of them.  In
    every state of the running application an installation is routed to a
    connection whose handler serves a registration of that installation with
    the socket transport, and the registration store gave that registration
    for an installation and secret that were presented earlier; and every
    authenticated connection that is not closed is the one its installation
    is routed to. *)
Theorem push_connections_routed a :
  rtc appStep appStart a →
  (∀ installation id, PushSocket.connections (hub (serverOf a)) !! installation = Some id →
     ∃ k registration, connected a !! id = Some k ∧ registrationOf k = Some registration ∧
       R.InstallationID registration = installation ∧ R.Provider registration = "embedded_socket" ∧
       vouched W others start (socketsOf a) registration) ∧
  (∀ id k registration, connected a !! id = Some k → registrationOf k = Some registration →
     id ∉ PushSocket.shut (hub (serverOf a)) →
     PushSocket.connections (hub (serverOf a)) !! R.InstallationID registration = Some id).
Proof. intros Hr%app_reachable. exact (connections_routed W others others_kept start start_hub (socketsOf a) Hr). Qed.
End Application.

(** ** A connection through the routes *)

Module ApplicationExample.
Import ServerProofs.Example.
#[export] Existing Instance SubscriptionProofs.ToyTwitch.api.

Definition world : World := SocketExample.world.
Definition metadataEnv : Metadata.Env :=
  Metadata.mkEnv ServerProofs.Example.config (λ _, 1000) (λ _ _, Err (ErrMsg "")) (λ _, Err (ErrMsg "")) (λ _, Err (ErrMsg "")).
Definition noPut : string → result settingsSyncPutRequest := λ _, Err (ErrMsg "").

Abbreviation app := (application RegistrationStore.t SubscriptionProofs.ToyTwitch.state).
Abbreviation step := (appStep world metadataEnv 9 None true noPut (λ _, false) (λ _, None)).
Abbreviation handle := (Gateway.Handler world metadataEnv 9 None true noPut (λ _, false) (λ _, None)).

Definition call0 : call := mkCall SocketExample.upgradeRequest "/v1/push/socket" SocketExample.peer 0.
Definition a0 : app :=
  appStart SocketExample.start SubscriptionProofs.ToyTwitch.start Metadata.newTwitchMetadataClient.
Definition at_ (a : app) : socket := default (mkSocket noConn Done NotStarted []) (connected a !! 0%nat).
Definition requestOf (k : socket) : httpRequest * wire :=
  match handler k with Upgrading r w => (r, w) | _ => (SocketExample.upgradeRequest, SocketExample.peer) end.

Definition a1 : app := (handle call0 a0).1.
Definition a2 : app :=
  withSockets a1 (upgrade world (socketsOf a1) 0 (at_ a1) (requestOf (at_ a1)).1 (requestOf (at_ a1)).2).1.
Definition a3 : app := withSockets a2 (authenticate world (socketsOf a2) 0 (at_ a2) (λ _, None) None).

Lemma a1_reachable : rtc step a0 a1.
Proof.
  apply rtc_once. unfold a1. apply app_call; [reflexivity|].
  change (Number call0 ∉ PushSocket.shut (hub SocketExample.start)). rewrite SocketExample.start_empty.
  by apply not_elem_of_empty.
Qed.
Lemma a2_reachable : rtc step a0 a2.
Proof.
  apply (rtc_r _ a1 _ a1_reachable). apply app_connection.
  apply (step_upgrade world (λ _ _, False) (socketsOf a1) 0 (at_ a1) (requestOf (at_ a1)).1 (requestOf (at_ a1)).2);
    vm_compute; reflexivity.
Qed.
Lemma a3_reachable : rtc step a0 a3.
Proof.
  apply (rtc_r _ a2 _ a2_reachable). apply app_connection.
  apply (step_authenticate world (λ _ _, False) (socketsOf a2) 0 (at_ a2)); vm_compute; reflexivity.
Qed.
End ApplicationExample.
Import ServerProofs.Example ApplicationExample.

Lemma pre_auth_slots_exact_witness : preAuth a2 = 1 ∧ waiting (connected a2) = 1.
Proof.
  pose proof (pre_auth_slots_exact world metadataEnv 9 None true noPut (λ _, false) (λ _, None)
    SocketExample.start SocketExample.start_empty SubscriptionProofs.ToyTwitch.start Metadata.newTwitchMetadataClient
    a2 call0 SocketExample.upgradeRequest a2_reachable) as (H & _).
  rewrite <-H. split; vm_compute; reflexivity.
Defined.

Lemma push_connections_routed_witness :
  ∃ registration, registrationOf (at_ a3) = Some registration ∧ R.InstallationID registration = "device" ∧
    R.Provider registration = "embedded_socket".
Proof.
  pose proof (push_connections_routed world metadataEnv 9 None true noPut (λ _, false) (λ _, None)
    SocketExample.start SocketExample.start_empty SubscriptionProofs.ToyTwitch.start Metadata.newTwitchMetadataClient
    a3 a3_reachable) as (H & _).
  assert (PushSocket.connections (hub (SubscriptionHandlers.srv (back a3))) !! "device" = Some 0%nat) as Hc
    by (vm_compute; reflexivity).
  destruct (H "device" 0%nat Hc) as (k & registration & Hk & Hr & Hi & Hp & _).
  assert (connected a3 !! 0%nat = Some (at_ a3)) as Hk3 by (vm_compute; reflexivity).
  assert (k = at_ a3) as -> by exact (inj Some _ _ (eq_trans (eq_sym Hk) Hk3)).
  exists registration. split; [exact Hr|split; [exact Hi|exact Hp]].
Defined.
End ApplicationProofs.
