(* ===== verification/LoginProofs.v ===== *)
(** * Mobile login: sessions belong to the devices that signed in

    The invariant of the login flow over the executions of the server: a
    session exists only for a device that started a login itself, and its
    account is the one Twitch reported when the browser came back with that
    device's state. *)

From S2P Require Import Prelude GoStrings NetIP Config Credentials Domain RegistrationStore SettingsSync AuditStore.
From S2P Require Import RateLimit DeliveryStore AuthStore AuthProofs Subscriptions PushSocket RegistrationInput OAuth.
From S2P Require Import OAuthProofs Repositories Server SyncHandlers AuthHandlers.
#[local] Open Scope Z_scope.
#[local] Open Scope go_scope.

Module LoginProofs.
Import Server AuthHandlers.
Module CR := AuthCredentialRecord.

(** ** What leaves the logins alone *)

(** Every credential is stored under its own identifier. *)
Definition keyed (a : AuthStore.t) : Prop :=
  map_Forall (λ id r, CR.ID r = id) (AuthStore.Credentials a).

(** From [a] to [a'] entries were removed, sessions renewed and credentials
    refreshed: no login, handoff, session or account appeared. *)
Definition keeps (a a' : AuthStore.t) : Prop :=
  keyed a →
  keyed a' ∧
  AuthStore.Pending a' ⊆ AuthStore.Pending a ∧ AuthStore.Handoffs a' ⊆ AuthStore.Handoffs a ∧
  (∀ k x', AuthStore.Sessions a' !! k = Some x' → ∃ x, AuthStore.Sessions a !! k = Some x ∧
     Ses.InstallationID x' = Ses.InstallationID x ∧ Ses.DeviceHash x' = Ses.DeviceHash x ∧
     Ses.CredentialID x' = Ses.CredentialID x) ∧
  (∀ id r', AuthStore.Credentials a' !! id = Some r' →
     ∃ r, AuthStore.Credentials a !! id = Some r ∧ CR.UserID r' = CR.UserID r).

#[global] Instance keeps_preorder : PreOrder keeps.
Proof.
  split.
  - intros a H. split_and!; try done; eauto.
  - intros a b c Hab Hbc Ha. destruct (Hab Ha) as (Hb & P1 & H1 & S1 & C1).
    destruct (Hbc Hb) as (Hc & P2 & H2 & S2 & C2). split_and!; [done|by etrans|by etrans|..].
    + intros k z (y & (x & Hx & ? & ? & ?)%S1 & ? & ? & ?)%S2. exists x. split_and!; [done|congruence..].
    + intros id z (y & (x & Hx & ?)%C1 & ?)%C2. exists x. split; [done|congruence].
Qed.

Lemma keeps_keyed a a' : (keyed a → keeps a a') → keeps a a'.
Proof. intros H Ha. exact (H Ha Ha). Qed.

(** Whatever only removes keeps. *)
Lemma keeps_sub a a' :
  AuthStore.Pending a' ⊆ AuthStore.Pending a → AuthStore.Handoffs a' ⊆ AuthStore.Handoffs a →
  AuthStore.Sessions a' ⊆ AuthStore.Sessions a → AuthStore.Credentials a' ⊆ AuthStore.Credentials a → keeps a a'.
Proof.
  intros Hp Hh Hs Hc Ha. split_and!; try done.
  - intros id r Hr. apply Ha. by eapply lookup_weaken.
  - intros k x Hx. exists x. split_and!; try done. by eapply lookup_weaken.
  - intros id r Hr. exists r. split; [by eapply lookup_weaken|done].
Qed.

Section Store.
Context {rt : GoRuntime} {sha : Sha256}.
Implicit Types (a : AuthStore.t).

Lemma keeps_consumePending now a state : keeps a (AuthStore.ConsumePending now a state).1.
Proof.
  unfold AuthStore.ConsumePending. case_match; [|done]. cbn. case_match; cbn; apply keeps_sub; cbn; try done;
    apply delete_subseteq.
Qed.

Lemma keeps_consumeHandoff now a code inst secret state :
  keeps a (AuthStore.ConsumeHandoff now a code inst secret state).1.
Proof.
  unfold AuthStore.ConsumeHandoff. case_match; [|done]. cbn.
  repeat (case_match; cbn; try done); apply keeps_sub; cbn; try done; apply delete_subseteq.
Qed.

Lemma keeps_deleteUnused a id : keeps a (AuthStore.DeleteCredentialIfUnused a id).1.
Proof.
  unfold AuthStore.DeleteCredentialIfUnused. case_match; [done|]. case_match; [|done].
  apply keeps_sub; cbn; try done; apply delete_subseteq.
Qed.

(** Removing a session and then its credential, if that was unused. *)
Lemma keeps_removeSession a key id :
  let a1 := a <| AuthStore.Sessions := delete key (AuthStore.Sessions a) |> in
  keeps a (if negb (AuthStore.credentialInUseLocked a1 id)
           then a1 <| AuthStore.Credentials := delete id (AuthStore.Credentials a1) |> else a1).
Proof. intros a1. case_match; apply keeps_sub; cbn; try done; apply delete_subseteq. Qed.

Lemma keeps_resolveSession now a token inst secret ttl :
  keeps a (AuthStore.ResolveSession now a token inst secret ttl).1.
Proof.
  unfold AuthStore.ResolveSession. destruct (AuthStore.Sessions a !! _) as [x|] eqn:Hx; [|done].
  destruct (After _ _); [apply keeps_removeSession|]. destruct (_ || _); [done|]. destruct (_ && _); [|done].
  intros Ha. cbn. split_and!; try done; [|eauto].
  intros k y. rewrite lookup_insert_Some. intros [[<- <-]|[_ Hy]]; [by exists x|by exists y].
Qed.

Lemma keeps_deleteSession a token inst secret : keeps a (AuthStore.DeleteSession a token inst secret).1.
Proof.
  unfold AuthStore.DeleteSession. case_match; [|done]. destruct (_ || _); [done|]. apply keeps_removeSession.
Qed.

Lemma keeps_revokeInstallation a inst secret : keeps a (AuthStore.RevokeInstallation a inst secret).1.
Proof.
  destruct (AuthStore.RevokeInstallation a inst secret) as [a' [n err]] eqn:Hr.
  apply AuthProofs.RevokeInstallation_cases in Hr as [(_ & _ & -> & _)|(_ & _ & _ & ? & ? & ? & Hc)].
  - apply keeps_sub; apply range_delete_subseteq.
  - apply keeps_sub; cbn; try done. by rewrite Hc.
Qed.

Lemma keeps_revokeAccount a userID extra : keeps a (AuthStore.RevokeAccount a userID extra).1.
Proof.
  destruct (decide (TrimSpace userID = "")) as [He|He].
  { unfold AuthStore.RevokeAccount. by rewrite He. }
  destruct (AuthProofs.RevokeAccount_spec a userID extra He) as (s' & n & c & -> & _ & Hs & Hc & [Hh _] & [Hp _]).
  apply keeps_sub; cbn; try done; apply map_subseteq_spec.
  - intros k x [? _]%Hs. done.
  - intros id r [? _]%Hc. done.
Qed.

(** Replacing the credential of an account by one of the same account. *)
Lemma keeps_putCredential aead rnd a c r :
  AuthStore.Credentials a !! C.ID c = Some r → CR.UserID r = C.UserID c →
  keeps a (AuthStore.PutCredential aead rnd a c).1.
Proof.
  intros Hr Hu. unfold AuthStore.PutCredential, AuthStore.setCredentialLocked.
  destruct (AuthStore.seal _ _ _ _); [|done]. destruct (AuthStore.seal _ _ _ _); [|done].
  intros Ha. cbn. split_and!; try done; [|eauto|].
  - apply map_Forall_insert_2; done.
  - intros id r'. rewrite lookup_insert_Some. intros [[<- <-]|[_ Hr']]; [by exists r|by exists r'].
Qed.
End Store.

(** ** The OAuth client *)

Section Client.
Context {rt : GoRuntime} {sha : Sha256} {uni : Unicode} (E : OAuth.Env).
Implicit Types (s : OAuth.state).

Definition client_keeps {A} s (x : M OAuth.state A) : Prop := keeps (OAuth.store s) (OAuth.store (x s).1).

Lemma quiet_keeps {A} s (x : M OAuth.state A) : OAuthProofs.quiet x → client_keeps s x.
Proof. intros Hq. unfold client_keeps. by rewrite (proj1 (Hq s)). Qed.

(** The credential is the stored one of its account. *)
Definition current s (c : C.t) : Prop :=
  ∃ r, AuthStore.Credentials (OAuth.store s) !! C.ID c = Some r ∧ CR.UserID r = C.UserID c.

Lemma put_keeps s c0 c :
  C.ID c = C.ID c0 → C.UserID c = C.UserID c0 → current s c0 → client_keeps s (OAuth.PutCredential E c).
Proof.
  intros Hid Hu (r & Hr & Hru). unfold client_keeps, OAuth.PutCredential.
  pose proof (keeps_putCredential (OAuth.aead E) (λ i, OAuth.random E (OAuth.readings s + i)) (OAuth.store s) c r)
    as Hk. destruct (AuthStore.PutCredential _ _ _ _) as [st err]. apply Hk; congruence.
Qed.

(** A computation after a quiet one. *)
Lemma quiet_then {A B} s (x : M OAuth.state A) (k : A → M OAuth.state B) :
  OAuthProofs.quiet x →
  (∀ s1 v, x s = (s1, Ok v) → OAuth.store s1 = OAuth.store s → client_keeps s1 (k v)) →
  client_keeps s (let! v := x in k v).
Proof.
  intros Hq Hk. unfold client_keeps, bind. destruct (Hq s) as [Hs _]. destruct (x s) as [s1 [v|e]] eqn:Hx; cbn in *.
  - rewrite <-Hs. by apply Hk.
  - by rewrite Hs.
Qed.

Lemma refresh_keeps now s c : current s c → client_keeps s (OAuth.refreshCredential E now c).
Proof.
  intros Hc. apply quiet_then; [apply OAuthProofs.quiet_requestToken|]. intros s1 token _ Hs1.
  apply quiet_then; [apply OAuthProofs.quiet_validate|]. intros s2 v _ Hs2.
  case_match; [apply quiet_keeps, OAuthProofs.quiet_fail|]. set (c' := _ <| C.UpdatedAt := now |>).
  assert (client_keeps s2 (OAuth.PutCredential E c')) as Hput.
  { apply (put_keeps _ c); [done..|]. unfold current. by rewrite Hs2, Hs1. }
  unfold client_keeps, bind in *. by destruct (OAuth.PutCredential E c' s2) as [s3 [u|e]].
Qed.

Lemma validate_keeps now s c :
  current s c → client_keeps s (OAuth.validateCredential E now c) ∧
  ∀ s', OAuth.validateCredential E now c s = (s', Ok None) → OAuth.store s' = OAuth.store s.
Proof.
  intros Hc. unfold client_keeps, OAuth.validateCredential.
  destruct (OAuthProofs.quiet_validate E (C.AccessToken c) s) as [Hs1 _].
  destruct (OAuth.validate E (C.AccessToken c) s) as [s1 [v|e]]; cbn in Hs1; cycle 1.
  { destruct e; cbn; rewrite ?Hs1; (split; [done|]); intros s' [= <-]; done. }
  case_match; [cbn; rewrite Hs1; by split|]. set (c' := _ <| C.UpdatedAt := now |>).
  assert (client_keeps s1 (OAuth.PutCredential E c')) as Hput.
  { apply (put_keeps _ c); [done..|]. unfold current. by rewrite Hs1. }
  unfold client_keeps, bind in *. rewrite Hs1 in Hput. by destruct (OAuth.PutCredential E c' s1) as [s3 [u|e]].
Qed.

Lemma open_current s id c :
  keyed (OAuth.store s) → AuthStore.GetCredential (OAuth.aead E) (OAuth.store s) id = Ok c → current s c.
Proof.
  intros Hk. unfold AuthStore.GetCredential. destruct (AuthStore.Credentials _ !! id) as [r|] eqn:Hr; [|done].
  pose proof (Hk _ _ Hr) as Hid. cbn in Hid. unfold AuthStore.openCredential.
  destruct (AuthStore.open _ _ _); [|done]. cbn. destruct (AuthStore.open _ _ _); [|done]. cbn.
  intros [= <-]. exists r. cbn. by rewrite Hid.
Qed.

Lemma lease_keeps s id force : client_keeps s (OAuth.lease E id force).
Proof.
  unfold client_keeps, OAuth.lease, bind, OAuth.GetCredential, OAuth.Now.
  destruct (AuthStore.GetCredential _ _ _) as [c|e] eqn:Hget; [|done]. set (now := OAuth.clock E _).
  set (s1 := s <| OAuth.readings := _ |>). change (OAuth.store s) with (OAuth.store s1) in *.
  apply keeps_keyed. intros Hk. pose proof (open_current s1 id c Hk Hget) as Hc. clearbody now s1.
  destruct (force || _); [by apply refresh_keeps|]. destruct (_ <=? _); [|done].
  destruct (validate_keeps now s1 c Hc) as [Hv Hnone]. unfold client_keeps in Hv.
  destruct (OAuth.validateCredential E now c s1) as [s2 [[c'|]|e]]; [done| |done].
  rewrite <-(Hnone s2 eq_refl). apply refresh_keeps. unfold current. by rewrite (Hnone s2 eq_refl).
Qed.

Lemma quiet_moderatedLoop turns c cursor result : OAuthProofs.quiet (OAuth.moderatedLoop E turns c cursor result).
Proof.
  revert cursor result. induction turns as [|turns IH]; intros cursor result; [done|]. cbn [OAuth.moderatedLoop].
  apply OAuthProofs.quiet_bind; [apply OAuthProofs.quiet_annotate, OAuthProofs.quiet_send|]. intros response.
  repeat case_match; done || apply IH.
Qed.

Lemma moderated_keeps s turns id : client_keeps s (OAuth.moderatedChannelIDs E turns id).
Proof.
  assert (∀ now s, client_keeps s (OAuth.fetchModerated E turns id now)) as Hfetch.
  { clear s. intros now s. unfold client_keeps, OAuth.fetchModerated, bind.
    pose proof (lease_keeps s id false) as Hl. unfold client_keeps in Hl.
    destruct (OAuth.lease E id false s) as [s1 [c|e]]; [|done]. cbn in Hl.
    destruct (quiet_moderatedLoop turns c "" [] s1) as [Hq _].
    destruct (OAuth.moderatedLoop E turns c "" [] s1) as [s2 [ids|e]]; cbn in *; by rewrite Hq. }
  unfold client_keeps, OAuth.moderatedChannelIDs, bind, OAuth.Now.
  set (s1 := s <| OAuth.readings := _ |>). change (OAuth.store s) with (OAuth.store s1).
  case_match; [case_match; [done|]|]; apply Hfetch.
Qed.

(** *** What Twitch said about a code *)

(** Twitch answered the request at that reading, with success and within the
    limit, and the answer decodes. *)
Definition answered {A} (n : nat) (request : OAuth.Http.request) (decode : string → result A) (a : A) : Prop :=
  ∃ reply, OAuth.Do E n request = Ok reply ∧ OAuth.Http.ReadError reply = None ∧
    200 ≤ OAuth.Http.StatusCode reply ≤ 299 ∧ decode (OAuth.Http.limited (2 ^ 20) (OAuth.Http.Payload reply)) = Ok a.

(** The exchange of an authorization code for tokens, and the question whom
    a token belongs to, as Twitch documents them. *)
Definition codeRequest (code : string) : OAuth.Http.request :=
  OAuth.Http.mkRequest "POST" (TrimSuffix (TwitchIDBaseURL (OAuth.config E)) "/" +:+ "/oauth2/token") [] "" ""
    (OAuth.Http.Form [("client_id", TwitchClientID (OAuth.config E)); ("client_secret", TwitchClientSecret (OAuth.config E));
      ("code", code); ("grant_type", "authorization_code"); ("redirect_uri", TwitchRedirectURL (OAuth.config E))]).
Definition validateRequest (accessToken : string) : OAuth.Http.request :=
  OAuth.Http.mkRequest "GET" (TrimSuffix (TwitchIDBaseURL (OAuth.config E)) "/" +:+ "/oauth2/validate") []
    ("Bearer " +:+ accessToken) "" OAuth.Http.NoBody.

(** The credential is the one Twitch gave for the code: at reading [n] Twitch
    exchanged the code for the credential's tokens, and at the next it said
    that the access token is this client's, has every scope that is required,
    and belongs to the credential's user. *)
Definition granted (code : string) (n : nat) (c : C.t) : Prop :=
  ∃ token v,
    answered n (codeRequest code) (OAuth.decodeToken E) token ∧
    answered (S n) (validateRequest (OAuth.AccessToken token)) (OAuth.decodeValidation E) v ∧
    C.AccessToken c = OAuth.AccessToken token ∧ C.RefreshToken c = OAuth.RefreshToken token ∧
    OAuth.ClientID v = TwitchClientID (OAuth.config E) ∧ C.ClientID c = TwitchClientID (OAuth.config E) ∧
    C.UserID c = OAuth.UserID v ∧ C.Login c = OAuth.Login v ∧
    (∀ scope, scope ∈ AuthScopes (OAuth.config E) → scope ∈ OAuth.ValidScopes v).

Lemma requestToken_answered code s s' token :
  OAuth.requestToken E [("client_id", TwitchClientID (OAuth.config E)); ("client_secret", TwitchClientSecret (OAuth.config E));
    ("code", code); ("grant_type", "authorization_code"); ("redirect_uri", TwitchRedirectURL (OAuth.config E))] s = (s', Ok token) →
  answered (OAuth.readings s) (codeRequest code) (OAuth.decodeToken E) token ∧ OAuth.readings s' = S (OAuth.readings s).
Proof.
  unfold OAuth.requestToken, bind, annotate, OAuth.send. change (OAuth.idRequest E "POST" "/oauth2/token" "" _) with (codeRequest code).
  destruct (OAuth.Do E (OAuth.readings s) (codeRequest code)) as [r|] eqn:Hdo; [|done]. unfold OAuth.readAnswer.
  destruct (Subscriptions.ReadError r) eqn:Hread; [done|]. cbn [ret].
  destruct (_ || _) eqn:Hst; [unfold fail; by destruct ((OAuth.Http.StatusCode r =? 400) || (OAuth.Http.StatusCode r =? 401))|]. destruct (OAuth.decodeToken E _) as [t|] eqn:Hdec; [|done].
  case_match; [done|]. unfold ret. intros [= <- <-]. split; [|done]. exists r. split_and!; [done|done|lia..|done].
Qed.

Lemma validate_answered tok s s' v :
  OAuth.validate E tok s = (s', Ok v) → answered (OAuth.readings s) (validateRequest tok) (OAuth.decodeValidation E) v.
Proof.
  unfold OAuth.validate, bind, annotate, OAuth.send. change (OAuth.idRequest E "GET" "/oauth2/validate" _ _) with (validateRequest tok).
  destruct (OAuth.Do E (OAuth.readings s) (validateRequest tok)) as [r|] eqn:Hdo; [|done]. unfold OAuth.readAnswer.
  destruct (Subscriptions.ReadError r) eqn:Hread; [done|]. cbn [ret]. destruct (_ =? 401); [done|].
  destruct (_ || _) eqn:Hst; [done|]. destruct (OAuth.decodeValidation E _) as [t|] eqn:Hdec; [|done].
  case_match; [done|]. unfold ret. intros [= <- <-]. exists r. split_and!; [done|done|lia..|done].
Qed.

Lemma ensureScopes_none actual required :
  OAuth.ensureScopes actual required = None → ∀ scope, scope ∈ required → scope ∈ actual.
Proof.
  unfold OAuth.ensureScopes. destruct (List.filter _ _) as [|x l] eqn:Hf; [|done]. intros _ scope Hin.
  destruct (decide (scope ∈ actual)) as [|Hn]; [done|].
  assert (scope ∈ List.filter (λ scope, negb (bool_decide (scope ∈ actual))) required) as H.
  { apply elem_of_filter_bool. split; [done|]. by rewrite bool_decide_false. }
  rewrite Hf in H. by apply elem_of_nil in H.
Qed.

Lemma exchange_granted code s s' c : OAuth.exchangeCode E code s = (s', Ok c) → granted code (OAuth.readings s) c.
Proof.
  unfold OAuth.exchangeCode. unfold bind at 1. destruct (OAuth.requestToken E _ s) as [s1 [token|e]] eqn:Ht; [|done].
  apply requestToken_answered in Ht as [Ht Hr1].
  unfold bind at 1. destruct (OAuth.validate E _ s1) as [s2 [v|e]] eqn:Hv; [|done]. apply validate_answered in Hv. rewrite Hr1 in Hv.
  case_bool_decide as Hclient; cbn [negb]; [|done]. destruct (OAuth.ensureScopes _ _) eqn:Hscopes; [done|].
  unfold bind, OAuth.newRandomToken, OAuth.Now, ret. destruct (Memory.randomToken _ _ _); [|done].
  intros [= <- <-]. exists token, v. cbn. split_and!; try done. by apply ensureScopes_none.
Qed.
End Client.

(** ** The server *)

(** What a login leaves behind in the history: a device has started a login
    under a state, or the browser has come back from Twitch with the state and
    a code, which was exchanged at a reading for a credential.  States are
    known by their hashes. *)
Inductive event :=
| Started (stateHash installationID deviceHash : string)
| Authorized (stateHash code : string) (reading : nat) (credential : C.t).

Section Server.
Context {RS : Type} `{!RegistrationRepository RS}.
Context {rt : GoRuntime} {sha : Sha256} {uni : Unicode}.
Implicit Types (s : server RS) (W : World) (log : list event).

Lemma auditRecord_auth W s record : authStore (auditRecord W s record) = authStore s.
Proof. unfold auditRecord. by destruct (AuditStore.Append _ _ _ _). Qed.
Lemma reconcile_auth W s : authStore (requestEventSubReconcile W s) = authStore s.
Proof. unfold requestEventSubReconcile. by destruct (negb _). Qed.
Lemma take_auth W s policy key : authStore (take W s policy key).1 = authStore s.
Proof. unfold take. by destruct (RateLimit.take _ _ _ _). Qed.

Lemma rateLimit_auth W s r id secret :
  authStore (enforceInstallationRateLimit W s r id secret).1 = authStore s.
Proof.
  unfold enforceInstallationRateLimit. destruct (RateLimitDisabled _); [done|].
  destruct (RegistrationInput.validateMobileDevice _ _); [done|].
  unfold enforceRateLimit. set (key := _ +:+ _). pose proof (take_auth W s (RateLimit.installationPolicy (cfg W)) key) as Ht.
  destruct (take W s _ _) as [s1 d1]. destruct (RateLimit.Allowed d1); [done|].
  cbn [fst] in *. unfold auditRateLimitBlock. case_match; [done|].
  pose proof (take_auth W s1 RateLimit.auditPolicy "global") as Ht2. destruct (take W s1 _ _) as [s2 d2].
  cbn [fst] in *. case_match; rewrite ?auditRecord_auth; congruence.
Qed.

Lemma oauthCall_keeps {A} s (call : M OAuth.state A) :
  (∀ o, client_keeps o call) → keeps (authStore s) (authStore (oauthCall s call).1).
Proof.
  intros Hk. unfold oauthCall. pose proof (Hk (OAuth.mkState (authStore s) (moderatedCache s) (ticks s))) as H.
  unfold client_keeps in H. by destruct (call _) as [o answer].
Qed.

(** *** Handlers that sign nobody in *)

Lemma session_keeps W s r : keeps (authStore s) (authStore (SyncHandlers.authorizeMobileSession W s r).1).
Proof.
  unfold SyncHandlers.authorizeMobileSession, Now. case_match; [done|].
  set (token := bearerToken r). set (inst := TrimSpace _). set (secret := TrimSpace (Header r "X-Device-Secret")).
  pose proof (keeps_resolveSession (clock W (ticks s)) (authStore s) token inst secret (AuthSessionTTL (cfg W))) as Hk.
  change (authStore (tick s)) with (authStore s).
  by destruct (AuthStore.ResolveSession _ _ _ _ _ _) as [a [x|e]].
Qed.

Lemma leaseMobileToken_keeps W s r : keeps (authStore s) (authStore (leaseMobileToken W s r).1).
Proof.
  unfold leaseMobileToken. destruct (requireAuthBroker W); [done|].
  pose proof (session_keeps W s r) as H1. destruct (SyncHandlers.authorizeMobileSession W s r) as [s1 [resp|x]]; [done|].
  cbn [fst] in H1. etrans; [exact H1|]. set (call := OAuth.lease _ _ _).
  pose proof (oauthCall_keeps s1 call (λ o, lease_keeps _ o _ _)) as H2.
  by destruct (oauthCall s1 call) as [s2 [c|e]].
Qed.

Lemma deleteMobileSession_keeps W s r : keeps (authStore s) (authStore (deleteMobileSession W s r).1).
Proof.
  unfold deleteMobileSession. destruct (requireAuthBroker W); [done|]. case_match; [done|].
  set (token := bearerToken r). set (inst := TrimSpace _). set (secret := TrimSpace (Header r "X-Device-Secret")).
  pose proof (keeps_deleteSession (authStore s) token inst secret) as H1.
  destruct (AuthStore.DeleteSession _ _ _ _) as [a [e|]]; [by destruct e|done].
Qed.

Lemma forgetDevice_keeps W s inst secret : keeps (authStore s) (authStore (forgetDevice W s inst secret).1).
Proof.
  unfold forgetDevice. destruct (DeliveryStore.DeleteForInstallation (deliveries s) inst) as [d [n [e|]]]; [done|].
  pose proof (keeps_revokeInstallation (authStore s) inst secret) as H1.
  change (authStore (s <| deliveries := d |>)) with (authStore s).
  destruct (AuthStore.RevokeInstallation _ _ _) as [a [m [e|]]]; cbn [fst] in *; [by destruct e|].
  by rewrite reconcile_auth, auditRecord_auth.
Qed.

Lemma removeDevice_keeps W s inst secret : keeps (authStore s) (authStore (removeDevice W s inst secret).1).
Proof.
  unfold removeDevice. destruct (Delete (store s) inst secret) as [st err].
  set (s1 := s <| store := st |>). change (authStore s) with (authStore s1).
  destruct err as [u|e]; [apply forgetDevice_keeps|]. destruct e; try done; apply forgetDevice_keeps.
Qed.

Lemma revokeMobileDevice_keeps W s r : keeps (authStore s) (authStore (revokeMobileDevice W s r).1).
Proof.
  unfold revokeMobileDevice, Now. destruct (requireAuthBroker W); [done|]. case_match; [done|].
  set (token := bearerToken r). set (inst := TrimSpace _). set (secret := TrimSpace (Header r "X-Device-Secret")).
  change (authStore (tick s)) with (authStore s).
  pose proof (keeps_resolveSession (clock W (ticks s)) (authStore s) token inst secret (AuthSessionTTL (cfg W))) as H1.
  destruct (AuthStore.ResolveSession _ _ _ _ _ _) as [a x]. cbn [fst] in H1. etrans; [exact H1|]. cbv zeta.
  match goal with |- context [removeDevice W ?s2 inst secret] => remember s2 as s1 eqn:Hs1 end.
  assert (a = authStore s1) as -> by (by rewrite Hs1). clear Hs1 H1.
  assert (keeps (authStore s1) (authStore (match staleRegistration s1 inst secret with
    | inl response => (s1, response) | inr _ => removeDevice W s1 inst secret end).1)) as Hstale
    by (case_match; [done|apply removeDevice_keeps]).
  destruct x as [x|e]; [apply removeDevice_keeps|].
  destruct e; try done. by destruct (refuseBound s1 inst secret).
Qed.

Lemma revokeTokens_auth W s credentials n : authStore (revokeTokens W s credentials n).1 = authStore s.
Proof.
  revert s n. induction credentials as [|c l IH]; intros s n; [done|]. cbn [revokeTokens]. unfold oauthCall.
  set (o := OAuth.mkState _ _ _). destruct (OAuthProofs.quiet_revoke (oauthEnv W) c o) as [Hq _].
  destruct (OAuth.revokeAccessToken _ _ o) as [o' answer]. rewrite IH. exact Hq.
Qed.

Lemma deleteDeliveries_auth s ids : authStore (deleteDeliveries s ids).1 = authStore s.
Proof.
  revert s. induction ids as [|i ids IH]; intros s; [done|]. cbn [deleteDeliveries].
  destruct (DeliveryStore.DeleteForInstallation _ _) as [d [n [e|]]]; [done|]. by rewrite IH.
Qed.

Lemma revokeAll_keeps W s r : keeps (authStore s) (authStore (revokeAllMobileSessions W s r).1).
Proof.
  unfold revokeAllMobileSessions. destruct (requireAuthBroker W); [done|]. case_match; [done|].
  set (token := bearerToken r). set (inst := TrimSpace _). set (secret := TrimSpace (Header r "X-Device-Secret")).
  assert (authStore (revocationAccount W s token inst secret).1 = authStore s) as H1.
  { unfold revocationAccount, Now. repeat case_match; done. }
  destruct (revocationAccount W s token inst secret) as [s1 [resp|u]]; cbn [fst] in *; [by rewrite H1|].
  rewrite <-H1. case_match; [done|]. destruct (accountTargets W s1 u) as [[ids credentials]|]; [|done].
  pose proof (revokeTokens_auth W s1 credentials 0) as H2. destruct (revokeTokens W s1 credentials 0) as [s2 n].
  cbn [fst] in H2. rewrite <-H2. destruct (DeleteForAccount _ _ _) as [st [removed|e]]; [|done].
  unfold removeAccount. set (s3 := s2 <| store := st |>). change (authStore s2) with (authStore s3).
  set (set := addAll _ removed). pose proof (deleteDeliveries_auth s3 (rangeMap set).*1) as H3.
  destruct (deleteDeliveries s3 _) as [s4 [e|]]; cbn [fst] in *; rewrite <-H3; [done|].
  pose proof (keeps_revokeAccount (authStore s4) u (sortedKeys set)) as H4.
  destruct (AuthStore.RevokeAccount _ _ _) as [a [[m1 m2]|e]]; [|done].
  cbn [fst] in *. by rewrite reconcile_auth, auditRecord_auth.
Qed.

Lemma verifyModeration_keeps W s c registration :
  keeps (authStore s) (authStore (verifyModeration W s c registration).1).
Proof.
  unfold verifyModeration. set (call := OAuth.moderatedChannelIDs _ _ _).
  pose proof (oauthCall_keeps s call (λ o, moderated_keeps _ o _ _)) as Hk.
  destruct (oauthCall s call) as [s1 [ids|e]]; cbn [fst] in *; [done|]. by rewrite auditRecord_auth.
Qed.

Lemma saveRegistration_auth W s registration : authStore (saveRegistration W s registration).1 = authStore s.
Proof.
  unfold saveRegistration, Now. destruct (Upsert _ _) as [st [u|e]]; [|by destruct e].
  cbn [fst]. by rewrite reconcile_auth, auditRecord_auth.
Qed.

Lemma upsertRegistration_keeps W s r : keeps (authStore s) (authStore (upsertRegistration W s r).1).
Proof.
  unfold upsertRegistration. destruct (decodeRegistration W (Body r)) as [registration|]; [|done].
  case_match; [done|]. case_match; [done|].
  set (id := R.InstallationID _). set (secret := R.DeviceSecret _). pose proof (rateLimit_auth W s r id secret) as H1.
  destruct (enforceInstallationRateLimit W s r id secret) as [s1 [resp|]]; cbn [fst] in *; rewrite <-H1; [done|].
  unfold bindRegistration, Now. destruct (OAuth.AuthEnabled (cfg W)); [|by rewrite saveRegistration_auth].
  destruct (AuthStore.CredentialForInstallation _ _ _ _ _) as [c|e]; [|cbn [fst]; by rewrite auditRecord_auth].
  match goal with |- context [verifyModeration W ?s2 c ?reg] => pose proof (verifyModeration_keeps W s2 c reg) as H2;
    destruct (verifyModeration W s2 c reg) as [s3 out] end.
  by rewrite saveRegistration_auth.
Qed.

(** *** The login itself *)

(** The history explains the store. *)
Record explained log (a : AuthStore.t) : Prop := {
  explained_keyed : keyed a;
  explained_pending : ∀ k p, AuthStore.Pending a !! k = Some p →
    Started k (P.InstallationID p) (P.DeviceHash p) ∈ log;
  explained_handoff : ∀ k h, AuthStore.Handoffs a !! k = Some h →
    Started (H.StateHash h) (H.InstallationID h) (H.DeviceHash h) ∈ log ∧
    ∃ code n c, Authorized (H.StateHash h) code n c ∈ log ∧ C.ID c = H.CredentialID h;
  explained_session : ∀ k x, AuthStore.Sessions a !! k = Some x →
    ∃ key code n c, Started key (Ses.InstallationID x) (Ses.DeviceHash x) ∈ log ∧
      Authorized key code n c ∈ log ∧ C.ID c = Ses.CredentialID x;
  explained_credential : ∀ id r, AuthStore.Credentials a !! id = Some r →
    ∃ key code n c, Authorized key code n c ∈ log ∧ C.ID c = id ∧ C.UserID c = CR.UserID r
}.

Lemma explained_keeps log a a' : keeps a a' → explained log a → explained log a'.
Proof.
  intros Hk [Hkeyed Hp Hh Hs Hc]. destruct (Hk Hkeyed) as (Hkeyed' & Hp' & Hh' & Hs' & Hc'). split; [done|..].
  - intros k p Hkp. apply (Hp k). by eapply lookup_weaken.
  - intros k h Hkh. apply (Hh k). by eapply lookup_weaken.
  - intros k x (y & Hy & -> & -> & ->)%Hs'. by eapply Hs.
  - intros id r (r0 & Hr & ->)%Hc'. by apply Hc.
Qed.

Lemma explained_mono log log' a : (∀ e, e ∈ log → e ∈ log') → explained log a → explained log' a.
Proof.
  intros Hsub [Hk Hp Hh Hs Hc]. split; [done|..].
  - intros k p Hkp. by apply Hsub, Hp.
  - intros k h (H1 & code & n & c & H2 & H3)%Hh. split; [by apply Hsub|]. exists code, n, c. eauto.
  - intros k x (key & code & n & c & H1 & H2 & H3)%Hs. exists key, code, n, c. eauto.
  - intros id r (key & code & n & c & H1 & H2 & H3)%Hc. exists key, code, n, c. eauto.
Qed.

(** What [startMobileAuth] adds to the history: the login of its answer. *)
Definition started W s (r : httpRequest) : list event :=
  match Payload (startMobileAuth W s r).2, decodeAuthStart W (Body r) with
  | JAuthStart _ state _ _, Ok request =>
      [Started (Memory.hashSecret state) (StartInstallationID request)
         (Memory.hashSecret (StartDeviceSecret request))]
  | _, _ => []
  end.

(** What [twitchOAuthCallback] adds: the state and the code of the request,
    the reading the code was exchanged at (the clock is read before), and the
    credential that came of it. *)
Definition authorized W s (r : httpRequest) : list event :=
  match (exchangeLogin W s r).2 with
  | inr (_, _, credential) =>
      [Authorized (Memory.hashSecret (TrimSpace (QueryParam r "state"))) (TrimSpace (QueryParam r "code")) (S (ticks s)) credential]
  | inl _ => []
  end.

Lemma cleanup_keeps now a : keeps a (AuthStore.cleanupExpiredLocked now a).
Proof. destruct (AuthProofs.cleanup_sub now a) as (? & ? & ? & ?). by apply keeps_sub. Qed.

Lemma putPending_explained log now a state p :
  explained log a →
  explained (match (AuthStore.PutPending now a state p).2 with
             | None => Started (Memory.hashSecret state) (P.InstallationID p) (P.DeviceHash p) :: log
             | Some _ => log
             end) (AuthStore.PutPending now a state p).1.
Proof.
  intros Hex. unfold AuthStore.PutPending. apply (explained_keeps _ _ _ (cleanup_keeps now a)) in Hex.
  set (a1 := AuthStore.cleanupExpiredLocked now a) in *. clearbody a1.
  assert (explained log (a1 <| AuthStore.Pending := range_delete (λ _ e,
      (P.InstallationID e == P.InstallationID p) && Memory.secureHashEqual (P.DeviceHash e) (P.DeviceHash p))
      (AuthStore.Pending a1) |>)) as H1.
  { eapply explained_keeps; [|exact Hex]. apply keeps_sub; cbn; try done. apply range_delete_subseteq. }
  destruct (_ <=? _); [done|]. cbn [snd fst AuthStore.persistLocked]. set (a2 := a1 <| AuthStore.Pending := _ |>) in *.
  apply (explained_mono _ (Started (Memory.hashSecret state) (P.InstallationID p) (P.DeviceHash p) :: log)) in H1;
    [|by right]. destruct H1 as [Hk Hp Hh Hs Hc]. split; [done| |done..].
  intros k q. cbn. rewrite lookup_insert_Some. intros [[<- <-]|[_ Hq]]; [by left|by apply Hp].
Qed.

Lemma startMobileAuth_explained log W s r :
  explained log (authStore s) → explained (started W s r ++ log) (authStore (startMobileAuth W s r).1).
Proof.
  intros Hex. unfold started, startMobileAuth, Now, newToken, requireAuthBroker. destruct (OAuth.AuthEnabled _); [|done].
  destruct (decodeAuthStart W (Body r)) as [request|]; [|done].
  destruct (RegistrationInput.validateMobileDevice _ _); [done|].
  set (inst := StartInstallationID request). set (secret := StartDeviceSecret request).
  pose proof (rateLimit_auth W s r inst secret) as H1.
  destruct (enforceInstallationRateLimit W s r inst secret) as [s1 [resp|]] eqn:Hlim; cbn [fst snd] in *.
  { rewrite H1. eapply explained_mono; [|exact Hex]. intros e He. apply elem_of_app. by right. }
  destruct (validateAppCallbackURI W _); [cbn; by rewrite H1|].
  destruct (Memory.randomToken _ _ _) as [state|]; [|cbn; by rewrite H1].
  match goal with |- context [AuthStore.PutPending ?now ?a state ?p] =>
    pose proof (putPending_explained log now a state p) as Hput;
    destruct (AuthStore.PutPending now a state p) as [a' [e|]] end.
  - destruct e; cbn in *; apply Hput; by rewrite H1.
  - cbn in *. apply Hput. by rewrite H1.
Qed.

Lemma keeps_storeHandoff clock a code h :
  ∃ handoffs, handoffs ⊆ <[Memory.hashSecret code := h]> (AuthStore.Handoffs a) ∧
    keeps (a <| AuthStore.Handoffs := handoffs |>) (AuthStore.storeHandoffLocked clock a code h).1.
Proof.
  set (m := <[Memory.hashSecret code := h]> (range_delete (λ _ existing,
      (H.InstallationID existing == H.InstallationID h) &&
      Memory.secureHashEqual (H.DeviceHash existing) (H.DeviceHash h)) (AuthStore.Handoffs a))).
  exists m. split; [apply insert_mono, range_delete_subseteq|]. unfold AuthStore.storeHandoffLocked.
  match goal with |- context [AuthStore.cleanupExpiredLocked (clock 0%nat) ?b] =>
    change b with (a <| AuthStore.Handoffs := m |>); set (a1 := a <| AuthStore.Handoffs := m |>) end.
  etrans; [apply (cleanup_keeps (clock 0%nat))|]. set (a2 := AuthStore.cleanupExpiredLocked _ a1).
  destruct (_ <? _); [|done]. cbn [fst AuthStore.persistLocked].
  etrans; [|apply (cleanup_keeps (clock 1%nat))]. apply keeps_sub; cbn; try done. apply delete_subseteq.
Qed.

Lemma saveLogin_explained log W s state p code n c :
  explained log (authStore s) →
  Started (Memory.hashSecret state) (P.InstallationID p) (P.DeviceHash p) ∈ log →
  explained (Authorized (Memory.hashSecret state) code n c :: log) (authStore (saveLogin W s state p c).1).
Proof.
  intros Hex Hst. apply (explained_mono _ (Authorized (Memory.hashSecret state) code n c :: log)) in Hex; [|by right].
  unfold saveLogin, newToken, Now. destruct (Memory.randomToken _ _ _) as [handoff|]; [|done].
  unfold AuthStore.PutCredentialAndHandoff, AuthStore.setCredentialLocked.
  destruct (_ || _); [done|]. destruct (AuthStore.seal _ _ _ _) as [access|]; [|done].
  destruct (AuthStore.seal _ _ _ _) as [refresh|]; [|done].
  match goal with |- context [AuthStore.storeHandoffLocked ?ck ?b handoff ?h] =>
    destruct (keeps_storeHandoff ck b handoff h) as (m & Hm & Hk);
    destruct (AuthStore.storeHandoffLocked ck b handoff h) as [a' err] end.
  assert (explained (Authorized (Memory.hashSecret state) code n c :: log) a') as Hdone; [|by destruct err].
  eapply explained_keeps; [exact Hk|]. destruct Hex as [Hkey Hp Hh Hs Hc]. split; cbn.
  - by apply map_Forall_insert_2.
  - done.
  - intros k h Hkh. eapply lookup_weaken in Hkh; [|exact Hm]. apply lookup_insert_Some in Hkh as [[<- <-]|[_ Hkh]].
    + split; [by right|]. exists code, n, c. split; [by left|done].
    + by apply (Hh k).
  - done.
  - intros id r. rewrite lookup_insert_Some. intros [[<- <-]|[_ Hr]]; [|by apply Hc].
    exists (Memory.hashSecret state), code, n, c. split_and!; [by left|done..].
Qed.

Lemma exchangeLogin_spec log W s r :
  explained log (authStore s) →
  let '(s1, exchanged) := exchangeLogin W s r in
  explained log (authStore s1) ∧
  match exchanged with
  | inl _ => True
  | inr (state, p, c) =>
      state = TrimSpace (QueryParam r "state") ∧
      Started (Memory.hashSecret state) (P.InstallationID p) (P.DeviceHash p) ∈ log ∧
      granted (oauthEnv W) (TrimSpace (QueryParam r "code")) (S (ticks s)) c
  end.
Proof.
  intros Hex. unfold exchangeLogin, Now. destruct (requireAuthBroker W); [done|]. case_bool_decide; [done|].
  set (state := TrimSpace _). change (authStore (tick s)) with (authStore s).
  pose proof (keeps_consumePending (clock W (ticks s)) (authStore s) state) as Hk.
  destruct (AuthStore.ConsumePending _ _ _) as [a [p|e]] eqn:Hcons; cbn [fst] in Hk; cycle 1.
  { split; [by eapply explained_keeps|done]. }
  assert (explained log a) as Ha by (by eapply explained_keeps).
  assert (Started (Memory.hashSecret state) (P.InstallationID p) (P.DeviceHash p) ∈ log) as Hst.
  { unfold AuthStore.ConsumePending in Hcons. destruct (AuthStore.Pending _ !! _) as [q|] eqn:Hq; [|done].
    cbn in Hcons. destruct (After _ _); [done|]. injection Hcons as _ <-. exact (explained_pending _ _ Hex _ _ Hq). }
  destruct (negb _); [done|]. case_bool_decide; [done|]. unfold oauthCall. set (o := OAuth.mkState _ _ _). set (code := TrimSpace _).
  destruct (OAuthProofs.quiet_exchangeCode (oauthEnv W) code o) as [Hq _].
  destruct (OAuth.exchangeCode _ code o) as [o' [c|e]] eqn:Hx; cbn in *; rewrite Hq; split_and!; try done.
  exact (exchange_granted (oauthEnv W) code o o' c Hx).
Qed.

Lemma callback_explained log W s r :
  explained log (authStore s) → explained (authorized W s r ++ log) (authStore (twitchOAuthCallback W s r).1).
Proof.
  intros Hex. unfold authorized, twitchOAuthCallback. pose proof (exchangeLogin_spec log W s r Hex) as Hsp.
  destruct (exchangeLogin W s r) as [s1 [resp|[[state p] c]]]; [apply Hsp|].
  destruct Hsp as (Hex1 & -> & Hst & _). by apply saveLogin_explained.
Qed.

Lemma createSession_explained log rnd now a id inst secret ttl key code n c :
  explained log a → Started key inst (Memory.hashSecret secret) ∈ log → Authorized key code n c ∈ log → C.ID c = id →
  explained log (AuthStore.CreateSession rnd now a id inst secret ttl).1.
Proof.
  intros Hex Hst Hau Hid. unfold AuthStore.CreateSession. destruct (AuthStore.Credentials a !! id); [|done].
  destruct (range_exists _ _); [done|].
  match goal with |- context [mlen (AuthStore.Sessions ?b)] => assert (explained log b) as H1 end.
  { eapply explained_keeps; [|exact Hex]. apply keeps_sub; cbn; try done. apply range_delete_subseteq. }
  destruct (_ <=? _); [done|]. destruct (Memory.randomToken _ _ _) as [token|]; [|done].
  cbn [fst AuthStore.persistLocked]. eapply explained_keeps; [apply cleanup_keeps|].
  destruct H1 as [Hkey Hp Hh Hs Hc]. split; try done. intros k x. cbn. rewrite lookup_insert_Some.
  intros [[<- <-]|[_ Hx]]; [by exists key, code, n, c|by eapply Hs].
Qed.

Lemma openSession_explained log W s h inst secret code n c :
  explained log (authStore s) → Started (H.StateHash h) inst (Memory.hashSecret secret) ∈ log →
  Authorized (H.StateHash h) code n c ∈ log → C.ID c = H.CredentialID h →
  explained log (authStore (openSession W s h inst secret).1).
Proof.
  intros Hex Hst Hau Hid. unfold openSession. set (call := OAuth.lease _ _ _).
  pose proof (oauthCall_keeps s call (λ o, lease_keeps _ o _ _)) as Hk2.
  destruct (oauthCall s call) as [s3 [cr|e]]; cbn [fst] in Hk2; apply (explained_keeps _ _ _ Hk2) in Hex as H3; cycle 1.
  { cbn. eapply explained_keeps; [apply keeps_deleteUnused|done]. }
  match goal with |- context [AuthStore.CreateSession ?rd ?now ?b ?id ?i ?sec ?ttl] =>
    pose proof (createSession_explained log rd now b id i sec ttl (H.StateHash h) code n c H3 Hst Hau Hid) as H4;
    destruct (AuthStore.CreateSession rd now b id i sec ttl) as [a' [[token exp]|e]] end; [done|].
  assert (explained log (AuthStore.DeleteCredentialIfUnused a' (H.CredentialID h)).1) as H5
    by (eapply explained_keeps; [apply keeps_deleteUnused|done]).
  by destruct e.
Qed.

Lemma completeMobileAuth_explained log W s r :
  explained log (authStore s) → explained log (authStore (completeMobileAuth W s r).1).
Proof.
  intros Hex. unfold completeMobileAuth, Now. destruct (requireAuthBroker W); [done|].
  destruct (decodeAuthComplete W (Body r)) as [request|]; [|done].
  destruct (RegistrationInput.validateMobileDevice _ _); [done|].
  set (inst := CompleteInstallationID request). set (secret := CompleteDeviceSecret request).
  pose proof (rateLimit_auth W s r inst secret) as H1.
  destruct (enforceInstallationRateLimit W s r inst secret) as [s1 [resp|]]; cbn [fst] in H1; rewrite <-H1 in Hex; [done|].
  change (authStore (tick s1)) with (authStore s1). set (code := TrimSpace _). set (state := CompleteState request).
  pose proof (keeps_consumeHandoff (clock W (ticks s1)) (authStore s1) code inst secret state) as Hk.
  destruct (AuthStore.ConsumeHandoff _ _ _ _ _ _) as [a [h|e]] eqn:Hcons; cbn [fst] in Hk;
    apply (explained_keeps _ _ _ Hk) in Hex as Ha; [|done].
  assert (Started (H.StateHash h) inst (Memory.hashSecret secret) ∈ log ∧
          ∃ given n c, Authorized (H.StateHash h) given n c ∈ log ∧ C.ID c = H.CredentialID h) as [Hst (given & n & c & Hau & Hid)].
  { unfold AuthStore.ConsumeHandoff in Hcons. destruct (AuthStore.Handoffs _ !! _) as [h'|] eqn:Hh; [|done].
    destruct (After _ _); [done|]. destruct (_ || _) eqn:Hdev; [done|]. case_match; [done|].
    cbn in Hcons. injection Hcons as _ <-. rewrite orb_false_iff, !negb_false_iff, bool_decide_eq_true in Hdev.
    destruct Hdev as [<- [<- _]%Memory.secureHashEqual_spec]. exact (explained_handoff _ _ Hex _ _ Hh). }
  by apply (openSession_explained log W _ h inst secret given n c).
Qed.

(** ** Executions *)

(** The server runs in one world: its configuration, and the answers of
    Twitch, the clock and the random source at every reading. *)
Context (W : World).

(** The history holds one credential per identifier, each given by Twitch. *)
Definition history log : Prop :=
  (∀ k code n c, Authorized k code n c ∈ log → granted (oauthEnv W) code n c) ∧
  (∀ k k' code code' n n' c c', Authorized k code n c ∈ log → Authorized k' code' n' c' ∈ log → C.ID c = C.ID c' → k = k' ∧ c = c').

(** A request to one of the handlers that reach the authentication store or
    the registrations, the lease of a chat connection, or anything else,
    which leaves those and the cache of moderated channels alone.  The
    identifier of a new credential is random; that it was not used before is
    the condition on the callback. *)
Inductive step : server RS * list event → server RS * list event → Prop :=
| step_start r s log : step (s, log) ((startMobileAuth W s r).1, started W s r ++ log)
| step_callback r s log :
    (∀ k k' code code' n n' c c', Authorized k code n c ∈ authorized W s r → Authorized k' code' n' c' ∈ log → C.ID c ≠ C.ID c') →
    step (s, log) ((twitchOAuthCallback W s r).1, authorized W s r ++ log)
| step_complete r s log : step (s, log) ((completeMobileAuth W s r).1, log)
| step_lease r s log : step (s, log) ((leaseMobileToken W s r).1, log)
| step_chat_lease id force s log : step (s, log) ((oauthCall s (OAuth.lease (oauthEnv W) id force)).1, log)
| step_logout r s log : step (s, log) ((deleteMobileSession W s r).1, log)
| step_revoke_device r s log : step (s, log) ((revokeMobileDevice W s r).1, log)
| step_revoke_all r s log : step (s, log) ((revokeAllMobileSessions W s r).1, log)
| step_register r s log : step (s, log) ((upsertRegistration W s r).1, log)
| step_delete r s log : step (s, log) ((deleteRegistration W s r).1, log)
| step_session r s log : step (s, log) ((SyncHandlers.authorizeMobileSession W s r).1, log)
| step_other s s' log :
    authStore s' = authStore s → store s' = store s → moderatedCache s' = moderatedCache s → (ticks s ≤ ticks s')%nat →
    step (s, log) (s', log).

Definition invariant (x : server RS * list event) : Prop := explained x.2 (authStore x.1) ∧ history x.2.

Lemma deleteRegistration_auth s r : authStore (deleteRegistration W s r).1 = authStore s.
Proof.
  unfold deleteRegistration. destruct (Delete _ _ _) as [st [u|e]]; [|by destruct e].
  cbn [fst]. by rewrite reconcile_auth, auditRecord_auth.
Qed.

Lemma history_started s r log : history log → history (started W s r ++ log).
Proof.
  intros [Hg Hu].
  assert (∀ k code n c, Authorized k code n c ∈ started W s r ++ log → Authorized k code n c ∈ log) as Hsub.
  { intros k code n c [Hin|Hin]%elem_of_app; [|done]. unfold started in Hin.
    repeat case_match; try (by apply elem_of_nil in Hin). by apply list_elem_of_singleton in Hin. }
  split; [intros k code n c ?%Hsub; by eapply Hg|]. intros k k' code code' n n' c c' ?%Hsub ?%Hsub. by eapply Hu.
Qed.

Lemma history_authorized s r log :
  explained log (authStore s) → history log →
  (∀ k k' code code' n n' c c', Authorized k code n c ∈ authorized W s r → Authorized k' code' n' c' ∈ log → C.ID c ≠ C.ID c') →
  history (authorized W s r ++ log).
Proof.
  intros Hex [Hg Hu] Hfresh. pose proof (exchangeLogin_spec log W s r Hex) as Hsp. unfold authorized in *.
  destruct (exchangeLogin W s r) as [s1 [resp|[[state p] c]]]; cbn [snd] in *; [by split|].
  destruct Hsp as (_ & _ & _ & Hc). split.
  - intros k code n c' [?|Hin]%elem_of_cons; [by simplify_eq|by eapply Hg].
  - intros k k' code code' n n' d d' [H1|H1]%elem_of_cons [H2|H2]%elem_of_cons Hid; simplify_eq; [done|..|by eapply Hu].
    + by edestruct (λ k code n, Hfresh k k' code code' n n' c d'); [left|..].
    + by edestruct (λ k' code' n', Hfresh k' k code' code n' n c d); [left|..].
Qed.

Lemma step_explained x y : step x y → invariant x → invariant y.
Proof.
  unfold invariant. intros Hstep [Hex Hhist].
  destruct Hstep as [r s log|r s log Hfresh|r s log|r s log|id force s log|r s log|r s log|r s log|r s log|r s log
    |r s log|s s' log Heq _ _ _]; cbn [fst snd] in *.
  - split; [by apply startMobileAuth_explained|by apply history_started].
  - split; [by apply callback_explained|by apply history_authorized].
  - split; [by apply completeMobileAuth_explained|done].
  - split; [|done]. eapply explained_keeps; [apply leaseMobileToken_keeps|done].
  - split; [|done]. eapply explained_keeps; [apply oauthCall_keeps; intros; apply lease_keeps|done].
  - split; [|done]. eapply explained_keeps; [apply deleteMobileSession_keeps|done].
  - split; [|done]. eapply explained_keeps; [apply revokeMobileDevice_keeps|done].
  - split; [|done]. eapply explained_keeps; [apply revokeAll_keeps|done].
  - split; [|done]. eapply explained_keeps; [apply upsertRegistration_keeps|done].
  - split; [|done]. by rewrite deleteRegistration_auth.
  - split; [|done]. eapply explained_keeps; [apply session_keeps|done].
  - by rewrite Heq.
Qed.

Lemma invariant_start (config : Config) (registrations : RS) : invariant (New config registrations, []).
Proof.
  split; [|by split; intros * ?%elem_of_nil]. split; intros *; cbn; rewrite ?lookup_empty; try done.
Qed.

Lemma reachable_explained (registrations : RS) s log :
  rtc step (New (cfg W) registrations, []) (s, log) → explained log (authStore s) ∧ history log.
Proof.
  intros Hsteps. pose proof (invariant_start (cfg W) registrations) as H0. change (invariant (s, log)).
  induction Hsteps as [x|x y z Hstep _ IH]; [done|]. apply IH. by eapply step_explained.
Qed.

(** C1.  Sessions belong to the devices that signed in, with the account
    Twitch authorized.  In every state the server can reach, whatever requests
    it got and whatever Twitch answered: a session's installation and device
    are those of a login which that device itself started; the browser came
    back with the state of that very login and a code, and Twitch exchanged
    that code for the tokens of the session's credential and said, asked
    about them next, that they are this client's, have every required scope
    and belong to a user; and as long as the session's credential is stored,
    its user is that one, through every refresh.  Nobody else's account can
    end up behind the device's session. *)
Theorem session_from_own_login (registrations : RS) s log k x :
  rtc step (New (cfg W) registrations, []) (s, log) →
  AuthStore.Sessions (authStore s) !! k = Some x →
  ∃ key code n c, Started key (Ses.InstallationID x) (Ses.DeviceHash x) ∈ log ∧ Authorized key code n c ∈ log ∧
    C.ID c = Ses.CredentialID x ∧ granted (oauthEnv W) code n c ∧
    ∀ r, AuthStore.Credentials (authStore s) !! Ses.CredentialID x = Some r → CR.UserID r = C.UserID c.
Proof.
  intros [Hex [Hg Hu]]%reachable_explained Hx.
  destruct (explained_session _ _ Hex k x Hx) as (key & code & n & c & H1 & H2 & H3).
  exists key, code, n, c. split_and!; try done; [by eapply Hg|]. intros r Hr.
  destruct (explained_credential _ _ Hex _ _ Hr) as (key' & code' & n' & c' & H4 & H5 & <-).
  destruct (Hu key' key code' code n' n c' c) as [_ ->]; [done..|congruence|done].
Qed.
End Server.

(** ** A login from start to session *)

Module Example.
#[export] Existing Instance reference_runtime.
#[export] Existing Instance toy_sha256.
#[export] Existing Instance ascii_unicode.

Definition secret : string := "0123456789abcdef0123456789abcdef".
Definition token (prefix : string) : string :=
  match Memory.randomToken zero_rand prefix 32 with Ok token => token | Err _ => "" end.

Definition config : Config :=
  Config.zero <| AuthSessionTTL := Hour |> <| AuthStateTTL := Hour |> <| AuthHandoffTTL := Hour |>
    <| AuthLeaseTTL := Minute |> <| RateLimitDisabled := true |> <| AuthEncryptionKey := "key" |>
    <| TwitchClientID := "client" |> <| TwitchClientSecret := "cs" |> <| TwitchRedirectURL := "https://us/cb" |>
    <| PublicBaseURL := "https://us" |> <| AuthAllowedAppSchemes := ["app"] |>.
Definition world : World :=
  mkWorld config (λ _, 1000) (λ _, zero_rand) (λ _ _, Ok (Subscriptions.mkReply 200 "" None))
    (λ _, Ok (OAuth.mkToken "access" "refresh" 3600 [] "bearer"))
    (λ _, Ok (OAuth.mkValidation "client" "42" "alice" [] 3600)) (λ _, Ok (OAuth.mkModerated ["10"] "")) 1
    None (λ _ _, None) (λ _, None) (λ _, Err (ErrMsg "")) (λ _, Err (ErrMsg ""))
    (λ _, Ok (mkAuthStart "phone" secret "app://oauth/callback"))
    (λ _, Ok (mkAuthComplete "phone" secret (token "fh1_") (token "fs1_")))
    (λ _, Some (NetURL.mkURL "app" "oauth" "oauth" "/callback" "/callback" false "" "")) (λ r, Ok (Body r)) (λ _, None) (λ _, None)
    (λ _, None) (λ _ _, "") (Some toy_aead).
Definition post : httpRequest := mkRequest "POST" "/" (λ _, "") (λ _, "") (λ _, "") "" "".
Definition callback : httpRequest :=
  mkRequest "GET" "/" (λ _, "")
    (λ name, if name == "state" then token "fs1_" else if name == "code" then "code" else "") (λ _, "") "" "".

Definition initial : server RegistrationStore.t := New config RegistrationStore.OpenStore.
Definition waiting : server RegistrationStore.t := (startMobileAuth world initial post).1.
Definition returned : server RegistrationStore.t := (twitchOAuthCallback world waiting callback).1.
Definition complete : server RegistrationStore.t := (completeMobileAuth world returned post).1.
Definition log1 : list event := started world initial post.
Definition log2 : list event := authorized world waiting callback ++ log1 ++ [].

Definition session : Ses.t :=
  match AuthStore.Sessions (authStore complete) !! Memory.hashSecret (token "fsv1_") with
  | Some x => x
  | None => Ses.zero
  end.
End Example.
Import Example.

Lemma run : rtc (step world) (New config RegistrationStore.OpenStore, []) (complete, log2).
Proof.
  refine (rtc_l _ _ (waiting, log1 ++ []) _ (step_start world post initial []) _).
  refine (rtc_l _ _ (returned, log2) _ (step_callback world callback waiting (log1 ++ []) _) _).
  - intros k k' code code' n n' c c' _ Hin. exfalso. revert Hin. vm_compute. intros Hin. apply list_elem_of_singleton in Hin. discriminate.
  - exact (rtc_once _ _ (step_complete world post returned log2)).
Qed.

Lemma session_from_own_login_witness :
  Ses.InstallationID session = "phone" ∧
  ∃ key code n c, Started key "phone" (Memory.hashSecret secret) ∈ log2 ∧ Authorized key code n c ∈ log2 ∧
    granted (oauthEnv world) code n c.
Proof.
  assert (session = Ses.mk (Ses.CredentialID session) "phone" (Memory.hashSecret secret) 1000 (1000 + Hour)) as Hs
    by (vm_compute; reflexivity).
  assert (AuthStore.Sessions (authStore complete) !! Memory.hashSecret (token "fsv1_") = Some session) as Hx
    by (vm_compute; reflexivity).
  split; [rewrite Hs; reflexivity|].
  destruct (session_from_own_login world RegistrationStore.OpenStore complete log2 _ session run Hx)
    as (key & code & n & c & H1 & H2 & _ & H3 & _).
  exists key, code, n, c. rewrite Hs in H1. split; [exact H1|]. split; [exact H2|exact H3].
Defined.

End LoginProofs.
