(* ===== verification/ModerationProofs.v ===== *)
(** * Moderator rights come from Twitch

    The executions of [LoginProofs] seen from the registrations: the cache of
    moderated channels holds only what Twitch answered for the user of the
    credential it is kept under, and so does every registration.  On this
    rest the theorems on stored registrations and on the subscriptions that
    show moderation. *)

From S2P Require Import Prelude GoStrings NetIP Config Credentials Domain RegistrationStore SettingsSync AuditStore.
From S2P Require Import RateLimit DeliveryStore AuthStore Subscriptions DesiredProofs PushSocket RegistrationInput OAuth.
From S2P Require Import OAuthProofs Repositories Server ServerProofs SyncHandlers AuthHandlers LoginProofs.
#[local] Open Scope Z_scope.
#[local] Open Scope go_scope.

Module ModerationProofs.
Import Server ServerProofs AuthHandlers LoginProofs.
Module Subs := Subscriptions.

(** ** The OAuth client *)

Section Client.
Context {rt : GoRuntime} {sha : Sha256} {uni : Unicode} (E : OAuth.Env).
Implicit Types (s : OAuth.state).

(** A computation that leaves the cache alone and takes its time. *)
Definition calm {A} (x : M OAuth.state A) : Prop :=
  ∀ s, OAuth.moderatedCache (x s).1 = OAuth.moderatedCache s ∧ (OAuth.readings s ≤ OAuth.readings (x s).1)%nat.

Lemma calm_bind {A B} (x : M OAuth.state A) (k : A → M OAuth.state B) : calm x → (∀ a, calm (k a)) → calm (bind x k).
Proof.
  intros Hx Hk s. unfold bind. destruct (Hx s) as [H1 H2]. destruct (x s) as [s1 [a|e]]; [|done].
  cbn [fst] in *. destruct (Hk a s1) as [H3 H4]. split; [congruence|lia].
Qed.
Lemma calm_annotate {A} prefix (x : M OAuth.state A) : calm x → calm (annotate prefix x).
Proof. intros Hx s. unfold annotate. pose proof (Hx s) as H. by destruct (x s) as [s1 [a|e]]. Qed.
Lemma calm_ret {A} (a : A) : calm (ret a).
Proof. intros s. split; [done|cbn; lia]. Qed.
Lemma calm_fail {A} e : calm (fail (A:=A) e).
Proof. intros s. split; [done|cbn; lia]. Qed.
Lemma calm_send r : calm (OAuth.send E r).
Proof. intros s. split; [done|cbn; lia]. Qed.
Lemma calm_now : calm (OAuth.Now E).
Proof. intros s. split; [done|cbn; lia]. Qed.
Lemma calm_random prefix n : calm (OAuth.newRandomToken E prefix n).
Proof. intros s. split; [done|cbn; lia]. Qed.
Lemma calm_get id : calm (OAuth.GetCredential E id).
Proof. intros s. split; [done|cbn; lia]. Qed.
Lemma calm_put c : calm (OAuth.PutCredential E c).
Proof. intros s. unfold OAuth.PutCredential. destruct (AuthStore.PutCredential _ _ _ _). split; [done|cbn; lia]. Qed.
Lemma calm_read what response : calm (OAuth.readAnswer what response).
Proof. unfold OAuth.readAnswer. destruct (Subscriptions.ReadError response); [apply calm_fail|apply calm_ret]. Qed.

Create HintDb calm.
#[local] Hint Resolve calm_bind calm_annotate calm_ret calm_fail calm_send calm_now calm_random calm_get calm_put calm_read : calm.

Ltac calm_auto := repeat first
  [ progress auto with calm
  | apply calm_bind; [|intros ?]
  | case_match ].

Lemma calm_requestToken values : calm (OAuth.requestToken E values).
Proof. unfold OAuth.requestToken. calm_auto. Qed.
Lemma calm_validate token : calm (OAuth.validate E token).
Proof. unfold OAuth.validate. calm_auto. Qed.
#[local] Hint Resolve calm_requestToken calm_validate : calm.

Lemma calm_exchangeCode code : calm (OAuth.exchangeCode E code).
Proof. unfold OAuth.exchangeCode. calm_auto. Qed.
Lemma calm_revoke credential : calm (OAuth.revokeAccessToken E credential).
Proof. unfold OAuth.revokeAccessToken. calm_auto. Qed.
Lemma calm_refresh now c : calm (OAuth.refreshCredential E now c).
Proof. unfold OAuth.refreshCredential, OAuth.refresh. calm_auto. Qed.
Lemma calm_validateCredential now c : calm (OAuth.validateCredential E now c).
Proof.
  intros s. unfold OAuth.validateCredential. pose proof (calm_validate (C.AccessToken c) s) as [H1 H2].
  destruct (OAuth.validate E (C.AccessToken c) s) as [s1 [v|e]]; cbn [fst] in *; [|by destruct e].
  destruct (negb _); [done|]. match goal with |- context [OAuth.PutCredential E ?c'] =>
    assert (calm (let! _ := OAuth.PutCredential E c' in ret (Some c'))) as Hc by calm_auto end.
  destruct (Hc s1) as [H3 H4]. split; [etrans; [exact H3|done]|etrans; [exact H2|exact H4]].
Qed.
#[local] Hint Resolve calm_refresh calm_validateCredential : calm.

Lemma calm_lease id force : calm (OAuth.lease E id force).
Proof. unfold OAuth.lease. calm_auto. Qed.

Lemma calm_moderatedLoop turns c cursor result : calm (OAuth.moderatedLoop E turns c cursor result).
Proof. revert cursor result. induction turns as [|turns IH]; intros cursor result; cbn [OAuth.moderatedLoop]; calm_auto. Qed.

(** *** The account of a lease *)

Lemma refresh_user now c s s' c' : OAuth.refreshCredential E now c s = (s', Ok c') → C.UserID c' = C.UserID c.
Proof.
  unfold OAuth.refreshCredential. unfold bind at 1. destruct (OAuth.refresh E _ s) as [s1 [t|]]; [|done].
  unfold bind at 1. destruct (OAuth.validate E _ s1) as [s2 [v|]]; [|done]. destruct (negb _); [done|].
  unfold bind. destruct (OAuth.PutCredential E _ s2) as [s3 [u|]]; [|done]. by intros [= <- <-].
Qed.

Lemma validate_user now c s s' c' : OAuth.validateCredential E now c s = (s', Ok (Some c')) → C.UserID c' = C.UserID c.
Proof.
  unfold OAuth.validateCredential. destruct (OAuth.validate E _ s) as [s1 [v|e]]; [|by destruct e]. destruct (negb _); [done|].
  unfold bind. destruct (OAuth.PutCredential E _ s1) as [s3 [u|]]; [|done]. by intros [= <- <-].
Qed.

(** A lease is for the account its credential is stored with. *)
Lemma lease_user s s' id force c : OAuth.lease E id force s = (s', Ok c) →
  ∃ r, AuthStore.Credentials (OAuth.store s) !! id = Some r ∧ CR.UserID r = C.UserID c.
Proof.
  unfold OAuth.lease, bind at 1. unfold OAuth.GetCredential, AuthStore.GetCredential.
  destruct (AuthStore.Credentials (OAuth.store s) !! id) as [r|] eqn:Hr; [|done].
  destruct (AuthStore.openCredential _ id r) as [c0|] eqn:Hopen; [|done].
  assert (CR.UserID r = C.UserID c0) as Hu.
  { unfold AuthStore.openCredential in Hopen. destruct (AuthStore.open _ _ _); [|done]. cbn in Hopen.
    destruct (AuthStore.open _ _ _); [|done]. cbn in Hopen. by injection Hopen as <-. }
  unfold bind at 1, OAuth.Now. intros H. exists r. split; [done|]. rewrite Hu. symmetry. revert H.
  destruct (force || _); [apply refresh_user|]. destruct (55 * Minute <=? _); [|unfold ret; intros Heq; by simplify_eq].
  unfold bind. destruct (OAuth.validateCredential E _ c0 _) as [s2 [[c1|]|e]] eqn:Hv; [| |done].
  - unfold ret. intros Heq. simplify_eq. by eapply validate_user.
  - apply refresh_user.
Qed.
End Client.

(** ** Answers about moderated channels *)

Section Server.
Context {RS : Type} `{!RegistrationRepository RS}.
Context {rt : GoRuntime} {sha : Sha256} {uni : Unicode} (W : World).
Implicit Types (s : server RS) (log : list event).

Abbreviation E := (oauthEnv W).

Lemma moderatedLoop_reported turns c cursor result o o' ids :
  OAuth.moderatedLoop E turns c cursor result o = (o', Ok ids) →
  ∀ x, x ∈ ids → x ∈ result ∨ reported W (OAuth.readings o') (C.UserID c) x.
Proof.
  revert cursor result o. induction turns as [|turns IH]; intros cursor result o; cbn [OAuth.moderatedLoop]; [done|].
  set (request := Subs.mkRequest _ _ _ _ _ _). unfold bind, annotate, OAuth.send.
  destruct (OAuth.Do E (OAuth.readings o) request) as [reply|] eqn:Hdo; [|done].
  destruct (OAuth.Http.ReadError reply) eqn:Hread; [done|]. destruct (_ =? 401); [done|].
  destruct (_ || _) eqn:Hst; [done|]. destruct (OAuth.decodeModerated E _) as [page|] eqn:Hpage; [|done].
  set (o1 := o <| OAuth.readings := _ |>). set (found := List.filter _ _).
  assert (∀ t x, (OAuth.readings o < t)%nat → x ∈ found → reported W t (C.UserID c) x) as Hfound.
  { intros t x Ht Hx. unfold found in Hx. apply elem_of_filter_bool in Hx as [Hx _].
    exists (OAuth.readings o), cursor, (C.AccessToken c), reply, page. split_and!; [done| |done|lia|lia|done|done].
    revert Hdo. unfold request. cbn. destruct (decide (cursor = "")) as [->|Hc]; [done|]. by rewrite (bool_decide_false (cursor = "")). }
  case_bool_decide.
  - intros [= <- <-] x [?|Hx]%elem_of_app; [by left|right]. apply Hfound; [cbn; lia|done].
  - intros Hrest x Hx. destruct (IH _ _ _ Hrest x Hx) as [[?|Hin]%elem_of_app|?]; [by left|right|by right].
    apply Hfound; [|done]. pose proof (calm_moderatedLoop E turns c (TrimSpace (OAuth.Cursor page)) (result ++ found) o1) as [_ Hle].
    rewrite Hrest in Hle. cbn in Hle. lia.
Qed.

(** The cache holds what Twitch answered for the user of the credential. *)
Definition cacheSound log (cache : gmap string OAuth.moderatedChannelCacheEntry) (t : nat) : Prop :=
  ∀ id entry, cache !! id = Some entry → ∃ key code n c, Authorized key code n c ∈ log ∧ C.ID c = id ∧
    Forall (reported W t (C.UserID c)) (OAuth.IDs entry).

Lemma cacheSound_later log log' cache t t' :
  (∀ e, e ∈ log → e ∈ log') → (t ≤ t')%nat → cacheSound log cache t → cacheSound log' cache t'.
Proof.
  intros Hlog Ht Hc id entry (key & code & n & c & Hin & Hid & Hf)%Hc. exists key, code, n, c. split_and!; [by apply Hlog|done|].
  eapply Forall_impl; [exact Hf|]. intros x. by apply reported_later.
Qed.

Lemma fetch_spec log turns id now o :
  explained log (OAuth.store o) → cacheSound log (OAuth.moderatedCache o) (OAuth.readings o) →
  let '(o', answer) := OAuth.fetchModerated E turns id now o in
  (OAuth.readings o ≤ OAuth.readings o')%nat ∧ cacheSound log (OAuth.moderatedCache o') (OAuth.readings o') ∧
  ∀ ids r, answer = Ok ids → AuthStore.Credentials (OAuth.store o) !! id = Some r → Forall (reported W (OAuth.readings o') (CR.UserID r)) ids.
Proof.
  intros Hex Hcache. unfold OAuth.fetchModerated, bind.
  destruct (calm_lease E id false o) as [Hc1 Ht1].
  destruct (OAuth.lease E id false o) as [o1 [c|e]] eqn:Hlease; cbn [fst] in Hc1, Ht1; cycle 1.
  { split_and!; [done|rewrite Hc1; by eapply cacheSound_later|done]. }
  apply lease_user in Hlease as (r & Hr & Hu).
  destruct (calm_moderatedLoop E turns c "" [] o1) as [Hc2 Ht2].
  destruct (OAuth.moderatedLoop E turns c "" [] o1) as [o2 [result|e]] eqn:Hloop; cbn [fst] in Hc2, Ht2; cycle 1.
  { split_and!; [lia|rewrite Hc2, Hc1; eapply cacheSound_later; [done| |exact Hcache]; lia|done]. }
  assert (Forall (reported W (OAuth.readings o2) (CR.UserID r)) (RegistrationInput.normalizeLimitedStrings result 1000 64)) as Hids.
  { apply Forall_forall. intros x Hx. rewrite Hu.
    destruct (RegistrationInput.normalize_limited_exact result 1000 64) as (_ & Hsub & _); [done|].
    apply (elem_of_sublist _ _ x Hx) in Hsub as (raw & -> & Hraw)%list_elem_of_fmap.
    destruct (moderatedLoop_reported _ _ _ _ _ _ _ Hloop raw Hraw) as [?%elem_of_nil|Hrep]; [done|].
    destruct Hrep as (n & cursor & token & reply & page & ? & ? & ? & ? & ? & Hin). exists n, cursor, token, reply, page. split_and!; [done|done|done|lia|lia|done|].
    apply list_elem_of_fmap in Hin as (y & -> & Hy). apply list_elem_of_fmap. exists y. by rewrite TrimSpace_idemp. }
  cbn [OAuth.cacheModerated ret]. split_and!; [cbn; lia| |].
  - intros id' entry. cbn. rewrite lookup_insert_Some. intros [[<- <-]|[_ He]].
    + destruct (explained_credential _ _ Hex _ _ Hr) as (key & code & n & c' & Hin & Hid & Huser). exists key, code, n, c'.
      rewrite Huser. by split_and!.
    + revert id' entry He. fold (cacheSound log (OAuth.moderatedCache o2) (OAuth.readings o2)). rewrite Hc2, Hc1.
      eapply cacheSound_later; [done| |exact Hcache]. lia.
  - intros ids r' [= <-] Hr'. assert (r' = r) as -> by congruence. done.
Qed.

Lemma moderated_spec log turns id o :
  explained log (OAuth.store o) → history W log → cacheSound log (OAuth.moderatedCache o) (OAuth.readings o) →
  let '(o', answer) := OAuth.moderatedChannelIDs E turns id o in
  (OAuth.readings o ≤ OAuth.readings o')%nat ∧ cacheSound log (OAuth.moderatedCache o') (OAuth.readings o') ∧
  ∀ ids r, answer = Ok ids → AuthStore.Credentials (OAuth.store o) !! id = Some r → Forall (reported W (OAuth.readings o') (CR.UserID r)) ids.
Proof.
  intros Hex [_ Huniq] Hcache. unfold OAuth.moderatedChannelIDs, bind, OAuth.Now. cbn [OAuth.moderatedCache update].
  set (o1 := o <| OAuth.readings := S (OAuth.readings o) |>).
  assert (cacheSound log (OAuth.moderatedCache o1) (OAuth.readings o1)) as Hcache1 by (eapply cacheSound_later; [done| |exact Hcache]; cbn; lia).
  pose proof (fetch_spec log turns id (OAuth.clock E (OAuth.readings o)) o1 Hex Hcache1) as Hfetch.
  assert (OAuth.readings o1 = S (OAuth.readings o)) as Ho1 by done.
  assert (let '(o', answer) := OAuth.fetchModerated E turns id (OAuth.clock E (OAuth.readings o)) o1 in
    (OAuth.readings o ≤ OAuth.readings o')%nat ∧ cacheSound log (OAuth.moderatedCache o') (OAuth.readings o') ∧
    ∀ ids r, answer = Ok ids → AuthStore.Credentials (OAuth.store o) !! id = Some r → Forall (reported W (OAuth.readings o') (CR.UserID r)) ids) as Hfetch'.
  { destruct (OAuth.fetchModerated _ _ _ _ o1) as [o' answer]. destruct Hfetch as (? & ? & ?). split_and!; [lia|done|done]. }
  destruct (OAuth.moderatedCache o !! id) as [cached|] eqn:Hc; [|exact Hfetch']. destruct (Before _ _); [|exact Hfetch'].
  split_and!; [cbn; lia|done|]. intros ids r [= <-] Hr.
  destruct (Hcache1 id cached Hc) as (key & code & n & c & Hin & Hid & Hf).
  destruct (explained_credential _ _ Hex _ _ Hr) as (key' & code' & n' & c' & Hin' & Hid' & <-).
  destruct (Huniq key' key code' code n' n c' c) as [_ ->]; [done..|congruence|done].
Qed.

(** ** What the other handlers leave alone *)

(** Registrations may be removed, the cache is left, time passes. *)
Definition shrinks s s' : Prop :=
  stored (store s') ⊆ stored (store s) ∧ moderatedCache s' = moderatedCache s ∧ (ticks s ≤ ticks s')%nat.

#[local] Instance shrinks_preorder : PreOrder shrinks.
Proof.
  split; [by intros s|]. intros s1 s2 s3 (? & ? & ?) (? & ? & ?). split_and!; [by etrans|congruence|lia].
Qed.

Lemma same_shrinks s s' : same_registry s s' → shrinks s s'.
Proof. intros (Hs & _ & Hc & Ht). split_and!; [by rewrite Hs|done|done]. Qed.

(** States that differ in nothing of this. *)
Lemma shrinks_eq s s0 s' : store s' = store s0 → moderatedCache s' = moderatedCache s0 → (ticks s0 ≤ ticks s')%nat → shrinks s s0 → shrinks s s'.
Proof. intros Hs Hc Ht (? & ? & ?). split_and!; [by rewrite Hs|congruence|lia]. Qed.

Ltac shrink_same := eapply shrinks_eq; [..|eassumption || reflexivity]; cbn; done || lia.

Lemma shrinks_audit s s0 record : shrinks s s0 → shrinks s (auditRecord W s0 record).
Proof. intros H. etrans; [exact H|apply same_shrinks, auditRecord_registry]. Qed.
Lemma shrinks_reconcile s s0 : shrinks s s0 → shrinks s (requestEventSubReconcile W s0).
Proof. intros H. etrans; [exact H|apply same_shrinks, reconcile_registry]. Qed.

Lemma oauthCall_shrinks {B} s (call : M OAuth.state B) : calm call → shrinks s (oauthCall s call).1.
Proof.
  intros Hc. unfold oauthCall. destruct (Hc (OAuth.mkState (authStore s) (moderatedCache s) (ticks s))) as [H1 H2].
  destruct (call _) as [o answer]. cbn in *. split_and!; done.
Qed.

Lemma session_shrinks s r : shrinks s (SyncHandlers.authorizeMobileSession W s r).1.
Proof.
  unfold SyncHandlers.authorizeMobileSession, Now. case_match; [done|].
  destruct (AuthStore.ResolveSession _ _ _ _ _ _) as [a [x|e]]; cbn [fst]; [|destruct e]; shrink_same.
Qed.

Lemma start_shrinks s r : shrinks s (startMobileAuth W s r).1.
Proof.
  unfold startMobileAuth, Now, newToken. destruct (requireAuthBroker W); [done|]. destruct (decodeAuthStart _ _) as [request|]; [|done].
  destruct (RegistrationInput.validateMobileDevice _ _); [done|].
  pose proof (same_shrinks _ _ (rateLimit_registry W s r (StartInstallationID request) (StartDeviceSecret request))) as Hl.
  destruct (enforceInstallationRateLimit _ _ _ _ _) as [s1 [resp|]]; cbn [fst] in Hl; [done|].
  destruct (validateAppCallbackURI _ _); [done|]. destruct (Memory.randomToken _ _ _); [|shrink_same].
  destruct (AuthStore.PutPending _ _ _ _) as [st [e|]]; [destruct e|]; shrink_same.
Qed.

Lemma exchange_shrinks s r : shrinks s (exchangeLogin W s r).1.
Proof.
  unfold exchangeLogin, Now. destruct (requireAuthBroker W); [done|]. case_bool_decide; [done|].
  destruct (AuthStore.ConsumePending _ _ _) as [a [p|e]]; [|shrink_same]. destruct (negb _); [shrink_same|].
  case_bool_decide; [shrink_same|]. set (s1 := (tick s) <| authStore := a |>).
  assert (shrinks s s1) as H1 by (unfold s1; shrink_same).
  pose proof (oauthCall_shrinks s1 (OAuth.exchangeCode E (TrimSpace (QueryParam r "code"))) (calm_exchangeCode E _)) as H2.
  destruct (oauthCall s1 _) as [s2 [c|e]]; cbn [fst] in *; by etrans.
Qed.

Lemma callback_shrinks s r : shrinks s (twitchOAuthCallback W s r).1.
Proof.
  unfold twitchOAuthCallback. pose proof (exchange_shrinks s r) as H1. destruct (exchangeLogin W s r) as [s1 [resp|[[state p] c]]]; [done|].
  cbn [fst] in H1. unfold saveLogin, newToken, Now. destruct (Memory.randomToken _ _ _) as [token|]; [|shrink_same].
  destruct (AuthStore.PutCredentialAndHandoff _ _ _ _ _ _ _) as [a [e|]]; shrink_same.
Qed.

Lemma openSession_shrinks s h inst secret : shrinks s (openSession W s h inst secret).1.
Proof.
  unfold openSession. pose proof (oauthCall_shrinks s (OAuth.lease E (H.CredentialID h) false) (calm_lease E _ _)) as H1.
  destruct (oauthCall s _) as [s1 [c|e]]; cbn [fst] in H1; [|unfold discardCredential; shrink_same].
  destruct (AuthStore.CreateSession _ _ _ _ _ _ _) as [a [[token exp]|e]]; [unfold mobileLease, Now; shrink_same|].
  unfold discardCredential. destruct e; shrink_same.
Qed.

Lemma complete_shrinks s r : shrinks s (completeMobileAuth W s r).1.
Proof.
  unfold completeMobileAuth, Now. destruct (requireAuthBroker W); [done|]. destruct (decodeAuthComplete _ _) as [request|]; [|done].
  destruct (RegistrationInput.validateMobileDevice _ _); [done|].
  pose proof (same_shrinks _ _ (rateLimit_registry W s r (CompleteInstallationID request) (CompleteDeviceSecret request))) as Hl.
  destruct (enforceInstallationRateLimit _ _ _ _ _) as [s1 [resp|]]; cbn [fst] in Hl; [done|].
  destruct (AuthStore.ConsumeHandoff _ _ _ _ _ _) as [a [h|e]]; [|destruct e; shrink_same].
  etrans; [|apply openSession_shrinks]. shrink_same.
Qed.

Lemma lease_shrinks s r : shrinks s (leaseMobileToken W s r).1.
Proof.
  unfold leaseMobileToken. destruct (requireAuthBroker W); [done|]. pose proof (session_shrinks s r) as H1.
  destruct (SyncHandlers.authorizeMobileSession W s r) as [s1 [resp|x]]; cbn [fst] in H1; [done|].
  set (call := OAuth.lease _ _ _). assert (shrinks s1 (oauthCall s1 call).1) as H2 by (apply oauthCall_shrinks, calm_lease).
  destruct (oauthCall s1 call) as [s2 [c|e]]; cbn [fst] in H2; [|by etrans].
  assert (shrinks s s2) as H3 by by etrans. unfold mobileLease, Now. shrink_same.
Qed.

Lemma logout_shrinks s r : shrinks s (deleteMobileSession W s r).1.
Proof.
  unfold deleteMobileSession. destruct (requireAuthBroker W); [done|]. case_match; [done|].
  destruct (AuthStore.DeleteSession _ _ _ _) as [a [e|]]; [destruct e|]; shrink_same.
Qed.

Lemma forget_shrinks s inst secret : shrinks s (forgetDevice W s inst secret).1.
Proof.
  unfold forgetDevice. destruct (DeliveryStore.DeleteForInstallation _ _) as [d [n [e|]]]; [shrink_same|].
  destruct (AuthStore.RevokeInstallation _ _ _) as [a [m [e|]]]; [destruct e; shrink_same|].
  apply shrinks_reconcile, shrinks_audit. shrink_same.
Qed.

Lemma removeDevice_shrinks s inst secret : shrinks s (removeDevice W s inst secret).1.
Proof.
  unfold removeDevice. pose proof (Delete_stored (store s) inst secret) as Hsub.
  destruct (Delete (store s) inst secret) as [st err]; cbn [fst] in Hsub.
  assert (shrinks s (s <| store := st |>)) as H1 by (split_and!; cbn; done).
  destruct err as [u|e]; [etrans; [exact H1|apply forget_shrinks]|].
  destruct e; try exact H1. etrans; [exact H1|apply forget_shrinks].
Qed.

Lemma revokeDevice_shrinks s r : shrinks s (revokeMobileDevice W s r).1.
Proof.
  unfold revokeMobileDevice, Now. destruct (requireAuthBroker W); [done|]. case_match; [done|].
  set (inst := TrimSpace (Header r "X-Installation-ID")). set (secret := TrimSpace (Header r "X-Device-Secret")).
  destruct (AuthStore.ResolveSession _ _ _ _ _ _) as [a x]. set (s1 := (tick s) <| authStore := a |>).
  assert (shrinks s s1) as H1 by (unfold s1; shrink_same). cbv zeta.
  assert (shrinks s (removeDevice W s1 inst secret).1) as H2 by (etrans; [exact H1|apply removeDevice_shrinks]).
  assert (shrinks s (match staleRegistration s1 inst secret with
    | inl response => (s1, response) | inr _ => removeDevice W s1 inst secret end).1) as Hstale by by case_match.
  destruct x as [x|e]; [done|]. destruct e; try done. by destruct (refuseBound s1 inst secret).
Qed.

Lemma revokeTokens_shrinks s credentials n : shrinks s (revokeTokens W s credentials n).1.
Proof.
  revert s n. induction credentials as [|c l IH]; intros s n; [done|]. cbn [revokeTokens].
  pose proof (oauthCall_shrinks s (OAuth.revokeAccessToken E c) (calm_revoke E c)) as H1.
  destruct (oauthCall s _) as [s1 answer]. cbn [fst] in H1. by etrans.
Qed.

Lemma deleteDeliveries_shrinks s ids : shrinks s (deleteDeliveries s ids).1.
Proof.
  revert s. induction ids as [|i ids IH]; intros s; [done|]. cbn [deleteDeliveries].
  destruct (DeliveryStore.DeleteForInstallation _ _) as [d [n [e|]]]; [shrink_same|]. etrans; [|apply IH]. shrink_same.
Qed.

Lemma revokeAll_shrinks s r : shrinks s (revokeAllMobileSessions W s r).1.
Proof.
  unfold revokeAllMobileSessions. destruct (requireAuthBroker W); [done|]. case_match; [done|].
  set (token := bearerToken r). set (inst := TrimSpace _). set (secret := TrimSpace (Header r "X-Device-Secret")).
  assert (shrinks s (revocationAccount W s token inst secret).1) as H1.
  { unfold revocationAccount, Now. repeat case_match; cbn [fst]; shrink_same. }
  destruct (revocationAccount W s token inst secret) as [s1 [resp|u]]; cbn [fst] in H1; [done|]. case_match; [done|].
  destruct (accountTargets W s1 u) as [[ids credentials]|]; [|done].
  pose proof (revokeTokens_shrinks s1 credentials 0) as H2. destruct (revokeTokens W s1 credentials 0) as [s2 n]. cbn [fst] in H2.
  match goal with |- context [DeleteForAccount (store s2) u ?l] => pose proof (DeleteForAccount_stored (store s2) u l) as Hsub;
    destruct (DeleteForAccount (store s2) u l) as [st removed] end. cbn [fst] in Hsub.
  assert (shrinks s (s2 <| store := st |>)) as H3 by (etrans; [exact H1|]; etrans; [exact H2|]; split_and!; cbn; done).
  destruct removed as [removed|e]; [|done]. unfold removeAccount.
  match goal with |- context [deleteDeliveries ?x ?l] => pose proof (deleteDeliveries_shrinks x l) as H4;
    destruct (deleteDeliveries x l) as [s4 [e|]] end; cbn [fst] in H4; [by etrans|].
  assert (shrinks s s4) as H5 by by etrans.
  destruct (AuthStore.RevokeAccount _ _ _) as [a [[m1 m2]|e]]; [|shrink_same].
  apply shrinks_reconcile, shrinks_audit. shrink_same.
Qed.

Lemma delete_shrinks s r : shrinks s (deleteRegistration W s r).1.
Proof.
  unfold deleteRegistration. pose proof (Delete_stored (store s) (PathValue r "installationID") (Header r "X-Device-Secret")) as Hsub.
  destruct (Delete (store s) _ _) as [st err]; cbn [fst] in Hsub.
  assert (shrinks s (s <| store := st |>)) as H1 by (split_and!; cbn; done).
  destruct err as [u|e]; [|by destruct e]. apply shrinks_reconcile, shrinks_audit. shrink_same.
Qed.

(** ** Registering *)

Lemma credential_stored log s now id secret credential :
  explained log (authStore s) →
  AuthStore.CredentialForInstallation (aead W) now (authStore s) id secret = Ok credential →
  ∃ r, AuthStore.Credentials (authStore s) !! C.ID credential = Some r ∧ CR.UserID r = C.UserID credential.
Proof.
  intros Hex. unfold AuthStore.CredentialForInstallation. destruct (range_find _ _) as [[k x]|]; [|done].
  destruct (AuthStore.Credentials _ !! _) as [r|] eqn:Hr; [|done]. pose proof (explained_keyed _ _ Hex _ _ Hr) as Hid. cbn in Hid.
  unfold AuthStore.openCredential. destruct (AuthStore.open _ _ _); [|done]. cbn. destruct (AuthStore.open _ _ _); [|done]. cbn.
  intros [= <-]. exists r. cbn. by rewrite Hid.
Qed.

Lemma moderated_call log s id :
  explained log (authStore s) → history W log → cacheSound log (moderatedCache s) (ticks s) →
  let '(s', answer) := oauthCall s (OAuth.moderatedChannelIDs E (pages W) id) in
  (ticks s ≤ ticks s')%nat ∧ cacheSound log (moderatedCache s') (ticks s') ∧
  ∀ ids r, answer = Ok ids → AuthStore.Credentials (authStore s) !! id = Some r → Forall (reported W (ticks s') (CR.UserID r)) ids.
Proof.
  intros Hex Hh Hc. unfold oauthCall.
  pose proof (moderated_spec log (pages W) id (OAuth.mkState (authStore s) (moderatedCache s) (ticks s)) Hex Hh Hc) as H.
  by destruct (OAuth.moderatedChannelIDs _ _ _ _).
Qed.

Lemma register_truthful log s :
  explained log (authStore s) → history W log → cacheSound log (moderatedCache s) (ticks s) → all_truthful W s.
Proof.
  intros Hex Hh Hc s0 now id secret credential (_ & Ha & Hm & Ht) Hcred. unfold truthful.
  destruct (credential_stored log s now id secret credential Hex Hcred) as (r & Hr & <-).
  pose proof (moderated_call log s0 (C.ID credential)) as H. rewrite Ha, Hm in H.
  destruct (oauthCall s0 _) as [s' answer]. destruct H as (? & _ & Hids); [done|done|by eapply cacheSound_later|].
  split; [done|]. intros ids Hids'. by apply (Hids ids r).
Qed.

Lemma register_cache log s r :
  explained log (authStore s) → history W log → cacheSound log (moderatedCache s) (ticks s) →
  cacheSound log (moderatedCache (upsertRegistration W s r).1) (ticks (upsertRegistration W s r).1).
Proof.
  intros Hex Hh Hc. unfold upsertRegistration. destruct (decodeRegistration W (Body r)) as [registration|]; [|done].
  destruct (negb _); [done|]. destruct (RegistrationInput.validateRegistration _ _); [done|].
  set (id := R.InstallationID _). set (secret := R.DeviceSecret _). pose proof (rateLimit_registry W s r id secret) as Hl.
  destruct (enforceInstallationRateLimit W s r id secret) as [s1 [resp|]]; cbn [fst] in Hl; destruct Hl as (_ & Ha & Hm & Ht).
  { cbn [fst]. rewrite Hm. by eapply cacheSound_later. }
  assert (∀ s0 x, cacheSound log (moderatedCache s0) (ticks s0) →
    cacheSound log (moderatedCache (saveRegistration W s0 x).1) (ticks (saveRegistration W s0 x).1)) as Hsave.
  { intros s0 x Hs0. unfold saveRegistration, Now. destruct (Upsert _ _) as [st [u|e]]; cbn [fst].
    - match goal with |- context [auditRecord W ?y ?record] => destruct (auditRecord_registry W y record) as (_ & _ & Hm1 & Ht1);
        destruct (reconcile_registry W (auditRecord W y record)) as (_ & _ & Hm2 & Ht2) end.
      rewrite Hm2, Hm1. eapply cacheSound_later; [done| |exact Hs0]. etrans; [|exact Ht2]. etrans; [|exact Ht1]. cbn. lia.
    - destruct e; (eapply cacheSound_later; [done| |exact Hs0]); cbn; lia. }
  assert (cacheSound log (moderatedCache (tick s1)) (ticks (tick s1))) as Hc1.
  { cbn. rewrite Hm. eapply cacheSound_later; [done| |exact Hc]. lia. }
  match goal with |- context [bindRegistration W s1 ?x] => generalize x end. intros x.
  unfold bindRegistration, Now. destruct (OAuth.AuthEnabled (cfg W)); cycle 1.
  { apply Hsave. rewrite Hm. by eapply cacheSound_later. }
  destruct (AuthStore.CredentialForInstallation _ _ _ _ _) as [credential|e]; cycle 1.
  { cbn [fst]. match goal with |- context [auditRecord W ?y ?record] => destruct (auditRecord_registry W y record) as (_ & _ & Hm1 & Ht1) end.
    rewrite Hm1. by eapply cacheSound_later. }
  unfold verifyModeration. pose proof (moderated_call log (tick s1) (C.ID credential)) as Hcall.
  destruct (oauthCall (tick s1) _) as [s2 answer]. destruct Hcall as (Ht2 & Hc2 & _); [cbn; by rewrite Ha|done|done|].
  destruct answer as [ids|e]; [by apply Hsave|]. apply Hsave.
  match goal with |- context [auditRecord W ?y ?record] => destruct (auditRecord_registry W y record) as (_ & _ & Hm1 & Ht1) end.
  rewrite Hm1. by eapply cacheSound_later.
Qed.

(** ** Executions *)

Definition trusted (x : server RS * list event) : Prop :=
  invariant W x ∧ cacheSound x.2 (moderatedCache x.1) (ticks x.1) ∧ registry_sound W x.1.

Lemma shrinks_trusted s s' log log' :
  (∀ e, e ∈ log → e ∈ log') → shrinks s s' → cacheSound log (moderatedCache s) (ticks s) ∧ registry_sound W s →
  cacheSound log' (moderatedCache s') (ticks s') ∧ registry_sound W s'.
Proof.
  intros Hlog (Hs & Hm & Ht) [Hc Hr]. split; [rewrite Hm; by eapply cacheSound_later|by eapply registry_sound_sub].
Qed.

Lemma step_trusted x y : step W x y → trusted x → trusted y.
Proof.
  intros Hstep [Hinv Hrest]. split; [by eapply step_explained|]. destruct Hinv as [Hex Hh].
  destruct Hstep as [r s log|r s log Hfresh|r s log|r s log|id force s log|r s log|r s log|r s log|r s log|r s log
    |r s log|s s' log Ha Hs Hm Ht]; cbn [fst snd] in *;
    lazymatch goal with
    | |- context [upsertRegistration W s r] =>
        destruct Hrest as [Hc Hr]; split; [by apply register_cache|];
        apply upsertRegistration_sound; [done|by eapply register_truthful]
    | _ => eapply shrinks_trusted; [|clear Hex Hh|exact Hrest]
    end; try (by intros ?); try (intros e He; apply elem_of_app; by right).
  - apply start_shrinks.
  - apply callback_shrinks.
  - apply complete_shrinks.
  - apply lease_shrinks.
  - apply oauthCall_shrinks, calm_lease.
  - apply logout_shrinks.
  - apply revokeDevice_shrinks.
  - apply revokeAll_shrinks.
  - apply delete_shrinks.
  - apply session_shrinks.
  - by apply same_shrinks.
Qed.

Lemma reachable_trusted (registrations : RS) s log :
  stored registrations = ∅ → rtc (step W) (New (cfg W) registrations, []) (s, log) → trusted (s, log).
Proof.
  intros Hempty Hsteps. assert (trusted (New (cfg W) registrations, [])) as H0.
  { split; [apply invariant_start|]. split; intros id r; cbn; [by rewrite lookup_empty|by rewrite Hempty, lookup_empty]. }
  induction Hsteps as [x|x y z Hstep _ IH]; [done|]. apply IH. by eapply step_trusted.
Qed.

(** C6: In every state the server can reach, whatever store implements the
    registration interface and whatever requests, Twitch answers, Twitch
    failures, logins and cached answers led there: a stored registration's
    moderated channels are among its channels, and each is named, but for the
    case of letters, on a page with which Twitch has answered a request for
    the channels that registration's user moderates, never taken from the
    request alone; its channel list is within the limits, and its per-channel
    settings are about listed channels. *)
Theorem moderator_channels_verified (registrations : RS) s log id r :
  stored registrations = ∅ →
  rtc (step W) (New (cfg W) registrations, []) (s, log) →
  stored (store s) !! id = Some r → sound W (ticks s) r.
Proof. intros Hempty Hsteps Hr. by apply (proj2 (proj2 (reachable_trusted registrations s log Hempty Hsteps)) id). Qed.

(** ** Privileged subscriptions *)

Definition privileged (eventType : string) : Prop :=
  eventType ∈ ["automod.message.hold"; "channel.moderate"; "channel.ban"].

Lemma privileged_role e :
  e ∈ DesiredProofs.catalogue → privileged (DesiredProofs.eventType e) →
  if decide (DesiredProofs.eventType e = "channel.ban") then DesiredProofs.needs e = DesiredProofs.Moderator
  else DesiredProofs.needs e = DesiredProofs.NamedModerator.
Proof.
  assert (Forall (λ e, privileged (DesiredProofs.eventType e) →
    if decide (DesiredProofs.eventType e = "channel.ban") then DesiredProofs.needs e = DesiredProofs.Moderator
    else DesiredProofs.needs e = DesiredProofs.NamedModerator) DesiredProofs.catalogue) as H;
    [|intros He Hp; exact (proj1 (Forall_forall _ _) H e He Hp)].
  unfold DesiredProofs.catalogue.
  repeat (apply Forall_cons; split; [intros Hp; first [vm_compute; reflexivity|exfalso; revert Hp; unfold privileged; cbn; set_solver]|]).
  by apply Forall_nil.
Qed.

(** C15: In every state the server can reach, a subscription the backend asks
    Twitch for that shows moderation is for a channel which Twitch itself has
    named among those moderated by the user of a registration.  For held
    messages and moderator actions it names that very user as the moderator;
    for bans, where Twitch's condition has no moderator, it names the channel
    alone.  A device cannot obtain moderation events by claiming a channel. *)
Theorem privileged_subscriptions_verified (config : Config) (registrations : RS) s log spec :
  stored registrations = ∅ →
  rtc (step W) (New (cfg W) registrations, []) (s, log) →
  spec ∈ Subs.desiredEventSubSubscriptions config (List (store s)) → privileged (Subs.Spec.Type_ spec) →
  ∃ r named channel, r ∈ List (store s) ∧ reported W (ticks s) (R.UserID r) named ∧ ToLower named = ToLower channel ∧
    Subs.Spec.Condition spec =
      if decide (Subs.Spec.Type_ spec = "channel.ban") then {["broadcaster_user_id" := channel]}
      else <["broadcaster_user_id" := channel]> {["moderator_user_id" := TrimSpace (R.UserID r)]}.
Proof.
  intros Hempty Hreach Hspec Hpriv. destruct (reachable_trusted registrations s log Hempty Hreach) as (_ & _ & Hsound).
  apply DesiredProofs.elem_of_desired, DesiredProofs.uniqueSpecs_lookup in Hspec as (_ & r & Hr & Hw).
  pose proof Hr as [id Hid]%List_stored. specialize (Hsound id r Hid).
  destruct Hw as (c & e & rule & _ & He & _ & _ & Hent & _ & ->). cbn [Subs.Spec.Type_ Subs.Spec.Condition DesiredProofs.specFor] in *.
  pose proof (privileged_role e He Hpriv) as Hrole.
  assert (TrimSpace c ∈ R.ModeratorChannelIDs r) as Hmod.
  { case_decide; rewrite Hrole in Hent; [done|by destruct Hent]. }
  destruct (sound_verified _ _ _ Hsound _ Hmod) as (named & Hnamed & Hl).
  exists r, named, (TrimSpace c). split_and!; [done..|]. unfold DesiredProofs.conditionFor.
  case_decide as Hban; rewrite Hrole; [|done]. by rewrite Hban.
Qed.
End Server.

(** ** A device registers after its login *)

Module Example.
Import LoginProofs.Example.

Definition request : R.t :=
  Registration.zero <| R.InstallationID := "phone" |> <| R.DeviceSecret := secret |> <| R.Provider := "embedded_socket" |>
    <| R.ChannelIDs := ["10"; "20"] |> <| R.ModeratorChannelIDs := ["20"; "10"] |>.
(** Twitch reports channel 10 only. *)
Definition world : World := LoginProofs.Example.world <| decodeRegistration := λ _, Ok request |>.
Definition put : httpRequest := mkRequest "PUT" "/v1/push/registrations/phone" (λ _, "phone") (λ _, "") (λ _, "") "" "".

Definition waiting : server RegistrationStore.t := (startMobileAuth world initial post).1.
Definition returned : server RegistrationStore.t := (twitchOAuthCallback world waiting callback).1.
Definition complete : server RegistrationStore.t := (completeMobileAuth world returned post).1.
Definition log1 : list event := started world initial post.
Definition log2 : list event := authorized world waiting callback ++ log1 ++ [].
Definition registered : server RegistrationStore.t := (upsertRegistration world complete put).1.
Definition saved : R.t :=
  withoutSecret (request <| R.Platform := "android" |> <| R.UserID := "42" |> <| R.UserLogin := "alice" |>
    <| R.ModeratorChannelIDs := ["10"] |> <| R.UpdatedAt := 1000 |>).

Lemma registered_run : rtc (step world) (New (cfg world) RegistrationStore.OpenStore, []) (registered, log2).
Proof.
  refine (rtc_l _ _ (waiting, log1 ++ []) _ (step_start world post initial []) _).
  refine (rtc_l _ _ (returned, log2) _ (step_callback world callback waiting (log1 ++ []) _) _).
  - intros k k' code code' n n' c c' _ Hin. exfalso. revert Hin. vm_compute. intros Hin. apply list_elem_of_singleton in Hin. discriminate.
  - refine (rtc_l _ _ (complete, log2) _ (step_complete world post returned log2) _).
    exact (rtc_once _ _ (step_register world put complete log2)).
Qed.
End Example.
Import LoginProofs.Example.
Import Example.

Lemma moderator_channels_verified_witness :
  stored (store registered) !! "phone" = Some saved ∧ R.ModeratorChannelIDs saved = ["10"] ∧
  ∃ id, reported Example.world (ticks registered) "42" id ∧ ToLower id = ToLower "10".
Proof.
  assert (stored (store registered) !! "phone" = Some saved) as Hget by (vm_compute; reflexivity).
  split; [exact Hget|]. split; [reflexivity|].
  pose proof (moderator_channels_verified Example.world RegistrationStore.OpenStore registered log2 "phone" saved eq_refl registered_run Hget) as Hs.
  exact (sound_verified _ _ _ Hs "10" ltac:(left)).
Defined.

Lemma privileged_subscriptions_verified_witness :
  let spec := DesiredProofs.specFor Config.zero (DesiredProofs.mkEntry "channel.moderate" "2" DesiredProofs.NamedModerator
                ["moderation_action"]) "42" "10" in
  Subs.desiredEventSubSubscriptions Config.zero (List (store registered)) !! 2%nat = Some spec ∧
  ∃ r named channel, r ∈ List (store registered) ∧ reported Example.world (ticks registered) (R.UserID r) named ∧ ToLower named = ToLower channel ∧
    Subs.Spec.Condition spec =
      if decide (Subs.Spec.Type_ spec = "channel.ban") then {["broadcaster_user_id" := channel]}
      else <["broadcaster_user_id" := channel]> {["moderator_user_id" := TrimSpace (R.UserID r)]}.
Proof.
  intros spec.
  assert (Subs.desiredEventSubSubscriptions Config.zero (List (store registered)) !! 2%nat = Some spec) as Hspec by (vm_compute; reflexivity).
  split; [exact Hspec|].
  refine (privileged_subscriptions_verified Example.world Config.zero RegistrationStore.OpenStore registered log2 spec
    eq_refl registered_run (list_elem_of_lookup_2 _ _ _ Hspec) _).
  right. left.
Defined.
End ModerationProofs.
