(* ===== verification/RevocationProofs.v ===== *)
(** * Leases and revocation: what the session endpoints promise

    A lease is of the session's account and ends in time; revoking all
    sessions leaves nothing of the account behind. *)

From S2P Require Import Prelude GoStrings NetIP Config Credentials Domain RegistrationStore SettingsSync AuditStore.
From S2P Require Import RateLimit DeliveryStore AuthStore AuthProofs AuthTheorems Subscriptions PushSocket RegistrationInput OAuth.
From S2P Require Import OAuthProofs Repositories Server SyncHandlers AuthHandlers LoginProofs.
#[local] Open Scope Z_scope.
#[local] Open Scope go_scope.

Module RevocationProofs.
Import Server AuthHandlers LoginProofs.
Module D := DeliveryStore.
Module DR := DeliveryRecord.

(** ** Sets of installations *)

Lemma addAll_spec (set : gmap string ()) ids i : is_Some (addAll set ids !! i) ↔ is_Some (set !! i) ∨ i ∈ ids.
Proof.
  unfold addAll. revert set. induction ids as [|id ids IH]; intros set; cbn [foldl].
  - split; [by left|]. by intros [?|?%elem_of_nil].
  - rewrite IH, elem_of_cons. destruct (decide (id = i)) as [->|Hne].
    + rewrite lookup_insert_eq. naive_solver.
    + rewrite lookup_insert_ne by done. naive_solver.
Qed.

Section Sets.
Context {rt : GoRuntime}.

Lemma elem_of_keys (set : gmap string ()) i : i ∈ (rangeMap set).*1 ↔ is_Some (set !! i).
Proof.
  rewrite list_elem_of_fmap. split.
  - intros ([k []] & -> & H%elem_of_rangeMap). eauto.
  - intros [[] H]. exists (i, ()). by rewrite elem_of_rangeMap.
Qed.

Lemma elem_of_sortedKeys (set : gmap string ()) i : i ∈ sortedKeys set ↔ is_Some (set !! i).
Proof. unfold sortedKeys. rewrite sortSlice_perm. apply elem_of_keys. Qed.
End Sets.

(** ** The account's installations *)

Section Targets.
Context {rt : GoRuntime} {sha : Sha256} (aead : option AEAD).
Implicit Types (a : AuthStore.t).

Lemma idSet_has_true (ids : AuthStore.idSet) i : AuthStore.idSet_has ids i = true ↔ is_Some (ids !! i).
Proof. apply bool_decide_eq_true. Qed.

(** The loop over the credentials succeeds when each can be opened. *)
Lemma credentials_loop userID (l : list (string * CR.t)) (acc : AuthStore.idSet * list C.t) :
  (∀ id r, (id, r) ∈ l → ∃ c, AuthStore.openCredential aead id r = Ok c) →
  ∃ found : AuthStore.idSet * list C.t,
    foldl (λ acc '(id, record),
        let? acc := acc in
        if CR.UserID record != userID then Ok acc else
        let? credential := AuthStore.openCredential aead id record in
        Ok (<[id := ()]> acc.1, acc.2 ++ [credential])) (Ok acc) l = Ok found ∧
    ∀ id, is_Some (found.1 !! id) ↔ is_Some (acc.1 !! id) ∨ ∃ r, (id, r) ∈ l ∧ CR.UserID r = userID.
Proof.
  revert acc. induction l as [|[id r] l IH]; intros acc Hopen.
  { exists acc. split; [done|]. intros i. split; [by left|]. intros [?|(? & ?%elem_of_nil & _)]; done. }
  cbn [foldl result_bind]. destruct (bool_decide_reflect (CR.UserID r = userID)) as [Hu|Hu]; cbn [negb].
  - destruct (Hopen id r) as [c Hc]; [by left|]. rewrite Hc. cbn [result_bind].
    destruct (IH (<[id := ()]> acc.1, acc.2 ++ [c])) as (found & Hf & Hspec).
    { intros i q Hin. apply Hopen. by right. }
    exists found. split; [exact Hf|]. intros i. rewrite Hspec. cbn [fst]. destruct (decide (id = i)) as [->|Hne].
    + rewrite lookup_insert_eq. split; [|eauto]. intros _. right. exists r. split; [by left|done].
    + rewrite lookup_insert_ne by done. setoid_rewrite elem_of_cons. naive_solver.
  - destruct (IH acc) as (found & Hf & Hspec); [intros i q Hin; apply Hopen; by right|].
    exists found. split; [exact Hf|]. intros i. rewrite Hspec. setoid_rewrite elem_of_cons. naive_solver.
Qed.

Lemma sessions_loop (ids : AuthStore.idSet) (l : list (string * Ses.t)) (acc : AuthStore.idSet) i :
  is_Some (foldl (λ acc '(_, session),
      if AuthStore.idSet_has ids (Ses.CredentialID session)
      then <[Ses.InstallationID session := ()]> acc else acc) acc l !! i) ↔
  is_Some (acc !! i) ∨ ∃ k x, (k, x) ∈ l ∧ is_Some (ids !! Ses.CredentialID x) ∧ Ses.InstallationID x = i.
Proof.
  revert acc. induction l as [|[k x] l IH]; intros acc; cbn [foldl].
  { split; [by left|]. intros [?|(? & ? & ?%elem_of_nil & _)]; done. }
  rewrite IH. setoid_rewrite elem_of_cons.
  destruct (AuthStore.idSet_has ids (Ses.CredentialID x)) eqn:Hid.
  - apply idSet_has_true in Hid. destruct (decide (Ses.InstallationID x = i)) as [<-|Hne].
    + rewrite lookup_insert_eq. naive_solver.
    + rewrite lookup_insert_ne by done. naive_solver.
  - apply Bool.not_true_iff_false in Hid. rewrite idSet_has_true in Hid. naive_solver.
Qed.

Lemma targets_spec a userID :
  AuthProofs.wf aead a → TrimSpace userID ≠ "" →
  ∃ ids credentials, AuthStore.AccountRevocationTargets aead a userID = Ok (ids, credentials) ∧
    ∀ i, i ∈ ids ↔ AuthProofs.signed_in a (TrimSpace userID) i.
Proof.
  intros (_ & _ & _ & _ & Hc & _) Hu. unfold AuthStore.AccountRevocationTargets. rewrite bool_decide_false by done.
  destruct (credentials_loop (TrimSpace userID) (rangeMap (AuthStore.Credentials a)) (∅, [])) as (found & Hf & Hspec).
  { intros id r Hr%elem_of_rangeMap. apply (Hc _ _ Hr). }
  rewrite Hf. cbn [result_bind]. destruct found as [ids credentials]. eexists _, _. split; [done|].
  intros i. rewrite sortSlice_perm, elem_of_keys, sessions_loop. cbn [fst] in Hspec. setoid_rewrite Hspec.
  unfold AuthProofs.signed_in, AuthProofs.owned. rewrite lookup_empty. split.
  - intros [[? ?]|(k & x & Hx%elem_of_rangeMap & [[? He]|(r & Hr%elem_of_rangeMap & ?)] & <-)]; [done| |].
    + by rewrite lookup_empty in He.
    + exists k, x. eauto.
  - intros (k & x & Hx & (r & Hr & ?) & <-). right. exists k, x. rewrite elem_of_rangeMap.
    split_and!; try done. right. exists r. by rewrite elem_of_rangeMap.
Qed.
End Targets.

(** ** Revoking an account *)

Section Revoke.
Context {RS : Type} `{!RegistrationRepository RS}.
Context {rt : GoRuntime} {sha : Sha256} {uni : Unicode}.
Implicit Types (s : server RS) (W : World).

(** The installations an account is known by when [inst] asks to revoke it. *)
Definition account_installation s (inst userID i : string) : Prop :=
  i = inst ∨ AuthProofs.signed_in (authStore s) userID i ∨
  ∃ reg, stored (store s) !! i = Some reg ∧ R.UserID reg = userID.

Lemma revokeTokens_frame W s credentials n :
  let s' := (revokeTokens W s credentials n).1 in
  authStore s' = authStore s ∧ store s' = store s ∧ deliveries s' = deliveries s ∧ hub s' = hub s.
Proof.
  cbn zeta. split; [apply revokeTokens_auth|]. revert s n. induction credentials as [|c l IH]; intros s n; [done|].
  cbn [revokeTokens]. unfold oauthCall. destruct (OAuth.revokeAccessToken _ _ _) as [o answer].
  match goal with |- context [revokeTokens W ?s1 l ?m] => destruct (IH s1 m) as (-> & -> & ->) end. done.
Qed.

Lemma DeleteForInstallation_spec (d : D.t) i :
  ∃ n, D.DeleteForInstallation d i =
    (d <| D.Records := range_delete (λ _ record, DR.InstallationID record == i) (D.Records d) |>, (n, None)).
Proof.
  unfold D.DeleteForInstallation.
  destruct (range_delete_count_spec (λ _ record, DR.InstallationID record == i) (D.Records d)) as [H1 _].
  destruct (range_delete_count _ _) as [m n]. cbn [fst] in H1. subst m. destruct (n =? 0); eauto.
Qed.

Lemma deleteDeliveries_spec s ids :
  let '(s', err) := deleteDeliveries s ids in
  err = None ∧ authStore s' = authStore s ∧ store s' = store s ∧ hub s' = hub s ∧
  ∀ k d, D.Records (deliveries s') !! k = Some d ↔
    D.Records (deliveries s) !! k = Some d ∧ DR.InstallationID d ∉ ids.
Proof.
  revert s. induction ids as [|i ids IH]; intros s; cbn [deleteDeliveries].
  { split_and!; try done. intros k d. rewrite elem_of_nil. naive_solver. }
  destruct (DeleteForInstallation_spec (deliveries s) i) as [n ->].
  match goal with |- context [deleteDeliveries ?s1 ids] => specialize (IH s1); destruct (deleteDeliveries s1 ids) as [s' err] end.
  destruct IH as (H1 & H2 & H3 & H4 & H5). split_and!; try done. intros k d. rewrite H5, not_elem_of_cons. cbn.
  rewrite range_delete_Some, bool_decide_eq_false. naive_solver.
Qed.

Lemma closeAll_spec (ids : list string) (h : PushSocket.PushHub) i c :
  PushSocket.connections h !! i = Some c → i ∈ ids ∨ c ∈ PushSocket.shut h →
  c ∈ PushSocket.shut (foldl PushSocket.Close h ids).
Proof.
  revert h. induction ids as [|j ids IH]; intros h Hc Hin; cbn [foldl].
  { by destruct Hin as [?%elem_of_nil|?]. }
  apply IH.
  - unfold PushSocket.Close. by case_match.
  - destruct Hin as [[<-|Hin]%elem_of_cons|Hin]; [|by left|]; right; unfold PushSocket.Close, PushSocket.close.
    + rewrite Hc. cbn. set_solver.
    + case_match; cbn; set_solver.
Qed.

(** The request names an account by its session, which may have expired. *)
Definition names_account W s (r : httpRequest) (userID : string) : Prop :=
  OAuth.AuthEnabled (cfg W) = true ∧ bearerToken r ≠ "" ∧ TrimSpace (Header r "X-Installation-ID") ≠ "" ∧
  TrimSpace (Header r "X-Device-Secret") ≠ "" ∧
  ∃ expired, AuthStore.SessionAccount (clock W (ticks s)) (authStore s) (bearerToken r)
    (TrimSpace (Header r "X-Installation-ID")) (TrimSpace (Header r "X-Device-Secret")) = Ok (userID, expired).

(** Nothing of the account is left in [s']. *)
Record account_gone s (inst userID : string) s' : Prop := {
  gone_registrations : ∀ id reg, stored (store s') !! id = Some reg → R.UserID reg ≠ userID;
  gone_sessions : ∀ k x, AuthStore.Sessions (authStore s') !! k = Some x ↔
    AuthStore.Sessions (authStore s) !! k = Some x ∧ ¬ AuthProofs.owned (authStore s) userID (Ses.CredentialID x);
  gone_credentials : ∀ id c, AuthStore.Credentials (authStore s') !! id = Some c → CR.UserID c ≠ userID;
  gone_handoffs : ∀ k h, AuthStore.Handoffs (authStore s') !! k = Some h →
    ¬ AuthProofs.owned (authStore s) userID (H.CredentialID h) ∧
    ¬ AuthProofs.signed_in (authStore s) userID (H.InstallationID h);
  gone_pending : ∀ k p, AuthStore.Pending (authStore s') !! k = Some p →
    ¬ AuthProofs.signed_in (authStore s) userID (P.InstallationID p);
  gone_deliveries : ∀ k d, D.Records (deliveries s') !! k = Some d →
    D.Records (deliveries s) !! k = Some d ∧ ¬ account_installation s inst userID (DR.InstallationID d);
  gone_connections : ∀ i c, account_installation s inst userID i →
    PushSocket.connections (hub s) !! i = Some c → c ∈ PushSocket.shut (hub s')
}.

Lemma finish_frame W s record :
  let s' := requestEventSubReconcile W (auditRecord W s record) in
  authStore s' = authStore s ∧ store s' = store s ∧ deliveries s' = deliveries s ∧ hub s' = hub s.
Proof. unfold requestEventSubReconcile, auditRecord. destruct (AuditStore.Append _ _ _ _). by destruct (negb _). Qed.

Lemma removeAccount_gone W s0 s inst userID set n m :
  TrimSpace userID = userID → userID ≠ "" →
  authStore s = authStore s0 → deliveries s = deliveries s0 → hub s = hub s0 →
  (∀ id reg, stored (store s) !! id = Some reg → R.UserID reg ≠ userID) →
  (∀ i, account_installation s0 inst userID i → is_Some (set !! i)) →
  let '(s', resp) := removeAccount W s inst userID set n m in
  resp = mkResponse 204 NoContent ∧ account_gone s0 inst userID s'.
Proof.
  intros Htrim Hu Ha Hd Hh Hreg Hset. unfold removeAccount.
  pose proof (deleteDeliveries_spec s (rangeMap set).*1) as Hdel.
  destruct (deleteDeliveries s (rangeMap set).*1) as [s1 err]. destruct Hdel as (-> & Ha1 & Hs1 & Hh1 & Hrec).
  destruct (AuthProofs.RevokeAccount_spec (authStore s1) userID (sortedKeys set)) as
    (a & n1 & n2 & -> & _ & Hses & Hcred & [_ Hhand] & [_ Hpend]); [by rewrite Htrim|].
  rewrite Htrim, Ha1, Ha in *. split; [done|].
  match goal with |- context [auditRecord W ?s2 ?rec] => destruct (finish_frame W s2 rec) as (Fa & Fs & Fd & Fh) end.
  split; rewrite ?Fa, ?Fs, ?Fd, ?Fh; cbn.
  - rewrite Hs1. exact Hreg.
  - exact Hses.
  - by intros id c (_ & ? & _)%Hcred.
  - by intros k h (? & ? & _)%Hhand.
  - by intros k p (? & _)%Hpend.
  - intros k d. rewrite Hrec, Hd, elem_of_keys. intros [? Hn]. split; [done|]. by intros ?%Hset.
  - intros i c Hi Hc. rewrite Hh1, Hh. apply (closeAll_spec _ _ i); [done|]. left.
    rewrite elem_of_sortedKeys. by apply Hset.
Qed.

Lemma accountTargets_spec W s userID :
  AuthProofs.wf (aead W) (authStore s) → TrimSpace userID ≠ "" →
  ∃ ids credentials, accountTargets W s userID = Ok (ids, credentials) ∧
    ∀ i, i ∈ ids ↔ AuthProofs.signed_in (authStore s) (TrimSpace userID) i.
Proof.
  intros Hwf Hu. destruct (targets_spec (aead W) (authStore s) userID Hwf Hu) as (ids & cs & Ht & Hin).
  exists ids, cs. split; [|exact Hin]. unfold accountTargets. by rewrite Ht.
Qed.

(** C12.  Revoking all sessions leaves nothing of the account.  When a
    request names an account by a session, even an expired one, then, unless
    the registration store fails, the answer is 204 and afterwards: no
    registration and no credential of the account is stored; exactly its
    sessions are gone; no login in progress and no handoff of its
    installations is left; no notification waits for one of its installations
    (the signed-in ones, the registered ones and the one that asked), and
    their push connections are closed.  Whether Twitch confirmed the
    revocation of the tokens plays no role. *)
Theorem revoke_all_leaves_nothing W s r userID s' resp :
  rtc (AuthProofs.step (aead W)) AuthStore.empty (authStore s) →
  names_account W s r userID → TrimSpace userID = userID →
  revokeAllMobileSessions W s r = (s', resp) →
  (∃ ids e, (DeleteForAccount (store s) userID ids).2 = Err e ∧
     resp = writeError 500 "failed to delete account registrations") ∨
  resp = mkResponse 204 NoContent ∧ account_gone s (TrimSpace (Header r "X-Installation-ID")) userID s'.
Proof.
  intros Hwf%AuthProofs.auth_reachable_wf (Hen & Ht & Hi & Hs & expired & Hacc) Htrim.
  unfold revokeAllMobileSessions, requireAuthBroker. rewrite Hen, !bool_decide_false by done. cbn [orb].
  set (inst := TrimSpace (Header r "X-Installation-ID")) in *. unfold revocationAccount, Now.
  change (authStore (tick s)) with (authStore s). rewrite Hacc.
  assert (userID ≠ "") as Hu.
  { intros ->. unfold AuthStore.SessionAccount in Hacc. destruct (AuthStore.Sessions _ !! _); [|done].
    destruct (_ || _); [done|]. destruct (AuthStore.Credentials _ !! _) as [c|]; [|done].
    case_bool_decide as Hb; [done|]. injection Hacc as Heq _. apply Hb. rewrite Heq. reflexivity. }
  rewrite bool_decide_false by done.
  destruct (accountTargets_spec W (tick s) userID) as (targets & cs & -> & Htargets); [done|congruence|].
  pose proof (revokeTokens_frame W (tick s) cs 0) as Hf. cbv zeta in Hf.
  destruct (revokeTokens W (tick s) cs 0) as [s1 n]. cbn [fst] in Hf. destruct Hf as (Ha & Hst & Hd & Hh).
  set (ids0 := addAll _ targets). set (ids1 := addAll ids0 _). rewrite Hst. change (store (tick s)) with (store s).
  destruct (DeleteForAccount (store s) userID (sortedKeys ids1)) as [stored [removed|e]] eqn:Hdel; cycle 1.
  { intros [= <- <-]. left. exists (sortedKeys ids1), e. split; [by rewrite Hdel|done]. }
  intros Hres. right.
  match type of Hres with removeAccount W ?s2 _ _ ?set ?n1 ?n2 = _ =>
    pose proof (removeAccount_gone W s s2 inst userID set n1 n2 Htrim Hu Ha Hd Hh) as Hgone end.
  rewrite Hres in Hgone. apply Hgone.
  - intros id reg Hg Huser. pose proof (DeleteForAccount_stored (store s) userID (sortedKeys ids1)) as Hsub.
    rewrite Hdel in Hsub. cbn [fst] in Hsub. cbn in Hg.
    destruct (DeleteForAccount_user _ _ _ _ _ id reg Hdel) as [Hnone _]; [congruence| |congruence|congruence].
    by eapply lookup_weaken.
  - intros i Hin. apply addAll_spec. destruct Hin as [->|[Hin|(reg & Hg & Hru)]].
    + left. apply addAll_spec. left. apply addAll_spec. left. rewrite lookup_singleton_eq. eauto.
    + left. apply addAll_spec. left. apply addAll_spec. right. apply Htargets. by rewrite Htrim.
    + right. apply (DeleteForAccount_user _ _ _ _ _ i reg Hdel); congruence.
Qed.

(** ** Leases *)

(** C4.  What a device is leased.  When the lease endpoint answers 200,
    the request carried the token of a session that had not expired, with the
    installation and the device secret of that session; the token handed out
    is that of the session's account, as it is stored when the request is
    over; the lease ends with the configured time and never after the token
    itself, and the time of the last validation is not in the future. *)
Theorem lease_is_own_account W s r s' lease :
  (∀ i, rand_ok (random W i)) →
  rtc (AuthProofs.step (aead W)) AuthStore.empty (authStore s) →
  leaseMobileToken W s r = (s', mkResponse 200 (JLease lease)) →
  ∃ x c0 c, AuthStore.Sessions (authStore s) !! Memory.hashSecret (bearerToken r) = Some x ∧
    Ses.InstallationID x = TrimSpace (Header r "X-Installation-ID") ∧
    Ses.DeviceHash x = Memory.hashSecret (TrimSpace (Header r "X-Device-Secret")) ∧
    clock W (ticks s) ≤ Ses.ExpiresAt x ∧
    AuthStore.GetCredential (aead W) (authStore s) (Ses.CredentialID x) = Ok c0 ∧
    AuthStore.GetCredential (aead W) (authStore s') (Ses.CredentialID x) = Ok c ∧
    LeaseUserID lease = C.UserID c0 ∧ AccessToken lease = C.AccessToken c ∧
    TwitchExpiresAt lease = C.AccessExpiresAt c ∧
    LeaseExpiresAt lease ≤ ServerTime lease + AuthLeaseTTL (cfg W) ∧
    LeaseExpiresAt lease ≤ TwitchExpiresAt lease ∧ TwitchValidatedAt lease ≤ ServerTime lease.
Proof.
  intros Hrand Hwf%AuthProofs.auth_reachable_wf. unfold leaseMobileToken, SyncHandlers.authorizeMobileSession, Now.
  destruct (requireAuthBroker W) eqn:Hbr; [unfold requireAuthBroker in Hbr; case_match; [done|by simplify_eq]|].
  destruct (_ || _); [done|]. set (inst := TrimSpace _). set (secret := TrimSpace (Header r "X-Device-Secret")).
  change (authStore (tick s)) with (authStore s).
  pose proof (AuthProofs.resolveSession_wf (aead W) (clock W (ticks s)) (authStore s) (bearerToken r) inst secret
    (AuthSessionTTL (cfg W)) Hwf) as Hwf1.
  destruct (AuthStore.ResolveSession _ _ _ _ _ _) as [a [session|e]] eqn:Hres; cbn [fst] in Hwf1; cycle 1.
  { intros [= _ Hw]. by destruct e. }
  apply SyncHandlers.ResolveSession_ok in Hres as (Hcreds & x & Hx & Hi & Hd & Hexp & Hcid & _).
  unfold oauthCall, mobileLease, Now. set (o := OAuth.mkState _ _ _).
  destruct (OAuth.lease (oauthEnv W) _ _ o) as [o' [c|e]] eqn:Hl; cycle 1.
  { intros [= _ Hw]. by destruct e. }
  apply (OAuthProofs.lease_spec (oauthEnv W) Hrand) in Hl; [|exact Hwf1].
  destruct Hl as (c0 & Hget & Hid & (_ & Hstored & _) & Hout).
  intros [= <- <-]. exists x, c0, c. cbn. rewrite Hid, Hcid in Hstored.
  assert (C.UserID c = C.UserID c0) as Hu by (destruct Hout as [(_ & ? & _)|(-> & _)]; done).
  split_and!; try done.
  - unfold AuthStore.GetCredential in *. cbn in Hget. by rewrite Hcid, Hcreds in Hget.
  - unfold Before, Add. case_match; lia.
  - unfold Before, Add. case_match; lia.
  - unfold IsZero, After, Add, Minute, Second. repeat case_match; lia.
Qed.
End Revoke.

(** ** Concrete requests *)

Module Example.
Import LoginProofs.Example.

Definition request : httpRequest :=
  mkRequest "POST" "/" (λ _, "") (λ _, "")
    (λ name, if name == "Authorization" then "Bearer " +:+ AuthTheorems.example_token else
             if name == "X-Installation-ID" then "phone" else
             if name == "X-Device-Secret" then "secret" else "") "" "".

(** The account 42 on a phone, with a tablet registered too. *)
Definition tablet : R.t :=
  Registration.zero <| R.InstallationID := "tablet" |> <| R.DeviceSecret := secret |> <| R.UserID := "42" |>.
Definition account : server RegistrationStore.t :=
  initial <| authStore := AuthTheorems.with_session |>
    <| store := (RegistrationStore.Upsert RegistrationStore.OpenStore tablet).1 |>.

Definition put : AuthProofs.op := AuthProofs.OpPutCredential (λ _, zero_rand) AuthTheorems.example_credential.
Definition open_ : AuthProofs.op := AuthProofs.OpCreateSession zero_rand 1000 "cred" "phone" "secret" Hour.
Lemma account_reachable : rtc (AuthProofs.step (Some toy_aead)) AuthStore.empty (authStore account).
Proof.
  refine (rtc_l _ _ AuthTheorems.with_credential _
    (AuthProofs.step_exec (Some toy_aead) AuthStore.empty reference_runtime put (λ _, zero_rand_ok)) _).
  exact (rtc_once _ _ (AuthProofs.step_exec (Some toy_aead) AuthTheorems.with_credential reference_runtime open_ I)).
Defined.
End Example.
Import LoginProofs.Example Example.

Lemma revoke_all_leaves_nothing_witness :
  stored (store account) !! "tablet" = Some (withoutSecret tablet) ∧
  account_gone account "phone" "42" (revokeAllMobileSessions world account request).1.
Proof.
  split; [vm_compute; reflexivity|].
  destruct (revoke_all_leaves_nothing world account request "42"
    (revokeAllMobileSessions world account request).1 (revokeAllMobileSessions world account request).2)
    as [(ids & e & Hbad & _)|[_ Hgone]].
  - exact account_reachable.
  - split; [vm_compute; reflexivity|]. split; [vm_compute; discriminate|]. split; [vm_compute; discriminate|].
    split; [vm_compute; discriminate|]. exists false. vm_compute. reflexivity.
  - vm_compute. reflexivity.
  - destruct (revokeAllMobileSessions world account request). reflexivity.
  - exfalso. cbn in Hbad. rewrite RegistrationStore.DeleteForAccount_eq in Hbad. discriminate.
  - exact Hgone.
Defined.

Lemma lease_is_own_account_witness :
  ∃ lease, (leaseMobileToken world account request).2 = mkResponse 200 (JLease lease) ∧
    LeaseUserID lease = "42" ∧ LeaseExpiresAt lease ≤ ServerTime lease + Minute.
Proof.
  eexists. assert ((leaseMobileToken world account request).2 = mkResponse 200 (JLease
    (mkLease "access" 1000 "client" "42" "alice" [] (1000 + Minute) (1000 + 3600 * Second) 1000 (1000 + Hour)))) as Hl
    by (vm_compute; reflexivity).
  split; [exact Hl|]. split; [reflexivity|].
  refine (match lease_is_own_account world account request (leaseMobileToken world account request).1 _
    (λ _, zero_rand_ok) account_reachable _ with
    | ex_intro _ x (ex_intro _ c0 (ex_intro _ c H)) => _ end).
  - rewrite <-Hl. destruct (leaseMobileToken world account request). reflexivity.
  - apply H.
Defined.

End RevocationProofs.
