(* ===== verification/Outbound.v ===== *)
(** * Outbound address policy: [internal/security/outbound.go]

    The backend posts to URLs that devices register.  The client made here
    resolves names itself, refuses every address that is not public, dials
    the very address it has checked, and checks each redirect. *)

From S2P Require Import Prelude GoStrings NetIP.
#[local] Open Scope Z_scope.
#[local] Open Scope go_scope.

Module Outbound.
Import NetIP NetURL.

(** ** Public addresses *)

Definition disallowedPublicEndpointPrefixes : list Prefix :=
  omap ParsePrefix
    ["0.0.0.0/8"; "100.64.0.0/10"; "192.0.0.0/24"; "192.0.2.0/24"; "198.18.0.0/15"; "198.51.100.0/24";
     "203.0.113.0/24"; "240.0.0.0/4"; "64:ff9b::/96"; "64:ff9b:1::/48"; "2001::/32"; "2001:db8::/32";
     "2002::/16"; "fec0::/10"].

Definition isPublicOutboundAddr (address : Addr) : bool :=
  if negb (IsValid address) || (Zone address != "") || negb (IsGlobalUnicast address) || IsPrivate address ||
     IsLoopback address || IsLinkLocalUnicast address || IsMulticast address || IsUnspecified address
  then false
  else negb (existsb (λ prefix, PrefixContains prefix address) disallowedPublicEndpointPrefixes).

Definition minDuration (left right : duration) : duration := if left <? right then left else right.

(** ** URLs *)

Section Client.
(** [url.Parse], [LookupNetIP] and the dialer, which are outside. *)
Context {Conn : Type} (Parse : string → option URL) (LookupNetIP : string → result (list Addr))
  (dial : string → string → result Conn).

Definition ValidatePublicHTTPSURL (raw : string) : option error :=
  match Parse (TrimSpace raw) with
  | None => Some (ErrMsg "URL must be absolute HTTPS")
  | Some parsed =>
      if (Scheme parsed != "https") || (Host parsed == "") then Some (ErrMsg "URL must be absolute HTTPS") else
      if HasUser parsed || (Fragment parsed != "")
      then Some (ErrMsg "URL must not contain credentials or a fragment") else
      let host := TrimSpace (Hostname parsed) in
      if host == "" then Some (ErrMsg "URL host is required") else
      match ParseAddr host with
      | Some address =>
          if negb (isPublicOutboundAddr (Unmap address)) then Some (ErrMsg "URL host is not a public address") else None
      | None => None
      end
  end.

(** ** Resolution and dialling *)

(** The loop over the resolved addresses: the first that is not public
    refuses them all. *)
Fixpoint publicAddrs (addresses result : list Addr) : Prelude.result (list Addr) :=
  match addresses with
  | [] => Ok result
  | address :: addresses =>
      let address := Unmap address in
      if negb (isPublicOutboundAddr address)
      then Err (ErrMsg ("outbound host resolved to disallowed address " +:+ AddrString address))
      else publicAddrs addresses (result ++ [address])
  end.

Definition resolvePublicOutboundAddrs (host : string) : result (list Addr) :=
  let host := TrimChars ["["%char; "]"%char] (TrimSpace host) in
  match ParseAddr host with
  | Some address =>
      let address := Unmap address in
      if negb (isPublicOutboundAddr address) then Err (ErrMsg "outbound address is not public") else Ok [address]
  | None =>
      match LookupNetIP host with
      | Err err => Err (ErrMsg ("resolve outbound host: " +:+ Error err))
      | Ok addresses =>
          if Z.of_nat (length addresses) =? 0 then Err (ErrMsg "outbound host did not resolve")
          else publicAddrs addresses []
      end
  end.

(** The loop of [DialContext]; the first component lists the addresses that
    were dialled. *)
Fixpoint dialLoop (network port : string) (candidates : list Addr) (lastErr : option error)
    : list Addr * result Conn :=
  match candidates with
  | [] =>
      ([], Err match lastErr with
               | Some lastErr => lastErr
               | None => ErrMsg "no compatible public address was resolved"
               end)
  | candidate :: candidates =>
      if HasSuffix network "4" && negb (Is4 candidate) then dialLoop network port candidates lastErr else
      if HasSuffix network "6" && negb (Is6 candidate) then dialLoop network port candidates lastErr else
      match dial network (JoinHostPort (AddrString candidate) port) with
      | Ok connection => ([candidate], Ok connection)
      | Err dialErr =>
          let '(dialled, answer) := dialLoop network port candidates (Some dialErr) in
          (candidate :: dialled, answer)
      end
  end.

Definition DialContext (network address : string) : list Addr * result Conn :=
  match SplitHostAndPort address with
  | None => ([], Err (ErrMsg "split outbound address"))
  | Some (host, port) =>
      match resolvePublicOutboundAddrs host with
      | Err err => ([], Err err)
      | Ok candidates => dialLoop network port candidates None
      end
  end.

(** ** Redirects *)

(** [via] is the number of requests made so far. *)
Definition CheckRedirect (target : string) (via : nat) : option error :=
  if (3 <=? Z.of_nat via) then Some (ErrMsg "too many outbound redirects") else
  match ValidatePublicHTTPSURL target with
  | Some err => Some (ErrMsg ("redirect target rejected: " +:+ Error err))
  | None => None
  end.

(** The URLs [http.Client] requests, starting from [url]: [answer] gives the
    target when the answer to a request is a redirect, and the client follows
    it when [CheckRedirect] agrees. *)
Fixpoint requests (turns : nat) (answer : nat → string → option string) (via : nat) (url : string) : list string :=
  match turns with
  | O => []
  | S turns =>
      url :: match answer via url with
             | Some target =>
                 match CheckRedirect target (S via) with
                 | None => requests turns answer (S via) target
                 | Some _ => []
                 end
             | None => []
             end
  end.

End Client.
End Outbound.
