(* ===== verification/OutboundProofs.v ===== *)
(** * Outbound address policy: theorems

    Exactly which addresses are public, and that nothing else is dialled. *)

From S2P Require Import Prelude GoStrings NetIP Outbound.
#[local] Open Scope Z_scope.
#[local] Open Scope go_scope.
#[local] Ltac Zify.zify_post_hook ::= Z.to_euclidean_division_equations.

Module OutboundProofs.
Import NetIP NetURL Outbound.

(** ** Ranges *)

(** The first and the last address of a block. *)
Definition cidr4 (a b c d bits : Z) : Z * Z :=
  let first := a * 2 ^ 24 + b * 2 ^ 16 + c * 2 ^ 8 + d in (first, first + 2 ^ (32 - bits) - 1).
Definition cidr6 (g0 g1 g2 bits : Z) : Z * Z :=
  let first := g0 * 2 ^ 112 + g1 * 2 ^ 96 + g2 * 2 ^ 80 in (first, first + 2 ^ (128 - bits) - 1).
Definition within (v : Z) (r : Z * Z) : Prop := r.1 ≤ v ≤ r.2.

(** Everything special-purpose: this network, private use, carrier NAT,
    loopback, link-local, protocol assignments, documentation, benchmarking,
    multicast and reserved. *)
Definition special4 : list (Z * Z) :=
  [cidr4 0 0 0 0 8; cidr4 10 0 0 0 8; cidr4 100 64 0 0 10; cidr4 127 0 0 0 8; cidr4 169 254 0 0 16;
   cidr4 172 16 0 0 12; cidr4 192 0 0 0 24; cidr4 192 0 2 0 24; cidr4 192 168 0 0 16; cidr4 198 18 0 0 15;
   cidr4 198 51 100 0 24; cidr4 203 0 113 0 24; cidr4 224 0 0 0 4; cidr4 240 0 0 0 4].

(** Unspecified, loopback, NAT64, Teredo, documentation, 6to4, unique local,
    link-local, site-local and multicast. *)
Definition special6 : list (Z * Z) :=
  [(0, 0); (1, 1); cidr6 0x64 0xff9b 0 96; cidr6 0x64 0xff9b 1 48; cidr6 0x2001 0 0 32; cidr6 0x2001 0xdb8 0 32;
   cidr6 0x2002 0 0 16; cidr6 0xfc00 0 0 7; cidr6 0xfe80 0 0 10; cidr6 0xfec0 0 0 10; cidr6 0xff00 0 0 8].

(** An address as the parsers give it. *)
Definition in_range (ip : Addr) : Prop :=
  match ip with Zero => True | V4 v => 0 ≤ v < 2 ^ 32 | V6 v _ => 0 ≤ v < 2 ^ 128 end.

(** ** Bits and intervals *)

Lemma land_high x n k : 0 ≤ k → Z.land x (Z.ldiff (Z.ones n) (Z.ones k)) = Z.shiftl (Z.shiftr (Z.land x (Z.ones n)) k) k.
Proof.
  intros Hk. rewrite <-Z.ldiff_ones_r by done. apply Z.bits_inj. intros i.
  by rewrite Z.land_spec, !Z.ldiff_spec, Z.land_spec, andb_assoc.
Qed.

Lemma v4byte_0 v : 0 ≤ v < 2 ^ 32 → v4byte v 0 = v / 2 ^ 24.
Proof.
  intros Hv. unfold v4byte. change 255 with (Z.ones 8). rewrite Z.land_ones, Z.shiftr_div_pow2 by done.
  change (2 ^ (8 * (3 - 0))) with (2 ^ 24). apply Z.mod_small.
  split; [apply Z.div_pos; lia|apply Z.div_lt_upper_bound; lia].
Qed.

Lemma v4byte_1 v : v4byte v 1 = v / 2 ^ 16 mod 2 ^ 8.
Proof. unfold v4byte. change 255 with (Z.ones 8). by rewrite Z.land_ones, Z.shiftr_div_pow2. Qed.

Lemma high_4 x : 0 ≤ x < 2 ^ 8 → Z.land x 240 = x / 16 * 16.
Proof.
  intros Hx. change 240 with (Z.ldiff (Z.ones 8) (Z.ones 4)). rewrite land_high, Z.land_ones by done.
  rewrite Z.shiftl_mul_pow2, Z.shiftr_div_pow2, Z.mod_small by done. done.
Qed.

Lemma top_bits v p k : 0 ≤ k → (Z.shiftr (Z.lxor v p) k =? 0) = (v / 2 ^ k =? p / 2 ^ k).
Proof.
  intros Hk. rewrite Z.shiftr_lxor, !Z.shiftr_div_pow2 by done.
  destruct (Z.eqb_spec (v / 2 ^ k) (p / 2 ^ k)) as [->|Hne]; [by rewrite Z.lxor_nilpotent|].
  apply Z.eqb_neq. by rewrite Z.lxor_eq_0_iff.
Qed.

(** ** The list of prefixes *)

Lemma valid_prefix ip b : Zone ip = "" → IsValid ip = true ∧ 0 ≤ b ≤ BitLen ip → PrefixIsValid (mkPrefix ip b) = true.
Proof.
  intros Hz [Hv Hb]. unfold PrefixIsValid. cbn [PrefixAddr Bits]. rewrite Hv, Hz, bool_decide_true by done. lia.
Qed.

Lemma contains_44 p b v : 0 ≤ b ≤ 32 → PrefixContains (mkPrefix (V4 p) b) (V4 v) = (v / 2 ^ (32 - b) =? p / 2 ^ (32 - b)).
Proof.
  intros Hb. unfold PrefixContains. rewrite valid_prefix; [|done|cbn; lia]. apply top_bits. lia.
Qed.

Lemma contains_66 p b v :
  0 ≤ b ≤ 128 → PrefixContains (mkPrefix (V6 p "") b) (V6 v "") = (v / 2 ^ (128 - b) =? p / 2 ^ (128 - b)).
Proof.
  intros Hb. unfold PrefixContains. rewrite valid_prefix; [|done|cbn; lia]. apply top_bits. lia.
Qed.

Lemma contains_64 p b v : PrefixContains (mkPrefix (V6 p "") b) (V4 v) = false.
Proof. unfold PrefixContains. by destruct (negb _ || _). Qed.
Lemma contains_46 p b v : PrefixContains (mkPrefix (V4 p) b) (V6 v "") = false.
Proof. unfold PrefixContains. by destruct (negb _ || _). Qed.

(** The parsed list. *)
Definition prefix4 (a b c d bits : Z) : Prefix := mkPrefix (V4 (cidr4 a b c d bits).1) bits.
Definition prefix6 (g0 g1 g2 bits : Z) : Prefix := mkPrefix (V6 (cidr6 g0 g1 g2 bits).1 "") bits.
Lemma prefixes_eq :
  disallowedPublicEndpointPrefixes =
  [prefix4 0 0 0 0 8; prefix4 100 64 0 0 10; prefix4 192 0 0 0 24; prefix4 192 0 2 0 24; prefix4 198 18 0 0 15;
   prefix4 198 51 100 0 24; prefix4 203 0 113 0 24; prefix4 240 0 0 0 4; prefix6 0x64 0xff9b 0 96;
   prefix6 0x64 0xff9b 1 48; prefix6 0x2001 0 0 32; prefix6 0x2001 0xdb8 0 32; prefix6 0x2002 0 0 16;
   prefix6 0xfec0 0 0 10].
Proof. vm_compute. reflexivity. Qed.

Lemma refuse_if (b c : bool) : (if b then false else negb c) = true ↔ b = false ∧ c = false.
Proof. destruct b, c; naive_solver. Qed.
Lemma negb_guard (b c : bool) : negb (if b then false else c) = b || negb c.
Proof. by destruct b, c. Qed.

(** [within], decided. *)
Definition inside (v : Z) (r : Z * Z) : bool := (r.1 <=? v) && (v <=? r.2).
Lemma inside_false v r : inside v r = false ↔ ¬ within v r.
Proof. unfold inside, within. lia. Qed.

(** A test of the leading bits is a test for a block. *)
Lemma block v p k : 0 ≤ k → p mod 2 ^ k = 0 → (v / 2 ^ k =? p / 2 ^ k) = inside v (p, p + 2 ^ k - 1).
Proof.
  intros Hk Hp. assert (0 < 2 ^ k) as Hpos by (apply Z.pow_pos_nonneg; lia).
  pose proof (Z.div_mod p (2 ^ k)) as Hd. rewrite Hp in Hd. unfold inside. cbn [fst snd].
  set (m := 2 ^ k) in *. set (q := p / m) in *.
  pose proof (Z.div_mod v m) as Hv. pose proof (Z.mod_pos_bound v m Hpos) as Hr.
  destruct (Z.eqb_spec (v / m) q) as [Heq|Hne]; nia.
Qed.

Lemma contains_cidr4 a b c d bits v :
  0 ≤ bits ≤ 32 → (cidr4 a b c d bits).1 mod 2 ^ (32 - bits) = 0 →
  PrefixContains (prefix4 a b c d bits) (V4 v) = inside v (cidr4 a b c d bits).
Proof. intros Hb Hm. unfold prefix4. rewrite contains_44, block; [done|lia|done..]. Qed.

Lemma contains_cidr6 g0 g1 g2 bits v :
  0 ≤ bits ≤ 128 → (cidr6 g0 g1 g2 bits).1 mod 2 ^ (128 - bits) = 0 →
  PrefixContains (prefix6 g0 g1 g2 bits) (V6 v "") = inside v (cidr6 g0 g1 g2 bits).
Proof. intros Hb Hm. unfold prefix6. rewrite contains_66, block; [done|lia|done..]. Qed.

(** ** IPv4 *)

Lemma byte_0 v a : 0 ≤ v < 2 ^ 32 → (v4byte v 0 =? a) = inside v (cidr4 a 0 0 0 8).
Proof.
  intros Hv. rewrite v4byte_0 by done. unfold inside, cidr4. cbn [fst snd].
  change (2 ^ (32 - 8)) with 16777216. change (2 ^ 24) with 16777216.
  destruct (Z.eqb_spec (v / 16777216) a); lia.
Qed.

Lemma v_24 v : v / 2 ^ 24 = v / 2 ^ 16 / 2 ^ 8.
Proof. by rewrite Z.div_div. Qed.

Lemma bytes_01 v a b :
  0 ≤ v < 2 ^ 32 → 0 ≤ b < 2 ^ 8 → (v4byte v 0 =? a) && (v4byte v 1 =? b) = inside v (cidr4 a b 0 0 16).
Proof.
  intros Hv Hb. rewrite v4byte_0, v4byte_1 by done. rewrite v_24. unfold inside, cidr4. cbn [fst snd].
  change (2 ^ (32 - 16)) with 65536. change (2 ^ 16) with 65536. change (2 ^ 8) with 256 in *. change (2 ^ 24) with 16777216.
  destruct (Z.eqb_spec (v / 65536 / 256) a), (Z.eqb_spec ((v / 65536) mod 256) b); lia.
Qed.

Lemma private_172 v :
  0 ≤ v < 2 ^ 32 → (v4byte v 0 =? 172) && (Z.land (v4byte v 1) 240 =? 16) = inside v (cidr4 172 16 0 0 12).
Proof.
  intros Hv. rewrite v4byte_0, v4byte_1 by done. rewrite high_4 by (apply Z.mod_pos_bound; lia). rewrite v_24.
  unfold inside, cidr4. cbn [fst snd]. change (2 ^ (32 - 12)) with 1048576. change (2 ^ 16) with 65536.
  change (2 ^ 8) with 256 in *. change (2 ^ 24) with 16777216.
  destruct (Z.eqb_spec (v / 65536 / 256) 172), (Z.eqb_spec ((v / 65536) mod 256 / 16 * 16) 16); lia.
Qed.

Lemma multicast4 v : 0 ≤ v < 2 ^ 32 → (Z.land (v4byte v 0) 240 =? 224) = inside v (cidr4 224 0 0 0 4).
Proof.
  intros Hv. rewrite v4byte_0 by done. rewrite high_4 by (split; [apply Z.div_pos; lia|apply Z.div_lt_upper_bound; lia]).
  unfold inside, cidr4. cbn [fst snd]. change (2 ^ (32 - 4)) with 268435456. change (2 ^ 24) with 16777216.
  destruct (Z.eqb_spec (v / 16777216 / 16 * 16) 224); lia.
Qed.

Lemma V4_eqb v w : bool_decide (V4 v = V4 w) = (v =? w).
Proof. case_bool_decide as H; [injection H as ->; by rewrite Z.eqb_refl|]. symmetry. apply Z.eqb_neq. congruence. Qed.

Lemma special4_exact v :
  0 ≤ v < 2 ^ 32 → isPublicOutboundAddr (V4 v) = true ↔ Forall (λ r, ¬ within v r) special4.
Proof.
  intros Hv. unfold isPublicOutboundAddr. rewrite refuse_if, prefixes_eq.
  cbn [existsb]. rewrite !contains_cidr4 by (lia || reflexivity). unfold prefix6. rewrite !contains_64.
  unfold IsGlobalUnicast, IsPrivate, IsLoopback, IsLinkLocalUnicast, IsMulticast, IsUnspecified, IsLoopback.
  cbn [IsValid Zone Is4 Unmap negb orb andb].
  rewrite !bytes_01, private_172, multicast4, !byte_0, !V4_eqb by lia.
  rewrite (bool_decide_false (V4 v = V6 0 "")) by done.
  rewrite negb_guard, !negb_andb, !negb_involutive. cbn [negb orb]. rewrite !orb_false_iff.
  unfold special4. rewrite !Forall_cons, <-!inside_false.
  assert (inside v (cidr4 0 0 0 0 8) = false → v =? 0 = false) as H0 by (unfold inside, cidr4; cbn [fst snd]; lia).
  assert (inside v (cidr4 240 0 0 0 4) = false → v =? Z.ones 32 = false) as H1
    by (unfold inside, cidr4; cbn [fst snd]; change (Z.ones 32) with (2 ^ 32 - 1); lia).
  split; intros; destruct_and?; split_and?; auto.
Qed.

(** ** IPv6 *)

(** Leading bits, the mask applied to the top [n] bits, are a block. *)
Lemma masked_block v n k p :
  0 ≤ n ≤ 128 → 0 ≤ k ≤ n → 0 ≤ v < 2 ^ 128 →
  (Z.land (Z.shiftr v (128 - n)) (Z.ldiff (Z.ones n) (Z.ones k)) =? p * 2 ^ k) =
  inside v (p * 2 ^ (128 - n + k), p * 2 ^ (128 - n + k) + 2 ^ (128 - n + k) - 1).
Proof.
  intros Hn Hk Hv. rewrite land_high, Z.land_ones by lia. rewrite !Z.shiftr_div_pow2 by lia.
  assert (0 < 2 ^ n ∧ 0 < 2 ^ (128 - n) ∧ 0 < 2 ^ k) as (? & ? & ?) by (split_and!; apply Z.pow_pos_nonneg; lia).
  rewrite Z.mod_small; cycle 1.
  { split; [apply Z.div_pos; lia|]. apply Z.div_lt_upper_bound; [done|].
    rewrite <-Z.pow_add_r by lia. replace (128 - n + n) with 128 by lia. lia. }
  rewrite Z.shiftl_mul_pow2, Z.div_div by lia. rewrite <-Z.pow_add_r by lia.
  rewrite <-block by (lia || by rewrite Z.mod_mul by (apply Z.pow_nonzero; lia)).
  rewrite Z.div_mul by (apply Z.pow_nonzero; lia).
  destruct (Z.eqb_spec (v / 2 ^ (128 - n + k)) p) as [->|Hne]; [by rewrite Z.eqb_refl|].
  apply Z.eqb_neq. intros Heq. apply Hne. by apply Z.mul_reg_r in Heq; [|lia].
Qed.

Lemma private6 v : 0 ≤ v < 2 ^ 128 → (Z.land (Z.shiftr v 120) 254 =? 252) = inside v (cidr6 0xfc00 0 0 7).
Proof. intros Hv. exact (masked_block v 8 1 126 ltac:(lia) ltac:(lia) Hv). Qed.

Lemma multicast6 v : 0 ≤ v < 2 ^ 128 → (Z.shiftr v 120 =? 255) = inside v (cidr6 0xff00 0 0 8).
Proof.
  intros Hv. rewrite Z.shiftr_div_pow2 by done. exact (block v (0xff00 * 2 ^ 112) 120 ltac:(lia) eq_refl).
Qed.

Lemma linklocal6 v : 0 ≤ v < 2 ^ 128 → (Z.land (v6u16 v 0) 65472 =? 65152) = inside v (cidr6 0xfe80 0 0 10).
Proof.
  intros Hv. unfold v6u16. rewrite <-Z.land_assoc. exact (masked_block v 16 6 1018 ltac:(lia) ltac:(lia) Hv).
Qed.

Lemma V6_eqb v w : bool_decide (V6 v "" = V6 w "") = (v =? w).
Proof. case_bool_decide as H; [injection H as ->; by rewrite Z.eqb_refl|]. symmetry. apply Z.eqb_neq. congruence. Qed.

Lemma special6_exact v :
  0 ≤ v < 2 ^ 128 → Is4In6 (V6 v "") = false →
  isPublicOutboundAddr (V6 v "") = true ↔ Forall (λ r, ¬ within v r) special6.
Proof.
  intros Hv Hmap. unfold isPublicOutboundAddr. rewrite refuse_if, prefixes_eq.
  cbn [existsb]. rewrite !contains_cidr6 by (lia || reflexivity). unfold prefix4. rewrite !contains_46.
  unfold IsGlobalUnicast, IsPrivate, IsLoopback, IsLinkLocalUnicast, IsMulticast, IsUnspecified, IsLoopback.
  assert (Unmap (V6 v "") = V6 v "") as Hun by (unfold Unmap; by rewrite Hmap).
  rewrite !Hun. cbn [IsValid Zone Is4 negb orb andb].
  rewrite private6, multicast6, linklocal6, !V6_eqb, !andb_true_r by lia.
  rewrite !negb_andb, !negb_involutive. cbn [negb orb]. rewrite !orb_false_iff.
  assert (∀ w, (v =? w) = inside v (w, w)) as Hone by (intros w; unfold inside; cbn [fst snd]; lia).
  rewrite !Hone. unfold special6. rewrite !Forall_cons, <-!inside_false.
  split; intros; destruct_and?; split_and?; auto.
Qed.

(** ** The policy *)

(** An address outside the special-purpose blocks listed above. *)
Definition public (ip : Addr) : Prop :=
  match ip with
  | Zero => False
  | V4 v => Forall (λ r, ¬ within v r) special4
  | V6 v zone => zone = "" ∧ Forall (λ r, ¬ within v r) special6
  end.

Lemma public_iff (ip : Addr) : in_range ip → Unmap ip = ip → isPublicOutboundAddr ip = true ↔ public ip.
Proof.
  destruct ip as [|v|v zone]; intros Hr Hun; cbn [public].
  - split; [discriminate|intros []].
  - exact (special4_exact v Hr).
  - destruct (decide (zone = "")) as [->|Hz].
    + assert (Is4In6 (V6 v "") = false) as Hmap by (unfold Unmap in Hun; destruct (Is4In6 (V6 v "")); [discriminate|reflexivity]).
      rewrite (special6_exact v Hr Hmap). split; [intros H; split; [reflexivity|exact H]|intros [_ H]; exact H].
    + unfold isPublicOutboundAddr. cbn [Zone]. rewrite (bool_decide_false (zone = "")) by done.
      cbn [IsValid negb orb]. split; [discriminate|intros [Heq _]; destruct (Hz Heq)].
Qed.

(** C31.  Which addresses are public.  For an address as the resolver's
    answers are checked (unmapped and in range), the policy allows exactly
    the addresses outside the special-purpose blocks listed above: no IPv4
    address of a private, shared, loopback, link-local, documentation,
    benchmarking, multicast or reserved block, no IPv6 address with a zone
    or of a local, translated, tunnelled, documentation or multicast block. *)
Theorem public_addresses_exact (ip : Addr) :
  in_range ip → Unmap ip = ip →
  isPublicOutboundAddr ip = true ↔
  match ip with
  | Zero => False
  | V4 v => Forall (λ r, ¬ within v r) special4
  | V6 v zone => zone = "" ∧ Forall (λ r, ¬ within v r) special6
  end.
Proof. exact (public_iff ip). Qed.

(** ** Dialling *)

Section Client.
Context {Conn : Type} (Parse : string → option URL) (LookupNetIP : string → result (list Addr))
  (dial : string → string → result Conn).

Lemma publicAddrs_ok addresses acc out :
  publicAddrs addresses acc = Ok out →
  out = acc ++ (Unmap <$> addresses) ∧ ∀ ip, ip ∈ addresses → isPublicOutboundAddr (Unmap ip) = true.
Proof.
  revert acc. induction addresses as [|ip l IH]; intros acc; cbn [publicAddrs].
  { intros [= <-]. split; [by rewrite app_nil_r|]. by intros ? ?%elem_of_nil. }
  destruct (isPublicOutboundAddr (Unmap ip)) eqn:Hp; cbn [negb]; [|done].
  intros [-> Hall]%IH. split; [by rewrite <-app_assoc|]. intros x [->|Hx]%elem_of_cons; [done|by apply Hall].
Qed.

Lemma unmap_unmap ip : Unmap (Unmap ip) = Unmap ip.
Proof.
  destruct ip as [|v|v z]; cbn [Unmap]; [done..|]. destruct (Is4In6 (V6 v z)) eqn:H; cbn [Unmap]; [done|by rewrite H].
Qed.

(** The addresses a host stands for: itself when it is written as an address,
    what the resolver answers for it otherwise. *)
Definition addresses (host : string) : list Addr :=
  let name := TrimChars ["["%char; "]"%char] (TrimSpace host) in
  match ParseAddr name with
  | Some ip => [Unmap ip]
  | None => match LookupNetIP name with Ok l => Unmap <$> l | Err _ => [] end
  end.

(** The family the network asks for: [tcp4], [tcp6] or either. *)
Definition compatible (network : string) (ip : Addr) : Prop :=
  (HasSuffix network "4" = true → Is4 ip = true) ∧ (HasSuffix network "6" = true → Is6 ip = true).

#[local] Instance compatible_dec network ip : Decision (compatible network ip).
Proof. unfold compatible. apply _. Defined.

Lemma resolve_spec host :
  match resolvePublicOutboundAddrs LookupNetIP host with
  | Ok out => out = addresses host ∧ addresses host ≠ [] ∧ Forall (λ ip, isPublicOutboundAddr ip = true) (addresses host)
  | Err _ => addresses host = [] ∨ ∃ ip, ip ∈ addresses host ∧ isPublicOutboundAddr ip = false
  end.
Proof.
  unfold resolvePublicOutboundAddrs, addresses. set (h := TrimChars _ _). destruct (ParseAddr h) as [ip|].
  - destruct (isPublicOutboundAddr (Unmap ip)) eqn:Hp; cbn [negb]; [by split_and!; repeat constructor|].
    right. exists (Unmap ip). split; [by apply list_elem_of_singleton|done].
  - destruct (LookupNetIP h) as [l|]; [|by left]. destruct (Z.eqb_spec (Z.of_nat (length l)) 0) as [H0|Hn].
    { destruct l; [by left|cbn in H0; lia]. }
    destruct (publicAddrs l []) as [out|e] eqn:Hout.
    + apply publicAddrs_ok in Hout as [-> Hall]. split_and!; [done|by destruct l|]. rewrite Forall_fmap. by apply Forall_forall.
    + right. clear Hn. revert Hout. generalize (@nil Addr). induction l as [|ip l IH]; intros acc; cbn [publicAddrs]; [done|].
      destruct (isPublicOutboundAddr (Unmap ip)) eqn:Hp; cbn [negb].
      * intros (x & Hx & Hnot)%IH. exists x. split; [by right|done].
      * intros _. exists (Unmap ip). split; [by left|done].
Qed.

(** What dialling a list of candidates comes to: the compatible ones are
    dialled in order until one answers, the connection is that one's. *)
Definition dialling (network port : string) (candidates dialled : list Addr) (answer : result Conn) : Prop :=
  ∃ rest, filter (compatible network) candidates = dialled ++ rest ∧
  match answer with
  | Ok c => ∃ failed ip, dialled = failed ++ [ip] ∧ dial network (JoinHostPort (AddrString ip) port) = Ok c ∧
      Forall (λ x, ∃ e, dial network (JoinHostPort (AddrString x) port) = Err e) failed
  | Err _ => rest = [] ∧ Forall (λ x, ∃ e, dial network (JoinHostPort (AddrString x) port) = Err e) dialled
  end.

Lemma dialLoop_spec network port candidates lastErr :
  let '(dialled, answer) := dialLoop dial network port candidates lastErr in dialling network port candidates dialled answer.
Proof.
  revert lastErr. induction candidates as [|ip l IH]; intros lastErr; cbn [dialLoop].
  { exists []. by split_and!. }
  assert (∀ e, ¬ compatible network ip →
    let '(dialled, answer) := dialLoop dial network port l e in dialling network port (ip :: l) dialled answer) as Hskip.
  { intros e Hno. specialize (IH e). destruct (dialLoop _ _ _ l e) as [d a]. unfold dialling. by rewrite filter_cons_False. }
  destruct (HasSuffix network "4" && negb (Is4 ip)) eqn:H4.
  { apply Hskip. intros [Hc _]. apply andb_true_iff in H4 as [H4 Hn%negb_true_iff]. by rewrite (Hc H4) in Hn. }
  destruct (HasSuffix network "6" && negb (Is6 ip)) eqn:H6.
  { apply Hskip. intros [_ Hc]. apply andb_true_iff in H6 as [H6 Hn%negb_true_iff]. by rewrite (Hc H6) in Hn. }
  assert (compatible network ip) as Hok.
  { split; intros Hs; rewrite Hs in *; [by apply negb_false_iff in H4|by apply negb_false_iff in H6]. }
  destruct (dial _ _) as [c|e] eqn:Hd.
  { exists (filter (compatible network) l). rewrite filter_cons_True by done. split; [done|]. exists [], ip. by split_and!. }
  specialize (IH (Some e)). destruct (dialLoop _ _ _ l (Some e)) as [d a]. destruct IH as (rest & Hf & Ha).
  exists rest. rewrite filter_cons_True, Hf by done. split; [done|]. destruct a as [c|e'].
  - destruct Ha as (failed & x & -> & Hx & Hall). exists (ip :: failed), x. split_and!; try done. constructor; [by exists e|done].
  - destruct Ha as [-> Hall]. split; [done|]. constructor; [by exists e|done].
Qed.

(** C30: what the dialler of the outbound client connects to.  The
    addresses it considers are those the host stands for, the literal address
    or the resolver's answer.  When there is none, or one of them is not
    public, nothing is dialled and an error is returned; otherwise the ones of
    the network's family are dialled in the resolver's order until one
    answers, the connection returned is that one's, and each address dialled
    is outside every special-purpose block.  Nothing is dialled for an address
    that cannot be split into host and port. *)
Theorem dials_only_public network address :
  let '(dialled, answer) := DialContext LookupNetIP dial network address in
  match SplitHostAndPort address with
  | None => dialled = [] ∧ ∃ e, answer = Err e
  | Some (host, port) =>
      ((addresses host = [] ∨ ∃ ip, ip ∈ addresses host ∧ isPublicOutboundAddr ip = false) ∧ dialled = [] ∧ ∃ e, answer = Err e) ∨
      (Forall (λ ip, isPublicOutboundAddr ip = true ∧ (in_range ip → public ip)) (addresses host) ∧
       addresses host ≠ [] ∧ dialling network port (addresses host) dialled answer)
  end.
Proof.
  unfold DialContext. destruct (SplitHostAndPort address) as [[host port]|]; [|by split; [|eexists]].
  pose proof (resolve_spec host) as Hres. destruct (resolvePublicOutboundAddrs LookupNetIP host) as [cs|e].
  - destruct Hres as (-> & Hne & Hpub). pose proof (dialLoop_spec network port (addresses host) None) as Hd.
    destruct (dialLoop dial network port (addresses host) None) as [d a]. right. split_and!; [|done..].
    apply Forall_forall. intros ip Hin. rewrite Forall_forall in Hpub. split; [by apply Hpub|]. intros Hr.
    apply public_iff; [done| |by apply Hpub]. revert Hin. unfold addresses. destruct (ParseAddr _).
    + intros ->%list_elem_of_singleton. apply unmap_unmap.
    + destruct (LookupNetIP _); [|by intros ?%elem_of_nil]. intros (x & -> & _)%list_elem_of_fmap. apply unmap_unmap.
  - left. split_and!; [done..|by eexists].
Qed.

(** *** Redirects *)

Lemma validate_ok raw :
  ValidatePublicHTTPSURL Parse raw = None →
  ∃ url, Parse (TrimSpace raw) = Some url ∧ Scheme url = "https" ∧ HasUser url = false ∧ Fragment url = "" ∧
    ∀ ip, ParseAddr (TrimSpace (Hostname url)) = Some ip → isPublicOutboundAddr (Unmap ip) = true.
Proof.
  unfold ValidatePublicHTTPSURL. destruct (Parse _) as [url|]; [|done].
  destruct (bool_decide_reflect (Scheme url = "https")) as [H1|H1]; [|done]. cbn [negb orb].
  destruct (bool_decide (Host url = "")); [done|]. destruct (HasUser url) eqn:H2; [done|]. cbn [orb].
  destruct (bool_decide_reflect (Fragment url = "")) as [H3|H3]; [|done]. cbn [negb].
  destruct (bool_decide (TrimSpace (Hostname url) = "")); [done|]. intros Hip.
  exists url. split_and!; try done. intros ip Hp. rewrite Hp in Hip. by destruct (isPublicOutboundAddr _).
Qed.

Lemma redirect_stop target via : CheckRedirect Parse target via = None → (via < 3)%nat ∧ ValidatePublicHTTPSURL Parse target = None.
Proof.
  unfold CheckRedirect. destruct (Z.leb_spec 3 (Z.of_nat via)); [discriminate|].
  destruct (ValidatePublicHTTPSURL Parse target); [discriminate|]. intros _. split; [lia|reflexivity].
Qed.

Lemma requests_length turns answer via url : (via < 3)%nat → (length (requests Parse turns answer via url) ≤ 3 - via)%nat.
Proof.
  revert via url. induction turns as [|turns IH]; intros via url Hvia; cbn [requests length]; [lia|].
  destruct (answer via url) as [target|]; cbn [length]; [|lia].
  destruct (CheckRedirect Parse target (S via)) eqn:Hc; cbn [length]; [lia|].
  apply redirect_stop in Hc as [Hlt _]. specialize (IH (S via) target Hlt). lia.
Qed.

Lemma requests_turns n turns answer via url :
  n = (3 - via)%nat → (via < 3)%nat → (n ≤ turns)%nat → requests Parse turns answer via url = requests Parse n answer via url.
Proof.
  revert turns via url. induction n as [|n IH]; intros turns via url Hn Hvia Ht; [lia|].
  destruct turns as [|turns]; [lia|]. cbn [requests]. f_equal. destruct (answer via url) as [target|]; [|done].
  destruct (CheckRedirect Parse target (S via)) eqn:Hc; [done|]. apply redirect_stop in Hc as [Hlt _].
  apply IH; lia.
Qed.

Lemma requests_checked turns answer via url target :
  target ∈ tail (requests Parse turns answer via url) → ValidatePublicHTTPSURL Parse target = None.
Proof.
  revert via url. induction turns as [|turns IH]; intros via url; cbn [requests tail]; [by intros ?%elem_of_nil|].
  destruct (answer via url) as [next|]; [|by intros ?%elem_of_nil].
  destruct (CheckRedirect Parse next (S via)) eqn:Hc; [by intros ?%elem_of_nil|]. apply redirect_stop in Hc as [_ Hok].
  destruct turns as [|turns']; [by intros ?%elem_of_nil|]. specialize (IH (S via) next). cbn [requests tail] in *.
  intros [->|Hin]%elem_of_cons; [done|by apply IH].
Qed.

(** Redirects.  However the servers answer and however many turns are
    allowed, the client makes at most three requests for one URL, three turns
    are enough, and every URL it is redirected to was checked: absolute
    HTTPS, without credentials or fragment, and not naming an address that is
    not public. *)
Theorem redirects_bounded turns answer url :
  (length (requests Parse turns answer 0 url) ≤ 3)%nat ∧
  ((3 ≤ turns)%nat → requests Parse turns answer 0 url = requests Parse 3 answer 0 url) ∧
  ∀ target, target ∈ tail (requests Parse turns answer 0 url) → ∃ u, Parse (TrimSpace target) = Some u ∧
    Scheme u = "https" ∧ HasUser u = false ∧ Fragment u = "" ∧
    ∀ ip, ParseAddr (TrimSpace (Hostname u)) = Some ip → isPublicOutboundAddr (Unmap ip) = true.
Proof.
  split_and!.
  - apply (requests_length turns answer 0 url). lia.
  - intros Ht. apply requests_turns; lia.
  - intros target Hin%requests_checked. by apply validate_ok.
Qed.
End Client.

Lemma public_addresses_exact_witness :
  isPublicOutboundAddr (V4 (8 * 2 ^ 24 + 8 * 2 ^ 16 + 8 * 2 ^ 8 + 8)) = true ∧
  isPublicOutboundAddr (V4 (169 * 2 ^ 24 + 254 * 2 ^ 16 + 169 * 2 ^ 8 + 254)) ≠ true.
Proof.
  split.
  - apply (public_addresses_exact (V4 (8 * 2 ^ 24 + 8 * 2 ^ 16 + 8 * 2 ^ 8 + 8))); [split; [discriminate|reflexivity]|reflexivity|].
    unfold special4. repeat (apply Forall_cons; split; [intros [H1 H2]; vm_compute in H1, H2; congruence|]). apply Forall_nil. exact I.
  - vm_compute. discriminate.
Defined.

End OutboundProofs.
