(* ===== verification/DotEnv.v ===== *)
(** * Environment files: [internal/config/dotenv.go]

    The file the configuration is read from, line by line, and the lookup of
    a setting in the process environment and in that file.  The file system
    and the environment are the record [System]. *)

From S2P Require Import Prelude GoStrings GoUnicode.
#[local] Open Scope Z_scope.
#[local] Open Scope go_scope.

Module DotEnv.

Definition quote : ascii := "034"%char.
Definition explicitEnvFileVariable : string := "FERVENTIO_ENV_FILE".

(** ** Lines *)

(** [strings.IndexByte]; [None] for -1. *)
Fixpoint IndexByte (s : string) (c : ascii) : option nat :=
  match s with
  | "" => None
  | String a s => if a == c then Some 0%nat else S <$> IndexByte s c
  end.

Section Runes.
Context {tables : RuneTables}.

Definition validDotEnvKey (key : string) : bool :=
  match runes key with
  | [] => false
  | (first, _) :: rest =>
      ((first =? 95) || IsLetter first) &&
      forallb (λ '(char, _), (char =? 95) || IsLetter char || IsDigit char) rest
  end.

(** The position of the closing quote, from a position on. *)
Fixpoint closingQuote (index : nat) (escaped : bool) (l : list ascii) : option nat :=
  match l with
  | [] => None
  | c :: l =>
      if escaped then closingQuote (S index) false l else
      if c == "\"%char then closingQuote (S index) true l else
      if c == quote then Some index else closingQuote (S index) false l
  end.
Definition findClosingDoubleQuote (raw : string) : option nat :=
  closingQuote 1 false (drop 1 (String.list_ascii_of_string raw)).

Definition validateDotEnvTrailing (raw : string) : option error :=
  let trailing := TrimSpace raw in
  if (trailing == "") || HasPrefix trailing "#" then None
  else Some (ErrMsg "unexpected characters after quoted value").

(** Where a comment starts: a number sign after white space.  The byte before
    it is read as a rune. *)
Fixpoint commentStart (index : nat) (previous : option ascii) (l : list ascii) : option nat :=
  match l with
  | [] => None
  | c :: l =>
      match previous with
      | Some p => if (c == "#"%char) && IsSpace (byteVal p) then Some index else commentStart (S index) (Some c) l
      | None => commentStart (S index) (Some c) l
      end
  end.
Definition stripDotEnvInlineComment (raw : string) : string :=
  match commentStart 0 None (String.list_ascii_of_string raw) with
  | Some index => TrimSpace (take_str index raw)
  | None => TrimSpace raw
  end.

Definition parseDotEnvValue (raw : string) : result string :=
  match raw with
  | "" => Ok ""
  | String first rest =>
      if first == "'"%char then
        match IndexByte rest "'" with
        | None => Err (ErrMsg "unterminated single-quoted value")
        | Some closing =>
            let closing := S closing in
            match validateDotEnvTrailing (drop_str (S closing) raw) with
            | Some err => Err err
            | None => Ok (drop_str 1 (take_str closing raw))
            end
        end
      else if first == quote then
        match findClosingDoubleQuote raw with
        | None => Err (ErrMsg "unterminated double-quoted value")
        | Some closing =>
            match validateDotEnvTrailing (drop_str (S closing) raw) with
            | Some err => Err err
            | None =>
                match UnquoteDouble (take_str (S closing) raw) with
                | None => Err (ErrMsg "invalid double-quoted value")
                | Some value => Ok value
                end
            end
        end
      else Ok (stripDotEnvInlineComment raw)
  end.

(** One line: [None] when it holds no setting. *)
Definition parseLine (lineNumber : nat) (line : string) : result (option (string * string)) :=
  let line := if bool_decide (lineNumber = 1%nat)
    then TrimPrefix line (String.string_of_list_ascii (encodeRune 0xfeff)) else line in
  let line := TrimSpace line in
  if (line == "") || HasPrefix line "#" then Ok None else
  let line := if HasPrefix line "export " then TrimSpace (TrimPrefix line "export ") else line in
  match IndexByte line "=" with
  | None | Some O => Err (ErrMsg "expected KEY=VALUE")
  | Some separator =>
      let key := TrimSpace (take_str separator line) in
      if negb (validDotEnvKey key) then Err (ErrMsg "invalid variable name") else
      let? value := parseDotEnvValue (TrimSpace (drop_str (S separator) line)) in
      Ok (Some (key, value))
  end.

(** [bufio.Scanner]: lines end at a line feed, a carriage return before it is
    dropped, and a line that does not fit the buffer ends the scan. *)
Definition maxTokenSize : Z := 1024 * 1024.
Definition dropCR (line : string) : string := TrimSuffix line (String "013"%char "").
Definition scanned (content : string) : list string :=
  let lines := Split "010"%char content in
  match last lines with
  | Some "" => removelast lines
  | _ => lines
  end.

Fixpoint parseLines (lineNumber : nat) (lines : list string) (values : gmap string string)
    : result (gmap string string) :=
  match lines with
  | [] => Ok values
  | line :: lines =>
      if maxTokenSize <=? len line then Err (ErrMsg "bufio.Scanner: token too long") else
      let? entry := parseLine lineNumber (dropCR line) in
      parseLines (S lineNumber) lines
        (match entry with Some (key, value) => <[key := value]> values | None => values end)
  end.

(** [readErr] is the error the reader ended with. *)
Definition parseDotEnv (content : string) (readErr : option error) : result (gmap string string) :=
  let? values := parseLines 1 (scanned content) ∅ in
  match readErr with Some err => Err err | None => Ok values end.

(** ** The file *)

Inductive fileKind := RegularFile | OtherFile.
(** [os.Stat]: the file, that it does not exist, or another failure. *)
Inductive statResult := Found (kind : fileKind) | NotExist | StatFailed (err : error).

Record System := mkSystem {
  LookupEnv : string → option string;
  Abs : string → result string;
  Stat : string → statResult;
  Getwd : result string;
  JoinPath : list string → string;
  (** the directory of the executable *)
  ExecutableDir : option string;
  (** [os.Open] with the content and the error its reader ends with; [Err]
      with whether the file is missing *)
  OpenFile : string → (bool * error) + (string * option error)
}.

Record configSource := mkSource { envFilePath : string; fileValues : gmap string string }.

Section Source.
Context (Sys : System).

Definition Getenv (name : string) : string := default "" (LookupEnv Sys name).

(** The loop over the candidates. *)
Fixpoint firstCandidate (candidates : list string) (seen : gset string) : result string :=
  match candidates with
  | [] => Ok ""
  | candidate :: candidates =>
      match Abs Sys candidate with
      | Err _ => firstCandidate candidates seen
      | Ok absolute =>
          if bool_decide (absolute ∈ seen) then firstCandidate candidates seen else
          let seen := {[absolute]} ∪ seen in
          match Stat Sys absolute with
          | NotExist => firstCandidate candidates seen
          | StatFailed err => Err (ErrMsg ("inspect dotenv candidate: " +:+ Error err))
          | Found RegularFile => Ok absolute
          | Found OtherFile => firstCandidate candidates seen
          end
      end
  end.

(** The path, empty when there is no file, and whether it was named. *)
Definition resolveDotEnvPath : result (string * bool) :=
  let configured := TrimSpace (Getenv explicitEnvFileVariable) in
  if configured != "" then
    match Abs Sys configured with
    | Err err => Err (ErrMsg ("resolve FERVENTIO_ENV_FILE: " +:+ Error err))
    | Ok absolute =>
        match Stat Sys absolute with
        | Found RegularFile => Ok (absolute, true)
        | Found OtherFile => Err (ErrMsg "FERVENTIO_ENV_FILE must point to a regular file")
        | NotExist | StatFailed _ => Err (ErrMsg "FERVENTIO_ENV_FILE points to unavailable file")
        end
    end
  else
    match Getwd Sys with
    | Err err => Err (ErrMsg ("resolve working directory: " +:+ Error err))
    | Ok workingDirectory =>
        let candidates :=
          [JoinPath Sys [workingDirectory; ".env"]; JoinPath Sys [workingDirectory; "server"; ".env"];
           JoinPath Sys [workingDirectory; ".."; ".env"]; "/app/.env"; "/run/secrets/ferventio.env"] ++
          match ExecutableDir Sys with Some dir => [JoinPath Sys [dir; ".env"]] | None => [] end in
        let? path := firstCandidate candidates ∅ in Ok (path, false)
    end.

Definition loadConfigSource : result configSource :=
  let? found := resolveDotEnvPath in
  let '(path, explicit) := found in
  if path == "" then Ok (mkSource "" ∅) else
  match OpenFile Sys path with
  | inl (missing, err) =>
      if negb explicit && missing then Ok (mkSource "" ∅) else Err (ErrMsg ("open dotenv file: " +:+ Error err))
  | inr (content, readErr) =>
      match parseDotEnv content readErr with
      | Err err => Err (ErrMsg ("parse dotenv file: " +:+ Error err))
      | Ok values => Ok (mkSource path values)
      end
  end.

(** ** Settings *)

Definition value (s : configSource) (name : string) : string :=
  match LookupEnv Sys name with
  | Some v => if TrimSpace v != "" then v else default "" (fileValues s !! name)
  | None => default "" (fileValues s !! name)
  end.

Definition valueOr (s : configSource) (name fallback : string) : string :=
  let v := TrimSpace (value s name) in if v != "" then v else fallback.

End Source.
End Runes.
End DotEnv.
