(* ===== verification/ConfigProofs.v ===== *)
(** * Configuration: theorems

    What a configuration that was accepted satisfies, and two settings that
    are accepted although they are out of range. *)

From S2P Require Import Prelude GoStrings NetIP Config Credentials Domain RateLimit GoUnicode DotEnv ConfigLoad.
From S2P Require Import AuthStore Subscriptions RegistrationInput OAuth.
#[local] Open Scope Z_scope.
#[local] Open Scope go_scope.

Module ConfigProofs.
Import NetIP Config DotEnv ConfigLoad.

(** ** Prefixes *)

Lemma decimal_pos acc s n : 0 ≤ acc → decimal acc s = Some n → 0 ≤ n.
Proof.
  revert acc. induction s as [|c s IH]; intros acc Ha; cbn [decimal]; [by intros [= <-]|].
  destruct (isDigit c) eqn:Hd; [|done]. apply IH. unfold isDigit in Hd. lia.
Qed.

Lemma parseIPv6_valid s ip : parseIPv6 s = Some ip → IsValid ip = true.
Proof.
  unfold parseIPv6. destruct (match Index s "%" with Some _ => _ | None => _ end) as [s1 zone].
  case_bool_decide; [done|]. destruct (HasPrefix s1 "::").
  - case_bool_decide; [by intros [= <-]|]. destruct (_ ≫= _); [by intros [= <-]|done].
  - destruct (_ ≫= _); [by intros [= <-]|done].
Qed.

Lemma ParseAddr_valid s ip : ParseAddr s = Some ip → IsValid ip = true.
Proof.
  assert (V4 <$> parseIPv4 s = Some ip → IsValid ip = true) as H4 by (destruct (parseIPv4 s); [by intros [= <-]|done]).
  unfold ParseAddr. pose proof (parseIPv6_valid s ip) as H6. destruct (family s) as [[[] [] [] [] [] [] [] []]|]; done || auto.
Qed.

Lemma ParsePrefix_ok s p : ParsePrefix s = Some p → PrefixIsValid p = true.
Proof.
  unfold ParsePrefix. destruct (LastIndex _ _) as [i|]; [|done]. cbn [mbind option_bind].
  destruct (ParseAddr _) as [ip|] eqn:Hip; [|done]. cbn [mbind option_bind]. apply ParseAddr_valid in Hip.
  case_bool_decide as Hz; cbn [negb]; [|done]. case_match; [done|].
  destruct (decimal 0 _) as [n|] eqn:Hn; [|done]. cbn [mbind option_bind]. apply decimal_pos in Hn; [|done].
  destruct (Z.leb_spec n (BitLen ip)); [|done]. intros [= <-]. unfold PrefixIsValid. cbn [PrefixAddr Bits].
  rewrite Hip, Hz, bool_decide_true by done. lia.
Qed.

Lemma maskValue_idemp n bits v : bits ≤ n → maskValue n bits (maskValue n bits v) = maskValue n bits v.
Proof.
  intros Hb. unfold maskValue. rewrite Z.shiftr_shiftl_l by lia. by rewrite Z.sub_diag, Z.shiftl_0_r.
Qed.

(** A prefix as it is kept: valid, with no bits beyond its length. *)
Definition canonical (p : Prefix) : Prop := PrefixIsValid p = true ∧ Masked p = p.

Lemma Masked_canonical p : PrefixIsValid p = true → canonical (Masked p).
Proof.
  destruct p as [[|v|v z] b]; unfold canonical, PrefixIsValid, Masked; cbn [PrefixAddr Bits IsValid Zone BitLen andb];
    [done|..]; rewrite !andb_true_iff, bool_decide_eq_true; intros [[? ?] ?].
  - split; [done|]. by rewrite maskValue_idemp by lia.
  - split; [done|]. by rewrite maskValue_idemp by lia.
Qed.

Lemma proxiesLoop_ok values seen result out :
  proxiesLoop values seen result = Ok out →
  Forall canonical result → NoDup (PrefixString <$> result) → (∀ p, p ∈ result → PrefixString p ∈ seen) →
  Forall canonical out ∧ NoDup (PrefixString <$> out).
Proof.
  revert seen result. induction values as [|v values IH]; intros seen result; cbn [proxiesLoop]; [by intros [= <-]|].
  destruct (ParsePrefix _) as [p|] eqn:Hp; [|done]. apply ParsePrefix_ok, Masked_canonical in Hp.
  case_bool_decide as Hseen; [apply IH|]. intros Hloop Hall Hnd Hin. apply (IH _ _ Hloop).
  - apply Forall_app. split; [done|by constructor].
  - rewrite fmap_app. apply NoDup_app. split_and!; [done| |apply NoDup_singleton].
    intros key (q & Hkey & Hq)%list_elem_of_fmap Hk%list_elem_of_singleton. apply Hseen. rewrite <-Hk, Hkey. by apply Hin.
  - intros q [Hq|Hq%list_elem_of_singleton]%elem_of_app; [apply Hin in Hq; set_solver|subst q; set_solver].
Qed.

Section Load.
Context {tables : RuneTables} {uni : Unicode} (Sys : System) (ParseURL : string → option NetURL.URL).

(** ** Settings *)

Lemma positiveInt_pos source name fallback n :
  0 < fallback → positiveInt Sys source name fallback = Ok n → 0 < n.
Proof.
  intros Hf. unfold positiveInt. case_bool_decide; [by intros [= <-]|].
  destruct (ParseInt _) as [v|]; [|done]. destruct (Z.leb_spec v 0); [done|]. by intros [= <-].
Qed.

(** Rate limits as the limiter uses them. *)
Record limits_sound (c : loadedRateLimitConfig) : Prop := {
  limits_minute : Forall (λ n, 1 ≤ n ≤ 100000)
    [generalPerMinute c; authPerMinute c; installationPerMinute c; adminPerMinute c];
  limits_burst : Forall (λ n, 1 ≤ n ≤ 10000) [generalBurst c; authBurst c; installationBurst c; adminBurst c];
  limits_keys : 100 ≤ maxKeys c ≤ 1000000;
  limits_idle : Minute ≤ idleTTL c ≤ 24 * Hour;
  limits_proxies : Forall canonical (trustedProxyCIDRs c) ∧ NoDup (PrefixString <$> trustedProxyCIDRs c)
}.

Lemma loadRateLimit_sound source c : loadRateLimitConfig Sys source = Ok c → limits_sound c.
Proof.
  unfold loadRateLimitConfig. destruct (boolean _ _ _ _) as [dis|]; [|done]. cbn [result_bind].
  repeat (match goal with |- context [positiveInt Sys source ?name ?f] =>
    let n := fresh "n" in let H := fresh "Hn" in
    destruct (positiveInt Sys source name f) as [n|] eqn:H; [|done]; apply positiveInt_pos in H; [|done];
    cbn [result_bind] end).
  destruct (positiveDuration _ _ _ _) as [ttl|]; [|done]. cbn [result_bind].
  destruct (_ || _) eqn:H1; [done|]. destruct ((10000 <? _) || _ || _ || _) eqn:H2; [done|].
  destruct ((_ <? 100) || _) eqn:H3; [done|]. destruct ((_ <? Minute) || _) eqn:H4; [done|].
  destruct (parseTrustedProxyCIDRs _) as [proxies|] eqn:Hp; [|done]. cbn [result_bind]. intros [= <-].
  split; cbn.
  - repeat constructor; lia.
  - repeat constructor; lia.
  - lia.
  - lia.
  - apply (proxiesLoop_ok _ _ _ _ Hp); [constructor|constructor|by intros ? ?%elem_of_nil].
Qed.

(** ** Scopes *)

Lemma scopesLoop_ok source seen result :
  NoDup result → (∀ x, x ∈ result → x ∈ seen) →
  (∀ x, x ∈ result → x ≠ "" ∧ x ≠ "user:bot" ∧ x ≠ "channel:bot") →
  let out := scopesLoop source seen result in
  NoDup out ∧ ∀ x, x ∈ out → x ≠ "" ∧ x ≠ "user:bot" ∧ x ≠ "channel:bot".
Proof.
  revert seen result. induction source as [|raw source IH]; intros seen result Hnd Hin Hok; cbn [scopesLoop]; [done|].
  destruct (bool_decide_reflect (TrimSpace raw = "")) as [|H1]; [by apply IH|].
  destruct (bool_decide_reflect (TrimSpace raw = "user:bot")) as [|H2]; [by apply IH|].
  destruct (bool_decide_reflect (TrimSpace raw = "channel:bot")) as [|H3]; [by apply IH|]. cbn [orb].
  case_bool_decide as Hseen; [by apply IH|]. apply IH.
  - apply NoDup_app. split_and!; [done| |apply NoDup_singleton].
    intros x Hx ->%list_elem_of_singleton. by apply Hseen, Hin.
  - intros x [Hx|Hx%list_elem_of_singleton]%elem_of_app; [apply Hin in Hx; set_solver|subst x; set_solver].
  - intros x [Hx|Hx%list_elem_of_singleton]%elem_of_app; [by apply Hok|by subst x].
Qed.

(** ** The whole configuration *)

(** A URL without credentials, over HTTPS except on this host. *)
Definition secure (raw : string) : Prop :=
  ∃ url, ParseURL raw = Some url ∧ NetURL.Host url ≠ "" ∧ NetURL.HasUser url = false ∧
    (NetURL.Scheme url = "https" ∨
     NetURL.Scheme url = "http" ∧ (ToLower (NetURL.Hostname url) = "localhost" ∨ ToLower (NetURL.Hostname url) = "127.0.0.1")).

Lemma validateSecure_ok raw name allowPath : validateSecureHTTPURL ParseURL raw name allowPath = None → secure raw.
Proof.
  unfold validateSecureHTTPURL, secure. destruct (ParseURL raw) as [url|]; [|done].
  destruct (bool_decide_reflect (NetURL.Host url = "")) as [|H1]; [done|]. destruct (NetURL.HasUser url) eqn:H2; [done|].
  cbn [orb]. destruct (_ || _); [done|].
  destruct (bool_decide_reflect (NetURL.Scheme url = "https")) as [H3|H3]; cbn [negb andb].
  { intros _. exists url. auto 6. }
  destruct (bool_decide_reflect (NetURL.Scheme url = "http")) as [H4|H4]; cbn [negb andb]; [|done].
  destruct (bool_decide_reflect (ToLower (NetURL.Hostname url) = "localhost")) as [H5|H5]; cbn [negb orb].
  { intros _. exists url. auto 8. }
  destruct (bool_decide_reflect (ToLower (NetURL.Hostname url) = "127.0.0.1")) as [H6|H6]; cbn [negb]; [|done].
  intros _. exists url. auto 8.
Qed.

Lemma DecodeAuthKey_ok value key : DecodeAuthKey value = Ok key → len key = 32.
Proof.
  unfold DecodeAuthKey. case_bool_decide; [done|]. generalize [(false, false); (false, true); (true, false); (true, true)].
  intros l. induction l as [|[st pad] l IH]; cbn [decodeKey]; [done|]. destruct (decodeBase64 _ _ _) as [d|]; [|done].
  destruct (Z.eqb_spec (len d) 32); [|done]. by intros [= <-].
Qed.

(** What the rest of the backend may rely on. *)
Record sound_config (cfg : Config) : Prop := {
  config_policies : Forall (λ p, 1 ≤ RateLimit.perMinute p ≤ 100000 ∧ 1 ≤ RateLimit.burst p ≤ 10000)
    [RateLimit.generalPolicy cfg; RateLimit.authPolicy cfg; RateLimit.installationPolicy cfg; RateLimit.adminPolicy cfg];
  config_limiter : 100 ≤ RateLimit.rateLimitMaxKeys cfg ≤ 1000000 ∧ Minute ≤ RateLimit.rateLimitIdleTTL cfg ≤ 24 * Hour;
  config_proxies : Forall canonical (RateLimitTrustedProxyCIDRs cfg);
  config_database : 1 ≤ DatabaseMaxConns cfg ≤ 500 ∧ 0 ≤ DatabaseMinConns cfg ≤ DatabaseMaxConns cfg ∧
    0 < DatabaseConnectTimeout cfg ≤ Minute;
  config_admin : AdminToken cfg = "" ∨ 32 ≤ len (AdminToken cfg) ≤ 512;
  config_scopes : NoDup (AuthScopes cfg) ∧ "user:bot" ∉ AuthScopes cfg ∧ "channel:bot" ∉ AuthScopes cfg;
  config_eventsub : EventSubSecret cfg ≠ "" →
    16 ≤ len (EventSubSecret cfg) ≤ 100 ∧ Forall (λ r, 0x20 ≤ r.1 ≤ 0x7e) (runes (EventSubSecret cfg)) ∧
    secure (EventSubCallbackURL cfg) ∧ secure (TwitchHelixBaseURL cfg);
  config_auth : AuthEncryptionKey cfg ≠ "" →
    OAuth.AuthEnabled cfg = true ∧ (∃ key, DecodeAuthKey (AuthEncryptionKey cfg) = Ok key ∧ len key = 32) ∧
    secure (TwitchRedirectURL cfg) ∧ secure (TwitchIDBaseURL cfg) ∧ secure (PublicBaseURL cfg) ∧
    AuthAllowedAppSchemes cfg ≠ [] ∧ AuthScopes cfg ≠ [] ∧ 0 < AuthLeaseTTL cfg ≤ 5 * Minute ∧
    5 * Minute ≤ AuthAccessRefreshAhead cfg ≤ 24 * Hour ∧ AuthStateTTL cfg ≤ 30 * Minute ∧ AuthHandoffTTL cfg ≤ 10 * Minute
}.

Lemma checkEventSub_ok cfg :
  checkEventSub ParseURL cfg = None → EventSubSecret cfg ≠ "" →
  16 ≤ len (EventSubSecret cfg) ≤ 100 ∧ Forall (λ r, 0x20 ≤ r.1 ≤ 0x7e) (runes (EventSubSecret cfg)) ∧
  secure (EventSubCallbackURL cfg) ∧ secure (TwitchHelixBaseURL cfg).
Proof.
  intros H Hne. unfold checkEventSub in H. rewrite bool_decide_false in H by done.
  destruct (_ || _) eqn:Hlen in H; [done|]. destruct (existsb _ _) eqn:Hchars in H; [done|].
  case_bool_decide; [done|]. destruct (validateSecureHTTPURL _ (EventSubCallbackURL cfg) _ _) eqn:H1 in H; [done|].
  split_and!; [lia..| |by eapply validateSecure_ok|by eapply validateSecure_ok].
  apply Forall_forall. intros [c bytes] Hin. cbn. destruct (decide (0x20 ≤ c ≤ 0x7e)) as [|Hbad]; [done|].
  apply Bool.not_true_iff_false in Hchars. destruct Hchars. apply existsb_exists. exists (c, bytes).
  split; [by apply list_elem_of_In|lia].
Qed.

Lemma checkAuth_ok cfg :
  checkAuth ParseURL cfg = None → AuthEncryptionKey cfg ≠ "" →
  OAuth.AuthEnabled cfg = true ∧ (∃ key, DecodeAuthKey (AuthEncryptionKey cfg) = Ok key ∧ len key = 32) ∧
  secure (TwitchRedirectURL cfg) ∧ secure (TwitchIDBaseURL cfg) ∧ secure (PublicBaseURL cfg) ∧
  AuthAllowedAppSchemes cfg ≠ [] ∧ AuthScopes cfg ≠ [] ∧ 0 < AuthLeaseTTL cfg ≤ 5 * Minute ∧
  5 * Minute ≤ AuthAccessRefreshAhead cfg ≤ 24 * Hour ∧ AuthStateTTL cfg ≤ 30 * Minute ∧ AuthHandoffTTL cfg ≤ 10 * Minute.
Proof.
  intros H Hne. unfold checkAuth in H. rewrite bool_decide_false in H by done.
  destruct (bool_decide_reflect (TwitchClientID cfg = "")) as [|E1]; [done|].
  destruct (bool_decide_reflect (TwitchClientSecret cfg = "")) as [|E2]; [done|]. cbn [orb] in H.
  destruct (bool_decide_reflect (TwitchRedirectURL cfg = "")) as [|E3]; [done|].
  destruct (bool_decide_reflect (PublicBaseURL cfg = "")) as [|E4]; [done|]. cbn [orb] in H.
  destruct (DecodeAuthKey _) as [key|] eqn:Hkey; [|done].
  destruct (validateSecureHTTPURL _ (TwitchRedirectURL cfg) _ _) eqn:U1; [done|].
  destruct (validateSecureHTTPURL _ (TwitchIDBaseURL cfg) _ _) eqn:U2; [done|].
  unfold validatePublicBaseURL in H. destruct (validateSecureHTTPURL _ (PublicBaseURL cfg) _ _) eqn:U3; [done|].
  destruct (Z.eqb_spec (Z.of_nat (length (AuthAllowedAppSchemes cfg))) 0) as [|L1]; [done|].
  destruct (Z.eqb_spec (Z.of_nat (length (AuthScopes cfg))) 0) as [|L2]; [done|].
  destruct ((AuthLeaseTTL cfg <=? 0) || _) eqn:T1; [done|]. destruct ((AuthAccessRefreshAhead cfg <? _) || _) eqn:T2; [done|].
  destruct ((30 * Minute <? _) || _) eqn:T3; [done|].
  split_and!; try lia; try (by eapply validateSecure_ok).
  - unfold OAuth.AuthEnabled. by rewrite !bool_decide_false.
  - exists key. split; [done|]. by eapply DecodeAuthKey_ok.
  - intros Hnil. by rewrite Hnil in L1.
  - intros Hnil. by rewrite Hnil in L2.
Qed.

(** Deriving the addresses changes the addresses only. *)
Lemma deriveURLs_frame cfg :
  ∃ a b c, deriveURLs ParseURL cfg = cfg <| TwitchRedirectURL := a |> <| PublicBaseURL := b |> <| EventSubCallbackURL := c |>.
Proof.
  unfold deriveURLs. destruct cfg. cbn.
  repeat case_match; cbn; eexists _, _, _; reflexivity.
Qed.

Lemma checkBasics_ok cfg :
  checkBasics ParseURL cfg = None →
  1 ≤ DatabaseMaxConns cfg ≤ 500 ∧ 0 ≤ DatabaseMinConns cfg ≤ DatabaseMaxConns cfg ∧
  0 < DatabaseConnectTimeout cfg ≤ Minute ∧ (AdminToken cfg = "" ∨ 32 ≤ len (AdminToken cfg) ≤ 512).
Proof.
  unfold checkBasics. destruct ((DatabaseMaxConns cfg <? 1) || _) eqn:H1; [done|].
  destruct ((DatabaseMinConns cfg <? 0) || _) eqn:H2; [done|].
  destruct ((DatabaseConnectTimeout cfg <=? 0) || _) eqn:H3; [done|]. destruct (ParseURL _) as [url|]; [|done].
  destruct ((_ && _) || _); [done|].
  destruct (bool_decide_reflect (AdminToken cfg = "")) as [Ha|Ha]; cbn [negb andb]; [intros _; split_and!; lia || auto|].
  destruct ((len (AdminToken cfg) <? 32) || _) eqn:H4; [done|]. intros _. split_and!; lia.
Qed.

Lemma positiveOr_range n d lo hi : 0 < lo → lo ≤ n ≤ hi → lo ≤ RateLimit.positiveOr n d ≤ hi.
Proof. intros Hlo Hn. unfold RateLimit.positiveOr. case_match; lia. Qed.

(** C32.  An accepted configuration is within its bounds.  Whatever the
    environment and the file hold: the four request policies allow 1 to
    100000 requests a minute with bursts of 1 to 10000, the limiter keeps 100
    to 1000000 keys for a minute to a day, trusted proxies are canonical
    prefixes; the database pool has 1 to 500 connections; an admin token has
    32 to 512 bytes; scopes are distinct and never include those of bots;
    when webhooks are used their secret is 16 to 100 printable ASCII
    characters and the callback is secure; and when an encryption key is
    given, sign-in is enabled, the key has 32 bytes, the URLs are secure, and
    leases, refreshes, logins and handoffs are within their time limits. *)
Theorem loaded_config_sound cfg : LoadConfig Sys ParseURL = Ok cfg → sound_config cfg.
Proof.
  unfold LoadConfig. destruct (loadConfigSource Sys) as [source|]; [|done]. cbn [result_bind].
  destruct (loadRateLimitConfig Sys source) as [limits|] eqn:Hlim; [|done]. cbn [result_bind].
  apply loadRateLimit_sound in Hlim as [Hm Hb Hk Hi [Hp _]].
  destruct (positiveInt _ _ _ _) as [maxConns|]; [|done]. cbn [result_bind].
  destruct (nonNegativeInt _ _ _ _) as [minConns|]; [|done]. cbn [result_bind].
  destruct (boolean Sys source "DATABASE_MIGRATE" true) as [migrate|]; [|done]. cbn [result_bind].
  destruct (boolean Sys source "FIREBASE_ENABLED" false) as [firebase|]; [|done]. cbn [result_bind].
  set (raw := rawConfig _ _ _ _ _ _ _). destruct (checkBasics ParseURL raw) eqn:Hbasic; [done|].
  apply checkBasics_ok in Hbasic as (B1 & B2 & B3 & B4).
  destruct (checkEventSub ParseURL (deriveURLs ParseURL raw)) eqn:Hev; [done|].
  destruct (checkAuth ParseURL (deriveURLs ParseURL raw)) eqn:Hau; [done|]. intros [= <-].
  pose proof (checkEventSub_ok _ Hev) as Hev'. pose proof (checkAuth_ok _ Hau) as Hau'. clear Hev Hau.
  destruct (deriveURLs_frame raw) as (a & b & c & Hd). rewrite Hd in *.
  rewrite !Forall_cons in Hm, Hb. destruct Hm as (? & ? & ? & ? & _), Hb as (? & ? & ? & ? & _).
  split; [..|exact Hev'|exact Hau'].
  - repeat (apply Forall_cons; split); [..|apply Forall_nil; exact I]; split; by apply positiveOr_range.
  - split; by apply positiveOr_range.
  - exact Hp.
  - exact (conj B1 (conj B2 B3)).
  - exact B4.
  - change (AuthScopes (raw <| TwitchRedirectURL := a |> <| PublicBaseURL := b |> <| EventSubCallbackURL := c |>))
      with (mergeAuthScopes (Fields (valueOr Sys source "TWITCH_AUTH_SCOPES" ""))). unfold mergeAuthScopes.
    match goal with |- context [scopesLoop ?l ∅ []] => destruct (scopesLoop_ok l ∅ []) as [Hnd Hok] end;
      [constructor|by intros ? ?%elem_of_nil|by intros ? ?%elem_of_nil|].
    split_and!; [exact Hnd|by intros (_ & ? & _)%Hok|by intros (_ & _ & ?)%Hok].
Qed.
End Load.

(** ** Concrete environments *)

Module Example.
#[export] Existing Instance latin_tables.
#[export] Existing Instance ascii_unicode.

Definition environment (settings : list (string * string)) : System :=
  mkSystem (λ name, (list_to_map settings : gmap string string) !! name) Ok (λ _, NotExist) (Ok "/srv")
    (λ parts, Join parts "/") None (λ _, inl (true, ErrMsg "missing")).
Definition parse (raw : string) : option NetURL.URL :=
  if HasPrefix raw "postgres://" then Some (NetURL.mkURL "postgres" "localhost:5432" "localhost" "/db" "/db" false "" "")
  else if HasPrefix raw "https://" then Some (NetURL.mkURL "https" "us.example" "us.example" "" "" false "" "") else None.

(** Thirty-two zero bytes. *)
Definition key : string := "AAAAAAAAAAAAAAAAAAAAAAAAAAAAAAAAAAAAAAAAAAA".
Definition settings : list (string * string) :=
  [("AUTH_ENCRYPTION_KEY", key); ("TWITCH_CLIENT_ID", "client"); ("TWITCH_CLIENT_SECRET", "secret");
   ("PUBLIC_BASE_URL", "https://us.example/"); ("RATE_LIMIT_TRUSTED_PROXY_CIDRS", "10.1.2.3/8, 10.0.0.0/8")].
Definition loaded : Config :=
  match LoadConfig (environment settings) parse with Ok cfg => cfg | Err _ => Config.zero end.
End Example.
Import Example.

Lemma loaded_config_sound_witness :
  OAuth.AuthEnabled loaded = true ∧ 1 ≤ DatabaseMaxConns loaded ≤ 500 ∧ 0 < AuthLeaseTTL loaded ≤ 5 * Minute.
Proof.
  destruct (loaded_config_sound (environment settings) parse loaded) as [_ _ _ Hdb _ _ _ Hauth].
  - vm_compute. reflexivity.
  - destruct Hauth as (H1 & _ & _ & _ & _ & _ & _ & H2 & _); [vm_compute; discriminate|].
    split; [exact H1|]. split; [apply Hdb|exact H2].
Defined.

(** The number of connections is narrowed to 32 bits before it is checked:
    4294967316 is accepted as 20. *)
Theorem connections_wrap_around :
  ∃ cfg, LoadConfig (environment [("DATABASE_MAX_CONNS", "4294967316")]) parse = Ok cfg ∧ DatabaseMaxConns cfg = 20.
Proof. eexists. split; vm_compute; reflexivity. Qed.

(** A number of seconds is multiplied without a check: 9223372037 seconds, a
    positive number, gives a session that has expired before it starts. *)
Theorem session_ttl_wraps_around :
  ∃ cfg, LoadConfig (environment [("AUTH_SESSION_TTL", "9223372037")]) parse = Ok cfg ∧ AuthSessionTTL cfg < 0.
Proof. eexists. split; vm_compute; reflexivity. Qed.

(** The byte before a number sign is taken for a rune: the second byte of an
    encoded letter counts as white space, and the rest of the value is lost. *)
Theorem comment_inside_word :
  let word := String.string_of_list_ascii (encodeRune 0xe0) in
  parseDotEnvValue (word +:+ "#1") = Ok word ∧ parseDotEnvValue "a#1" = Ok "a#1".
Proof. vm_compute. split; reflexivity. Qed.

End ConfigProofs.
