(* ===== verification/DotEnvProofs.v ===== *)
(** * Environment files: round trip

    Every map of settings can be written to a file the parser reads back:
    each value in double quotes, with escapes for what is not printable. *)

From S2P Require Import Prelude GoStrings GoUnicode DotEnv.
#[local] Open Scope Z_scope.
#[local] Open Scope go_scope.

Module DotEnvProofs.
Import DotEnv.

Abbreviation bytes := String.list_ascii_of_string.
Abbreviation text := String.string_of_list_ascii.

(** ** Writing a file *)

Definition hexByte (v : Z) : ascii := byteOf (if v <? 10 then 48 + v else 87 + v).
Definition escapeByte (c : ascii) : list ascii :=
  let v := byteVal c in
  if (v =? 34) || (v =? 92) then ["\"%char; c] else
  if between 32 126 v then [c] else ["\"%char; "x"%char; hexByte (v / 16); hexByte (v mod 16)].
Definition escape (value : string) : list ascii := bytes value ≫= escapeByte.
Definition quoted (value : string) : string := text ([quote] ++ escape value ++ [quote]).
Definition writeLine (entry : string * string) : string := entry.1 +:+ "=" +:+ quoted entry.2.
Fixpoint writeDotEnv (entries : list (string * string)) : string :=
  match entries with
  | [] => ""
  | entry :: entries => writeLine entry +:+ String "010"%char (writeDotEnv entries)
  end.

(** A name: ASCII letters, digits and underscores, no digit first. *)
Definition nameChar (c : ascii) : bool :=
  let v := byteVal c in (v =? 95) || between 65 90 v || between 97 122 v || between 48 57 v.
Definition identifier (key : string) : Prop :=
  match bytes key with
  | [] => False
  | c :: l => nameChar c = true ∧ between 48 57 (byteVal c) = false ∧ Forall (λ c, nameChar c = true) l
  end.

(** ** Bytes *)

Lemma bytes_app s t : bytes (s +:+ t) = bytes s ++ bytes t.
Proof. induction s as [|c s IH]; [done|]. rewrite app_str_cons. cbn. by rewrite IH. Qed.
Lemma text_app l k : text (l ++ k) = text l +:+ text k.
Proof. induction l as [|c l IH]; [done|]. cbn [app String.string_of_list_ascii]. by rewrite IH, app_str_cons. Qed.
Lemma bytes_text l : bytes (text l) = l.
Proof. apply String.list_ascii_of_string_of_list_ascii. Qed.
Lemma text_bytes s : text (bytes s) = s.
Proof. apply String.string_of_list_ascii_of_string. Qed.

Lemma byteVal_range c : 0 ≤ byteVal c < 256.
Proof. unfold byteVal. pose proof (N_ascii_bounded c). lia. Qed.
Lemma byteOf_byteVal c : byteOf (byteVal c) = c.
Proof. unfold byteOf, byteVal. by rewrite N2Z.id, ascii_N_embedding. Qed.
Lemma byteVal_inj c v : byteVal c = v → c = byteOf v.
Proof. intros <-. by rewrite byteOf_byteVal. Qed.
Lemma byteVal_byteOf v : 0 ≤ v < 256 → byteVal (byteOf v) = v.
Proof. intros Hv. unfold byteOf, byteVal. rewrite N_ascii_embedding by lia. lia. Qed.

Lemma hex_all : forallb (λ d, bool_decide (hexDigit (hexByte d) = Some d) &&
    (between 48 57 (byteVal (hexByte d)) || between 97 102 (byteVal (hexByte d))))
  (Z.of_nat <$> seq 0 16) = true.
Proof. vm_compute. reflexivity. Qed.
Lemma hex_spec d :
  0 ≤ d < 16 → hexDigit (hexByte d) = Some d ∧
  between 48 57 (byteVal (hexByte d)) || between 97 102 (byteVal (hexByte d)) = true.
Proof.
  intros Hd. pose proof hex_all as Hall. rewrite forallb_forall in Hall.
  destruct (andb_prop _ _ (Hall d ltac:(apply list_elem_of_In, list_elem_of_fmap; exists (Z.to_nat d);
    rewrite elem_of_seq; lia))) as [H1%bool_decide_eq_true_1 H2]. done.
Qed.

(** ** Escapes *)

(** A byte is written as it is, or as an escape that stands for it. *)
Inductive written (c : ascii) : list ascii → Prop :=
| written_plain : between 32 126 (byteVal c) = true → byteVal c ≠ 34 → byteVal c ≠ 92 → written c [c]
| written_escape rest :
    (∀ l, unquoteEscape (rest ++ l) = Some ([c], l)) →
    (∃ d tail, rest = d :: tail ∧ Forall (λ d, byteVal d ≠ 34 ∧ byteVal d ≠ 92) tail) →
    Forall (λ d, between 32 126 (byteVal d) = true) rest → written c ("\"%char :: rest).

Lemma escape_written c : written c (escapeByte c).
Proof.
  pose proof (byteVal_range c) as Hc. unfold escapeByte. destruct (Z.eqb_spec (byteVal c) 34) as [H|H1]; cbn [orb].
  { apply byteVal_inj in H as ->. apply written_escape; [done| |repeat constructor]. eexists _, []. by repeat constructor. }
  destruct (Z.eqb_spec (byteVal c) 92) as [H|H2].
  { apply byteVal_inj in H as ->. apply written_escape; [done| |repeat constructor]. eexists _, []. by repeat constructor. }
  destruct (between 32 126 (byteVal c)) eqn:H3; [by apply written_plain|].
  destruct (hex_spec (byteVal c / 16)) as [Ha1 Ha2]; [Z.div_mod_to_equations; lia|].
  destruct (hex_spec (byteVal c mod 16)) as [Hb1 Hb2]; [Z.div_mod_to_equations; lia|].
  set (a := hexByte (byteVal c / 16)) in *. set (b := hexByte (byteVal c mod 16)) in *. unfold between in Ha2, Hb2.
  apply written_escape.
  - intros l. cbn [app]. unfold unquoteEscape. rewrite !(bool_decide_false ("x"%char = _)) by done.
    rewrite bool_decide_true by done. cbn [hexDigits]. rewrite Ha1. cbn [mbind option_bind]. rewrite Hb1.
    cbn [mbind option_bind].
    replace ((0 * 16 + byteVal c / 16) * 16 + byteVal c mod 16) with (byteVal c) by (Z.div_mod_to_equations; lia).
    by rewrite byteOf_byteVal.
  - eexists _, [a; b]. split; [done|]. repeat (apply Forall_cons; split); [lia|lia|by apply Forall_nil].
  - unfold between. repeat (apply Forall_cons; split); [done|lia|lia|by apply Forall_nil].
Qed.

Lemma closing_step index c l :
  closingQuote index false (escapeByte c ++ l) = closingQuote (index + length (escapeByte c)) false l.
Proof.
  assert (∀ d, byteVal d ≠ 34 → byteVal d ≠ 92 → bool_decide (d = "\"%char) = false ∧ bool_decide (d = quote) = false) as Hd.
  { intros d Hq Hb. split; apply bool_decide_false; intros ->; done. }
  assert (∀ t i, Forall (λ d, byteVal d ≠ 34 ∧ byteVal d ≠ 92) t →
    closingQuote i false (t ++ l) = closingQuote (i + length t) false l) as Htail.
  { induction t as [|d t IH]; intros i Ht; [by rewrite Nat.add_0_r|]. inversion_clear Ht as [|? ? [Hq Hb] Ht'].
    cbn [app closingQuote length]. destruct (Hd d Hq Hb) as [-> ->]. rewrite IH by done. f_equal. lia. }
  destruct (escape_written c) as [H1 H2 H3|rest _ (d & t & -> & Ht) _].
  - apply (Htail [c]). by repeat constructor.
  - cbn [app closingQuote length]. rewrite bool_decide_true by done. rewrite Htail by done. f_equal. lia.
Qed.

Lemma decodeRune_ascii c l : byteVal c <? 0x80 = true → decodeRune (c :: l) = (byteVal c, 1%nat).
Proof. intros Hc. unfold decodeRune. cbn [fmap list_fmap]. by rewrite Hc. Qed.

(** ** Values *)

Lemma unquoteLoop_escape value turns acc :
  (length (bytes value) < turns)%nat →
  unquoteLoop turns (escape value ++ [quote]) acc = Some (acc ++ bytes value).
Proof.
  unfold escape. generalize (bytes value). intros l. revert turns acc.
  induction l as [|c l IH]; intros turns acc Ht; (destruct turns as [|turns]; [cbn in Ht; lia|]).
  { cbn. by rewrite app_nil_r. }
  change ((c :: l) ≫= escapeByte) with (escapeByte c ++ (l ≫= escapeByte)). rewrite <-app_assoc.
  set (rest := (l ≫= escapeByte) ++ [quote]).
  destruct (escape_written c) as [H1 H2 H3|r Hr _ _].
  - assert (byteVal c ≠ 10 ∧ byteVal c <? 0x80 = true) as [H4 H5] by (unfold between in H1; lia).
    cbn [app unquoteLoop]. rewrite (proj2 (Z.eqb_neq _ _) H2), (proj2 (Z.eqb_neq _ _) H4).
    rewrite (bool_decide_false (c = "\"%char)) by (by intros ->). rewrite decodeRune_ascii by done. rewrite H5.
    change (drop 1 (c :: rest)) with rest. unfold rest. rewrite IH by (cbn in Ht; lia). by rewrite <-app_assoc.
  - cbn [app unquoteLoop]. change (byteVal "\"%char =? 34) with false. change (byteVal "\"%char =? 10) with false.
    rewrite (bool_decide_true ("\"%char = "\"%char)) by done. rewrite Hr. cbn [mbind option_bind]. unfold rest.
    rewrite IH by (cbn in Ht; lia). by rewrite <-app_assoc.
Qed.

Lemma closing_escape value index : closingQuote index false (escape value ++ [quote]) = Some (index + length (escape value))%nat.
Proof.
  unfold escape. generalize (bytes value). intros l. revert index. induction l as [|c l IH]; intros index.
  { cbn. f_equal. lia. }
  change ((c :: l) ≫= escapeByte) with (escapeByte c ++ (l ≫= escapeByte)).
  rewrite <-app_assoc, closing_step, IH, length_app. f_equal. lia.
Qed.

Lemma escape_length value : (length (bytes value) ≤ length (escape value))%nat.
Proof.
  unfold escape. generalize (bytes value). intros l. induction l as [|c l IH]; [done|].
  change ((c :: l) ≫= escapeByte) with (escapeByte c ++ (l ≫= escapeByte)). rewrite length_app. cbn [length].
  assert (1 ≤ length (escapeByte c))%nat by (destruct (escape_written c); cbn; lia). lia.
Qed.

Lemma take_all s : take_str (String.length s) s = s.
Proof.
  induction s as [|c s IH]; [done|].
  change (String c (take_str (String.length s) s) = String c s). by rewrite IH.
Qed.
Lemma drop_all s : drop_str (String.length s) s = "".
Proof. by induction s. Qed.

Lemma parse_quoted value : parseDotEnvValue (quoted value) = Ok value.
Proof.
  assert (String.length (quoted value) = S (S (length (escape value)))) as Hlen.
  { unfold quoted. rewrite <-length_list_ascii, bytes_text, !length_app. cbn. lia. }
  assert (findClosingDoubleQuote (quoted value) = Some (S (length (escape value)))) as Hclose.
  { unfold findClosingDoubleQuote, quoted. rewrite bytes_text.
    change (drop 1 ([quote] ++ escape value ++ [quote])) with (escape value ++ [quote]). by rewrite closing_escape. }
  unfold parseDotEnvValue. destruct (quoted value) as [|first rest] eqn:Hq; [done|].
  assert (first = quote) as -> by (unfold quoted in Hq; cbn in Hq; congruence).
  change (bool_decide (quote = "'"%char)) with false. rewrite bool_decide_true by done. rewrite Hclose, <-Hlen.
  rewrite drop_all, take_all. change (validateDotEnvTrailing "") with (@None error).
  rewrite <-Hq. unfold UnquoteDouble. rewrite Hq, Hlen, <-Hq. unfold quoted at 1. rewrite bytes_text. cbn [app].
  rewrite unquoteLoop_escape by (pose proof (escape_length value); lia). cbn. by rewrite text_bytes.
Qed.

(** ** Lines *)

Definition solid (c : ascii) : bool := between 33 126 (byteVal c).

Lemma solid_code c :
  solid c = true →
  (Space.code c <=? 13)%N = false ∧ (Space.code c =? 32)%N = false ∧ (128 <=? Space.code c)%N = false ∧
  ∀ n, (126 < n)%N → (Space.code c =? n)%N = false.
Proof.
  unfold solid, between, byteVal, Space.code. intros H. split_and!; [apply N.leb_gt|apply N.eqb_neq|apply N.leb_gt|]; [lia..|].
  intros n Hn. apply N.eqb_neq. lia.
Qed.

Lemma solid_front c l : solid c = true → Space.blank_front (c :: l) = false.
Proof.
  intros (H1 & H2 & H3 & H4)%solid_code. unfold Space.blank_front, Space.starts, Space.space1, Space.space2, Space.space3.
  rewrite H1, H2, !H4, andb_false_r by done. by destruct l as [|b [|d l]].
Qed.

Lemma solid_back l c : solid c = true → Space.blank_back (l ++ [c]) = false.
Proof.
  intros (H1 & H2 & H3 & H4)%solid_code. unfold Space.blank_back. rewrite reverse_snoc.
  unfold Space.starts, Space.space1, flip, Space.space2, Space.space3.
  destruct (reverse l) as [|b [|d k]]; rewrite ?H1, ?H2, ?H3, ?H4, !andb_false_r by done; done.
Qed.

Lemma solid_trimmed c l d : solid c = true → solid d = true → TrimSpace (text (c :: l ++ [d])) = text (c :: l ++ [d]).
Proof.
  intros Hc Hd. apply TrimSpace_id; rewrite bytes_text; [by apply solid_front|].
  by apply (solid_back (c :: l)).
Qed.

Lemma name_solid c : nameChar c = true → solid c = true ∧ c ≠ "="%char ∧ c ≠ " "%char ∧ byteVal c <? 0x80 = true.
Proof.
  unfold nameChar, solid, between. intros H. assert (byteVal c ≠ 61 ∧ byteVal c ≠ 32) as [H1 H2] by lia.
  split_and!; [lia|by intros ->|by intros ->|lia].
Qed.

Lemma quoted_trimmed value : TrimSpace (quoted value) = quoted value.
Proof. by apply (solid_trimmed quote (escape value) quote). Qed.

(** A name is a list of name characters that is not empty. *)
Lemma identifier_spec key :
  identifier key → ∃ c l, bytes key = c :: l ∧ Forall (λ c, nameChar c = true) (c :: l) ∧ between 48 57 (byteVal c) = false.
Proof.
  unfold identifier. destruct (bytes key) as [|c l]; [done|]. intros (H1 & H2 & H3). exists c, l.
  split_and!; [done|by constructor|done].
Qed.

Lemma identifier_trimmed key : identifier key → TrimSpace key = key.
Proof.
  intros (c & l & Hb & Hall & _)%identifier_spec. rewrite <-(text_bytes key), Hb.
  destruct l as [|d l] using rev_ind; [|clear IHl].
  - inversion_clear Hall. apply TrimSpace_id; rewrite bytes_text;
      [apply solid_front|apply (solid_back [])]; by apply name_solid.
  - apply Forall_cons in Hall as [Hc Hall]. apply Forall_app in Hall as [_ Hd]. inversion_clear Hd.
    apply solid_trimmed; by apply name_solid.
Qed.

Lemma runes_ascii l :
  Forall (λ c, byteVal c <? 0x80 = true) l → ∀ turns, (length l ≤ turns)%nat →
  runesLoop turns l = (λ c, (byteVal c, [c])) <$> l.
Proof.
  induction 1 as [|c l Hc _ IH]; intros turns Ht; (destruct turns as [|turns]; [cbn in *; done || lia|]); [done|].
  cbn [runesLoop]. rewrite decodeRune_ascii by done. cbn [take drop fmap list_fmap]. f_equal. apply IH. cbn in Ht. lia.
Qed.

Section Runes.
Context {tables : RuneTables}.

Lemma identifier_valid key : identifier key → validDotEnvKey key = true.
Proof.
  intros (c & l & Hb & Hall & Hd)%identifier_spec. unfold validDotEnvKey, runes. rewrite Hb.
  rewrite runes_ascii; cycle 1.
  { eapply Forall_impl; [exact Hall|]. intros d Hdn. by apply name_solid. }
  { by rewrite <-Hb, length_list_ascii. }
  cbn [fmap list_fmap]. apply Forall_cons in Hall as [Hc Hl].
  assert (∀ d, nameChar d = true → (byteVal d =? 95) || IsLetter (byteVal d) || IsDigit (byteVal d) = true) as Hname.
  { intros d. unfold nameChar, IsLetter, IsDigit. intros H. destruct (Z.leb_spec (byteVal d) 0xff); [|pose proof (byteVal_range d); lia].
    destruct (byteVal d =? 95), (between 65 90 (byteVal d)), (between 97 122 (byteVal d)), (between 48 57 (byteVal d)); done || (by rewrite ?orb_true_r). }
  apply andb_true_intro. split.
  - specialize (Hname c Hc). unfold IsDigit in Hname. pose proof (byteVal_range c).
    destruct (Z.leb_spec (byteVal c) 0xff); [|lia]. rewrite Hd in Hname. by rewrite orb_false_r in Hname.
  - apply forallb_forall. intros [v bs] Hin. apply list_elem_of_In, list_elem_of_fmap in Hin as (d & [= -> ->] & Hin).
    rewrite Forall_forall in Hl. by apply Hname, Hl.
Qed.

Lemma IndexByte_app key rest : "="%char ∉ bytes key → IndexByte (key +:+ String "="%char rest) "=" = Some (String.length key).
Proof.
  induction key as [|c key IH]; [done|]. cbn [String.list_ascii_of_string]. rewrite not_elem_of_cons. intros [Hne Hin].
  rewrite app_str_cons. cbn [IndexByte String.length]. rewrite bool_decide_false by done. by rewrite IH.
Qed.

Lemma take_str_app s t : take_str (String.length s) (s +:+ t) = s.
Proof.
  induction s as [|c s IH]; [by destruct t|]. rewrite app_str_cons.
  change (String c (take_str (String.length s) (s +:+ t)) = String c s). by rewrite IH.
Qed.

Lemma drop_str_after s c t : drop_str (S (String.length s)) (s +:+ String c t) = t.
Proof. induction s as [|d s IH]; [done|]. rewrite app_str_cons. exact IH. Qed.

Lemma no_export key rest : " "%char ∉ bytes key → HasPrefix (key +:+ String "="%char rest) "export " = false.
Proof.
  intros Hsp. apply Bool.not_true_iff_false. unfold HasPrefix. rewrite prefix_spec. intros [t Ht].
  apply (f_equal bytes) in Ht. rewrite !bytes_app in Ht. cbn [String.list_ascii_of_string] in Ht.
  assert (∀ p q u v : list ascii, p ++ "="%char :: u = q ++ v → "="%char ∉ q → ∃ w, p = q ++ w) as Hpre.
  { clear. induction p as [|a p IH]; intros [|b q] u v Heq Hq; [by exists []|..].
    - injection Heq as <- _. by destruct Hq; left.
    - by eexists.
    - injection Heq as -> Heq. apply not_elem_of_cons in Hq as [_ Hq]. destruct (IH q u v Heq Hq) as [w ->]. by exists w. }
  destruct (Hpre _ _ _ _ Ht) as [w Hw]; [set_solver|]. apply Hsp. rewrite Hw. set_solver.
Qed.

Lemma line_bytes key value : bytes (writeLine (key, value)) = bytes key ++ ["="%char; quote] ++ escape value ++ [quote].
Proof. unfold writeLine, quoted. cbn [fst snd]. rewrite !bytes_app, bytes_text. done. Qed.

Lemma parse_line n key value : identifier key → parseLine n (writeLine (key, value)) = Ok (Some (key, value)).
Proof.
  intros Hid. destruct (identifier_spec key Hid) as (c & l & Hb & Hall & _).
  assert ("="%char ∉ bytes key ∧ " "%char ∉ bytes key) as [Heq Hsp].
  { rewrite Hb. rewrite Forall_forall in Hall. split; intros Hin; by apply Hall, name_solid in Hin as (_ & ? & ? & _). }
  assert (nameChar c = true) as Hc by by inversion Hall.
  assert (writeLine (key, value) = text (c :: (l ++ ["="%char; quote] ++ escape value) ++ [quote])) as Hline.
  { rewrite <-(text_bytes (writeLine _)), line_bytes, Hb. f_equal. cbn [app]. by rewrite <-!app_assoc. }
  assert (TrimSpace (writeLine (key, value)) = writeLine (key, value)) as Htrim
    by (rewrite Hline; apply solid_trimmed; [by apply name_solid|done]).
  assert (TrimPrefix (writeLine (key, value)) (text (encodeRune 0xfeff)) = writeLine (key, value)) as Hbom.
  { rewrite Hline. unfold TrimPrefix, HasPrefix. change (text (encodeRune 0xfeff)) with (String "239" (String "187" (String "191" ""))).
    cbn [String.string_of_list_ascii String.prefix]. destruct (ascii_dec "239" c) as [<-|]; [done|done]. }
  unfold parseLine. assert ((if bool_decide (n = 1%nat) then TrimPrefix (writeLine (key, value)) (text (encodeRune 0xfeff))
    else writeLine (key, value)) = writeLine (key, value)) as -> by (by case_bool_decide).
  rewrite Htrim.
  assert (HasPrefix (writeLine (key, value)) "#" = false) as Hhash.
  { rewrite Hline. unfold HasPrefix. cbn [String.string_of_list_ascii String.prefix].
    destruct (ascii_dec "#" c) as [<-|]; [done|done]. }
  rewrite (bool_decide_false (writeLine (key, value) = "")) by (by rewrite Hline). rewrite Hhash. cbn [orb].
  unfold writeLine. cbn [fst snd]. change ("=" +:+ quoted value) with (String "="%char (quoted value)).
  rewrite no_export by done. rewrite IndexByte_app by done.
  destruct (String.length key) as [|n'] eqn:Hlen; [by destruct key|]. rewrite <-Hlen, take_str_app, drop_str_after.
  rewrite identifier_trimmed by done. rewrite identifier_valid by done. cbn [negb].
  rewrite quoted_trimmed, parse_quoted. done.
Qed.

(** ** Files *)

Lemma line_free key value : identifier key → free "010"%char (writeLine (key, value)).
Proof.
  intros (c & l & Hb & Hall & _)%identifier_spec. unfold free. rewrite line_bytes, Hb, !not_elem_of_app. split_and!.
  - intros Hin. rewrite Forall_forall in Hall. by apply Hall in Hin.
  - set_solver.
  - unfold escape. intros (d & Hin & _)%list_elem_of_bind.
    assert (Forall (λ d, between 32 126 (byteVal d) = true) (escapeByte d)) as Hp.
    { destruct (escape_written d); repeat constructor; done. }
    rewrite Forall_forall in Hp. by apply Hp in Hin.
  - set_solver.
Qed.

Lemma scanned_write entries :
  Forall (λ e, identifier e.1) entries → scanned (writeDotEnv entries) = writeLine <$> entries.
Proof.
  intros Hall. assert (Split "010"%char (writeDotEnv entries) = (writeLine <$> entries) ++ [""]) as Hs.
  { induction Hall as [|[key value] entries Hid _ IH]; [done|]. cbn [writeDotEnv]. rewrite Split_sep by by apply line_free.
    by rewrite IH. }
  unfold scanned. rewrite Hs, last_snoc. apply removelast_last.
Qed.

Lemma dropCR_line key value : dropCR (writeLine (key, value)) = writeLine (key, value).
Proof.
  unfold dropCR, TrimSuffix. case_bool_decide as Hcr; [|done]. exfalso.
  assert (writeLine (key, value) = text (bytes key ++ ["="%char; quote] ++ escape value) +:+ String quote "") as Hl.
  { rewrite <-(text_bytes (writeLine _)), line_bytes. by rewrite !text_app, !app_str_assoc. }
  rewrite Hl in Hcr. revert Hcr. set (s := text _). rewrite length_app_str.
  change (String.length (String quote "")) with 1%nat. change (String.length (String "013"%char "")) with 1%nat.
  rewrite Nat.add_sub, drop_str_app. done.
Qed.

Lemma parse_lines entries n values :
  Forall (λ e, identifier e.1) entries → Forall (λ e, len (writeLine e) < maxTokenSize) entries →
  parseLines n (writeLine <$> entries) values = Ok (foldl (λ m e, <[e.1 := e.2]> m) values entries).
Proof.
  intros Hid Hlen. revert n values. induction Hid as [|[key value] entries Hk _ IH]; intros n values; [done|].
  apply Forall_cons in Hlen as [Hl Hlen]. cbn [fmap list_fmap parseLines foldl].
  destruct (Z.leb_spec maxTokenSize (len (writeLine (key, value)))); [lia|].
  rewrite dropCR_line, parse_line by done. cbn [result_bind]. by apply IH.
Qed.

(** C33.  Settings survive the file.  Whatever the values are, bytes of any
    kind included, writing each under a name in double quotes, with quotes,
    backslashes and unprintable bytes escaped, gives a file the parser reads
    back to the same settings, the last one when a name is repeated, as long
    as every line is shorter than the scanner's megabyte. *)
Theorem dotenv_round_trip entries :
  Forall (λ e, identifier e.1) entries → Forall (λ e, len (writeLine e) < maxTokenSize) entries →
  parseDotEnv (writeDotEnv entries) None = Ok (list_to_map (reverse entries)).
Proof.
  intros Hid Hlen. unfold parseDotEnv. rewrite scanned_write, parse_lines by done. cbn [result_bind]. f_equal.
  clear Hid Hlen. induction entries as [|[key value] entries IH] using rev_ind; [done|].
  rewrite foldl_app, reverse_snoc, IH. done.
Qed.
End Runes.

Lemma dotenv_round_trip_witness :
  let entries := [("A", "x # y"); ("B_1", String quote (String "010" "z")); ("A", "")] in
  parseDotEnv (tables:=latin_tables) (writeDotEnv entries) None = Ok (list_to_map (reverse entries)).
Proof.
  apply (dotenv_round_trip (tables:=latin_tables)).
  - repeat constructor.
  - repeat constructor.
Defined.

End DotEnvProofs.
