(* ===== verification/Sender.v ===== *)
(** * Push senders: [internal/push/sender.go], [internal/push/apns.go]

    Notifications leave through APNs, Firebase or UnifiedPush.  The APNs
    sender signs its provider tokens and renews them; what its two
    collaborators do with a message (the Firebase SDK, the Web Push library)
    is outside and part of the record [Env], as are JSON, the parsing of keys
    and the signature itself.  The requests and messages that leave are
    recorded; nothing reads the record. *)

From stdpp Require Import pretty.
From S2P Require Import Prelude GoStrings NetIP Config Credentials Domain Subscriptions Outbound DotEnv ConfigLoad.

Module Sender.
Module N := Notification.
Module R := Registration.

(** ** Data *)

Definition apnsProductionEndpoint : string := "https://api.push.apple.com".
Definition apnsSandboxEndpoint : string := "https://api.sandbox.push.apple.com".
Definition apnsMaximumPayloadSize : Z := 4096.
Definition apnsTokenRefreshAge : duration := 50 * Minute.

Record apnsAlert := mkAlert { AlertTitle : string; AlertBody : string }.
Record apnsAPS := mkAPS { Alert : option apnsAlert; Sound : string; ContentAvailable : Z }.
Record apnsPayload := mkPayload { APS : apnsAPS; Ferventio : N.t }.

(** A request to APNs and the answer. *)
Record apnsRequest := mkRequest {
  URL : string;
  Authorization : string;
  Topic : string;
  PushType : string;
  Priority : string;
  Content : string
}.

(** A key: the name of its curve ([None] for another kind of key) and the
    signature of a digest, with the reading of the random source. *)
Record privateKey := mkKey { Curve : option string; Sign : nat → string → result (Z * Z) }.

(** The configured part of [apnsSender]. *)
Record apnsSender := mkAPNsSender {
  teamID : string;
  keyID : string;
  bundleID : string;
  key : privateKey;
  endpoint : string
}.

Record Env := mkEnv {
  clock : nat → time;
  (** [pem.Decode] (block and rest) and [x509.ParsePKCS8PrivateKey] *)
  pemDecode : string → option (string * string);
  parsePKCS8 : string → result privateKey;
  (** [json.Marshal] of the token's header and claims, of the payload and of
      a notification; the reason [json.Unmarshal] finds in an error *)
  marshalHeader : string → result string;
  marshalClaims : string → Z → result string;
  marshalAPNs : apnsPayload → result string;
  marshalNotification : N.t → result string;
  decodeReason : string → string;
  StatusText : Z → string;
  (** APNs, the Firebase client and the Web Push library *)
  Do : nat → apnsRequest → result Subscriptions.reply;
  firebase : nat → string → string → option error;
  webpush : nat → string → string → string → string → result Z;
  (** [url.Parse] *)
  parseURL : string → option NetURL.URL
}.

(** The mutable part: the cached token, how much was read from outside, and
    what was sent: requests to APNs, and endpoints of UnifiedPush. *)
Record state := mkState {
  cachedToken : string;
  tokenIssued : time;
  readings : nat;
  posted : list apnsRequest;
  pushed : list string
}.
#[global] Instance eta_state : Eta state := λ s,
  mkState (cachedToken s) (tokenIssued s) (readings s) (posted s) (pushed s).

Definition newState : state := mkState "" 0 0 [] [].

(** [url.PathEscape]. *)
Definition pathSegment (c : ascii) : bool :=
  let v := Z.of_N (N_of_ascii c) in
  unreserved c || (v =? 36) || (v =? 38) || (v =? 43) || (v =? 58) || (v =? 61) || (v =? 64).
Fixpoint PathEscape (s : string) : string :=
  match s with
  | "" => ""
  | String c s =>
      if pathSegment c then String c (PathEscape s) else
      let v := Z.of_N (N_of_ascii c) in
      String "%" (String (upperHex (v / 16)) (String (upperHex (v mod 16)) (PathEscape s)))
  end.

(** [%q], of a text without special characters. *)
Definition quoted (s : string) : string := String "034" (s +:+ String "034" "").

(** [time.Unix]: seconds since 1970. *)
Definition Unix (t : time) : Z := t / 1000000000 - 62135596800.

(** [big.Int.FillBytes]: big-endian, in that many bytes. *)
Fixpoint fillBytes (size : nat) (n : Z) : string :=
  match size with
  | O => ""
  | S size => String (Base64.Zbyte (n / 256 ^ Z.of_nat size mod 256)) (fillBytes size n)
  end.

Section Sender.
Context {sha : Sha256} (E : Env).
Implicit Types (s : state).

Definition now : M state time := λ s, (s <| readings := S (readings s) |>, Ok (clock E (readings s))).

(** ** Provider tokens *)

Definition parseAPNsPrivateKey (encoded : string) : result privateKey :=
  match ConfigLoad.decodeBase64 true true (TrimSpace encoded) with
  | None => Err (ErrMsg "decode APNs private key: illegal base64 data")
  | Some contents =>
      match pemDecode E contents with
      | None => Err (ErrMsg "APNs private key must contain exactly one PEM block")
      | Some (block, rest) =>
          if TrimSpace rest != "" then Err (ErrMsg "APNs private key must contain exactly one PEM block") else
          match parsePKCS8 E block with
          | Err err => Err (ErrMsg ("parse APNs private key: " +:+ Error err))
          | Ok parsed =>
              if Curve parsed == Some "P-256" then Ok parsed
              else Err (ErrMsg "APNs private key must be an ECDSA P-256 key")
          end
      end
  end.

(** No sender when APNs is switched off. *)
Definition newAPNsSender (cfg : ConfigLoad.APNsConfig) : result (option apnsSender) :=
  if negb (ConfigLoad.APNsEnabled cfg) then Ok None else
  let? parsed := parseAPNsPrivateKey (ConfigLoad.PrivateKeyBase64 cfg) in
  let endpoint := if ConfigLoad.Environment cfg == ConfigLoad.APNsEnvironmentSandbox
                  then apnsSandboxEndpoint else apnsProductionEndpoint in
  Ok (Some (mkAPNsSender (ConfigLoad.TeamID cfg) (ConfigLoad.KeyID cfg) (ConfigLoad.BundleID cfg) parsed endpoint)).

Definition makeAPNsProviderToken (a : apnsSender) (t : time) : M state string := λ s,
  match marshalHeader E (keyID a), marshalClaims E (teamID a) (Unix t) with
  | Ok header, Ok claims =>
      let unsigned := Base64.EncodeToString header +:+ "." +:+ Base64.EncodeToString claims in
      (s <| readings := S (readings s) |>,
       match Sign (key a) (readings s) (sha256 unsigned) with
       | Err err => Err (ErrMsg ("sign APNs provider token: " +:+ Error err))
       | Ok (r, signatureS) =>
           Ok (unsigned +:+ "." +:+ Base64.EncodeToString (fillBytes 32 r +:+ fillBytes 32 signatureS))
       end)
  | Err err, _ => (s, Err err)
  | _, Err err => (s, Err err)
  end.

Definition providerToken (a : apnsSender) (force : bool) : M state string :=
  let! t := now in λ s,
  if negb force && (cachedToken s != "") && (Sub t (tokenIssued s) <? apnsTokenRefreshAge) then (s, Ok (cachedToken s)) else
  (let! token := makeAPNsProviderToken a t in λ s,
   (s <| cachedToken := token |> <| tokenIssued := t |>, Ok token)) s.

(** ** APNs *)

(** The payload with its push type and priority. *)
Definition makeAPNsPayload (notification : N.t) : result (string * string * string) :=
  let '(aps, pushType, priority) :=
    if N.Silent notification then (mkAPS None "" 1, "background", "5")
    else (mkAPS (Some (mkAlert (N.Title notification) (N.Body notification))) "default" 0, "alert", "10") in
  match marshalAPNs E (mkPayload aps notification) with
  | Err err => Err (ErrMsg ("encode APNs payload: " +:+ Error err))
  | Ok payload =>
      if apnsMaximumPayloadSize <? len payload then Err (ErrMsg "APNs payload exceeds 4096 bytes")
      else Ok (payload, pushType, priority)
  end.

Definition post (request : apnsRequest) : M state Subscriptions.reply := λ s,
  (s <| readings := S (readings s) |> <| posted := posted s ++ [request] |>, Do E (readings s) request).

Definition apnsRequestOf (a : apnsSender) (token deviceToken payload pushType priority : string) : apnsRequest :=
  mkRequest (TrimSuffix (endpoint a) "/" +:+ "/3/device/" +:+ PathEscape deviceToken) ("bearer " +:+ token) (bundleID a)
    pushType priority payload.

(** One attempt: [None] when it may be repeated with a new token. *)
Definition attempt (a : apnsSender) (deviceToken payload pushType priority : string) (allowTokenRefresh : bool)
    : M state (option ()) :=
  let! token := providerToken a false in
  let! response := annotate "send APNs request" (post (apnsRequestOf a token deviceToken payload pushType priority)) in
  if Subscriptions.StatusCode response =? 200 then ret (Some ()) else
  let body := Subscriptions.limited (Z.shiftl 16 10) (Subscriptions.Payload response) in
  let reason := decodeReason E body in
  if allowTokenRefresh && (Subscriptions.StatusCode response =? 403) && (reason == "ExpiredProviderToken") then ret None else
  let reason := if reason == "" then TrimSpace body else reason in
  let reason := if reason == "" then StatusText E (Subscriptions.StatusCode response) else reason in
  fail (ErrMsg ("APNs returned HTTP " +:+ pretty (Subscriptions.StatusCode response) +:+ ": " +:+ reason)).

Definition send (a : apnsSender) (deviceToken payload pushType priority : string) : M state () :=
  let! first := attempt a deviceToken payload pushType priority true in
  match first with
  | Some () => ret ()
  | None =>
      let! _ := providerToken a true in
      let! _ := attempt a deviceToken payload pushType priority false in ret ()
  end.

Definition apnsSend (a : apnsSender) (deviceToken : string) (notification : N.t) : M state () :=
  let deviceToken := TrimSpace deviceToken in
  if deviceToken == "" then fail (ErrMsg "APNs device token is empty") else
  match makeAPNsPayload notification with
  | Err err => fail err
  | Ok (payload, pushType, priority) => send a deviceToken payload pushType priority
  end.

(** ** The sender *)

(** The configured part of [Sender]. *)
Record SenderConfig := mkSender {
  firebaseConfigured : bool;
  apns : option apnsSender;
  vapidPublicKey : string;
  vapidPrivateKey : string
}.

(** [firebaseErr] is the outcome of the Firebase client's initialization,
    [apnsConfig] that of [LoadAPNsConfig]. *)
Definition NewSender (cfg : Config.Config) (firebaseErr : option error) (apnsConfig : result ConfigLoad.APNsConfig)
    : result SenderConfig :=
  match (if ConfigLoad.FirebaseMessagingEnabled cfg then firebaseErr else None) with
  | Some err => Err err
  | None =>
      match apnsConfig with
      | Err err => Err (ErrMsg ("load APNs configuration: " +:+ Error err))
      | Ok apnsConfig =>
          match newAPNsSender apnsConfig with
          | Err err => Err (ErrMsg ("initialize APNs sender: " +:+ Error err))
          | Ok apns =>
              Ok (mkSender (ConfigLoad.FirebaseMessagingEnabled cfg) apns (Config.VAPIDPublicKey cfg)
                    (Config.VAPIDPrivateKey cfg))
          end
      end
  end.

Definition sendFCM (c : SenderConfig) (fid payload : string) : M state () := λ s,
  if negb (firebaseConfigured c) then (s, Err (ErrMsg "FCM is not configured on the server")) else
  if fid == "" then (s, Err (ErrMsg "Firebase installation ID is empty")) else
  (s <| readings := S (readings s) |>,
   match firebase E (readings s) fid payload with
   | Some err => Err (ErrMsg ("send FCM message: " +:+ Error err))
   | None => Ok ()
   end).

Definition sendUnifiedPush (c : SenderConfig) (registration : R.t) (payload : string) : M state () := λ s,
  if (vapidPublicKey c == "") || (vapidPrivateKey c == "") then (s, Err (ErrMsg "VAPID is not configured on the server")) else
  if (R.Endpoint registration == "") || (R.P256DH registration == "") || (R.Auth registration == "")
  then (s, Err (ErrMsg "UnifiedPush Web Push subscription is incomplete")) else
  match Outbound.ValidatePublicHTTPSURL (parseURL E) (R.Endpoint registration) with
  | Some err => (s, Err (ErrMsg ("UnifiedPush endpoint is not allowed: " +:+ Error err)))
  | None =>
      (s <| readings := S (readings s) |> <| pushed := pushed s ++ [R.Endpoint registration] |>,
       match webpush E (readings s) payload (R.Endpoint registration) (R.P256DH registration) (R.Auth registration) with
       | Err err => Err (ErrMsg ("send UnifiedPush message: " +:+ Error err))
       | Ok status =>
           if (status <? 200) || (300 <=? status)
           then Err (ErrMsg ("UnifiedPush endpoint returned HTTP " +:+ pretty status)) else Ok ()
       end)
  end.

Definition Send (c : SenderConfig) (registration : R.t) (notification : N.t) : M state () :=
  if R.Provider registration == "apns" then
    match apns c with
    | None => fail (ErrMsg "APNs is not configured on the server")
    | Some a => apnsSend a (R.APNsDeviceToken registration) notification
    end
  else
    match marshalNotification E notification with
    | Err err => fail (ErrMsg ("encode notification: " +:+ Error err))
    | Ok payload =>
        if R.Provider registration == "fcm" then sendFCM c (R.FirebaseInstallation registration) payload else
        if R.Provider registration == "unifiedpush" then sendUnifiedPush c registration payload else
        fail (ErrMsg ("unsupported provider " +:+ quoted (R.Provider registration)))
    end.
End Sender.
End Sender.
