(* ===== verification/SenderProofs.v ===== *)
(** * Push senders: theorems

    What leaves for APNs and UnifiedPush, how the provider tokens are made and
    how long they are used. *)

From S2P Require Import Prelude GoStrings NetIP Config Credentials Domain Subscriptions Outbound OutboundProofs ConfigLoad Sender.

Module SenderProofs.
Import Sender.

(** ** Text without delimiters *)




Lemma get_elem n s c : String.get n s = Some c → c ∈ String.list_ascii_of_string s.
Proof.
  revert n. induction s as [|d s IH]; intros n; [by destruct n|]. destruct n as [|n]; cbn; [intros [= <-]; by left|].
  intros Hn. right. by apply (IH n).
Qed.

Lemma enc6_dot z : Base64.enc6 z ≠ "."%char.
Proof.
  unfold Base64.enc6. destruct (String.get _ _) as [c|] eqn:Hc; [|done]. apply get_elem in Hc. intros ->.
  assert (bool_decide ("."%char ∈ String.list_ascii_of_string Base64.alphabet) = false) as H by by vm_compute.
  by apply bool_decide_eq_false in H.
Qed.

Lemma encode_free s : free "." (Base64.EncodeToString s).
Proof.
  unfold free. induction s as [|a|a b|a b c s IH] using Base64.string_ind3; cbn [Base64.EncodeToString String.list_ascii_of_string];
    rewrite ?not_elem_of_cons; split_and?; try done; try apply not_elem_of_nil; apply not_eq_sym, enc6_dot.
Qed.

Lemma Split_dot s t : free "." s → Split "." (s +:+ "." +:+ t) = s :: Split "." t.
Proof. intros Hs. by rewrite <- (Split_sep "." s t). Qed.

(** ** Big-endian numbers *)

(** Reading the bytes back. *)
Fixpoint readBytes (s : string) : Z :=
  match s with
  | "" => 0
  | String c s => Base64.byteZ c * 256 ^ Z.of_nat (String.length s) + readBytes s
  end.

Lemma length_fillBytes size n : String.length (fillBytes size n) = size.
Proof. induction size as [|size IH]; [done|]. cbn. by rewrite IH. Qed.

Lemma byteZ_Zbyte z : 0 ≤ z < 256 → Base64.byteZ (Base64.Zbyte z) = z.
Proof. intros Hz. unfold Base64.byteZ, Base64.Zbyte. rewrite N_ascii_embedding by lia. lia. Qed.

Lemma readBytes_fillBytes size n : 0 ≤ n → readBytes (fillBytes size n) = n mod 256 ^ Z.of_nat size.
Proof.
  intros Hn. induction size as [|size IH]; [cbn; by rewrite Z.mod_1_r|]. cbn [fillBytes readBytes]. rewrite IH, length_fillBytes.
  rewrite byteZ_Zbyte by (apply Z.mod_pos_bound; lia). rewrite Nat2Z.inj_succ, Z.pow_succ_r by lia.
  assert (0 < 256 ^ Z.of_nat size) as Hpos by (apply Z.pow_pos_nonneg; lia).
  rewrite (Z.mul_comm 256), Z.rem_mul_r by lia. lia.
Qed.

Lemma take_fill_str s t : take_str (String.length s) (s +:+ t) = s.
Proof. induction s as [|c s IH]; [by destruct t|]. rewrite app_str_cons. cbn [String.length]. unfold take_str. fold take_str. by rewrite IH. Qed.
Lemma drop_fill_str s t : drop_str (String.length s) (s +:+ t) = t.
Proof. induction s as [|c s IH]; [done|]. rewrite app_str_cons. cbn. exact IH. Qed.

Section Proofs.
Context {sha : Sha256} (E : Env).
Implicit Types (s : state).

(** A provider token can be read back.  A token the sender makes has
    three parts separated by dots, which decode to the header with the key's
    identifier, to the claims with the team and the time, and to the 64 bytes
    of the signature: both numbers of the signature of exactly the first two
    parts are recovered from it. *)
Theorem provider_token_round_trip a t s s' token :
  makeAPNsProviderToken E a t s = (s', Ok token) →
  (∀ n digest r signatureS, Sign (key a) n digest = Ok (r, signatureS) → 0 ≤ r < 256 ^ 32 ∧ 0 ≤ signatureS < 256 ^ 32) →
  ∃ h c g header claims signature r signatureS,
    Split "." token = [h; c; g] ∧
    Base64.DecodeString h = Some header ∧ marshalHeader E (keyID a) = Ok header ∧
    Base64.DecodeString c = Some claims ∧ marshalClaims E (teamID a) (Unix t) = Ok claims ∧
    Base64.DecodeString g = Some signature ∧ String.length signature = 64%nat ∧
    Sign (key a) (readings s) (sha256 (h +:+ "." +:+ c)) = Ok (r, signatureS) ∧
    readBytes (take_str 32 signature) = r ∧ readBytes (drop_str 32 signature) = signatureS.
Proof.
  intros Hmake Hrange. unfold makeAPNsProviderToken in Hmake. destruct (marshalHeader E (keyID a)) as [header|] eqn:Hh; [|done].
  destruct (marshalClaims E (teamID a) (Unix t)) as [claims|] eqn:Hc; [|done]. cbv zeta in Hmake.
  set (unsigned := Base64.EncodeToString header +:+ "." +:+ Base64.EncodeToString claims) in *.
  destruct (Sign (key a) (readings s) (sha256 unsigned)) as [[r signatureS]|] eqn:Hsign; [|done].
  destruct (Hrange _ _ _ _ Hsign) as [Hr Hs]. remember (fillBytes 32 r +:+ fillBytes 32 signatureS) as signature eqn:Hsig.
  assert (token = unsigned +:+ "." +:+ Base64.EncodeToString signature) as -> by congruence. clear Hmake.
  exists (Base64.EncodeToString header), (Base64.EncodeToString claims), (Base64.EncodeToString signature), header, claims,
    signature, r, signatureS.
  rewrite !Base64.decode_encode. split_and!; [|done|done|done|done|done|..].
  - unfold unsigned. rewrite !app_str_assoc, !Split_dot by apply encode_free. by rewrite Split_free by apply encode_free.
  - by rewrite Hsig, length_app_str, !length_fillBytes.
  - done.
  - rewrite Hsig. rewrite <- (length_fillBytes 32 r) at 1. rewrite take_fill_str, readBytes_fillBytes by lia. apply Z.mod_small. lia.
  - rewrite Hsig. rewrite <- (length_fillBytes 32 r) at 1. rewrite drop_fill_str, readBytes_fillBytes by lia. apply Z.mod_small. lia.
Qed.

(** ** What is sent *)

(** The token was made with the sender's key at that time. *)
Definition madeAt a (t : time) (token : string) : Prop := ∃ s s', makeAPNsProviderToken E a t s = (s', Ok token).

Definition cacheOk a s : Prop := cachedToken s ≠ "" → madeAt a (tokenIssued s) (cachedToken s).

(** A token in use between two moments: made less than fifty minutes before a
    reading of the clock between them, or at that reading. *)
Definition fresh a (from to : nat) (token : string) : Prop :=
  ∃ t k, (from ≤ k < to)%nat ∧ madeAt a t token ∧ (Sub (clock E k) t < 50 * Minute ∨ clock E k = t).

Lemma fresh_weaken a from to from' to' token :
  (from' ≤ from)%nat → (to ≤ to')%nat → fresh a from to token → fresh a from' to' token.
Proof. intros H1 H2 (t & k & Hk & ?). exists t, k. split; [lia|done]. Qed.

(** The requests made since, if any. *)
Definition sends s s' (requests : list apnsRequest) : Prop :=
  posted s' = posted s ++ requests ∧ pushed s' = pushed s ∧ (readings s ≤ readings s')%nat.

Lemma makeToken_frame a t s :
  sends s (makeAPNsProviderToken E a t s).1 [] ∧ cachedToken (makeAPNsProviderToken E a t s).1 = cachedToken s ∧
  tokenIssued (makeAPNsProviderToken E a t s).1 = tokenIssued s.
Proof.
  unfold makeAPNsProviderToken, sends. destruct (marshalHeader E _); [|rewrite app_nil_r; split_and!; done || lia].
  destruct (marshalClaims E _ _); [|rewrite app_nil_r; split_and!; done || lia]. cbn. rewrite app_nil_r. split_and!; done || lia.
Qed.

Lemma providerToken_spec a force s : cacheOk a s →
  cacheOk a (providerToken E a force s).1 ∧ sends s (providerToken E a force s).1 [] ∧
  ∀ token, (providerToken E a force s).2 = Ok token → fresh a (readings s) (readings (providerToken E a force s).1) token.
Proof.
  intros Hc. unfold providerToken, bind, now.
  destruct (negb force && _ && _) eqn:Huse.
  { apply andb_prop in Huse as [[_ Hne]%andb_prop Hage]. apply negb_true_iff, bool_decide_eq_false in Hne. cbn in Hne, Hage.
    split_and!; [done|split_and!; [by rewrite app_nil_r|done|cbn; lia]|]. intros token [= <-]. exists (tokenIssued s), (readings s).
    split_and!; [lia|cbn; lia|by apply Hc|]. left. unfold apnsTokenRefreshAge in Hage. lia. }
  set (s1 := s <| readings := _ |>). destruct (makeToken_frame a (clock E (readings s)) s1) as (Hs & Hct & Hti).
  destruct (makeAPNsProviderToken E a (clock E (readings s)) s1) as [s2 [token|e]] eqn:Hm; cbn [fst snd] in *.
  - assert (madeAt a (clock E (readings s)) token) as Hmade by by exists s1, s2.
    destruct Hs as (Hs1 & Hs2 & Hs3). cbn in Hs3. split_and!; [by intros _|split_and!; cbn; done || lia|].
    intros tok [= <-]. exists (clock E (readings s)), (readings s). cbn. split_and!; [lia|lia|done|by right].
  - destruct Hs as (Hs1 & Hs2 & Hs3). cbn in Hs3. split_and!; [|split_and!; done || lia|done].
    unfold cacheOk. rewrite Hct, Hti. exact Hc.
Qed.

(** A request of the sender for the device and the payload. *)
Definition proper a (from to : nat) (deviceToken payload pushType priority : string) (r : apnsRequest) : Prop :=
  ∃ token, fresh a from to token ∧ r = apnsRequestOf a token deviceToken payload pushType priority.

Lemma proper_weaken a from to from' to' d payload pushType priority requests :
  (from' ≤ from)%nat → (to ≤ to')%nat → Forall (proper a from to d payload pushType priority) requests →
  Forall (proper a from' to' d payload pushType priority) requests.
Proof.
  intros H1 H2 Hf. eapply Forall_impl; [exact Hf|]. intros r (token & Ht & ->). exists token. split; [|done]. by eapply fresh_weaken.
Qed.

Lemma attempt_spec a deviceToken payload pushType priority allow s : cacheOk a s →
  let '(s', answer) := attempt E a deviceToken payload pushType priority allow s in
  cacheOk a s' ∧ ∃ requests, sends s s' requests ∧ (length requests ≤ 1)%nat ∧
    Forall (proper a (readings s) (readings s') deviceToken payload pushType priority) requests ∧
    (∀ x, answer = Ok (Some x) → ∃ n r reply, last requests = Some r ∧ Do E n r = Ok reply ∧ Subscriptions.StatusCode reply = 200) ∧
    (answer = Ok None → allow = true).
Proof.
  intros Hc. unfold attempt, bind. destruct (providerToken_spec a false s Hc) as (Hc1 & Hs1 & Hfresh).
  destruct (providerToken E a false s) as [s1 [token|e]]; cbn [fst snd] in *; [|split; [done|]; exists []; split_and!; done || cbn; lia].
  set (r := apnsRequestOf a token deviceToken payload pushType priority). unfold annotate, post.
  set (s2 := s1 <| readings := S (readings s1) |> <| posted := posted s1 ++ [r] |>).
  assert (proper a (readings s) (readings s2) deviceToken payload pushType priority r) as Hproper.
  { exists token. split; [|done]. eapply fresh_weaken; [reflexivity| |by apply Hfresh]. cbn. lia. }
  assert (sends s s2 [r]) as Hs2.
  { destruct Hs1 as (Hp1 & Hp2 & Hp3). split_and!; cbn; [by rewrite Hp1, app_nil_r|done|lia]. }
  destruct (Do E (readings s1) r) as [reply|err] eqn:Hdo; cycle 1.
  { split; [done|]. exists [r]. split_and!; try done. by apply Forall_singleton. }
  destruct (Z.eqb_spec (Subscriptions.StatusCode reply) 200) as [Hst|Hst].
  - split; [done|]. exists [r]. split_and!; try done; [by apply Forall_singleton|]. intros x _. by exists (readings s1), r, reply.
  - destruct allow; cbn [andb]; [destruct (_ && _)|]; (split; [done|]); exists [r]; split_and!; try done; by apply Forall_singleton.
Qed.

Lemma sends_app s1 s2 s3 l1 l2 : sends s1 s2 l1 → sends s2 s3 l2 → sends s1 s3 (l1 ++ l2).
Proof. intros (H1 & H2 & H3) (H4 & H5 & H6). split_and!; [by rewrite H4, H1, app_assoc|congruence|lia]. Qed.

(** What one [Send] over APNs does. *)
Definition apnsSent a (deviceToken : string) (notification : N.t) s s' (answer : result ()) : Prop :=
  cacheOk a s' ∧ ∃ requests payload,
    sends s s' requests ∧ (length requests ≤ 2)%nat ∧ len payload ≤ apnsMaximumPayloadSize ∧
    Forall (proper a (readings s) (readings s') (TrimSpace deviceToken) payload (if N.Silent notification then "background" else "alert")
              (if N.Silent notification then "5" else "10")) requests ∧
    (answer = Ok () → ∃ n r reply, last requests = Some r ∧ Do E n r = Ok reply ∧ Subscriptions.StatusCode reply = 200).

Lemma apnsSend_spec a deviceToken notification s : cacheOk a s →
  apnsSent a deviceToken notification s (apnsSend E a deviceToken notification s).1 (apnsSend E a deviceToken notification s).2.
Proof.
  intros Hc. unfold apnsSend. cbv zeta.
  assert (∀ err, apnsSent a deviceToken notification s s (Err err)) as Herr.
  { intros err. split; [done|]. exists [], "". split_and!; try done; [split_and!; [by rewrite app_nil_r|done..]|cbn; lia]. }
  case_bool_decide; [apply Herr|]. unfold makeAPNsPayload.
  set (parts := if N.Silent notification then _ else _).
  assert (parts.1.2 = (if N.Silent notification then "background" else "alert") ∧
    parts.2 = (if N.Silent notification then "5" else "10")) as [Hp1 Hp2] by (unfold parts; by destruct (N.Silent notification)).
  destruct parts as [[aps pushType] priority]. cbn [fst snd] in Hp1, Hp2.
  destruct (marshalAPNs E _) as [payload|]; [|apply Herr].
  destruct (Z.ltb_spec apnsMaximumPayloadSize (len payload)) as [|Hlen]; [apply Herr|].
  unfold send, bind. pose proof (attempt_spec a (TrimSpace deviceToken) payload pushType priority true s Hc) as H1.
  destruct (attempt E a _ payload pushType priority true s) as [s1 [[[]|]|e]]; cbn [fst snd ret]; destruct H1 as (Hc1 & l1 & Hs1 & Hl1 & Hf1 & Ha1 & _).
  - split; [done|]. exists l1, payload. rewrite <- Hp1, <- Hp2. split_and!; try done; [lia|]. intros _. by apply (Ha1 ()).
  - destruct (providerToken_spec a true s1 Hc1) as (Hc2 & Hs2 & _).
    destruct (providerToken E a true s1) as [s2 [token|e]]; cbn [fst snd] in *.
    + pose proof (attempt_spec a (TrimSpace deviceToken) payload pushType priority false s2 Hc2) as H3.
      destruct (attempt E a _ payload pushType priority false s2) as [s3 answer3]. destruct H3 as (Hc3 & l3 & Hs3 & Hl3 & Hf3 & Ha3 & Hn3).
      pose proof (sends_app _ _ _ _ _ (sends_app _ _ _ _ _ Hs1 Hs2) Hs3) as Hs. rewrite app_nil_r in Hs.
      assert (cacheOk a (match answer3 with Ok _ => (s3, Ok ()) | Err e => (s3, Err e) end).1) as Hc4 by by destruct answer3.
      split; [by destruct answer3|]. exists (l1 ++ l3), payload. rewrite <- Hp1, <- Hp2.
      assert ((readings s1 ≤ readings s3)%nat ∧ (readings s ≤ readings s2)%nat) as [Hr1 Hr2]
        by (destruct Hs1 as (_ & _ & ?), Hs2 as (_ & _ & ?), Hs3 as (_ & _ & ?); lia).
      assert (Forall (proper a (readings s) (readings s3) (TrimSpace deviceToken) payload pushType priority) (l1 ++ l3)) as Hall
        by (apply Forall_app; split; [by eapply proper_weaken; [reflexivity| |exact Hf1]|by eapply proper_weaken; [|reflexivity|exact Hf3]]).
      split_and!; [by destruct answer3|rewrite length_app; lia|done|by destruct answer3|].
      destruct answer3 as [[x|]|e]; [|by specialize (Hn3 eq_refl)|done]. intros _.
      destruct (Ha3 x eq_refl) as (n & r & reply & Hlast & ?). exists n, r, reply. split; [|done]. by rewrite last_app, Hlast.
    + split; [done|]. exists l1, payload. rewrite <- Hp1, <- Hp2. split_and!; [|lia|done| |done].
      * rewrite <- (app_nil_r l1). by eapply sends_app.
      * eapply proper_weaken; [reflexivity| |exact Hf1]. by destruct Hs2 as (_ & _ & ?).
  - split; [done|]. exists l1, payload. rewrite <- Hp1, <- Hp2. split_and!; [done|lia|done|done|done].
Qed.

(** ** Sequences of messages *)

Context (c : SenderConfig).

Definition sendAll (messages : list (R.t * N.t)) : state :=
  foldl (λ s m, (Send E c m.1 m.2 s).1) newState messages.

Lemma cacheOk_Send registration notification s :
  (∀ a, apns c = Some a → cacheOk a s) → ∀ a, apns c = Some a → cacheOk a (Send E c registration notification s).1.
Proof.
  intros Hk a Ha. specialize (Hk a Ha). unfold Send. case_bool_decide.
  { rewrite Ha. by apply (apnsSend_spec a (R.APNsDeviceToken registration) notification s). }
  destruct (marshalNotification E notification) as [payload|]; [|done]. case_bool_decide.
  { unfold sendFCM. destruct (negb _); [done|]. by case_bool_decide. }
  case_bool_decide; [|done]. unfold sendUnifiedPush. destruct (_ || _); [done|]. destruct (_ || _); [done|].
  by destruct (Outbound.ValidatePublicHTTPSURL _ _).
Qed.

Lemma cacheOk_all messages a : apns c = Some a → cacheOk a (sendAll messages).
Proof.
  unfold sendAll. assert (∀ a, apns c = Some a → cacheOk a newState) as H by by intros ? _ ?.
  revert a H. generalize newState. induction messages as [|m messages IH]; intros s a Hs; cbn [foldl]; [by apply Hs|].
  apply IH. intros a'. by apply cacheOk_Send.
Qed.





(** A message sent over APNs costs at most two requests, both with the
    same payload and the push type of the notification, and counts as
    delivered only when APNs answered the last of them with 200. *)
Theorem apns_send_bounded (messages : list (R.t * N.t)) a deviceToken notification :
  apns c = Some a →
  let s := sendAll messages in
  let '(s', answer) := apnsSend E a deviceToken notification s in
  ∃ requests payload, posted s' = posted s ++ requests ∧ (length requests ≤ 2)%nat ∧
    Forall (λ r, Content r = payload ∧ PushType r = (if N.Silent notification then "background" else "alert")) requests ∧
    (answer = Ok () → ∃ n r reply, last requests = Some r ∧ Do E n r = Ok reply ∧ Subscriptions.StatusCode reply = 200).
Proof.
  intros Ha s.
  pose proof (apnsSend_spec a deviceToken notification s (cacheOk_all messages a Ha)) as H. destruct (apnsSend E a deviceToken notification s) as [s' answer].
  destruct H as (_ & l & payload & (Hp & _) & Hl & _ & Hf & Hok). exists l, payload. split_and!; try done.
  eapply Forall_impl; [exact Hf|]. by intros r (token & _ & ->).
Qed.
End Proofs.

(** ** An example *)

Module Example.
Definition key : privateKey := mkKey (Some "P-256") (λ _ _, Ok (5, 7)).
Definition sender : apnsSender := mkAPNsSender "team" "kid" "io.ferventio.ios" key apnsProductionEndpoint.
(** APNs finds the first token expired. *)
Definition env : Env :=
  mkEnv (λ n, Z.of_nat n * Second) (λ _, None) (λ _, Err (ErrMsg "")) (λ kid, Ok ("alg:ES256,kid:" +:+ kid))
    (λ iss _, Ok ("iss:" +:+ iss)) (λ p, Ok (N.Title (Ferventio p))) (λ n, Ok (N.Title n)) (λ body, body) (λ _, "")
    (λ n _, Ok (if Nat.ltb n 3 then Subscriptions.mkReply 403 "ExpiredProviderToken" None else Subscriptions.mkReply 200 "" None))
    (λ _ _ _, None) (λ _ _ _ _ _, Ok 201) (λ _, None).
Definition config : SenderConfig := mkSender true (Some sender) "" "".
Definition hello : N.t := Notification.zero <| N.Title := "hello" |>.
End Example.

#[local] Existing Instance toy_sha256.

Definition example_token : string :=
  "YWxnOkVTMjU2LGtpZDpraWQ.aXNzOnRlYW0.AAAAAAAAAAAAAAAAAAAAAAAAAAAAAAAAAAAAAAAAAAUAAAAAAAAAAAAAAAAAAAAAAAAAAAAAAAAAAAAAAAAABw".

Lemma provider_token_round_trip_witness :
  ∃ h c g signature, Split "." example_token = [h; c; g] ∧ Base64.DecodeString g = Some signature ∧
    readBytes (take_str 32 signature) = 5 ∧ readBytes (drop_str 32 signature) = 7.
Proof.
  destruct (provider_token_round_trip Example.env Example.sender 0 newState (newState <| readings := 1%nat |>) example_token)
    as (h & c & g & header & claims & signature & r & signatureS & Hsplit & _ & _ & _ & _ & Hg & _ & Hsign & Hr & Hs).
  - by vm_compute.
  - intros n digest r signatureS [= <- <-]. split; lia.
  - injection Hsign as <- <-. by exists h, c, g, signature.
Defined.

Lemma apns_send_bounded_witness :
  let s' := (apnsSend Example.env Example.sender " token " Example.hello newState).1 in
  length (posted s') = 2%nat ∧ ∃ payload, Forall (λ r, Content r = payload ∧ PushType r = "alert") (posted s').
Proof.
  pose proof (apns_send_bounded Example.env Example.config [] Example.sender " token " Example.hello eq_refl) as H.
  change (sendAll Example.env Example.config []) with newState in H. cbv zeta in H |- *.
  split; [by vm_compute|]. destruct (apnsSend Example.env Example.sender " token " Example.hello newState) as [s' answer].
  destruct H as (requests & payload & Hp & _ & Hf & _). exists payload. cbn [fst]. by rewrite Hp.
Defined.
End SenderProofs.
