(* ===== verification/LegacyImport.v ===== *)
(** * The import of the state files of older versions:
    [internal/storage/postgres/legacy_import.go]

    Five files in one directory hold the registrations, the authentication
    state, the deliveries, the audit log and the settings of a server that
    had no database.  The import reads them and writes every record to its
    table, in one transaction over all tables.  The file system, the decoders
    of [encoding/json], the clock and the random source are parameters; error
    texts leave out the values they quote. *)

From S2P Require Import Prelude GoStrings GoUnicode Credentials Domain AuthStore DeliveryStore SettingsSync Postgres.
From S2P Require Import PgRegistration PgAuth PgDelivery PgAudit PgSettings.
Import Postgres.

Module LegacyImport.
Module R := Registration.
Module CR := AuthCredentialRecord.
Module S := AuthSessionRecord.
Module P := PendingAuthRecord.
Module H := AuthHandoffRecord.
Module D := DeliveryRecord.
Module N := Notification.
Module I := EventSubInboxRecord.
Module E := EventSubEnvelope.
Module Sub := Subscription.
Module Ch := ChannelNotificationState.
Module A := AuditRecord.
Module SS := SettingsSyncSnapshot.
Module SU := SettingsSyncUserState.

(** ** The files *)

Record AuthDiskState := mkAuthState {
  Credentials : gmap string CR.t;
  Sessions : gmap string S.t;
  Pending : gmap string P.t;
  Handoffs : gmap string H.t
}.
Record DeliveryDiskState := mkDeliveryState {
  Records : gmap string D.t;
  Seen : gmap string time;
  EventSubInbox : gmap string I.t;
  ChannelStates : gmap string Ch.t
}.
Record AuditDiskState := mkAuditState { AuditRecords : list A.t }.
Record SettingsSyncDiskState := mkSettingsState { Users : gmap string SU.t }.

(** [os.ReadFile]. *)
Inductive file := Missing | Unreadable (err : error) | Contents (text : string).

(** [json.Unmarshal] into the types of the files. *)
Class LegacyJSON := {
  UnmarshalRegistrations : string → result (gmap string R.t);
  UnmarshalAuth : string → result AuthDiskState;
  UnmarshalDeliveries : string → result DeliveryDiskState;
  UnmarshalAudit : string → result AuditDiskState;
  UnmarshalSettings : string → result SettingsSyncDiskState
}.

(** [filepath.Clean]: empty segments and dots go, [..] takes the segment
    before it, and at the root nothing. *)
Definition cleanSegments (isRooted : bool) (segments : list string) : list string :=
  rev (foldl (λ kept segment,
    if (segment == "") || (segment == ".") then kept else
    if segment == ".." then
      match kept with
      | [] => if isRooted then [] else [".."]
      | last :: rest => if last == ".." then ".." :: kept else rest
      end
    else segment :: kept) [] segments).
Definition Clean (path : string) : string :=
  let isRooted := HasPrefix path "/" in
  let cleaned := (if isRooted then "/" else "") +:+ String.concat "/" (cleanSegments isRooted (Split "/" path)) in
  if cleaned == "" then "." else cleaned.
(** [filepath.Join] of a directory that is not empty. *)
Definition JoinPath (directory name : string) : string := Clean (directory +:+ "/" +:+ name).

Record LegacyImportReport := mkReport {
  Registrations : Z;
  CredentialsN : Z;
  SessionsN : Z;
  PendingAuth : Z;
  HandoffsN : Z;
  Deliveries : Z;
  EventSubSeen : Z;
  EventSubInboxN : Z;
  ChannelStatesN : Z;
  AuditRecordsN : Z;
  SettingsSnapshots : Z
}.
#[global] Instance eta_report : Eta LegacyImportReport := λ r,
  mkReport (Registrations r) (CredentialsN r) (SessionsN r) (PendingAuth r) (HandoffsN r) (Deliveries r)
    (EventSubSeen r) (EventSubInboxN r) (ChannelStatesN r) (AuditRecordsN r) (SettingsSnapshots r).
Definition noReport : LegacyImportReport := mkReport 0 0 0 0 0 0 0 0 0 0 0.

(** ** The tables *)

Record store := mkStore {
  registrations : gmap string PgRegistration.row;
  auth : PgAuth.db;
  delivery : PgDelivery.db;
  audit : gmap string A.t;
  settings : PgSettings.table
}.
#[global] Instance eta_store : Eta store := λ s,
  mkStore (registrations s) (auth s) (delivery s) (audit s) (settings s).
Definition emptyStore : store := mkStore ∅ PgAuth.emptyDb PgDelivery.emptyDb ∅ ∅.

(** ** The statements *)

Inductive write :=
| WriteRegistration (r : R.t)
| WriteCredential (r : CR.t)
| WriteSession (tokenHash : string) (r : S.t)
| WritePending (stateHash : string) (r : P.t)
| WriteHandoff (codeHash : string) (r : H.t)
| WriteDelivery (r : D.t)
| WriteSeen (messageID : string) (seenAt : time)
| WriteInbox (messageID : string) (r : I.t) (condition event : string)
| WriteChannel (channelID : string) (r : Ch.t)
| WriteAudit (r : A.t)
| WriteSnapshot (userID : string) (r : SS.t).

(** [nullableTime]: the zero time is null. *)
Definition nullableTime (value : time) : option time := if IsZero value then None else Some (timestamptz value).

Section Statements.
Context `{json : EnvelopeJSON}.

(** The text parameters of a statement. *)
Definition texts (w : write) : list string :=
  match w with
  | WriteRegistration r =>
      [R.InstallationID r; R.DeviceSecretHash r; R.Provider r; R.FirebaseInstallation r; R.Endpoint r; R.P256DH r;
       R.Auth r; R.AppVersion r; R.Platform r; R.UserID r; R.UserLogin r] ++
      R.ChannelIDs r ++ R.ModeratorChannelIDs r ++ R.NotificationRules r ++ R.HighlightPhrases r ++
      R.SelectedUserLogins r
  | WriteCredential r => PgAuth.credentialTexts r
  | WriteSession k r => [k; S.CredentialID r; S.InstallationID r; S.DeviceHash r]
  | WritePending k r => [k; P.InstallationID r; P.DeviceHash r; P.AppCallbackURI r]
  | WriteHandoff k r => [k; H.CredentialID r; H.InstallationID r; H.DeviceHash r; H.AppCallbackURI r; H.StateHash r]
  | WriteDelivery r => PgDelivery.deliveryTexts r
  | WriteSeen k _ => [k]
  | WriteInbox k r condition event =>
      PgDelivery.inboxTexts k (I.Envelope r) condition event ++ [I.Status r; I.LastError r]
  | WriteChannel k r => [k; Ch.Title r; Ch.CategoryName r]
  | WriteAudit r => PgAudit.auditTexts r
  | WriteSnapshot k r => [k; SS.UpdatedByInstallationID r; SS.AppVersion r; SS.ContentHash r; SS.Payload r]
  end.

(** [INSERT ... ON CONFLICT (key) DO UPDATE]: another row with the same value
    in a unique index is an error. *)
Definition upsert {K V} `{Countable K} (same : V → V → bool) (key : K) (v : V) (m : gmap K V) : result (gmap K V) :=
  if existsb (λ kv : K * V, negb (bool_decide (kv.1 = key)) && same v kv.2) (map_to_list m)
  then Err PgAuth.duplicateKey else Ok (<[key := v]> m).
Definition noIndex {V} (_ _ : V) : bool := false.

(** The row of a registration: the columns for the device token of APNs, the
    rules per channel and the mutes are not in the statement, and keep what
    they hold or their defaults. *)
Definition registrationRow (r : R.t) (old : option PgRegistration.row) : PgRegistration.row :=
  PgRegistration.mkRow
    (r <| R.DeviceSecret := "" |> <| R.NotificationChannelRules := ∅ |>
       <| R.NotificationChannelMutedUntilEpochMillis := ∅ |> <| R.UpdatedAt := timestamptz (R.UpdatedAt r) |>
       <| R.APNsDeviceToken := match old with Some o => R.APNsDeviceToken (PgRegistration.columns o) | None => "" end |>)
    (match old with Some o => PgRegistration.rulesColumn o | None => "{}" end)
    (match old with Some o => PgRegistration.mutedColumn o | None => "{}" end).

Definition credentialRow (r : CR.t) : CR.t :=
  r <| CR.AccessExpiresAt := timestamptz (CR.AccessExpiresAt r) |>
    <| CR.LastValidatedAt := timestamptz (CR.LastValidatedAt r) |> <| CR.UpdatedAt := timestamptz (CR.UpdatedAt r) |>.
Definition sessionRow (r : S.t) : S.t :=
  r <| S.CreatedAt := timestamptz (S.CreatedAt r) |> <| S.ExpiresAt := timestamptz (S.ExpiresAt r) |>.
Definition pendingRow (r : P.t) : P.t :=
  r <| P.CreatedAt := timestamptz (P.CreatedAt r) |> <| P.ExpiresAt := timestamptz (P.ExpiresAt r) |>.
Definition handoffRow (r : H.t) : H.t :=
  r <| H.CreatedAt := timestamptz (H.CreatedAt r) |> <| H.ExpiresAt := timestamptz (H.ExpiresAt r) |>.
Definition deliveryRow (r : D.t) : PgDelivery.deliveryRow :=
  PgDelivery.mkDelivery (PgDelivery.fields (PgDelivery.rowOf r)) (nullableTime (D.SentAt r)) (nullableTime (D.AckedAt r)).
Definition inboxRow (messageID : string) (r : I.t) (condition event : string) : PgDelivery.inboxRow :=
  let envelope := (I.Envelope r)
    <| E.Subscription_ := (E.Subscription_ (I.Envelope r)) <| Sub.Condition := ∅ |> |> <| E.Event := ∅ |> in
  PgDelivery.mkInbox
    (r <| I.MessageID := messageID |> <| I.Envelope := envelope |> <| I.AvailableAt := timestamptz (I.AvailableAt r) |>
       <| I.ExpiresAt := timestamptz (I.ExpiresAt r) |> <| I.ReceivedAt := timestamptz (I.ReceivedAt r) |>
       <| I.LastAttemptAt := 0 |>)
    condition event (nullableTime (I.LastAttemptAt r)).
Definition channelRow (r : Ch.t) : Ch.t := r <| Ch.UpdatedAt := timestamptz (Ch.UpdatedAt r) |>.
Definition auditRow (r : A.t) : A.t := r <| A.Timestamp := timestamptz (A.Timestamp r) |>.
Definition snapshotRow (r : SS.t) (payload : string) : SS.t :=
  r <| SS.UpdatedAt := timestamptz (SS.UpdatedAt r) |> <| SS.Payload := payload |>.

Definition checkConstraint : error := ErrMsg "violates check constraint".
Definition invalidJSON : error := ErrMsg "invalid input syntax for type json".

(** A row that refers to a credential. *)
Definition references (credentialID : string) (t : store) : result () :=
  match PgAuth.credentials (auth t) !! credentialID with Some _ => Ok () | None => Err PgAuth.foreignKey end.

(** The effect of a statement. *)
Definition effect (w : write) (t : store) : result store :=
  match w with
  | WriteRegistration r =>
      if negb (bool_decide (R.Provider r ∈ PgRegistration.providers)) then Err checkConstraint else
      let? m := upsert noIndex (R.InstallationID r)
        (registrationRow r (registrations t !! R.InstallationID r)) (registrations t) in
      Ok (t <| registrations := m |>)
  | WriteCredential r =>
      let? m := upsert noIndex (CR.ID r) (credentialRow r) (PgAuth.credentials (auth t)) in
      Ok (t <| auth := (auth t) <| PgAuth.credentials := m |> |>)
  | WriteSession k r =>
      let? m := upsert (λ x y, S.InstallationID x == S.InstallationID y) k (sessionRow r) (PgAuth.sessions (auth t)) in
      let? _ := references (S.CredentialID r) t in
      Ok (t <| auth := (auth t) <| PgAuth.sessions := m |> |>)
  | WritePending k r =>
      let? m := upsert (λ x y, (P.InstallationID x == P.InstallationID y) && (P.DeviceHash x == P.DeviceHash y)) k
        (pendingRow r) (PgAuth.pending (auth t)) in
      Ok (t <| auth := (auth t) <| PgAuth.pending := m |> |>)
  | WriteHandoff k r =>
      let? m := upsert (λ x y, (H.InstallationID x == H.InstallationID y) && (H.DeviceHash x == H.DeviceHash y)) k
        (handoffRow r) (PgAuth.handoffs (auth t)) in
      let? _ := references (H.CredentialID r) t in
      Ok (t <| auth := (auth t) <| PgAuth.handoffs := m |> |>)
  | WriteDelivery r =>
      let? attempts := integer (D.AttemptCount r) in
      if negb (bool_decide (D.Status r ∈ PgDelivery.deliveryStatuses)) || (attempts <? 0) then Err checkConstraint else
      let? m := upsert (λ x y, PgDelivery.samePair (D.InstallationID (PgDelivery.fields x))
                                 (D.EventID (PgDelivery.fields x)) y)
        (D.ID r) (deliveryRow r) (PgDelivery.deliveries (delivery t)) in
      Ok (t <| delivery := (delivery t) <| PgDelivery.deliveries := m |> |>)
  | WriteSeen k seenAt =>
      let? m := upsert noIndex k (timestamptz seenAt) (PgDelivery.seen (delivery t)) in
      Ok (t <| delivery := (delivery t) <| PgDelivery.seen := m |> |>)
  | WriteInbox k r condition event =>
      match jsonb condition, jsonb event with
      | Some condition, Some event =>
          let? attempts := integer (I.AttemptCount r) in
          if negb (bool_decide (I.Status r ∈ ["pending"; "dead"])) || (attempts <? 0) then Err checkConstraint else
          let? m := upsert noIndex k (inboxRow k r condition event) (PgDelivery.inbox (delivery t)) in
          Ok (t <| delivery := (delivery t) <| PgDelivery.inbox := m |> |>)
      | _, _ => Err invalidJSON
      end
  | WriteChannel k r =>
      let? m := upsert noIndex k (channelRow r) (PgDelivery.channels (delivery t)) in
      Ok (t <| delivery := (delivery t) <| PgDelivery.channels := m |> |>)
  | WriteAudit r =>
      match audit t !! A.ID r with
      | Some _ => Ok t
      | None => Ok (t <| audit := <[A.ID r := auditRow r]> (audit t) |>)
      end
  | WriteSnapshot k r =>
      match jsonb (SS.Payload r) with
      | None => Err invalidJSON
      | Some payload =>
          if SS.Revision r <=? 0 then Err checkConstraint else
          let? m := upsert noIndex (k, SS.Revision r) (snapshotRow r payload) (settings t) in
          Ok (t <| settings := m |>)
      end
  end.
End Statements.

Section Import.
Context {rt : GoRuntime} {sha : Sha256} `{json : EnvelopeJSON} {syntax : JSONSyntax} {legacy : LegacyJSON}.
Context (aead : option AEAD) (files : string → file) (clock : nat → time) (rnd : nat → rand_read) (L : Link store).
Abbreviation import := (M (tx store) LegacyImportReport).

(** The file's contents; [None] when there is no file. *)
Definition readLegacyJSON {T} (path : string) (Unmarshal : string → result T) (target : T) : result (option T) :=
  match files path with
  | Missing => Ok None
  | Unreadable err => Err (ErrMsg ("read legacy state: " +:+ Error err))
  | Contents contents =>
      if len (TrimSpace contents) =? 0 then Ok (Some target) else
      match Unmarshal contents with
      | Ok value => Ok (Some value)
      | Err err => Err (ErrMsg ("decode legacy state: " +:+ Error err))
      end
  end.

Definition sortedMapKeys {V} (values : gmap string V) : list string := sortSlice string_lt (rangeMap values).*1.

(** [time.Now] and the random source at this point of the transaction. *)
Definition Now : M (tx store) time := λ x, (x, Ok (clock (position x))).
Definition NewID : M (tx store) string := λ x, (x, RandomToken (rnd (position x)) "audit_" 12).

(** [tx.Exec] with its error wrapped. *)
Definition Exec (operation : string) (w : write) : M (tx store) () :=
  database operation (onTx L (texts w) (λ t, let? t := effect w t in Ok (t, ()))).

(** [for ... range]: the body threads the report. *)
Fixpoint forEach {K} (l : list K) (body : K → LegacyImportReport → import) (report : LegacyImportReport) : import :=
  match l with
  | [] => ret report
  | k :: l => let! report := body k report in forEach l body report
  end.

Definition importRegistration (registrations : gmap string R.t) (key : string) (report : LegacyImportReport) : import :=
  let registration := default R.zero (registrations !! key) in
  let registration := if R.InstallationID registration == ""
    then registration <| R.InstallationID := key |> else registration in
  let registration := if (R.DeviceSecretHash registration == "") && (R.DeviceSecret registration != "")
    then registration <| R.DeviceSecretHash := HashSecret (R.DeviceSecret registration) |> else registration in
  if R.DeviceSecretHash registration == ""
  then fail (ErrMsg "legacy registration has no device secret") else
  let! registration :=
    if IsZero (R.UpdatedAt registration)
    then let! now := Now in ret (registration <| R.UpdatedAt := now |>) else ret registration in
  let! _ := Exec "import legacy registration" (WriteRegistration registration) in
  ret (report <| Registrations := Registrations report + 1 |>).

Definition importLegacyRegistrations (path : string) (report : LegacyImportReport) : import :=
  let! found := lift (readLegacyJSON path UnmarshalRegistrations ∅) in
  match found with
  | None => ret report
  | Some registrations => forEach (sortedMapKeys registrations) (importRegistration registrations) report
  end.

Definition importCredential (state : AuthDiskState) (id : string) (report : LegacyImportReport) : import :=
  let record := default CR.zero (Credentials state !! id) in
  let record := if CR.ID record == "" then record <| CR.ID := id |> else record in
  let! _ := annotate "validate legacy credential" (lift (Open aead (CR.ID record +:+ ":access") (CR.AccessToken record))) in
  let! _ := annotate "validate legacy credential" (lift (Open aead (CR.ID record +:+ ":refresh") (CR.RefreshToken record))) in
  let! _ := Exec "import legacy auth credential" (WriteCredential record) in
  ret (report <| CredentialsN := CredentialsN report + 1 |>).

Definition importSession (kv : string * S.t) (report : LegacyImportReport) : import :=
  let! _ := Exec "import legacy auth session" (WriteSession kv.1 kv.2) in
  ret (report <| SessionsN := SessionsN report + 1 |>).
Definition importPending (kv : string * P.t) (report : LegacyImportReport) : import :=
  let! _ := Exec "import legacy pending auth" (WritePending kv.1 kv.2) in
  ret (report <| PendingAuth := PendingAuth report + 1 |>).
Definition importHandoff (kv : string * H.t) (report : LegacyImportReport) : import :=
  let! _ := Exec "import legacy auth handoff" (WriteHandoff kv.1 kv.2) in
  ret (report <| HandoffsN := HandoffsN report + 1 |>).

Definition importLegacyAuth (path : string) (report : LegacyImportReport) : import :=
  let! found := lift (readLegacyJSON path UnmarshalAuth (mkAuthState ∅ ∅ ∅ ∅)) in
  match found with
  | None => ret report
  | Some state =>
      if (0 <? mlen (Credentials state)) && match aead with None => true | Some _ => false end
      then fail (ErrMsg "AUTH_ENCRYPTION_KEY is required to import legacy OAuth credentials") else
      let! report := forEach (sortedMapKeys (Credentials state)) (importCredential state) report in
      let! report := forEach (rangeMap (Sessions state)) importSession report in
      let! report := forEach (rangeMap (Pending state)) importPending report in
      forEach (rangeMap (Handoffs state)) importHandoff report
  end.

Definition importDelivery (state : DeliveryDiskState) (id : string) (report : LegacyImportReport) : import :=
  let record := default D.zero (Records state !! id) in
  let record := if D.ID record == "" then record <| D.ID := id |> else record in
  let! _ := Exec "import legacy delivery" (WriteDelivery record) in
  ret (report <| Deliveries := Deliveries report + 1 |>).
Definition importSeen (kv : string * time) (report : LegacyImportReport) : import :=
  let! _ := Exec "import legacy EventSub seen record" (WriteSeen kv.1 kv.2) in
  ret (report <| EventSubSeen := EventSubSeen report + 1 |>).
Definition importInbox (kv : string * I.t) (report : LegacyImportReport) : import :=
  let! condition := lift (MarshalCondition (Sub.Condition (E.Subscription_ (I.Envelope kv.2)))) in
  let! event := lift (MarshalEvent (E.Event (I.Envelope kv.2))) in
  let! _ := Exec "import legacy EventSub inbox record" (WriteInbox kv.1 kv.2 condition event) in
  ret (report <| EventSubInboxN := EventSubInboxN report + 1 |>).
Definition importChannel (kv : string * Ch.t) (report : LegacyImportReport) : import :=
  let! _ := Exec "import legacy channel state" (WriteChannel kv.1 kv.2) in
  ret (report <| ChannelStatesN := ChannelStatesN report + 1 |>).

Definition importLegacyDeliveries (path : string) (report : LegacyImportReport) : import :=
  let! found := lift (readLegacyJSON path UnmarshalDeliveries (mkDeliveryState ∅ ∅ ∅ ∅)) in
  match found with
  | None => ret report
  | Some state =>
      let! report := forEach (sortedMapKeys (Records state)) (importDelivery state) report in
      let! report := forEach (rangeMap (Seen state)) importSeen report in
      let! report := forEach (rangeMap (EventSubInbox state)) importInbox report in
      forEach (rangeMap (ChannelStates state)) importChannel report
  end.

Definition importAuditRecord (record : A.t) (report : LegacyImportReport) : import :=
  let! record :=
    if A.ID record == "" then let! id := NewID in ret (record <| A.ID := id |>) else ret record in
  let! record :=
    if IsZero (A.Timestamp record)
    then let! now := Now in ret (record <| A.Timestamp := now |>) else ret record in
  let! _ := Exec "import legacy audit record" (WriteAudit record) in
  ret (report <| AuditRecordsN := AuditRecordsN report + 1 |>).

Definition importLegacyAudit (path : string) (report : LegacyImportReport) : import :=
  let! found := lift (readLegacyJSON path UnmarshalAudit (mkAuditState [])) in
  match found with
  | None => ret report
  | Some state => forEach (AuditRecords state) importAuditRecord report
  end.

(** A revision that occurs again is skipped. *)
Fixpoint importSnapshots (userID : string) (snapshots : list SS.t) (seen : gset Z) (report : LegacyImportReport) : import :=
  match snapshots with
  | [] => ret report
  | snapshot :: snapshots =>
      if bool_decide (SS.Revision snapshot ∈ seen) then importSnapshots userID snapshots seen report else
      if negb (Valid (SS.Payload snapshot)) then fail (ErrMsg "legacy settings payload is invalid JSON") else
      let! _ := Exec "import legacy settings snapshot" (WriteSnapshot userID snapshot) in
      importSnapshots userID snapshots ({[SS.Revision snapshot]} ∪ seen)
        (report <| SettingsSnapshots := SettingsSnapshots report + 1 |>)
  end.

(** The snapshots of a user, the current one last, by revision. *)
Definition snapshotsOf (userState : SU.t) : list SS.t :=
  sortSlice (λ x y, SS.Revision x <? SS.Revision y)
    (SU.History userState ++ match SU.Current userState with Some current => [current] | None => [] end).
Definition importUser (kv : string * SU.t) (report : LegacyImportReport) : import :=
  importSnapshots kv.1 (snapshotsOf kv.2) ∅ report.

Definition importLegacySettings (path : string) (report : LegacyImportReport) : import :=
  let! found := lift (readLegacyJSON path UnmarshalSettings (mkSettingsState ∅)) in
  match found with
  | None => ret report
  | Some state => forEach (rangeMap (Users state)) importUser report
  end.

(** The five files, in order. *)
Definition importFiles (directory : string) : import :=
  let! report := importLegacyRegistrations (JoinPath directory "registrations.json") noReport in
  let! report := importLegacyAuth (JoinPath directory "auth.json") report in
  let! report := importLegacyDeliveries (JoinPath directory "deliveries.json") report in
  let! report := importLegacyAudit (JoinPath directory "audit.json") report in
  importLegacySettings (JoinPath directory "settings-sync.json") report.

(** [ImportLegacyState]; [initialized] says whether the storage has a pool. *)
Definition ImportLegacyState (initialized : bool) (directory : string) : M (session store) LegacyImportReport :=
  if negb initialized then fail (ErrMsg "PostgreSQL storage is not initialized") else
  let directory := TrimSpace directory in
  if directory == "" then fail (ErrMsg "legacy state directory is required") else
  transaction L "begin legacy state import" (
    let! report := importFiles directory in
    let! _ := database "commit legacy state import" (Commit L) in
    ret report).
End Import.
End LegacyImport.
