(* ===== verification/LegacyImportProofs.v ===== *)
(** * The import of the state files: all or nothing, and repeatable

    A run of the import sends a list of statements that the files determine,
    up to the order of maps and to the clock; it publishes the effect of all
    of them or of none.  Repeated on canonical files it changes nothing. *)

From S2P Require Import Prelude GoStrings GoUnicode Credentials Domain AuthStore DeliveryStore SettingsSync Postgres.
From S2P Require Import PgRegistration PgAuth PgDelivery PgAudit PgSettings PgDeliveryProofs LegacyImport.
Import Postgres LegacyImport.

Module LegacyImportProofs.

(** ** The statements a run sends *)

(** What the report counts for a statement. *)
Definition tally (report : LegacyImportReport) (w : write) : LegacyImportReport :=
  match w with
  | WriteRegistration _ => report <| Registrations := Registrations report + 1 |>
  | WriteCredential _ => report <| CredentialsN := CredentialsN report + 1 |>
  | WriteSession _ _ => report <| SessionsN := SessionsN report + 1 |>
  | WritePending _ _ => report <| PendingAuth := PendingAuth report + 1 |>
  | WriteHandoff _ _ => report <| HandoffsN := HandoffsN report + 1 |>
  | WriteDelivery _ => report <| Deliveries := Deliveries report + 1 |>
  | WriteSeen _ _ => report <| EventSubSeen := EventSubSeen report + 1 |>
  | WriteInbox _ _ _ _ => report <| EventSubInboxN := EventSubInboxN report + 1 |>
  | WriteChannel _ _ => report <| ChannelStatesN := ChannelStatesN report + 1 |>
  | WriteAudit _ => report <| AuditRecordsN := AuditRecordsN report + 1 |>
  | WriteSnapshot _ _ => report <| SettingsSnapshots := SettingsSnapshots report + 1 |>
  end.

Section Runs.
Context `{json : EnvelopeJSON}.

(** The effect of a list of statements, when none of them is refused. *)
Fixpoint runAll (ws : list write) (t : store) : option store :=
  match ws with
  | [] => Some t
  | w :: ws =>
      if forallb text (texts w) then match effect w t with Ok t => runAll ws t | Err _ => None end else None
  end.

Lemma runAll_app ws ws' t : runAll (ws ++ ws') t = runAll ws t ≫= runAll ws'.
Proof.
  revert t. induction ws as [|w ws IH]; intros t; [done|]. cbn. destruct (forallb _ _); [|done].
  by destruct (effect w t).
Qed.

(** A plan: the statements from a point of the transaction on, or nothing
    when the run ends with an error that is not the database's. *)
Abbreviation plan := (nat → option (list write)).
Definition andThen (p q : plan) : plan := λ n, ws ← p n; ws' ← q (n + length ws)%nat; Some (ws ++ ws').
Fixpoint planEach {K} (p : K → plan) (l : list K) : plan :=
  match l with [] => λ _, Some [] | k :: l => andThen (p k) (planEach p l) end.

(** The computation sends the statements of the plan, counts them, and fails
    only when the plan does or a statement is refused or not answered. *)
Definition issues (m : Link store → LegacyImportReport → M (tx store) LegacyImportReport) (p : plan) : Prop :=
  ∀ L report t w n,
    match m L report (mkTx t w false n) with
    | (x, Ok report') => ∃ ws w', p n = Some ws ∧ runAll ws w = Some w' ∧ report' = foldl tally report ws ∧
        x = mkTx t w' false (n + length ws)
    | (x, Err _) => published x = t ∧ ((∃ i, outcomeOf L i ≠ Answered) ∨ (ws ← p n; runAll ws w) = None)
    end.

Lemma issues_ret : issues (λ _ report, ret report) (λ _, Some []).
Proof. intros L report t w n. cbn. exists [], w. by rewrite Nat.add_0_r. Qed.

Lemma issues_fail err (p : plan) : (∀ n, p n = None) → issues (λ _ _, fail err) p.
Proof. intros Hp L report t w n. cbn. split; [done|]. right. by rewrite Hp. Qed.

Lemma issues_seq m m' p q : issues m p → issues m' q → issues (λ L report, let! report := m L report in m' L report) (andThen p q).
Proof.
  intros Hm Hm' L report t w n. specialize (Hm L report t w n). unfold bind, andThen.
  destruct (m L report (mkTx t w false n)) as [x [report'|e]].
  - destruct Hm as (ws & w' & Hp & Hrun & -> & ->). rewrite Hp. cbn.
    specialize (Hm' L (foldl tally report ws) t w' (n + length ws)%nat).
    destruct (m' L _ _) as [x [report'|e]].
    + destruct Hm' as (ws' & w'' & Hq & Hrun' & -> & ->). rewrite Hq. cbn. exists (ws ++ ws'), w''.
      rewrite runAll_app, Hrun, foldl_app, length_app, Nat.add_assoc. done.
    + destruct Hm' as [Hx [?|Hnone]]; split; auto. right. destruct (q _) as [ws'|]; [|done]. cbn in *.
      by rewrite runAll_app, Hrun.
  - destruct Hm as [Hx [?|Hnone]]; split; auto. right. destruct (p n) as [ws|]; [|done]. cbn in *.
    destruct (q _) as [ws'|]; [|done]. cbn. by rewrite runAll_app, Hnone.
Qed.

Lemma issues_each {K} (body : K → Link store → LegacyImportReport → M (tx store) LegacyImportReport) (p : K → plan) l :
  (∀ k, k ∈ l → issues (body k) (p k)) → issues (λ L, forEach l (λ k, body k L)) (planEach p l).
Proof.
  induction l as [|k l IH]; intros Hbody; [apply issues_ret|]. cbn.
  apply (issues_seq (body k) (λ L, forEach l (λ k, body k L))); [apply Hbody; left|apply IH]. intros k' Hk'.
  apply Hbody. by right.
Qed.

(** A record that becomes one statement. *)
Definition one (w : write) : plan := λ _, Some [w].

Lemma issues_exec operation w :
  issues (λ L report, let! _ := Exec L operation w in ret (tally report w)) (one w).
Proof.
  intros L report t x n. unfold Exec, database, onTx, bind, execute. cbn.
  destruct (forallb text (texts w)) eqn:Htext; [destruct (effect w x) as [x'|e] eqn:Heff|]; cbn;
    destruct (outcomeOf L n) eqn:Hout; cbn; eauto 10.
  all: try (split; [done|]; left; exists n; congruence).
  - exists [w], x'. cbn. rewrite Htext, Heff, Nat.add_1_r. done.
Qed.

(** A computation that reads the clock, the random source or a file. *)
Lemma issues_read {A} (f : nat → result A) (k : A → Link store → LegacyImportReport → M (tx store) LegacyImportReport) (p : A → plan) :
  (∀ a, issues (k a) (p a)) →
  issues (λ L report, let! a := (λ x, (x, f (position x))) in k a L report)
    (λ n, match f n with Ok a => p a n | Err _ => None end).
Proof.
  intros Hk L report t w n. unfold bind. cbn. destruct (f n) as [a|e] eqn:Hf; [apply Hk|]. split; [done|by right].
Qed.

Lemma issues_ext m m' p p' :
  (∀ L report x, m L report x = m' L report x) → (∀ n, p n = p' n) → issues m p → issues m' p'.
Proof. intros Hm Hp Hi L report t w n. rewrite <-Hm, <-Hp. apply Hi. Qed.
End Runs.

(** ** The plan of the files *)

Section Plans.
Context {rt : GoRuntime} {sha : Sha256} `{json : EnvelopeJSON} {syntax : JSONSyntax} {legacy : LegacyJSON}.
Context (aead : option AEAD) (files : string → file) (clock : nat → time) (rnd : nat → rand_read).
Abbreviation plan := (nat → option (list write)).

(** A registration under its identifier, with the hash of its secret. *)
Definition registrationOf (regs : gmap string R.t) (key : string) : R.t :=
  let r := default R.zero (regs !! key) in
  let r := if R.InstallationID r == "" then r <| R.InstallationID := key |> else r in
  if (R.DeviceSecretHash r == "") && (R.DeviceSecret r != "")
  then r <| R.DeviceSecretHash := HashSecret (R.DeviceSecret r) |> else r.
Definition planRegistration (regs : gmap string R.t) (key : string) : plan := λ n,
  let r := registrationOf regs key in
  if R.DeviceSecretHash r == "" then None else
  Some [WriteRegistration (if IsZero (R.UpdatedAt r) then r <| R.UpdatedAt := clock n |> else r)].

Definition credentialOf (state : AuthDiskState) (id : string) : CR.t :=
  let r := default CR.zero (Credentials state !! id) in if CR.ID r == "" then r <| CR.ID := id |> else r.
Definition planCredential (state : AuthDiskState) (id : string) : plan := λ _,
  let r := credentialOf state id in
  if is_ok (Open aead (CR.ID r +:+ ":access") (CR.AccessToken r)) && is_ok (Open aead (CR.ID r +:+ ":refresh") (CR.RefreshToken r))
  then Some [WriteCredential r] else None.

Definition deliveryOf (state : DeliveryDiskState) (id : string) : D.t :=
  let r := default D.zero (Records state !! id) in if D.ID r == "" then r <| D.ID := id |> else r.
Definition planInbox (kv : string * I.t) : plan := λ _,
  match MarshalCondition (Sub.Condition (E.Subscription_ (I.Envelope kv.2))), MarshalEvent (E.Event (I.Envelope kv.2)) with
  | Ok condition, Ok event => Some [WriteInbox kv.1 kv.2 condition event]
  | _, _ => None
  end.

Definition planAudit (r : A.t) : plan := λ n,
  match (if A.ID r == "" then RandomToken (rnd n) "audit_" 12 else Ok (A.ID r)) with
  | Ok id =>
      Some [WriteAudit (r <| A.ID := id |> <| A.Timestamp := if IsZero (A.Timestamp r) then clock n else A.Timestamp r |>)]
  | Err _ => None
  end.

(** The first of the snapshots with each revision. *)
Fixpoint firsts (snapshots : list SS.t) (seen : gset Z) : list SS.t :=
  match snapshots with
  | [] => []
  | s :: snapshots =>
      if bool_decide (SS.Revision s ∈ seen) then firsts snapshots seen
      else s :: firsts snapshots ({[SS.Revision s]} ∪ seen)
  end.
Definition planUser (kv : string * SU.t) : plan := λ _,
  let snapshots := firsts (snapshotsOf kv.2) ∅ in
  if forallb (λ s, Valid (SS.Payload s)) snapshots then Some (WriteSnapshot kv.1 <$> snapshots) else None.

(** The plan for a file. *)
Definition planFile {T} (found : result (option T)) (p : T → plan) : plan := λ n,
  match found with Ok None => Some [] | Ok (Some state) => p state n | Err _ => None end.

Definition planRegistrations (regs : gmap string R.t) : plan := planEach (planRegistration regs) (sortedMapKeys regs).
Definition planAuthState (state : AuthDiskState) : plan :=
  if (0 <? mlen (Credentials state)) && match aead with None => true | Some _ => false end then λ _, None else
  andThen (planEach (planCredential state) (sortedMapKeys (Credentials state)))
    (andThen (planEach (λ kv, one (WriteSession kv.1 kv.2)) (rangeMap (Sessions state)))
       (andThen (planEach (λ kv, one (WritePending kv.1 kv.2)) (rangeMap (Pending state)))
          (planEach (λ kv, one (WriteHandoff kv.1 kv.2)) (rangeMap (Handoffs state))))).
Definition planDeliveries (state : DeliveryDiskState) : plan :=
  andThen (planEach (λ id, one (WriteDelivery (deliveryOf state id))) (sortedMapKeys (Records state)))
    (andThen (planEach (λ kv, one (WriteSeen kv.1 kv.2)) (rangeMap (Seen state)))
       (andThen (planEach planInbox (rangeMap (EventSubInbox state)))
          (planEach (λ kv, one (WriteChannel kv.1 kv.2)) (rangeMap (ChannelStates state))))).
Definition planAuditLog (state : AuditDiskState) : plan := planEach planAudit (AuditRecords state).
Definition planSettings (state : SettingsSyncDiskState) : plan := planEach planUser (rangeMap (Users state)).

Section Directory.
Context (directory : string).
Definition registrationsFile : result (option (gmap string R.t)) :=
  readLegacyJSON files (JoinPath directory "registrations.json") UnmarshalRegistrations ∅.
Definition authFile : result (option AuthDiskState) :=
  readLegacyJSON files (JoinPath directory "auth.json") UnmarshalAuth (mkAuthState ∅ ∅ ∅ ∅).
Definition deliveriesFile : result (option DeliveryDiskState) :=
  readLegacyJSON files (JoinPath directory "deliveries.json") UnmarshalDeliveries (mkDeliveryState ∅ ∅ ∅ ∅).
Definition auditFile : result (option AuditDiskState) :=
  readLegacyJSON files (JoinPath directory "audit.json") UnmarshalAudit (mkAuditState []).
Definition settingsFile : result (option SettingsSyncDiskState) :=
  readLegacyJSON files (JoinPath directory "settings-sync.json") UnmarshalSettings (mkSettingsState ∅).

Definition planFiles : plan :=
  andThen (planFile registrationsFile planRegistrations)
    (andThen (planFile authFile planAuthState)
       (andThen (planFile deliveriesFile planDeliveries)
          (andThen (planFile auditFile planAuditLog) (planFile settingsFile planSettings)))).
End Directory.

(** ** The import follows the plan *)

Lemma issues_registration regs key : issues (λ L, importRegistration clock L regs key) (planRegistration regs key).
Proof.
  unfold planRegistration. change (λ L, importRegistration clock L regs key) with (λ L report,
    let r := registrationOf regs key in
    if R.DeviceSecretHash r == "" then fail (ErrMsg "legacy registration has no device secret") else
    let! r := if IsZero (R.UpdatedAt r) then let! now := Now clock in ret (r <| R.UpdatedAt := now |>) else ret r in
    let! _ := Exec L "import legacy registration" (WriteRegistration r) in ret (tally report (WriteRegistration r))).
  generalize (registrationOf regs key). intros r. cbv zeta.
  case_bool_decide; [by apply issues_fail|]. destruct (IsZero (R.UpdatedAt r)); [|apply issues_exec].
  intros L report t w n. apply (issues_exec "import legacy registration" (WriteRegistration _) L report t w n).
Qed.

Lemma issues_lift {T} (r : result T) k p :
  (∀ a, issues (k a) (p a)) →
  issues (λ L report, let! a := lift r in k a L report) (λ n, match r with Ok a => p a n | Err _ => None end).
Proof. apply (issues_read (λ _, r)). Qed.

Lemma issues_credential state id : issues (λ L, importCredential aead L state id) (planCredential state id).
Proof.
  unfold planCredential. change (λ L, importCredential aead L state id) with (λ L report,
    let r := credentialOf state id in
    let! _ := annotate "validate legacy credential" (lift (Open aead (CR.ID r +:+ ":access") (CR.AccessToken r))) in
    let! _ := annotate "validate legacy credential" (lift (Open aead (CR.ID r +:+ ":refresh") (CR.RefreshToken r))) in
    let! _ := Exec L "import legacy auth credential" (WriteCredential r) in ret (tally report (WriteCredential r))).
  generalize (credentialOf state id). intros r. cbv zeta.
  destruct (Open aead (CR.ID r +:+ ":access") _), (Open aead (CR.ID r +:+ ":refresh") _);
    [apply issues_exec|by eapply issues_fail..].
Qed.

Lemma issues_inbox kv : issues (λ L, importInbox L kv) (planInbox kv).
Proof.
  unfold importInbox, planInbox.
  destruct (MarshalCondition _), (MarshalEvent _); [apply issues_exec|by eapply issues_fail..].
Qed.

Lemma issues_audit r : issues (λ L, importAuditRecord clock rnd L r) (planAudit r).
Proof.
  intros L report t w n. pose proof (λ r', issues_exec "import legacy audit record" (WriteAudit r') L report t w n) as Hexec.
  unfold importAuditRecord, planAudit, NewID, Now. unfold bind at 1 2. destruct (A.ID r == "").
  - unfold bind at 1. cbn [position]. destruct (RandomToken (rnd n) "audit_" 12) as [id|e]; [|split; [done|by right]].
    unfold ret at 1. change (A.Timestamp (r <| A.ID := id |>)) with (A.Timestamp r).
    destruct (IsZero (A.Timestamp r)); apply Hexec.
  - unfold ret at 1. replace (r <| A.ID := A.ID r |>) with r by (by destruct r).
    destruct (IsZero (A.Timestamp r)); [apply Hexec|].
    replace (r <| A.Timestamp := A.Timestamp r |>) with r by (by destruct r). apply Hexec.
Qed.

Lemma issues_snapshots userID snapshots seen :
  issues (λ L, importSnapshots L userID snapshots seen)
    (λ _, let snapshots := firsts snapshots seen in
          if forallb (λ s, Valid (SS.Payload s)) snapshots then Some (WriteSnapshot userID <$> snapshots) else None).
Proof.
  revert seen. induction snapshots as [|s snapshots IH]; intros seen; [apply issues_ret|]. cbn [importSnapshots firsts].
  case_bool_decide; [apply IH|]. cbn. destruct (Valid (SS.Payload s)); cbn; [|by apply issues_fail].
  eapply (issues_ext (λ L report,
    let! report := (let! _ := Exec L "import legacy settings snapshot" (WriteSnapshot userID s) in
                    ret (tally report (WriteSnapshot userID s))) in
    importSnapshots L userID snapshots ({[SS.Revision s]} ∪ seen) report)); [| |apply issues_seq; [apply issues_exec|apply IH]].
  - intros L report x. unfold bind. by destruct (Exec _ _ _ _) as [x' []].
  - intros n. unfold andThen, one. cbn. by destruct (forallb _ _).
Qed.

Lemma issues_file {T} (found : result (option T)) k p :
  (∀ state, issues (k state) (p state)) →
  issues (λ L report, let! found := lift found in match found with None => ret report | Some state => k state L report end)
    (planFile found p).
Proof.
  intros Hk. apply (issues_ext (λ L report, let! found := lift found in
    match found with None => ret report | Some state => k state L report end) _
    (λ n, match found with Ok a => (match a with None => λ _, Some [] | Some state => p state end) n | Err _ => None end)).
  - done.
  - intros n. by destruct found as [[]|].
  - apply (issues_lift found (λ a L report, match a with None => ret report | Some state => k state L report end)
      (λ a, match a with None => λ _, Some [] | Some state => p state end)). intros [state|]; [apply Hk|apply issues_ret].
Qed.

Lemma issues_auth_state state :
  issues (λ L report,
      if (0 <? mlen (Credentials state)) && match aead with None => true | Some _ => false end
      then fail (ErrMsg "AUTH_ENCRYPTION_KEY is required to import legacy OAuth credentials") else
      let! report := forEach (sortedMapKeys (Credentials state)) (importCredential aead L state) report in
      let! report := forEach (rangeMap (Sessions state)) (importSession L) report in
      let! report := forEach (rangeMap (Pending state)) (importPending L) report in
      forEach (rangeMap (Handoffs state)) (importHandoff L) report) (planAuthState state).
Proof.
  unfold planAuthState. destruct (_ && _); [by apply issues_fail|].
  apply issues_seq; [apply (issues_each (λ id L, importCredential aead L state id)); intros; apply issues_credential|].
  apply issues_seq; [apply (issues_each (λ kv L, importSession L kv)); intros; apply issues_exec|].
  apply issues_seq; [apply (issues_each (λ kv L, importPending L kv)); intros; apply issues_exec|].
  apply (issues_each (λ kv L, importHandoff L kv)); intros; apply issues_exec.
Qed.

Lemma issues_delivery_state state :
  issues (λ L report,
      let! report := forEach (sortedMapKeys (Records state)) (importDelivery L state) report in
      let! report := forEach (rangeMap (Seen state)) (importSeen L) report in
      let! report := forEach (rangeMap (EventSubInbox state)) (importInbox L) report in
      forEach (rangeMap (ChannelStates state)) (importChannel L) report) (planDeliveries state).
Proof.
  apply issues_seq; [apply (issues_each (λ id L, importDelivery L state id)); intros id _; apply (issues_exec _ (WriteDelivery (deliveryOf state id)))|].
  apply issues_seq; [apply (issues_each (λ kv L, importSeen L kv)); intros; apply issues_exec|].
  apply issues_seq; [apply (issues_each (λ kv L, importInbox L kv)); intros; apply issues_inbox|].
  apply (issues_each (λ kv L, importChannel L kv)); intros; apply issues_exec.
Qed.

Lemma issues_files directory :
  issues (λ L report,
    let! report := importLegacyRegistrations files clock L (JoinPath directory "registrations.json") report in
    let! report := importLegacyAuth aead files L (JoinPath directory "auth.json") report in
    let! report := importLegacyDeliveries files L (JoinPath directory "deliveries.json") report in
    let! report := importLegacyAudit files clock rnd L (JoinPath directory "audit.json") report in
    importLegacySettings files L (JoinPath directory "settings-sync.json") report) (planFiles directory).
Proof.
  apply issues_seq; [|apply issues_seq; [|apply issues_seq; [|apply issues_seq]]].
  - apply issues_file. intros regs. apply (issues_each (λ key L, importRegistration clock L regs key)). intros.
    apply issues_registration.
  - apply (issues_file (authFile directory)). apply issues_auth_state.
  - apply (issues_file (deliveriesFile directory)). apply issues_delivery_state.
  - apply (issues_file (auditFile directory)). intros state.
    apply (issues_each (λ r L, importAuditRecord clock rnd L r)). intros. apply issues_audit.
  - apply (issues_file (settingsFile directory)). intros state.
    apply (issues_each (λ kv L, importUser L kv)). intros. apply issues_snapshots.
Qed.

(** ** All or nothing *)

(** The effect of the planned statements on the tables, from the statement
    number [n] on. *)
Definition planned (directory : string) (n : nat) (t : store) : option (store * LegacyImportReport) :=
  ws ← planFiles (TrimSpace directory) n; t ← runAll ws t; Some (t, foldl tally noReport ws).

Lemma import_cases (L : Link store) directory s :
  TrimSpace directory ≠ "" →
  let t := others L (sent s) (tables s) in
  match ImportLegacyState aead files clock rnd L true directory s with
  | (s', Ok report) => planned directory (S (sent s)) t = Some (tables s', report)
  | (s', Err _) =>
      (tables s' = t ∨ ∃ report, planned directory (S (sent s)) t = Some (tables s', report)) ∧
      ((∃ i, outcomeOf L i ≠ Answered) ∨ planned directory (S (sent s)) t = None)
  end.
Proof.
  intros Hdir t. unfold ImportLegacyState, transaction. cbn [negb]. rewrite bool_decide_false by done. fold t.
  destruct (outcomeOf L (sent s)) eqn:Hbegin; [|split; [by left|left; exists (sent s); congruence]..].
  pose proof (issues_files (TrimSpace directory) L noReport t t (S (sent s))) as Hissues.
  cbv beta in Hissues. change (bind (importLegacyRegistrations _ _ _ _ _) _) with
    (importFiles aead files clock rnd L (TrimSpace directory)) in Hissues.
  unfold bind at 1. unfold planned.
  destruct (importFiles aead files clock rnd L (TrimSpace directory) _) as [x [report|e]].
  - destruct Hissues as (ws & w & Hp & Hrun & -> & ->). rewrite Hp. cbn. rewrite Hrun. cbn.
    unfold bind, database, Commit. cbn. destruct (outcomeOf L (S (sent s + length ws))) eqn:Hcommit; cbn; [done|..];
      (split; [by eauto|]); left; exists (S (sent s + length ws)); congruence.
  - destruct Hissues as [Hx Hwhy]. cbn. split; [by left|]. destruct Hwhy as [?|Hnone]; [by left|right].
    destruct (planFiles _ _) as [ws|]; [|done]. cbn in *. by rewrite Hnone.
Qed.
End Plans.

(** ** Statements that change nothing *)

Section Upsert.
Context {K V} `{Countable K} (same : V → V → bool).
Context (same_sym : ∀ x y, same x y = same y x).
Implicit Types (m : gmap K V).

Lemma upsert_ok key v m m' :
  upsert same key v m = Ok m' ↔ m' = <[key := v]> m ∧ ∀ k u, m !! k = Some u → k ≠ key → same v u = false.
Proof.
  unfold upsert. destruct (existsb _ _) eqn:Hex.
  - split; [done|]. intros [_ Hall]. apply existsb_exists in Hex as ([k u] & Hin & [Hk Hsame]%andb_true_iff).
    apply list_elem_of_In, elem_of_map_to_list in Hin. cbn in *. rewrite (Hall k u) in Hsame; [done|done|].
    by case_bool_decide.
  - split.
    + intros [= <-]. split; [done|]. intros k u Hk Hne. destruct (same v u) eqn:Hsame; [|done].
      rewrite <-Hex. symmetry. apply existsb_exists. exists (k, u).
      rewrite <-list_elem_of_In, elem_of_map_to_list. cbn. by rewrite bool_decide_false.
    + by intros [-> _].
Qed.

Lemma upsert_settles key v m m' : upsert same key v m = Ok m' → upsert same key v m' = Ok m'.
Proof.
  rewrite !upsert_ok. intros [-> Hall]. split; [by rewrite insert_insert_eq|].
  intros k u Hk Hne. rewrite lookup_insert_ne in Hk by done. eauto.
Qed.

Lemma upsert_keeps key v key' v' m m' :
  key ≠ key' → upsert same key v m = Ok m → upsert same key' v' m = Ok m' → upsert same key v m' = Ok m'.
Proof.
  rewrite !upsert_ok. intros Hne [Hm Hall] [-> Hall'].
  assert (m !! key = Some v) as Hkey by (rewrite Hm; apply lookup_insert_eq). split.
  - symmetry. apply insert_id. by rewrite lookup_insert_ne.
  - intros k u. destruct (decide (k = key')) as [->|].
    + rewrite lookup_insert_eq. intros [= <-] _. rewrite same_sym. by apply (Hall' key).
    + rewrite lookup_insert_ne by done. apply Hall.
Qed.

Lemma upsert_lookup key v m m' : upsert same key v m = Ok m' → m' !! key = Some v.
Proof. rewrite upsert_ok. intros [-> _]. apply lookup_insert_eq. Qed.
End Upsert.

(** Statements reduce to the tables they touch. *)
Ltac reduce := cbn -[upsert registrationRow credentialRow sessionRow pendingRow handoffRow deliveryRow inboxRow
  channelRow auditRow snapshotRow integer noIndex].
Ltac reduce_in H := cbn -[upsert registrationRow credentialRow sessionRow pendingRow handoffRow deliveryRow inboxRow
  channelRow auditRow snapshotRow integer noIndex] in H.

(** The branch a statement took. *)
Ltac took H :=
  unfold effect, references, result_bind in H; reduce_in H;
  repeat match type of H with
  | (match ?x with _ => _ end) = _ => let E := fresh "E" in destruct x eqn:E; reduce_in H; try discriminate H
  end; try (injection H as <-).

Ltac follow :=
  unfold effect, references, result_bind; reduce;
  repeat match goal with E : ?x = _ |- context [match ?x with _ => _ end] => rewrite E; reduce end.

Section Settled.
Context `{json : EnvelopeJSON}.
Implicit Types (w : write) (t : store).

(** The row a statement writes: its table and primary key.  A record of the
    audit log that exists is left as it is. *)
Definition key w : option (string * string * Z) :=
  match w with
  | WriteRegistration r => Some ("push_registrations", R.InstallationID r, 0)
  | WriteCredential r => Some ("auth_credentials", CR.ID r, 0)
  | WriteSession k _ => Some ("auth_sessions", k, 0)
  | WritePending k _ => Some ("auth_pending", k, 0)
  | WriteHandoff k _ => Some ("auth_handoffs", k, 0)
  | WriteDelivery r => Some ("deliveries", D.ID r, 0)
  | WriteSeen k _ => Some ("eventsub_seen", k, 0)
  | WriteInbox k _ _ _ => Some ("eventsub_inbox", k, 0)
  | WriteChannel k _ => Some ("channel_notification_states", k, 0)
  | WriteAudit _ => None
  | WriteSnapshot k r => Some ("settings_sync_snapshots", k, SS.Revision r)
  end.

Lemma registrationRow_idemp r old : registrationRow r (Some (registrationRow r old)) = registrationRow r old.
Proof. done. Qed.

Lemma effect_settles w t t' : effect w t = Ok t' → effect w t' = Ok t'.
Proof.
  intros Heff. destruct w; took Heff;
    try match goal with
    | E : upsert _ _ _ _ = Ok _ |- _ =>
        let Hl := fresh "Hl" in pose proof (upsert_lookup _ _ _ _ _ E) as Hl; apply upsert_settles in E
    end; follow; try done.
  - by rewrite Hl, registrationRow_idemp, E0.
  - by rewrite lookup_insert_eq.
Qed.

Lemma eqb_sym (x y : string) : (x == y) = (y == x).
Proof. by apply bool_decide_ext. Qed.

(** The values of two rows in an index are the same both ways. *)
Ltac index_sym := intros; first [reflexivity | apply eqb_sym | cbn; unfold PgDelivery.samePair; f_equal; apply eqb_sym].

Lemma references_kept id v (m m' : gmap string CR.t) i :
  upsert noIndex id v m = Ok m' → is_Some (m !! i) → is_Some (m' !! i).
Proof. rewrite upsert_ok. intros [-> _]. rewrite lookup_insert_is_Some. destruct (decide (id = i)); auto. Qed.

Lemma effect_keeps w w' t t' :
  effect w t = Ok t → effect w' t = Ok t' → key w = None ∨ key w ≠ key w' → effect w t' = Ok t'.
Proof.
  destruct t as [tr [tc ts tp th] [td te ti tn] ta tset]. intros Heff Heff' Hkey.
  destruct w; took Heff;
    try (exfalso; injection Heff as Heff; apply (f_equal (lookup (A.ID r))) in Heff; rewrite lookup_insert_eq in Heff; congruence).
  all: destruct w'; took Heff'; follow; try done.
  all: try match goal with
    | E1 : upsert ?s ?k1 ?v1 ?m1 = Ok ?m1, E2 : upsert ?s ?k2 ?v2 ?m1 = Ok ?m2 |- context [upsert ?s ?k1 ?v1 ?m2] =>
        assert (upsert s k1 v1 m2 = Ok m2) as ->;
          [refine (upsert_keeps s _ k1 v1 k2 v2 m1 m2 _ E1 E2); [index_sym|];
           intros Heq; destruct Hkey as [Hkey|Hkey]; [done|]; apply Hkey; cbn; congruence|done]
    end.
  - assert (R.InstallationID r ≠ R.InstallationID r0) as Hne.
    { destruct Hkey as [|Hkey]; [done|]. intros Heq. apply Hkey. cbn. by rewrite Heq. }
    assert (a0 !! R.InstallationID r = a !! R.InstallationID r) as ->.
    { apply upsert_ok in E2 as [-> _]. by rewrite lookup_insert_ne. }
    by rewrite (upsert_keeps noIndex (λ _ _, eq_refl) _ _ _ _ _ _ Hne E0 E2).
  - destruct (tc !! S.CredentialID r) eqn:Hc; [|done]. by destruct (references_kept _ _ _ _ _ E1 (mk_is_Some _ _ Hc)) as [? ->].
  - destruct (tc !! H.CredentialID r) eqn:Hc; [|done]. by destruct (references_kept _ _ _ _ _ E1 (mk_is_Some _ _ Hc)) as [? ->].
  - destruct (decide (A.ID r0 = A.ID r)) as [->|]; [by rewrite lookup_insert_eq|]. rewrite lookup_insert_ne by done.
    by rewrite E.
Qed.

(** A statement that has been executed and would change nothing. *)
Definition settled t w : Prop := forallb text (texts w) = true ∧ effect w t = Ok t.

(** No two statements write different contents to one row. *)
Definition consistent (ws : list write) : Prop :=
  ∀ w w', w ∈ ws → w' ∈ ws → key w = key w' → key w ≠ None → w = w'.

Lemma settled_keeps ws t t' w : settled t w → runAll ws t = Some t' →
  (∀ w', w' ∈ ws → key w = None ∨ key w ≠ key w' ∨ w = w') → settled t' w.
Proof.
  intros [Htext Heff] Hrun Hws. split; [done|]. revert t Heff Hrun. induction ws as [|w' ws IH]; intros t Heff Hrun; cbn in Hrun.
  { by simplify_eq. }
  destruct (forallb text (texts w')); [|done]. destruct (effect w' t) as [u|] eqn:Hu; [|done].
  refine (IH _ u _ Hrun); [intros w1 Hw1; apply Hws; by right|].
  destruct (Hws w' (list_elem_of_here _ _)) as [Hk|[Hk| <-]]; [eapply effect_keeps; eauto|eapply effect_keeps; eauto|by eapply effect_settles].
Qed.

Lemma runAll_settled ws t t' : consistent ws → runAll ws t = Some t' → ∀ w, w ∈ ws → settled t' w.
Proof.
  revert t. induction ws as [|w' ws IH]; intros t Hcon Hrun w Hw; [by apply elem_of_nil in Hw|].
  cbn in Hrun. destruct (forallb text (texts w')) eqn:Htext; [|done]. destruct (effect w' t) as [u|] eqn:Hu; [|done].
  apply elem_of_cons in Hw as [->|Hw].
  - apply (settled_keeps ws u); [|done|].
    + split; [done|by eapply effect_settles].
    + intros w Hw. destruct (decide (key w' = None)) as [|Hn]; [by left|right].
      destruct (decide (key w' = key w)) as [Heq|]; [right|by left]. apply Hcon; [left|by right|done|done].
  - apply (IH u); [|done|done]. intros w1 w2 H1 H2. apply Hcon; by right.
Qed.

Lemma runAll_idle ws t : (∀ w, w ∈ ws → settled t w) → runAll ws t = Some t.
Proof.
  induction ws as [|w ws IH]; intros Hws; [done|]. cbn. destruct (Hws w (list_elem_of_here _ _)) as [-> ->].
  apply IH. intros w' Hw'. apply Hws. by right.
Qed.

(** Sending a list again, in any order, changes nothing. *)
Lemma runAll_again ws ws' t t' : consistent ws → ws ≡ₚ ws' → runAll ws t = Some t' → runAll ws' t' = Some t'.
Proof.
  intros Hcon Hperm Hrun. apply runAll_idle. intros w Hw. apply (runAll_settled ws t); [done|done|]. by rewrite Hperm.
Qed.

Lemma tally_perm ws ws' report : ws ≡ₚ ws' → foldl tally report ws = foldl tally report ws'.
Proof.
  intros Hperm. revert report. induction Hperm as [|w l k _ IH|w w' l|l k m _ IH1 _ IH2]; intros report; cbn; [done|apply IH| |].
  - f_equal. destruct w, w'; cbn; f_equal; lia.
  - by rewrite IH1, IH2.
Qed.
End Settled.

(** ** Runs on the same files *)

(** One plan sends what the other sends, in some order, from any point. *)
Definition covers (p q : nat → option (list write)) : Prop :=
  ∀ n n' ws, p n = Some ws → ∃ ws', q n' = Some ws' ∧ ws ≡ₚ ws'.

Lemma covers_one w : covers (one w) (one w).
Proof. intros n n' ws [= <-]. by exists [w]. Qed.

Lemma covers_then p p' q q' : covers p q → covers p' q' → covers (andThen p p') (andThen q q').
Proof.
  intros H1 H2 n n' ws. unfold andThen. destruct (p n) as [ws1|] eqn:Hp; [|done]. cbn.
  destruct (p' _) as [ws2|] eqn:Hp'; [|done]. cbn. intros [= <-].
  destruct (H1 n n' _ Hp) as (ws1' & -> & Hperm1). cbn. destruct (H2 _ (n' + length ws1')%nat _ Hp') as (ws2' & -> & Hperm2).
  exists (ws1' ++ ws2'). split; [done|]. by rewrite Hperm1, Hperm2.
Qed.

Lemma covers_each {K} (p q : K → nat → option (list write)) l :
  (∀ k, k ∈ l → covers (p k) (q k)) → covers (planEach p l) (planEach q l).
Proof.
  induction l as [|k l IH]; intros Hk; [intros n n' ws [= <-]; by exists []|].
  cbn. apply covers_then; [apply Hk; left|apply IH]. intros k' Hk'. apply Hk. by right.
Qed.

Lemma covers_trans p q r : covers p q → covers q r → covers p r.
Proof.
  intros H1 H2 n n' ws Hp. destruct (H1 n n' _ Hp) as (ws' & Hq & Hperm). destruct (H2 n' n' _ Hq) as (ws'' & Hr & Hperm').
  exists ws''. split; [done|]. by rewrite Hperm.
Qed.

Lemma covers_swap p q r :
  covers p p → covers q q → covers r r → covers (andThen p (andThen q r)) (andThen q (andThen p r)).
Proof.
  intros Hp Hq Hr n n' ws. unfold andThen. destruct (p n) as [ws1|] eqn:H1; [|done]. cbn.
  destruct (q _) as [ws2|] eqn:H2; [|done]. cbn. destruct (r _) as [ws3|] eqn:H3; [|done]. cbn. intros [= <-].
  destruct (Hq _ n' _ H2) as (ws2' & -> & Hperm2). cbn.
  destruct (Hp _ (n' + length ws2')%nat _ H1) as (ws1' & -> & Hperm1). cbn.
  destruct (Hr _ (n' + length ws2' + length ws1')%nat _ H3) as (ws3' & -> & Hperm3).
  exists (ws2' ++ ws1' ++ ws3'). split; [done|]. rewrite Hperm1, Hperm2, Hperm3, !(assoc (++)). f_equiv. apply Permutation_app_comm.
Qed.

Lemma covers_perm {K} (p : K → nat → option (list write)) l l' :
  (∀ k, k ∈ l → covers (p k) (p k)) → l ≡ₚ l' → covers (planEach p l) (planEach p l').
Proof.
  intros Hk Hperm. induction Hperm as [|k l l' _ IH|k k' l|l l' l'' Hperm IH Hperm' IH']; cbn.
  - by apply (covers_each p p []).
  - apply covers_then; [apply Hk; left|]. apply IH. intros k' Hk'. apply Hk. by right.
  - apply covers_swap; [apply Hk; left|apply Hk; right; left|]. apply covers_each. intros k1 Hk1. apply Hk. by do 2 right.
  - eapply covers_trans; [by apply IH|]. apply IH'. intros k. rewrite <-Hperm. apply Hk.
Qed.

Section Canonical.
Context {sha : Sha256} `{json : EnvelopeJSON} {syntax : JSONSyntax} {legacy : LegacyJSON}.
Context (aead : option AEAD) (files : string → file) (directory : string).

(** All snapshots of a user. *)
Definition snapshots (us : SU.t) : list SS.t :=
  SU.History us ++ match SU.Current us with Some current => [current] | None => [] end.

(** The files as the older versions wrote them: records are filed under their
    identifiers, registrations and audit records carry their times, audit
    records their identifiers, and a revision has one content. *)
Record canonical : Prop := {
  canonical_registrations regs k r : registrationsFile files directory = Ok (Some regs) → regs !! k = Some r →
    (R.InstallationID r = "" ∨ R.InstallationID r = k) ∧ IsZero (R.UpdatedAt r) = false;
  canonical_credentials state k r : authFile files directory = Ok (Some state) → Credentials state !! k = Some r →
    CR.ID r = "" ∨ CR.ID r = k;
  canonical_deliveries state k r : deliveriesFile files directory = Ok (Some state) → Records state !! k = Some r →
    D.ID r = "" ∨ D.ID r = k;
  canonical_audit state r : auditFile files directory = Ok (Some state) → r ∈ AuditRecords state →
    A.ID r ≠ "" ∧ IsZero (A.Timestamp r) = false;
  canonical_settings state u us x y : settingsFile files directory = Ok (Some state) → Users state !! u = Some us →
    x ∈ snapshots us → y ∈ snapshots us → SS.Revision x = SS.Revision y → x = y
}.
Context (Hcan : canonical).

(** Two runs, each with its own order of maps, clock and random source. *)
Context (rt rt' : GoRuntime) (clock clock' : nat → time) (rnd rnd' : nat → rand_read).

Lemma elem_of_sortedMapKeys (r : GoRuntime) {V} (m : gmap string V) k : k ∈ sortedMapKeys (rt:=r) m ↔ is_Some (m !! k).
Proof.
  unfold sortedMapKeys. rewrite sortSlice_perm, list_elem_of_fmap. split.
  - intros ([k' v] & -> & H'%elem_of_rangeMap). eauto.
  - intros [v Hv]. exists (k, v). by rewrite elem_of_rangeMap.
Qed.

Lemma sortedMapKeys_perm {V} (m : gmap string V) : sortedMapKeys (rt:=rt) m ≡ₚ sortedMapKeys (rt:=rt') m.
Proof. unfold sortedMapKeys. by rewrite !sortSlice_perm, !rangeMap_perm. Qed.

Lemma rangeMap_runs {V} (m : gmap string V) : rangeMap (GoRuntime:=rt) m ≡ₚ rangeMap (GoRuntime:=rt') m.
Proof. by rewrite !rangeMap_perm. Qed.

(** A loop over permuted keys. *)
Lemma covers_loop {K} (p q : K → nat → option (list write)) l l' :
  l ≡ₚ l' → (∀ k, k ∈ l → covers (p k) (q k)) → (∀ k, k ∈ l → covers (q k) (q k)) → covers (planEach p l) (planEach q l').
Proof. intros Hperm H1 H2. eapply covers_trans; [by apply covers_each|]. by apply covers_perm. Qed.

Lemma covers_file {T} (found : result (option T)) p q :
  (∀ state, found = Ok (Some state) → covers (p state) (q state)) → covers (planFile found p) (planFile found q).
Proof.
  intros Hk n n' ws. unfold planFile. destruct found as [[state|]|]; [by apply Hk| |done]. intros [= <-]. by exists [].
Qed.

Lemma registration_time regs k c c' :
  registrationsFile files directory = Ok (Some regs) → is_Some (regs !! k) → covers (planRegistration c regs k) (planRegistration c' regs k).
Proof.
  intros Hfile [r Hr] n n' ws. unfold planRegistration. destruct (R.DeviceSecretHash _ == ""); [done|].
  assert (IsZero (R.UpdatedAt (registrationOf regs k)) = false) as ->.
  { destruct (canonical_registrations Hcan _ _ _ Hfile Hr) as [_ Hz]. unfold registrationOf. rewrite Hr. cbn.
    repeat case_bool_decide; cbn; done. }
  intros [= <-]. eauto.
Qed.

Lemma audit_time state r c c' g g' :
  auditFile files directory = Ok (Some state) → r ∈ AuditRecords state → covers (planAudit c g r) (planAudit c' g' r).
Proof.
  intros Hfile Hr n n' ws. unfold planAudit. destruct (canonical_audit Hcan _ _ Hfile Hr) as [Hid ->].
  rewrite bool_decide_false by done. intros [= <-]. eauto.
Qed.

Lemma elem_of_firsts l seen x : x ∈ firsts l seen → x ∈ l ∧ SS.Revision x ∉ seen.
Proof.
  revert seen. induction l as [|y l IH]; intros seen; cbn; [by intros ?%elem_of_nil|].
  case_bool_decide as Hy; [intros [? ?]%IH; by split; [right|]|].
  intros [->|[? Hnot]%IH]%elem_of_cons; [by split; [left|]|]. split; [by right|]. set_solver.
Qed.

Lemma firsts_cover l seen x : x ∈ l → SS.Revision x ∉ seen → ∃ y, y ∈ firsts l seen ∧ SS.Revision y = SS.Revision x.
Proof.
  revert seen. induction l as [|z l IH]; intros seen; [by intros ?%elem_of_nil|]. cbn. intros Hx Hnot.
  destruct (decide (SS.Revision x = SS.Revision z)) as [Heq|Hne].
  - rewrite bool_decide_false by congruence. exists z. split; [left|done].
  - apply elem_of_cons in Hx as [->|Hx]; [done|]. case_bool_decide; [by apply IH|].
    destruct (IH ({[SS.Revision z]} ∪ seen) Hx) as (y & Hy & ?); [set_solver|]. exists y. split; [by right|done].
Qed.

Lemma NoDup_firsts l seen : NoDup (firsts l seen).
Proof.
  revert seen. induction l as [|z l IH]; intros seen; cbn; [constructor|]. case_bool_decide; [apply IH|].
  constructor; [|apply IH]. intros [_ Hnot]%elem_of_firsts. set_solver.
Qed.

Lemma elem_of_snapshotsOf (r : GoRuntime) us x : x ∈ snapshotsOf (rt:=r) us ↔ x ∈ snapshots us.
Proof. unfold snapshotsOf. by rewrite sortSlice_perm. Qed.

Lemma user_snapshots state u us (r r' : GoRuntime) :
  settingsFile files directory = Ok (Some state) → Users state !! u = Some us →
  firsts (snapshotsOf (rt:=r) us) ∅ ≡ₚ firsts (snapshotsOf (rt:=r') us) ∅.
Proof.
  intros Hfile Hu. apply NoDup_Permutation; [apply NoDup_firsts..|].
  assert (∀ r1 r2 : GoRuntime, ∀ x, x ∈ firsts (snapshotsOf (rt:=r1) us) ∅ → x ∈ firsts (snapshotsOf (rt:=r2) us) ∅) as Hsub.
  { intros r1 r2 x [Hx _]%elem_of_firsts. rewrite elem_of_snapshotsOf in Hx.
    destruct (firsts_cover (snapshotsOf (rt:=r2) us) ∅ x) as (y & Hy & Hrev); [by rewrite elem_of_snapshotsOf|set_solver|].
    pose proof (elem_of_firsts _ _ _ Hy) as [Hy' _]. rewrite elem_of_snapshotsOf in Hy'.
    by rewrite <-(canonical_settings Hcan _ _ _ _ _ Hfile Hu Hy' Hx Hrev). }
  intros x. split; apply Hsub.
Qed.

Lemma user_runs state kv (r r' : GoRuntime) :
  settingsFile files directory = Ok (Some state) → Users state !! kv.1 = Some kv.2 →
  covers (planUser (rt:=r) kv) (planUser (rt:=r') kv).
Proof.
  intros Hfile Hu n n' ws. unfold planUser. pose proof (user_snapshots _ _ _ r r' Hfile Hu) as Hperm.
  destruct (forallb _ (firsts (snapshotsOf kv.2) ∅)) eqn:Hvalid; [|done]. intros [= <-].
  assert (forallb (λ s, Valid (SS.Payload s)) (firsts (snapshotsOf (rt:=r') kv.2) ∅) = true) as ->.
  { rewrite forallb_forall in *. intros x Hx. apply Hvalid. rewrite <-list_elem_of_In in *. by rewrite Hperm. }
  eexists. split; [done|]. by apply fmap_Permutation.
Qed.

Lemma covers_None p : covers (λ _, None) p.
Proof. done. Qed.

Lemma files_run n n' ws :
  planFiles (rt:=rt) aead files clock rnd directory n = Some ws →
  ∃ ws', planFiles (rt:=rt') aead files clock' rnd' directory n' = Some ws' ∧ ws ≡ₚ ws'.
Proof.
  apply (covers_then _ _ _ _); [|apply covers_then; [|apply covers_then; [|apply covers_then]]]; apply covers_file; intros state Hfile.
  - apply covers_loop; [apply sortedMapKeys_perm|..]; intros k Hk%elem_of_sortedMapKeys; by apply registration_time.
  - unfold planAuthState. destruct (_ && _); [apply covers_None|].
    repeat (apply covers_then); apply covers_loop; try apply sortedMapKeys_perm; try apply rangeMap_runs;
      intros; try apply covers_one; intros m m' ws'; unfold planCredential; (destruct (_ && _); [|done]); intros [= <-]; eauto.
  - repeat (apply covers_then); apply covers_loop; try apply sortedMapKeys_perm; try apply rangeMap_runs;
      intros; try apply covers_one; intros m m' ws'; unfold planInbox;
      (destruct (MarshalCondition _); [|done]); (destruct (MarshalEvent _); [|done]); intros [= <-]; eauto.
  - apply covers_each. intros r Hr. by eapply audit_time.
  - apply covers_loop; [apply rangeMap_runs|..]; intros [u us] Hu%elem_of_rangeMap; by eapply user_runs.
Qed.

(** ** The statements and the records of the files *)

(** The record a statement writes. *)
Definition filed (w : write) : Prop :=
  match w with
  | WriteRegistration r => ∃ regs k, registrationsFile files directory = Ok (Some regs) ∧ is_Some (regs !! k) ∧
      r = registrationOf regs k ∧ R.InstallationID r = k
  | WriteCredential r => ∃ state k, authFile files directory = Ok (Some state) ∧ is_Some (Credentials state !! k) ∧
      r = credentialOf state k ∧ CR.ID r = k
  | WriteSession k r => ∃ state, authFile files directory = Ok (Some state) ∧ Sessions state !! k = Some r
  | WritePending k r => ∃ state, authFile files directory = Ok (Some state) ∧ Pending state !! k = Some r
  | WriteHandoff k r => ∃ state, authFile files directory = Ok (Some state) ∧ Handoffs state !! k = Some r
  | WriteDelivery r => ∃ state k, deliveriesFile files directory = Ok (Some state) ∧ is_Some (Records state !! k) ∧
      r = deliveryOf state k ∧ D.ID r = k
  | WriteSeen k r => ∃ state, deliveriesFile files directory = Ok (Some state) ∧ Seen state !! k = Some r
  | WriteInbox k r condition event => ∃ state, deliveriesFile files directory = Ok (Some state) ∧
      EventSubInbox state !! k = Some r ∧ MarshalCondition (Sub.Condition (E.Subscription_ (I.Envelope r))) = Ok condition ∧
      MarshalEvent (E.Event (I.Envelope r)) = Ok event
  | WriteChannel k r => ∃ state, deliveriesFile files directory = Ok (Some state) ∧ ChannelStates state !! k = Some r
  | WriteAudit r => ∃ state, auditFile files directory = Ok (Some state) ∧ r ∈ AuditRecords state
  | WriteSnapshot u r => ∃ state us, settingsFile files directory = Ok (Some state) ∧ Users state !! u = Some us ∧
      r ∈ snapshots us
  end.

Lemma filed_key w w' : filed w → filed w' → key w = key w' → key w ≠ None → w = w'.
Proof.
  intros Hw Hw' Hkey Hsome. destruct w, w'; cbn in Hkey; try discriminate Hkey; [..|done|]; injection Hkey as Hkey; cbn in Hw, Hw';
    repeat match goal with
    | Hx : ∃ _, _ |- _ => destruct Hx
    | Hx : _ ∧ _ |- _ => destruct Hx
    end; simplify_eq; try congruence.
  match goal with Hx : settingsFile _ _ = _, Hy : settingsFile _ _ = _ |- _ => rewrite Hx in Hy end. simplify_eq. f_equal. by eapply (canonical_settings Hcan).
Qed.

Definition sends (p : nat → option (list write)) (w : write) : Prop := ∃ n ws, p n = Some ws ∧ w ∈ ws.

Lemma sends_then p q w : sends (andThen p q) w → sends p w ∨ sends q w.
Proof.
  intros (n & ws & Hws & Hw). unfold andThen in Hws. destruct (p n) as [ws1|] eqn:Hp; [|done]. cbn in Hws.
  destruct (q _) as [ws2|] eqn:Hq; [|done]. cbn in Hws. simplify_eq. apply elem_of_app in Hw as [?|?]; [left|right]; do 2 eexists; eauto.
Qed.

Lemma sends_each {K} (p : K → nat → option (list write)) l w : sends (planEach p l) w → ∃ k, k ∈ l ∧ sends (p k) w.
Proof.
  induction l as [|k l IH]; cbn; [intros (? & ? & [= <-] & ?%elem_of_nil); done|].
  intros [?|(k' & ? & ?)%IH]%sends_then; [exists k; split; [left|done]|exists k'; split; [by right|done]].
Qed.

Lemma sends_file {T} (found : result (option T)) p w :
  sends (planFile found p) w → ∃ state, found = Ok (Some state) ∧ sends (p state) w.
Proof.
  intros (n & ws & Hws & Hw). unfold planFile in Hws. destruct found as [[state|]|]; [|simplify_eq; by apply elem_of_nil in Hw|done].
  exists state. split; [done|]. do 2 eexists. eauto.
Qed.

Lemma sends_one w w' : sends (one w) w' → w' = w.
Proof. intros (n & ws & [= <-] & ?%list_elem_of_singleton). done. Qed.

Lemma sends_filed w : sends (planFiles (rt:=rt) aead files clock rnd directory) w → filed w.
Proof.
  intros [(regs & Hfile & (k & Hk%elem_of_sortedMapKeys & (n & ws & Hws & Hw))%sends_each)%sends_file
    |[(state & Hfile & Hw)%sends_file|[(state & Hfile & Hw)%sends_file|[(state & Hfile & (r & Hr & (n & ws & Hws & Hw))%sends_each)%sends_file
    |(state & Hfile & ([u us] & Hu%elem_of_rangeMap & (n & ws & Hws & Hw))%sends_each)%sends_file]%sends_then]%sends_then]%sends_then]%sends_then.
  - unfold planRegistration in Hws. destruct (R.DeviceSecretHash _ == ""); [done|]. destruct Hk as [r Hr].
    destruct (canonical_registrations Hcan _ _ _ Hfile Hr) as [Hid Hz].
    assert (IsZero (R.UpdatedAt (registrationOf regs k)) = false ∧ R.InstallationID (registrationOf regs k) = k) as [Hz' Hid'].
    { unfold registrationOf. rewrite Hr. cbn. repeat case_bool_decide; cbn in *; naive_solver. }
    rewrite Hz' in Hws. simplify_eq. apply list_elem_of_singleton in Hw as ->. cbn. eauto 10.
  - unfold planAuthState in Hw. destruct (_ && _); [by destruct Hw as (? & ? & ? & ?)|].
    apply sends_then in Hw as [(k & Hk%elem_of_sortedMapKeys & (n & ws & Hws & Hw))%sends_each|[([k r] & Hk%elem_of_rangeMap & ->%sends_one)%sends_each
      |[([k r] & Hk%elem_of_rangeMap & ->%sends_one)%sends_each|([k r] & Hk%elem_of_rangeMap & ->%sends_one)%sends_each]%sends_then]%sends_then]; cbn; eauto.
    unfold planCredential in Hws. destruct (_ && _); [|done]. simplify_eq. apply list_elem_of_singleton in Hw as ->. destruct Hk as [r Hr].
    exists state, k. split_and!; [done|by eauto|done|]. unfold credentialOf. rewrite Hr. cbn.
    destruct (canonical_credentials Hcan _ _ _ Hfile Hr); case_bool_decide; cbn; congruence.
  - apply sends_then in Hw as [(k & Hk%elem_of_sortedMapKeys & ->%sends_one)%sends_each|[([k r] & Hk%elem_of_rangeMap & ->%sends_one)%sends_each
      |[([k r] & Hk%elem_of_rangeMap & (n & ws & Hws & Hw))%sends_each|([k r] & Hk%elem_of_rangeMap & ->%sends_one)%sends_each]%sends_then]%sends_then]; cbn; eauto.
    + destruct Hk as [r Hr]. exists state, k. split_and!; [done|by eauto|done|]. unfold deliveryOf. rewrite Hr. cbn.
      destruct (canonical_deliveries Hcan _ _ _ Hfile Hr); case_bool_decide; cbn; congruence.
    + unfold planInbox in Hws. destruct (MarshalCondition _) eqn:Hc; [|done]. destruct (MarshalEvent _) eqn:He; [|done]. simplify_eq.
      apply list_elem_of_singleton in Hw as ->. cbn. eauto 10.
  - unfold planAudit in Hws. destruct (canonical_audit Hcan _ _ Hfile Hr) as [Hid Hz]. rewrite bool_decide_false in Hws by done.
    rewrite Hz in Hws. simplify_eq. apply list_elem_of_singleton in Hw as ->. exists state. split; [done|]. by destruct r.
  - unfold planUser in Hws. destruct (forallb _ _); [|done]. simplify_eq. apply list_elem_of_fmap in Hw as (r & -> & [Hr _]%elem_of_firsts).
    rewrite elem_of_snapshotsOf in Hr. cbn. eauto.
Qed.

Lemma plan_consistent n ws : planFiles (rt:=rt) aead files clock rnd directory n = Some ws → consistent ws.
Proof. intros Hws w w' Hw Hw'. apply filed_key; apply sends_filed; exists n, ws; done. Qed.

(** No record is left out. *)
Definition delivers (p : nat → option (list write)) (w : write) : Prop := ∀ n ws, p n = Some ws → w ∈ ws.

Lemma delivers_then p q w : delivers p w ∨ delivers q w → delivers (andThen p q) w.
Proof.
  intros Hw n ws Hws. unfold andThen in Hws. destruct (p n) as [ws1|] eqn:Hp; [|done]. cbn in Hws.
  destruct (q _) as [ws2|] eqn:Hq; [|done]. cbn in Hws. simplify_eq. rewrite elem_of_app.
  destruct Hw as [Hw|Hw]; [left|right]; eauto.
Qed.

Lemma delivers_each {K} (p : K → nat → option (list write)) l k w : k ∈ l → delivers (p k) w → delivers (planEach p l) w.
Proof.
  intros Hk Hw. induction l as [|k' l IH]; [by apply elem_of_nil in Hk|]. cbn. apply delivers_then.
  apply elem_of_cons in Hk as [->|Hk]; [by left|right; auto].
Qed.

Lemma delivers_file {T} (found : result (option T)) p state w :
  found = Ok (Some state) → delivers (p state) w → delivers (planFile found p) w.
Proof. by intros ->. Qed.

Lemma delivers_one w : delivers (one w) w.
Proof. intros n ws [= <-]. left. Qed.

Lemma delivers_map {V} (m : gmap string V) (f : string → V → write) k v :
  m !! k = Some v → delivers (planEach (λ kv, one (f kv.1 kv.2)) (rangeMap (GoRuntime:=rt) m)) (f k v).
Proof. intros Hk. apply (delivers_each _ _ (k, v)); [by apply elem_of_rangeMap|apply delivers_one]. Qed.

Lemma delivers_registration regs k :
  registrationsFile files directory = Ok (Some regs) → is_Some (regs !! k) →
  delivers (planRegistrations (rt:=rt) clock regs) (WriteRegistration (registrationOf regs k)).
Proof.
  intros Hfile Hk. apply (delivers_each _ _ k); [by apply elem_of_sortedMapKeys|]. intros n ws Hws. unfold planRegistration in Hws.
  destruct (R.DeviceSecretHash _ == ""); [done|]. destruct Hk as [r Hr].
  destruct (canonical_registrations Hcan _ _ _ Hfile Hr) as [_ Hz].
  assert (IsZero (R.UpdatedAt (registrationOf regs k)) = false) as Hz'.
  { unfold registrationOf. rewrite Hr. cbn. repeat case_bool_decide; cbn; done. }
  rewrite Hz' in Hws. simplify_eq. left.
Qed.

Lemma delivers_auth state w :
  (∃ k, is_Some (Credentials state !! k) ∧ w = WriteCredential (credentialOf state k)) ∨
  (∃ k r, Sessions state !! k = Some r ∧ w = WriteSession k r) ∨
  (∃ k r, Pending state !! k = Some r ∧ w = WritePending k r) ∨
  (∃ k r, Handoffs state !! k = Some r ∧ w = WriteHandoff k r) →
  delivers (planAuthState (rt:=rt) aead state) w.
Proof.
  intros Hw. unfold planAuthState. destruct (_ && _); [done|].
  destruct Hw as [(k & Hk & ->)|[(k & r & Hk & ->)|[(k & r & Hk & ->)|(k & r & Hk & ->)]]];
    apply delivers_then; [left|right; apply delivers_then..]; [|left|right; apply delivers_then..]; [| |left|right];
    try by apply delivers_map.
  apply (delivers_each _ _ k); [by apply elem_of_sortedMapKeys|]. intros n ws Hws. unfold planCredential in Hws.
  destruct (_ && _); [|done]. simplify_eq. left.
Qed.

Lemma delivers_deliveries state w :
  (∃ k, is_Some (Records state !! k) ∧ w = WriteDelivery (deliveryOf state k)) ∨
  (∃ k r, Seen state !! k = Some r ∧ w = WriteSeen k r) ∨
  (∃ k r condition event, EventSubInbox state !! k = Some r ∧
     MarshalCondition (Sub.Condition (E.Subscription_ (I.Envelope r))) = Ok condition ∧
     MarshalEvent (E.Event (I.Envelope r)) = Ok event ∧ w = WriteInbox k r condition event) ∨
  (∃ k r, ChannelStates state !! k = Some r ∧ w = WriteChannel k r) →
  delivers (planDeliveries (rt:=rt) state) w.
Proof.
  intros [(k & Hk & ->)|[(k & r & Hk & ->)|[(k & r & condition & event & Hk & Hc & He & ->)|(k & r & Hk & ->)]]];
    apply delivers_then; [left|right; apply delivers_then..]; [|left|right; apply delivers_then..]; [| |left|right];
    try by apply delivers_map.
  - apply (delivers_each _ _ k); [by apply elem_of_sortedMapKeys|apply delivers_one].
  - apply (delivers_each _ _ (k, r)); [by apply elem_of_rangeMap|]. intros n ws Hws. unfold planInbox in Hws. cbn in Hws.
    rewrite Hc, He in Hws. simplify_eq. left.
Qed.

Lemma delivers_settings state u us r :
  settingsFile files directory = Ok (Some state) → Users state !! u = Some us → r ∈ snapshots us →
  delivers (planSettings (rt:=rt) state) (WriteSnapshot u r).
Proof.
  intros Hfile Hu Hr. apply (delivers_each _ _ (u, us)); [by apply elem_of_rangeMap|]. intros n ws Hws. unfold planUser in Hws.
  cbn in Hws. destruct (forallb _ _); [|done]. simplify_eq. apply list_elem_of_fmap_2.
  destruct (firsts_cover (snapshotsOf (rt:=rt) us) ∅ r) as (y & Hy & Hrev); [by rewrite elem_of_snapshotsOf|set_solver|].
  pose proof (elem_of_firsts _ _ _ Hy) as [Hy' _]. rewrite elem_of_snapshotsOf in Hy'.
  by rewrite <-(canonical_settings Hcan _ _ _ _ _ Hfile Hu Hy' Hr Hrev).
Qed.

Lemma delivers_audit state r :
  auditFile files directory = Ok (Some state) → r ∈ AuditRecords state → delivers (planAuditLog clock rnd state) (WriteAudit r).
Proof.
  intros Hfile Hr. apply (delivers_each _ _ r); [done|]. intros n ws Hws. unfold planAudit in Hws.
  destruct (canonical_audit Hcan _ _ Hfile Hr) as [Hid Hz]. rewrite bool_decide_false, Hz in Hws by done. simplify_eq.
  destruct r. left.
Qed.

Lemma filed_delivered w : filed w → delivers (planFiles (rt:=rt) aead files clock rnd directory) w.
Proof.
  intros Hw. apply delivers_then. destruct w as [r|r|k r|k r|k r|r|k r|k r condition event|k r|r|u r]; cbn in Hw;
    [left|right; apply delivers_then..];
    [|left|left|left|left|right; apply delivers_then..];
    [|..|left|left|left|left|right; apply delivers_then|right; apply delivers_then];
    [|..|left|right];
    repeat match goal with Hx : ∃ _, _ |- _ => destruct Hx | Hx : _ ∧ _ |- _ => destruct Hx end; subst;
    (eapply delivers_file; [done|]);
    first [by apply delivers_registration | by apply delivers_audit | by eapply delivers_settings
          | apply delivers_auth; by eauto 10 | apply delivers_deliveries; by eauto 15].
Qed.
End Canonical.

(** ** Theorems *)

Section Theorems.
Context {sha : Sha256} `{json : EnvelopeJSON} {syntax : JSONSyntax} {legacy : LegacyJSON}.
Context (aead : option AEAD) (files : string → file) (directory : string).

(** The row of a statement is in its table. *)
Definition stored (w : write) (t : store) : Prop :=
  match w with
  | WriteRegistration r => ∃ old, registrations t !! R.InstallationID r = Some (registrationRow r old)
  | WriteCredential r => PgAuth.credentials (auth t) !! CR.ID r = Some (credentialRow r)
  | WriteSession k r => PgAuth.sessions (auth t) !! k = Some (sessionRow r)
  | WritePending k r => PgAuth.pending (auth t) !! k = Some (pendingRow r)
  | WriteHandoff k r => PgAuth.handoffs (auth t) !! k = Some (handoffRow r)
  | WriteDelivery r => PgDelivery.deliveries (delivery t) !! D.ID r = Some (deliveryRow r)
  | WriteSeen k seenAt => PgDelivery.seen (delivery t) !! k = Some (timestamptz seenAt)
  | WriteInbox k r condition event => ∃ c e, jsonb condition = Some c ∧ jsonb event = Some e ∧
      PgDelivery.inbox (delivery t) !! k = Some (inboxRow k r c e)
  | WriteChannel k r => PgDelivery.channels (delivery t) !! k = Some (channelRow r)
  | WriteAudit r => is_Some (audit t !! A.ID r)
  | WriteSnapshot u r => ∃ payload, jsonb (SS.Payload r) = Some payload ∧
      settings t !! (u, SS.Revision r) = Some (snapshotRow r payload)
  end.

Lemma settled_stored w t : settled t w → stored w t.
Proof.
  intros [_ Heff]. destruct t as [tr [tc ts tp th] [td te ti tn] ta tset]. destruct w; took Heff;
    try match goal with E : upsert _ _ _ _ = Ok _ |- _ => apply upsert_lookup in E end; cbn; eauto.
  rewrite lookup_insert_eq. eauto.
Qed.

Lemma planned_settled (rt : GoRuntime) clock rnd n t t' report :
  canonical files directory → TrimSpace directory = directory →
  planned (rt:=rt) aead files clock rnd directory n t = Some (t', report) →
  ∃ ws, planFiles (rt:=rt) aead files clock rnd directory n = Some ws ∧ consistent ws ∧ runAll ws t = Some t' ∧
    report = foldl tally noReport ws.
Proof.
  intros Hcan Htrim. unfold planned. rewrite Htrim. destruct (planFiles _ _ _ _ _ n) as [ws|] eqn:Hplan; [|done]. cbn.
  destruct (runAll ws t) as [u|] eqn:Hrun; [|done]. cbn. intros [= -> <-]. exists ws. split_and!; try done.
  by eapply plan_consistent.
Qed.

(** C23: importing the state files is all or nothing: whatever happens to
    the statements, the tables are left as they were, or with the effect of
    every record of the five files, in the order the import sends them; the
    report is given only in the second case and counts the records.  An error
    has a cause: a statement that was not answered, or a file or record that
    is refused. *)
Theorem legacy_import_atomic (rt : GoRuntime) clock rnd (L : Link store) s :
  TrimSpace directory ≠ "" →
  let t := others L (sent s) (tables s) in
  let outcome := planned (rt:=rt) aead files clock rnd directory (S (sent s)) t in
  match ImportLegacyState (rt:=rt) aead files clock rnd L true directory s with
  | (s', Ok report) => outcome = Some (tables s', report)
  | (s', Err _) => (tables s' = t ∨ ∃ report, outcome = Some (tables s', report)) ∧
      ((∃ i, outcomeOf L i ≠ Answered) ∨ outcome = None)
  end.
Proof. apply import_cases. Qed.

(** A successful import of canonical files loses no record: every
    registration, credential, session, authorization, handoff, delivery,
    message, channel state, audit record and settings snapshot of the files
    is in its table. *)
Theorem legacy_import_complete (rt : GoRuntime) clock rnd (L : Link store) s s' report w :
  canonical files directory → TrimSpace directory = directory → directory ≠ "" →
  ImportLegacyState (rt:=rt) aead files clock rnd L true directory s = (s', Ok report) →
  filed files directory w → stored w (tables s').
Proof.
  intros Hcan Htrim Hdir Himp Hw. pose proof (import_cases (rt:=rt) aead files clock rnd L directory s) as Hcases.
  rewrite Himp in Hcases. apply planned_settled in Hcases as (ws & Hplan & Hcon & Hrun & _); [|done|done|by rewrite Htrim].
  apply settled_stored, (runAll_settled ws _ _ Hcon Hrun). by eapply filed_delivered.
Qed.

(** C22: the import can be repeated: after a successful import of canonical
    files, a second import of the same files, which may visit maps in another
    order and is given another clock and random source, leaves every table as
    it is, and when it is answered reports the same counts. *)
Theorem legacy_import_repeatable (rt rt' : GoRuntime) clock clock' rnd rnd' (L L' : Link store) s s' report n :
  canonical files directory → TrimSpace directory = directory → directory ≠ "" →
  (∀ i t, others L' i t = t) →
  ImportLegacyState (rt:=rt) aead files clock rnd L true directory s = (s', Ok report) →
  let '(s'', answer) := ImportLegacyState (rt:=rt') aead files clock' rnd' L' true directory (mkSession (tables s') n) in
  tables s'' = tables s' ∧ ((∀ i, outcomeOf L' i = Answered) → answer = Ok report).
Proof.
  intros Hcan Htrim Hdir Hquiet Himp. pose proof (import_cases (rt:=rt) aead files clock rnd L directory s) as Hcases.
  rewrite Himp in Hcases. apply planned_settled in Hcases as (ws & Hplan & Hcon & Hrun & ->); [|done|done|by rewrite Htrim].
  pose proof (import_cases (rt:=rt') aead files clock' rnd' L' directory (mkSession (tables s') n)) as Hagain.
  destruct (files_run aead files directory Hcan rt rt' clock clock' rnd rnd' _ (S n) _ Hplan) as (ws' & Hplan' & Hperm).
  pose proof (runAll_again ws ws' _ _ Hcon Hperm Hrun) as Hidle.
  assert (planned (rt:=rt') aead files clock' rnd' directory (S n) (tables s') =
    Some (tables s', foldl tally noReport ws)) as Hplanned.
  { unfold planned. rewrite Htrim, Hplan'. cbn. rewrite Hidle. cbn. by rewrite (tally_perm ws ws'). }
  cbn [sent tables] in Hagain. rewrite Hquiet, Hplanned in Hagain.
  destruct (ImportLegacyState (rt:=rt') aead files clock' rnd' L' true directory (mkSession (tables s') n)) as [s'' [report'|e]].
  - specialize (Hagain ltac:(by rewrite Htrim)). injection Hagain as -> ->. done.
  - destruct Hagain as [Hs Hwhy]; [by rewrite Htrim|]. split; [destruct Hs as [?|[? ?]]; congruence|].
    intros Hall. destruct Hwhy as [[i Hi]|]; [by rewrite Hall in Hi|done].
Qed.
End Theorems.

(** ** Examples *)

Module LegacyExample.
#[local] Existing Instances reference_runtime toy_sha256.
#[local] Instance column : Jsonb := Some.
#[local] Instance envelopes : EnvelopeJSON := PgDeliveryProofs.toy_envelopes.
#[local] Instance anyJSON : JSONSyntax := λ _, true.

Definition phone : R.t := R.zero <| R.Provider := "fcm" |> <| R.DeviceSecret := "secret" |> <| R.UpdatedAt := 1000 |>.
Definition sealed (purpose value : string) : EncryptedValue :=
  match Seal (Some toy_aead) zero_rand purpose value with Ok v => v | Err _ => {| Nonce := ""; Ciphertext := "" |} end.
Definition cred : CR.t := CR.zero <| CR.AccessToken := sealed "cred:access" "a" |> <| CR.RefreshToken := sealed "cred:refresh" "r" |>.
Definition login : S.t := S.mk "cred" "phone" "hash" 1000 2000.
Definition note : D.t := D.zero <| D.EventID := "e1" |> <| D.InstallationID := "phone" |> <| D.Status := "sent" |> <| D.SentAt := 5000 |>.
Definition event : A.t := A.zero <| A.ID := "audit_1" |> <| A.Timestamp := 3000 |>.
Definition anonymous : A.t := A.zero <| A.Timestamp := 3000 |>.
Definition snapshot (revision : Z) : SS.t := SS.zero <| SS.Revision := revision |> <| SS.Payload := "{}" |>.

(** Each file holds its state; [records] is the audit log. *)
Definition legacyJSON (records : list A.t) : LegacyJSON := {|
  UnmarshalRegistrations _ := Ok {["phone" := phone]};
  UnmarshalAuth _ := Ok (mkAuthState {["cred" := cred]} {["token" := login]} ∅ ∅);
  UnmarshalDeliveries _ := Ok (mkDeliveryState {["d1" := note]} {["m1" := 1000]} ∅ ∅);
  UnmarshalAudit _ := Ok (mkAuditState records);
  UnmarshalSettings _ := Ok (mkSettingsState {["user" := SU.mk (Some (snapshot 2)) [snapshot 1; snapshot 2]]})
|}.
Definition disk (path : string) : file := if path == "/state/audit.json" then Contents "{}" else Contents "{ }".
Definition quiet : Link store := alone (λ _, Answered).

Abbreviation run records now s :=
  (ImportLegacyState (legacy:=legacyJSON records) (Some toy_aead) disk (λ _, now) (λ n _, Some (pad_to 12 (String (Ascii.ascii_of_nat n) ""))) quiet
    true "/state" s).

Definition imported : session store := (run [event] 7000 (mkSession emptyStore 0)).1.

Definition counts : LegacyImportReport := mkReport 1 1 1 0 0 1 1 0 0 1 2.

Lemma imported_run : run [event] 7000 (mkSession emptyStore 0) = (imported, Ok counts).
Proof. vm_compute. reflexivity. Qed.

(** A file of the example holds its state. *)
Lemma read_disk {T} (Unmarshal : string → result T) (target state : T) path :
  Unmarshal "{}" = Ok state → Unmarshal "{ }" = Ok state →
  ∀ found, readLegacyJSON disk path Unmarshal target = Ok (Some found) → found = state.
Proof.
  intros H1 H2 found. unfold readLegacyJSON, disk. case_bool_decide.
  - change (len (TrimSpace "{}") =? 0) with false. rewrite H1. congruence.
  - change (len (TrimSpace "{ }") =? 0) with false. rewrite H2. congruence.
Qed.

Lemma disk_canonical : canonical (legacy:=legacyJSON [event]) disk "/state".
Proof.
  split.
  - intros regs k r Hfile Hr. pose proof (read_disk _ _ _ _ eq_refl eq_refl _ Hfile) as ->. apply lookup_singleton_Some in Hr as [<- <-]. by split; [left|].
  - intros state k r Hfile Hr. pose proof (read_disk _ _ _ _ eq_refl eq_refl _ Hfile) as ->. cbn [Credentials Records Users AuditRecords] in *. apply lookup_singleton_Some in Hr as [<- <-]. by left.
  - intros state k r Hfile Hr. pose proof (read_disk _ _ _ _ eq_refl eq_refl _ Hfile) as ->. cbn [Credentials Records Users AuditRecords] in *. apply lookup_singleton_Some in Hr as [<- <-]. by left.
  - intros state r Hfile Hr. pose proof (read_disk _ _ _ _ eq_refl eq_refl _ Hfile) as ->. cbn [Credentials Records Users AuditRecords] in *. by apply list_elem_of_singleton in Hr as ->.
  - intros state u us x y Hfile Hu. pose proof (read_disk _ _ _ _ eq_refl eq_refl _ Hfile) as ->. cbn [Credentials Records Users AuditRecords] in *. apply lookup_singleton_Some in Hu as [<- <-].
    cbn. rewrite !elem_of_cons, !elem_of_nil. intros Hx Hy Hrev. destruct_or?; subst; done.
Qed.

Lemma legacy_import_atomic_witness :
  planned (legacy:=legacyJSON [event]) (Some toy_aead) disk (λ _, 7000) (λ n _, Some (pad_to 12 (String (Ascii.ascii_of_nat n) "")))
    "/state" 1 emptyStore = Some (tables imported, counts).
Proof.
  pose proof (legacy_import_atomic (legacy:=legacyJSON [event]) (Some toy_aead) disk "/state" reference_runtime (λ _, 7000)
    (λ n _, Some (pad_to 12 (String (Ascii.ascii_of_nat n) ""))) quiet (mkSession emptyStore 0) ltac:(done)) as Hatomic.
  rewrite imported_run in Hatomic. exact Hatomic.
Defined.

Lemma legacy_import_complete_witness : PgAuth.sessions (auth (tables imported)) !! "token" = Some (sessionRow login).
Proof.
  apply (legacy_import_complete (legacy:=legacyJSON [event]) (Some toy_aead) disk "/state" reference_runtime (λ _, 7000)
    (λ n _, Some (pad_to 12 (String (Ascii.ascii_of_nat n) ""))) quiet (mkSession emptyStore 0) imported counts
    (WriteSession "token" login) disk_canonical eq_refl ltac:(done) imported_run).
  eexists. split; [reflexivity|reflexivity].
Defined.

Lemma legacy_import_repeatable_witness :
  let '(again, answer) := run [event] 9000 (mkSession (tables imported) 0) in
  tables again = tables imported ∧ answer = Ok counts.
Proof.
  pose proof (legacy_import_repeatable (legacy:=legacyJSON [event]) (Some toy_aead) disk "/state" reference_runtime reference_runtime
    (λ _, 7000) (λ _, 9000) (λ n _, Some (pad_to 12 (String (Ascii.ascii_of_nat n) "")))
    (λ n _, Some (pad_to 12 (String (Ascii.ascii_of_nat n) ""))) quiet quiet (mkSession emptyStore 0) imported counts 0
    disk_canonical eq_refl ltac:(done) (λ _ _, eq_refl) imported_run) as Hagain.
  destruct (ImportLegacyState _ _ _ _ _ _ _ _) as [again answer]. destruct Hagain as [Htables Hanswer].
  split; [exact Htables|]. apply Hanswer. intros i. reflexivity.
Defined.

(** An audit record without an identifier is given a new one by each import,
    so a second import adds it again. *)
Example anonymous_audit_repeated :
  let first := (run [anonymous] 7000 (mkSession emptyStore 0)).1 in
  let second := (run [anonymous] 9000 (mkSession (tables first) (sent first))).1 in
  (size (audit (tables first)), size (audit (tables second))) = (1%nat, 2%nat).
Proof. vm_compute. reflexivity. Qed.

(** A device that signed in again since the first import has a session under
    another token: the unique index refuses the second import. *)
Example import_after_sign_in :
  let moved := (tables imported) <| auth := (auth (tables imported)) <| PgAuth.sessions := {["token2" := login]} |> |> in
  is_ok (run [event] 9000 (mkSession moved 0)).2 = false.
Proof. vm_compute. reflexivity. Qed.
End LegacyExample.
End LegacyImportProofs.
