(* ===== verification/Migrations.v ===== *)
(** * Opening the database: [internal/storage/postgres/database.go]

    The pool, the cipher for stored tokens, and the migrations of the schema.
    The driver and what a migration's script does to the schema are
    parameters.  Every server that starts runs the migrations, and several
    may run them at the same time: [Migrate] is a program that sends one
    statement after the other and goes on with its answer, so that the
    statements of different servers can interleave.  What Postgres does with
    them, the advisory lock included, and the theorem are in
    [MigrationProofs]. *)

From S2P Require Import Prelude GoStrings GoUnicode Credentials Config ConfigLoad Postgres.
Import Postgres Config.

Module Migrations.

(** ** Migrations *)

(** An entry of the embedded directory. *)
Record entry := mkEntry { Name : string; IsDir : bool }.

(** The advisory lock of the migrations: [Ferventi]. *)
Definition databaseMigrationLockKey : Z := 0x46657276656E7469.

(** The statements of [Migrate]. *)
Inductive statement :=
  | Begin
  | AdvisoryLock (key : Z)
  | CreateVersions
  | VersionExists (name : string)
  | RunScript (contents : string)
  | InsertVersion (name : string)
  | CommitTx
  | RollbackTx.

(** A program that sends statements: it has returned, or it sends one and
    goes on with the answer, a boolean or an error. *)
Inductive prog (A : Type) :=
  | Return (answer : result A)
  | Execute (st : statement) (next : result bool → prog A).
Arguments Return {A}.
Arguments Execute {A}.

Fixpoint andThen {A B} (p : prog A) (k : A → prog B) : prog B :=
  match p with
  | Return (Ok a) => k a
  | Return (Err err) => Return (Err err)
  | Execute st next => Execute st (λ answer, andThen (next answer) k)
  end.
#[local] Notation "'let*' x := p 'in' k" := (andThen p (λ x, k)) (at level 200, x pattern, p at level 100, k at level 200).

(** [if err != nil { return fmt.Errorf("operation: %w", err) }]. *)
Definition attempt {A} (operation : string) (r : result A) : prog A :=
  Return match r with Ok a => Ok a | Err err => Err (fmtDatabase operation (Some err)) end.
Definition exec (operation : string) (st : statement) : prog bool := Execute st (attempt operation).

(** [defer func() { _ = tx.Rollback(ctx) }()]. *)
Fixpoint deferRollback {A} (p : prog A) : prog A :=
  match p with
  | Return answer => Execute RollbackTx (λ _, Return answer)
  | Execute st next => Execute st (λ answer, deferRollback (next answer))
  end.

(** The names of the migrations, in order. *)
Definition upMigrations {rt : GoRuntime} (entries : list entry) : list string :=
  sortSlice string_lt (Name <$> List.filter (λ e, negb (IsDir e || negb (HasSuffix (Name e) ".up.sql"))) entries).

Section Migrate.
Context {rt : GoRuntime}.
(** The embedded files. *)
Context (entries : result (list entry)) (ReadFile : string → result string).

Fixpoint migrateLoop (names : list string) : prog () :=
  match names with
  | [] => Return (Ok ())
  | name :: names =>
      let* applied := exec ("check migration " +:+ name) (VersionExists name) in
      if (applied : bool) then migrateLoop names else
      let* contents := attempt ("read migration " +:+ name) (ReadFile ("migrations/" +:+ name)) in
      let* _ := exec ("apply migration " +:+ name) (RunScript contents) in
      let* _ := exec ("record migration " +:+ name) (InsertVersion name) in
      migrateLoop names
  end.

Definition Migrate : prog () :=
  let* _ := exec "begin migration transaction" Begin in
  deferRollback (
    let* _ := exec "lock database migrations" (AdvisoryLock databaseMigrationLockKey) in
    let* _ := exec "create schema_migrations" CreateVersions in
    let* entries := attempt "read embedded migrations" entries in
    let* _ := migrateLoop (upMigrations entries) in
    let* _ := exec "commit database migrations" CommitTx in
    Return (Ok ())).
End Migrate.

Definition Ping (initialized : bool) (ping : result ()) : result () :=
  if negb initialized then Err (ErrMsg "PostgreSQL storage is not initialized") else ping.

(** ** Opening *)

(** The pool's configuration. *)
Record poolConfig := mkPoolConfig {
  ConnString : string;
  MaxConns : Z;
  MinConns : Z;
  MaxConnLifetime : duration;
  MaxConnIdleTime : duration;
  HealthCheckPeriod : duration;
  ConnectTimeout : duration
}.
#[global] Instance eta_pool : Eta poolConfig := λ p,
  mkPoolConfig (ConnString p) (MaxConns p) (MinConns p) (MaxConnLifetime p) (MaxConnIdleTime p) (HealthCheckPeriod p)
    (ConnectTimeout p).

(** The driver and the ciphers of the standard library: [aes.NewCipher]
    takes keys of three lengths. *)
Class Driver := {
  ParseConfig : string → result poolConfig;
  NewWithConfig : poolConfig → result ();
  PingPool : poolConfig → result ();
  NewGCM : string → AEAD
}.

Section Open.
Context {driver : Driver}.

Definition NewCipher (key : string) : result string :=
  if bool_decide (len key ∈ [16; 24; 32]) then Ok key else Err (ErrMsg "crypto/aes: invalid key size").

Definition newAuthAEAD (base64Key : string) : result AEAD :=
  let? key := ConfigLoad.DecodeAuthKey base64Key in
  match NewCipher key with
  | Ok block => Ok (NewGCM block)
  | Err err => Err (ErrMsg ("create auth cipher: " +:+ Error err))
  end.

(** The pools that are open, and the storage or an error. *)
Definition OpenPostgresStorage (cfg : Config) (migrate : result ()) : Z * result (poolConfig * option AEAD) :=
  if TrimSpace (DatabaseURL cfg) == "" then (0, Err (ErrMsg "DATABASE_URL is required")) else
  match ParseConfig (DatabaseURL cfg) with
  | Err err => (0, Err (ErrMsg ("parse DATABASE_URL: " +:+ Error err)))
  | Ok config =>
      let config := config <| MaxConns := DatabaseMaxConns cfg |> <| MinConns := DatabaseMinConns cfg |>
        <| MaxConnLifetime := DatabaseMaxConnLifetime cfg |> <| MaxConnIdleTime := DatabaseMaxConnIdleTime cfg |>
        <| HealthCheckPeriod := 30 * Second |> <| ConnectTimeout := DatabaseConnectTimeout cfg |> in
      match NewWithConfig config with
      | Err err => (0, Err (ErrMsg ("create PostgreSQL pool: " +:+ Error err)))
      | Ok _ =>
          match PingPool config with
          | Err err => (0, Err (ErrMsg ("connect to PostgreSQL: " +:+ Error err)))
          | Ok _ =>
              let aead := if AuthEncryptionKey cfg != "" then
                match newAuthAEAD (AuthEncryptionKey cfg) with Ok aead => Ok (Some aead) | Err err => Err err end
                else Ok None in
              match aead with
              | Err err => (0, Err err)
              | Ok aead =>
                  if DatabaseMigrate cfg then
                    match migrate with
                    | Ok _ => (1, Ok (config, aead))
                    | Err err => (0, Err err)
                    end
                  else (1, Ok (config, aead))
              end
          end
      end
  end.
End Open.

(** A pool that could not be made a storage is closed; the storage has a
    cipher exactly when a key is configured. *)
Lemma open_storage `{Driver} cfg migrate :
  match OpenPostgresStorage cfg migrate with
  | (pools, Ok (config, aead)) => pools = 1 ∧ (aead = None ↔ AuthEncryptionKey cfg = "") ∧
      MaxConns config = DatabaseMaxConns cfg ∧ ConnectTimeout config = DatabaseConnectTimeout cfg
  | (pools, Err _) => pools = 0
  end.
Proof.
  unfold OpenPostgresStorage. case_bool_decide; [done|]. destruct (ParseConfig _) as [config|]; [|done].
  cbv zeta. destruct (NewWithConfig _); [|done]. destruct (PingPool _); [|done].
  destruct (AuthEncryptionKey cfg != "") eqn:Hkey.
  - destruct (newAuthAEAD _) as [aead|]; [|done]. case_bool_decide as Hk; [done|].
    destruct (DatabaseMigrate cfg); [destruct migrate; [|done]|]; cbn; (split_and!; [done| |done|done]); split; done.
  - case_bool_decide as Hk; [|done]. destruct (DatabaseMigrate cfg); [destruct migrate; [|done]|]; cbn; done.
Qed.
End Migrations.
