(* ===== verification/MigrationProofs.v ===== *)
(** * The migrations: several servers at once

    What Postgres does with the statements of [Migrations.Migrate]: each
    server has a connection and at most one open transaction, which sees what
    has been committed and what it has itself written; an advisory lock is
    held by one transaction until it ends, and a server that asks for a lock
    another one holds waits.  Servers start at any time, their statements
    interleave, every statement may fail, the answer of a commit may be lost,
    and a server may crash.

    The theorem: the schema is the initial one or the fully upgraded one, a
    server that got through has it upgraded, one that met no failure gets
    through whenever the upgrade is possible, and the lock is not left
    behind. *)

From S2P Require Import Prelude GoStrings GoUnicode Credentials Config ConfigLoad Postgres Migrations.
Import Postgres Migrations.

Module MigrationProofs.

(** ** Postgres *)

(** The schema, and the table [schema_migrations] once it exists. *)
Record schema (T : Type) := mkSchema { objects : T; versions : option (gset string) }.
Arguments mkSchema {T}.
Arguments objects {T}.
Arguments versions {T}.

Section System.
Context {rt : GoRuntime} {T : Type}.
(** The embedded files, and the effect of a script on the schema. *)
Context (entries : result (list entry)) (ReadFile : string → result string) (script : string → T → result T).
Implicit Types (s : schema T) (st : statement) (i j : nat).

Definition noTable : error := ErrMsg "relation schema_migrations does not exist".

(** What a statement does to the schema, and its answer. *)
Definition effect st s : result (schema T * bool) :=
  match st with
  | CreateVersions => Ok (mkSchema (objects s) (Some (default ∅ (versions s))), true)
  | VersionExists name =>
      if negb (text name) then Err (ErrMsg "invalid byte sequence for encoding UTF8") else
      match versions s with
      | Some applied => Ok (s, bool_decide (name ∈ applied))
      | None => Err noTable
      end
  | RunScript contents => let? t := script contents (objects s) in Ok (mkSchema t (versions s), true)
  | InsertVersion name =>
      if negb (text name) then Err (ErrMsg "invalid byte sequence for encoding UTF8") else
      match versions s with
      | Some applied =>
          if bool_decide (name ∈ applied) then Err (ErrMsg "duplicate key value violates unique constraint schema_migrations_pkey")
          else Ok (mkSchema (objects s) (Some ({[name]} ∪ applied)), true)
      | None => Err noTable
      end
  | Begin | AdvisoryLock _ | CommitTx | RollbackTx => Ok (s, true)
  end.

(** The schema a transaction sees: what is committed, with its own
    statements. *)
Fixpoint replay (done : list statement) s : result (schema T) :=
  match done with
  | [] => Ok s
  | st :: done => let? after := effect st s in replay done after.1
  end.

(** An open transaction: the statements it has executed, and whether one has
    failed, after which it can only roll back. *)
Record openTx := mkOpenTx { executed : list statement; failed : bool }.

(** What is committed, and the transaction that holds each advisory lock. *)
Record db := mkDb { committed : schema T; locks : gmap Z nat }.

Definition release i (d : db) : db := mkDb (committed d) (filter (λ kv, kv.2 ≠ i) (locks d)).

(** A statement of the connection [i]: [None] while it waits for a lock, or
    what it leaves and its answer. *)
Definition perform i st (out : outcome) (d : db) (x : option openTx) : option (db * option openTx * result bool) :=
  match st, out with
  | Begin, Answered => Some (d, Some (mkOpenTx [] false), Ok true)
  | Begin, (Failed err | Lost err) => Some (d, None, Err err)
  | RollbackTx, Answered => Some (release i d, None, Ok true)
  | RollbackTx, (Failed err | Lost err) => Some (release i d, None, Err err)
  | _, _ =>
      match x with
      | None => Some (d, None, Err (ErrMsg "tx is closed"))
      | Some x =>
          let fails err := Some (d, Some (mkOpenTx (executed x) true), Err err) in
          match st, out with
          | CommitTx, Failed err => Some (release i d, None, Err err)
          | CommitTx, _ =>
              if failed x then Some (release i d, None, Err (ErrMsg "commit unexpectedly resulted in rollback")) else
              match replay (executed x) (committed d), out with
              | Ok s, Lost err => Some (release i (mkDb s (locks d)), None, Err err)
              | Ok s, _ => Some (release i (mkDb s (locks d)), None, Ok true)
              | Err err, _ => Some (release i d, None, Err err)
              end
          | _, (Failed err | Lost err) => fails err
          | AdvisoryLock key, Answered =>
              if failed x then fails (ErrMsg "current transaction is aborted") else
              match locks d !! key with
              | Some j => if bool_decide (j = i) then Some (d, Some x, Ok true) else None
              | None => Some (mkDb (committed d) (<[key := i]> (locks d)), Some x, Ok true)
              end
          | _, Answered =>
              if failed x then fails (ErrMsg "current transaction is aborted") else
              match (let? s := replay (executed x) (committed d) in effect st s) with
              | Ok (_, answer) => Some (d, Some (mkOpenTx (executed x ++ [st]) false), Ok answer)
              | Err err => fails err
              end
          end
      end
  end.

(** ** Servers *)

Definition answered (out : outcome) : bool := match out with Answered => true | _ => false end.

(** A server: what it still has to run, its transaction, and whether a
    statement was not answered or it crashed. *)
Record server := mkServer { program : prog (); transaction : option openTx; disturbed : bool }.

Record world := mkWorld { database : db; servers : list server }.

Inductive step : world → world → Prop :=
  | step_start d l : step (mkWorld d l) (mkWorld d (l ++ [mkServer (Migrate entries ReadFile) None false]))
  | step_statement d l i x st next out d' tx' answer :
      l !! i = Some x → program x = Execute st next → perform i st out d (transaction x) = Some (d', tx', answer) →
      step (mkWorld d l)
        (mkWorld d' (<[i := mkServer (next answer) tx' (disturbed x || negb (answered out))]> l))
  | step_crash d l i x :
      l !! i = Some x →
      step (mkWorld d l)
        (mkWorld (release i d) (<[i := mkServer (Return (Err (ErrMsg "the server crashed"))) None true]> l)).

(** ** The upgrade *)

(** The migrations: the files of the directory with the suffix, in the order
    of their names. *)
Definition migrations (files : list entry) (names : list string) : Prop :=
  StronglySorted (λ a b, String.ltb a b = true) names ∧
  ∀ name, name ∈ names ↔ ∃ file stem, file ∈ files ∧ IsDir file = false ∧ Name file = name ∧ name = stem +:+ ".up.sql".

Fixpoint runAll (contents : list string) (t : T) : result T :=
  match contents with
  | [] => Ok t
  | c :: contents => let? t := script c t in runAll contents t
  end.

(** The upgrade of a schema: the pending migrations' scripts, each once and
    in order, and every migration recorded. *)
Definition upgrade s s' : Prop :=
  ∃ files names contents t,
    entries = Ok files ∧ migrations files names ∧
    let applied := default ∅ (versions s) in
    let pending := filter (.∉ applied) names in
    (λ name, ReadFile ("migrations/" +:+ name)) <$> pending = Ok <$> contents ∧
    runAll contents (objects s) = Ok t ∧
    s' = mkSchema t (Some (applied ∪ list_to_set names)).

(** The embedded directory has each name once, and names are texts. *)
Definition directory : Prop :=
  match entries with
  | Ok files => NoDup (Name <$> files) ∧ Forall (λ file, text (Name file) = true) files
  | Err _ => True
  end.

(** ** The scripts *)

(** The same upgrade as a recursion on the names, which the loop follows. *)
Fixpoint applyAll (names : list string) (t : T) (applied : gset string) : option (schema T) :=
  match names with
  | [] => Some (mkSchema t (Some applied))
  | name :: names =>
      if bool_decide (name ∈ applied) then applyAll names t applied else
      match ReadFile ("migrations/" +:+ name) with
      | Ok contents =>
          match script contents t with
          | Ok t => applyAll names t ({[name]} ∪ applied)
          | Err _ => None
          end
      | Err _ => None
      end
  end.
Definition migrated s : option (schema T) :=
  match entries with
  | Ok files => applyAll (upMigrations files) (objects s) (default ∅ (versions s))
  | Err _ => None
  end.

Lemma applyAll_applied names t applied s' :
  applyAll names t applied = Some s' → ∃ applied', versions s' = Some applied' ∧ applied ⊆ applied' ∧ ∀ name, name ∈ names → name ∈ applied'.
Proof.
  revert t applied. induction names as [|name names IH]; intros t applied; cbn [applyAll].
  { intros [= <-]. exists applied. split_and!; [done|done|]. by intros name ?%elem_of_nil. }
  case_bool_decide as Hin.
  - intros (applied' & ? & Hsub & Hall)%IH. exists applied'. split_and!; [done|done|]. intros name' [->|?]%elem_of_cons; auto.
  - destruct (ReadFile _) as [contents|]; [|done]. destruct (script contents t) as [u|]; [|done].
    intros (applied' & ? & Hsub & Hall)%IH. exists applied'. split_and!; [done|set_solver|].
    intros name' [->|?]%elem_of_cons; [set_solver|auto].
Qed.

Lemma applyAll_idle names t applied :
  (∀ name, name ∈ names → name ∈ applied) → applyAll names t applied = Some (mkSchema t (Some applied)).
Proof.
  induction names as [|name names IH]; intros Hall; [done|]. cbn [applyAll].
  rewrite bool_decide_true by (apply Hall; left). apply IH. intros name' Hname. apply Hall. by right.
Qed.

(** A schema that is up to date stays as it is. *)
Lemma migrated_idemp s s' : migrated s = Some s' → migrated s' = Some s'.
Proof.
  unfold migrated. destruct entries as [es|]; [|done]. intros (applied & Hv & _ & Hall)%applyAll_applied.
  destruct s' as [t v]. cbn in *. subst v. by apply applyAll_idle.
Qed.

Lemma filter_other (applied : gset string) (name : string) (names : list string) : name ∉ names →
  filter (.∉ ({[name]} ∪ applied : gset string)) names = filter (.∉ applied) names.
Proof.
  induction names as [|x names IH]; intros Hnot; [done|]. apply not_elem_of_cons in Hnot as [Hx Hnot].
  rewrite !filter_cons, IH by done. by repeat case_decide; set_solver.
Qed.

Lemma applyAll_upgrade names t applied s' : NoDup names →
  applyAll names t applied = Some s' ↔ ∃ contents t',
    (λ name, ReadFile ("migrations/" +:+ name)) <$> filter (.∉ applied) names = Ok <$> contents ∧
    runAll contents t = Ok t' ∧ s' = mkSchema t' (Some (applied ∪ list_to_set names)).
Proof.
  intros Hnd. revert t applied. induction Hnd as [|name names Hnot Hnd IH]; intros t applied; cbn [applyAll].
  { assert (applied ∪ list_to_set (C:=gset string) [] = applied) as -> by set_solver. split.
    - intros [= <-]. by exists [], t.
    - intros ([|c contents] & t' & Hc & Hr & ->); [|done]. cbn in Hr. by injection Hr as ->. }
  case_bool_decide as Hin.
  - rewrite IH, filter_cons_False by tauto.
    by assert (applied ∪ list_to_set (name :: names) = applied ∪ list_to_set names) as -> by set_solver.
  - rewrite filter_cons_True, fmap_cons by done. pose proof (filter_other applied name names Hnot) as Hfilter.
    assert (applied ∪ list_to_set (name :: names) = {[name]} ∪ applied ∪ list_to_set names) as -> by set_solver.
    destruct (ReadFile _) as [c|e] eqn:Hc.
    + destruct (script c t) as [u|e] eqn:Hs.
      * rewrite IH, Hfilter. split.
        -- intros (contents & t' & Hm & Hr & ->). exists (c :: contents), t'. rewrite fmap_cons, Hm. cbn. by rewrite Hs.
        -- intros ([|c' contents] & t' & Hm & Hr & ->); [done|]. injection Hm as <- Hm. cbn in Hr. rewrite Hs in Hr. eauto.
      * split; [done|]. intros ([|c' contents] & t' & Hm & Hr & ->); [done|]. injection Hm as <- Hm. cbn in Hr. by rewrite Hs in Hr.
    + split; [done|]. by intros ([|c' contents] & t' & ? & _).
Qed.

Lemma StronglySorted_ltb_NoDup (names : list string) : StronglySorted (λ a b, String.ltb a b = true) names → NoDup names.
Proof.
  induction 1 as [|x l Hs IH Hx]; constructor; [|done]. intros Hin. rewrite Forall_forall in Hx.
  pose proof (Hx x Hin) as Hlt. by rewrite (less_irrefl (less:=string_lt)) in Hlt.
Qed.

(** The names the code sorts and filters are the migrations. *)
Lemma HasSuffix_iff name suffix : HasSuffix name suffix = true ↔ ∃ stem, name = stem +:+ suffix.
Proof.
  unfold HasSuffix. rewrite bool_decide_eq_true. split.
  - intros H. exists (take_str (String.length name - String.length suffix) name). by rewrite <-H at 2; rewrite take_drop_str.
  - intros [stem ->]. rewrite length_app_str. replace (_ + _ - _)%nat with (String.length stem) by lia. apply drop_str_app.
Qed.

Lemma upMigrations_migrations files names : NoDup (Name <$> files) → migrations files names ↔ names = upMigrations files.
Proof.
  intros Hnd. set (l := Name <$> List.filter (λ e, negb (IsDir e || negb (HasSuffix (Name e) ".up.sql"))) files).
  assert (∀ name, name ∈ l ↔ ∃ file stem, file ∈ files ∧ IsDir file = false ∧ Name file = name ∧ name = stem +:+ ".up.sql") as Hl.
  { intros name. unfold l. rewrite list_elem_of_fmap. setoid_rewrite list_elem_of_In. setoid_rewrite filter_In.
    setoid_rewrite negb_true_iff. setoid_rewrite orb_false_iff. setoid_rewrite negb_false_iff. setoid_rewrite HasSuffix_iff.
    naive_solver. }
  assert (NoDup l) as Hndl by (unfold l; eapply sublist_NoDup; [exact Hnd|apply fmap_sublist, filter_bool_sublist]).
  split.
  - intros [Hs Hm]. assert (l ≡ₚ names) as Hp.
    { apply NoDup_Permutation; [done|by eapply StronglySorted_ltb_NoDup|]. intros name. by rewrite Hl, Hm. }
    unfold upMigrations. fold l. symmetry. transitivity (sortSlice string_lt names); [|by apply sortSlice_id; [apply _|]].
    apply (sortSlice_deterministic string_lt rt rt); [|done]. intros x y _ _. apply string_lt_tie.
  - intros ->. pose proof (stable_sort_strict string_lt l Hndl ltac:(intros x y _ _; apply string_lt_tie)) as [Hs Hp].
    assert (upMigrations files = stable_sort string_lt l) as ->.
    { apply (sortSlice_deterministic string_lt rt reference_runtime); [|done]. intros x y _ _. apply string_lt_tie. }
    split; [done|]. intros name. by rewrite Hp, Hl.
Qed.

Lemma migrated_upgrade s s' : directory → migrated s = Some s' ↔ upgrade s s'.
Proof.
  unfold directory, migrated, upgrade. destruct entries as [files|e]; [|by split; [|intros (? & ? & ? & ? & ? & _)]].
  intros [Hnd _]. assert (NoDup (upMigrations files)) as Hn.
  { eapply StronglySorted_ltb_NoDup, (upMigrations_migrations files); done. }
  rewrite applyAll_upgrade by done. cbv zeta. split.
  - intros (contents & t & H). exists files, (upMigrations files), contents, t. split_and!; [done|by apply upMigrations_migrations|apply H..].
  - intros (files' & names & contents & t & [= <-] & ->%upMigrations_migrations & H); [|done]. by exists contents, t.
Qed.

(** ** Interleavings *)

Section Interleaving.
Context (s0 : schema T).
Abbreviation key := databaseMigrationLockKey.

Definition holds i (d : db) : Prop := locks d !! key = Some i.

(** What is committed is the initial schema or the upgraded one. *)
Definition settled (d : db) : Prop := committed d = s0 ∨ migrated s0 = Some (committed d).

(** What the connection [i] can rely on while others run: its hold on the
    lock, that nothing is committed while it holds it, and that an upgraded
    schema stays. *)
Definition relies i (d d' : db) : Prop :=
  (holds i d ↔ holds i d') ∧ (holds i d → committed d' = committed d) ∧
  (migrated s0 = Some (committed d) → committed d' = committed d).

Lemma relies_refl i d : relies i d d.
Proof. done. Qed.

Lemma relies_trans i d1 d2 d3 : relies i d1 d2 → relies i d2 d3 → relies i d1 d3.
Proof.
  intros (H1 & H2 & H3) (H4 & H5 & H6). split_and!; [by rewrite H1|..].
  - intros H. rewrite H5 by by apply H1. by apply H2.
  - intros H. specialize (H3 H). rewrite H6; congruence.
Qed.

(** What a program leaves, whatever the others do between its statements. *)
Fixpoint wp {A} i (p : prog A) (Q : result A → option openTx → bool → db → Prop) x (t : bool) d : Prop :=
  match p with
  | Return answer => Q answer x t d
  | Execute st next => ∀ d1 out d2 x2 answer, relies i d d1 → settled d1 →
      perform i st out d1 x = Some (d2, x2, answer) →
      (settled d2 ∧ ∀ j, j ≠ i → relies j d1 d2) ∧ wp i (next answer) Q x2 (t || negb (answered out)) d2
  end.

Lemma wp_mono {A} i (p : prog A) (P Q : result A → option openTx → bool → db → Prop) x t d :
  (∀ answer x t d, P answer x t d → Q answer x t d) → wp i p P x t d → wp i p Q x t d.
Proof.
  intros HPQ. revert x t d. induction p as [answer|st next IH]; intros x t d; cbn; [apply HPQ|].
  intros H d1 out d2 x2 answer Hr Hs Hp. destruct (H d1 out d2 x2 answer Hr Hs Hp). auto.
Qed.

Lemma wp_andThen {A B} i (p : prog A) (k : A → prog B) Q x t d :
  wp i p (λ answer x t d, match answer with Ok a => wp i (k a) Q x t d | Err err => Q (Err err) x t d end) x t d →
  wp i (andThen p k) Q x t d.
Proof.
  revert x t d. induction p as [[a|err]|st next IH]; intros x t d; cbn; [done|done|].
  intros H d1 out d2 x2 answer Hr Hs Hp. destruct (H d1 out d2 x2 answer Hr Hs Hp). auto.
Qed.

Lemma wp_deferRollback {A} i (p : prog A) Q x t d :
  wp i p (λ answer, wp i (Execute RollbackTx (λ _, Return answer)) Q) x t d → wp i (deferRollback p) Q x t d.
Proof.
  revert x t d. induction p as [answer|st next IH]; intros x t d; cbn; [done|].
  intros H d1 out d2 x2 answer Hr Hs Hp. destruct (H d1 out d2 x2 answer Hr Hs Hp). auto.
Qed.

Lemma wp_relies {A} i (p : prog A) Q x t d d' :
  (∀ answer, Q answer x t d → Q answer x t d') → relies i d d' → wp i p Q x t d → wp i p Q x t d'.
Proof.
  intros HQ Hr. destruct p as [answer|st next]; cbn; [apply HQ|].
  intros H d1 out d2 x2 answer Hr1. apply H. by eapply relies_trans.
Qed.

Lemma release_holds i j d : holds j (release i d) ↔ holds j d ∧ j ≠ i.
Proof. unfold holds, release. cbn. by rewrite map_lookup_filter_Some. Qed.

Lemma release_relies i j d : j ≠ i → relies j d (release i d).
Proof. intros Hj. split_and!; [|done..]. rewrite release_holds. tauto. Qed.

Lemma settled_migrated d : settled d → migrated (committed d) = migrated s0.
Proof. intros [->|H]; [done|]. by rewrite H, (migrated_idemp _ _ H). Qed.

(** A statement of a transaction that holds the lock. *)
Definition viewed st : bool :=
  match st with CreateVersions | VersionExists _ | RunScript _ | InsertVersion _ => true | _ => false end.

Lemma replay_snoc done st s s1 s2 answer :
  replay done s = Ok s1 → effect st s1 = Ok (s2, answer) → replay (done ++ [st]) s = Ok s2.
Proof.
  revert s. induction done as [|st' done IH]; intros s; cbn.
  - intros [= ->] Heff. by rewrite Heff.
  - destruct (effect st' s) as [[s' a]|]; [|done]. apply IH.
Qed.

Lemma wp_viewed i operation st done s Q t d :
  viewed st = true → holds i d → replay done (committed d) = Ok s →
  (∀ err x d', Q (Err err) x true d') →
  (∀ d', holds i d' → committed d' = committed d → settled d' →
    match effect st s with
    | Ok (s', answer) => replay (done ++ [st]) (committed d') = Ok s' → Q (Ok answer) (Some (mkOpenTx (done ++ [st]) false)) t d'
    | Err _ => ∀ err x, Q (Err err) x t d'
    end) →
  wp i (exec operation st) Q (Some (mkOpenTx done false)) t d.
Proof.
  intros Hst Hheld Hview Herr Hok d1 out d2 x2 answer (Hkeep & Hcom & _) Hs Hp. specialize (Hcom Hheld).
  specialize (Hok d1 (proj1 Hkeep Hheld) Hcom Hs).
  assert (d2 = d1 ∧ wp i (attempt operation answer) Q x2 (t || negb (answered out)) d1) as [-> Hwp]; [|done].
  destruct out as [|err|err]; [|destruct st; try done; injection Hp as <- <- <-; rewrite orb_true_r; (split; [done|apply Herr])..].
  assert (Some (d2, x2, answer) = match effect st s with
    | Ok (_, a) => Some (d1, Some (mkOpenTx (done ++ [st]) false), Ok a)
    | Err err => Some (d1, Some (mkOpenTx done true), Err err) end) as Heq.
  { rewrite <-Hp. unfold perform. cbn [executed failed]. rewrite Hcom, Hview. by destruct st. }
  cbn [answered negb]. rewrite orb_false_r. destruct (effect st s) as [[s' a]|err] eqn:Heff; injection Heq as -> -> ->.
  - split; [done|]. apply Hok. rewrite Hcom. by eapply replay_snoc.
  - split; [done|]. apply Hok.
Qed.

(** The lock: held when the statement is answered. *)
Lemma wp_lock i operation Q t d :
  (∀ err x d', Q (Err err) x true d') →
  (∀ d', holds i d' → settled d' → Q (Ok true) (Some (mkOpenTx [] false)) t d') →
  wp i (exec operation (AdvisoryLock key)) Q (Some (mkOpenTx [] false)) t d.
Proof.
  intros Herr Hok d1 out d2 x2 answer _ Hs Hp.
  destruct out as [|err|err]; [|cbn in Hp; injection Hp as <- <- <-; cbn [answered negb]; rewrite orb_true_r; (split; [done|apply Herr])..].
  cbn [perform failed] in Hp. cbn [answered negb]. rewrite orb_false_r. destruct (locks d1 !! key) as [j|] eqn:Hl.
  - case_bool_decide as Hj; [|done]. injection Hp as <- <- <-. subst j. split; [done|]. by apply Hok.
  - injection Hp as <- <- <-. split.
    + split; [done|]. intros j Hj. split_and!; [|done..]. unfold holds. cbn. rewrite lookup_insert_eq, Hl. split; [done|]. by intros [=].
    + apply Hok; [|done]. unfold holds. cbn. by rewrite lookup_insert_eq.
Qed.

(** The commit of a transaction that holds the lock and sees the upgraded
    schema. *)
Lemma wp_commit i operation done s Q t d :
  holds i d → replay done (committed d) = Ok s → migrated s0 = Some s →
  (∀ err x d', Q (Err err) x true d') →
  (∀ d', ¬ holds i d' → committed d' = s → Q (Ok true) None t d') →
  wp i (exec operation CommitTx) Q (Some (mkOpenTx done false)) t d.
Proof.
  intros Hheld Hview Hm Herr Hok d1 out d2 x2 answer (Hkeep & Hcom & _) Hs Hp. specialize (Hcom Hheld).
  pose proof (proj1 Hkeep Hheld) as Hheld1.
  assert (∀ j, j ≠ i → relies j d1 (release i (mkDb s (locks d1)))) as Hothers.
  { intros j Hj. assert (¬ holds j d1) as Hnot by (unfold holds in *; congruence). split_and!; [|done|].
    - rewrite release_holds. unfold holds in *. cbn. tauto.
    - cbn. congruence. }
  destruct out as [|err|err]; cbn [perform failed executed] in Hp; try rewrite Hcom, Hview in Hp; injection Hp as <- <- <-;
    cbn [answered negb]; rewrite ?orb_true_r, ?orb_false_r.
  - split; [split; [by right|done]|]. apply Hok; [|done]. rewrite release_holds. tauto.
  - split; [|apply Herr]. split; [done|]. intros j Hj. by apply release_relies.
  - split; [split; [by right|done]|apply Herr].
Qed.

(** An error that no failure explains: there is no upgrade. *)
Definition explained (t : bool) : Prop := t = false → migrated s0 = None.

Lemma wp_migrateLoop i names done t applied troubled d :
  Forall (λ name, text name = true) names → holds i d →
  replay done (committed d) = Ok (mkSchema t (Some applied)) → applyAll names t applied = migrated s0 →
  wp i (migrateLoop ReadFile names) (λ answer x troubled d,
    match answer with
    | Ok _ => ∃ done s, x = Some (mkOpenTx done false) ∧ holds i d ∧ replay done (committed d) = Ok s ∧ migrated s0 = Some s
    | Err _ => explained troubled
    end) (Some (mkOpenTx done false)) troubled d.
Proof.
  intros Htext. revert done t applied d. induction Htext as [|name names Hname _ IH]; intros done t applied d Hheld Hview Hm.
  { cbn [migrateLoop wp]. cbn [applyAll] in Hm. eauto 7. }
  cbn [migrateLoop]. cbn [applyAll] in Hm. apply wp_andThen. eapply wp_viewed; [done..|]. intros d1 Hheld1 _ _.
  cbn [effect versions]. rewrite Hname. cbn [negb]. intros Hview1.
  case_bool_decide as Hin; [by eapply IH|].
  apply wp_andThen. cbn [wp attempt]. destruct (ReadFile _) as [contents|e]; [|by intros _].
  apply wp_andThen. eapply wp_viewed; [done..|]. intros d2 Hheld2 _ _.
  cbn [effect objects versions]. destruct (script contents t) as [t'|e]; [|by intros err x _]. cbn [result_bind]. intros Hview2.
  apply wp_andThen. eapply wp_viewed; [done..|]. intros d3 Hheld3 _ _.
  cbn [effect objects versions]. rewrite Hname, bool_decide_false by done. cbn [negb]. intros Hview3. by eapply IH.
Qed.

(** What a server leaves when it returns. *)
Definition finished i (answer : result ()) (x : option openTx) (t : bool) (d : db) : Prop :=
  x = None ∧ ¬ holds i d ∧ match answer with Ok _ => migrated s0 = Some (committed d) | Err _ => explained t end.

(** The deferred rollback. *)
Lemma wp_rollback i answer x t d :
  match answer with Ok _ => migrated s0 = Some (committed d) | Err _ => explained t end →
  wp i (Execute RollbackTx (λ _, Return answer)) (finished i) x t d.
Proof.
  intros Hanswer d1 out d2 x2 ans (_ & _ & Hup) Hs Hp.
  assert (d2 = release i d1 ∧ x2 = None) as [-> ->] by by destruct out; cbn in Hp; simplify_eq.
  split; [split; [done|]; intros j Hj; by apply release_relies|]. split_and!; [done|rewrite release_holds; tauto|].
  destruct answer as [[]|e]; [by rewrite <-(Hup Hanswer) in Hanswer|].
  intros [Ht _]%orb_false_iff. by apply Hanswer.
Qed.

Lemma wp_Migrate i x t d : directory → ¬ holds i d → x = None → wp i (Migrate entries ReadFile) (finished i) x t d.
Proof.
  intros Hdir Hnot ->. unfold Migrate. apply wp_andThen. intros d1 out d2 x2 answer (Hkeep & _) Hs Hp.
  assert (d2 = d1) as -> by by destruct out; cbn in Hp; simplify_eq. split; [split; [done|intros; apply relies_refl]|].
  destruct out as [|e|e]; cbn in Hp; injection Hp as <- <-; cbn [wp attempt answered negb];
    [|by rewrite orb_true_r; split_and!; [done|rewrite <-Hkeep|]..]. rewrite orb_false_r.
  apply wp_deferRollback.
  assert (∀ err x d', wp i (Execute RollbackTx (λ _, Return (Err err))) (finished i) x true d') as Herr.
  { intros err x d'. by apply wp_rollback. }
  apply wp_andThen, wp_lock; [done|]. intros d2 Hheld2 Hs2.
  apply wp_andThen. eapply wp_viewed; [done..|]. intros d3 Hheld3 Hcom3 Hs3. cbn [effect]. intros Hview.
  apply wp_andThen. unfold directory in Hdir. pose proof (settled_migrated _ Hs3) as Hm. unfold migrated at 1 in Hm.
  destruct entries as [files|e] eqn:Hentries; cbn [wp attempt]; [|by apply wp_rollback; intros _; rewrite <-Hm].
  apply wp_andThen. eapply wp_mono; [|eapply wp_migrateLoop; [|done|done|]].
  - intros [[]|err] y t' d4; [|by intros Hex; apply wp_rollback]. intros (done & s & -> & Hheld & Hview' & Hup).
    apply wp_andThen. eapply wp_commit; [done..|]. intros d5 Hheld5 Hcom. cbn [wp]. apply wp_rollback. by rewrite Hcom.
  - destruct Hdir as [Hnd Htext]. rewrite Forall_forall in Htext. apply Forall_forall. intros name Hin.
    destruct (proj2 (upMigrations_migrations files _ Hnd) eq_refl) as [_ Hmem].
    apply Hmem in Hin as (file & stem & Hfile & _ & <- & _). by apply Htext.
  - by rewrite Hcom3 in Hm.
Qed.

(** ** Every reachable state *)

Definition invariant (w : world) : Prop :=
  settled (database w) ∧
  (∀ i x, servers w !! i = Some x → wp i (program x) (finished i) (transaction x) (disturbed x) (database w)) ∧
  (∀ i, holds i (database w) → is_Some (servers w !! i)).

Lemma finished_relies i answer x t d d' : relies i d d' → finished i answer x t d → finished i answer x t d'.
Proof.
  intros (Hh & _ & Hup) (-> & Hnot & Ha). split_and!; [done|by rewrite <-Hh|]. destruct answer; [|done]. by rewrite (Hup Ha).
Qed.

(** A step of one server: the others rely on what they relied on. *)
Lemma invariant_update d l i x y d' :
  invariant (mkWorld d l) → l !! i = Some x → settled d' → (∀ j, j ≠ i → relies j d d') →
  wp i (program y) (finished i) (transaction y) (disturbed y) d' → invariant (mkWorld d' (<[i := y]> l)).
Proof.
  intros (_ & Hall & Hlock) Hx Hs Hothers Hy. split_and!; [done|..].
  - intros j z. cbn. destruct (decide (j = i)) as [->|Hj].
    + rewrite list_lookup_insert_eq by by eapply lookup_lt_Some. by intros [= <-].
    + rewrite list_lookup_insert_ne by done. intros Hz. eapply wp_relies; [|by apply Hothers|by apply Hall].
      intros answer. apply finished_relies. by apply Hothers.
  - intros j Hj. cbn in *. rewrite lookup_lt_is_Some, length_insert, <-lookup_lt_is_Some.
    destruct (decide (j = i)) as [->|Hne]; [done|]. apply Hlock. by apply Hothers.
Qed.

Lemma invariant_step w w' : directory → step w w' → invariant w → invariant w'.
Proof.
  intros Hdir [d l|d l i x st next out d' tx' answer Hx Hprog Hp|d l i x Hx] Hinv.
  - destruct Hinv as (Hs & Hall & Hlock). split_and!; [done|..].
    + cbn. intros i x [Hi|[Hlen Hi]]%lookup_app_Some; [by apply Hall|].
      apply list_lookup_singleton_Some in Hi as [Hi <-]. apply wp_Migrate; [done| |done].
      intros [y Hy%lookup_lt_Some]%Hlock. cbn in Hy. lia.
    + cbn. intros i Hi. destruct (Hlock i Hi) as [y Hy]. cbn in Hy. exists y. by apply lookup_app_l_Some.
  - pose proof Hinv as (Hs & Hall & _). specialize (Hall i x Hx). cbn in Hall. rewrite Hprog in Hall.
    destruct (Hall d out d' tx' answer (relies_refl i d) Hs Hp) as [[Hs' Hothers] Hwp].
    by eapply invariant_update.
  - eapply invariant_update; [done|done|apply Hinv|intros j Hj; by apply release_relies|].
    split_and!; [done|rewrite release_holds; tauto|done].
Qed.
End Interleaving.

(** C24: however many servers start, whenever their statements interleave,
    whatever statement fails, whichever commit is executed without an answer
    and whoever crashes: what is committed is the initial schema, or the
    initial schema with the script of every pending [.up.sql] file of the
    directory executed once, in the order of the names, and every such file
    recorded; it is the upgraded one once a server's [Migrate] has returned
    without an error; a server whose statements were all answered has an
    error only when there is no upgrade (a file cannot be read, or Postgres
    refuses a script), never because another server ran the migrations at
    the same time; and the advisory lock is held only by a server that is
    still running. *)
Theorem migrations_applied_once (s0 : schema T) (w : world) :
  directory → rtc step (mkWorld (mkDb s0 ∅) []) w →
  (committed (database w) = s0 ∨ upgrade s0 (committed (database w))) ∧
  (∀ i x, servers w !! i = Some x →
    match program x with
    | Return (Ok _) => upgrade s0 (committed (database w))
    | Return (Err _) => disturbed x = false → ∀ s', ¬ upgrade s0 s'
    | Execute _ _ => True
    end) ∧
  (∀ i, locks (database w) !! databaseMigrationLockKey = Some i →
    ∃ x st next, servers w !! i = Some x ∧ program x = Execute st next).
Proof.
  intros Hdir Hreach. assert (invariant s0 w) as (Hs & Hall & Hlock).
  { revert w Hreach. apply rtc_ind_r; [|intros w1 w2 _ Hstep IH; by eapply invariant_step].
    split_and!; [by left|done|]. intros i. unfold holds. cbn. by rewrite lookup_empty. }
  split_and!.
  - destruct Hs as [Hs|Hs]; [by left|]. right. by apply migrated_upgrade.
  - intros i x Hx. specialize (Hall i x Hx). destruct (program x) as [[[]|e]|]; [| |done]; destruct Hall as (_ & _ & Hall).
    + by apply migrated_upgrade.
    + intros Hd s' Hup%migrated_upgrade; [|done]. by rewrite (Hall Hd) in Hup.
  - intros i Hi. destruct (Hlock i Hi) as [x Hx]. exists x. specialize (Hall i x Hx).
    destruct (program x) as [answer|st next]; [by destruct Hall as (_ & Hnot & _)|eauto].
Qed.
End System.

(** ** Example *)

(** The embedded files. *)
Definition embedded : list entry :=
  (λ name, mkEntry name false) <$>
  ["000001_initial.down.sql"; "000001_initial.up.sql"; "000002_apns_device_token.down.sql";
   "000002_apns_device_token.up.sql"; "000003_notification_channel_rules.down.sql";
   "000003_notification_channel_rules.up.sql"; "000004_notification_channel_mutes.down.sql";
   "000004_notification_channel_mutes.up.sql"].

(** A schema that keeps the scripts it was given. *)
Definition logging (contents : string) (log : list string) : result (list string) := Ok (log ++ [contents]).
Abbreviation logged := (schema (list string)).

Section Runs.
#[local] Existing Instance reference_runtime.
Abbreviation wstep := (step (Ok embedded) Ok logging).

(** A schedule: a server starts, or one sends its next statement. *)
Inductive move := Start | Send (i : nat) (out : outcome) | Crash (i : nat).
Definition advance (w : world (T:=list string)) (m : move) : option world :=
  match m with
  | Start => Some (mkWorld (database w) (servers w ++ [mkServer (Migrate (Ok embedded) Ok) None false]))
  | Send i out =>
      x ← servers w !! i;
      match program x with
      | Return _ => None
      | Execute st next =>
          '(d, tx, answer) ← perform logging i st out (database w) (transaction x);
          Some (mkWorld d (<[i := mkServer (next answer) tx (disturbed x || negb (answered out))]> (servers w)))
      end
  | Crash i =>
      _ ← servers w !! i;
      Some (mkWorld (release i (database w))
        (<[i := mkServer (Return (Err (ErrMsg "the server crashed"))) None true]> (servers w)))
  end.
Fixpoint schedule (w : world) (moves : list move) : option world :=
  match moves with
  | [] => Some w
  | m :: moves => w ← advance w m; schedule w moves
  end.

Lemma advance_step w m w' : advance w m = Some w' → wstep w w'.
Proof.
  destruct w as [d l], m as [|i out|i]; cbn.
  - intros [= <-]. constructor.
  - destruct (l !! i) as [x|] eqn:Hx; [|done]. cbn. destruct (program x) as [|st next] eqn:Hp; [done|].
    destruct (perform _ i st out d (transaction x)) as [[[d' tx] answer]|] eqn:Hq; [|done]. cbn. intros [= <-]. by econstructor.
  - destruct (l !! i) as [x|] eqn:Hx; [|done]. cbn. intros [= <-]. by econstructor.
Qed.

Lemma schedule_steps w moves w' : schedule w moves = Some w' → rtc wstep w w'.
Proof.
  revert w. induction moves as [|m moves IH]; intros w; cbn; [by intros [= ->]|].
  destruct (advance w m) as [w1|] eqn:Hm; [|done]. cbn. intros H. eapply rtc_l; [by apply (advance_step _ m)|by apply IH].
Qed.

(** Three servers: the second waits for the first, which crashes after
    two scripts; the second then runs the migrations, and the third finds
    them applied. *)
Definition fresh : world (T:=list string) := mkWorld (mkDb (mkSchema [] None) ∅) [].
Definition sends (n i : nat) : list move := replicate n (Send i Answered).
Definition contended : list move :=
  [Start; Start; Start] ++ sends 1 1 ++ sends 9 0 ++ [Crash 0] ++ sends 16 1 ++ sends 9 2.

Example second_waits : schedule fresh ([Start; Start] ++ sends 1 1 ++ sends 9 0 ++ sends 1 1) = None.
Proof. vm_compute. reflexivity. Qed.

Definition reached : world := default fresh (schedule fresh contended).

Lemma migrations_applied_once_witness :
  objects (committed (database reached)) =
    ["migrations/000001_initial.up.sql"; "migrations/000002_apns_device_token.up.sql";
     "migrations/000003_notification_channel_rules.up.sql"; "migrations/000004_notification_channel_mutes.up.sql"] ∧
  upgrade (Ok embedded) Ok logging (mkSchema [] None) (committed (database reached)).
Proof.
  split; [vm_compute; reflexivity|].
  assert (directory (Ok embedded)) as Hdir.
  { split; [by apply (bool_decide_unpack _)|by repeat constructor]. }
  assert (schedule fresh contended = Some reached) as Hrun by (vm_compute; reflexivity).
  destruct (migrations_applied_once (Ok embedded) Ok logging (mkSchema [] None) reached Hdir (schedule_steps _ _ _ Hrun)) as (_ & Hall & _).
  destruct (servers reached !! 2%nat) as [x|] eqn:Hx; [|vm_compute in Hx; discriminate Hx].
  specialize (Hall 2%nat x Hx). assert (program x = Return (Ok ())) as Hp by (vm_compute in Hx; injection Hx as <-; reflexivity).
  rewrite Hp in Hall. exact Hall.
Defined.
End Runs.
End MigrationProofs.
