(* ===== verification/Commands.v ===== *)
(** * The commands: [cmd/ferventio-backend], [cmd/ferventio-migrate-json]

    The start and the end of the server as the sequence of what it does to
    its resources, with the deferred calls at every return; the filter that
    keeps health probes out of the log; and the import command.  Signals, the
    listener and the outcome of the calls are parameters. *)

From S2P Require Import Prelude GoStrings GoUnicode NetIP Credentials Config RateLimit OAuth ConfigLoad ConfigProofs Postgres.
From S2P Require Import DotEnv Sender Migrations LegacyImport.
Import Config.

Module Commands.

(** ** The filter of the log ([logging.go]) *)

Record logRecord := mkRecord { Message : string; Attrs : list (string * string) }.

(** [record.Attrs] with a function that stops at the first path. *)
Fixpoint probePath (attrs : list (string * string)) (isProbe : bool) : bool :=
  match attrs with
  | [] => isProbe
  | (key, value) :: attrs =>
      if key != "path" then probePath attrs isProbe else (value == "/healthz") || (value == "/readyz")
  end.
Definition isHealthProbeRequest (record : logRecord) : bool :=
  if Message record != "request" then false else probePath (Attrs record) false.

(** [Handle]: what reaches the next handler, and its answer. *)
Definition Handle (next : logRecord → option error) (record : logRecord) : list logRecord * option error :=
  if isHealthProbeRequest record then ([], None) else ([record], next record).

(** ** The server ([main.go]) *)

Record httpServer := mkHTTP {
  Addr : string;
  ReadHeaderTimeout : duration;
  MaxHeaderBytes : Z;
  ReadTimeout : duration;
  WriteTimeout : duration;
  IdleTimeout : duration
}.

(** What the process does to its resources. *)
Inductive action :=
| CatchSignals
| OpenPool
| StartApplication (withAuth : bool)
| StartWorkers
| StartUserChat
| Listen (server : httpServer)
| CancelWorkers
| Shutdown (limit : duration)
| ClosePool
| ReleaseSignals.
#[global] Instance action_eq_dec : EqDecision action.
Proof. intros x y. unfold Decision. repeat decide equality. Defined.

(** Why the server stops: a signal, or the listener returned;
    [http.ErrServerClosed] is told from other errors. *)
Inductive ending := Signalled | ServerClosed | ServeFailed (err : error).

Section Run.
Context {tables : RuneTables} {uni : Unicode} {driver : Migrations.Driver}.
Context (Sys : DotEnv.System) (ParseURL : string → option NetURL.URL).
(** The migrations, the Firebase client and the APNs key as they turn out,
    and the end of the server. *)
Context (migrate : result ()) (newSender : Config → result Sender.SenderConfig).
Context (ended : ending) (shutdownErr : option error).

Definition httpServerOf (cfg : Config) : httpServer :=
  mkHTTP (ListenAddress cfg) (Config.ReadHeaderTimeout cfg) (32 * 2 ^ 10) (15 * Second) (30 * Second) (60 * Second).

(** The body after the workers have been started; the deferred calls follow
    at its end: [cancelWorkers], [storage.Close], [stop]. *)
Definition serve (cfg : Config) : list action * option error :=
  match ended with
  | Signalled => ([Listen (httpServerOf cfg); CancelWorkers; Shutdown (10 * Second)], shutdownErr)
  | ServerClosed => ([Listen (httpServerOf cfg)], None)
  | ServeFailed err => ([Listen (httpServerOf cfg)], Some err)
  end.

Definition run : list action * option error :=
  match ConfigLoad.LoadConfig Sys ParseURL with
  | Err err => ([], Some err)
  | Ok cfg =>
      match (Migrations.OpenPostgresStorage cfg migrate).2 with
      | Err err => ([CatchSignals; ReleaseSignals], Some err)
      | Ok storage =>
          match newSender cfg with
          | Err err => ([CatchSignals; OpenPool; ClosePool; ReleaseSignals], Some err)
          | Ok sender =>
              let '(served, err) := serve cfg in
              ([CatchSignals; OpenPool; StartApplication (OAuth.AuthEnabled cfg); StartWorkers; StartUserChat] ++ served ++
               [CancelWorkers; ClosePool; ReleaseSignals], err)
          end
      end
  end.

(** [main]: the exit code. *)
Definition exitCode (err : option error) : Z := match err with Some _ => 1 | None => 0 end.
End Run.

(** ** The import command *)

Definition migrateConfig (databaseURL authKey : string) : Config :=
  Config.zero <| DatabaseURL := databaseURL |> <| DatabaseMaxConns := 4 |> <| DatabaseMinConns := 1 |>
    <| DatabaseMaxConnLifetime := 30 * Minute |> <| DatabaseMaxConnIdleTime := 5 * Minute |>
    <| DatabaseConnectTimeout := 10 * Second |> <| DatabaseMigrate := true |> <| AuthEncryptionKey := authKey |>.

(** The exit code, and the report that is printed.  [imports] runs
    [ImportLegacyState] with the cipher of the storage. *)
Definition migrateJSON `{Migrations.Driver} (Getenv : string → string) (migrate : result ())
    (imports : option AEAD → result LegacyImport.LegacyImportReport) : Z * option LegacyImport.LegacyImportReport :=
  let databaseURL := Getenv "DATABASE_URL" in
  if databaseURL == "" then (2, None) else
  match (Migrations.OpenPostgresStorage (migrateConfig databaseURL (Getenv "AUTH_ENCRYPTION_KEY")) migrate).2 with
  | Err _ => (1, None)
  | Ok (_, aead) =>
      match imports aead with
      | Err _ => (1, None)
      | Ok report => (0, Some report)
      end
  end.

(** ** Theorems *)

(** A record is kept out exactly when it is the access record of a probe. *)
Lemma probePath_spec attrs b :
  probePath attrs b = match List.filter (λ kv, kv.1 == "path") attrs with
                      | [] => b
                      | kv :: _ => (kv.2 == "/healthz") || (kv.2 == "/readyz")
                      end.
Proof. induction attrs as [|[k v] attrs IH]; [done|]. cbn. by destruct (k == "path"). Qed.

Lemma filter_keeps next record :
  (Handle next record).1 = [] ↔
  Message record = "request" ∧ ∃ value, head (List.filter (λ kv, kv.1 == "path") (Attrs record)) = Some ("path", value) ∧
    value ∈ ["/healthz"; "/readyz"].
Proof.
  unfold Handle, isHealthProbeRequest. rewrite probePath_spec.
  destruct (List.filter _ _) as [|[k v] l] eqn:Hf; cbn.
  - destruct (Message record != "request"); split; [done|naive_solver|done|naive_solver].
  - assert (k = "path") as ->.
    { assert (List.In (k, v) (List.filter (λ kv : string * string, kv.1 == "path") (Attrs record))) as [_ Hk]%filter_In
        by (rewrite Hf; by left). by apply bool_decide_eq_true in Hk. }
    destruct (Message record != "request") eqn:Hm; [case_bool_decide; naive_solver|].
    case_bool_decide as Hmsg; [|done]. destruct (_ || _) eqn:Hv; cbn.
    + split; [|done]. intros _. split; [done|]. exists v. split; [done|].
      apply orb_true_iff in Hv as [->%bool_decide_eq_true| ->%bool_decide_eq_true]; set_solver.
    + split; [done|]. intros (_ & value & [= <-] & Hin). apply orb_false_iff in Hv as [H1%bool_decide_eq_false H2%bool_decide_eq_false].
      set_solver.
Qed.

Section Lifecycle.
Context {tables : RuneTables} {uni : Unicode} {driver : Migrations.Driver}.
Context (Sys : DotEnv.System) (ParseURL : string → option NetURL.URL).
Context (migrate : result ()) (newSender : Config → result Sender.SenderConfig).
Context (ended : ending) (shutdownErr : option error).
Abbreviation trace := (run Sys ParseURL migrate newSender ended shutdownErr).1.

(** The first occurrence of [x] is before the last of [y]. *)
Definition before (x y : action) (l : list action) : Prop :=
  ∃ l1 l2 l3, l = l1 ++ [x] ++ l2 ++ [y] ++ l3 ∧ x ∉ l1 ∧ y ∉ l3.

Lemma before_intro i j x y l :
  l !! i = Some x → l !! j = Some y → bool_decide (i < j)%nat && bool_decide (x ∉ take i l) && bool_decide (y ∉ drop (S j) l) = true →
  before x y l.
Proof.
  intros Hx Hy [[Hlt%bool_decide_eq_true H1%bool_decide_eq_true]%andb_true_iff H2%bool_decide_eq_true]%andb_true_iff.
  exists (take i l), (drop (S i) (take j l)), (drop (S j) l). split_and!; [|done|done].
  transitivity (take j l ++ y :: drop (S j) l); [by rewrite take_drop_middle|].
  assert (take j l !! i = Some x) as Hx' by (by rewrite lookup_take_lt).
  rewrite <-(take_drop_middle (take j l) i x Hx') at 1. rewrite take_take, Nat.min_l by lia.
  by rewrite <-!app_assoc.
Qed.

(** The life of the server.  On every path the pool is closed as often
    as it is opened, at most once, and the signals are released; the server
    listens only with a configuration that was accepted, after the pool was
    opened and the senders were made; and the workers, once started, are told
    to stop before the pool is closed. *)
Theorem server_lifecycle :
  count_occ action_eq_dec trace ClosePool = count_occ action_eq_dec trace OpenPool ∧
  (count_occ action_eq_dec trace OpenPool ≤ 1)%nat ∧
  count_occ action_eq_dec trace ReleaseSignals = count_occ action_eq_dec trace CatchSignals ∧
  (∀ server, Listen server ∈ trace →
     before OpenPool (Listen server) trace ∧ before StartWorkers CancelWorkers trace ∧ before CancelWorkers ClosePool trace ∧
     ∃ cfg sender, ConfigLoad.LoadConfig Sys ParseURL = Ok cfg ∧ newSender cfg = Ok sender ∧ server = httpServerOf cfg ∧
       StartApplication (OAuth.AuthEnabled cfg) ∈ trace).
Proof.
  assert (∀ (l : list action) (P : httpServer → Prop), (∀ server, Listen server ∉ l) → ∀ server, Listen server ∈ l → P server) as Hnone.
  { intros l P Hl server Hin. by destruct (Hl server). }
  unfold run. destruct (ConfigLoad.LoadConfig _ _) as [cfg|e]; [|split_and!; [done|cbn; lia|done|apply Hnone; set_solver]].
  destruct (Migrations.OpenPostgresStorage _ _).2 as [storage|e]; [|split_and!; [done|cbn; lia|done|apply Hnone; set_solver]].
  destruct (newSender cfg) as [sender|e] eqn:Hs; [|split_and!; [done|cbn; lia|done|apply Hnone; set_solver]].
  unfold serve. set (http := httpServerOf cfg). set (auth := OAuth.AuthEnabled cfg).
  destruct ended; cbn [app fst]; (split_and!; [done|cbn; lia|done|]); intros server Hin;
    (assert (server = http) as -> by (rewrite !elem_of_cons, elem_of_nil in Hin; naive_solver)).
  - split_and!; [by apply (before_intro 1 5)|by apply (before_intro 3 8)|by apply (before_intro 6 9)|].
    exists cfg, sender. split_and!; [done..|]. set_solver.
  - split_and!; [by apply (before_intro 1 5)|by apply (before_intro 3 6)|by apply (before_intro 6 7)|].
    exists cfg, sender. split_and!; [done..|]. set_solver.
  - split_and!; [by apply (before_intro 1 5)|by apply (before_intro 3 6)|by apply (before_intro 6 7)|].
    exists cfg, sender. split_and!; [done..|]. set_solver.
Qed.
End Lifecycle.
End Commands.
